(* ===== verification/_CoqProject ===== *)
-Q . S2P
Prelude.v
Transactions.v
Bundles.v
Orders.v
OrderCodec.v
ConstraintProofs.v
SimTypes.v
Samples.v
OrderSinks.v
ReplacementManager.v
OrderPool.v
OrderPriority.v
PrimitiveWitnesses.v
BlockOrders.v
BlockOrdersInv.v
World.v
TxSimCache.v
SampleChain.v
CommitMonad.v
OrderCommit.v
OrderCommitSafe.v
OrderCommitSpec.v
OrderCommitProfit.v
CommitWitnesses.v
PartialBlock.v
SimTree.v
SimTreeInv.v
SimTreeSpec.v
SimulateSpec.v
PartialBlockInv.v
Finalize.v
ConstraintPool.v
BlockHelper.v
BlockHelperSpec.v
HelperWitnesses.v
SparseTrie.v
TrieModel.v
TrieRep.v
TrieSplit.v
TriePaths.v
TrieInsertSpec.v
TrieMerge.v
TrieDeleteSpec.v
TrieHashSpec.v
TrieSpec.v
TrieAddSpec.v
TrieStoreSpec.v
TrieWitnesses.v
OrderingBuilder.v
BlockOutput.v
BlockOutputSpec.v
OrderingBuilderSpec.v
OrderIntakeSpec.v
BuilderWitnesses.v
ConflictGroups.v
ConflictIndex.v
ConflictGroupsSpec.v
ConflictTasks.v
ConflictTasksSpec.v
ConflictResolver.v
ConflictResolverSpec.v
ParallelBuilder.v
ParallelBuilderSpec.v
ShareBundleMerger.v
MergerGroups.v
MergerSpec.v
MergerRefine.v
ParallelWitnesses.v
SimulationJob.v
Redistribution.v
RedistributionSpec.v
BacktestData.v
BacktestExecute.v
LandedOrders.v
LandedOrdersSpec.v
Redistribute.v
RedistributeSpec.v
RedistributeResult.v
RedistributionWitnesses.v
TxSimCacheSpec.v
