(* ===== verification/Prelude.v ===== *)
(** * rbuilder with constraints: a verification development

    The repository is an Ethereum block builder (a fork of rbuilder) extended
    with constraints: lists of transactions that a block has to contain.  Paths
    below are relative to src/crates/rbuilder/src unless they name another
    crate.

    ** The program

    Orders (mempool transactions, bundles, share bundles) and cancellations
    arrive over RPC and are kept in the order pool, which replays and forwards
    them to the sinks of the block being built.  A replacement manager turns
    the unordered flow into inserts and removals; simulated orders go to a
    prioritized store, from which a building algorithm takes them one by one.
    Each is executed on a fork of the state; the block under construction
    accumulates what was executed, pays combined refunds and the proposer, and
    is sealed.  The block building helper wraps these steps, appends missing
    constraint transactions, keeps the trace of the block and adjusts a sealed
    block to another payment.  Constraints have their own RPC and pool, and
    reach the block twice: as ordinary bundles and as a list that is enforced
    when the block is finalized.  The state root of a block comes from a sparse
    Merkle Patricia trie (the crate eth-sparse-mpt) that is loaded from proofs,
    changed and hashed again.

    ** Files

    - Prelude.v: results, panics, machine integers, ordered comparisons, lists;
      the tactics and the hint database [rust] of the development.
    - Transactions.v, Bundles.v, Orders.v, SimTypes.v: the crate
      rbuilder-primitives (lib.rs, evm_inspector.rs, order_statistics.rs).
      Records and enums with the source's fields; nonces, listings, ids, space,
      refund configuration, simulation values, used state traces; the derived
      equality of orders.
    - OrderCodec.v: serialize.rs of the crate, orders as they are sent and stored:
      decoding with its checks, and encoding.
    - ConstraintProofs.v: building/constraint_proofs.rs and, of
      live_builder/block_output, constraint_proof_observer.rs and
      constraint_proof_storage.rs, the inclusion proofs of constraint transactions.
    - OrderSinks.v: live_builder/order_input/order_sink.rs,
      replaceable_order_sink.rs, mempool_txs_detector.rs and
      blob_type_order_filter.rs.  The traits [OrderSink] and
      [ReplaceableOrderSink] are type classes over the state of the sink.
    - ReplacementManager.v: order_replacement_manager.rs.
    - OrderPool.v: orderpool.rs and the command processing of order_input/mod.rs.
    - OrderPriority.v: building/block_orders/order_priority.rs.
    - BlockOrders.v, BlockOrdersInv.v: block_orders/mod.rs and
      prioritized_order_store.rs, with the store's invariant.
    - World.v: the context of a block, block space, tracers.rs, payout_tx.rs and
      the parts of order_commit.rs that describe the state.
    - TxSimCache.v, TxSimCacheSpec.v: building/tx_sim_cache/, the cache of
      executions: recorded reads, stored traces and their walker, entries by
      transaction and coinbase, and the execution through the cache.
    - CommitMonad.v, OrderCommit.v: order_commit.rs, the execution of
      transactions, bundles, share bundles and orders with rollback.
    - OrderCommitSafe.v, OrderCommitSpec.v, OrderCommitProfit.v: atomicity,
      accounting, inclusion and profit of executed orders.
    - PartialBlock.v, PartialBlockInv.v, Finalize.v: building/mod.rs, the block
      under construction, its invariant, payments, sealing and adjusting.
    - SimTree.v, SimTreeInv.v, SimTreeSpec.v, SimulateSpec.v: building/sim.rs and
      utils/noncer.rs, the tree that decides which order is simulated when and on
      top of which others, and the simulation of one order and of all.
      SimulationJob.v: live_builder/simulation/, the job of a block and its workers, as
      a transition system over their channels.
    - ConstraintPool.v: live_builder/constraint_input/*, constraints.rs of the
      primitives, and the gas reservation.
    - BlockHelper.v, BlockHelperSpec.v: builders/block_building_helper.rs and
      built_block_trace.rs.
    - OrderingBuilder.v, OrderingBuilderSpec.v, OrderIntakeSpec.v:
      builders/ordering_builder.rs and the intake of simulated orders
      (builders/mod.rs), the loop that fills a block from the prioritized store.
    - BlockOutput.v, BlockOutputSpec.v: live_builder/block_output/
      unfinished_block_processing.rs, best_block_from_algorithms.rs,
      bidding_service_interface.rs and true_value_bidding_service.rs, and
      utils/sync.rs.  The threads between the algorithms, the bidder and the relays
      as a transition system over shared cells, locks and watches; the trait
      BlockBuildingHelper is the class [BlockHelper], which the helper of
      BlockHelper.v implements.
    - ConflictGroups.v,
      ConflictIndex.v, ConflictGroupsSpec.v: builders/parallel_builder/groups.rs,
      the groups of conflicting orders.  ConflictTasks.v, ConflictTasksSpec.v:
      task.rs, conflict_task_generator.rs and
      results_aggregator.rs beside it.  ConflictResolver.v,
      ConflictResolverSpec.v: conflict_resolvers.rs and simulation_cache.rs.
      ParallelBuilder.v, ParallelBuilderSpec.v: order_intake_store.rs,
      conflict_resolving_pool.rs, block_building_result_assembler.rs and mod.rs,
      which compose them.
    - SparseTrie.v: v2/trie/mod.rs, v2/trie/proof_store.rs and utils.rs of the
      crate eth-sparse-mpt.  The trie as its arrays (nodes, keys, values,
      children, pointers, flags), with insertion, deletion, hashing, proofs and
      the store of proofs.
    - TrieModel.v: the abstract trie as an inductive tree, its lookup, its
      canonical form, its encoding.  TrieRep.v: when the arrays represent a tree,
      parts of which may be known by their pointer only; TriePaths.v: nodes along
      a key; TrieSplit.v, TrieMerge.v: the steps that split and merge nodes.
      TrieInsertSpec.v, TrieDeleteSpec.v, TrieHashSpec.v,
      TrieAddSpec.v, TrieStoreSpec.v, TrieSpec.v: the operations.
    - ShareBundleMerger.v, MergerGroups.v, MergerSpec.v, MergerRefine.v:
      block_orders/share_bundle_merger.rs and multi_share_bundle_merger.rs, the job
      that merges and sends in live_builder/building/mod.rs, and the merging of a
      backtest.
    - BacktestData.v: backtest/mod.rs, the orders of a historical block and their
      filters.  BacktestExecute.v: backtest/execute.rs, its simulation, with the
      monad of reports and panics of the backtest.  LandedOrders.v,
      LandedOrdersSpec.v:
      backtest/restore_landed_orders/find_landed_orders.rs.  Redistribution.v,
      RedistributionSpec.v: backtest/redistribute/redistribution_algo.rs.
      Redistribute.v: backtest/redistribute/mod.rs, with the orders by identity in
      RedistributeSpec.v, and absence of panics, payments and the whole calculation in
      RedistributeResult.v.
    - Samples.v, SampleChain.v and the files *Witnesses.v: concrete orders, a
      small chain that implements every interface, and the theorems applied to
      runs on it.

    ** State and effects

    An operation that mutates [self] is a function from the state to the new
    state with the method's result.  [None] is a panic ([expect], [unwrap], an
    incorrect rollback), [Err] an error of the source.  Order execution uses
    the monad of CommitMonad.v: it threads the state of the fork, keeps it on
    every outcome, and distinguishes the critical (outer) errors from the
    recoverable (inner) ones.  Unsigned integers are [Z] with the wrap-around
    of the release profile written out ([u64_add], [u256_mul], ...); checked
    operations return [option].

    ** Parameters

    Code outside the repository is reached through type classes, with its
    documented behaviour as laws: [ChainState] and [ChainStateOk] (the EVM, its
    database and the undo log: a rollback restores the state of the mark it
    names), [TxCache] (the cache of executions as order execution
    sees it) and [TxCacheOk] (a hit reports what the cache holds, and it holds only
    what was stored; proved of the cache of building/tx_sim_cache at the end of
    OrderCommitSpec.v), [Database] and [DatabaseOk] (the databases the cache reads),
    [PayoutSigner] and [PayoutSignerOk], [TxHashing] and [SignerHashOk] (a transaction is
    identified by its hash), [ExecutionOk] (the interpreter uses at most the gas limit of a
    transaction, which is within that of the block),
    [LruCache] and its laws, [PriorityQueue] and its laws, [HashOrder] (the
    iteration order of a hash table, a permutation of its content),
    [BundleHashing], [VarIntOk], [TxCodec] and [TxCodecOk] (the decoders of raw
    transactions, which read back the canonical encoding), [BlockHelper] and
    [HelperProtocol] (the trait of block building helpers), [EthTrie] and [EthTrieOk]
    (the trie library of the inclusion proofs), [TxTrieEncoding] and [HexCodec] with
    their laws, [IdText], [ConstraintCodec], [TrieCodec] and its
    laws (the hash function, the RLP of leaves, extensions and list headers, the
    decoder of proof nodes), [SmallRng] and [SmallRngOk] (the seeded generator, whose
    shuffle is a permutation).  The roots, the
    bloom filter and the system calls of sealing are arguments of [finalize].
    Each class is instantiated in SampleChain.v, Samples.v or beside its
    theorems.

    ** Bounds and fuel

    Recursion is structural nearly everywhere; share bundles are nested trees
    and their functions recurse on the tree.  The binary search for the gas
    limit of a payment (payout_tx.rs) takes 65 rounds of fuel: the interval
    halves each round, so limits below 2^63 are covered, and
    [World.payout_search_correct] proves that the fuel does not run out.  The
    loop that simulates all orders takes a round of fuel per iteration; twice
    the number of orders and one more is enough
    ([SimulateSpec.simulate_all_terminates]).  Filling a block takes fuel for
    each attempt of each order: retries and one more, times the orders
    ([OrderingBuilderSpec.ordering_builder_fills]).  The loops of the trie that
    follow a key (insertion, deletion, proofs, the place of a proof node) consume
    nibbles and have the length of the key and one more; hashing recurses to the
    number of nodes.  Resolving a sequence of n orders takes n(n+1)+n+1 rounds,
    since a commit can wake waiting orders; the live assembly of a block one
    round per order and one more ([ConflictResolverSpec.resolver_executes_sequence],
    [ParallelBuilderSpec.live_and_backtest_assembly_agree]).  Looking up a cached
    execution takes a round per stored read and one more
    ([TxSimCacheSpec.walk_spec]).  That those of the trie suffice is part of the theorems of TrieSpec.v
    and TrieStoreSpec.v, which state that a result is returned.

    ** Theorems

    - Order flow: the replacement manager refines "the event with the highest
      sequence number wins" and is independent of the order of arrival; the
      pool's content and the equivalence of late and early subscribers; filters
      and detectors are transparent.
    - Prioritized store: an invariant of every reachable store, absence of
      panics, popped orders are maximal and executable, ready orders are queued.
    - Execution: orders are atomic and recoverable from the undo log; limits are
      respected, also when executions are answered from a cache that holds what was
      executed before, which stays true of it; results are ledgers of the executed transactions; the profit is
      the coinbase's gain; which transactions of a bundle are included.
    - Execution cache: executing through the cache gives what running gives, for
      transactions that use the account of the coinbase only to add to it; an
      example shows a transfer out of that account escaping the guard.
    - Simulation: the counts of missing nonces are exact, so that no order is lost
      or requested twice and the branches logged as bugs are dead; parents reach
      the nonces they are used for; simulating all orders ends.  The live job sends the
      builders each order once until it cancels it, only what the pool inserted, and does
      not panic, however it interleaves with its workers; a run shows the removal of an
      order that was inserted twice being lost.
    - Block: the invariant of the block under construction is preserved, the
      reserved gas suffices for refunds and payout, sealing reports the gas of
      the last receipt, and adjusting takes the payment back exactly.
    - Constraints and helper: content of the constraint pool, tracking of the
      appended transactions, the trace passes its consistency check, the
      finalize and adjust protocol; and four theorems on what the code does
      against its intention (undecodable constraints, the reservation, absolute
      profits, lost reinsertions).
    - Building: the ordering builder ends, tries each order at most its retries
      and one more, and keeps block and trace invariants; the intake knows
      the nonces of every order it hands to the store, unless reading them failed.
    - Block output: whatever the interleaving, submitted blocks are chosen blocks
      sealed as some bid asks, and blocks that failed an adjustment are not submitted;
      the threads get idle and do not deadlock; the bidder of true values pays the true
      value and the subsidy, and gives each relay one bid; a theorem and an example on
      what overlapping calls do against the intention (a worse block handed on last, a
      pending bid dropped).
    - Parallel builder: the groups are the connected components of the conflict
      relation; the task generator follows them; resolving a sequence executes
      what it reports and the cache repeats it; the best results; both assemblies
      build the same block and the backtest is sound; and two theorems on what
      the code does against its intention (a batch with a cancellation, a cached
      prefix).
    - Trie: insertion and deletion are those of a map and keep the trie canonical,
      on fully and on partly loaded tries; any sequence of operations gives the trie
      of the map they describe, and the root hash is a function of that map alone; proofs are the nodes along the key, and a proof that is stored and
      added again gives the root and the value it was taken from.
    - Share bundle mergers: the receivers of the merging job hold one merged order
      per group of live backruns, whatever was inserted and cancelled; a backtest
      yields one merged order per group of its orders and the others unchanged, as the
      live builder does.
    - Redistribution: landed orders are found in their order with all mandatory
      transactions; their profits are sums over their transactions, independent of
      hash maps; the split of the profit is bounded by contributions, by pairs and by
      the profit; the whole calculation does not panic and fails only for stated
      reasons, except that an order without landed transactions makes it panic.
    - Raw orders: what is decoded is well formed, and is decoded again from its
      encoding.
    - Constraint proofs: the observer stores a proof for exactly the constraint
      transactions of the block, and it checks against its root; the storage serves the
      ten greatest slots with all their proofs; a theorem shows that this root is not
      the one in the header when the block has typed transactions.
    - Primitives: nonces, executability, ids, uuids, listings, total orders.

    ** Not modelled

    The interpreter and databases (reth, revm, alloy); the first version of the
    sparse trie, its fetching of proofs and the calculator of the state root above
    it; networking, submissions to relays, other bidding services, and tasks, threads
    and channels outside the block output and the simulation job; the
    storage and fetching of historical data and the replay of a landed block;
    telemetry, logging and configuration.  Timestamps are arguments where the code
    reads the clock and the value matters. *)

From stdpp Require Export prelude gmap sets list strings sorting fin_maps.
From Stdlib Require Export ZArith Lia.

#[global] Open Scope Z_scope.

(** Facts that close the side conditions of the development. *)
Create HintDb rust.

(** ** Results, errors and panics *)

(** Rust's [Result<A, E>]. *)
Inductive result (A E : Type) : Type :=
| Ok (a : A)
| Err (e : E).
Arguments Ok {A E} a.
Arguments Err {A E} e.

Definition is_ok {A E} (r : result A E) : bool :=
  match r with Ok _ => true | Err _ => false end.

Definition map_err {A E F} (f : E -> F) (r : result A E) : result A F :=
  match r with Ok a => Ok a | Err e => Err (f e) end.

Definition ok_or {A E} (o : option A) (e : E) : result A E :=
  match o with Some a => Ok a | None => Err e end.

(** A computation that may panic: [None] is the panic. *)
Declare Scope rust_scope.
Delimit Scope rust_scope with rust.

Notation "'let?' x ':=' c1 'in' c2" :=
  (match c1 with Ok x => c2 | Err e => Err e end)
  (at level 10, x pattern, c1 at level 200, c2 at level 200) : rust_scope.

Notation "'let!' x ':=' c1 'in' c2" :=
  (match c1 with Some x => c2 | None => None end)
  (at level 10, x pattern, c1 at level 200, c2 at level 200) : rust_scope.

#[global] Open Scope rust_scope.

(** ** Machine integers

    The crates are built with the release profile, whose unsigned additions
    wrap; [U256] wraps as well.  A [w]-bit integer is a [Z] in [0, 2^w). *)

Definition wrap (w z : Z) : Z := z `mod` 2 ^ w.
Definition is_uint (w z : Z) : Prop := 0 <= z < 2 ^ w.
Abbreviation is_u64 := (is_uint 64).
Abbreviation is_u256 := (is_uint 256).

Definition u64_max : Z := 2 ^ 64 - 1.
Definition u64_add (a b : Z) : Z := wrap 64 (a + b).
Definition u64_sub (a b : Z) : Z := wrap 64 (a - b).
Definition u256_add (a b : Z) : Z := wrap 256 (a + b).
Definition u256_sub (a b : Z) : Z := wrap 256 (a - b).
Definition u256_mul (a b : Z) : Z := wrap 256 (a * b).

(** [checked_sub] of every unsigned width: [None] below zero. *)
Definition checked_sub (a b : Z) : option Z :=
  if decide (b <= a) then Some (a - b) else None.
Definition checked_add (w a b : Z) : option Z :=
  if decide (a + b < 2 ^ w) then Some (a + b) else None.
Definition saturating_sub (a b : Z) : Z := Z.max 0 (a - b).

(** [I256::try_from(U256)]: fails above [I256::MAX]. *)
Definition i256_try_from (z : Z) : option Z :=
  if decide (z < 2 ^ 255) then Some z else None.
(** [U256::try_from] of a signed value. *)
Definition u256_try_from (z : Z) : option Z := if decide (0 <= z) then Some z else None.
(** The difference of two [U256] as [I256]; [None] is a panic of [expect]. *)
Definition signed_uint_delta (a b : Z) : option Z :=
  let! a := i256_try_from a in
  let! b := i256_try_from b in
  if decide (- 2 ^ 255 <= a - b < 2 ^ 255) then Some (a - b) else None.
(** Wrap-around of a signed [w]-bit result. *)
Definition wrap_signed (w z : Z) : Z := wrap w (z + 2 ^ (w - 1)) - 2 ^ (w - 1).
Definition i256_add (a b : Z) : Z := wrap_signed 256 (a + b).
Definition i256_sub (a b : Z) : Z := wrap_signed 256 (a - b).

Lemma wrap_signed_add w a b : wrap_signed w (wrap_signed w a + b) = wrap_signed w (a + b).
Proof.
  unfold wrap_signed, wrap. f_equal.
  replace ((a + 2 ^ (w - 1)) `mod` 2 ^ w - 2 ^ (w - 1) + b + 2 ^ (w - 1))
    with ((a + 2 ^ (w - 1)) `mod` 2 ^ w + b) by lia.
  rewrite Zplus_mod_idemp_l. f_equal. lia.
Qed.

(** ** Hash containers

    A hash map or set yields its elements in an unspecified order.  Code that
    iterates over one is modelled with a [HashOrder]: any function that lists
    the elements of a finite set, each exactly once. *)
Class HashOrder (A : Type) `{Countable A} : Type := hash_order : gset A -> list A.
Class HashOrderOk (A : Type) `{HashOrder A} : Prop :=
  hash_order_perm : forall s : gset A, hash_order s ≡ₚ elements s.

Definition elements_order {A} `{Countable A} : HashOrder A := fun s => elements s.

(** ** Lists *)

(** Positions of a list extended at its end. *)
Lemma lookup_snoc_Some {A} (l : list A) x i y :
  (l ++ [x]) !! i = Some y <-> l !! i = Some y \/ i = length l /\ x = y.
Proof.
  rewrite lookup_app_Some. split.
  - intros [? | [Hge Hs]]; [by left |]. apply list_lookup_singleton_Some in Hs as [? ->].
    right. split; [lia | done].
  - intros [? | [-> ->]]; [by left | right]. by rewrite Nat.sub_diag.
Qed.

Lemma filter_all {A} (P : A -> Prop) `{forall x, Decision (P x)} l :
  Forall P l -> filter P l = l.
Proof. induction 1; [done |]. rewrite filter_cons_True by done. by f_equal. Qed.

Lemma perm_snoc_middle {A} (l k : list A) x : (l ++ [x]) ++ k ≡ₚ (l ++ k) ++ [x].
Proof. rewrite <- !app_assoc. f_equiv. apply Permutation_app_comm. Qed.

(** [Vec::dedup]: of consecutive equal elements the first is kept. *)
Fixpoint dedup {A} `{EqDecision A} (l : list A) : list A :=
  match l with
  | a :: ((b :: _) as l') => if decide (a = b) then dedup l' else a :: dedup l'
  | _ => l
  end.

Lemma dedup_cons {A} `{EqDecision A} (a b : A) l :
  dedup (a :: b :: l) = if decide (a = b) then dedup (b :: l) else a :: dedup (b :: l).
Proof. done. Qed.

Lemma elem_of_dedup {A} `{EqDecision A} (l : list A) x : x ∈ dedup l <-> x ∈ l.
Proof.
  induction l as [| a [| b l] IH]; [done.. |]. rewrite dedup_cons.
  case_decide as Hd; rewrite (elem_of_cons _ x a); [| by rewrite elem_of_cons, IH].
  subst b. rewrite IH, elem_of_cons. tauto.
Qed.

Lemma NoDup_dedup {A} `{EqDecision A} (R : relation A) `{!Transitive R} `{!AntiSymm eq R} l :
  StronglySorted R l -> NoDup (dedup l).
Proof.
  induction 1 as [| a [| b l] Hs IH Ha]; [constructor | apply NoDup_singleton |]. rewrite dedup_cons.
  case_decide as Hd; [done |]. constructor; [| done]. rewrite elem_of_dedup. intros Hin.
  apply Hd. apply Forall_cons in Ha as [Hab _]. apply (anti_symm R); [done |].
  apply StronglySorted_inv in Hs as [_ Hb]. rewrite Forall_forall in Hb.
  apply elem_of_cons in Hin as [-> | Hin]; [done | by apply Hb].
Qed.

(** [sort] and [dedup]: each element once. *)
Definition sort_dedup {A} `{EqDecision A} (R : relation A) `{!RelDecision R} (l : list A) : list A :=
  dedup (merge_sort R l).

Lemma elem_of_sort_dedup {A} `{EqDecision A} (R : relation A) `{!RelDecision R} l x :
  x ∈ sort_dedup R l <-> x ∈ l.
Proof. unfold sort_dedup. rewrite elem_of_dedup. by rewrite (merge_sort_Permutation R). Qed.

Lemma NoDup_sort_dedup {A} `{EqDecision A} (R : relation A) `{!RelDecision R} `{!Total R}
    `{!Transitive R} `{!AntiSymm eq R} l : NoDup (sort_dedup R l).
Proof. apply (NoDup_dedup R), (StronglySorted_merge_sort R). Qed.

Lemma StronglySorted_sublist {A} (R : relation A) l k :
  sublist l k -> StronglySorted R k -> StronglySorted R l.
Proof.
  induction 1 as [| x l k Hs IH | x l k Hs IH]; intros Hk; [constructor | |].
  - apply StronglySorted_cons in Hk as [Hx Hk]. apply SSorted_cons; [by apply IH |].
    rewrite Forall_forall in Hx |- *. intros y Hy. apply Hx. by eapply elem_of_sublist.
  - apply StronglySorted_cons in Hk as [_ Hk]. by apply IH.
Qed.

(** Sums of integers. *)
Definition zsum (l : list Z) : Z := foldr Z.add 0 l.

Lemma zsum_nonneg l : Forall (fun x => 0 <= x) l -> 0 <= zsum l.
Proof. induction 1; simpl; lia. Qed.

Lemma zsum_elem l x : Forall (fun x => 0 <= x) l -> x ∈ l -> x <= zsum l.
Proof.
  intros Hl Hx. induction Hl as [| y l Hy Hl IH]; [by apply not_elem_of_nil in Hx |].
  apply zsum_nonneg in Hl. apply elem_of_cons in Hx as [-> | Hx]; simpl; [| specialize (IH Hx)]; lia.
Qed.

Lemma zsum_le l k : Forall2 Z.le l k -> zsum l <= zsum k.
Proof. induction 1; simpl; lia. Qed.

Lemma zsum_app l k : zsum (l ++ k) = zsum l + zsum k.
Proof. induction l; simpl; lia. Qed.

Lemma zsum_perm l k : l ≡ₚ k -> zsum l = zsum k.
Proof. induction 1; simpl; lia. Qed.

(** ** Bytes: big-endian encoding on [n] bytes, each byte a [Z] in [0, 256). *)
Fixpoint le_bytes (n : nat) (z : Z) : list Z :=
  match n with
  | O => []
  | S n => z `mod` 256 :: le_bytes n (z `div` 256)
  end.
Definition be_bytes (n : nat) (z : Z) : list Z := reverse (le_bytes n z).

Lemma length_le_bytes n z : length (le_bytes n z) = n.
Proof. revert z. induction n; intros z; simpl; auto. Qed.
Lemma length_be_bytes n z : length (be_bytes n z) = n.
Proof. unfold be_bytes. by rewrite length_reverse, length_le_bytes. Qed.

Lemma le_bytes_inj n a b :
  0 <= a < 256 ^ Z.of_nat n -> 0 <= b < 256 ^ Z.of_nat n ->
  le_bytes n a = le_bytes n b -> a = b.
Proof.
  revert a b. induction n as [| n IH]; intros a b Ha Hb; simpl.
  { simpl in *. lia. }
  rewrite Nat2Z.inj_succ, Z.pow_succ_r in Ha, Hb by lia. intros [= Hm Hd].
  assert (a / 256 = b / 256).
  { apply IH; [split; [apply Z.div_pos; lia | apply Z.div_lt_upper_bound; lia].. | done]. }
  pose proof (Z.div_mod a 256). pose proof (Z.div_mod b 256). lia.
Qed.

Lemma be_bytes_inj n a b :
  0 <= a < 256 ^ Z.of_nat n -> 0 <= b < 256 ^ Z.of_nat n ->
  be_bytes n a = be_bytes n b -> a = b.
Proof. intros Ha Hb H%(inj reverse). by eapply le_bytes_inj. Qed.

(** Concatenations of blocks of one width: equal buffers have equal heads. *)
Lemma app_be_bytes_inj n a b s t :
  0 <= a < 256 ^ Z.of_nat n -> 0 <= b < 256 ^ Z.of_nat n ->
  be_bytes n a ++ s = be_bytes n b ++ t -> a = b /\ s = t.
Proof.
  intros Ha Hb H. apply app_inj_1 in H as [H ->]; [| by rewrite !length_be_bytes].
  split; [by eapply be_bytes_inj | done].
Qed.

#[global] Opaque be_bytes.
