(* ===== verification/Transactions.v ===== *)
(** * Transactions (crates/rbuilder-primitives/src/lib.rs)

    Metadata, nonces, block space and signed transactions with their blob
    sidecars: construction with its consistency checks, decoding from raw
    bytes, the space a transaction needs, the nonces of a list of
    transactions and the base-fee test. *)

From S2P Require Import Prelude.

(** ** Scalars: hashes, addresses and unsigned integers are their values. *)
Abbreviation Address := Z (only parsing).
Abbreviation B256 := Z (only parsing).
Abbreviation TxHash := Z (only parsing).
Abbreviation Uuid := Z (only parsing).
Abbreviation U256 := Z (only parsing).
Abbreviation U64 := Z (only parsing).

(** ** Metadata *)
Record Metadata := {
  received_at_timestamp : Z;
  is_system : bool;
  m_refund_identity : option Address;
}.

Definition Metadata_new (received_at : Z) : Metadata :=
  {| received_at_timestamp := received_at; is_system := false; m_refund_identity := None |}.

Definition with_system (m : Metadata) (sys : bool) : Metadata :=
  {| received_at_timestamp := received_at_timestamp m; is_system := sys;
     m_refund_identity := m_refund_identity m |}.

Definition with_refund_identity (m : Metadata) (r : option Address) : Metadata :=
  {| received_at_timestamp := received_at_timestamp m; is_system := is_system m;
     m_refund_identity := r |}.

(** ** Nonces *)
Record AccountNonce := { an_nonce : U64; an_account : Address }.

Definition with_nonce (a : AccountNonce) (n : U64) : AccountNonce :=
  {| an_nonce := n; an_account := an_account a |}.

Record BundledTxInfo := { bti_nonce : AccountNonce; bti_optional : bool }.

Record Nonce := { nonce_nonce : U64; nonce_address : Address; nonce_optional : bool }.

#[export] Instance AccountNonce_eq_dec : EqDecision AccountNonce.
Proof. solve_decision. Defined.
#[export] Instance AccountNonce_countable : Countable AccountNonce.
Proof.
  apply (inj_countable' (fun a => (an_nonce a, an_account a))
           (fun p => {| an_nonce := p.1; an_account := p.2 |})).
  by intros [].
Defined.
#[export] Instance Nonce_eq_dec : EqDecision Nonce.
Proof. solve_decision. Defined.

(** ** Block space *)
Record BlockSpace := { bs_gas : U64; bs_rlp_length : Z; bs_blob_gas : U64 }.

Definition BlockSpace_new (gas rlp_length blob_gas : Z) : BlockSpace :=
  {| bs_gas := gas; bs_rlp_length := rlp_length; bs_blob_gas := blob_gas |}.

Definition BlockSpace_ZERO : BlockSpace := BlockSpace_new 0 0 0.

Definition BlockSpace_add (a b : BlockSpace) : BlockSpace :=
  {| bs_gas := u64_add (bs_gas a) (bs_gas b);
     bs_rlp_length := u64_add (bs_rlp_length a) (bs_rlp_length b);
     bs_blob_gas := u64_add (bs_blob_gas a) (bs_blob_gas b) |}.

(** [-=]: each [checked_sub(..).unwrap()] panics below zero. *)
Definition BlockSpace_sub_assign (a b : BlockSpace) : option BlockSpace :=
  let! gas := checked_sub (bs_gas a) (bs_gas b) in
  let! rlp_length := checked_sub (bs_rlp_length a) (bs_rlp_length b) in
  let! blob_gas := checked_sub (bs_blob_gas a) (bs_blob_gas b) in
  Some {| bs_gas := gas; bs_rlp_length := rlp_length; bs_blob_gas := blob_gas |}.

(** ** Signed transactions

    [TransactionSigned] carries what the builder reads of a reth transaction:
    [ts_length] is its RLP length, [ts_size] its in-memory size and
    [ts_blob_versioned_hashes] is present exactly for an EIP-4844 one. *)
Record TransactionSigned := {
  ts_hash : TxHash;
  ts_ty : Z;
  ts_nonce : U64;
  ts_to : option Address;
  ts_value : U256;
  ts_gas_limit : U64;
  ts_max_fee_per_gas : Z;
  ts_length : Z;
  ts_size : Z;
  ts_blob_versioned_hashes : option (list B256);
}.

Record BlobTransactionSidecar := {
  sc_blobs : list Z;
  sc_commitments : list Z;
  sc_proofs : list Z;
}.

Definition BlobTransactionSidecar_default : BlobTransactionSidecar :=
  {| sc_blobs := []; sc_commitments := []; sc_proofs := [] |}.

Inductive BlobTransactionSidecarVariant :=
| Eip4844 (sidecar : BlobTransactionSidecar)
| Eip7594 (sidecar : BlobTransactionSidecar).

Record TransactionSignedEcRecoveredWithBlobs := {
  txb_tx : TransactionSigned;
  txb_signer : Address;
  blobs_sidecar : BlobTransactionSidecarVariant;
  txb_metadata : Metadata;
}.
Abbreviation TxWithBlobs := TransactionSignedEcRecoveredWithBlobs.

Inductive TxWithBlobsCreateError :=
| FailedToDecodeTransaction
| InvalidTransactionSignature
| UnexpectedError
| FailedToDecodeTransactionProbablyIs4484Canonical
| Eip4844MissingBlobSidecar
| BlobsMissingEip4844
| BlobStore.

(** [fake_sidecar]: one all-zero blob, commitment and proof per versioned hash. *)
Fixpoint fake_sidecar (blob_versioned_hashes_len : nat) : BlobTransactionSidecar :=
  match blob_versioned_hashes_len with
  | O => BlobTransactionSidecar_default
  | S n =>
      let sidecar := fake_sidecar n in
      {| sc_blobs := sc_blobs sidecar ++ [0]; sc_commitments := sc_commitments sidecar ++ [0];
         sc_proofs := sc_proofs sidecar ++ [0] |}
  end.

Definition default_blob_sidecar : BlobTransactionSidecarVariant :=
  Eip4844 BlobTransactionSidecar_default.

(** [new]; [now] is the time [Metadata::default] reads from the clock. *)
Definition TxWithBlobs_new (now : Z) (tx : TransactionSigned) (signer : Address)
    (blob_sidecar : option BlobTransactionSidecarVariant) (metadata : option Metadata)
  : result TxWithBlobs TxWithBlobsCreateError :=
  match ts_blob_versioned_hashes tx, blob_sidecar with
  | Some _, None => Err Eip4844MissingBlobSidecar
  | None, Some _ => Err BlobsMissingEip4844
  | _, _ => Ok {| txb_tx := tx; txb_signer := signer;
                  blobs_sidecar := default default_blob_sidecar blob_sidecar;
                  txb_metadata := default (Metadata_new now) metadata |}
  end.

Definition new_no_blobs (now : Z) (tx : TransactionSigned) (signer : Address) :=
  TxWithBlobs_new now tx signer None None.

Definition tx_hash (tx : TxWithBlobs) : TxHash := ts_hash (txb_tx tx).
Definition tx_signer (tx : TxWithBlobs) : Address := txb_signer tx.
Definition tx_to (tx : TxWithBlobs) : option Address := ts_to (txb_tx tx).
Definition tx_nonce (tx : TxWithBlobs) : U64 := ts_nonce (txb_tx tx).
Definition tx_value (tx : TxWithBlobs) : U256 := ts_value (txb_tx tx).

Definition length_eip7934 (tx : TxWithBlobs) : Z := ts_length (txb_tx tx).

Definition blobs_len (tx : TxWithBlobs) : Z :=
  match blobs_sidecar tx with
  | Eip4844 sidecar => Z.of_nat (length (sc_blobs sidecar))
  | Eip7594 sidecar => Z.of_nat (length (sc_blobs sidecar))
  end.

(** EIP-4844's gas per blob (2^17). *)
Definition DATA_GAS_PER_BLOB : Z := 131072.

Definition blobs_gas_used (tx : TxWithBlobs) : U64 :=
  wrap 64 (blobs_len tx * DATA_GAS_PER_BLOB).

Definition tx_space_needed (tx : TxWithBlobs) : BlockSpace :=
  BlockSpace_new (ts_gas_limit (txb_tx tx)) (length_eip7934 tx) (blobs_gas_used tx).

(** ** Decoding raw transactions

    The RLP decoders, the signature recovery and the pool's blob store belong
    to reth and alloy; they are the section's variables. *)
Inductive TxEncoding := WithBlobData | NoBlobData.

Inductive PooledTransactionVariant :=
| PooledPlain (tx : TransactionSigned)
| PooledEip4844 (tx : TransactionSigned) (sidecar : BlobTransactionSidecarVariant).

Definition pooled_tx (p : PooledTransactionVariant) : TransactionSigned :=
  match p with PooledPlain tx => tx | PooledEip4844 tx _ => tx end.

(** [try_from]: only the EIP-4844 variant carries a sidecar. *)
Definition try_from_pooled (now : Z) (value : PooledTransactionVariant) (signer : Address)
  : result TxWithBlobs TxWithBlobsCreateError :=
  match value with
  | PooledPlain tx => new_no_blobs now tx signer
  | PooledEip4844 tx sidecar =>
      Ok {| txb_tx := tx; txb_signer := signer; blobs_sidecar := sidecar;
            txb_metadata := Metadata_new now |}
  end.

Section decode.
Context {Raw : Type}.
Context (decode_pooled : Raw -> option PooledTransactionVariant).
Context (decode_signed : Raw -> option TransactionSigned).
Context (recover_signer : TransactionSigned -> option Address).
Context (now : Z).

Record RawTransactionDecodable := {
  raw : Raw;
  encoding : TxEncoding;
  signer_lookup : option (B256 -> option Address);
}.

Definition RawTransactionDecodable_new (raw : Raw) (encoding : TxEncoding)
  : RawTransactionDecodable :=
  {| raw := raw; encoding := encoding; signer_lookup := None |}.

Definition with_signer_lookup (r : RawTransactionDecodable) (lookup : B256 -> option Address)
  : RawTransactionDecodable :=
  {| raw := raw r; encoding := encoding r; signer_lookup := Some lookup |}.

(** The lookup first, the signature only when the lookup does not know it. *)
Definition find_signer (r : RawTransactionDecodable) (tx : TransactionSigned)
  : option Address :=
  match (lookup ← signer_lookup r; lookup (ts_hash tx)) with
  | Some s => Some s
  | None => recover_signer tx
  end.

Definition decode_enveloped_with_real_blobs (r : RawTransactionDecodable)
  : result TxWithBlobs TxWithBlobsCreateError :=
  let? pooled := ok_or (decode_pooled (raw r)) FailedToDecodeTransaction in
  let? signer := ok_or (find_signer r (pooled_tx pooled)) InvalidTransactionSignature in
  try_from_pooled now pooled signer.

Definition decode_enveloped_with_fake_blobs (r : RawTransactionDecodable)
  : result TxWithBlobs TxWithBlobsCreateError :=
  let? decoded := ok_or (decode_signed (raw r)) FailedToDecodeTransaction in
  let? signer := ok_or (find_signer r decoded) InvalidTransactionSignature in
  let hashes_len := match ts_blob_versioned_hashes decoded with
                    | Some hashes => length hashes
                    | None => O
                    end in
  Ok {| txb_tx := decoded; txb_signer := signer;
        blobs_sidecar := Eip4844 (fake_sidecar hashes_len);
        txb_metadata := Metadata_new now |}.

Definition decode_enveloped (r : RawTransactionDecodable)
  : result TxWithBlobs TxWithBlobsCreateError :=
  match encoding r with
  | WithBlobData => decode_enveloped_with_real_blobs r
  | NoBlobData => decode_enveloped_with_fake_blobs r
  end.

End decode.

Definition try_from_tx_without_blobs_and_pool
    (get_all_blobs : list TxHash -> option (list (TxHash * BlobTransactionSidecarVariant)))
    (now : Z) (tx : TransactionSigned) (signer : Address)
  : result TxWithBlobs TxWithBlobsCreateError :=
  let? blobs := ok_or (get_all_blobs [ts_hash tx]) BlobStore in
  TxWithBlobs_new now tx signer (snd <$> last blobs) None.

(** ** Mempool transactions *)
Record MempoolTx := { tx_with_blobs : TxWithBlobs }.

(** [InMemorySize::size]; the sizes of a sidecar and of the metadata come from
    the memory layout, not from this code. *)
Definition MempoolTx_size (sidecar_size : BlobTransactionSidecarVariant -> Z)
    (metadata_size : Z) (tx : MempoolTx) : Z :=
  u64_add (u64_add (ts_size (txb_tx (tx_with_blobs tx)))
                   (sidecar_size (blobs_sidecar (tx_with_blobs tx))))
          metadata_size.

(** ** Nonces of a list of transactions, and the base-fee test *)

Definition bundle_nonce_step (nonces : gmap Address Nonce) (p : TxWithBlobs * bool)
  : gmap Address Nonce :=
  let '(tx, optional) := p in
  match nonces !! tx_signer tx with
  | Some n =>
      if decide (nonce_nonce n > tx_nonce tx)
      then <[tx_signer tx := {| nonce_nonce := tx_nonce tx; nonce_address := nonce_address n;
                                nonce_optional := optional |}]> nonces
      else nonces
  | None =>
      <[tx_signer tx := {| nonce_nonce := tx_nonce tx; nonce_address := tx_signer tx;
                           nonce_optional := optional |}]> nonces
  end.

Definition nonce_address_le (a b : Nonce) : Prop := nonce_address a <= nonce_address b.
#[export] Instance nonce_address_le_dec a b : Decision (nonce_address_le a b).
Proof. unfold nonce_address_le. apply _. Defined.
#[export] Instance nonce_address_le_total : Total nonce_address_le.
Proof. intros a b. unfold nonce_address_le. lia. Qed.
#[export] Instance nonce_address_le_trans : Transitive nonce_address_le.
Proof. intros a b c. unfold nonce_address_le. lia. Qed.

(** [into_values] yields the map's values in the hash order; [sort_by_key] then
    sorts them by address. *)
Definition bundle_nonces (txs : list (TxWithBlobs * bool)) : list Nonce :=
  let nonces := foldl bundle_nonce_step ∅ txs in
  merge_sort nonce_address_le (snd <$> map_to_list nonces).

(** The loop returns [false] at the first mandatory transaction below the base
    fee; [executable_tx_count] is a [u32]. *)
Fixpoint can_execute_loop (list_txs : list (TxWithBlobs * bool)) (block_base_fee : Z)
    (executable_tx_count : Z) : bool :=
  match list_txs with
  | [] => bool_decide (executable_tx_count > 0)
  | (tx, opt) :: rest =>
      if decide (ts_max_fee_per_gas (txb_tx tx) >= block_base_fee)
      then can_execute_loop rest block_base_fee (wrap 32 (executable_tx_count + 1))
      else if opt then can_execute_loop rest block_base_fee executable_tx_count
      else false
  end.

Definition can_execute_with_block_base_fee (list_txs : list (TxWithBlobs * bool))
    (block_base_fee : Z) : bool :=
  can_execute_loop list_txs block_base_fee 0.

(** ** Properties of transactions *)

(** The entry [n] describes the transaction at position [i]: it is the signer's
    first transaction among those with the signer's least nonce. *)
Definition is_min_nonce (txs : list (TxWithBlobs * bool)) (i : nat) (n : Nonce) : Prop :=
  exists tx, txs !! i = Some (tx, nonce_optional n)
    /\ tx_signer tx = nonce_address n /\ tx_nonce tx = nonce_nonce n
    /\ forall j tx' opt', txs !! j = Some (tx', opt') -> tx_signer tx' = nonce_address n ->
         (j < i)%nat /\ nonce_nonce n < tx_nonce tx' \/ (i <= j)%nat /\ nonce_nonce n <= tx_nonce tx'.

Lemma is_min_nonce_snoc_other txs tx opt i n :
  is_min_nonce txs i n ->
  (tx_signer tx = nonce_address n -> nonce_nonce n <= tx_nonce tx) ->
  is_min_nonce (txs ++ [(tx, opt)]) i n.
Proof.
  intros (tx0 & Hi & Hs & Hn & Hmin) Hge. exists tx0.
  pose proof (lookup_lt_Some _ _ _ Hi) as Hlt.
  split_and!; [by apply lookup_app_l_Some | done | done |].
  intros j tx' opt' Hj Hs'. apply lookup_app_Some in Hj as [Hj | [Hj Hj']].
  - eauto.
  - apply list_lookup_singleton_Some in Hj' as [Hj0 [= <- <-]].
    right. split; [lia | auto].
Qed.

Lemma is_min_nonce_snoc_new txs tx opt :
  (forall j tx' opt', txs !! j = Some (tx', opt') -> tx_signer tx' = tx_signer tx ->
     tx_nonce tx < tx_nonce tx') ->
  is_min_nonce (txs ++ [(tx, opt)]) (length txs)
    {| nonce_nonce := tx_nonce tx; nonce_address := tx_signer tx; nonce_optional := opt |}.
Proof.
  intros Hlt. exists tx; simpl. split_and!; [by apply list_lookup_middle | done | done |].
  intros j tx' opt' Hj Hs'. apply lookup_app_Some in Hj as [Hj | [Hj Hj']].
  - left. split; [by eapply lookup_lt_Some | eauto].
  - apply list_lookup_singleton_Some in Hj' as [? [= <- <-]]. right. lia.
Qed.

(** The map built by the loop: one entry per signer, the signer's least nonce. *)
Lemma bundle_nonce_map_spec txs :
  let m := foldl bundle_nonce_step ∅ txs in
  (forall a n, m !! a = Some n -> nonce_address n = a /\ exists i, is_min_nonce txs i n)
  /\ (forall j tx opt, txs !! j = Some (tx, opt) -> is_Some (m !! tx_signer tx)).
Proof.
  induction txs as [| [tx opt] txs [IH1 IH2]] using rev_ind; simpl.
  { split; [intros a n Hn; by rewrite lookup_empty in Hn | intros j tx opt Hj; done]. }
  rewrite foldl_app; simpl. set (m := foldl bundle_nonce_step ∅ txs) in *.
  assert (Hsome : forall j tx' opt', (txs ++ [(tx, opt)]) !! j = Some (tx', opt') ->
            tx_signer tx' = tx_signer tx \/ is_Some (m !! tx_signer tx')).
  { intros j tx' opt' Hj. apply lookup_app_Some in Hj as [Hj | [_ Hj]]; [eauto |].
    apply list_lookup_singleton_Some in Hj as [_ [= <- <-]]. by left. }
  destruct (m !! tx_signer tx) as [n0 |] eqn:Hm; [destruct (decide _) as [Hgt | Hle] |].
  - destruct (IH1 _ _ Hm) as [Ha [i0 (tx0 & Hi0 & Hs0 & Hn0 & Hmin0)]]. split.
    + intros a n Hn. apply lookup_insert_Some in Hn as [[<- <-] | [Hne Hn]].
      * split; [done |]. exists (length txs). rewrite Ha. apply is_min_nonce_snoc_new.
        intros j tx' opt' Hj Hs'. destruct (Hmin0 j tx' opt'); [done | congruence | lia..].
      * destruct (IH1 _ _ Hn) as [<- [i Hi]]. split; [done |]. exists i.
        apply is_min_nonce_snoc_other; [done | congruence].
    + intros j tx' opt' Hj. destruct (Hsome _ _ _ Hj) as [-> | ?]; rewrite lookup_insert_is_Some'; tauto.
  - split.
    + intros a n Hn. destruct (IH1 _ _ Hn) as [<- [i Hi]]. split; [done |]. exists i.
      apply is_min_nonce_snoc_other; [done |]. intros Heq. rewrite Heq in Hm.
      assert (n0 = n) as -> by congruence. lia.
    + intros j tx' opt' Hj. destruct (Hsome _ _ _ Hj) as [-> | ?]; [by rewrite Hm | done].
  - split.
    + intros a n Hn. apply lookup_insert_Some in Hn as [[<- <-] | [Hne Hn]].
      * split; [done |]. exists (length txs). apply is_min_nonce_snoc_new.
        intros j tx' opt' Hj Hs'. destruct (IH2 _ _ _ Hj) as [? Hx]. congruence.
      * destruct (IH1 _ _ Hn) as [<- [i Hi]]. split; [done |]. exists i.
        apply is_min_nonce_snoc_other; [done | congruence].
    + intros j tx' opt' Hj. destruct (Hsome _ _ _ Hj) as [-> | ?]; rewrite lookup_insert_is_Some'; tauto.
Qed.

Lemma bundle_nonces_elem txs n :
  n ∈ bundle_nonces txs
  <-> foldl bundle_nonce_step ∅ txs !! nonce_address n = Some n.
Proof.
  unfold bundle_nonces. rewrite (merge_sort_Permutation nonce_address_le).
  rewrite list_elem_of_fmap. split.
  - intros ([a n'] & -> & Hin). apply elem_of_map_to_list in Hin. simpl.
    by destruct (bundle_nonce_map_spec txs) as [H1 _]; destruct (H1 _ _ Hin) as [-> _].
  - intros Hn. exists (nonce_address n, n). by rewrite elem_of_map_to_list.
Qed.

Lemma map_to_list_addresses_NoDup (m : gmap Address Nonce) :
  (forall a n, m !! a = Some n -> nonce_address n = a) ->
  NoDup (nonce_address <$> (snd <$> map_to_list m)).
Proof.
  intros Hm. rewrite <- list_fmap_compose.
  replace ((nonce_address ∘ snd) <$> map_to_list m) with ((map_to_list m).*1).
  { apply NoDup_fst_map_to_list. }
  apply list_fmap_ext. intros i [a n] Hi. simpl. symmetry. apply Hm.
  apply elem_of_map_to_list. by eapply list_elem_of_lookup_2.
Qed.

Lemma bundle_nonces_NoDup txs : NoDup (nonce_address <$> bundle_nonces txs).
Proof.
  unfold bundle_nonces. rewrite (merge_sort_Permutation nonce_address_le).
  apply map_to_list_addresses_NoDup. intros a n Hn.
  by apply (bundle_nonce_map_spec txs) in Hn as [? _].
Qed.

Lemma StronglySorted_le_lt (l : list Nonce) :
  StronglySorted nonce_address_le l -> NoDup (nonce_address <$> l) ->
  StronglySorted Z.lt (nonce_address <$> l).
Proof.
  induction 1 as [| n l Hs IH Hall]; simpl; [constructor |].
  intros [Hn Hnd]%NoDup_cons. constructor; [auto |].
  rewrite Forall_fmap. rewrite Forall_forall in Hall |- *. intros x Hx. simpl.
  pose proof (Hall x Hx) as Hle. unfold nonce_address_le in Hle.
  assert (nonce_address n <> nonce_address x); [| lia].
  intros Heq. apply Hn. rewrite Heq. by apply list_elem_of_fmap_2.
Qed.

Lemma bundle_nonces_sorted txs : StronglySorted Z.lt (nonce_address <$> bundle_nonces txs).
Proof.
  apply StronglySorted_le_lt; [| apply bundle_nonces_NoDup].
  apply (StronglySorted_merge_sort _).
Qed.

(** The nonces of a list of transactions are sorted by address, one per account,
    each the lowest nonce of the account, and optional exactly if the
    transactions that share it are. *)
Theorem bundle_nonces_spec txs :
  StronglySorted Z.lt (nonce_address <$> bundle_nonces txs)
  /\ (forall n, n ∈ bundle_nonces txs <-> exists i, is_min_nonce txs i n).
Proof.
  split; [apply bundle_nonces_sorted |]. intros n. rewrite bundle_nonces_elem.
  destruct (bundle_nonce_map_spec txs) as [H1 H2]. split.
  - intros Hn. by destruct (H1 _ _ Hn) as [_ ?].
  - intros (i & tx & Hi & Hs & Hn & Hmin). destruct (H2 _ _ _ Hi) as [n' Hn'].
    rewrite Hs in Hn'. rewrite Hn'. f_equal.
    destruct (H1 _ _ Hn') as [Ha (i' & tx' & Hi' & Hs' & Hnn' & Hmin')].
    destruct (Hmin _ _ _ Hi'); [congruence | ..];
      (destruct (Hmin' _ _ _ Hi); [congruence | ..]); [lia | lia | lia |].
    assert (i = i') as -> by lia. rewrite Hi in Hi'. simplify_eq.
    destruct n, n'; simpl in *; congruence.
Qed.

Lemma can_execute_loop_spec txs fee count :
  0 <= count -> count + Z.of_nat (length txs) < 2 ^ 32 ->
  can_execute_loop txs fee count = true <->
  (forall tx opt, (tx, opt) ∈ txs -> ts_max_fee_per_gas (txb_tx tx) < fee -> opt = true)
  /\ (count > 0 \/ exists tx opt, (tx, opt) ∈ txs /\ ts_max_fee_per_gas (txb_tx tx) >= fee).
Proof.
  revert count. induction txs as [| [tx opt] txs IH]; intros count H0 Hlt; simpl in *.
  { rewrite bool_decide_eq_true. split; [intros; split; [| by left] | intros [_ [? | (tx & opt & Hin & _)]]; [done |]];
      [intros tx opt Hin |]; by apply not_elem_of_nil in Hin. }
  destruct (decide _) as [Hge | Hge].
  - unfold wrap. rewrite Z.mod_small by lia. rewrite IH by lia. split.
    + intros [Hall _]. split.
      * intros tx' opt' [[= -> ->] | Hin]%elem_of_cons Hlt'; [lia | eauto].
      * right. exists tx, opt. split; [left | done].
    + intros [Hall _]. split; [| left; lia]. intros tx' opt' Hin. apply Hall. by right.
  - destruct opt.
    + rewrite IH by lia. split; intros [Hall Hex]; (split; [| destruct Hex as [? | (tx' & opt' & Hin & Hx)]; [by left | right]]).
      * intros tx' opt' [[= -> ->] | Hin]%elem_of_cons; [done | eauto].
      * exists tx', opt'. split; [by right | done].
      * intros tx' opt' Hin. apply Hall. by right.
      * apply elem_of_cons in Hin as [[= -> ->] | Hin]; [lia | eauto].
    + split; [done |]. intros [Hall _]. exfalso.
      assert (false = true); [| done]. apply (Hall tx); [left | lia].
Qed.

(** A list of transactions can be executed at a base fee exactly if all
    mandatory ones pay it and at least one transaction does. *)
Theorem can_execute_iff txs fee :
  Z.of_nat (length txs) < 2 ^ 32 ->
  can_execute_with_block_base_fee txs fee = true <->
  (forall tx opt, (tx, opt) ∈ txs -> ts_max_fee_per_gas (txb_tx tx) < fee -> opt = true)
  /\ exists tx opt, (tx, opt) ∈ txs /\ ts_max_fee_per_gas (txb_tx tx) >= fee.
Proof.
  intros Hlen. unfold can_execute_with_block_base_fee. rewrite can_execute_loop_spec by lia.
  split; intros [Hall Hex]; (split; [done |]); [| by right]. destruct Hex; [lia | done].
Qed.
