(* ===== verification/Bundles.v ===== *)
(** * Bundles (crates/rbuilder-primitives/src/lib.rs)

    The [Bundle] order type: which of its transactions may fail, its nonces,
    and the hash and UUID that identify it.  The UUID hashes a byte buffer; the
    buffer is shown to determine everything it is meant to encode. *)

From S2P Require Import Prelude Transactions.

(** ** Replacement data *)
Record ReplacementKey := { rk_id : Uuid; rk_signer : option Address }.

Record ReplacementData (KeyType : Type) := {
  rd_key : KeyType;
  rd_sequence_number : U64;
}.
Arguments rd_key {_} _.
Arguments rd_sequence_number {_} _.

Definition ReplacementData_next {K} (r : ReplacementData K) : ReplacementData K :=
  {| rd_key := rd_key r; rd_sequence_number := u64_add (rd_sequence_number r) 1 |}.

(** Bundle and share bundle keys hold the same data under different types. *)
Record BundleReplacementKey := { brk_key : ReplacementKey }.
Record ShareBundleReplacementKey := { sbrk_key : ReplacementKey }.

Definition BundleReplacementKey_new (id : Uuid) (signer : option Address) : BundleReplacementKey :=
  {| brk_key := {| rk_id := id; rk_signer := signer |} |}.
Definition ShareBundleReplacementKey_new (id : Uuid) (signer : Address)
  : ShareBundleReplacementKey :=
  {| sbrk_key := {| rk_id := id; rk_signer := Some signer |} |}.

Inductive OrderReplacementKey :=
| ORK_Bundle (k : BundleReplacementKey)
| ORK_ShareBundle (k : ShareBundleReplacementKey).

#[export] Instance ReplacementKey_eq_dec : EqDecision ReplacementKey.
Proof. solve_decision. Defined.
#[export] Instance BundleReplacementKey_eq_dec : EqDecision BundleReplacementKey.
Proof. solve_decision. Defined.
#[export] Instance ShareBundleReplacementKey_eq_dec : EqDecision ShareBundleReplacementKey.
Proof. solve_decision. Defined.
#[export] Instance OrderReplacementKey_eq_dec : EqDecision OrderReplacementKey.
Proof. solve_decision. Defined.

#[export] Instance OrderReplacementKey_countable : Countable OrderReplacementKey.
Proof.
  apply (inj_countable'
    (fun k => match k with
              | ORK_Bundle b => inl (rk_id (brk_key b), rk_signer (brk_key b))
              | ORK_ShareBundle s => inr (rk_id (sbrk_key s), rk_signer (sbrk_key s))
              end)
    (fun p => match p with
              | inl (i, s) => ORK_Bundle {| brk_key := {| rk_id := i; rk_signer := s |} |}
              | inr (i, s) => ORK_ShareBundle {| sbrk_key := {| rk_id := i; rk_signer := s |} |}
              end)).
  by intros [[[]] | [[]]].
Defined.

(** ** Bundles *)
Record BundleRefund := {
  br_percent : Z;
  br_recipient : Address;
  br_tx_hash : TxHash;
  br_delayed : bool;
}.

Inductive BundleVersion := V1 | V2.
Definition LAST_BUNDLE_VERSION : BundleVersion := V2.

Record Bundle := {
  b_version : BundleVersion;
  b_block : option U64;
  b_min_timestamp : option U64;
  b_max_timestamp : option U64;
  b_txs : list TxWithBlobs;
  b_reverting_tx_hashes : list B256;
  b_dropping_tx_hashes : list B256;
  b_hash : B256;
  b_uuid : Uuid;
  b_replacement_data : option (ReplacementData BundleReplacementKey);
  b_signer : option Address;
  b_refund_identity : option Address;
  b_metadata : Metadata;
  b_refund : option BundleRefund;
  b_external_hash : option B256;
}.

Inductive TxRevertBehavior := NotAllowed | AllowedIncluded | AllowedExcluded.
#[export] Instance TxRevertBehavior_eq_dec : EqDecision TxRevertBehavior.
Proof. solve_decision. Defined.

Definition from_old_bool (can_revert : bool) : TxRevertBehavior :=
  if can_revert then AllowedIncluded else NotAllowed.

Definition can_revert (b : TxRevertBehavior) : bool :=
  match b with
  | NotAllowed => false
  | AllowedIncluded | AllowedExcluded => true
  end.

Definition is_tx_optional (b : Bundle) (hash : B256) : bool :=
  bool_decide (hash ∈ b_reverting_tx_hashes b) || bool_decide (hash ∈ b_dropping_tx_hashes b).

Definition Bundle_list_txs (b : Bundle) : list (TxWithBlobs * bool) :=
  (fun tx => (tx, is_tx_optional b (tx_hash tx))) <$> b_txs b.

Definition Bundle_nonces (b : Bundle) : list Nonce :=
  bundle_nonces ((fun tx => (tx, is_tx_optional b (tx_hash tx))) <$> b_txs b).

Definition bundle_revert_behavior (b : Bundle) (hash : B256) : TxRevertBehavior :=
  if decide (hash ∈ b_reverting_tx_hashes b) then AllowedIncluded
  else if decide (hash ∈ b_dropping_tx_hashes b) then AllowedExcluded
  else NotAllowed.

Definition Bundle_list_txs_revert (b : Bundle) : list (TxWithBlobs * TxRevertBehavior) :=
  (fun tx => (tx, bundle_revert_behavior b (tx_hash tx))) <$> b_txs b.

Definition Bundle_list_txs_len (b : Bundle) : nat := length (b_txs b).

Definition is_tx_refundable (b : Bundle) (hash : B256) : bool :=
  match b_refund b with
  | Some r => bool_decide (br_tx_hash r = hash)
  | None => false
  end.

Definition Bundle_can_execute_with_block_base_fee (b : Bundle) (fee : Z) : bool :=
  can_execute_with_block_base_fee (Bundle_list_txs b) fee.

(** ** Hash and UUID

    The hash functions and the variable-length integer encoding are library
    code; [VarIntOk] is the documented property of the encoding that the
    buffer format relies on: an encoded integer can be read back from the front
    of a buffer. *)
Class BundleHashing := {
  keccak256 : list Z -> B256;
  sha256 : list Z -> list Z;
  from_sha1_bytes : list Z -> Uuid;
  encode_var_u64 : U64 -> list Z;
  encode_var_i64 : Z -> list Z;
}.

Class VarIntOk `{BundleHashing} : Prop := {
  encode_var_u64_prefix a b s t : is_u64 a -> is_u64 b ->
    encode_var_u64 a ++ s = encode_var_u64 b ++ t -> a = b /\ s = t;
}.

Section uuid.
Context `{BundleHashing}.

Definition set_hash_uuid (b : Bundle) (hash : B256) (uuid : Uuid) : Bundle :=
  {| b_version := b_version b; b_block := b_block b; b_min_timestamp := b_min_timestamp b;
     b_max_timestamp := b_max_timestamp b; b_txs := b_txs b;
     b_reverting_tx_hashes := b_reverting_tx_hashes b;
     b_dropping_tx_hashes := b_dropping_tx_hashes b; b_hash := hash; b_uuid := uuid;
     b_replacement_data := b_replacement_data b; b_signer := b_signer b;
     b_refund_identity := b_refund_identity b; b_metadata := b_metadata b;
     b_refund := b_refund b; b_external_hash := b_external_hash b |}.

Definition set_optional_hashes (b : Bundle) (reverting dropping : list B256) : Bundle :=
  {| b_version := b_version b; b_block := b_block b; b_min_timestamp := b_min_timestamp b;
     b_max_timestamp := b_max_timestamp b; b_txs := b_txs b;
     b_reverting_tx_hashes := reverting; b_dropping_tx_hashes := dropping;
     b_hash := b_hash b; b_uuid := b_uuid b;
     b_replacement_data := b_replacement_data b; b_signer := b_signer b;
     b_refund_identity := b_refund_identity b; b_metadata := b_metadata b;
     b_refund := b_refund b; b_external_hash := b_external_hash b |}.

(** 16 zero bytes, then the buffer; the first 16 bytes of the digest. *)
Definition uuid_from_buffer (buff : list Z) : Uuid :=
  from_sha1_bytes (take 16 (sha256 (replicate 16 0 ++ buff))).

Definition hash_bytes (h : B256) : list Z := be_bytes 32 h.
Definition sort_hashes (l : list B256) : list B256 := merge_sort Z.le l.

(** Both functions take [&mut self]: they leave the hash lists sorted. *)
Definition uuid_v1_buffer (b : Bundle) : list Z :=
  encode_var_i64 (wrap_signed 64 (default 0 (b_block b)))
  ++ hash_bytes (b_hash b)
  ++ concat (hash_bytes <$> b_reverting_tx_hashes b).

Definition uuid_v1 (b : Bundle) : Bundle * Uuid :=
  let b := set_optional_hashes b (sort_hashes (b_reverting_tx_hashes b))
             (b_dropping_tx_hashes b) in
  (b, uuid_from_buffer (uuid_v1_buffer b)).

Definition uuid_v2_buffer (b : Bundle) : list Z :=
  encode_var_u64 (default 0 (b_block b))
  ++ encode_var_u64 (default 0 (b_min_timestamp b))
  ++ encode_var_u64 (default u64_max (b_max_timestamp b))
  ++ encode_var_u64 (Z.of_nat (length (b_reverting_tx_hashes b)))
  ++ encode_var_u64 (Z.of_nat (length (b_dropping_tx_hashes b)))
  ++ hash_bytes (b_hash b)
  ++ concat (hash_bytes <$> b_reverting_tx_hashes b)
  ++ concat (hash_bytes <$> b_dropping_tx_hashes b)
  ++ match b_refund b with
     | Some refund =>
         br_percent refund :: be_bytes 20 (br_recipient refund)
         ++ encode_var_u64 1 ++ hash_bytes (br_tx_hash refund)
     | None => []
     end.

Definition uuid_v2 (b : Bundle) : Bundle * Uuid :=
  let b := set_optional_hashes b (sort_hashes (b_reverting_tx_hashes b))
             (sort_hashes (b_dropping_tx_hashes b)) in
  (b, uuid_from_buffer (uuid_v2_buffer b)).

Definition Bundle_hash_slow (b : Bundle) : Bundle :=
  let hash := keccak256 (concat ((fun tx => hash_bytes (tx_hash tx)) <$> b_txs b)) in
  let b := set_hash_uuid b hash (b_uuid b) in
  let '(b, uuid) := match b_version b with V1 => uuid_v1 b | V2 => uuid_v2 b end in
  set_hash_uuid b (b_hash b) uuid.

End uuid.

(** ** Properties *)

(** Machine widths of the fields the UUID encodes. *)
Record Bundle_widths (b : Bundle) : Prop := {
  bw_block n : b_block b = Some n -> is_u64 n;
  bw_min n : b_min_timestamp b = Some n -> is_u64 n;
  bw_max n : b_max_timestamp b = Some n -> is_u64 n;
  bw_hash : is_u256 (b_hash b);
  bw_rev : Forall is_u256 (b_reverting_tx_hashes b);
  bw_drop : Forall is_u256 (b_dropping_tx_hashes b);
  bw_rev_len : is_u64 (Z.of_nat (length (b_reverting_tx_hashes b)));
  bw_drop_len : is_u64 (Z.of_nat (length (b_dropping_tx_hashes b)));
  bw_refund r : b_refund b = Some r -> is_uint 160 (br_recipient r) /\ is_u256 (br_tx_hash r);
}.

Lemma pow_256_u256 : 256 ^ Z.of_nat 32 = 2 ^ 256.
Proof. reflexivity. Qed.

Lemma hash_bytes_app_inj a b s t :
  is_u256 a -> is_u256 b -> hash_bytes a ++ s = hash_bytes b ++ t -> a = b /\ s = t.
Proof. intros Ha Hb. apply app_be_bytes_inj; rewrite pow_256_u256; done. Qed.

Lemma concat_hash_bytes_inj l1 l2 s t :
  Forall is_u256 l1 -> Forall is_u256 l2 -> length l1 = length l2 ->
  concat (hash_bytes <$> l1) ++ s = concat (hash_bytes <$> l2) ++ t -> l1 = l2 /\ s = t.
Proof.
  revert l2. induction l1 as [| a l1 IH]; intros [| b l2] H1 H2 Hlen; simpl in *; try done.
  apply Forall_cons in H1 as [Ha H1]. apply Forall_cons in H2 as [Hb H2].
  rewrite <- !app_assoc. intros [-> Ht]%hash_bytes_app_inj; [| done..].
  apply IH in Ht as [-> ->]; [done.. | lia].
Qed.

Lemma cons_inj {A} (x y : A) l k : x :: l = y :: k -> x = y /\ l = k.
Proof. by intros [=]. Qed.

Lemma refund_bytes_inj `{VarIntOk} (b1 b2 : Bundle) :
  Bundle_widths b1 -> Bundle_widths b2 ->
  match b_refund b1 with
  | Some refund => br_percent refund :: be_bytes 20 (br_recipient refund)
                   ++ encode_var_u64 1 ++ hash_bytes (br_tx_hash refund)
  | None => []
  end = match b_refund b2 with
  | Some refund => br_percent refund :: be_bytes 20 (br_recipient refund)
                   ++ encode_var_u64 1 ++ hash_bytes (br_tx_hash refund)
  | None => []
  end ->
  (fun r => (br_percent r, br_recipient r, br_tx_hash r)) <$> b_refund b1
  = (fun r => (br_percent r, br_recipient r, br_tx_hash r)) <$> b_refund b2.
Proof.
  intros W1 W2. destruct (b_refund b1) as [r1 |] eqn:E1, (b_refund b2) as [r2 |] eqn:E2;
    try done.
  destruct (bw_refund _ W1 _ E1) as [Hr1 Hh1], (bw_refund _ W2 _ E2) as [Hr2 Hh2].
  intros Heq. apply cons_inj in Heq as [Hp Heq].
  apply app_be_bytes_inj in Heq as [Hr Heq]; [| done..].
  apply encode_var_u64_prefix in Heq as [_ Heq]; [| by vm_compute..].
  apply (f_equal (fun l => l ++ [])) in Heq. apply hash_bytes_app_inj in Heq as [Hh _]; [| done..].
  simpl. congruence.
Qed.

Lemma default_u64 o d : is_u64 d -> (forall n, o = Some n -> is_u64 n) -> is_u64 (default d o).
Proof. intros Hd Ho. destruct o; simpl; auto. Qed.

Lemma is_u64_max : is_u64 u64_max.
Proof. by vm_compute. Qed.
Lemma is_u64_0 : is_u64 0.
Proof. by vm_compute. Qed.
#[export] Hint Resolve is_u64_max is_u64_0 default_u64 : rust.

(** The bytes that are hashed to the uuid of a bundle determine its block,
    timestamps, hash, revertible and droppable transactions and the
    percentage, recipient and transaction of its refund. *)
Theorem uuid_v2_buffer_inj `{VarIntOk} (b1 b2 : Bundle) :
  Bundle_widths b1 -> Bundle_widths b2 ->
  uuid_v2_buffer b1 = uuid_v2_buffer b2 ->
  default 0 (b_block b1) = default 0 (b_block b2)
  /\ default 0 (b_min_timestamp b1) = default 0 (b_min_timestamp b2)
  /\ default u64_max (b_max_timestamp b1) = default u64_max (b_max_timestamp b2)
  /\ b_hash b1 = b_hash b2
  /\ b_reverting_tx_hashes b1 = b_reverting_tx_hashes b2
  /\ b_dropping_tx_hashes b1 = b_dropping_tx_hashes b2
  /\ (fun r => (br_percent r, br_recipient r, br_tx_hash r)) <$> b_refund b1
     = (fun r => (br_percent r, br_recipient r, br_tx_hash r)) <$> b_refund b2.
Proof.
  intros W1 W2 Heq. pose proof W1 as []. pose proof W2 as []. unfold uuid_v2_buffer in Heq.
  apply encode_var_u64_prefix in Heq as [Hblock Heq]; [| eauto with rust..].
  apply encode_var_u64_prefix in Heq as [Hmin Heq]; [| eauto with rust..].
  apply encode_var_u64_prefix in Heq as [Hmax Heq]; [| eauto with rust..].
  apply encode_var_u64_prefix in Heq as [Hrev Heq]; [| done..].
  apply encode_var_u64_prefix in Heq as [Hdrop Heq]; [| done..].
  apply hash_bytes_app_inj in Heq as [Hhash Heq]; [| done..].
  apply concat_hash_bytes_inj in Heq as [Hrevs Heq]; [| done || lia..].
  apply concat_hash_bytes_inj in Heq as [Hdrops Heq]; [| done || lia..].
  apply refund_bytes_inj in Heq; done.
Qed.
