(* ===== verification/Orders.v ===== *)
(** * Orders (crates/rbuilder-primitives/src/lib.rs)

    Share bundles (trees of transactions), the [Order] type that every other
    component exchanges, and [OrderId] with its text form and its order. *)

From S2P Require Import Prelude Transactions Bundles.

(** ** Order identifiers *)
Inductive OrderId :=
| Id_Tx (hash : B256)
| Id_Bundle (uuid : Uuid)
| Id_ShareBundle (hash : B256).

#[export] Instance OrderId_eq_dec : EqDecision OrderId.
Proof. solve_decision. Defined.
#[export] Instance OrderId_countable : Countable OrderId.
Proof.
  apply (inj_countable'
    (fun i => match i with Id_Tx h => (0, h) | Id_Bundle u => (1, u) | Id_ShareBundle h => (2, h) end)
    (fun p => match p with (0, h) => Id_Tx h | (1, u) => Id_Bundle u | (_, h) => Id_ShareBundle h end)).
  by intros [].
Defined.

(** The 16 bytes of a UUID fill the upper half of the 32 bytes. *)
Definition fixed_bytes (id : OrderId) : B256 :=
  match id with
  | Id_Tx hash | Id_ShareBundle hash => hash
  | Id_Bundle uuid => uuid * 2 ^ 128
  end.

Definition OrderId_tx_hash (id : OrderId) : option B256 :=
  match id with Id_Tx hash => Some hash | _ => None end.

Definition OrderId_rank (id : OrderId) : Z :=
  match id with Id_Tx _ => 1 | Id_Bundle _ => 2 | Id_ShareBundle _ => 3 end.

(** [cmp]: the fixed bytes first, [then_with] the rank. *)
Definition OrderId_cmp (a b : OrderId) : comparison :=
  match fixed_bytes a ?= fixed_bytes b with
  | Eq => OrderId_rank a ?= OrderId_rank b
  | c => c
  end.

(** Printing and parsing; the text of a hash and of a UUID is library code. *)
Class IdText := {
  B256_debug : B256 -> string;
  B256_from_str : string -> option B256;
  Uuid_debug : Uuid -> string;
  Uuid_from_str : string -> option Uuid;
}.

Class IdTextOk `{IdText} : Prop := {
  B256_text h : is_u256 h -> B256_from_str (B256_debug h) = Some h;
  Uuid_text u : is_uint 128 u -> Uuid_from_str (Uuid_debug u) = Some u;
}.

Fixpoint strip_prefix (prefix s : string) : option string :=
  match prefix, s with
  | EmptyString, _ => Some s
  | String a prefix, String b s => if decide (a = b) then strip_prefix prefix s else None
  | String _ _, EmptyString => None
  end.

Definition OrderId_from_str `{IdText} (s : string) : option OrderId :=
  match strip_prefix "tx:" s with
  | Some hash_str => Id_Tx <$> B256_from_str hash_str
  | None =>
      match strip_prefix "bundle:" s with
      | Some id_str => Id_Bundle <$> Uuid_from_str id_str
      | None =>
          match strip_prefix "sbundle:" s with
          | Some hash_str => Id_ShareBundle <$> B256_from_str hash_str
          | None => None
          end
      end
  end.

Definition OrderId_to_string `{IdText} (id : OrderId) : string :=
  match id with
  | Id_Tx hash => "tx:" +:+ B256_debug hash
  | Id_Bundle uuid => "bundle:" +:+ Uuid_debug uuid
  | Id_ShareBundle hash => "sbundle:" +:+ B256_debug hash
  end.

(** ** Share bundles *)
Record ShareBundleTx := { sbt_tx : TxWithBlobs; revert_behavior : TxRevertBehavior }.

Record Refund := { body_idx : nat; refund_percent : Z }.
Record RefundConfig := { rc_address : Address; rc_percent : Z }.

Inductive ShareBundleBody :=
| Body_Tx (sbundle_tx : ShareBundleTx)
| Body_Bundle (inner : ShareBundleInner)
with ShareBundleInner :=
| mk_ShareBundleInner (body : list ShareBundleBody) (refund : list Refund)
    (refund_config : list RefundConfig) (can_skip : bool) (original_order_id : option OrderId).

Definition sbi_body (b : ShareBundleInner) := let '(mk_ShareBundleInner x _ _ _ _) := b in x.
Definition sbi_refund (b : ShareBundleInner) := let '(mk_ShareBundleInner _ x _ _ _) := b in x.
Definition sbi_refund_config (b : ShareBundleInner) := let '(mk_ShareBundleInner _ _ x _ _) := b in x.
Definition sbi_can_skip (b : ShareBundleInner) := let '(mk_ShareBundleInner _ _ _ x _) := b in x.
Definition sbi_original_order_id (b : ShareBundleInner) :=
  let '(mk_ShareBundleInner _ _ _ _ x) := b in x.

Fixpoint Inner_list_txs (b : ShareBundleInner) : list (TxWithBlobs * bool) :=
  let '(mk_ShareBundleInner body _ _ _ _) := b in
  concat (map (fun e => match e with
                        | Body_Tx t => [(sbt_tx t, can_revert (revert_behavior t))]
                        | Body_Bundle inner => Inner_list_txs inner
                        end) body).

Fixpoint Inner_list_txs_revert (b : ShareBundleInner) : list (TxWithBlobs * TxRevertBehavior) :=
  let '(mk_ShareBundleInner body _ _ _ _) := b in
  concat (map (fun e => match e with
                        | Body_Tx t => [(sbt_tx t, revert_behavior t)]
                        | Body_Bundle inner => Inner_list_txs_revert inner
                        end) body).

Fixpoint Inner_list_txs_len (b : ShareBundleInner) : nat :=
  let '(mk_ShareBundleInner body _ _ _ _) := b in
  sum_list (map (fun e => match e with
                          | Body_Tx _ => 1%nat
                          | Body_Bundle inner => Inner_list_txs_len inner
                          end) body).

(** An explicit configuration wins; else the first child's. *)
Fixpoint Inner_refund_config (b : ShareBundleInner) : option (list RefundConfig) :=
  let '(mk_ShareBundleInner body _ config _ _) := b in
  match config with
  | _ :: _ => Some config
  | [] =>
      match body with
      | [] => None
      | Body_Tx t :: _ => Some [{| rc_address := tx_signer (sbt_tx t); rc_percent := 100 |}]
      | Body_Bundle inner :: _ => Inner_refund_config inner
      end
  end.

Definition Body_refund_config (e : ShareBundleBody) : option (list RefundConfig) :=
  match e with
  | Body_Tx t => Some [{| rc_address := tx_signer (sbt_tx t); rc_percent := 100 |}]
  | Body_Bundle inner => Inner_refund_config inner
  end.

(** A single child keeps its own hash; otherwise the hashes are hashed together. *)
Fixpoint Inner_hash_slow `{BundleHashing} (b : ShareBundleInner) : B256 :=
  let '(mk_ShareBundleInner body _ _ _ _) := b in
  let hashes := map (fun e => match e with
                              | Body_Tx t => tx_hash (sbt_tx t)
                              | Body_Bundle inner => Inner_hash_slow inner
                              end) body in
  match hashes with
  | [h] => h
  | _ => keccak256 (concat (hash_bytes <$> hashes))
  end.

(** ** Orders *)
Inductive Order :=
| Order_Bundle (bundle : Bundle)
| Order_Tx (tx : MempoolTx)
| Order_ShareBundle (sbundle : ShareBundle)
with ShareBundle :=
| mk_ShareBundle (hash : B256) (block max_block : U64) (inner_bundle : ShareBundleInner)
    (list_txs_len : nat) (signer : option Address)
    (replacement_data : option (ReplacementData ShareBundleReplacementKey))
    (original_orders : list Order) (metadata : Metadata).

Definition sb_hash (b : ShareBundle) := let '(mk_ShareBundle x _ _ _ _ _ _ _ _) := b in x.
Definition sb_block (b : ShareBundle) := let '(mk_ShareBundle _ x _ _ _ _ _ _ _) := b in x.
Definition sb_max_block (b : ShareBundle) := let '(mk_ShareBundle _ _ x _ _ _ _ _ _) := b in x.
Definition sb_inner_bundle (b : ShareBundle) := let '(mk_ShareBundle _ _ _ x _ _ _ _ _) := b in x.
Definition sb_list_txs_len (b : ShareBundle) := let '(mk_ShareBundle _ _ _ _ x _ _ _ _) := b in x.
Definition sb_signer (b : ShareBundle) := let '(mk_ShareBundle _ _ _ _ _ x _ _ _) := b in x.
Definition sb_replacement_data (b : ShareBundle) :=
  let '(mk_ShareBundle _ _ _ _ _ _ x _ _) := b in x.
Definition sb_original_orders (b : ShareBundle) :=
  let '(mk_ShareBundle _ _ _ _ _ _ _ x _) := b in x.
Definition sb_metadata (b : ShareBundle) := let '(mk_ShareBundle _ _ _ _ _ _ _ _ x) := b in x.

(** [new_with_fake_hash] takes the hash; [new] computes it with [hash_slow]. *)
Definition ShareBundle_new_with_fake_hash (hash : B256) (block max_block : U64)
    (inner : ShareBundleInner) (signer : option Address)
    (replacement_data : option (ReplacementData ShareBundleReplacementKey))
    (original_orders : list Order) (metadata : Metadata) : ShareBundle :=
  mk_ShareBundle hash block max_block inner (Inner_list_txs_len inner) signer
    replacement_data original_orders metadata.

Definition ShareBundle_new `{BundleHashing} (block max_block : U64)
    (inner : ShareBundleInner) (signer : option Address)
    (replacement_data : option (ReplacementData ShareBundleReplacementKey))
    (original_orders : list Order) (metadata : Metadata) : ShareBundle :=
  mk_ShareBundle (Inner_hash_slow inner) block max_block inner (Inner_list_txs_len inner) signer
    replacement_data original_orders metadata.

Definition with_inner_bundle `{BundleHashing} (b : ShareBundle) (inner : ShareBundleInner)
  : ShareBundle :=
  ShareBundle_new (sb_block b) (sb_max_block b) inner (sb_signer b) (sb_replacement_data b)
    (sb_original_orders b) (sb_metadata b).

Definition ShareBundle_list_txs (b : ShareBundle) := Inner_list_txs (sb_inner_bundle b).
Definition ShareBundle_list_txs_revert (b : ShareBundle) :=
  Inner_list_txs_revert (sb_inner_bundle b).
Definition ShareBundle_nonces (b : ShareBundle) : list Nonce :=
  bundle_nonces (Inner_list_txs (sb_inner_bundle b)).
Definition ShareBundle_can_execute_with_block_base_fee (b : ShareBundle) (fee : Z) : bool :=
  can_execute_with_block_base_fee (ShareBundle_list_txs b) fee.
Definition is_merged_order (b : ShareBundle) : bool :=
  match sb_original_orders b with [] => false | _ => true end.

Definition Order_can_execute_with_block_base_fee (o : Order) (block_base_fee : Z) : bool :=
  match o with
  | Order_Bundle b => Bundle_can_execute_with_block_base_fee b block_base_fee
  | Order_Tx tx => bool_decide (ts_max_fee_per_gas (txb_tx (tx_with_blobs tx)) >= block_base_fee)
  | Order_ShareBundle b => ShareBundle_can_execute_with_block_base_fee b block_base_fee
  end.

Definition Order_original_orders (o : Order) : list Order :=
  match o with
  | Order_Bundle _ => [o]
  | Order_Tx _ => [o]
  | Order_ShareBundle sb =>
      match sb_original_orders sb with [] => [o] | res => res end
  end.

Definition Order_nonces (o : Order) : list Nonce :=
  match o with
  | Order_Bundle b => Bundle_nonces b
  | Order_Tx tx => [{| nonce_nonce := tx_nonce (tx_with_blobs tx);
                       nonce_address := tx_signer (tx_with_blobs tx);
                       nonce_optional := false |}]
  | Order_ShareBundle b => ShareBundle_nonces b
  end.

Definition Order_id (o : Order) : OrderId :=
  match o with
  | Order_Bundle b => Id_Bundle (b_uuid b)
  | Order_Tx tx => Id_Tx (tx_hash (tx_with_blobs tx))
  | Order_ShareBundle b => Id_ShareBundle (sb_hash b)
  end.

Definition external_bundle_hash (o : Order) : option B256 :=
  match o with Order_Bundle b => b_external_hash b | _ => None end.

Definition is_tx (o : Order) : bool :=
  match o with Order_Tx _ => true | _ => false end.

Definition Order_list_txs (o : Order) : list (TxWithBlobs * bool) :=
  match o with
  | Order_Bundle b => Bundle_list_txs b
  | Order_Tx tx => [(tx_with_blobs tx, true)]
  | Order_ShareBundle b => ShareBundle_list_txs b
  end.

Definition Order_list_txs_revert (o : Order) : list (TxWithBlobs * TxRevertBehavior) :=
  match o with
  | Order_Bundle b => Bundle_list_txs_revert b
  | Order_Tx tx => [(tx_with_blobs tx, AllowedIncluded)]
  | Order_ShareBundle b => ShareBundle_list_txs_revert b
  end.

Definition Order_list_txs_len (o : Order) : nat :=
  match o with
  | Order_Bundle b => Bundle_list_txs_len b
  | Order_Tx _ => 1
  | Order_ShareBundle b => sb_list_txs_len b
  end.

Definition replacement_key_and_sequence_number (o : Order)
  : option (OrderReplacementKey * U64) :=
  match o with
  | Order_Bundle b =>
      (fun r => (ORK_Bundle (rd_key r), rd_sequence_number r)) <$> b_replacement_data b
  | Order_Tx _ => None
  | Order_ShareBundle b =>
      (fun r => (ORK_ShareBundle (rd_key r), rd_sequence_number r)) <$> sb_replacement_data b
  end.

Definition replacement_key (o : Order) : option OrderReplacementKey :=
  fst <$> replacement_key_and_sequence_number o.

Definition has_blobs (o : Order) : bool :=
  existsb (fun p => bool_decide (blobs_len p.1 > 0)) (Order_list_txs o).

Definition target_block (o : Order) : option U64 :=
  match o with
  | Order_Bundle b => b_block b
  | Order_Tx _ => None
  | Order_ShareBundle b => Some (sb_block b)
  end.

Definition Order_signer (o : Order) : option Address :=
  match o with
  | Order_Bundle b => b_signer b
  | Order_ShareBundle b => sb_signer b
  | Order_Tx _ => None
  end.

Definition Order_metadata (o : Order) : Metadata :=
  match o with
  | Order_Bundle b => b_metadata b
  | Order_Tx tx => txb_metadata (tx_with_blobs tx)
  | Order_ShareBundle b => sb_metadata b
  end.

(** ** Properties of share bundles *)

(** Induction over the tree of a share bundle. *)
Section inner_ind.
Context (P : ShareBundleInner -> Prop).
Definition body_all (e : ShareBundleBody) : Prop :=
  match e with Body_Tx _ => True | Body_Bundle inner => P inner end.
Context (Hinner : forall body refund config skip oid,
  Forall body_all body -> P (mk_ShareBundleInner body refund config skip oid)).

Fixpoint ShareBundleInner_tree_ind (b : ShareBundleInner) : P b :=
  match b with
  | mk_ShareBundleInner body refund config skip oid =>
      Hinner body refund config skip oid
        ((fix go (l : list ShareBundleBody) : Forall body_all l :=
            match l with
            | [] => Forall_nil_2 body_all
            | e :: l =>
                Forall_cons_2 body_all e l
                  (match e as e' return body_all e' with
                   | Body_Tx _ => I
                   | Body_Bundle inner => ShareBundleInner_tree_ind inner
                   end) (go l)
            end) body)
  end.
End inner_ind.

Lemma Inner_list_txs_agree b :
  Inner_list_txs b = (fun p => (p.1, can_revert p.2)) <$> Inner_list_txs_revert b.
Proof.
  induction b as [body r c s o IH] using ShareBundleInner_tree_ind; simpl.
  induction IH as [| e body He IHall IH]; [done |]. simpl.
  rewrite fmap_app, IH. f_equal. by destruct e.
Qed.

Lemma Inner_list_txs_len_ok b : Inner_list_txs_len b = length (Inner_list_txs b).
Proof.
  induction b as [body r c s o IH] using ShareBundleInner_tree_ind; simpl.
  induction IH as [| e body He IHall IH]; [done |]. simpl.
  rewrite length_app, IH. f_equal. by destruct e.
Qed.

(** A share bundle built by one of its constructors caches the right length. *)
Definition list_txs_len_cached (o : Order) : Prop :=
  match o with
  | Order_ShareBundle b => sb_list_txs_len b = Inner_list_txs_len (sb_inner_bundle b)
  | _ => True
  end.

Lemma bundle_revert_optional b h :
  can_revert (bundle_revert_behavior b h) = is_tx_optional b h.
Proof.
  unfold bundle_revert_behavior, is_tx_optional. repeat case_decide; simpl;
    repeat case_bool_decide; done.
Qed.

(** The three ways to list the transactions of an order agree: with the revert
    flag, with the revert behaviour and as a number. *)
Theorem Order_list_txs_agree (o : Order) :
  list_txs_len_cached o ->
  Order_list_txs o = (fun p => (p.1, can_revert p.2)) <$> Order_list_txs_revert o
  /\ Order_list_txs_len o = length (Order_list_txs o).
Proof.
  destruct o as [b | tx | sb]; simpl; intros Hc.
  - unfold Bundle_list_txs, Bundle_list_txs_revert, Bundle_list_txs_len.
    rewrite <- list_fmap_compose, length_fmap. split; [| done].
    apply list_fmap_ext. intros i tx _. simpl. by rewrite bundle_revert_optional.
  - done.
  - rewrite Hc. split; [apply Inner_list_txs_agree | apply Inner_list_txs_len_ok].
Qed.

(** The refund configurations a depth-first walk of the tree meets, in order:
    an explicit configuration ends the walk below its bundle. *)
Fixpoint dfs_refund_configs (b : ShareBundleInner) : list (list RefundConfig) :=
  let '(mk_ShareBundleInner body _ config _ _) := b in
  match config with
  | _ :: _ => [config]
  | [] =>
      concat (map (fun e => match e with
                            | Body_Tx t => [[{| rc_address := tx_signer (sbt_tx t); rc_percent := 100 |}]]
                            | Body_Bundle inner => dfs_refund_configs inner
                            end) body)
  end.

(** No bundle of the tree is empty. *)
Fixpoint no_empty_body (b : ShareBundleInner) : bool :=
  let '(mk_ShareBundleInner body _ _ _ _) := b in
  bool_decide (body <> []) &&
  forallb (fun e => match e with Body_Tx _ => true | Body_Bundle inner => no_empty_body inner end) body.

Lemma dfs_refund_configs_nonempty b : no_empty_body b = true -> dfs_refund_configs b <> [].
Proof.
  induction b as [body r c s o IH] using ShareBundleInner_tree_ind; simpl.
  destruct c; [| done]. intros [Hne Hall]%andb_prop. apply bool_decide_eq_true in Hne.
  destruct body as [| [t | inner] body]; [done | done |].
  simpl in *. apply andb_prop in Hall as [Hi _]. apply Forall_cons in IH as [IH _].
  intros [Hnil _]%app_nil. by apply IH in Hi.
Qed.

(** In a share bundle without empty bodies the refund configuration is the first
    one that a depth-first search finds. *)
Theorem refund_config_dfs (b : ShareBundleInner) :
  no_empty_body b = true -> Inner_refund_config b = head (dfs_refund_configs b).
Proof.
  induction b as [body r c s o IH] using ShareBundleInner_tree_ind; simpl.
  destruct c; [| done]. intros [_ Hall]%andb_prop.
  destruct body as [| [t | inner] body]; [done | done |].
  simpl in *. apply andb_prop in Hall as [Hi _]. apply Forall_cons in IH as [IH _].
  rewrite IH by done. pose proof (dfs_refund_configs_nonempty _ Hi).
  by destruct (dfs_refund_configs inner).
Qed.

(** With an empty first child the walk would find the second one's signer, but
    the code only looks at the first child. *)
Example refund_config_empty_child : exists b t,
  Inner_refund_config b = None
  /\ head (dfs_refund_configs b) = Some [{| rc_address := tx_signer t; rc_percent := 100 |}].
Proof.
  set (tx := {| txb_tx := Build_TransactionSigned 1 0 0 None 0 0 0 0 0 None; txb_signer := 7;
                blobs_sidecar := default_blob_sidecar; txb_metadata := Metadata_new 0 |}).
  exists (mk_ShareBundleInner
            [Body_Bundle (mk_ShareBundleInner [] [] [] false None);
             Body_Tx {| sbt_tx := tx; revert_behavior := NotAllowed |}] [] [] false None), tx.
  split; reflexivity.
Qed.

(** ** Properties of identifiers *)

Lemma strip_prefix_app p s : strip_prefix p (p +:+ s) = Some s.
Proof. induction p as [| a p IH]; simpl; [done | by rewrite decide_True]. Qed.

(** The hash and UUID widths of an identifier. *)
Definition OrderId_width (id : OrderId) : Prop :=
  match id with
  | Id_Tx h | Id_ShareBundle h => is_u256 h
  | Id_Bundle u => is_uint 128 u
  end.

(** An order id survives being printed and parsed. *)
Theorem OrderId_roundtrip `{IdTextOk} (id : OrderId) :
  OrderId_width id -> OrderId_from_str (OrderId_to_string id) = Some id.
Proof.
  destruct id as [h | u | h]; cbn [OrderId_width OrderId_to_string]; intros Hw;
    unfold OrderId_from_str.
  - by rewrite strip_prefix_app, B256_text.
  - change (strip_prefix "tx:" _) with (@None string).
    by rewrite strip_prefix_app, Uuid_text.
  - change (strip_prefix "tx:" _) with (@None string).
    change (strip_prefix "bundle:" _) with (@None string).
    by rewrite strip_prefix_app, B256_text.
Qed.

Definition OrderId_le (a b : OrderId) : Prop := OrderId_cmp a b <> Gt.

Lemma OrderId_cmp_lex a b :
  OrderId_cmp a b = match Z.compare (fixed_bytes a) (fixed_bytes b) with
                    | Eq => Z.compare (OrderId_rank a) (OrderId_rank b) | c => c end.
Proof. done. Qed.

Lemma fixed_bytes_rank_inj a b :
  fixed_bytes a = fixed_bytes b -> OrderId_rank a = OrderId_rank b -> a = b.
Proof. destruct a, b; simpl; intros; try lia; f_equal; lia. Qed.

Ltac OrderId_cmp_cases :=
  unfold OrderId_le in *; rewrite ?OrderId_cmp_lex in *;
  repeat match goal with
    | H : context [Z.compare ?x ?y] |- _ => destruct (Z.compare_spec x y)
    | |- context [Z.compare ?x ?y] => destruct (Z.compare_spec x y)
    end.

(** The derived order on order ids is a total order. *)
Theorem OrderId_cmp_total_order :
  (forall a b, OrderId_cmp a b = Eq <-> a = b)
  /\ (forall a b, OrderId_cmp b a = CompOpp (OrderId_cmp a b))
  /\ (forall a b c, OrderId_le a b -> OrderId_le b c -> OrderId_le a c)
  /\ (forall a b, OrderId_le a b \/ OrderId_le b a).
Proof.
  split_and!.
  - intros a b. split; [| intros ->; by rewrite OrderId_cmp_lex, !Z.compare_refl].
    intros Hc. apply fixed_bytes_rank_inj; OrderId_cmp_cases; done.
  - intros a b. rewrite !OrderId_cmp_lex, (Z.compare_antisym (fixed_bytes a)),
      (Z.compare_antisym (OrderId_rank a)). by destruct (_ ?= _).
  - intros a b c. OrderId_cmp_cases; try done; lia.
  - intros a b. OrderId_cmp_cases; first [by left | by right | lia].
Qed.
