(* ===== verification/OrderCodec.v ===== *)
(** * Orders as they are sent and stored (crates/rbuilder-primitives/src/serialize.rs)

    Raw bundles, transactions and share bundles, their decoding with its checks, and
    their encoding.  The mapping to JSON is derived by serde and is not part of the
    model: raw orders are records with the fields of the source. *)

From S2P Require Import Prelude Transactions Bundles Orders.

(** ** Transactions

    The decoders of alloy and reth, on bytes.  [pooled_fails_in_rlp] tells whether
    decoding a pooled transaction fails with an error of RLP; [rlp_header] reads an RLP
    header and tells whether it is one of a list. *)
Class TxCodec := {
  codec_decode_pooled : list Z -> option PooledTransactionVariant;
  codec_decode_signed : list Z -> option TransactionSigned;
  codec_recover_signer : TransactionSigned -> option Address;
  pooled_fails_in_rlp : list Z -> bool;
  rlp_header : list Z -> option (bool * list Z);
  encode_2718 : TransactionSigned -> list Z;
}.

(** The canonical encoding is read back. *)
Class TxCodecOk `{TxCodec} : Prop :=
  decode_encode_2718 : forall tx, codec_decode_signed (encode_2718 tx) = Some tx.

Definition EIP4844_TX_TYPE_ID : Z := 3.
Definition MAINNET_CHAIN_ID : Z := 1.

Section codec.
Context `{TxCodec} `{BundleHashing} (now : Z).

Definition envelope_encoded_no_blobs (tx : TxWithBlobs) : list Z := encode_2718 (txb_tx tx).

Definition decode_raw (signer_lookup : option (B256 -> option Address)) (encoding : TxEncoding) (raw_tx : list Z)
  : result TxWithBlobs TxWithBlobsCreateError :=
  decode_enveloped codec_decode_pooled codec_decode_signed codec_recover_signer now
    {| raw := raw_tx; Transactions.encoding := encoding; Transactions.signer_lookup := signer_lookup |}.

Definition looks_like_canonical_blob_tx (raw_tx : list Z) : bool :=
  match raw_tx with
  | tx_type :: tx_slice =>
      if decide (tx_type = EIP4844_TX_TYPE_ID) then
        match rlp_header tx_slice with
        | Some (true, chain_id :: _) => bool_decide (chain_id = MAINNET_CHAIN_ID)
        | _ => false
        end
      else false
  | [] => false
  end.

Definition TxEncoding_decode (encoding : TxEncoding) (raw_tx : list Z) : result TxWithBlobs TxWithBlobsCreateError :=
  let res := decode_raw None encoding raw_tx in
  match encoding with
  | NoBlobData => res
  | WithBlobData =>
      match res with
      | Err FailedToDecodeTransaction =>
          if pooled_fails_in_rlp raw_tx && looks_like_canonical_blob_tx raw_tx
          then Err FailedToDecodeTransactionProbablyIs4484Canonical else res
      | _ => res
      end
  end.

(** ** Bundles *)
Record RawBundleMetadata := {
  rm_version : option string;
  rm_block_number : option U64;
  rm_reverting_tx_hashes : list B256;
  rm_dropping_tx_hashes : list B256;
  rm_replacement_uuid : option Uuid;
  rm_uuid : option Uuid;
  rm_signing_address : option Address;
  rm_refund_identity : option Address;
  rm_min_timestamp : option U64;
  rm_max_timestamp : option U64;
  rm_replacement_nonce : option U64;
  rm_refund_percent : option Z;
  rm_refund_recipient : option Address;
  rm_refund_tx_hashes : option (list TxHash);
  rm_delayed_refund : option bool;
  rm_bundle_hash : option B256;
}.

Record RawBundle := { rb_metadata : RawBundleMetadata; rb_txs : list (list Z) }.

Inductive RawBundleConvertError :=
| RB_FailedToDecodeTransaction (idx : nat) (e : TxWithBlobsCreateError)
| RB_IncorrectReplacementData
| RB_InvalidRefundPercent (percent : Z)
| RB_EmptyBundle
| RB_FoundCancelExpectingBundle
| RB_UnsupportedVersion (version : string)
| RB_FieldNotSupportedByVersion (field : string) (version : BundleVersion)
| RB_MoreThanOneRefundTxHash.

Inductive RawBundleDecodeResult :=
| RB_NewBundle (bundle : Bundle)
| RB_CancelBundle (replacement_data : ReplacementData BundleReplacementKey).

Definition BUNDLE_VERSION_V1 : string := "v1".
Definition BUNDLE_VERSION_V2 : string := "v2".

Definition decode_replacement_data (m : RawBundleMetadata)
  : result (option (ReplacementData BundleReplacementKey)) RawBundleConvertError :=
  match (if rm_uuid m then rm_uuid m else rm_replacement_uuid m) with
  | Some uuid =>
      let? replacement_nonce := ok_or (rm_replacement_nonce m) RB_IncorrectReplacementData in
      let? signer := ok_or (rm_signing_address m) RB_IncorrectReplacementData in
      Ok (Some {| rd_key := BundleReplacementKey_new uuid (Some signer); rd_sequence_number := replacement_nonce |})
  | None => Ok None
  end.

Definition decode_version (m : RawBundleMetadata) : result BundleVersion RawBundleConvertError :=
  match rm_version m with
  | Some version =>
      if decide (version = BUNDLE_VERSION_V1) then Ok V1
      else if decide (version = BUNDLE_VERSION_V2) then Ok V2
      else Err (RB_UnsupportedVersion version)
  | None => Ok LAST_BUNDLE_VERSION
  end.

Definition validate_fields (m : RawBundleMetadata) (version : BundleVersion) : result unit RawBundleConvertError :=
  match version with
  | V1 =>
      match rm_dropping_tx_hashes m, rm_refund_percent m, rm_refund_recipient m, rm_refund_tx_hashes m,
            rm_delayed_refund m with
      | _ :: _, _, _, _, _ => Err (RB_FieldNotSupportedByVersion "dropping_tx_hashes" version)
      | [], Some _, _, _, _ => Err (RB_FieldNotSupportedByVersion "refund_percent" version)
      | [], None, Some _, _, _ => Err (RB_FieldNotSupportedByVersion "refund_recipient" version)
      | [], None, None, Some _, _ => Err (RB_FieldNotSupportedByVersion "refund_tx_hashes" version)
      | [], None, None, None, Some _ => Err (RB_FieldNotSupportedByVersion "delayed_refund" version)
      | [], None, None, None, None => Ok tt
      end
  | V2 => Ok tt
  end.

(** The loop over the transactions, from the position [idx] on. *)
Fixpoint recover_txs (signer_lookup : option (B256 -> option Address)) (encoding : TxEncoding) (idx : nat)
    (txs : list (list Z)) : result (list TxWithBlobs) RawBundleConvertError :=
  match txs with
  | [] => Ok []
  | tx :: txs =>
      let? tx := map_err (RB_FailedToDecodeTransaction idx) (decode_raw signer_lookup encoding tx) in
      let? txs := recover_txs signer_lookup encoding (S idx) txs in
      Ok (tx :: txs)
  end.

Definition parse_refund (m : RawBundleMetadata) (txs : list TxWithBlobs)
  : result (option BundleRefund) RawBundleConvertError :=
  let? refund_percent :=
    match rm_refund_percent m with
    | Some percent =>
        if decide (percent >= 100) then Err (RB_InvalidRefundPercent percent)
        else if decide (percent = 0) then Ok None
        else Ok (Some percent)
    | None => Ok None
    end in
  match refund_percent, head txs, last txs with
  | Some percent, Some first_tx, Some last_tx =>
      let? tx_hash :=
        match rm_refund_tx_hashes m with
        | Some (_ :: _ :: _) => Err RB_MoreThanOneRefundTxHash
        | Some refund_tx_hashes => Ok (default (tx_hash last_tx) (head refund_tx_hashes))
        | None => Ok (tx_hash last_tx)
        end in
      Ok (Some {| br_percent := percent; br_recipient := default (tx_signer first_tx) (rm_refund_recipient m);
                  br_tx_hash := tx_hash; br_delayed := default false (rm_delayed_refund m) |})
  | _, _, _ => Ok None
  end.

Definition decode_inner (r : RawBundle) (encoding : TxEncoding) (signer_lookup : option (B256 -> option Address))
  : result RawBundleDecodeResult RawBundleConvertError :=
  let m := rb_metadata r in
  let? replacement_data := decode_replacement_data m in
  match rb_txs r with
  | [] =>
      match replacement_data with
      | Some replacement_data => Ok (RB_CancelBundle replacement_data)
      | None => Err RB_EmptyBundle
      end
  | _ =>
      let? version := decode_version m in
      let? _ := validate_fields m version in
      let? txs := recover_txs signer_lookup encoding 0 (rb_txs r) in
      let? refund := parse_refund m txs in
      let block := default 0 (rm_block_number m) in
      Ok (RB_NewBundle (Bundle_hash_slow
        {| b_version := version; b_block := if decide (block = 0) then None else Some block;
           b_min_timestamp := rm_min_timestamp m;
           b_max_timestamp := let! t := rm_max_timestamp m in if decide (t = 0) then None else Some t;
           b_txs := txs; b_reverting_tx_hashes := sort_hashes (rm_reverting_tx_hashes m);
           b_dropping_tx_hashes := sort_hashes (rm_dropping_tx_hashes m); b_hash := 0; b_uuid := 0;
           b_replacement_data := replacement_data; b_signer := rm_signing_address m;
           b_refund_identity := rm_refund_identity m; b_metadata := Metadata_new now; b_refund := refund;
           b_external_hash := rm_bundle_hash m |}))
  end.

Definition RawBundle_decode (r : RawBundle) (encoding : TxEncoding) := decode_inner r encoding None.
Definition decode_with_signer_lookup (r : RawBundle) (encoding : TxEncoding) (signer_lookup : B256 -> option Address) :=
  decode_inner r encoding (Some signer_lookup).

Definition RawBundle_decode_new_bundle (r : RawBundle) (encoding : TxEncoding) : result Bundle RawBundleConvertError :=
  let? decode_res := RawBundle_decode r encoding in
  match decode_res with
  | RB_NewBundle b => Ok b
  | RB_CancelBundle _ => Err RB_FoundCancelExpectingBundle
  end.

Definition encode_version (version : BundleVersion) : string :=
  match version with V1 => BUNDLE_VERSION_V1 | V2 => BUNDLE_VERSION_V2 end.

Definition RawBundle_encode_no_blobs (value : Bundle) : RawBundle :=
  let replacement_uuid := (fun r => rk_id (brk_key (rd_key r))) <$> b_replacement_data value in
  {| rb_txs := envelope_encoded_no_blobs <$> b_txs value;
     rb_metadata :=
       {| rm_version := Some (encode_version (b_version value)); rm_block_number := b_block value;
          rm_reverting_tx_hashes := b_reverting_tx_hashes value; rm_dropping_tx_hashes := b_dropping_tx_hashes value;
          rm_replacement_uuid := replacement_uuid; rm_uuid := replacement_uuid;
          rm_signing_address :=
            match b_signer value with
            | Some signer => Some signer
            | None => let! r := b_replacement_data value in rk_signer (brk_key (rd_key r))
            end;
          rm_refund_identity := b_refund_identity value; rm_min_timestamp := b_min_timestamp value;
          rm_max_timestamp := b_max_timestamp value;
          rm_replacement_nonce := rd_sequence_number <$> b_replacement_data value;
          rm_refund_percent := br_percent <$> b_refund value; rm_refund_recipient := br_recipient <$> b_refund value;
          rm_refund_tx_hashes := (fun br => [br_tx_hash br]) <$> b_refund value;
          rm_delayed_refund := br_delayed <$> b_refund value; rm_bundle_hash := b_external_hash value |} |}.

(** ** Mempool transactions *)
Record RawTx := { rt_tx : list Z }.

Definition RawTx_decode (r : RawTx) (encoding : TxEncoding) : result MempoolTx TxWithBlobsCreateError :=
  let? tx := TxEncoding_decode encoding (rt_tx r) in Ok {| tx_with_blobs := tx |}.

Definition RawTx_encode_no_blobs (value : MempoolTx) : RawTx :=
  {| rt_tx := envelope_encoded_no_blobs (tx_with_blobs value) |}.

(** ** Share bundles *)
Record RawShareBundleInclusion := { ri_block : U64; ri_max_block : option U64 }.
Record RawShareBundleValidity := { rv_refund : list Refund; rv_refund_config : list RefundConfig }.
Record RawShareBundleMetadatada := {
  rsm_signer : option Address;
  rsm_replacement_nonce : option U64;
  rsm_cancelled : bool;
}.

Inductive RawShareBundle :=
| mk_RawShareBundle (version : string) (inclusion : RawShareBundleInclusion) (body : list RawShareBundleBody)
    (validity : option RawShareBundleValidity) (metadata : option RawShareBundleMetadatada)
    (replacement_uuid : option Uuid)
with RawShareBundleBody :=
| mk_RawShareBundleBody (tx : option (list Z)) (can_revert : bool) (revert_mode : option string)
    (bundle : option RawShareBundle).

Inductive RawShareBundleConvertError :=
| RS_FailedToDecodeTransaction (idx : nat) (e : TxWithBlobsCreateError)
| RS_BundleTooDeep
| RS_IncorrectVersion
| RS_EmptyBody
| RS_TotalRefundTooBig
| RS_RefundConfigIncorrect
| RS_FoundCancelExpectingBundle
| RS_CancelError.

Record CancelShareBundle := { csb_block : U64; csb_key : ShareBundleReplacementKey }.

Inductive RawShareBundleDecodeResult :=
| RS_NewShareBundle (bundle : ShareBundle)
| RS_CancelShareBundle (cancel : CancelShareBundle).

Definition TX_REVERT_NOT_ALLOWED : string := "fail".
Definition TX_REVERT_ALLOWED_INCLUDED : string := "allow".
Definition TX_REVERT_ALLOWED_EXCLUDED : string := "drop".

Definition serialize_revert_behavior (revert : TxRevertBehavior) : string :=
  match revert with
  | NotAllowed => TX_REVERT_NOT_ALLOWED
  | AllowedIncluded => TX_REVERT_ALLOWED_INCLUDED
  | AllowedExcluded => TX_REVERT_ALLOWED_EXCLUDED
  end.

Definition parse_revert_behavior (can_revert : bool) (revert_mode : option string) : TxRevertBehavior :=
  match revert_mode with
  | Some revert_mode =>
      if decide (revert_mode = TX_REVERT_NOT_ALLOWED) then NotAllowed
      else if decide (revert_mode = TX_REVERT_ALLOWED_INCLUDED) then AllowedIncluded
      else if decide (revert_mode = TX_REVERT_ALLOWED_EXCLUDED) then AllowedExcluded
      else NotAllowed
  | None => from_old_bool can_revert
  end.

Definition share_version_ok (version : string) : bool :=
  bool_decide (version = "v0.1"%string) || bool_decide (version = "version-1"%string)
  || bool_decide (version = "beta-1"%string).

(** Percentages are summed up as machine words. *)
Definition sum_percent (l : list Z) : Z := foldl u64_add 0 l.

Definition check_validity (validity : option RawShareBundleValidity)
  : result (list Refund * list RefundConfig) RawShareBundleConvertError :=
  match validity with
  | Some v =>
      if decide (sum_percent (refund_percent <$> rv_refund v) > 100) then Err RS_TotalRefundTooBig
      else if bool_decide (rv_refund_config v <> []) && bool_decide (sum_percent (rc_percent <$> rv_refund_config v) > 100)
      then Err RS_RefundConfigIncorrect
      else Ok (rv_refund v, rv_refund_config v)
  | None => Ok ([], [])
  end.

(** The iteration over a body, with the count of transactions; [extract] is
    [extract_inner_bundle] one level deeper. *)
Definition extract_body (extract : nat -> RawShareBundle -> result (nat * ShareBundleInner) RawShareBundleConvertError)
    (encoding : TxEncoding)
  : nat -> list RawShareBundleBody -> result (nat * list ShareBundleBody) RawShareBundleConvertError :=
  fix go (tx_count : nat) (l : list RawShareBundleBody) :=
    match l with
    | [] => Ok (tx_count, [])
    | mk_RawShareBundleBody tx can_revert revert_mode bundle :: l =>
        let? (tx_count, e) :=
          match tx, bundle with
          | Some tx, _ =>
              let? tx := map_err (RS_FailedToDecodeTransaction tx_count) (TxEncoding_decode encoding tx) in
              Ok (S tx_count, Body_Tx {| sbt_tx := tx; revert_behavior := parse_revert_behavior can_revert revert_mode |})
          | None, Some bundle =>
              let? (tx_count, inner) := extract tx_count bundle in Ok (tx_count, Body_Bundle inner)
          | None, None => Err RS_EmptyBody
          end in
        let? (tx_count, l) := go tx_count l in
        Ok (tx_count, e :: l)
    end.

Fixpoint extract_inner_bundle (encoding : TxEncoding) (depth tx_count : nat) (r : RawShareBundle)
  : result (nat * ShareBundleInner) RawShareBundleConvertError :=
  let '(mk_RawShareBundle version _ body validity _ _) := r in
  if (5 <? depth)%nat then Err RS_BundleTooDeep
  else if negb (share_version_ok version) then Err RS_IncorrectVersion
  else
    let? (tx_count, body) := extract_body (extract_inner_bundle encoding (S depth)) encoding tx_count body in
    let? (refund, refund_config) := check_validity validity in
    Ok (tx_count, mk_ShareBundleInner body refund refund_config false None).

Definition share_replacement_data (replacement_uuid : option Uuid) (signer : option Address) (replacement_nonce : option U64)
  : option (ReplacementData ShareBundleReplacementKey) :=
  match replacement_uuid, signer, replacement_nonce with
  | Some replacement_uuid, Some signer, Some replacement_nonce =>
      Some {| rd_key := ShareBundleReplacementKey_new replacement_uuid signer; rd_sequence_number := replacement_nonce |}
  | _, _, _ => None
  end.

Definition RawShareBundle_decode (r : RawShareBundle) (encoding : TxEncoding)
  : result RawShareBundleDecodeResult RawShareBundleConvertError :=
  let '(mk_RawShareBundle _ inclusion _ _ metadata replacement_uuid) := r in
  let block := ri_block inclusion in
  let max_block := default (ri_block inclusion) (ri_max_block inclusion) in
  let signer := let! m := metadata in rsm_signer m in
  let replacement_nonce := let! m := metadata in rsm_replacement_nonce m in
  let replacement_data := share_replacement_data replacement_uuid signer replacement_nonce in
  if match metadata with Some m => rsm_cancelled m | None => false end then
    let? data := ok_or replacement_data RS_CancelError in
    Ok (RS_CancelShareBundle {| csb_block := block; csb_key := rd_key data |})
  else
    let? (_, inner_bundle) := extract_inner_bundle encoding 0 0 r in
    Ok (RS_NewShareBundle (ShareBundle_new block max_block inner_bundle signer replacement_data [] (Metadata_new now))).

Definition RawShareBundle_decode_new_bundle (r : RawShareBundle) (encoding : TxEncoding)
  : result ShareBundle RawShareBundleConvertError :=
  let? decode_res := RawShareBundle_decode r encoding in
  match decode_res with
  | RS_NewShareBundle b => Ok b
  | RS_CancelShareBundle _ => Err RS_FoundCancelExpectingBundle
  end.

Definition encode_validity (refund : list Refund) (refund_config : list RefundConfig) : option RawShareBundleValidity :=
  match refund, refund_config with
  | [], [] => None
  | _, _ => Some {| rv_refund := refund; rv_refund_config := refund_config |}
  end.

Fixpoint inner_bundle_to_raw_bundle_no_blobs (inclusion : RawShareBundleInclusion) (inner : ShareBundleInner)
  : RawShareBundle :=
  let '(mk_ShareBundleInner body refund refund_config _ _) := inner in
  mk_RawShareBundle "v0.1" inclusion
    (map (fun b =>
       match b with
       | Body_Bundle inner =>
           mk_RawShareBundleBody None false None (Some (inner_bundle_to_raw_bundle_no_blobs inclusion inner))
       | Body_Tx t =>
           mk_RawShareBundleBody (Some (envelope_encoded_no_blobs (sbt_tx t))) (can_revert (revert_behavior t))
             (Some (serialize_revert_behavior (revert_behavior t))) None
       end) body)
    (encode_validity refund refund_config) None None.

Definition RawShareBundle_encode_no_blobs (value : ShareBundle) : RawShareBundle :=
  let inclusion :=
    {| ri_block := sb_block value;
       ri_max_block := if decide (sb_block value = sb_max_block value) then None else Some (sb_max_block value) |} in
  let '(mk_RawShareBundle version inclusion body validity _ _) :=
    inner_bundle_to_raw_bundle_no_blobs inclusion (sb_inner_bundle value) in
  mk_RawShareBundle version inclusion body validity
    ((fun signer => {| rsm_signer := Some signer;
                       rsm_replacement_nonce := rd_sequence_number <$> sb_replacement_data value;
                       rsm_cancelled := false |}) <$> sb_signer value)
    ((fun r => rk_id (sbrk_key (rd_key r))) <$> sb_replacement_data value).

(** ** Orders *)
Inductive RawOrder :=
| RawOrder_Bundle (bundle : RawBundle)
| RawOrder_Tx (tx : RawTx)
| RawOrder_ShareBundle (sbundle : RawShareBundle).

Inductive RawOrderConvertError :=
| RO_FailedToDecodeBundle (e : RawBundleConvertError)
| RO_FailedToDecodeTransaction (e : TxWithBlobsCreateError)
| RO_FailedToDecodeShareBundle (e : RawShareBundleConvertError).

Definition RawOrder_decode (r : RawOrder) (encoding : TxEncoding) : result Order RawOrderConvertError :=
  match r with
  | RawOrder_Bundle bundle =>
      let? b := map_err RO_FailedToDecodeBundle (RawBundle_decode_new_bundle bundle encoding) in Ok (Order_Bundle b)
  | RawOrder_Tx tx => let? tx := map_err RO_FailedToDecodeTransaction (RawTx_decode tx encoding) in Ok (Order_Tx tx)
  | RawOrder_ShareBundle bundle =>
      let? b := map_err RO_FailedToDecodeShareBundle (RawShareBundle_decode_new_bundle bundle encoding) in
      Ok (Order_ShareBundle b)
  end.

Definition RawOrder_from (value : Order) : RawOrder :=
  match value with
  | Order_Bundle bundle => RawOrder_Bundle (RawBundle_encode_no_blobs bundle)
  | Order_Tx tx => RawOrder_Tx (RawTx_encode_no_blobs tx)
  | Order_ShareBundle bundle => RawOrder_ShareBundle (RawShareBundle_encode_no_blobs bundle)
  end.
End codec.

Arguments decode_raw : simpl never.
Arguments TxEncoding_decode : simpl never.
Arguments parse_revert_behavior : simpl never.
Arguments serialize_revert_behavior : simpl never.

(** ** What is decoded round trips *)
Section roundtrip.
Context `{TxCodecOk} `{BundleHashing} (now : Z).

Lemma sort_hashes_sorted l : StronglySorted Z.le (sort_hashes l).
Proof. apply (StronglySorted_merge_sort Z.le). Qed.

Lemma sort_sorted l : StronglySorted Z.le l -> sort_hashes l = l.
Proof.
  intros Hl. apply (StronglySorted_unique Z.le); [apply sort_hashes_sorted | done |].
  apply (merge_sort_Permutation Z.le).
Qed.

Lemma sort_hashes_idemp l : sort_hashes (sort_hashes l) = sort_hashes l.
Proof. apply sort_sorted, sort_hashes_sorted. Qed.

Lemma decode_raw_again rw tx : decode_raw now None NoBlobData rw = Ok tx ->
  decode_raw now None NoBlobData (envelope_encoded_no_blobs tx) = Ok tx.
Proof.
  unfold decode_raw, decode_enveloped, decode_enveloped_with_fake_blobs, find_signer, envelope_encoded_no_blobs.
  cbn. destruct (codec_decode_signed rw) as [d |]; [| done]. cbn.
  destruct (codec_recover_signer d) as [s |] eqn:Es; [| done]. intros [= <-]. cbn.
  rewrite decode_encode_2718. cbn. by rewrite Es.
Qed.

Lemma recover_txs_again idx raws txs : recover_txs now None NoBlobData idx raws = Ok txs ->
  forall idx', recover_txs now None NoBlobData idx' (envelope_encoded_no_blobs <$> txs) = Ok txs.
Proof.
  revert idx txs. induction raws as [| rw raws IH]; intros idx txs; cbn [recover_txs]; [by intros [= <-] |].
  destruct (decode_raw _ _ _ rw) as [tx |] eqn:Ed; [| done]. cbn.
  destruct (recover_txs _ _ _ (S idx) raws) as [txs' |] eqn:Er; [| done]. intros [= <-] idx'.
  rewrite fmap_cons. cbn [recover_txs]. rewrite (decode_raw_again _ _ Ed). cbn. by rewrite (IH _ _ Er).
Qed.

Lemma recover_txs_length lookup enc idx raws txs : recover_txs now lookup enc idx raws = Ok txs -> length txs = length raws.
Proof.
  revert idx txs. induction raws as [| rw raws IH]; intros idx txs; cbn [recover_txs]; [by intros [= <-] |].
  destruct (decode_raw _ _ _ rw); [| done]. cbn. destruct (recover_txs _ _ _ _ raws) as [txs' |] eqn:Er; [| done].
  intros [= <-]. cbn. f_equal. by eapply IH.
Qed.

(** The fields that computing the hash leaves, given sorted lists. *)
Lemma hash_slow_sorted b : StronglySorted Z.le (b_reverting_tx_hashes b) -> StronglySorted Z.le (b_dropping_tx_hashes b) ->
  exists hash uuid, Bundle_hash_slow b = set_hash_uuid b hash uuid.
Proof.
  intros Hr Hd. unfold Bundle_hash_slow. destruct b as [v blk mint maxt txs rev drop h u rd sg ri md rf eh].
  cbn in Hr, Hd. apply sort_sorted in Hr, Hd. unfold sort_hashes in Hr, Hd.
  destruct v; do 2 eexists; cbn; unfold uuid_v1, uuid_v2, set_optional_hashes, set_hash_uuid, sort_hashes; cbn;
    rewrite Hr, ?Hd; reflexivity.
Qed.

Lemma parse_refund_again m txs refund m' : parse_refund m txs = Ok refund ->
  rm_refund_percent m' = br_percent <$> refund -> rm_refund_recipient m' = br_recipient <$> refund ->
  rm_refund_tx_hashes m' = (fun br => [br_tx_hash br]) <$> refund -> rm_delayed_refund m' = br_delayed <$> refund ->
  parse_refund m' txs = Ok refund.
Proof.
  unfold parse_refund. destruct (rm_refund_percent m) as [percent |].
  2: { intros [= <-] -> _ _ _. done. }
  case_decide as H100; [done |]. case_decide as H0'; [intros [= <-] -> _ _ _; done |].
  destruct (head txs) as [first |] eqn:Eh; [| intros [= <-] -> _ _ _; done].
  destruct (last txs) as [lst |] eqn:El; [| intros [= <-] -> _ _ _; done].
  destruct (rm_refund_tx_hashes m) as [[| h [| h' l]] |]; [| | done |]; intros [= <-] -> -> -> ->; cbn;
    by rewrite !decide_False by done.
Qed.

Lemma decode_replacement_again m rd : decode_replacement_data m = Ok rd ->
  (rd = None \/ exists signer, rm_signing_address m = Some signer /\
     exists id n, rd = Some {| rd_key := BundleReplacementKey_new id (Some signer); rd_sequence_number := n |}).
Proof.
  unfold decode_replacement_data. destruct (if rm_uuid m then rm_uuid m else rm_replacement_uuid m) as [uuid |].
  - destruct (rm_replacement_nonce m) as [n |]; [| done]. destruct (rm_signing_address m) as [s |]; [| done].
    intros [= <-]. right. eauto.
  - intros [= <-]. by left.
Qed.

Lemma validate_again m version txs refund m' : validate_fields m version = Ok tt -> parse_refund m txs = Ok refund ->
  rm_dropping_tx_hashes m' = sort_hashes (rm_dropping_tx_hashes m) ->
  rm_refund_percent m' = br_percent <$> refund -> rm_refund_recipient m' = br_recipient <$> refund ->
  rm_refund_tx_hashes m' = (fun br => [br_tx_hash br]) <$> refund -> rm_delayed_refund m' = br_delayed <$> refund ->
  validate_fields m' version = Ok tt.
Proof.
  unfold validate_fields, parse_refund. destruct version; [| done].
  destruct (rm_dropping_tx_hashes m), (rm_refund_percent m), (rm_refund_recipient m), (rm_refund_tx_hashes m),
    (rm_delayed_refund m); try done.
  intros _ [= <-] -> -> -> -> ->. done.
Qed.

Lemma decode_version_again version m' : rm_version m' = Some (encode_version version) -> decode_version m' = Ok version.
Proof. unfold decode_version. intros ->. by destruct version. Qed.

(** A decoded bundle is decoded again from its encoding. *)
Lemma bundle_roundtrip r b : RawBundle_decode_new_bundle now r NoBlobData = Ok b ->
  RawBundle_decode_new_bundle now (RawBundle_encode_no_blobs b) NoBlobData = Ok b.
Proof.
  unfold RawBundle_decode_new_bundle, RawBundle_decode, decode_inner.
  destruct (decode_replacement_data _) as [rd |] eqn:Erd; [| done].
  destruct (rb_txs r) as [| tx0 txs0] eqn:Etxs; [by destruct rd |].
  destruct (decode_version _) as [version |] eqn:Ever; [| done].
  destruct (validate_fields _ _) as [[] |] eqn:Eval; [| done].
  destruct (recover_txs _ _ _ _ _) as [txs |] eqn:Erec; [| done].
  destruct (parse_refund _ _) as [refund |] eqn:Eref; [| done].
  set (b0 := {| b_version := version |}).
  destruct (hash_slow_sorted b0) as (hash & uuid & Eh); [apply sort_hashes_sorted | apply sort_hashes_sorted |].
  rewrite Eh. intros [= <-]. set (m' := rb_metadata (RawBundle_encode_no_blobs (set_hash_uuid b0 hash uuid))).
  assert (Hsign : rm_signing_address m' = rm_signing_address (rb_metadata r)).
  { cbn. destruct (rm_signing_address _) as [s |] eqn:Es; [done |].
    destruct (decode_replacement_again _ _ Erd) as [-> | (signer & Hs & _)]; [done | congruence]. }
  assert (Hrd : decode_replacement_data m' = Ok rd).
  { unfold decode_replacement_data. rewrite Hsign.
    destruct (decode_replacement_again _ _ Erd) as [E | (signer & -> & id & n & E)]; subst b0 m'; cbn; by rewrite E. }
  rewrite Hrd. rewrite (decode_version_again version) by done.
  rewrite (validate_again _ _ _ _ m' Eval Eref) by done.
  assert (Htxs : forall idx, recover_txs now None NoBlobData idx (rb_txs (RawBundle_encode_no_blobs (set_hash_uuid b0 hash uuid))) = Ok txs)
    by (intros idx; apply (recover_txs_again _ _ _ Erec)).
  rewrite Htxs, (parse_refund_again _ _ _ m' Eref) by done.
  destruct (rb_txs (RawBundle_encode_no_blobs _)) as [| x l] eqn:Ex.
  { exfalso. apply recover_txs_length in Erec. apply (f_equal length) in Ex. cbn in Ex, Erec.
    rewrite length_fmap in Ex. lia. }
  rewrite Hsign. do 2 f_equal. rewrite <- Eh. f_equal. subst m' b0. cbn. f_equal.
  - by destruct (rm_block_number _) as [n |]; cbn; repeat case_decide.
  - by destruct (rm_max_timestamp _) as [n |]; cbn; [| done]; repeat (case_decide; cbn).
  - apply sort_hashes_idemp.
  - apply sort_hashes_idemp.
Qed.

(** ** Share bundles *)

(** Induction over the tree of a raw share bundle. *)
Section raw_ind.
Context (P : RawShareBundle -> Prop).
Definition raw_body_all (e : RawShareBundleBody) : Prop :=
  match e with mk_RawShareBundleBody _ _ _ (Some r) => P r | _ => True end.
Context (Hraw : forall version inclusion body validity metadata uuid,
  Forall raw_body_all body -> P (mk_RawShareBundle version inclusion body validity metadata uuid)).

Fixpoint RawShareBundle_tree_ind (r : RawShareBundle) : P r :=
  match r with
  | mk_RawShareBundle version inclusion body validity metadata uuid =>
      Hraw version inclusion body validity metadata uuid
        ((fix go (l : list RawShareBundleBody) : Forall raw_body_all l :=
            match l with
            | [] => Forall_nil_2 raw_body_all
            | e :: l =>
                Forall_cons_2 raw_body_all e l
                  (match e as e' return raw_body_all e' with
                   | mk_RawShareBundleBody _ _ _ (Some r) => RawShareBundle_tree_ind r
                   | mk_RawShareBundleBody _ _ _ None => I
                   end) (go l)
            end) body)
  end.
End raw_ind.

(** Its transactions round trip. *)
Definition tx_ok (tx : TxWithBlobs) : Prop :=
  decode_raw now None NoBlobData (envelope_encoded_no_blobs tx) = Ok tx.

(** What decoding produces: at most five levels of nesting below the first, refunds
    within bounds, no merged order inside. *)
Fixpoint inner_ok (depth : nat) (inner : ShareBundleInner) : Prop :=
  let '(mk_ShareBundleInner body refund refund_config can_skip original_order_id) := inner in
  (depth <= 5)%nat /\ can_skip = false /\ original_order_id = None /\
  check_validity (Some {| rv_refund := refund; rv_refund_config := refund_config |}) = Ok (refund, refund_config) /\
  foldr (fun e rest => match e with
                       | Body_Tx t => tx_ok (sbt_tx t)
                       | Body_Bundle inner => inner_ok (S depth) inner
                       end /\ rest) True body.

Lemma check_validity_ok v refund config : check_validity v = Ok (refund, config) ->
  check_validity (Some {| rv_refund := refund; rv_refund_config := config |}) = Ok (refund, config).
Proof.
  destruct v as [[r c] |]; [| by intros [= <- <-]]. intros Hv. assert (r = refund /\ c = config) as [-> ->]; [| done].
  unfold check_validity in Hv. cbn in Hv. repeat case_match; by simplify_eq.
Qed.

Lemma check_validity_again refund config :
  check_validity (Some {| rv_refund := refund; rv_refund_config := config |}) = Ok (refund, config) ->
  check_validity (encode_validity refund config) = Ok (refund, config).
Proof. by destruct refund, config. Qed.

Lemma extract_ok r : forall depth n n' inner, extract_inner_bundle now NoBlobData depth n r = Ok (n', inner) ->
  inner_ok depth inner.
Proof.
  induction r as [version inclusion body validity metadata uuid IH] using RawShareBundle_tree_ind.
  intros depth n n' inner. cbn [extract_inner_bundle]. destruct (5 <? depth)%nat eqn:Ed; [done |].
  apply Nat.ltb_ge in Ed. destruct (negb _); [done |].
  destruct (extract_body _ _ _ _) as [[n1 body'] |] eqn:Eb; [| done].
  destruct (check_validity validity) as [[refund config] |] eqn:Ev; [| done]. intros [= <- <-]. cbn [inner_ok].
  split_and!; [done | done | done | by eapply check_validity_ok |]. clear Ev Ed.
  revert n n1 body' Eb. induction IH as [| [tx can mode bundle] body He _ IHb]; intros n n1 body' Eb; cbn in Eb.
  { by injection Eb as <- <-. }
  destruct tx as [tx |]; [| destruct bundle as [bundle |]; [| done]].
  - destruct (TxEncoding_decode _ _ tx) as [tx' |] eqn:Et; [| done]. cbn in Eb.
    destruct (extract_body _ _ _ _) as [[n2 l] |] eqn:El; [| done]. injection Eb as <- <-. cbn.
    split; [by eapply decode_raw_again | by eapply IHb].
  - destruct (extract_inner_bundle _ _ _ _ bundle) as [[n2 inner] |] eqn:Ei; [| done]. cbn in Eb.
    destruct (extract_body _ _ _ _) as [[n3 l] |] eqn:El; [| done]. injection Eb as <- <-. cbn.
    split; [by eapply He | by eapply IHb].
Qed.

Lemma parse_serialize can revert : parse_revert_behavior can (Some (serialize_revert_behavior revert)) = revert.
Proof. by destruct revert. Qed.

Lemma extract_again inner : forall incl depth n, inner_ok depth inner ->
  exists n', extract_inner_bundle now NoBlobData depth n (inner_bundle_to_raw_bundle_no_blobs incl inner) = Ok (n', inner).
Proof.
  induction inner as [body refund config skip oid IH] using ShareBundleInner_tree_ind.
  intros incl depth n. cbn [inner_ok]. intros (Hd & -> & -> & Hv & Hbody).
  cbn [inner_bundle_to_raw_bundle_no_blobs extract_inner_bundle].
  rewrite (proj2 (Nat.ltb_ge 5 depth) Hd). cbn [negb share_version_ok].
  assert (Hb : exists n', extract_body now (extract_inner_bundle now NoBlobData (S depth)) NoBlobData n
    (map (fun b => match b with
       | Body_Bundle inner => mk_RawShareBundleBody None false None (Some (inner_bundle_to_raw_bundle_no_blobs incl inner))
       | Body_Tx t => mk_RawShareBundleBody (Some (envelope_encoded_no_blobs (sbt_tx t))) (can_revert (revert_behavior t))
                        (Some (serialize_revert_behavior (revert_behavior t))) None
       end) body) = Ok (n', body)).
  { clear Hv Hd. revert n. induction IH as [| e body He _ IHb]; intros n; [by exists n |].
    cbn in Hbody. destruct Hbody as [He' Hbody]. specialize (IHb Hbody). destruct e as [[tx rv] | inner].
    - destruct (IHb (S n)) as [n' Hn']. exists n'. cbn. unfold TxEncoding_decode. cbn in He'. rewrite He'. cbn.
      rewrite Hn'. cbn. by rewrite parse_serialize.
    - destruct (He incl (S depth) n He') as [n1 Hn1]. destruct (IHb n1) as [n' Hn']. exists n'. cbn.
      rewrite Hn1. cbn. by rewrite Hn'. }
  destruct Hb as [n' Hn']. exists n'. rewrite Hn', (check_validity_again _ _ Hv). done.
Qed.

Lemma max_block_again (block max_block : Z) :
  default block (if decide (block = max_block) then None else Some max_block) = max_block.
Proof. by case_decide. Qed.

Lemma share_bundle_roundtrip r b : RawShareBundle_decode_new_bundle now r NoBlobData = Ok b ->
  RawShareBundle_decode_new_bundle now (RawShareBundle_encode_no_blobs b) NoBlobData = Ok b.
Proof.
  destruct r as [version [block max_block] body validity metadata uuid].
  unfold RawShareBundle_decode_new_bundle, RawShareBundle_decode. cbn [ri_block ri_max_block].
  destruct (match metadata with Some m => rsm_cancelled m | None => false end); [by destruct (share_replacement_data _ _ _) |].
  destruct (extract_inner_bundle _ _ _ _ _) as [[n inner] |] eqn:Ei; [| done]. intros [= <-].
  pose proof (extract_ok _ _ _ _ _ Ei) as Hok. unfold RawShareBundle_encode_no_blobs, ShareBundle_new.
  set (incl := {| ri_block := _ |}). destruct (extract_again inner incl 0 0 Hok) as [n' Hn'].
  destruct (inner_bundle_to_raw_bundle_no_blobs incl inner) as [v i rbody rval md u] eqn:Eraw.
  assert (i = incl) as -> by (destruct inner; by injection Eraw).
  cbn [sb_inner_bundle sb_replacement_data sb_signer]. rewrite Eraw.
  assert (Hx : forall md u, extract_inner_bundle now NoBlobData 0 0 (mk_RawShareBundle v incl rbody rval md u) = Ok (n', inner))
    by (intros; exact Hn').
  assert (Hmax : default (ri_block incl) (ri_max_block incl) = default block max_block)
    by (subst incl; cbn; apply max_block_again).
  rewrite Hx, Hmax. clear -now. subst incl. cbn [ri_block sb_block].
  generalize (let! m := metadata in rsm_replacement_nonce m) as nonce.
  generalize (let! m := metadata in rsm_signer m) as signer. intros [s |] nonce.
  - by destruct uuid, nonce.
  - by destruct uuid.
Qed.

(** C19. Whatever order is decoded from its raw form without blob data, encoding it
    and decoding it again gives the same order: transactions with their
    signers, hash and uuid, sorted hash lists, refunds, replacement data,
    and share bundles with their nested bodies, revert modes and refund
    configuration. *)
Theorem decoded_order_roundtrip r o : RawOrder_decode now r NoBlobData = Ok o ->
  RawOrder_decode now (RawOrder_from o) NoBlobData = Ok o.
Proof.
  destruct r as [rb | rt | rs]; cbn [RawOrder_decode].
  - destruct (RawBundle_decode_new_bundle _ rb _) as [b |] eqn:E; [| done]. intros [= <-]. cbn.
    by rewrite (bundle_roundtrip _ _ E).
  - destruct (RawTx_decode _ rt _) as [tx |] eqn:E; [| done]. intros [= <-]. cbn. unfold RawTx_decode in *. cbn.
    destruct (TxEncoding_decode _ _ (rt_tx rt)) as [tx' |] eqn:Et; [| done]. injection E as <-. cbn.
    unfold TxEncoding_decode in *. by rewrite (decode_raw_again _ _ Et).
  - destruct (RawShareBundle_decode_new_bundle _ rs _) as [b |] eqn:E; [| done]. intros [= <-]. cbn.
    by rewrite (share_bundle_roundtrip _ _ E).
Qed.
End roundtrip.

(** ** What is decoded is well formed *)
Section wellformed.
Context `{TxCodec} `{BundleHashing} (now : Z).

Record bundle_valid (b : Bundle) : Prop := {
  bv_txs : b_txs b <> [];
  bv_block : b_block b <> Some 0;
  bv_max_timestamp : b_max_timestamp b <> Some 0;
  bv_reverting : StronglySorted Z.le (b_reverting_tx_hashes b);
  bv_dropping : StronglySorted Z.le (b_dropping_tx_hashes b);
  bv_v1 : b_version b = V1 -> b_dropping_tx_hashes b = [] /\ b_refund b = None;
  bv_refund : forall r, b_refund b = Some r -> br_percent r <> 0 /\ br_percent r < 100;
  bv_replacement : forall rd, b_replacement_data b = Some rd ->
    is_Some (b_signer b) /\ rk_signer (brk_key (rd_key rd)) = b_signer b;
  bv_hash : Bundle_hash_slow b = b;
}.

(** What the sum of percentages as machine words says of them: it is at most 100 modulo
    [2 ^ 64]; so each is at most 100 when the sum does not overflow. *)
Record percents_valid (l : list Z) : Prop := {
  pv_total : zsum l mod 2 ^ 64 <= 100;
  pv_each : Forall (fun p => 0 <= p) l -> zsum l < 2 ^ 64 -> Forall (fun p => p <= 100) l;
}.

(** Nested at most five levels below [depth], refunds whose sum is checked, nothing
    merged. *)
Fixpoint inner_valid (depth : nat) (inner : ShareBundleInner) : Prop :=
  let '(mk_ShareBundleInner body refund refund_config can_skip original_order_id) := inner in
  (depth <= 5)%nat /\ can_skip = false /\ original_order_id = None /\
  percents_valid (refund_percent <$> refund) /\ percents_valid (rc_percent <$> refund_config) /\
  foldr (fun e rest => match e with Body_Tx _ => True | Body_Bundle inner => inner_valid (S depth) inner end /\ rest)
    True body.

Record share_bundle_valid (b : ShareBundle) : Prop := {
  sv_inner : inner_valid 0 (sb_inner_bundle b);
  sv_hash : sb_hash b = Inner_hash_slow (sb_inner_bundle b);
  sv_len : sb_list_txs_len b = Inner_list_txs_len (sb_inner_bundle b);
  sv_original : sb_original_orders b = [];
  sv_replacement : forall rd, sb_replacement_data b = Some rd ->
    is_Some (sb_signer b) /\ rk_signer (sbrk_key (rd_key rd)) = sb_signer b;
}.

Definition order_valid (o : Order) : Prop :=
  match o with
  | Order_Bundle b => bundle_valid b
  | Order_Tx _ => True
  | Order_ShareBundle b => share_bundle_valid b
  end.

Lemma hash_slow_idemp b : StronglySorted Z.le (b_reverting_tx_hashes b) -> StronglySorted Z.le (b_dropping_tx_hashes b) ->
  Bundle_hash_slow (Bundle_hash_slow b) = Bundle_hash_slow b.
Proof.
  intros Hr Hd. destruct b as [v blk mint maxt txs rev drop h u rd sg ri md rf eh]. cbn in Hr, Hd.
  apply sort_sorted in Hr, Hd. unfold sort_hashes in Hr, Hd.
  destruct v; unfold Bundle_hash_slow, uuid_v1, uuid_v2, set_optional_hashes, set_hash_uuid, sort_hashes; cbn;
    rewrite Hr, ?Hd; cbn; rewrite ?Hr, ?Hd; reflexivity.
Qed.

Lemma parse_refund_percent m txs r : parse_refund m txs = Ok (Some r) -> br_percent r <> 0 /\ br_percent r < 100.
Proof.
  unfold parse_refund. destruct (rm_refund_percent m) as [percent |]; [| done].
  case_decide; [done |]. case_decide; [done |]. destruct (head txs), (last txs); try done.
  destruct (rm_refund_tx_hashes m) as [[| h [| h' l]] |]; [| | done |]; intros [= <-]; cbn; lia.
Qed.

Lemma v1_fields m txs refund : validate_fields m V1 = Ok tt -> parse_refund m txs = Ok refund ->
  sort_hashes (rm_dropping_tx_hashes m) = [] /\ refund = None.
Proof.
  unfold validate_fields, parse_refund. destruct (rm_dropping_tx_hashes m); [| done].
  destruct (rm_refund_percent m); [done |]. by intros _ [= <-].
Qed.

Lemma decoded_bundle_valid r lookup enc b : decode_inner now r enc lookup = Ok (RB_NewBundle b) -> bundle_valid b.
Proof.
  unfold decode_inner. destruct (decode_replacement_data _) as [rd |] eqn:Erd; [| done].
  destruct (rb_txs r) as [| tx0 txs0] eqn:Etxs; [by destruct rd |].
  destruct (decode_version _) as [version |]; [| done].
  destruct (validate_fields _ _) as [[] |] eqn:Eval; [| done].
  destruct (recover_txs _ _ _ _ _) as [txs |] eqn:Erec; [| done].
  destruct (parse_refund _ _) as [refund |] eqn:Eref; [| done].
  set (b0 := {| b_version := version |}).
  assert (Hs1 : StronglySorted Z.le (b_reverting_tx_hashes b0)) by apply sort_hashes_sorted.
  assert (Hs2 : StronglySorted Z.le (b_dropping_tx_hashes b0)) by apply sort_hashes_sorted.
  destruct (hash_slow_sorted b0 Hs1 Hs2) as (hash & uuid & Eh). intros [= <-].
  pose proof (hash_slow_idemp b0 Hs1 Hs2) as Hidem. rewrite Eh in *. split; try done.
  - cbn. apply recover_txs_length in Erec. by destruct txs.
  - cbn. case_decide; [done | congruence].
  - cbn. destruct (rm_max_timestamp _); cbn; [| done]. case_decide; congruence.
  - cbn. intros ->. by eapply v1_fields.
  - cbn. intros rf ->. by eapply parse_refund_percent.
  - cbn. intros rd' ->. destruct (decode_replacement_again _ _ Erd) as [? | (signer & -> & id & n & [= ->])]; done.
Qed.

Lemma sum_percent_zsum l : sum_percent l = zsum l mod 2 ^ 64.
Proof.
  unfold sum_percent. assert (forall acc, foldl u64_add acc l mod 2 ^ 64 = (acc + zsum l) mod 2 ^ 64
    /\ (0 <= acc < 2 ^ 64 -> 0 <= foldl u64_add acc l < 2 ^ 64)) as Hl.
  { induction l as [| p l IH]; intros acc; cbn [foldl zsum foldr]; [by rewrite Z.add_0_r |].
    destruct (IH (u64_add acc p)) as [-> Hr]. unfold u64_add, wrap in *.
    rewrite Zplus_mod_idemp_l, <- Z.add_assoc. split; [done |]. intros _. apply Hr, Z.mod_pos_bound. lia. }
  destruct (Hl 0) as [He Hr]. rewrite <- (Z.mod_small (foldl u64_add 0 l) (2 ^ 64)) by (apply Hr; lia). exact He.
Qed.

Lemma sum_percent_valid l : sum_percent l <= 100 -> percents_valid l.
Proof.
  rewrite sum_percent_zsum. intros Hl. split; [done |]. intros Hpos Hsmall.
  rewrite Z.mod_small in Hl by (pose proof (zsum_nonneg l Hpos); lia).
  apply Forall_forall. intros p Hp. pose proof (zsum_elem l p Hpos Hp). lia.
Qed.

Lemma check_validity_sums v refund config : check_validity v = Ok (refund, config) ->
  percents_valid (refund_percent <$> refund) /\ percents_valid (rc_percent <$> config).
Proof.
  enough (check_validity v = Ok (refund, config) ->
    sum_percent (refund_percent <$> refund) <= 100 /\ sum_percent (rc_percent <$> config) <= 100) as Hs
    by (intros [? ?]%Hs; auto using sum_percent_valid).
  destruct v as [[r c] |]; [| by intros [= <- <-]]. unfold check_validity. cbn [rv_refund rv_refund_config].
  case_decide as Hr; [done |]. destruct (bool_decide (c <> [])) eqn:Ec; cbn [andb].
  - destruct (bool_decide (sum_percent _ > 100)) eqn:Es; [done |]. apply bool_decide_eq_false in Es.
    intros [= <- <-]. lia.
  - apply bool_decide_eq_false in Ec. intros [= <- <-]. destruct c; [cbn; lia | by destruct Ec].
Qed.

Lemma extract_valid enc r : forall depth n n' inner, extract_inner_bundle now enc depth n r = Ok (n', inner) ->
  inner_valid depth inner.
Proof.
  induction r as [version inclusion body validity metadata uuid IH] using RawShareBundle_tree_ind.
  intros depth n n' inner. cbn [extract_inner_bundle]. destruct (5 <? depth)%nat eqn:Ed; [done |].
  apply Nat.ltb_ge in Ed. destruct (negb _); [done |].
  destruct (extract_body _ _ _ _) as [[n1 body'] |] eqn:Eb; [| done].
  destruct (check_validity validity) as [[refund config] |] eqn:Ev; [| done]. intros [= <- <-]. cbn [inner_valid].
  destruct (check_validity_sums _ _ _ Ev). split_and!; try done. clear Ev Ed.
  revert n n1 body' Eb. induction IH as [| [tx can mode bundle] body He _ IHb]; intros n n1 body' Eb; cbn in Eb.
  { by injection Eb as <- <-. }
  destruct tx as [tx |]; [| destruct bundle as [bundle |]; [| done]].
  - destruct (TxEncoding_decode _ _ tx) as [tx' |] eqn:Et; [| done]. cbn in Eb.
    destruct (extract_body _ _ _ _) as [[n2 l] |] eqn:El; [| done]. injection Eb as <- <-. cbn.
    split; [done | by eapply IHb].
  - destruct (extract_inner_bundle _ _ _ _ bundle) as [[n2 inner] |] eqn:Ei; [| done]. cbn in Eb.
    destruct (extract_body _ _ _ _) as [[n3 l] |] eqn:El; [| done]. injection Eb as <- <-. cbn.
    split; [by eapply He | by eapply IHb].
Qed.

Lemma decoded_share_bundle_valid r enc b : RawShareBundle_decode now r enc = Ok (RS_NewShareBundle b) -> share_bundle_valid b.
Proof.
  destruct r as [version [block max_block] body validity metadata uuid]. unfold RawShareBundle_decode.
  destruct (match metadata with Some m => rsm_cancelled m | None => false end); [by destruct (share_replacement_data _ _ _) |].
  destruct (extract_inner_bundle _ _ _ _ _) as [[n inner] |] eqn:Ei; [| done]. intros [= <-].
  split; cbn; try done; [by eapply extract_valid |].
  intros rd. unfold share_replacement_data. destruct uuid as [id |]; [| done].
  destruct (let! m := metadata in rsm_signer m) as [s |]; [| done].
  destruct (let! m := metadata in rsm_replacement_nonce m); [| done]. by intros [= <-].
Qed.

(** C20. Every order that is decoded is well formed: a bundle has transactions, no
    zero block or zero maximal timestamp, sorted hash lists, no droppable
    transactions or refund in version 1, a refund between zero and 100
    percent, a replacement key with the signer of the bundle, and the hash
    and uuid of its content; a share bundle is nested at most five levels
    deep, in each of its bundles the percentages of the refunds, and those
    of the refund configuration, add up to at most 100 modulo 2^64 (so that
    each is at most 100 when their sum does not overflow), and its key has
    its signer. *)
Theorem decoded_order_valid r enc o : RawOrder_decode now r enc = Ok o -> order_valid o.
Proof.
  destruct r as [rb | rt | rs]; cbn [RawOrder_decode].
  - unfold RawBundle_decode_new_bundle, RawBundle_decode. destruct (decode_inner _ rb _ _) as [[b | rd] |] eqn:E; [| done | done].
    intros [= <-]. by eapply decoded_bundle_valid.
  - destruct (RawTx_decode _ _ _); [| done]. by intros [= <-].
  - unfold RawShareBundle_decode_new_bundle. destruct (RawShareBundle_decode _ rs _) as [[b | c] |] eqn:E; [| done | done].
    intros [= <-]. by eapply decoded_share_bundle_valid.
Qed.
End wellformed.

(** ** Sample orders *)
Section sample.
Definition toy_encode (tx : TransactionSigned) : list Z :=
  [ts_hash tx; ts_ty tx; ts_nonce tx; (if ts_to tx then 1 else 0); default 0 (ts_to tx); ts_value tx; ts_gas_limit tx;
   ts_max_fee_per_gas tx; ts_length tx; ts_size tx; (if ts_blob_versioned_hashes tx then 1 else 0)]
  ++ default [] (ts_blob_versioned_hashes tx).

Definition toy_decode (bytes : list Z) : option TransactionSigned :=
  match bytes with
  | hash :: ty :: nonce :: has_to :: to :: value :: gas :: fee :: len :: size :: has_blobs :: hashes =>
      Some {| ts_hash := hash; ts_ty := ty; ts_nonce := nonce; ts_to := if decide (has_to = 1) then Some to else None;
              ts_value := value; ts_gas_limit := gas; ts_max_fee_per_gas := fee; ts_length := len; ts_size := size;
              ts_blob_versioned_hashes := if decide (has_blobs = 1) then Some hashes else None |}
  | _ => None
  end.

(** The signer of a transaction is its hash plus one. *)
#[local] Instance toy_codec : TxCodec := {|
  codec_decode_pooled := fun bytes => PooledPlain <$> toy_decode bytes;
  codec_decode_signed := toy_decode;
  codec_recover_signer := fun tx => Some (ts_hash tx + 1);
  pooled_fails_in_rlp := fun _ => true;
  rlp_header := fun bytes => Some (true, bytes);
  encode_2718 := toy_encode;
|}.

#[local] Instance toy_codec_ok : TxCodecOk.
Proof. intros [hash ty nonce [to |] value gas fee len size [hashes |]]; reflexivity. Qed.

#[local] Instance toy_hashing : BundleHashing := {|
  keccak256 := foldl (fun acc b => acc * 31 + b) 7;
  sha256 := fun l => l;
  from_sha1_bytes := foldl (fun acc b => acc * 256 + b) 0;
  encode_var_u64 := fun z => [z];
  encode_var_i64 := fun z => [z];
|}.

Definition raw_tx (hash : Z) : list Z := [hash; 2; 0; 1; 9; 0; 21000; 10; 100; 200; 0].

Definition raw_metadata (percent : option Z) (uuid : option Z) (signer : option Z) : RawBundleMetadata :=
  {| rm_version := None; rm_block_number := Some 7; rm_reverting_tx_hashes := [40; 30]; rm_dropping_tx_hashes := [20];
     rm_replacement_uuid := uuid; rm_uuid := None; rm_signing_address := signer; rm_refund_identity := None;
     rm_min_timestamp := Some 0; rm_max_timestamp := Some 0; rm_replacement_nonce := Some 3; rm_refund_percent := percent;
     rm_refund_recipient := None; rm_refund_tx_hashes := Some []; rm_delayed_refund := None; rm_bundle_hash := None |}.

Definition raw_bundle : RawOrder :=
  RawOrder_Bundle {| rb_metadata := raw_metadata (Some 90) (Some 5) (Some 6); rb_txs := [raw_tx 30; raw_tx 40] |}.

Definition raw_share_inner : RawShareBundle :=
  mk_RawShareBundle "beta-1" {| ri_block := 7; ri_max_block := None |}
    [mk_RawShareBundleBody (Some (raw_tx 50)) true None None; mk_RawShareBundleBody (Some (raw_tx 60)) false (Some "drop"%string) None]
    (Some {| rv_refund := [{| body_idx := 0; refund_percent := 80 |}]; rv_refund_config := [] |}) None None.

Definition raw_share_bundle : RawOrder :=
  RawOrder_ShareBundle (mk_RawShareBundle "v0.1" {| ri_block := 7; ri_max_block := Some 9 |}
    [mk_RawShareBundleBody (Some (raw_tx 70)) false None None; mk_RawShareBundleBody None false None (Some raw_share_inner)]
    None (Some {| rsm_signer := Some 6; rsm_replacement_nonce := Some 3; rsm_cancelled := false |}) (Some 5)).

Definition decoded (r : RawOrder) : Order :=
  match RawOrder_decode 0 r NoBlobData with Ok o => o | Err _ => Order_Tx {| tx_with_blobs := {| txb_tx :=
    {| ts_hash := 0; ts_ty := 0; ts_nonce := 0; ts_to := None; ts_value := 0; ts_gas_limit := 0; ts_max_fee_per_gas := 0;
       ts_length := 0; ts_size := 0; ts_blob_versioned_hashes := None |}; txb_signer := 0;
       blobs_sidecar := default_blob_sidecar; txb_metadata := Metadata_new 0 |} |} end.

Lemma sample_decoded : RawOrder_decode 0 raw_bundle NoBlobData = Ok (decoded raw_bundle) /\
  RawOrder_decode 0 raw_share_bundle NoBlobData = Ok (decoded raw_share_bundle).
Proof. split; vm_compute; reflexivity. Qed.

Lemma decoded_order_roundtrip_witness :
  RawOrder_decode 0 (RawOrder_from (decoded raw_bundle)) NoBlobData = Ok (decoded raw_bundle) /\
  RawOrder_decode 0 (RawOrder_from (decoded raw_share_bundle)) NoBlobData = Ok (decoded raw_share_bundle).
Proof.
  destruct sample_decoded as [Hb Hs].
  split; [exact (decoded_order_roundtrip 0 _ _ Hb) | exact (decoded_order_roundtrip 0 _ _ Hs)].
Defined.

Lemma decoded_order_valid_witness : order_valid (decoded raw_bundle) /\ order_valid (decoded raw_share_bundle).
Proof.
  destruct sample_decoded as [Hb Hs].
  split; [exact (decoded_order_valid 0 _ _ _ Hb) | exact (decoded_order_valid 0 _ _ _ Hs)].
Defined.

(** Percentages whose sum overflows are accepted: two refunds of [2 ^ 63] percent. *)
Example overflowing_refunds_decoded :
  let refund := [{| body_idx := 0; refund_percent := 2 ^ 63 |}; {| body_idx := 0; refund_percent := 2 ^ 63 |}] in
  match RawShareBundle_decode_new_bundle 0 (mk_RawShareBundle "v0.1" {| ri_block := 7; ri_max_block := None |}
          [mk_RawShareBundleBody (Some (raw_tx 70)) false None None; mk_RawShareBundleBody (Some (raw_tx 80)) false None None]
          (Some {| rv_refund := refund; rv_refund_config := [] |}) None None) NoBlobData with
  | Ok b => sbi_refund (sb_inner_bundle b)
  | Err _ => []
  end = refund.
Proof. vm_compute. reflexivity. Qed.

(** A refund without a recipient goes to the signer of the first transaction, for the
    last transaction. *)
Example refund_without_recipient :
  match decoded raw_bundle with Order_Bundle b => b_refund b | _ => None end
  = Some {| br_percent := 90; br_recipient := 31; br_tx_hash := 40; br_delayed := false |}.
Proof. vm_compute. reflexivity. Qed.

(** A bundle whose replacement key has no signer is encoded to what is not decoded. *)
Example unsigned_replacement_not_decoded :
  RawBundle_decode_new_bundle 0 (RawBundle_encode_no_blobs
    {| b_version := V2; b_block := Some 7; b_min_timestamp := None; b_max_timestamp := None; b_txs := [];
       b_reverting_tx_hashes := []; b_dropping_tx_hashes := []; b_hash := 0; b_uuid := 0;
       b_replacement_data := Some {| rd_key := BundleReplacementKey_new 5 None; rd_sequence_number := 1 |};
       b_signer := None; b_refund_identity := None; b_metadata := Metadata_new 0; b_refund := None;
       b_external_hash := None |}) NoBlobData = Err RB_IncorrectReplacementData.
Proof. reflexivity. Qed.
End sample.
