(* ===== verification/ConstraintProofs.v ===== *)
(** * Inclusion proofs of constraint transactions (building/constraint_proofs.rs,
      live_builder/block_output/constraint_proof_observer.rs, constraint_proof_storage.rs)

    After a block is submitted its transactions are put into a trie, the constraint
    transactions that were appended are proved to be in it, and the proofs of the last
    ten slots are kept to be served. *)

From Stdlib Require Import Ascii.
From S2P Require Import Prelude Transactions Bundles Orders OrderCodec.

(** ** The trie library (eth_trie)

    [TrieErr] is its error; the root hash commits the trie. *)
Class EthTrie (T : Type) := {
  et_new : T;
  et_insert : T -> list Z -> list Z -> result T unit;
  et_root_hash : T -> T * result B256 unit;
  et_get_proof : T -> list Z -> T * result (list (list Z)) unit;
  et_verify_proof : B256 -> list Z -> list (list Z) -> result (option (list Z)) unit;
}.

(** The RLP encodings of an index and of a signed transaction. *)
Class TxTrieEncoding := {
  rlp_index : nat -> list Z;
  rlp_tx : TransactionSigned -> list Z;
}.

Inductive ConstraintProofError :=
| CP_TrieError
| CP_TxNotFound (tx_index : nat)
| CP_TxHashNotFound (tx_hash : B256)
| CP_InvalidProof.

Record ConstraintProof := {
  cp_tx_hash : B256;
  cp_tx_index : nat;
  cp_proof : list (list Z);
  cp_transactions_root : B256;
  cp_block_number : U64;
  cp_slot : U64;
}.

(** ** Proof nodes as hexadecimal strings (hex_vec)

    [hex_encode] and [hex_decode] are those of the hex library. *)
Class HexCodec := { hex_encode : list Z -> string; hex_decode : string -> option (list Z) }.

Definition strip_0x (s : string) : string :=
  match s with String "0"%char (String "x"%char rest) => rest | _ => s end.

Definition hex_vec_serialize `{HexCodec} (data : list (list Z)) : list string :=
  map (fun item => String "0"%char (String "x"%char (hex_encode item))) data.

Fixpoint hex_vec_deserialize `{HexCodec} (strings : list string) : option (list (list Z)) :=
  match strings with
  | [] => Some []
  | s :: strings =>
      let! item := hex_decode (strip_0x s) in
      let! items := hex_vec_deserialize strings in
      Some (item :: items)
  end.

(** ** The builder *)
Section builder.
Context {T : Type} `{EthTrie T} `{TxTrieEncoding}.

Record TransactionTrieBuilder := { tb_trie : T; tb_transactions : list B256 }.

Definition TransactionTrieBuilder_new : TransactionTrieBuilder := {| tb_trie := et_new; tb_transactions := [] |}.

(** The loop, from the position [idx] on. *)
Fixpoint build_from (builder : TransactionTrieBuilder) (idx : nat) (transactions : list TransactionSigned)
  : result TransactionTrieBuilder ConstraintProofError :=
  match transactions with
  | [] => Ok builder
  | tx :: transactions =>
      let? trie := map_err (fun _ => CP_TrieError) (et_insert (tb_trie builder) (rlp_index idx) (rlp_tx tx)) in
      build_from {| tb_trie := trie; tb_transactions := tb_transactions builder ++ [ts_hash tx] |} (S idx) transactions
  end.

Definition trie_build (transactions : list TransactionSigned) : result TransactionTrieBuilder ConstraintProofError :=
  build_from TransactionTrieBuilder_new 0 transactions.

Definition with_trie (b : TransactionTrieBuilder) (trie : T) : TransactionTrieBuilder :=
  {| tb_trie := trie; tb_transactions := tb_transactions b |}.

Definition trie_root (b : TransactionTrieBuilder) : TransactionTrieBuilder * result B256 ConstraintProofError :=
  let '(trie, root) := et_root_hash (tb_trie b) in (with_trie b trie, map_err (fun _ => CP_TrieError) root).

Definition get_proof (b : TransactionTrieBuilder) (tx_index : nat)
  : TransactionTrieBuilder * result (list (list Z)) ConstraintProofError :=
  if (length (tb_transactions b) <=? tx_index)%nat then (b, Err (CP_TxNotFound tx_index))
  else
    let '(trie, proof) := et_get_proof (tb_trie b) (rlp_index tx_index) in
    (with_trie b trie, map_err (fun _ => CP_TrieError) proof).

Definition find_tx_index (b : TransactionTrieBuilder) (tx_hash : B256) : result nat ConstraintProofError :=
  match list_find (fun hash => hash = tx_hash) (tb_transactions b) with
  | Some (i, _) => Ok i
  | None => Err (CP_TxHashNotFound tx_hash)
  end.

Definition verify_proof (tx_index : nat) (proof : list (list Z)) (root : B256) : result (list Z) ConstraintProofError :=
  match et_verify_proof root (rlp_index tx_index) proof with
  | Ok (Some value) => Ok value
  | Ok None => Err CP_InvalidProof
  | Err _ => Err CP_TrieError
  end.

Definition get_tx_hash (b : TransactionTrieBuilder) (tx_index : nat) : result B256 ConstraintProofError :=
  ok_or (tb_transactions b !! tx_index) (CP_TxNotFound tx_index).

End builder.
Arguments TransactionTrieBuilder : clear implicits.

(** ** Storage (constraint_proof_storage.rs) *)
Definition MAX_SLOTS_TO_KEEP : nat := 10.

Record BlockProofs := { bp_block_hash : B256; bp_block_number : U64; bp_proofs : list ConstraintProof }.
Record SlotProofs := { sp_slot : U64; sp_blocks : list BlockProofs }.
Record ProofsResponse := { pr_slots : list SlotProofs }.

Abbreviation ConstraintProofStorage := (gmap Z (gmap Z BlockProofs)).

Definition min_slot (slots : list Z) : option Z :=
  match slots with [] => None | s :: slots => Some (foldl Z.min s slots) end.

Definition add_proof (storage : ConstraintProofStorage) (slot : U64) (block_hash : B256) (block_number : U64)
    (proof : ConstraintProof) : ConstraintProofStorage :=
  let slot_entry : gmap Z BlockProofs := default ∅ (storage !! slot) in
  let block_entry := default {| bp_block_hash := block_hash; bp_block_number := block_number; bp_proofs := [] |}
                       (slot_entry !! block_hash) in
  let block_entry := {| bp_block_hash := bp_block_hash block_entry; bp_block_number := bp_block_number block_entry;
                        bp_proofs := bp_proofs block_entry ++ [proof] |} in
  let storage := <[slot := <[block_hash := block_entry]> slot_entry]> storage in
  if (MAX_SLOTS_TO_KEEP <? size storage)%nat then
    match min_slot (map_to_list storage).*1 with
    | Some min_slot => delete min_slot storage
    | None => storage
    end
  else storage.

(** Blocks of a slot are listed in the iteration order of their hash map. *)
Definition get_recent_proofs `{!HashOrder Z} (storage : ConstraintProofStorage) : ProofsResponse :=
  let slots := reverse (merge_sort Z.le (map_to_list storage).*1) in
  {| pr_slots := omap (fun slot =>
       let! blocks := storage !! slot in
       Some {| sp_slot := slot; sp_blocks := omap (fun hash => blocks !! hash) (hash_order (dom blocks)) |}) slots |}.

(** ** The observer (constraint_proof_observer.rs)

    What is read of a submitted block, in each of its versions. *)
Record ExecutionPayload := { ep_transactions : list (list Z); ep_block_hash : B256 }.
Inductive SubmitBlockRequest :=
| Electra (p : ExecutionPayload)
| Fulu (p : ExecutionPayload)
| Deneb (p : ExecutionPayload)
| Capella (p : ExecutionPayload).

Definition execution_payload (r : SubmitBlockRequest) : ExecutionPayload :=
  match r with Electra p | Fulu p | Deneb p | Capella p => p end.

Definition extract_block_hash (r : SubmitBlockRequest) : B256 := ep_block_hash (execution_payload r).

Fixpoint decode_transactions `{TxCodec} (l : list (list Z)) : option (list TransactionSigned) :=
  match l with
  | [] => Some []
  | bytes :: l =>
      let! tx := codec_decode_signed bytes in
      let! txs := decode_transactions l in
      Some (tx :: txs)
  end.

(** [None] is an error message. *)
Definition extract_transactions `{TxCodec} (r : SubmitBlockRequest) : option (list TransactionSigned) :=
  let! transactions := decode_transactions (ep_transactions (execution_payload r)) in
  match transactions with [] => None | _ => Some transactions end.

Section observer.
Context {T : Type} `{EthTrie T} `{TxTrieEncoding} `{TxCodec}.

Definition generate_single_proof (b : TransactionTrieBuilder T) (tx_hash transactions_root : B256) (block_number slot : U64)
  : TransactionTrieBuilder T * result ConstraintProof ConstraintProofError :=
  match find_tx_index b tx_hash with
  | Err e => (b, Err e)
  | Ok tx_index =>
      let '(b, proof) := get_proof b tx_index in
      (b, let? proof := proof in
          Ok {| cp_tx_hash := tx_hash; cp_tx_index := tx_index; cp_proof := proof;
                cp_transactions_root := transactions_root; cp_block_number := block_number; cp_slot := slot |})
  end.

(** The loop, with the counts of successes and failures; [to_json] tells whether a proof
    can be written as JSON, which happens after it is stored. *)
Fixpoint generate_proofs (to_json : ConstraintProof -> bool) (b : TransactionTrieBuilder T) (root block_hash : B256)
    (block_number slot : U64) (hashes : list B256) (storage : ConstraintProofStorage) (success failure : nat)
  : ConstraintProofStorage * nat * nat :=
  match hashes with
  | [] => (storage, success, failure)
  | hash :: hashes =>
      let '(b, r) := generate_single_proof b hash root block_number slot in
      match r with
      | Ok proof =>
          let storage := add_proof storage slot block_hash block_number proof in
          if to_json proof
          then generate_proofs to_json b root block_hash block_number slot hashes storage (S success) failure
          else generate_proofs to_json b root block_hash block_number slot hashes storage success (S failure)
      | Err _ => generate_proofs to_json b root block_hash block_number slot hashes storage success (S failure)
      end
  end.

(** The task; [None] is that it returned early. *)
Definition generate_and_log_constraint_proofs (to_json : ConstraintProof -> bool) (r : SubmitBlockRequest)
    (constraint_tx_hashes : list B256) (block_number slot : U64) (storage : ConstraintProofStorage)
  : ConstraintProofStorage * option (nat * nat) :=
  let block_hash := extract_block_hash r in
  match extract_transactions r with
  | None => (storage, None)
  | Some transactions =>
      match trie_build transactions with
      | Err _ => (storage, None)
      | Ok b =>
          let '(b, root) := trie_root b in
          match root with
          | Err _ => (storage, None)
          | Ok root =>
              let '(storage, success, failure) :=
                generate_proofs to_json b root block_hash block_number slot constraint_tx_hashes storage 0 0 in
              (storage, Some (success, failure))
          end
      end
  end.

(** The observer starts the task when constraint transactions were appended. *)
Definition block_submitted (to_json : ConstraintProof -> bool) (appended_constraint_txs : list B256) (r : SubmitBlockRequest)
    (block_number slot : U64) (storage : ConstraintProofStorage) : ConstraintProofStorage * option (nat * nat) :=
  match appended_constraint_txs with
  | [] => (storage, None)
  | _ => generate_and_log_constraint_proofs to_json r appended_constraint_txs block_number slot storage
  end.
End observer.

(** ** What the libraries promise

    A trie holds a map; its root hash is a function of the map; once it has been
    computed, a proof of a key gives the value of the key when it is checked against it. *)
Class EthTrieOk (T : Type) `{EthTrie T} := {
  et_content : T -> gmap (list Z) (list Z);
  et_committed : T -> Prop;
  et_root : gmap (list Z) (list Z) -> B256;
  et_new_ok : et_content et_new = ∅;
  et_insert_ok : forall t k v, v <> [] ->
    exists t', et_insert t k v = Ok t' /\ et_content t' = <[k := v]> (et_content t);
  et_root_hash_ok : forall t, exists t',
    et_root_hash t = (t', Ok (et_root (et_content t))) /\ et_content t' = et_content t /\ et_committed t';
  et_get_proof_ok : forall t k, et_committed t -> exists t' proof,
    et_get_proof t k = (t', Ok proof) /\ et_content t' = et_content t /\ et_committed t'
    /\ et_verify_proof (et_root (et_content t)) k proof = Ok (et_content t !! k);
}.

Class TxTrieEncodingOk `{TxTrieEncoding} : Prop := {
  #[global] rlp_index_inj :: Inj (=) (=) rlp_index;
  rlp_tx_nonempty : forall tx, rlp_tx tx <> [];
}.

Class HexCodecOk `{HexCodec} : Prop := hex_decode_encode : forall item, hex_decode (hex_encode item) = Some item.

(** The nodes of a proof are read back from their strings. *)
Lemma hex_vec_roundtrip `{HexCodecOk} data : hex_vec_deserialize (hex_vec_serialize data) = Some data.
Proof.
  unfold hex_vec_serialize. induction data as [|item data IH]; [done|]. simpl. by rewrite hex_decode_encode; simpl; rewrite IH.
Qed.

(** ** The storage keeps the last slots *)

Record Addition := { ad_slot : U64; ad_block_hash : B256; ad_block_number : U64; ad_proof : ConstraintProof }.

Definition add (storage : ConstraintProofStorage) (a : Addition) : ConstraintProofStorage :=
  add_proof storage (ad_slot a) (ad_block_hash a) (ad_block_number a) (ad_proof a).

(** The storage after the calls [l], in the order in which they took the lock. *)
Definition stored (l : list Addition) : ConstraintProofStorage := foldl add ∅ l.

Definition slots_of (l : list Addition) : gset Z := list_to_set (map ad_slot l).

(** The additions to a block of a slot, and what they amount to. *)
Definition added_to (slot block_hash : Z) (l : list Addition) : list Addition :=
  filter (fun a => ad_slot a = slot /\ ad_block_hash a = block_hash) l.

Definition block_of (slot block_hash : Z) (l : list Addition) : option BlockProofs :=
  match added_to slot block_hash l with
  | [] => None
  | a :: rest => Some {| bp_block_hash := block_hash; bp_block_number := ad_block_number a;
                         bp_proofs := map ad_proof (a :: rest) |}
  end.

(** The greatest slots, at most ten. *)
Definition recent (S D : gset Z) : Prop :=
  D ⊆ S /\ size D = Nat.min MAX_SLOTS_TO_KEEP (size S) /\ forall s s', s ∈ D -> s' ∈ S -> s < s' -> s' ∈ D.

Definition faithful (l : list Addition) (storage : ConstraintProofStorage) : Prop :=
  forall slot blocks, storage !! slot = Some blocks -> forall hash, blocks !! hash = block_of slot hash l.

Lemma min_slot_spec slots : slots <> [] -> exists m, min_slot slots = Some m /\ m ∈ slots /\ forall s, s ∈ slots -> m <= s.
Proof.
  destruct slots as [|s0 slots]; [done|]. intros _. simpl. eexists; split; [done|].
  revert s0. induction slots as [|s1 slots IH]; intros s0; simpl; [set_solver|].
  destruct (IH (Z.min s0 s1)) as [Hin Hle]. split.
  - apply elem_of_cons in Hin as [Hin|Hin]; [|set_solver]. rewrite Hin.
    destruct (Z.min_spec s0 s1) as [[_ ->]|[_ ->]]; set_solver.
  - intros s Hs. assert (foldl Z.min (Z.min s0 s1) slots <= Z.min s0 s1) by (apply Hle; set_solver).
    rewrite !elem_of_cons in Hs. destruct Hs as [->|[->|Hs]]; [lia|lia|]. apply Hle. set_solver.
Qed.

(** What the cleanup does to a storage. *)
Definition trim (storage : ConstraintProofStorage) : ConstraintProofStorage :=
  if (MAX_SLOTS_TO_KEEP <? size storage)%nat then
    match min_slot (map_to_list storage).*1 with Some m => delete m storage | None => storage end
  else storage.

Lemma trim_spec storage :
  ((size (dom storage) <= MAX_SLOTS_TO_KEEP)%nat /\ trim storage = storage)
  \/ ((MAX_SLOTS_TO_KEEP < size (dom storage))%nat
      /\ exists m, m ∈ dom storage /\ (forall s, s ∈ dom storage -> m <= s) /\ trim storage = delete m storage).
Proof.
  rewrite size_dom. unfold trim. destruct (Nat.ltb_spec MAX_SLOTS_TO_KEEP (size storage)); [right|left; split; [lia|done]].
  assert (Hdom : forall s, s ∈ (map_to_list storage).*1 <-> s ∈ dom storage).
  { intros s. rewrite list_elem_of_fmap, elem_of_dom. split.
    - intros [[k v] [-> Hv%elem_of_map_to_list]]. by eexists.
    - intros [v Hv]. exists (s, v). by rewrite elem_of_map_to_list. }
  destruct (min_slot_spec (map_to_list storage).*1) as (m & -> & Hm & Hle).
  - intros Hnil%fmap_nil_inv. apply map_to_list_empty_iff in Hnil as ->. rewrite map_size_empty in *. lia.
  - split; [lia|]. exists m. split_and!; [by apply Hdom| |done]. intros s Hs. by apply Hle, Hdom.
Qed.

(** A set that is not all of what it is the recent part of is full, below it only
    what is not in it. *)
Lemma recent_full S D s : recent S D -> s ∈ S -> s ∉ D -> size D = MAX_SLOTS_TO_KEEP /\ forall d, d ∈ D -> s < d.
Proof.
  intros (Hsub & Hsize & Hup) Hs Hnot. split.
  - destruct (decide (size S <= MAX_SLOTS_TO_KEEP)%nat); [|lia].
    assert (D ≡ S) by (apply set_subseteq_size_equiv; [done|lia]). set_solver.
  - intros d Hd. destruct (Z.lt_trichotomy s d) as [?|[->|?]]; [done|done|]. by specialize (Hup d s Hd Hs ltac:(done)).
Qed.

Lemma recent_all S D : recent S D -> (size D < MAX_SLOTS_TO_KEEP)%nat -> D = S.
Proof.
  intros (Hsub & Hsize & _) Hlt. apply leibniz_equiv, set_subseteq_size_equiv; [done|lia].
Qed.

(** Adding a slot and dropping the least of too many keeps the recent part. *)
Lemma recent_add S D s : recent S D -> (size ({[s]} ∪ D) <= MAX_SLOTS_TO_KEEP)%nat -> recent ({[s]} ∪ S) ({[s]} ∪ D).
Proof.
  intros HD Hsz. destruct (decide (s ∈ D)) as [Hin|Hout].
  - replace ({[s]} ∪ D) with D by set_solver. replace ({[s]} ∪ S) with S; [done|].
    destruct HD as (Hsub & _). set_solver.
  - rewrite size_union, size_singleton in Hsz by set_solver.
    assert (D = S) as -> by (apply recent_all; [done|lia]).
    split_and!; [done| |set_solver]. rewrite size_union, size_singleton by set_solver. lia.
Qed.

Lemma recent_add_drop S D s m : recent S D -> (MAX_SLOTS_TO_KEEP < size ({[s]} ∪ D))%nat ->
  m ∈ {[s]} ∪ D -> (forall x, x ∈ {[s]} ∪ D -> m <= x) -> recent ({[s]} ∪ S) (({[s]} ∪ D) ∖ {[m]}).
Proof.
  intros HD Hsz Hm Hmin. assert (Hle : (size D <= MAX_SLOTS_TO_KEEP)%nat) by (destruct HD as (_ & Hs & _); lia).
  assert (Hout : s ∉ D) by (intros Hin; replace ({[s]} ∪ D) with D in Hsz by set_solver; lia).
  rewrite size_union, size_singleton in Hsz by set_solver.
  assert (HsD : size D = MAX_SLOTS_TO_KEEP) by lia. destruct HD as (Hsub & Hsize & Hup). split_and!.
  - set_solver.
  - rewrite size_difference, size_union, !size_singleton by set_solver.
    assert (size S <= size ({[s]} ∪ S))%nat by (apply subseteq_size; set_solver). lia.
  - intros x x' Hx Hx' Hlt. assert (m <= x) by (apply Hmin; set_solver).
    assert (x' <> m) by lia. apply elem_of_union in Hx' as [Hx'|Hx']; [set_solver|].
    destruct (decide (x ∈ D)) as [HxD|HxD]; [specialize (Hup x x' HxD Hx' Hlt); set_solver|].
    assert (x = s) as -> by set_solver. assert (m ∈ D) as HmD by set_solver.
    specialize (Hup m x' HmD Hx' ltac:(lia)). set_solver.
Qed.

Lemma block_of_snoc_ne slot hash l a : ~ (ad_slot a = slot /\ ad_block_hash a = hash) ->
  block_of slot hash (l ++ [a]) = block_of slot hash l.
Proof.
  intros Hne. unfold block_of, added_to. rewrite filter_app, filter_cons_False, filter_nil, app_nil_r by done. done.
Qed.

Lemma block_of_snoc_eq l a :
  block_of (ad_slot a) (ad_block_hash a) (l ++ [a])
  = let b := default {| bp_block_hash := ad_block_hash a; bp_block_number := ad_block_number a; bp_proofs := [] |}
               (block_of (ad_slot a) (ad_block_hash a) l) in
    Some {| bp_block_hash := bp_block_hash b; bp_block_number := bp_block_number b;
            bp_proofs := bp_proofs b ++ [ad_proof a] |}.
Proof.
  unfold block_of, added_to. rewrite filter_app, filter_cons_True, filter_nil by done.
  destruct (filter _ l) as [|b rest]; simpl; [done|]. by rewrite map_app.
Qed.

Lemma block_of_None slot hash l : slot ∉ slots_of l -> block_of slot hash l = None.
Proof.
  intros Hout. unfold block_of, added_to. assert (filter (fun a => ad_slot a = slot /\ ad_block_hash a = hash) l = []) as ->; [|done].
  apply elem_of_nil_inv. intros a [[<- _] Ha]%list_elem_of_filter. apply Hout. unfold slots_of. apply elem_of_list_to_set, list_elem_of_fmap. by exists a.
Qed.

(** An addition before the cleanup. *)
Definition put (storage : ConstraintProofStorage) (a : Addition) : ConstraintProofStorage :=
  let slot_entry : gmap Z BlockProofs := default ∅ (storage !! ad_slot a) in
  let b := default {| bp_block_hash := ad_block_hash a; bp_block_number := ad_block_number a; bp_proofs := [] |}
             (slot_entry !! ad_block_hash a) in
  <[ad_slot a := <[ad_block_hash a := {| bp_block_hash := bp_block_hash b; bp_block_number := bp_block_number b;
                                         bp_proofs := bp_proofs b ++ [ad_proof a] |}]> slot_entry]> storage.

Lemma add_put storage a : add storage a = trim (put storage a).
Proof. done. Qed.

Lemma slots_of_snoc l a : slots_of (l ++ [a]) = {[ad_slot a]} ∪ slots_of l.
Proof. unfold slots_of. rewrite map_app, list_to_set_app_L. set_solver. Qed.

(** The slot of the addition is new, or it is the one the cleanup drops, or the storage
    had it. *)
Lemma put_faithful l storage a : faithful l storage ->
  (ad_slot a ∈ dom storage \/ ad_slot a ∉ slots_of l) -> faithful (l ++ [a]) (put storage a).
Proof.
  intros Hf Hslot slot blocks. unfold put. destruct (decide (ad_slot a = slot)) as [<-|Hne].
  - rewrite lookup_insert_eq. intros [= <-] hash.
    assert (He : forall h, default ∅ (storage !! ad_slot a) !! h = block_of (ad_slot a) h l).
    { intros h. destruct (storage !! ad_slot a) as [bl|] eqn:Hl; simpl; [by apply Hf|].
      destruct Hslot as [Hd|Hd]; [by apply not_elem_of_dom in Hl|]. by rewrite block_of_None, lookup_empty. }
    destruct (decide (ad_block_hash a = hash)) as [<-|Hh].
    + by rewrite lookup_insert_eq, block_of_snoc_eq, He.
    + rewrite lookup_insert_ne, block_of_snoc_ne by (done || naive_solver). apply He.
  - rewrite lookup_insert_ne by done. intros Hl hash. rewrite block_of_snoc_ne by naive_solver. by apply Hf.
Qed.

Lemma add_invariant l storage a : recent (slots_of l) (dom storage) -> faithful l storage ->
  recent (slots_of (l ++ [a])) (dom (add storage a)) /\ faithful (l ++ [a]) (add storage a).
Proof.
  intros Hrec Hf. rewrite add_put, slots_of_snoc.
  assert (Hdom : dom (put storage a) = {[ad_slot a]} ∪ dom storage) by (unfold put; by rewrite dom_insert_L).
  destruct (trim_spec (put storage a)) as [[Hsz ->]|(Hsz & m & Hm & Hmin & ->)]; rewrite Hdom in *.
  - split; [by apply recent_add|]. apply put_faithful; [done|].
    destruct (decide (ad_slot a ∈ dom storage)) as [|Hout]; [by left|right]. intros Hs.
    destruct (recent_full _ _ _ Hrec Hs Hout) as [Hfull _].
    rewrite size_union, size_singleton in Hsz by set_solver. lia.
  - rewrite dom_delete_L, Hdom. split; [by apply recent_add_drop|]. intros slot blocks.
    rewrite lookup_delete_Some. intros [Hne Hl].
    destruct (decide (ad_slot a ∈ dom storage \/ ad_slot a ∉ slots_of l)) as [Hk|Hk];
      [by apply (put_faithful l storage a)|].
    assert (Hs : ad_slot a ∈ slots_of l) by (destruct (decide (ad_slot a ∈ slots_of l)); tauto).
    assert (Hout : ad_slot a ∉ dom storage) by tauto.
    destruct (recent_full _ _ _ Hrec Hs Hout) as [_ Hlow].
    assert (m = ad_slot a) as ->.
    { apply elem_of_union in Hm as [Hm|Hm]; [set_solver|].
      specialize (Hlow m Hm). specialize (Hmin (ad_slot a) ltac:(set_solver)). lia. }
    intros hash. rewrite block_of_snoc_ne by naive_solver. unfold put in Hl.
    rewrite lookup_insert_ne in Hl by done. by apply Hf.
Qed.

Lemma stored_invariant l : recent (slots_of l) (dom (stored l)) /\ faithful l (stored l).
Proof.
  unfold stored. induction l as [|a l IH] using rev_ind.
  - split; [|by intros slot blocks]. simpl. rewrite dom_empty_L. split_and!; [done| |set_solver].
    by rewrite size_empty.
  - rewrite foldl_snoc. destruct IH. by apply add_invariant.
Qed.

(** The response lists the slots of the storage, the greatest first. *)
Lemma recent_slots `{!HashOrder Z} storage :
  map sp_slot (pr_slots (get_recent_proofs storage)) = reverse (merge_sort Z.le (map_to_list storage).*1).
Proof.
  unfold get_recent_proofs; simpl.
  assert (Hin : forall s, s ∈ reverse (merge_sort Z.le (map_to_list storage).*1) -> is_Some (storage !! s)).
  { intros s. rewrite elem_of_reverse, merge_sort_Permutation, list_elem_of_fmap.
    intros [[k v] [-> Hv%elem_of_map_to_list]]. by eexists. }
  induction (reverse _) as [|s slots IH]; [done|]. destruct (Hin s ltac:(set_solver)) as [blocks Hb].
  simpl. rewrite Hb. simpl. f_equal. apply IH. intros s' Hs'. apply Hin. set_solver.
Qed.

Lemma reverse_descending (l : list Z) : StronglySorted Z.le l -> NoDup l -> StronglySorted Z.gt (reverse l).
Proof.
  induction 1 as [|x l Hs IH Hle]; [constructor|]. intros [Hnot Hnd]%NoDup_cons. rewrite reverse_cons.
  apply StronglySorted_app_2; [|by apply IH|repeat constructor].
  intros y z Hy ->%list_elem_of_singleton. rewrite elem_of_reverse in Hy. rewrite Forall_forall in Hle.
  specialize (Hle y Hy). assert (y <> x) by (by intros ->). lia.
Qed.

Lemma NoDup_slots (storage : ConstraintProofStorage) : NoDup (merge_sort Z.le (map_to_list storage).*1).
Proof. rewrite merge_sort_Permutation. apply NoDup_fst_map_to_list. Qed.

Lemma response_slots_set `{!HashOrder Z} storage :
  list_to_set (map sp_slot (pr_slots (get_recent_proofs storage))) = dom storage.
Proof.
  rewrite recent_slots. apply set_eq. intros s.
  rewrite elem_of_list_to_set, elem_of_reverse, merge_sort_Permutation, list_elem_of_fmap, elem_of_dom. split.
  - intros [[k v] [-> Hv%elem_of_map_to_list]]. by eexists.
  - intros [v Hv]. exists (s, v). by rewrite elem_of_map_to_list.
Qed.

(** C22. Whatever proofs were added to the storage and in whatever order, the
    response lists the ten greatest of all slots that were ever added (all,
    if there were fewer), the greatest first, and the blocks of a listed
    slot hold all proofs that were ever added to them, in the order of
    addition. *)
Theorem proofs_of_last_slots `{!HashOrder Z, !HashOrderOk Z} (l : list Addition) :
  let slots := pr_slots (get_recent_proofs (stored l)) in
  recent (slots_of l) (list_to_set (map sp_slot slots))
  /\ StronglySorted Z.gt (map sp_slot slots)
  /\ forall sp, sp ∈ slots -> forall b, b ∈ sp_blocks sp <-> exists hash, block_of (sp_slot sp) hash l = Some b.
Proof.
  destruct (stored_invariant l) as [Hrec Hf]. intros slots. split_and!.
  - unfold slots. by rewrite response_slots_set.
  - unfold slots. rewrite recent_slots. apply reverse_descending; [|apply NoDup_slots].
    apply StronglySorted_merge_sort; apply _.
  - intros sp Hsp b. unfold slots, get_recent_proofs in Hsp; simpl in Hsp.
    apply list_elem_of_omap in Hsp as (slot & _ & Hsp).
    destruct (stored l !! slot) as [blocks|] eqn:Hb; [|done]. injection Hsp as <-. simpl.
    rewrite list_elem_of_omap. setoid_rewrite hash_order_perm. setoid_rewrite elem_of_elements.
    setoid_rewrite (Hf slot blocks Hb). split; [naive_solver|]. intros [hash Hh]. exists hash.
    split; [|done]. apply elem_of_dom. rewrite (Hf slot blocks Hb), Hh. by eexists.
Qed.

(** ** Proofs of the transactions of a block *)
Section proofs.
Context {T : Type} `{EthTrieOk T} `{TxTrieEncodingOk} `{TxCodecOk}.

(** The map from the encoded positions, from [idx] on, to the encoded transactions. *)
Fixpoint trie_map_from (enc : TransactionSigned -> list Z) (idx : nat) (txs : list TransactionSigned)
  : gmap (list Z) (list Z) :=
  match txs with [] => ∅ | tx :: txs => <[rlp_index idx := enc tx]> (trie_map_from enc (S idx) txs) end.

Definition trie_map (enc : TransactionSigned -> list Z) (txs : list TransactionSigned) := trie_map_from enc 0 txs.

Lemma trie_map_from_below enc txs i idx : (i < idx)%nat -> trie_map_from enc idx txs !! rlp_index i = None.
Proof.
  revert idx. induction txs as [|tx txs IH]; intros idx Hlt; simpl; [apply lookup_empty|].
  rewrite lookup_insert_ne; [apply IH; lia|]. intros Heq%(inj rlp_index). lia.
Qed.

Lemma trie_map_from_lookup enc txs idx i : trie_map_from enc idx txs !! rlp_index (idx + i) = enc <$> txs !! i.
Proof.
  revert idx i. induction txs as [|tx txs IH]; intros idx i; simpl; [by rewrite lookup_empty|].
  destruct i as [|i]; simpl.
  - by rewrite Nat.add_0_r, lookup_insert_eq.
  - rewrite lookup_insert_ne by (intros Heq%(inj rlp_index); lia).
    rewrite <- (IH (S idx) i). by rewrite Nat.add_succ_comm.
Qed.

Lemma trie_map_lookup enc txs i : trie_map enc txs !! rlp_index i = enc <$> txs !! i.
Proof. apply (trie_map_from_lookup enc txs 0 i). Qed.

Lemma build_from_spec (b : TransactionTrieBuilder T) idx txs : exists b',
  build_from b idx txs = Ok b'
  /\ et_content (tb_trie b') = trie_map_from rlp_tx idx txs ∪ et_content (tb_trie b)
  /\ tb_transactions b' = tb_transactions b ++ map ts_hash txs.
Proof.
  revert b idx. induction txs as [|tx txs IH]; intros b idx; simpl.
  - exists b. by rewrite (left_id_L ∅ (∪)), app_nil_r.
  - destruct (et_insert_ok (tb_trie b) (rlp_index idx) (rlp_tx tx) (rlp_tx_nonempty tx)) as (t' & -> & Ht). simpl.
    edestruct IH as (b' & -> & Hc & Ht'). exists b'. split_and!; [done| |].
    + rewrite Hc; simpl. rewrite Ht, <- insert_union_l. symmetry. apply insert_union_r.
      apply trie_map_from_below. lia.
    + rewrite Ht'; simpl. by rewrite <- app_assoc.
Qed.

(** A builder of the transactions whose root has been computed. *)
Definition built (txs : list TransactionSigned) (b : TransactionTrieBuilder T) : Prop :=
  et_content (tb_trie b) = trie_map rlp_tx txs /\ tb_transactions b = map ts_hash txs /\ et_committed (tb_trie b).

Lemma trie_build_root txs : exists b b',
  trie_build txs = Ok b /\ trie_root b = (b', Ok (et_root (trie_map rlp_tx txs))) /\ built txs b'.
Proof.
  destruct (build_from_spec TransactionTrieBuilder_new 0 txs) as (b & Hb & Hc & Ht). simpl in Hc, Ht.
  rewrite et_new_ok, (right_id_L ∅ (∪)) in Hc.
  destruct (et_root_hash_ok (tb_trie b)) as (t' & Hr & Hc' & Hcom).
  exists b, (with_trie b t'). split_and!; [done| |].
  - unfold trie_root. by rewrite Hr, Hc.
  - split_and!; simpl; [by rewrite Hc', Hc|done|done].
Qed.

(** A proof of one of the transactions: it names the first one with its hash, and
    checking it against its root gives the encoding of that transaction. *)
Definition proof_ok (txs : list TransactionSigned) (block_number slot : U64) (p : ConstraintProof) : Prop :=
  (exists tx, txs !! cp_tx_index p = Some tx /\ ts_hash tx = cp_tx_hash p
              /\ verify_proof (T := T) (cp_tx_index p) (cp_proof p) (cp_transactions_root p) = Ok (rlp_tx tx))
  /\ (forall i tx, txs !! i = Some tx -> ts_hash tx = cp_tx_hash p -> (cp_tx_index p <= i)%nat)
  /\ cp_transactions_root p = et_root (trie_map rlp_tx txs)
  /\ cp_block_number p = block_number /\ cp_slot p = slot.

Lemma find_tx_index_spec txs b hash : built txs b ->
  match find_tx_index b hash with
  | Ok i => (exists tx, txs !! i = Some tx /\ ts_hash tx = hash)
            /\ forall j tx, txs !! j = Some tx -> ts_hash tx = hash -> (i <= j)%nat
  | Err e => e = CP_TxHashNotFound hash /\ hash ∉ map ts_hash txs
  end.
Proof.
  intros (_ & Ht & _). unfold find_tx_index. rewrite Ht.
  destruct (list_find _ (map ts_hash txs)) as [[i h]|] eqn:Hf.
  - apply list_find_Some in Hf as (Hi & -> & Hmin). split.
    + rewrite list_lookup_fmap in Hi. destruct (txs !! i) as [tx|]; [|done]. exists tx. naive_solver.
    + intros j tx Hj Hh. destruct (decide (j < i)%nat) as [Hlt|]; [|lia].
      exfalso. eapply (Hmin j); [|done|done]. by rewrite list_lookup_fmap, Hj; simpl; rewrite Hh.
  - split; [done|]. apply list_find_None in Hf. rewrite Forall_forall in Hf. intros Hin. by apply (Hf hash).
Qed.

Lemma get_proof_spec txs b i tx : built txs b -> txs !! i = Some tx -> exists b' proof,
  get_proof b i = (b', Ok proof) /\ built txs b'
  /\ verify_proof (T := T) i proof (et_root (trie_map rlp_tx txs)) = Ok (rlp_tx tx).
Proof.
  intros (Hc & Ht & Hcom) Hi. unfold get_proof, verify_proof. rewrite Ht, length_map.
  pose proof (lookup_lt_Some _ _ _ Hi). destruct (Nat.leb_spec (length txs) i); [lia|].
  destruct (et_get_proof_ok (tb_trie b) (rlp_index i) Hcom) as (t' & proof & -> & Hc' & Hcom' & Hv).
  exists (with_trie b t'), proof. split_and!; [done| |].
  - split_and!; simpl; [by rewrite Hc'|done|done].
  - by rewrite <- Hc, Hv, Hc, trie_map_lookup, Hi.
Qed.

Lemma generate_single_proof_spec txs b hash block_number slot : built txs b ->
  let root := et_root (trie_map rlp_tx txs) in
  (hash ∈ map ts_hash txs /\ exists b' p,
     generate_single_proof b hash root block_number slot = (b', Ok p) /\ built txs b'
     /\ cp_tx_hash p = hash /\ proof_ok txs block_number slot p)
  \/ (hash ∉ map ts_hash txs
      /\ generate_single_proof b hash root block_number slot = (b, Err (CP_TxHashNotFound hash))).
Proof.
  intros Hb root. pose proof (find_tx_index_spec txs b hash Hb) as Hf. unfold generate_single_proof.
  destruct (find_tx_index b hash) as [i|e]; [left|right].
  - destruct Hf as [(tx & Hi & Hh) Hmin]. split.
    { apply list_elem_of_fmap. exists tx. split; [done|]. by eapply list_elem_of_lookup_2. }
    destruct (get_proof_spec txs b i tx Hb Hi) as (b' & proof & -> & Hb' & Hv).
    eexists b', _. split; [done|]. split_and!; [done|done|]. split_and!; simpl; [|done..].
    by exists tx.
  - by destruct Hf as [-> Hout].
Qed.

(** Storing the proofs of a block one after the other. *)
Definition store_all (slot : U64) (block_hash : B256) (block_number : U64) (storage : ConstraintProofStorage)
    (proofs : list ConstraintProof) : ConstraintProofStorage :=
  foldl (fun st p => add_proof st slot block_hash block_number p) storage proofs.

Lemma generate_proofs_spec to_json txs block_hash block_number slot hashes b storage success failure : built txs b ->
  exists proofs, map cp_tx_hash proofs = filter (fun h => h ∈ map ts_hash txs) hashes
  /\ Forall (proof_ok txs block_number slot) proofs
  /\ exists written, written = length (filter (fun p => to_json p = true) proofs)
     /\ generate_proofs to_json b (et_root (trie_map rlp_tx txs)) block_hash block_number slot hashes storage success failure
        = (store_all slot block_hash block_number storage proofs,
           (success + written)%nat, (failure + (length hashes - written))%nat).
Proof.
  revert b storage success failure. induction hashes as [|h hashes IH]; intros b storage success failure Hb; simpl.
  { exists []. split; [done|]. split; [done|]. exists 0%nat. by rewrite !Nat.add_0_r. }
  destruct (generate_single_proof_spec txs b h block_number slot Hb) as [(Hin & b' & p & -> & Hb' & Hh & Hp)|(Hout & ->)].
  - rewrite filter_cons_True by done.
    destruct (to_json p) eqn:Hj;
      match goal with |- context [generate_proofs _ _ _ _ _ _ _ ?st ?su ?fa] =>
        destruct (IH b' st su fa Hb') as (proofs & Hm & Hall & written & -> & ->) end;
      exists (p :: proofs); (split; [by simpl; rewrite Hm, Hh|]); (split; [by constructor|]); eexists; (split; [done|]).
    + rewrite filter_cons_True by done. simpl. f_equal. f_equal. lia.
    + rewrite filter_cons_False by by rewrite Hj. simpl. f_equal.
      pose proof (length_filter (fun p => to_json p = true) proofs).
      assert (length proofs <= length hashes)%nat by (rewrite <- (length_map cp_tx_hash proofs), Hm; apply length_filter).
      lia.
  - rewrite filter_cons_False by done. destruct (IH b storage success (S failure) Hb) as (proofs & Hm & Hall & written & -> & ->).
    exists proofs. split; [done|]. split; [done|]. eexists; split; [done|]. f_equal.
    pose proof (length_filter (fun p => to_json p = true) proofs).
    assert (length proofs <= length hashes)%nat by (rewrite <- (length_map cp_tx_hash proofs), Hm; apply length_filter).
    lia.
Qed.

Lemma decode_encoded txs : decode_transactions (map encode_2718 txs) = Some txs.
Proof. induction txs as [|tx txs IH]; [done|]. simpl. by rewrite decode_encode_2718; simpl; rewrite IH. Qed.

(** The transactions of a payload that holds their canonical encodings are read. *)
Lemma extract_encoded r txs : ep_transactions (execution_payload r) = map encode_2718 txs -> txs <> [] ->
  extract_transactions r = Some txs.
Proof. intros Hr Hne. unfold extract_transactions. rewrite Hr, decode_encoded. by destruct txs. Qed.

(** C21. When a block with appended constraint transactions was submitted, the
    observer generates a proof of exactly those of their hashes that are in
    the payload, in order; each proof names the first transaction with its
    hash and the root of the trie of all transactions, and checking it
    against that root yields the encoding of that transaction; all are
    stored under the slot and hash of the block, and the counts of successes
    and failures add up to the hashes. *)
Theorem constraint_proofs_verify to_json hashes r block_number slot storage txs :
  hashes <> [] -> txs <> [] -> ep_transactions (execution_payload r) = map encode_2718 txs ->
  exists proofs, map cp_tx_hash proofs = filter (fun h => h ∈ map ts_hash txs) hashes
  /\ Forall (proof_ok txs block_number slot) proofs
  /\ exists written, written = length (filter (fun p => to_json p = true) proofs)
     /\ block_submitted (T := T) to_json hashes r block_number slot storage
        = (store_all slot (extract_block_hash r) block_number storage proofs,
           Some (written, (length hashes - written)%nat)).
Proof.
  intros Hh Htxs Hr. destruct (trie_build_root txs) as (b & b' & Hbuild & Hroot & Hb).
  destruct (generate_proofs_spec to_json txs (extract_block_hash r) block_number slot hashes b' storage 0 0 Hb)
    as (proofs & Hm & Hall & written & Hw & Hg).
  exists proofs. split; [done|]. split; [done|]. exists written. split; [done|].
  unfold block_submitted. destruct hashes as [|h hashes]; [done|].
  unfold generate_and_log_constraint_proofs. by rewrite (extract_encoded r txs), Hbuild, Hroot, Hg.
Qed.

(** The builder inserts the RLP encodings of the transactions; the header of a block has
    the root over their EIP-2718 encodings, which differ for typed transactions. So the
    root that the proofs of such a block are checked against is not the root in its
    header, when the two maps have different roots as they should. *)
Theorem proof_root_is_not_header_root txs b b' root i tx :
  trie_build (T := T) txs = Ok b -> trie_root b = (b', Ok root) ->
  txs !! i = Some tx -> rlp_tx tx <> encode_2718 tx ->
  (et_root (trie_map rlp_tx txs) = et_root (trie_map encode_2718 txs) -> trie_map rlp_tx txs = trie_map encode_2718 txs) ->
  root <> et_root (trie_map encode_2718 txs).
Proof.
  intros Hb Hr Hi Hne Hcr ->. destruct (trie_build_root txs) as (b1 & b2 & Hb1 & Hr1 & _).
  rewrite Hb in Hb1. injection Hb1 as <-. rewrite Hr in Hr1. injection Hr1 as _ Heq. symmetry in Heq.
  apply Hcr in Heq. pose proof (trie_map_lookup rlp_tx txs i) as Hl.
  rewrite Heq, trie_map_lookup, Hi in Hl. injection Hl as Hl. by apply Hne.
Qed.
End proofs.

(** ** A small library

    A trie is the map it holds and whether its root was asked for; its root is the number
    of the map, and a proof is all of the map. *)
#[local] Existing Instances toy_codec toy_codec_ok.

Fixpoint toy_pairs (proof : list (list Z)) : list (list Z * list Z) :=
  match proof with k :: v :: proof => (k, v) :: toy_pairs proof | _ => [] end.

Definition toy_root (m : gmap (list Z) (list Z)) : Z := Z.pos (encode m).

#[local] Instance toy_trie : EthTrie (gmap (list Z) (list Z) * bool) := {|
  et_new := (∅, false);
  et_insert := fun t k v => Ok (<[k := v]> t.1, false);
  et_root_hash := fun t => ((t.1, true), Ok (toy_root t.1));
  et_get_proof := fun t _ => (t, if t.2 then Ok (flat_map (fun kv => [kv.1; kv.2]) (map_to_list t.1)) else Err tt);
  et_verify_proof := fun root key proof =>
    let m : gmap (list Z) (list Z) := list_to_map (toy_pairs proof) in
    if decide (toy_root m = root) then Ok (m !! key) else Err tt;
|}.

Lemma toy_pairs_flat l : toy_pairs (flat_map (fun kv => [kv.1; kv.2]) l) = l.
Proof. induction l as [|[k v] l IH]; [done|]. simpl. by rewrite IH. Qed.

#[local, program] Instance toy_trie_ok : EthTrieOk (gmap (list Z) (list Z) * bool) := {|
  et_content := fst; et_committed := fun t => t.2 = true; et_root := toy_root |}.
Next Obligation. done. Qed.
Next Obligation. intros t k v _. by eexists. Qed.
Next Obligation. intros t. by eexists. Qed.
Next Obligation.
  intros [m c] k Hc. simpl in *. subst c. eexists (m, true), _. split_and!; [done..|].
  by rewrite toy_pairs_flat, list_to_map_to_list, decide_True.
Qed.

(** A typed transaction has a header before its canonical encoding. *)
#[local] Instance toy_tx_encoding : TxTrieEncoding := {|
  rlp_index := fun i => [Z.of_nat i];
  rlp_tx := fun tx => if decide (ts_ty tx = 0) then encode_2718 tx else 184 :: encode_2718 tx;
|}.

#[local] Instance toy_tx_encoding_ok : TxTrieEncodingOk.
Proof.
  split; [by intros i j [= ?%Nat2Z.inj]|]. intros tx. simpl. by destruct (decide _).
Qed.

#[local] Instance slots_order : HashOrder Z := elements_order.
#[local] Instance slots_order_ok : HashOrderOk Z.
Proof. by intros s. Qed.

Definition toy_tx (hash ty : Z) : TransactionSigned :=
  {| ts_hash := hash; ts_ty := ty; ts_nonce := 0; ts_to := None; ts_value := 0; ts_gas_limit := 21000;
     ts_max_fee_per_gas := 10; ts_length := 100; ts_size := 200; ts_blob_versioned_hashes := None |}.

Definition toy_txs : list TransactionSigned := [toy_tx 5 0; toy_tx 6 2].
Definition toy_request : SubmitBlockRequest :=
  Capella {| ep_transactions := map encode_2718 toy_txs; ep_block_hash := 99 |}.

Definition toy_proof (slot : Z) : ConstraintProof :=
  {| cp_tx_hash := 6; cp_tx_index := 1; cp_proof := []; cp_transactions_root := 1; cp_block_number := 3; cp_slot := slot |}.
Definition toy_addition (slot : Z) : Addition :=
  {| ad_slot := slot; ad_block_hash := 99; ad_block_number := 3; ad_proof := toy_proof slot |}.

(** Twelve slots, the first added again at the end: the last ten are served. *)
Lemma proofs_of_last_slots_witness :
  let l := map toy_addition [4; 2; 3; 1; 5; 6; 7; 8; 9; 10; 11; 12; 1] in
  map sp_slot (pr_slots (get_recent_proofs (stored l))) = [12; 11; 10; 9; 8; 7; 6; 5; 4; 3]
  /\ StronglySorted Z.gt (map sp_slot (pr_slots (get_recent_proofs (stored l)))).
Proof. intros l. split; [by vm_compute|]. apply (proofs_of_last_slots l). Defined.

(** One of the hashes is in the block, the other is not: one success and one failure. *)
Lemma constraint_proofs_verify_witness :
  (block_submitted (fun _ => true) [6; 7] toy_request 3 4 ∅).2 = Some (1%nat, 1%nat)
  /\ exists proofs, map cp_tx_hash proofs = [6] /\ Forall (proof_ok toy_txs 3 4) proofs.
Proof.
  split; [by vm_compute|].
  destruct (constraint_proofs_verify (fun _ => true) [6; 7] toy_request 3 4 ∅ toy_txs) as (proofs & Hm & Hall & _);
    [done|done|done|]. exists proofs. split; [|done]. rewrite Hm. by vm_compute.
Defined.

(** The second transaction is typed. *)
Lemma proof_root_is_not_header_root_witness : exists b b' root,
  trie_build toy_txs = Ok b /\ trie_root b = (b', Ok root) /\ root <> et_root (trie_map encode_2718 toy_txs).
Proof.
  eexists _, _, _. split; [reflexivity|]. split; [reflexivity|].
  eapply (proof_root_is_not_header_root toy_txs _ _ _ 1 (toy_tx 6 2)); [reflexivity|reflexivity|done|done|].
  intros [=].
Defined.
