(* ===== verification/SimTypes.v ===== *)
(** * Simulation results (crates/rbuilder-primitives/src/lib.rs,
      evm_inspector.rs, order_statistics.rs)

    The profit and space a simulated order is worth, the trace of the state it
    touched, and the counters of orders by type. *)

From S2P Require Import Prelude Transactions Bundles Orders.

(** ** Profit *)
Record ProfitInfo := { coinbase_profit : U256; mev_gas_price : U256 }.

Definition ProfitInfo_new (coinbase_profit : U256) (gas_used : U64) : ProfitInfo :=
  {| coinbase_profit := coinbase_profit;
     mev_gas_price := if decide (gas_used = 0) then 0 else coinbase_profit `div` gas_used |}.

(** ** Simulation value *)
Record SimValue := {
  full_profit_info : ProfitInfo;
  non_mempool_profit_info : ProfitInfo;
  space_used : BlockSpace;
  paid_kickbacks : list (Address * U256);
}.

Definition SimValue_new (full_coinbase_profit non_mempool_coinbase_profit : U256)
    (space : BlockSpace) (kickbacks : list (Address * U256)) : SimValue :=
  {| full_profit_info := ProfitInfo_new full_coinbase_profit (bs_gas space);
     non_mempool_profit_info := ProfitInfo_new non_mempool_coinbase_profit (bs_gas space);
     space_used := space; paid_kickbacks := kickbacks |}.

Definition sim_gas_used (v : SimValue) : U64 := bs_gas (space_used v).
Definition sim_blob_gas_used (v : SimValue) : U64 := bs_blob_gas (space_used v).

Definition with_kickbacks (v : SimValue) (kickbacks : list (Address * U256)) : SimValue :=
  {| full_profit_info := full_profit_info v;
     non_mempool_profit_info := non_mempool_profit_info v;
     space_used := space_used v; paid_kickbacks := kickbacks |}.

(** ** Used state traces *)
Record SlotKey := { sk_address : Address; sk_key : B256 }.
#[export] Instance SlotKey_eq_dec : EqDecision SlotKey.
Proof. solve_decision. Defined.
#[export] Instance SlotKey_countable : Countable SlotKey.
Proof.
  apply (inj_countable' (fun k => (sk_address k, sk_key k))
           (fun p => {| sk_address := p.1; sk_key := p.2 |})).
  by intros [].
Defined.

Record UsedStateTrace := {
  read_slot_values : gmap SlotKey B256;
  written_slot_values : gmap SlotKey B256;
  read_balances : gmap Address U256;
  received_amount : gmap Address U256;
  sent_amount : gmap Address U256;
  created_contracts : list Address;
  destructed_contracts : list Address;
}.

Definition UsedStateTrace_default : UsedStateTrace :=
  {| read_slot_values := ∅; written_slot_values := ∅; read_balances := ∅;
     received_amount := ∅; sent_amount := ∅; created_contracts := []; destructed_contracts := [] |}.

Definition push_new (l : list Address) (a : Address) : list Address :=
  if decide (a ∈ l) then l else l ++ [a].

(** The loops over hash maps touch every key once: an existing first read is
    kept, a later write replaces an earlier one, amounts are added. *)
Definition append_trace (self other : UsedStateTrace) : UsedStateTrace :=
  {| read_slot_values := read_slot_values self ∪ read_slot_values other;
     written_slot_values := written_slot_values other ∪ written_slot_values self;
     read_balances := read_balances self ∪ read_balances other;
     received_amount :=
       union_with (fun a b => Some (u256_add a b)) (received_amount self) (received_amount other);
     sent_amount :=
       union_with (fun a b => Some (u256_add a b)) (sent_amount self) (sent_amount other);
     created_contracts := created_contracts self ++ created_contracts other;
     destructed_contracts :=
       foldl push_new (destructed_contracts self) (destructed_contracts other) |}.

(** ** Simulated orders *)
Record SimulatedOrder := {
  so_order : Order;
  so_sim_value : SimValue;
  so_used_state_trace : option UsedStateTrace;
}.

Definition so_id (o : SimulatedOrder) : OrderId := Order_id (so_order o).
Definition so_nonces (o : SimulatedOrder) : list Nonce := Order_nonces (so_order o).

(** ** Order statistics: 32-bit signed counters *)
Record OrderStatistics := { st_tx_count : Z; st_bundle_count : Z; st_sbundle_count : Z }.

Definition OrderStatistics_default : OrderStatistics :=
  {| st_tx_count := 0; st_bundle_count := 0; st_sbundle_count := 0 |}.

Definition i32 (z : Z) : Z := wrap_signed 32 z.

Definition OrderStatistics_add (s : OrderStatistics) (o : Order) : OrderStatistics :=
  match o with
  | Order_Bundle _ => {| st_tx_count := st_tx_count s; st_bundle_count := i32 (st_bundle_count s + 1);
                         st_sbundle_count := st_sbundle_count s |}
  | Order_Tx _ => {| st_tx_count := i32 (st_tx_count s + 1); st_bundle_count := st_bundle_count s;
                     st_sbundle_count := st_sbundle_count s |}
  | Order_ShareBundle _ => {| st_tx_count := st_tx_count s; st_bundle_count := st_bundle_count s;
                              st_sbundle_count := i32 (st_sbundle_count s + 1) |}
  end.

Definition OrderStatistics_remove (s : OrderStatistics) (o : Order) : OrderStatistics :=
  match o with
  | Order_Bundle _ => {| st_tx_count := st_tx_count s; st_bundle_count := i32 (st_bundle_count s - 1);
                         st_sbundle_count := st_sbundle_count s |}
  | Order_Tx _ => {| st_tx_count := i32 (st_tx_count s - 1); st_bundle_count := st_bundle_count s;
                     st_sbundle_count := st_sbundle_count s |}
  | Order_ShareBundle _ => {| st_tx_count := st_tx_count s; st_bundle_count := st_bundle_count s;
                              st_sbundle_count := i32 (st_sbundle_count s - 1) |}
  end.

(** [as u64] sign-extends. *)
Definition OrderStatistics_total (s : OrderStatistics) : U64 :=
  u64_add (u64_add (wrap 64 (st_tx_count s)) (wrap 64 (st_bundle_count s)))
          (wrap 64 (st_sbundle_count s)).

Definition OrderStatistics_plus (a b : OrderStatistics) : OrderStatistics :=
  {| st_tx_count := i32 (st_tx_count a + st_tx_count b);
     st_bundle_count := i32 (st_bundle_count a + st_bundle_count b);
     st_sbundle_count := i32 (st_sbundle_count a + st_sbundle_count b) |}.

Definition OrderStatistics_minus (a b : OrderStatistics) : OrderStatistics :=
  {| st_tx_count := i32 (st_tx_count a - st_tx_count b);
     st_bundle_count := i32 (st_bundle_count a - st_bundle_count b);
     st_sbundle_count := i32 (st_sbundle_count a - st_sbundle_count b) |}.

(** ** Properties of traces *)

Lemma elem_of_push_new l a x : x ∈ push_new l a <-> x ∈ l \/ x = a.
Proof.
  unfold push_new. case_decide; rewrite ?elem_of_app, ?list_elem_of_singleton; [| done].
  split; [by left | by intros [? | ->]].
Qed.

Lemma elem_of_foldl_push_new k l x : x ∈ foldl push_new l k <-> x ∈ l \/ x ∈ k.
Proof.
  revert l. induction k as [| a k IH]; intros l; simpl.
  { rewrite elem_of_nil. tauto. }
  rewrite IH, elem_of_push_new, elem_of_cons. tauto.
Qed.

Lemma push_new_in l a : a ∈ l -> push_new l a = l.
Proof. intros. unfold push_new. by rewrite decide_True. Qed.
Lemma push_new_out l a : a ∉ l -> push_new l a = l ++ [a].
Proof. intros. unfold push_new. by rewrite decide_False. Qed.

Lemma foldl_push_new_assoc a b c :
  foldl push_new (foldl push_new a b) c = foldl push_new a (foldl push_new b c).
Proof.
  induction c as [| x c IH] using rev_ind; [done |].
  rewrite !foldl_app. cbn [foldl]. rewrite IH.
  destruct (decide (x ∈ foldl push_new b c)) as [Hin | Hnin].
  - rewrite !push_new_in; [done | done |]. rewrite elem_of_foldl_push_new. by right.
  - rewrite (push_new_out (foldl push_new b c)) by done. by rewrite foldl_app.
Qed.

Lemma u256_add_assoc a b c : u256_add a (u256_add b c) = u256_add (u256_add a b) c.
Proof.
  unfold u256_add, wrap. rewrite Zplus_mod_idemp_l, Zplus_mod_idemp_r. f_equal. lia.
Qed.

Lemma union_with_add_assoc (a b c : gmap Address U256) :
  union_with (fun x y => Some (u256_add x y)) a (union_with (fun x y => Some (u256_add x y)) b c)
  = union_with (fun x y => Some (u256_add x y)) (union_with (fun x y => Some (u256_add x y)) a b) c.
Proof.
  apply map_eq. intros i. rewrite !lookup_union_with.
  destruct (a !! i), (b !! i), (c !! i); simpl; try done. by rewrite u256_add_assoc.
Qed.

Lemma append_trace_assoc a b c :
  append_trace a (append_trace b c) = append_trace (append_trace a b) c.
Proof.
  unfold append_trace; f_equal; simpl;
    first [apply (assoc_L _) | symmetry; apply (assoc_L _) | apply union_with_add_assoc
          | symmetry; apply foldl_push_new_assoc].
Qed.

(** Appending a trace of used state keeps the first value read and the last
    value written of every slot, and appending many traces one by one is
    appending their concatenation. *)
Theorem append_trace_spec (traces : list UsedStateTrace) (t : UsedStateTrace) :
  let all := foldl append_trace UsedStateTrace_default traces in
  (forall k, read_slot_values (append_trace all t) !! k
     = match read_slot_values all !! k with Some v => Some v | None => read_slot_values t !! k end)
  /\ (forall k, written_slot_values (append_trace all t) !! k
     = match written_slot_values t !! k with Some v => Some v | None => written_slot_values all !! k end)
  /\ foldl append_trace t traces = append_trace t all.
Proof.
  intros all. split_and!.
  - intros k. simpl. rewrite lookup_union. by destruct (_ !! k), (_ !! k).
  - intros k. simpl. rewrite lookup_union. by destruct (_ !! k), (_ !! k).
  - subst all. induction traces as [| x l IH] using rev_ind; simpl.
    + destruct t. unfold append_trace; simpl. f_equal; try by rewrite (right_id_L ∅ _).
      all: rewrite ?(left_id_L ∅ _), ?app_nil_r; try done.
      all: apply map_eq; intros i; rewrite lookup_union_with, lookup_empty; by destruct (_ !! i).
    + rewrite !foldl_app. simpl. rewrite IH. by rewrite append_trace_assoc.
Qed.

(** * Equality of orders (crates/rbuilder-primitives/src/lib.rs)

    The derived [PartialEq] of orders and simulated orders: everything is
    compared but the metadata, which is marked as ignored. *)

#[export] Instance TransactionSigned_eq_dec : EqDecision TransactionSigned.
Proof. solve_decision. Defined.
#[export] Instance BlobTransactionSidecar_eq_dec : EqDecision BlobTransactionSidecar.
Proof. solve_decision. Defined.
#[export] Instance BlobTransactionSidecarVariant_eq_dec : EqDecision BlobTransactionSidecarVariant.
Proof. solve_decision. Defined.
#[export] Instance BundleVersion_eq_dec : EqDecision BundleVersion.
Proof. solve_decision. Defined.
#[export] Instance BundleRefund_eq_dec : EqDecision BundleRefund.
Proof. solve_decision. Defined.
#[export] Instance ReplacementData_eq_dec {K} `{EqDecision K} : EqDecision (ReplacementData K).
Proof. solve_decision. Defined.
#[export] Instance Refund_eq_dec : EqDecision Refund.
Proof. solve_decision. Defined.
#[export] Instance RefundConfig_eq_dec : EqDecision RefundConfig.
Proof. solve_decision. Defined.
#[export] Instance BlockSpace_eq_dec : EqDecision BlockSpace.
Proof. solve_decision. Defined.
#[export] Instance ProfitInfo_eq_dec : EqDecision ProfitInfo.
Proof. solve_decision. Defined.
#[export] Instance SimValue_eq_dec : EqDecision SimValue.
Proof. solve_decision. Defined.
#[export] Instance UsedStateTrace_eq_dec : EqDecision UsedStateTrace.
Proof. solve_decision. Defined.

(** Equality of lists by an equality of their elements. *)
Section list_eqb.
Context {A : Type} (eqb : A -> A -> bool).
Fixpoint list_eqb (l k : list A) : bool :=
  match l, k with
  | [], [] => true
  | x :: l, y :: k => eqb x y && list_eqb l k
  | _, _ => false
  end.
End list_eqb.

Definition tx_eqb (a b : TxWithBlobs) : bool :=
  bool_decide (txb_tx a = txb_tx b) && bool_decide (txb_signer a = txb_signer b) &&
  bool_decide (blobs_sidecar a = blobs_sidecar b).

Definition bundle_eqb (a b : Bundle) : bool :=
  bool_decide (b_version a = b_version b) && bool_decide (b_block a = b_block b) &&
  bool_decide (b_min_timestamp a = b_min_timestamp b) &&
  bool_decide (b_max_timestamp a = b_max_timestamp b) &&
  list_eqb tx_eqb (b_txs a) (b_txs b) &&
  bool_decide (b_reverting_tx_hashes a = b_reverting_tx_hashes b) &&
  bool_decide (b_dropping_tx_hashes a = b_dropping_tx_hashes b) &&
  bool_decide (b_hash a = b_hash b) && bool_decide (b_uuid a = b_uuid b) &&
  bool_decide (b_replacement_data a = b_replacement_data b) &&
  bool_decide (b_signer a = b_signer b) &&
  bool_decide (b_refund_identity a = b_refund_identity b) &&
  bool_decide (b_refund a = b_refund b) && bool_decide (b_external_hash a = b_external_hash b).

Definition sbundle_tx_eqb (a b : ShareBundleTx) : bool :=
  tx_eqb (sbt_tx a) (sbt_tx b) && bool_decide (revert_behavior a = revert_behavior b).

Fixpoint inner_eqb (a b : ShareBundleInner) : bool :=
  let '(mk_ShareBundleInner body refund config can_skip original) := a in
  list_eqb (fun x y => match x, y with
                       | Body_Tx t, Body_Tx u => sbundle_tx_eqb t u
                       | Body_Bundle i, Body_Bundle j => inner_eqb i j
                       | _, _ => false
                       end) body (sbi_body b) &&
  bool_decide (refund = sbi_refund b) && bool_decide (config = sbi_refund_config b) &&
  bool_decide (can_skip = sbi_can_skip b) && bool_decide (original = sbi_original_order_id b).

Fixpoint order_eqb (a b : Order) : bool :=
  match a, b with
  | Order_Bundle x, Order_Bundle y => bundle_eqb x y
  | Order_Tx x, Order_Tx y => tx_eqb (tx_with_blobs x) (tx_with_blobs y)
  | Order_ShareBundle (mk_ShareBundle hash block max_block inner len signer data originals _),
    Order_ShareBundle y =>
      bool_decide (hash = sb_hash y) && bool_decide (block = sb_block y) &&
      bool_decide (max_block = sb_max_block y) && inner_eqb inner (sb_inner_bundle y) &&
      bool_decide (len = sb_list_txs_len y) && bool_decide (signer = sb_signer y) &&
      bool_decide (data = sb_replacement_data y) &&
      list_eqb order_eqb originals (sb_original_orders y)
  | _, _ => false
  end.

Definition sim_order_eqb (a b : SimulatedOrder) : bool :=
  order_eqb (so_order a) (so_order b) && bool_decide (so_sim_value a = so_sim_value b) &&
  bool_decide (so_used_state_trace a = so_used_state_trace b).

(** Equal orders have the same id: it does not depend on the metadata. *)
Lemma order_eqb_id a b : order_eqb a b = true -> Order_id a = Order_id b.
Proof.
  destruct a as [x | x | []], b as [y | y | []]; simpl; try done;
    rewrite ?andb_true_iff, ?bool_decide_eq_true; unfold bundle_eqb, tx_eqb;
    rewrite ?andb_true_iff, ?bool_decide_eq_true.
  - intros H. f_equal. tauto.
  - intros [[H _] _]. unfold tx_hash. by rewrite H.
  - intros H. f_equal. tauto.
Qed.

Lemma sim_order_eqb_id a b : sim_order_eqb a b = true -> so_id a = so_id b.
Proof.
  unfold sim_order_eqb. rewrite !andb_true_iff. intros [[H _] _]. by apply order_eqb_id.
Qed.

Lemma sim_order_eqb_profit a b :
  sim_order_eqb a b = true -> so_sim_value a = so_sim_value b.
Proof. unfold sim_order_eqb. rewrite !andb_true_iff, !bool_decide_eq_true. tauto. Qed.
