(* ===== verification/Samples.v ===== *)
(** * Sample orders

    Concrete transactions, bundles and orders, on which the development's
    theorems are instantiated. *)

From S2P Require Import Prelude Transactions Bundles Orders SimTypes.

Definition sample_tx (hash signer nonce gas : Z) : TxWithBlobs :=
  {| txb_tx := {| ts_hash := hash; ts_ty := 2; ts_nonce := nonce; ts_to := Some 9; ts_value := 0;
                  ts_gas_limit := gas; ts_max_fee_per_gas := 10; ts_length := 100; ts_size := 200;
                  ts_blob_versioned_hashes := None |};
     txb_signer := signer; blobs_sidecar := default_blob_sidecar;
     txb_metadata := Metadata_new 0 |}.

Definition sample_mempool (hash signer nonce : Z) : Order :=
  Order_Tx {| tx_with_blobs := sample_tx hash signer nonce 21000 |}.

Definition sample_bundle (uuid : Z) (replacement : option (ReplacementData BundleReplacementKey))
    (txs : list TxWithBlobs) (reverting : list Z) : Bundle :=
  {| b_version := V2; b_block := Some 7; b_min_timestamp := None; b_max_timestamp := None;
     b_txs := txs; b_reverting_tx_hashes := reverting; b_dropping_tx_hashes := [];
     b_hash := 0; b_uuid := uuid; b_replacement_data := replacement; b_signer := None;
     b_refund_identity := None; b_metadata := Metadata_new 0; b_refund := None;
     b_external_hash := None |}.

Definition sample_key : BundleReplacementKey := BundleReplacementKey_new 5 None.

Definition sample_replaceable (uuid seq : Z) : Order :=
  Order_Bundle (sample_bundle uuid (Some {| rd_key := sample_key; rd_sequence_number := seq |}) [] []).

Definition sample_inner (body : list ShareBundleBody) : ShareBundleInner :=
  mk_ShareBundleInner body [] [] false None.

(** A simulated order that spends [gas] for [profit]. *)
Definition sample_sim (o : Order) (profit gas : Z) : SimulatedOrder :=
  {| so_order := o; so_sim_value := SimValue_new profit profit (BlockSpace_new gas 0 0) [];
     so_used_state_trace := None |}.
