(* ===== verification/OrderSinks.v ===== *)
(** * Order sinks (live_builder/order_input/order_sink.rs,
      replaceable_order_sink.rs, mempool_txs_detector.rs,
      blob_type_order_filter.rs)

    The two traits through which order flow reaches a block, as type classes,
    and the sinks that implement them: printers, the channel adapter, the
    store, the mempool sniffer and the blob filter.  A method takes the sink's
    state and returns the new state with the method's result. *)

From S2P Require Import Prelude Transactions Bundles Orders.

(** ** The traits *)
Class OrderSink (S : Type) := {
  insert_order : S -> Order -> S * bool;
  remove_order : S -> OrderId -> S * bool;
  is_alive : S -> bool;
}.

Class ReplaceableOrderSink (S : Type) := {
  r_insert_order : S -> Order -> S * bool;
  r_remove_bundle : S -> ReplacementData BundleReplacementKey -> S * bool;
  r_remove_sbundle : S -> ShareBundleReplacementKey -> S * bool;
  r_is_alive : S -> bool;
}.

(** ** Printers: they only log. *)
Inductive OrderPrinter := mk_OrderPrinter.
#[export] Instance OrderPrinter_sink : OrderSink OrderPrinter := {
  insert_order s _ := (s, true);
  remove_order s _ := (s, true);
  is_alive _ := true;
}.

Inductive ReplaceableOrderPrinter := mk_ReplaceableOrderPrinter.
#[export] Instance ReplaceableOrderPrinter_sink : ReplaceableOrderSink ReplaceableOrderPrinter := {
  r_insert_order s _ := (s, true);
  r_remove_bundle s _ := (s, true);
  r_remove_sbundle s _ := (s, true);
  r_is_alive _ := true;
}.

Inductive NullReplaceableOrderSink := mk_NullReplaceableOrderSink.
#[export] Instance NullReplaceableOrderSink_sink : ReplaceableOrderSink NullReplaceableOrderSink := {
  r_insert_order s _ := (s, true);
  r_remove_bundle s _ := (s, true);
  r_remove_sbundle s _ := (s, true);
  r_is_alive _ := true;
}.

(** ** The channel adapter *)
Inductive OrderPoolCommand :=
| Cmd_Insert (order : Order)
| Cmd_Remove (id : OrderId).

(** An unbounded channel: what was sent, and whether the receiver is gone. *)
Record OrderSender2OrderSink := { sent : list OrderPoolCommand; closed : bool }.

Definition OrderSender2OrderSink_new : OrderSender2OrderSink := {| sent := []; closed := false |}.

Definition channel_send (s : OrderSender2OrderSink) (c : OrderPoolCommand)
  : OrderSender2OrderSink * bool :=
  if closed s then (s, false)
  else ({| sent := sent s ++ [c]; closed := closed s |}, true).

#[export] Instance OrderSender2OrderSink_sink : OrderSink OrderSender2OrderSink := {
  insert_order s o := channel_send s (Cmd_Insert o);
  remove_order s id := channel_send s (Cmd_Remove id);
  is_alive s := negb (closed s);
}.

(** ** The store *)
Record OrderStore := { orders : gmap OrderId Order }.

Definition OrderStore_new : OrderStore := {| orders := ∅ |}.

Definition OrderStore_insert_order (s : OrderStore) (o : Order) : OrderStore * bool :=
  ({| orders := <[Order_id o := o]> (orders s) |}, true).

Definition OrderStore_remove_order (s : OrderStore) (id : OrderId) : OrderStore * bool :=
  ({| orders := delete id (orders s) |}, true).

Definition into_orders (s : OrderStore) : list Order := snd <$> map_to_list (orders s).

#[export] Instance OrderStore_sink : OrderSink OrderStore := {
  insert_order := OrderStore_insert_order;
  remove_order := OrderStore_remove_order;
  is_alive _ := true;
}.

(** [ShareableOrderSink] locks the shared sink and forwards. *)
Record ShareableOrderSink (S : Type) := { shared_sink : S }.
Arguments shared_sink {_} _.

#[export] Instance ShareableOrderSink_sink {S} `{OrderSink S} : OrderSink (ShareableOrderSink S) := {
  insert_order s o := let '(k, b) := insert_order (shared_sink s) o in ({| shared_sink := k |}, b);
  remove_order s id := let '(k, b) := remove_order (shared_sink s) id in ({| shared_sink := k |}, b);
  is_alive s := is_alive (shared_sink s);
}.

(** ** The mempool detector and the sniffer that feeds it *)
Record MempoolTxsDetector := { detector_txs : gset TxHash }.

Definition MempoolTxsDetector_new : MempoolTxsDetector := {| detector_txs := ∅ |}.

Definition detector_add_tx (d : MempoolTxsDetector) (o : Order) : MempoolTxsDetector :=
  match o with
  | Order_Tx tx => {| detector_txs := {[ tx_hash (tx_with_blobs tx) ]} ∪ detector_txs d |}
  | _ => d
  end.

Definition is_mempool (d : MempoolTxsDetector) (tx : TxWithBlobs) : bool :=
  bool_decide (tx_hash tx ∈ detector_txs d).

Record ReplaceableOrderStreamSniffer (S : Type) := {
  sniffer_detector : MempoolTxsDetector;
  sniffer_sink : S;
}.
Arguments sniffer_detector {_} _.
Arguments sniffer_sink {_} _.

Definition sniffer_forward {S} (s : ReplaceableOrderStreamSniffer S) (r : S * bool)
  : ReplaceableOrderStreamSniffer S * bool :=
  ({| sniffer_detector := sniffer_detector s; sniffer_sink := r.1 |}, r.2).

Definition sniffer_insert_order {S} `{ReplaceableOrderSink S}
    (s : ReplaceableOrderStreamSniffer S) (o : Order) : ReplaceableOrderStreamSniffer S * bool :=
  let s := {| sniffer_detector := detector_add_tx (sniffer_detector s) o;
              sniffer_sink := sniffer_sink s |} in
  sniffer_forward s (r_insert_order (sniffer_sink s) o).

#[export] Instance sniffer_replaceable_sink {S} `{ReplaceableOrderSink S} :
  ReplaceableOrderSink (ReplaceableOrderStreamSniffer S) := {
  r_insert_order := sniffer_insert_order;
  r_remove_bundle s d := sniffer_forward s (r_remove_bundle (sniffer_sink s) d);
  r_remove_sbundle s k := sniffer_forward s (r_remove_sbundle (sniffer_sink s) k);
  r_is_alive s := r_is_alive (sniffer_sink s);
}.

(** ** The blob filter *)
Record BlobTypeOrderFilter (S : Type) := {
  filter_sink : S;
  filter_func : TxWithBlobs -> bool;
}.
Arguments filter_sink {_} _.
Arguments filter_func {_} _ _.

(** Transaction type 3 is EIP-4844. *)
Definition is_eip4844 (tx : TxWithBlobs) : bool := bool_decide (ts_ty (txb_tx tx) = 3).

Definition new_pre_fusaka {S} (sink : S) : BlobTypeOrderFilter S :=
  {| filter_sink := sink;
     filter_func tx :=
       if is_eip4844 tx then match blobs_sidecar tx with Eip4844 _ => true | Eip7594 _ => false end
       else true |}.

Definition new_fusaka {S} (sink : S) : BlobTypeOrderFilter S :=
  {| filter_sink := sink;
     filter_func tx :=
       if is_eip4844 tx then match blobs_sidecar tx with Eip7594 _ => true | Eip4844 _ => false end
       else true |}.

Definition filter_with_sink {S} (f : BlobTypeOrderFilter S) (r : S * bool)
  : BlobTypeOrderFilter S * bool :=
  ({| filter_sink := r.1; filter_func := filter_func f |}, r.2).

Definition filter_insert_order {S} `{ReplaceableOrderSink S} (f : BlobTypeOrderFilter S) (o : Order)
  : BlobTypeOrderFilter S * bool :=
  if forallb (fun p => filter_func f p.1) (Order_list_txs o)
  then filter_with_sink f (r_insert_order (filter_sink f) o)
  else (f, true).

#[export] Instance filter_replaceable_sink {S} `{ReplaceableOrderSink S} :
  ReplaceableOrderSink (BlobTypeOrderFilter S) := {
  r_insert_order := filter_insert_order;
  r_remove_bundle f d := filter_with_sink f (r_remove_bundle (filter_sink f) d);
  r_remove_sbundle f k := filter_with_sink f (r_remove_sbundle (filter_sink f) k);
  r_is_alive f := r_is_alive (filter_sink f);
}.

(** ** Order flow as a sequence of calls *)
Inductive FlowEvent :=
| Ev_Insert (order : Order)
| Ev_RemoveBundle (data : ReplacementData BundleReplacementKey)
| Ev_RemoveSbundle (key : ShareBundleReplacementKey).

Definition flow_step {S} `{ReplaceableOrderSink S} (s : S) (e : FlowEvent) : S * bool :=
  match e with
  | Ev_Insert o => r_insert_order s o
  | Ev_RemoveBundle d => r_remove_bundle s d
  | Ev_RemoveSbundle k => r_remove_sbundle s k
  end.

Definition flow_run {S} `{ReplaceableOrderSink S} (s : S) (es : list FlowEvent) : S :=
  foldl (fun s e => (flow_step s e).1) s es.

(** The same for the plain sinks: commands applied in order. *)
Definition command_step {S} `{OrderSink S} (s : S) (c : OrderPoolCommand) : S * bool :=
  match c with
  | Cmd_Insert o => insert_order s o
  | Cmd_Remove id => remove_order s id
  end.

Definition command_run {S} `{OrderSink S} (s : S) (cs : list OrderPoolCommand) : S :=
  foldl (fun s c => (command_step s c).1) s cs.

Lemma flow_run_snoc {S} `{ReplaceableOrderSink S} (s : S) es e :
  flow_run s (es ++ [e]) = (flow_step (flow_run s es) e).1.
Proof. unfold flow_run. by rewrite foldl_app. Qed.

Lemma command_run_app {S} `{OrderSink S} (s : S) cs ds :
  command_run s (cs ++ ds) = command_run (command_run s cs) ds.
Proof. unfold command_run. by rewrite foldl_app. Qed.

(** ** Properties *)

(** The events a filter lets through. *)
Definition filter_passes (f : TxWithBlobs -> bool) (e : FlowEvent) : bool :=
  match e with
  | Ev_Insert o => forallb (fun p => f p.1) (Order_list_txs o)
  | _ => true
  end.

Lemma filter_flow_step {S} `{ReplaceableOrderSink S} (f : BlobTypeOrderFilter S) e :
  (flow_step f e).1 =
  if filter_passes (filter_func f) e
  then {| filter_sink := (flow_step (filter_sink f) e).1; filter_func := filter_func f |}
  else f.
Proof. destruct e; simpl; [| done..]. unfold filter_insert_order. by destruct (forallb _ _). Qed.

(** The blob type filter forwards to its sink exactly the events of the flow
    that pass it, and all cancellations. *)
Theorem blob_filter_refines {S} `{ReplaceableOrderSink S} (f : BlobTypeOrderFilter S) es :
  filter_sink (flow_run f es)
  = flow_run (filter_sink f) (filter (fun e => filter_passes (filter_func f) e = true) es).
Proof.
  enough (flow_run f es = {| filter_sink := flow_run (filter_sink f)
            (filter (fun e => filter_passes (filter_func f) e = true) es);
            filter_func := filter_func f |}) as -> by done.
  induction es as [| e es IH] using rev_ind; [by destruct f |].
  rewrite flow_run_snoc, filter_flow_step, IH, filter_app. simpl.
  destruct (filter_passes _ _) eqn:Hp.
  - rewrite filter_cons_True by done. by rewrite flow_run_snoc.
  - rewrite filter_cons_False by congruence. by rewrite app_nil_r.
Qed.

(** The mempool detector is transparent for the flow, and knows a transaction
    exactly if it was known or was inserted as a mempool transaction. *)
Theorem sniffer_refines {S} `{ReplaceableOrderSink S} (s : ReplaceableOrderStreamSniffer S) es tx :
  sniffer_sink (flow_run s es) = flow_run (sniffer_sink s) es
  /\ (is_mempool (sniffer_detector (flow_run s es)) tx = true <->
      is_mempool (sniffer_detector s) tx = true
      \/ exists m, Ev_Insert (Order_Tx m) ∈ es /\ tx_hash (tx_with_blobs m) = tx_hash tx).
Proof.
  induction es as [| e es [IH1 IH2]] using rev_ind.
  { split; [done |]. split; [by left |]. intros [? | (m & Hin & _)]; [done |].
    by apply not_elem_of_nil in Hin. }
  rewrite !flow_run_snoc. setoid_rewrite elem_of_app. setoid_rewrite list_elem_of_singleton.
  destruct e as [[b | m | sb] | d | k]; simpl; (split; [by rewrite IH1 |]);
    try (rewrite IH2; naive_solver).
  unfold is_mempool in *. rewrite !bool_decide_eq_true in *. simpl.
  rewrite elem_of_union, elem_of_singleton, IH2. naive_solver.
Qed.
