(* ===== verification/ReplacementManager.v ===== *)
(** * Replacement and cancellation (live_builder/order_input/order_replacement_manager.rs)

    [OrderReplacementManager] sits between the raw flow of inserts and
    cancellations, which may arrive out of order, and a plain [OrderSink].  The
    specification is declarative: per replacement key the event with the
    highest sequence number wins, the earliest one among equals. *)

From S2P Require Import Prelude Transactions Bundles Orders SimTypes Samples OrderSinks.

(** ** State *)
Record ValidBundleState := { vb_sequence_number : U64; vb_order_id : OrderId }.

Inductive BundleReplacementState :=
| State_Valid (s : ValidBundleState)
| State_Cancelled (sequence_number : U64).

Record OrderReplacementManager (S : Type) := {
  rm_sink : S;
  replacement_states : gmap OrderReplacementKey BundleReplacementState;
}.
Arguments rm_sink {_} _.
Arguments replacement_states {_} _.
Arguments Build_OrderReplacementManager {_} _ _.

Definition OrderReplacementManager_new {S} (sink : S) : OrderReplacementManager S :=
  {| rm_sink := sink; replacement_states := ∅ |}.

Definition SBUNDLE_SEQUENCE_NUMBER : U64 := u64_max.

(** ** Operations *)
Section manager.
Context {S : Type} `{OrderSink S}.

Definition state_sequence_number (st : BundleReplacementState) : U64 :=
  match st with
  | State_Valid v => vb_sequence_number v
  | State_Cancelled n => n
  end.

Definition send_remove_order_if_needed (st : BundleReplacementState) (sink : S) : S * bool :=
  match st with
  | State_Valid v => remove_order sink (vb_order_id v)
  | State_Cancelled _ => (sink, true)
  end.

Definition state_insert_order (st : BundleReplacementState) (order : Order) (seq : U64) (sink : S)
  : BundleReplacementState * S * bool :=
  if decide (seq <= state_sequence_number st) then (st, sink, true)
  else
    let '(sink, res) := send_remove_order_if_needed st sink in
    let '(sink, inserted) := insert_order sink order in
    (State_Valid {| vb_sequence_number := seq; vb_order_id := Order_id order |}, sink,
     if inserted then res else false).

Definition state_cancel_order (st : BundleReplacementState) (seq : U64) (sink : S)
  : BundleReplacementState * S * bool :=
  if decide (seq <= state_sequence_number st) then (st, sink, true)
  else
    let '(sink, res) := send_remove_order_if_needed st sink in
    (State_Cancelled seq, sink, res).

Definition manager_insert_order (m : OrderReplacementManager S) (order : Order)
  : OrderReplacementManager S * bool :=
  match replacement_key_and_sequence_number order with
  | Some (rep_key, seq) =>
      match replacement_states m !! rep_key with
      | Some st =>
          let '(st, sink, res) := state_insert_order st order seq (rm_sink m) in
          (Build_OrderReplacementManager sink (<[rep_key := st]> (replacement_states m)), res)
      | None =>
          let st := State_Valid {| vb_sequence_number := seq; vb_order_id := Order_id order |} in
          let '(sink, res) := insert_order (rm_sink m) order in
          (Build_OrderReplacementManager sink (<[rep_key := st]> (replacement_states m)), res)
      end
  | None =>
      let '(sink, res) := insert_order (rm_sink m) order in
      (Build_OrderReplacementManager sink (replacement_states m), res)
  end.

(** The body [remove_bundle] and [remove_sbundle] share. *)
Definition manager_cancel (m : OrderReplacementManager S) (key : OrderReplacementKey) (seq : U64)
  : OrderReplacementManager S * bool :=
  match replacement_states m !! key with
  | Some st =>
      let '(st, sink, res) := state_cancel_order st seq (rm_sink m) in
      (Build_OrderReplacementManager sink (<[key := st]> (replacement_states m)), res)
  | None =>
      (Build_OrderReplacementManager (rm_sink m)
         (<[key := State_Cancelled seq]> (replacement_states m)), true)
  end.

Definition manager_remove_bundle (m : OrderReplacementManager S)
    (data : ReplacementData BundleReplacementKey) : OrderReplacementManager S * bool :=
  manager_cancel m (ORK_Bundle (rd_key data)) (rd_sequence_number data).

Definition manager_remove_sbundle (m : OrderReplacementManager S)
    (key : ShareBundleReplacementKey) : OrderReplacementManager S * bool :=
  manager_cancel m (ORK_ShareBundle key) SBUNDLE_SEQUENCE_NUMBER.

#[export] Instance manager_replaceable_sink : ReplaceableOrderSink (OrderReplacementManager S) := {
  r_insert_order := manager_insert_order;
  r_remove_bundle := manager_remove_bundle;
  r_remove_sbundle := manager_remove_sbundle;
  r_is_alive m := is_alive (rm_sink m);
}.

End manager.

(** ** Specification *)

(** What an event says about a key: a new order or a cancellation. *)
Definition event_update (e : FlowEvent) : option (OrderReplacementKey * U64 * option Order) :=
  match e with
  | Ev_Insert o => (fun p => (p.1, p.2, Some o)) <$> replacement_key_and_sequence_number o
  | Ev_RemoveBundle d => Some (ORK_Bundle (rd_key d), rd_sequence_number d, None)
  | Ev_RemoveSbundle k => Some (ORK_ShareBundle k, SBUNDLE_SEQUENCE_NUMBER, None)
  end.

(** The event at position [i] decides the key: every earlier event of the key
    has a lower sequence number and no later one a higher. *)
Definition is_winner (es : list FlowEvent) (k : OrderReplacementKey) (i : nat)
    (seq : U64) (p : option Order) : Prop :=
  (exists e, es !! i = Some e /\ event_update e = Some (k, seq, p))
  /\ forall j e seq' p', es !! j = Some e -> event_update e = Some (k, seq', p') ->
       ((j < i)%nat -> seq' < seq) /\ seq' <= seq.

(** The state a winner leaves behind. *)
Definition winner_state (seq : U64) (p : option Order) : BundleReplacementState :=
  match p with
  | Some o => State_Valid {| vb_sequence_number := seq; vb_order_id := Order_id o |}
  | None => State_Cancelled seq
  end.

(** [o] was inserted and no later insertion has its id. *)
Definition last_insert (es : list FlowEvent) (o : Order) : Prop :=
  exists i, es !! i = Some (Ev_Insert o)
    /\ forall j o', es !! j = Some (Ev_Insert o') -> (i < j)%nat -> Order_id o' <> Order_id o.

(** An order is live: not replaceable and not overwritten by a later order with
    its id, or the winner of its key. *)
Definition live (es : list FlowEvent) (o : Order) : Prop :=
  match replacement_key_and_sequence_number o with
  | None => last_insert es o
  | Some (k, seq) => exists i, is_winner es k i seq (Some o)
  end.

(** Orders with one id belong to one key. *)
Definition ids_respect_keys (es : list FlowEvent) : Prop :=
  forall o o', Ev_Insert o ∈ es -> Ev_Insert o' ∈ es -> Order_id o = Order_id o' ->
    replacement_key o = replacement_key o'.

(** ** Winners *)

(** Every event of the key seen so far has a lower sequence number. *)
Definition beats (es : list FlowEvent) (k : OrderReplacementKey) (seq : U64) : Prop :=
  forall j e seq' p', es !! j = Some e -> event_update e = Some (k, seq', p') -> seq' < seq.

Lemma is_winner_lt es k i seq p : is_winner es k i seq p -> (i < length es)%nat.
Proof. intros [(e & He & _) _]. by eapply lookup_lt_Some. Qed.

Lemma is_winner_unique es k i seq p i' seq' p' :
  is_winner es k i seq p -> is_winner es k i' seq' p' -> i = i' /\ seq = seq' /\ p = p'.
Proof.
  intros [(e & He & Hu) Hall] [(e' & He' & Hu') Hall'].
  destruct (Hall _ _ _ _ He' Hu') as [Hlt Hle]. destruct (Hall' _ _ _ _ He Hu) as [Hlt' Hle'].
  assert (i = i') as -> by (destruct (lt_eq_lt_dec i i') as [[]|]; lia).
  simplify_eq. done.
Qed.

Lemma is_winner_snoc_new es e k seq p :
  event_update e = Some (k, seq, p) -> beats es k seq ->
  is_winner (es ++ [e]) k (length es) seq p.
Proof.
  intros Hu Hb. split; [exists e; by rewrite lookup_snoc_Some; auto |].
  intros j e' seq' p' [Hj | [-> <-]]%lookup_snoc_Some Hu'.
  - pose proof (Hb _ _ _ _ Hj Hu'). lia.
  - assert (seq' = seq) as -> by congruence. lia.
Qed.

Lemma is_winner_snoc_old es e k i seq p :
  is_winner es k i seq p ->
  (forall seq' p', event_update e = Some (k, seq', p') -> seq' <= seq) ->
  is_winner (es ++ [e]) k i seq p.
Proof.
  intros Hw Hle. pose proof (is_winner_lt _ _ _ _ _ Hw) as Hi.
  destruct Hw as [(e0 & He & Hu) Hall].
  split; [exists e0; by rewrite lookup_snoc_Some; auto |].
  intros j e' seq' p' [Hj | [-> <-]]%lookup_snoc_Some Hu'; [eauto |].
  split; [lia | eauto].
Qed.

Lemma is_winner_snoc_inv es e k i seq p :
  is_winner (es ++ [e]) k i seq p ->
  (is_winner es k i seq p /\ forall seq' p', event_update e = Some (k, seq', p') -> seq' <= seq)
  \/ (event_update e = Some (k, seq, p) /\ beats es k seq).
Proof.
  intros [(e0 & He & Hu) Hall]. apply lookup_snoc_Some in He as [He | [-> <-]].
  - left. split; [split; [eauto |] |].
    + intros j e' seq' p' Hj. apply Hall. apply lookup_snoc_Some. by left.
    + intros seq' p' Hu'. apply (Hall (length es) e _ p'); [| done].
      apply lookup_snoc_Some. by right.
  - right. split; [done |]. intros j e' seq' p' Hj Hu'.
    apply (Hall j e' _ p'); [apply lookup_snoc_Some; by left | done |].
    by eapply lookup_lt_Some.
Qed.

Lemma winner_beats es k i seq p seq' :
  is_winner es k i seq p -> seq < seq' -> beats es k seq'.
Proof. intros [_ Hall] Hlt j e s q Hj Hu. destruct (Hall _ _ _ _ Hj Hu). lia. Qed.

(** ** The states refine the winners *)

Definition states_ok (es : list FlowEvent) (m : gmap OrderReplacementKey BundleReplacementState) : Prop :=
  forall k, match m !! k with
            | Some st => exists i seq p, is_winner es k i seq p /\ st = winner_state seq p
            | None => forall j e seq p, es !! j = Some e -> event_update e <> Some (k, seq, p)
            end.

Lemma winner_state_seq seq p : state_sequence_number (winner_state seq p) = seq.
Proof. by destruct p. Qed.

Section manager_facts.
Context {S : Type} `{OrderSink S}.
Implicit Types m : OrderReplacementManager S.

(** What one event does to the sink. *)
Definition sink_insert_opt (sink : S) (p : option Order) : S :=
  match p with Some o => (insert_order sink o).1 | None => sink end.

Lemma manager_step_unkeyed m e :
  event_update e = None ->
  exists o, e = Ev_Insert o /\ replacement_key_and_sequence_number o = None
    /\ (flow_step m e).1
       = Build_OrderReplacementManager (insert_order (rm_sink m) o).1 (replacement_states m).
Proof.
  destruct e as [o | d | k]; simpl; [| done..]. intros Hu. exists o. split; [done |].
  unfold manager_insert_order. destruct (replacement_key_and_sequence_number o); [done |].
  split; [done |]. by destruct (insert_order (rm_sink m) o).
Qed.

Lemma manager_step_keyed m e k seq p :
  event_update e = Some (k, seq, p) ->
  (flow_step m e).1 =
  match replacement_states m !! k with
  | None => Build_OrderReplacementManager (sink_insert_opt (rm_sink m) p)
              (<[k := winner_state seq p]> (replacement_states m))
  | Some st =>
      if decide (seq <= state_sequence_number st)
      then Build_OrderReplacementManager (rm_sink m) (<[k := st]> (replacement_states m))
      else Build_OrderReplacementManager
             (sink_insert_opt (send_remove_order_if_needed st (rm_sink m)).1 p)
             (<[k := winner_state seq p]> (replacement_states m))
  end.
Proof.
  destruct e as [o | d | k']; simpl; intros Hu.
  - unfold manager_insert_order.
    destruct (replacement_key_and_sequence_number o) as [[k0 s0] |]; simplify_eq/=.
    destruct (replacement_states m !! k) as [st |]; [| by destruct (insert_order _ _)].
    unfold state_insert_order. case_decide; [done |].
    destruct (send_remove_order_if_needed _ _) as [s1 b1]. simpl.
    by destruct (insert_order s1 o).
  - unfold manager_remove_bundle, manager_cancel. simplify_eq/=.
    destruct (replacement_states m !! _) as [st |]; [| done].
    unfold state_cancel_order. case_decide; [done |]. by destruct (send_remove_order_if_needed _ _).
  - unfold manager_remove_sbundle, manager_cancel. simplify_eq/=.
    destruct (replacement_states m !! _) as [st |]; [| done].
    unfold state_cancel_order. case_decide; [done |]. by destruct (send_remove_order_if_needed _ _).
Qed.

Lemma states_ok_winner es m k st :
  states_ok es (replacement_states m) -> replacement_states m !! k = Some st ->
  exists i seq p, is_winner es k i seq p /\ st = winner_state seq p.
Proof. intros Hok Hst. specialize (Hok k). by rewrite Hst in Hok. Qed.

Lemma states_ok_none es m k seq :
  states_ok es (replacement_states m) -> replacement_states m !! k = None -> beats es k seq.
Proof.
  intros Hok Hst j e s q Hj Hu. specialize (Hok k). rewrite Hst in Hok.
  by destruct (Hok j e s q).
Qed.

Lemma states_ok_step es e m :
  states_ok es (replacement_states m) ->
  states_ok (es ++ [e]) (replacement_states (flow_step m e).1).
Proof.
  intros Hok. destruct (event_update e) as [[[k seq] p] |] eqn:Hu.
  - assert (Hother : forall st k', k <> k' ->
        match <[k := st]> (replacement_states m) !! k' with
        | Some st => exists i seq p, is_winner (es ++ [e]) k' i seq p /\ st = winner_state seq p
        | None => forall j e' seq p, (es ++ [e]) !! j = Some e' -> event_update e' <> Some (k', seq, p)
        end).
    { intros st k' Hne. rewrite lookup_insert_ne by done. specialize (Hok k').
      destruct (replacement_states m !! k') as [st' |].
      - destruct Hok as (i & s & q & Hw & ->). exists i, s, q. split; [| done].
        apply is_winner_snoc_old; [done | congruence].
      - intros j e' s q [Hj | [-> <-]]%lookup_snoc_Some; [eauto | congruence]. }
    rewrite (manager_step_keyed _ _ _ _ _ Hu).
    destruct (replacement_states m !! k) as [st |] eqn:Hst; [case_decide as Hle |]; simpl;
      intros k'; (destruct (decide (k = k')) as [<- | Hne]; [rewrite lookup_insert_eq | by apply Hother]).
    + destruct (states_ok_winner _ _ _ _ Hok Hst) as (i & s & q & Hw & ->).
      rewrite winner_state_seq in Hle. exists i, s, q. split; [| done].
      apply is_winner_snoc_old; [done |]. intros ? ? Hu'. by simplify_eq.
    + destruct (states_ok_winner _ _ _ _ Hok Hst) as (i & s & q & Hw & ->).
      rewrite winner_state_seq in Hle. eexists _, _, _. split; [| done].
      eapply is_winner_snoc_new; [done |]. eapply winner_beats; [done | lia].
    + eexists _, _, _. split; [| done]. eapply is_winner_snoc_new; [done |].
      by eapply states_ok_none.
  - destruct (manager_step_unkeyed m e Hu) as (o & -> & Ho & ->). simpl. intros k.
    specialize (Hok k). destruct (replacement_states m !! k) as [st |].
    + destruct Hok as (i & s & q & Hw & ->). exists i, s, q. split; [| done].
      apply is_winner_snoc_old; [done |]. congruence.
    + intros j e' s q [Hj | [-> <-]]%lookup_snoc_Some; [eauto | congruence].
Qed.

Lemma states_ok_run es (sink : S) :
  states_ok es (replacement_states (flow_run (OrderReplacementManager_new sink) es)).
Proof.
  induction es as [| e es IH] using rev_ind.
  - intros k. simpl. rewrite lookup_empty. intros j e seq p Hj. done.
  - rewrite flow_run_snoc. by apply states_ok_step.
Qed.

End manager_facts.

(** ** The store behind the manager holds the live orders *)

Lemma live_elem es o : live es o -> Ev_Insert o ∈ es.
Proof.
  unfold live. destruct (replacement_key_and_sequence_number o) as [[k seq] |] eqn:Hk.
  - intros (i & (e & He & Hu) & _). destruct e as [o' | d | k']; simplify_eq/=.
    destruct (replacement_key_and_sequence_number o') as [[] |]; simplify_eq/=.
    by eapply list_elem_of_lookup_2.
  - intros (i & He & _). by eapply list_elem_of_lookup_2.
Qed.

Lemma ids_respect_keys_prefix es e : ids_respect_keys (es ++ [e]) -> ids_respect_keys es.
Proof. intros Hids o o' Ho Ho'. apply Hids; apply elem_of_app; by left. Qed.

(** A keyed event does not affect the last insertion of an order without key. *)
Lemma last_insert_snoc es e o k seq p :
  ids_respect_keys (es ++ [e]) -> event_update e = Some (k, seq, p) ->
  replacement_key_and_sequence_number o = None ->
  last_insert (es ++ [e]) o <-> last_insert es o.
Proof.
  intros Hids Hu Hk. split; intros (i & Hi & Hall).
  - apply lookup_snoc_Some in Hi as [Hi | [-> ->]]; [| simpl in Hu; by rewrite Hk in Hu].
    exists i. split; [done |]. intros j o' Hj. apply Hall. apply lookup_snoc_Some. by left.
  - exists i. split; [apply lookup_snoc_Some; by left |].
    intros j o' [Hj | [-> ->]]%lookup_snoc_Some Hlt Hid; [by eapply Hall |].
    assert (replacement_key o' = replacement_key o) as Heq.
    { apply Hids; [apply elem_of_app; right; by apply list_elem_of_singleton | | done].
      apply elem_of_app. left. by eapply list_elem_of_lookup_2. }
    unfold replacement_key in Heq. rewrite Hk in Heq. simpl in Hu.
    by destruct (replacement_key_and_sequence_number o').
Qed.

(** An update that is not newer than the winner leaves the live orders alone,
    one that is newer takes its key's place. *)
Lemma live_snoc_keyed es e k seq p o :
  ids_respect_keys (es ++ [e]) -> event_update e = Some (k, seq, p) ->
  (beats es k seq -> live (es ++ [e]) o <->
     p = Some o \/ live es o /\ replacement_key o <> Some k)
  /\ ((exists i s q, is_winner es k i s q /\ seq <= s) -> live (es ++ [e]) o <-> live es o).
Proof.
  intros Hids Hu. unfold live, replacement_key.
  destruct (replacement_key_and_sequence_number o) as [[k0 s0] |] eqn:Hk; simpl.
  - split.
    + intros Hb. split.
      * intros (i & Hw). apply is_winner_snoc_inv in Hw as [[Hw Hle] | [Hu' Hb']].
        -- right. split; [by exists i |]. intros [= ->]. pose proof (Hle _ _ Hu).
           destruct Hw as [(e' & He' & Hu') _]. pose proof (Hb _ _ _ _ He' Hu'). lia.
        -- left. congruence.
      * intros [-> | [(i & Hw) Hne]].
        -- exists (length es). apply is_winner_snoc_new; destruct e; simplify_eq/=;
             destruct (replacement_key_and_sequence_number order) as [[] |] eqn:?; by simplify_eq/=.
        -- exists i. apply is_winner_snoc_old; [done | congruence].
    + intros (i & s & q & Hw & Hle). split.
      * intros (i' & Hw'). apply is_winner_snoc_inv in Hw' as [[Hw' _] | [Hu' Hb']]; [by exists i' |].
        assert (k0 = k /\ s0 = seq) as [-> ->] by (split; congruence).
        destruct Hw as [(e' & He' & Hu'') _]. pose proof (Hb' _ _ _ _ He' Hu''). lia.
      * intros (i' & Hw'). exists i'. apply is_winner_snoc_old; [done |].
        intros s' p' Hu'. simplify_eq. destruct (is_winner_unique _ _ _ _ _ _ _ _ Hw Hw') as (_ & -> & _).
        done.
  - pose proof (last_insert_snoc es e o k seq p Hids Hu Hk) as Hnew.
    split; [intros _; rewrite Hnew | intros _; exact Hnew].
    split; [right; split; done |]. intros [-> | [? _]]; [| done].
    destruct e; simplify_eq/=. by rewrite fmap_Some in Hu; destruct Hu as (? & ? & ?); simplify_eq.
Qed.

Lemma live_snoc_unkeyed es o0 o :
  ids_respect_keys (es ++ [Ev_Insert o0]) -> replacement_key_and_sequence_number o0 = None ->
  live (es ++ [Ev_Insert o0]) o <-> o = o0 \/ live es o /\ Order_id o <> Order_id o0.
Proof.
  intros Hids Hk0. unfold live at 1.
  destruct (replacement_key_and_sequence_number o) as [[k s] |] eqn:Hk.
  - assert (Hu : forall s' p', event_update (Ev_Insert o0) <> Some (k, s', p'))
      by (intros; simpl; by rewrite Hk0).
    split.
    + intros (i & Hw). apply is_winner_snoc_inv in Hw as [[Hw _] | [Hu' _]]; [| by apply Hu in Hu'].
      assert (Hl : live es o) by (unfold live; rewrite Hk; by exists i).
      right. split; [done |]. intros Hid.
      assert (replacement_key o = replacement_key o0) as Heq.
      { apply Hids; [| | done]; apply elem_of_app; [left; by apply live_elem |].
        right. by apply list_elem_of_singleton. }
      unfold replacement_key in Heq. by rewrite Hk, Hk0 in Heq.
    + intros [-> | [Hl _]]; [congruence |]. unfold live in Hl. rewrite Hk in Hl.
      destruct Hl as (i & Hw). exists i. apply is_winner_snoc_old; [done |]. intros ? ? Hu'.
      by apply Hu in Hu'.
  - unfold live. rewrite Hk. split.
    + intros (i & Hi & Hall). apply lookup_snoc_Some in Hi as [Hi | [-> [= ->]]]; [| by left].
      right. split.
      * exists i. split; [done |]. intros j o' Hj. apply Hall. apply lookup_snoc_Some. by left.
      * intros Hid. apply (Hall (length es) o0); [apply lookup_snoc_Some; by right | | done].
        by eapply lookup_lt_Some.
    + intros [-> | [(i & Hi & Hall) Hid]].
      * exists (length es). split; [apply lookup_snoc_Some; by right |].
        intros j o' [Hj | [-> _]]%lookup_snoc_Some; [apply lookup_lt_Some in Hj |]; lia.
      * exists i. split; [apply lookup_snoc_Some; by left |].
        intros j o' [Hj | [-> [= ->]]]%lookup_snoc_Some; [eauto | done].
Qed.

Abbreviation run_with_store es :=
  (flow_run (OrderReplacementManager_new OrderStore_new) es) (only parsing).

(** The keyed orders of the store are the winners of their keys. *)
Definition store_ok (es : list FlowEvent) (m : gmap OrderId Order) : Prop :=
  forall id o, m !! id = Some o <-> Order_id o = id /\ live es o.

Lemma update_order_key e k seq o :
  event_update e = Some (k, seq, Some o) ->
  e = Ev_Insert o /\ replacement_key_and_sequence_number o = Some (k, seq).
Proof.
  destruct e as [o' | d | k']; simpl; [| done..].
  destruct (replacement_key_and_sequence_number o') as [[] |] eqn:Hk; simpl; [| done].
  by intros [= <- <- <-].
Qed.

Lemma live_key es o k :
  live es o -> replacement_key o = Some k -> exists i seq, is_winner es k i seq (Some o).
Proof.
  unfold live, replacement_key.
  destruct (replacement_key_and_sequence_number o) as [[k0 s0] |]; [| done].
  intros (i & Hw) [= <-]. eauto.
Qed.

Lemma winner_live es k i seq o : is_winner es k i seq (Some o) -> live es o /\ replacement_key o = Some k.
Proof.
  intros Hw. pose proof Hw as [(e & He & Hu) _]. apply update_order_key in Hu as [-> Hk].
  unfold live, replacement_key. rewrite Hk. split; [by exists i | done].
Qed.

(** Replacing the winner of a key in the store. *)
Lemma store_ok_replace es e k seq p (m m0 : gmap OrderId Order) :
  ids_respect_keys (es ++ [e]) -> event_update e = Some (k, seq, p) -> beats es k seq ->
  store_ok es m ->
  (forall id o, m0 !! id = Some o <-> m !! id = Some o /\ replacement_key o <> Some k) ->
  store_ok (es ++ [e]) (match p with Some o => <[Order_id o := o]> m0 | None => m0 end).
Proof.
  intros Hids Hu Hb Hm Hm0 id o.
  destruct (live_snoc_keyed es e k seq p o Hids Hu) as [-> _]; [| done].
  destruct p as [o1 |]; [| rewrite Hm0, (Hm id o); naive_solver].
  apply update_order_key in Hu as [-> Hk1]. rewrite lookup_insert_Some, Hm0, (Hm id o).
  split; [naive_solver |]. intros [<- [[= ->] | [Hl Hne]]]; [by left |]. right.
  split; [| done]. intros Hid. apply Hne.
  rewrite <- (Hids o1 o); [unfold replacement_key; by rewrite Hk1 | | | done]; apply elem_of_app;
    [right; by apply list_elem_of_singleton | left; by apply live_elem].
Qed.

(** Sending the removal of a key's winner leaves the orders of other keys. *)
Lemma store_without_winner es k i s q (sink : OrderStore) :
  ids_respect_keys es -> store_ok es (orders sink) -> is_winner es k i s q ->
  forall id o, orders (send_remove_order_if_needed (winner_state s q) sink).1 !! id = Some o
    <-> orders sink !! id = Some o /\ replacement_key o <> Some k.
Proof.
  intros Hids Hm Hw id o.
  assert (Hwin : orders sink !! id = Some o -> replacement_key o = Some k -> q = Some o).
  { intros Ho Hko. apply Hm in Ho as [<- Hl]. destruct (live_key _ _ _ Hl Hko) as (i' & s' & Hw').
    by destruct (is_winner_unique _ _ _ _ _ _ _ _ Hw Hw') as (_ & _ & ->). }
  destruct q as [o1 |]; simpl; [| naive_solver].
  destruct (winner_live _ _ _ _ _ Hw) as [Hl1 Hk1]. rewrite lookup_delete_Some. split.
  - intros [Hne Ho]. split; [done |]. intros Hko. pose proof (Hwin Ho Hko) as [= ->].
    apply Hm in Ho as [Hid _]. done.
  - intros [Ho Hne]. split; [| done]. intros Hid. apply Hne. apply Hm in Ho as [Hid' Hl].
    rewrite <- (Hids o1 o); [done | by apply live_elem.. | congruence].
Qed.

Lemma store_ok_step es e m :
  ids_respect_keys (es ++ [e]) -> states_ok es (replacement_states m) ->
  store_ok es (orders (rm_sink m)) ->
  store_ok (es ++ [e]) (orders (rm_sink (flow_step m e).1)).
Proof.
  intros Hids Hst Hm. destruct (event_update e) as [[[k seq] p] |] eqn:Hu.
  - rewrite (manager_step_keyed _ _ _ _ _ Hu).
    destruct (replacement_states m !! k) as [st |] eqn:Hk; [case_decide as Hle |]; simpl.
    + destruct (states_ok_winner _ _ _ _ Hst Hk) as (i & s & q & Hw & ->).
      rewrite winner_state_seq in Hle. intros id o.
      destruct (live_snoc_keyed es e k seq p o Hids Hu) as [_ ->]; [apply Hm | eauto 6].
    + destruct (states_ok_winner _ _ _ _ Hst Hk) as (i & s & q & Hw & ->).
      rewrite winner_state_seq in Hle.
      pose proof (winner_beats _ _ _ _ _ seq Hw ltac:(lia)) as Hb.
      replace (orders _) with (match p with
        | Some o => <[Order_id o := o]> (orders (send_remove_order_if_needed (winner_state s q) (rm_sink m)).1)
        | None => orders (send_remove_order_if_needed (winner_state s q) (rm_sink m)).1 end)
        by (by destruct p).
      eapply store_ok_replace; [exact Hids | exact Hu | exact Hb | exact Hm |].
      by eapply store_without_winner; [eapply ids_respect_keys_prefix | ..].
    + pose proof (states_ok_none _ _ _ seq Hst Hk) as Hb.
      replace (orders _) with (match p with
        | Some o => <[Order_id o := o]> (orders (rm_sink m)) | None => orders (rm_sink m) end)
        by (by destruct p).
      eapply store_ok_replace; [exact Hids | exact Hu | exact Hb | exact Hm |]. intros id o. split; [| tauto].
      intros Ho. split; [done |]. intros Hko. apply Hm in Ho as [_ Hl].
      destruct (live_key _ _ _ Hl Hko) as (i & s & (e' & He' & Hu') & _).
      pose proof (Hst k) as Hnone. rewrite Hk in Hnone. by apply (Hnone _ _ _ _ He') in Hu'.
  - destruct (manager_step_unkeyed m e Hu) as (o0 & -> & Ho & ->). simpl. intros id o.
    rewrite live_snoc_unkeyed by done. rewrite lookup_insert_Some, (Hm id o). naive_solver.
Qed.

Lemma manager_states_lookup {S} `{OrderSink S} (sink : S) es k st :
  replacement_states (flow_run (OrderReplacementManager_new sink) es) !! k = Some st <->
  exists i seq p, is_winner es k i seq p /\ st = winner_state seq p.
Proof.
  pose proof (states_ok_run es sink k) as Hk. split; [intros Hst; by rewrite Hst in Hk |].
  intros (i & seq & p & Hw & ->). destruct (replacement_states _ !! k) as [st |].
  - destruct Hk as (i' & seq' & p' & Hw' & ->).
    by destruct (is_winner_unique _ _ _ _ _ _ _ _ Hw Hw') as (_ & -> & ->).
  - destruct Hw as [(e & He & Hu) _]. by destruct (Hk _ _ _ _ He Hu).
Qed.

Lemma store_ok_run es :
  ids_respect_keys es -> store_ok es (orders (rm_sink (run_with_store es))).
Proof.
  induction es as [| e es IH] using rev_ind; intros Hids.
  - intros id o. simpl. rewrite lookup_empty. split; [done |].
    intros [_ Hl%live_elem]. by apply not_elem_of_nil in Hl.
  - rewrite flow_run_snoc. apply store_ok_step; [done | apply states_ok_run |].
    apply IH. by eapply ids_respect_keys_prefix.
Qed.

(** ** Properties *)

(** C3. After any flow of inserts and cancellations in which an order id belongs to
    one replacement key, the replacement manager in front of an order store
    holds, per key, the state of the event with the highest sequence number
    (the earliest among equals), and the store holds exactly the live
    orders: those without key, and the winners of their keys that are no
    cancellations. *)
Theorem manager_refines_winners (es : list FlowEvent) :
  ids_respect_keys es ->
  let m := flow_run (OrderReplacementManager_new OrderStore_new) es in
  (forall k st, replacement_states m !! k = Some st <->
     exists i seq p, is_winner es k i seq p /\ st = winner_state seq p)
  /\ (forall id o, orders (rm_sink m) !! id = Some o <-> Order_id o = id /\ live es o).
Proof.
  intros Hids m. split; [| by apply store_ok_run]. intros k st. apply manager_states_lookup.
Qed.

(** A flow without ambiguity: ids respect keys, two events of a key with the
    same sequence number say the same, and an id without key is one order. *)
Record flow_unambiguous (es : list FlowEvent) : Prop := {
  fu_ids : ids_respect_keys es;
  fu_seqs : forall e e' k seq p p', e ∈ es -> e' ∈ es ->
    event_update e = Some (k, seq, p) -> event_update e' = Some (k, seq, p') -> p = p';
  fu_unkeyed : forall o o', Ev_Insert o ∈ es -> Ev_Insert o' ∈ es -> replacement_key o = None ->
    Order_id o = Order_id o' -> o = o';
}.

(** Without ambiguity the position of an event does not matter. *)
Lemma winner_unambiguous es k seq p :
  flow_unambiguous es ->
  (exists i, is_winner es k i seq p) <->
  (exists e, e ∈ es /\ event_update e = Some (k, seq, p))
  /\ forall e seq' p', e ∈ es -> event_update e = Some (k, seq', p') -> seq' <= seq.
Proof.
  intros Hfu. split.
  - intros (i & (e & He & Hu) & Hall). split; [exists e; split; [by eapply list_elem_of_lookup_2 | done] |].
    intros e' seq' p' [j Hj]%list_elem_of_lookup Hu'. by eapply Hall.
  - intros [(e & Hin & Hu) Hmax].
    pose proof (states_ok_run es OrderStore_new k) as Hk.
    apply list_elem_of_lookup in Hin as [j Hj].
    destruct (replacement_states _ !! k) as [st |]; [| by destruct (Hk _ _ _ _ Hj Hu)].
    destruct Hk as (i & seq0 & p0 & Hw & _). exists i.
    pose proof Hw as [(e0 & He0 & Hu0) Hall].
    assert (seq0 = seq) as ->.
    { destruct (Hall _ _ _ _ Hj Hu) as [_ ?]. apply list_elem_of_lookup_2 in He0.
      pose proof (Hmax _ _ _ He0 Hu0). lia. }
    by rewrite (fu_seqs _ Hfu e e0 k seq p p0) by (done || by eapply list_elem_of_lookup_2).
Qed.

#[local] Instance inserts_id_dec e o :
  Decision (exists o', e = Ev_Insert o' /\ Order_id o' = Order_id o).
Proof.
  destruct e as [o' | |]; [| right; by intros (? & [=] & _)..].
  destruct (decide (Order_id o' = Order_id o)); [left; eauto | right; by intros (? & [= ->] & ?)].
Defined.

Lemma last_insert_exists es o :
  Ev_Insert o ∈ es -> exists o', last_insert es o' /\ Order_id o = Order_id o'.
Proof.
  induction es as [| e es IH] using rev_ind; intros Hin; [by apply not_elem_of_nil in Hin |].
  destruct (decide (exists o', e = Ev_Insert o' /\ Order_id o' = Order_id o)) as [(o' & -> & Hid) | Hno].
  - exists o'. split; [| done]. exists (length es). split; [apply lookup_snoc_Some; by right |].
    intros j o'' [Hj | [-> _]]%lookup_snoc_Some; [apply lookup_lt_Some in Hj |]; lia.
  - apply elem_of_app in Hin as [Hin | Hin%list_elem_of_singleton]; [| destruct Hno; by exists o].
    destruct (IH Hin) as (o' & (i & Hi & Hall) & Hid). exists o'. split; [| done].
    exists i. split; [apply lookup_snoc_Some; by left |].
    intros j o'' [Hj | [-> ->]]%lookup_snoc_Some Hlt Heq; [by eapply Hall |].
    apply Hno. exists o''. split; [done | congruence].
Qed.

Lemma flow_unambiguous_perm es es' : flow_unambiguous es -> es ≡ₚ es' -> flow_unambiguous es'.
Proof.
  intros [H1 H2 H3] Hp. split.
  - intros o o'. rewrite <- Hp. apply H1.
  - intros e e' k seq p p'. rewrite <- Hp. apply H2.
  - intros o o'. rewrite <- Hp. apply H3.
Qed.

Lemma live_unambiguous es o :
  flow_unambiguous es ->
  live es o <-> Ev_Insert o ∈ es /\
    match replacement_key_and_sequence_number o with
    | None => True
    | Some (k, seq) =>
        forall e seq' p', e ∈ es -> event_update e = Some (k, seq', p') -> seq' <= seq
    end.
Proof.
  intros Hfu. unfold live. destruct (replacement_key_and_sequence_number o) as [[k seq] |] eqn:Hk.
  - rewrite winner_unambiguous by done. f_equiv. split.
    + intros (e & He & Hu). by apply update_order_key in Hu as [-> _].
    + intros He. exists (Ev_Insert o). split; [done |]. simpl. by rewrite Hk.
  - split; [intros (i & Hi & _); split; [by eapply list_elem_of_lookup_2 | done] |].
    intros [Hin _]. destruct (last_insert_exists es o Hin) as (o' & Hl & Hid).
    assert (Hin' : Ev_Insert o' ∈ es) by (destruct Hl as (i & Hi & _); by eapply list_elem_of_lookup_2).
    rewrite (fu_unkeyed _ Hfu o o'); try done. unfold replacement_key. by rewrite Hk.
Qed.

Lemma winner_perm es es' k seq p :
  flow_unambiguous es -> es ≡ₚ es' ->
  (exists i, is_winner es k i seq p) <-> (exists i, is_winner es' k i seq p).
Proof.
  intros Hfu Hp. rewrite winner_unambiguous by done.
  rewrite winner_unambiguous by (by eapply flow_unambiguous_perm). by setoid_rewrite Hp.
Qed.

Lemma manager_order_agrees (es es' : list FlowEvent) :
  flow_unambiguous es -> es ≡ₚ es' ->
  let m := flow_run (OrderReplacementManager_new OrderStore_new) in
  replacement_states (m es) = replacement_states (m es')
  /\ orders (rm_sink (m es)) = orders (rm_sink (m es')).
Proof.
  intros Hfu Hp m. pose proof (flow_unambiguous_perm _ _ Hfu Hp) as Hfu'. split.
  - apply map_eq. intros k. apply option_eq. intros st. subst m.
    rewrite !manager_states_lookup.
    split; intros (i & seq & p & Hw & ->);
      destruct (winner_perm _ _ k seq p Hfu Hp) as [H1 H2].
    + destruct (H1 ltac:(by exists i)) as [i' Hw']. by exists i', seq, p.
    + destruct (H2 ltac:(by exists i)) as [i' Hw']. by exists i', seq, p.
  - apply map_eq. intros id. apply option_eq. intros o. subst m.
    rewrite (store_ok_run es (fu_ids _ Hfu) id o), (store_ok_run es' (fu_ids _ Hfu') id o).
    rewrite !live_unambiguous by done.
    destruct (replacement_key_and_sequence_number o) as [[k seq] |]; by setoid_rewrite Hp.
Qed.

(** For an unambiguous flow the final replacement states and live orders do not
    depend on the order in which inserts and cancellations arrive. *)
Theorem manager_order_independent (es es' : list FlowEvent) :
  flow_unambiguous es -> es ≡ₚ es' ->
  let m := flow_run (OrderReplacementManager_new OrderStore_new) in
  replacement_states (m es) = replacement_states (m es')
  /\ orders (rm_sink (m es)) = orders (rm_sink (m es')).
Proof. apply manager_order_agrees. Qed.

(** ** Instances of the theorems *)

(** Sequence number 2 arrives first, then 1, then a late cancellation with 1. *)
Definition sample_flow : list FlowEvent :=
  [Ev_Insert (sample_replaceable 20 2); Ev_Insert (sample_mempool 3 1 0);
   Ev_Insert (sample_replaceable 10 1);
   Ev_RemoveBundle {| rd_key := sample_key; rd_sequence_number := 1 |}].

Lemma sample_flow_orders o :
  Ev_Insert o ∈ sample_flow ->
  o = sample_replaceable 20 2 \/ o = sample_mempool 3 1 0 \/ o = sample_replaceable 10 1.
Proof. unfold sample_flow. rewrite !elem_of_cons, elem_of_nil. naive_solver. Qed.

Lemma sample_flow_ids : ids_respect_keys sample_flow.
Proof.
  intros o o' Ho%sample_flow_orders Ho'%sample_flow_orders.
  destruct Ho as [-> | [-> | ->]], Ho' as [-> | [-> | ->]]; vm_compute; congruence.
Qed.

Lemma manager_refines_winners_witness :
  ids_respect_keys sample_flow /\ live sample_flow (sample_replaceable 20 2).
Proof.
  split; [exact sample_flow_ids |].
  apply (proj2 (manager_refines_winners sample_flow sample_flow_ids) (Id_Bundle 20)).
  vm_compute. reflexivity.
Defined.

Lemma sample_flow_unambiguous_tail : flow_unambiguous (take 3 sample_flow).
Proof.
  assert (Hsub : forall e, e ∈ take 3 sample_flow -> e ∈ sample_flow).
  { intros e He. rewrite <- (take_drop 3 sample_flow). apply elem_of_app. by left. }
  split.
  - intros o o' Ho%Hsub Ho'%Hsub. by apply sample_flow_ids.
  - intros e e' k seq p p'. simpl. rewrite !elem_of_cons, !elem_of_nil.
    intros [-> | [-> | [-> | []]]] [-> | [-> | [-> | []]]]; intros H1 H2; simplify_eq/=; done.
  - intros o o' Ho%Hsub%sample_flow_orders Ho'%Hsub%sample_flow_orders.
    destruct Ho as [-> | [-> | ->]], Ho' as [-> | [-> | ->]]; vm_compute; congruence.
Qed.

Lemma manager_order_independent_witness :
  orders (rm_sink (run_with_store (take 3 sample_flow)))
  = orders (rm_sink (run_with_store (reverse (take 3 sample_flow)))).
Proof.
  apply (manager_order_independent (take 3 sample_flow) (reverse (take 3 sample_flow))).
  - exact sample_flow_unambiguous_tail.
  - symmetry. apply reverse_Permutation.
Defined.
