(* ===== verification/OrderPool.v ===== *)
(** * The order pool (live_builder/order_input/orderpool.rs, mod.rs)

    The repository of every order and cancellation received.  A block's sink
    is replayed the stored events that concern its block when it subscribes,
    and receives the later ones as they arrive. *)

From S2P Require Import Prelude Transactions Bundles Orders OrderCodec SimTypes Samples OrderSinks ReplacementManager.

(** ** Commands *)
Inductive ReplaceableOrderPoolCommand :=
| Pool_Order (o : Order)
| Pool_CancelShareBundle (c : CancelShareBundle)
| Pool_CancelBundle (d : ReplacementData BundleReplacementKey).

Definition command_target_block (c : ReplaceableOrderPoolCommand) : option U64 :=
  match c with
  | Pool_Order o => target_block o
  | Pool_CancelShareBundle c => Some (csb_block c)
  | Pool_CancelBundle _ => None
  end.

(** The two filters of the pool's task, by configuration flag. *)
Definition is_cancellable (c : ReplaceableOrderPoolCommand) : bool :=
  match c with
  | Pool_Order o => bool_decide (is_Some (replacement_key o))
  | Pool_CancelShareBundle _ | Pool_CancelBundle _ => true
  end.

Definition command_has_blobs (c : ReplaceableOrderPoolCommand) : bool :=
  match c with
  | Pool_Order o => has_blobs o
  | Pool_CancelShareBundle _ | Pool_CancelBundle _ => false
  end.

Definition filter_commands (ignore_cancellable_orders ignore_blobs : bool)
    (cs : list ReplaceableOrderPoolCommand) : list ReplaceableOrderPoolCommand :=
  let cs := if ignore_cancellable_orders then filter (fun c => is_cancellable c = false) cs else cs in
  if ignore_blobs then filter (fun c => command_has_blobs c = false) cs else cs.

(** ** The cache of known orders

    [LruCache] is a third-party container; the pool needs only that a key it
    reports was put there. *)
Class LruCache (K C : Type) := {
  lru_new : C;
  lru_contains : C -> K -> bool;
  lru_put : C -> K -> C;
}.

Class LruCacheOk (K C : Type) `{LruCache K C} : Prop := {
  lru_contains_new k : lru_contains lru_new k = false;
  lru_contains_put c k k' : lru_contains (lru_put c k) k' = true ->
    k = k' \/ lru_contains c k' = true;
}.

(** ** State *)
Record BundleBlockStore := {
  bundles : list Order;
  cancelled_sbundles : list ShareBundleReplacementKey;
}.
Definition BundleBlockStore_default : BundleBlockStore :=
  {| bundles := []; cancelled_sbundles := [] |}.

Record SinkSubscription (S : Type) := { sub_sink : S; sub_block_number : U64 }.
Arguments sub_sink {_} _.
Arguments sub_block_number {_} _.
Arguments Build_SinkSubscription {_} _ _.

(** Times are instants of a monotonic clock, durations differences of them. *)
Record OrderPool (S C : Type) := {
  mempool_txs : list (Order * Z);
  mempool_txs_size : Z;
  bundle_cancellations : list (ReplacementData BundleReplacementKey * Z);
  bundles_by_target_block : gmap U64 BundleBlockStore;
  bundles_for_current_block : list Order;
  known_orders : C;
  sinks : gmap U64 (SinkSubscription S);
  next_sink_id : U64;
  time_to_keep_mempool_txs : Z;
}.
Arguments mempool_txs {_ _} _.
Arguments mempool_txs_size {_ _} _.
Arguments bundle_cancellations {_ _} _.
Arguments bundles_by_target_block {_ _} _.
Arguments bundles_for_current_block {_ _} _.
Arguments known_orders {_ _} _.
Arguments sinks {_ _} _.
Arguments next_sink_id {_ _} _.
Arguments time_to_keep_mempool_txs {_ _} _.
Arguments Build_OrderPool {_ _}.

Definition TIME_TO_KEEP_BUNDLE_CANCELLATIONS : Z := 60 * 1000000000.

Section pool.
Context {S C : Type} `{ReplaceableOrderSink S} `{LruCache (OrderId * U64) C}.
Context (sidecar_size : BlobTransactionSidecarVariant -> Z) (metadata_size : Z).
Implicit Types p : OrderPool S C.

Definition OrderPool_new (time_to_keep : Z) : OrderPool S C :=
  Build_OrderPool [] 0 [] ∅ [] lru_new ∅ 0 time_to_keep.

Definition measure_tx (o : Order) : Z :=
  match o with
  | Order_Tx tx => MempoolTx_size sidecar_size metadata_size tx
  | Order_Bundle _ => 0
  | Order_ShareBundle _ => 0
  end.

(** [entry(block).or_default().bundles.push(order)] *)
Definition push_bundle (m : gmap U64 BundleBlockStore) (block : U64) (o : Order)
  : gmap U64 BundleBlockStore :=
  let st := default BundleBlockStore_default (m !! block) in
  <[block := {| bundles := bundles st ++ [o]; cancelled_sbundles := cancelled_sbundles st |}]> m.

Definition process_order p (now : Z) (o : Order) : OrderPool S C :=
  if lru_contains (known_orders p) (Order_id o, default 0 (target_block o)) then p
  else
    let '(p, block) :=
      match o with
      | Order_Tx _ =>
          (Build_OrderPool (mempool_txs p ++ [(o, now)])
             (u64_add (mempool_txs_size p) (measure_tx o)) (bundle_cancellations p)
             (bundles_by_target_block p) (bundles_for_current_block p) (known_orders p)
             (sinks p) (next_sink_id p) (time_to_keep_mempool_txs p), None)
      | Order_Bundle b =>
          match b_block b with
          | Some block =>
              (Build_OrderPool (mempool_txs p) (mempool_txs_size p) (bundle_cancellations p)
                 (push_bundle (bundles_by_target_block p) block o)
                 (bundles_for_current_block p) (known_orders p)
                 (sinks p) (next_sink_id p) (time_to_keep_mempool_txs p), Some block)
          | None =>
              (Build_OrderPool (mempool_txs p) (mempool_txs_size p) (bundle_cancellations p)
                 (bundles_by_target_block p) (bundles_for_current_block p ++ [o]) (known_orders p)
                 (sinks p) (next_sink_id p) (time_to_keep_mempool_txs p), None)
          end
      | Order_ShareBundle b =>
          (Build_OrderPool (mempool_txs p) (mempool_txs_size p) (bundle_cancellations p)
             (push_bundle (bundles_by_target_block p) (sb_block b) o)
             (bundles_for_current_block p) (known_orders p)
             (sinks p) (next_sink_id p) (time_to_keep_mempool_txs p), Some (sb_block b))
      end in
    Build_OrderPool (mempool_txs p) (mempool_txs_size p) (bundle_cancellations p)
      (bundles_by_target_block p) (bundles_for_current_block p)
      (lru_put (known_orders p) (Order_id o, default 0 block))
      (sinks p) (next_sink_id p) (time_to_keep_mempool_txs p).

Definition process_remove_sbundle p (c : CancelShareBundle) : OrderPool S C :=
  let m := bundles_by_target_block p in
  let st := default BundleBlockStore_default (m !! csb_block c) in
  Build_OrderPool (mempool_txs p) (mempool_txs_size p) (bundle_cancellations p)
    (<[csb_block c := {| bundles := bundles st;
                         cancelled_sbundles := cancelled_sbundles st ++ [csb_key c] |}]> m)
    (bundles_for_current_block p) (known_orders p) (sinks p) (next_sink_id p)
    (time_to_keep_mempool_txs p).

Definition process_remove_bundle p (now : Z) (d : ReplacementData BundleReplacementKey)
  : OrderPool S C :=
  Build_OrderPool (mempool_txs p) (mempool_txs_size p) (bundle_cancellations p ++ [(d, now)])
    (bundles_by_target_block p) (bundles_for_current_block p) (known_orders p)
    (sinks p) (next_sink_id p) (time_to_keep_mempool_txs p).

(** The call a command makes on a sink. *)
Definition command_event (c : ReplaceableOrderPoolCommand) : FlowEvent :=
  match c with
  | Pool_Order o => Ev_Insert o
  | Pool_CancelShareBundle c => Ev_RemoveSbundle (csb_key c)
  | Pool_CancelBundle d => Ev_RemoveBundle d
  end.

(** The closure given to [retain]: [None] drops the subscription. *)
Definition notify_sink (c : ReplaceableOrderPoolCommand) (sub : SinkSubscription S)
  : option (SinkSubscription S) :=
  if negb (r_is_alive (sub_sink sub)) then None
  else if bool_decide (command_target_block c = None)
          || bool_decide (command_target_block c = Some (sub_block_number sub))
  then
    let '(sink, send_ok) := flow_step (sub_sink sub) (command_event c) in
    if send_ok then Some (Build_SinkSubscription sink (sub_block_number sub)) else None
  else Some sub.

Definition set_sinks p (s : gmap U64 (SinkSubscription S)) : OrderPool S C :=
  Build_OrderPool (mempool_txs p) (mempool_txs_size p) (bundle_cancellations p)
    (bundles_by_target_block p) (bundles_for_current_block p) (known_orders p) s
    (next_sink_id p) (time_to_keep_mempool_txs p).

Definition process_command p (now : Z) (c : ReplaceableOrderPoolCommand) : OrderPool S C :=
  let p := match c with
           | Pool_Order o => process_order p now o
           | Pool_CancelShareBundle c => process_remove_sbundle p c
           | Pool_CancelBundle d => process_remove_bundle p now d
           end in
  set_sinks p (omap (notify_sink c) (sinks p)).

(** Each command reads the clock; [cs] pairs a command with its time. *)
Definition process_commands p (cs : list (ReplaceableOrderPoolCommand * Z)) : OrderPool S C :=
  foldl (fun p c => process_command p c.2 c.1) p cs.

(** The calls [add_sink] makes on the new sink, in their order. *)
Definition replay_events p (block_number : U64) : list FlowEvent :=
  ((fun x => Ev_Insert x.1) <$> mempool_txs p)
  ++ ((fun x => Ev_RemoveBundle x.1) <$> bundle_cancellations p)
  ++ match bundles_by_target_block p !! block_number with
     | Some st => (Ev_Insert <$> bundles st) ++ (Ev_RemoveSbundle <$> cancelled_sbundles st)
     | None => []
     end
  ++ (Ev_Insert <$> bundles_for_current_block p).

Definition add_sink p (block_number : U64) (sink : S) : OrderPool S C * U64 :=
  let sink := flow_run sink (replay_events p block_number) in
  let res := next_sink_id p in
  (Build_OrderPool (mempool_txs p) (mempool_txs_size p) (bundle_cancellations p)
     (bundles_by_target_block p) (bundles_for_current_block p) (known_orders p)
     (<[res := Build_SinkSubscription sink block_number]> (sinks p))
     (u64_add (next_sink_id p) 1) (time_to_keep_mempool_txs p), res).

Definition remove_sink p (id : U64) : OrderPool S C * option S :=
  (set_sinks p (delete id (sinks p)), sub_sink <$> sinks p !! id).

(** [account_nonce]: an error and a missing account both read as nonce 0. *)
Definition onchain_nonce (account_nonce : Address -> result (option U64) unit) (a : Address) : U64 :=
  match account_nonce a with
  | Ok (Some n) => n
  | Ok None => 0
  | Err _ => 0
  end.

Fixpoint nonces_valid (account_nonce : Address -> result (option U64) unit) (ns : list Nonce) : bool :=
  match ns with
  | [] => true
  | n :: ns =>
      if nonce_optional n then nonces_valid account_nonce ns
      else if decide (onchain_nonce account_nonce (nonce_address n) > nonce_nonce n) then false
      else nonces_valid account_nonce ns
  end.

(** [Instant::elapsed] saturates at zero. *)
Definition elapsed (now t : Z) : Z := saturating_sub now t.

Definition must_retain_order (now inserted : Z) (o : Order)
    (account_nonce : Address -> result (option U64) unit) (time_to_keep : Z) : bool :=
  if decide (elapsed now inserted > time_to_keep) then false
  else nonces_valid account_nonce (Order_nonces o).

(** [retain] over the mempool, subtracting the size of what it drops. *)
Fixpoint retain_mempool (now : Z) (account_nonce : Address -> result (option U64) unit)
    (time_to_keep : Z) (txs : list (Order * Z)) (size : Z) : list (Order * Z) * Z :=
  match txs with
  | [] => ([], size)
  | (o, t) :: txs =>
      if must_retain_order now t o account_nonce time_to_keep
      then let '(kept, size) := retain_mempool now account_nonce time_to_keep txs size in
           ((o, t) :: kept, size)
      else retain_mempool now account_nonce time_to_keep txs (u64_sub size (measure_tx o))
  end.

Fixpoint drop_old_cancellations (now : Z) (l : list (ReplacementData BundleReplacementKey * Z)) :=
  match l with
  | (d, t) :: l' =>
      if decide (elapsed now t < TIME_TO_KEEP_BUNDLE_CANCELLATIONS) then l
      else drop_old_cancellations now l'
  | [] => []
  end.

Definition head_updated p (now : Z) (new_block_number : U64)
    (account_nonce : Address -> result (option U64) unit) : OrderPool S C :=
  let '(txs, size) := retain_mempool now account_nonce (time_to_keep_mempool_txs p)
                        (mempool_txs p) (mempool_txs_size p) in
  Build_OrderPool txs size (drop_old_cancellations now (bundle_cancellations p))
    (filter (fun kv => kv.1 > new_block_number) (bundles_by_target_block p)) []
    (known_orders p) (sinks p) (next_sink_id p) (time_to_keep_mempool_txs p).

Definition content_count p : nat * nat :=
  (length (mempool_txs p),
   sum_list (map (fun kv => length (bundles kv.2)) (map_to_list (bundles_by_target_block p)))).

End pool.

(** ** Reachable pools *)
Section pool_facts.
Context {S C : Type} `{ReplaceableOrderSink S} `{LruCache (OrderId * U64) C}.
Context (sidecar_size : BlobTransactionSidecarVariant -> Z) (metadata_size : Z).
Implicit Types p : OrderPool S C.

Abbreviation measure := (measure_tx sidecar_size metadata_size).

(** The pool's life: commands, subscriptions and new heads in any order. *)
Inductive pool_step : OrderPool S C -> OrderPool S C -> Prop :=
| step_command p now c : pool_step p (process_command sidecar_size metadata_size p now c)
| step_add_sink p block sink : pool_step p (add_sink p block sink).1
| step_remove_sink p id : pool_step p (remove_sink p id).1
| step_head p now block account_nonce :
    pool_step p (head_updated sidecar_size metadata_size p now block account_nonce).

Inductive pool_reachable (keep : Z) : OrderPool S C -> Prop :=
| reach_new : pool_reachable keep (OrderPool_new keep)
| reach_step p p' : pool_reachable keep p -> pool_step p p' -> pool_reachable keep p'.

Definition mempool_sum (txs : list (Order * Z)) : Z :=
  foldr (fun x acc => measure x.1 + acc) 0 txs.

(** The cached size is the sum of the sizes; every order is filed where its
    target block says. *)
Record pool_inv p : Prop := {
  pi_size : mempool_txs_size p = wrap 64 (mempool_sum (mempool_txs p));
  pi_mempool : Forall (fun x => is_tx x.1 = true) (mempool_txs p);
  pi_current : Forall (fun o => is_tx o = false /\ target_block o = None) (bundles_for_current_block p);
  pi_blocks : map_Forall (fun b st => Forall (fun o => target_block o = Some b) (bundles st))
                (bundles_by_target_block p);
}.

Lemma mempool_sum_app l k : mempool_sum (l ++ k) = mempool_sum l + mempool_sum k.
Proof. induction l as [| x l IH]; simpl; lia. Qed.

Lemma push_bundle_blocks m block o :
  target_block o = Some block ->
  map_Forall (fun b st => Forall (fun o => target_block o = Some b) (bundles st)) m ->
  map_Forall (fun b st => Forall (fun o => target_block o = Some b) (bundles st))
    (push_bundle m block o).
Proof.
  intros Ho Hm. apply map_Forall_insert_2; [| done]. simpl. apply Forall_app. split; [| by constructor].
  destruct (m !! block) eqn:Hb; simpl; [by apply Hm | constructor].
Qed.

Lemma process_order_inv p now o :
  pool_inv p -> pool_inv (process_order sidecar_size metadata_size p now o).
Proof.
  intros [H1 H2 H3 H4]. unfold process_order. destruct (lru_contains _ _); [done |].
  destruct o as [b | tx | sb].
  - destruct (b_block b) as [block |] eqn:Hb; split; simpl; try done.
    + apply push_bundle_blocks; [done | done].
    + apply Forall_app. split; [done | by repeat constructor].
  - split; simpl; try done.
    + rewrite H1, mempool_sum_app. simpl. unfold u64_add, wrap.
      rewrite Zplus_mod_idemp_l. f_equal. lia.
    + apply Forall_app. split; [done | by repeat constructor].
  - split; simpl; try done. by apply push_bundle_blocks.
Qed.

Lemma retain_mempool_spec now account_nonce keep txs size :
  let r := retain_mempool sidecar_size metadata_size now account_nonce keep txs size in
  r.1 = filter (fun x => must_retain_order now x.2 x.1 account_nonce keep = true) txs
  /\ (forall z, size = wrap 64 (z + mempool_sum txs) -> r.2 = wrap 64 (z + mempool_sum r.1)).
Proof.
  revert size. induction txs as [| [o t] txs IH]; intros size; simpl.
  { split; [done |]. intros z ->. simpl. done. }
  destruct (must_retain_order _ _ _ _ _) eqn:Hr.
  - specialize (IH size). destruct (retain_mempool _ _ _ _ _ txs size) as [kept sz]; simpl in *.
    destruct IH as [-> IH]. split; [by rewrite filter_cons_True |].
    intros z Hz. rewrite (IH (z + measure o)); [f_equal; simpl; lia | rewrite Hz; f_equal; lia].
  - specialize (IH (u64_sub size (measure o))). destruct IH as [-> IH].
    split; [by rewrite filter_cons_False by (simpl; congruence) |].
    intros z Hz. apply IH. rewrite Hz. unfold u64_sub, wrap.
    rewrite Zminus_mod_idemp_l. f_equal. lia.
Qed.

Lemma head_updated_inv p now block account_nonce :
  pool_inv p -> pool_inv (head_updated sidecar_size metadata_size p now block account_nonce).
Proof.
  intros [H1 H2 H3 H4]. unfold head_updated.
  pose proof (retain_mempool_spec now account_nonce (time_to_keep_mempool_txs p)
                (mempool_txs p) (mempool_txs_size p)) as Hspec.
  destruct (retain_mempool _ _ _ _ _ _ _) as [txs size]. destruct Hspec as [Htxs Hsize]. simpl in *.
  split; simpl.
  - by rewrite (Hsize 0 H1).
  - rewrite Htxs, Forall_forall. intros x [_ Hx]%list_elem_of_filter.
    rewrite Forall_forall in H2. auto.
  - constructor.
  - intros b st Hst. apply map_lookup_filter_Some in Hst as [Hst _]. by apply (H4 b).
Qed.

Lemma process_remove_sbundle_inv p c : pool_inv p -> pool_inv (process_remove_sbundle p c).
Proof.
  intros [H1 H2 H3 H4]. split; simpl; try done. apply map_Forall_insert_2; [| done]. simpl.
  destruct (bundles_by_target_block p !! csb_block c) eqn:Hb; simpl; [by apply H4 | constructor].
Qed.

Lemma pool_step_inv p p' : pool_inv p -> pool_step p p' -> pool_inv p'.
Proof.
  intros Hinv Hstep. destruct Hstep as [p now c | p block sink | p id | p now block an].
  - unfold process_command. destruct c as [o | c | d].
    + by destruct (process_order_inv p now o Hinv).
    + by destruct (process_remove_sbundle_inv p c Hinv).
    + by destruct Hinv.
  - by destruct Hinv.
  - by destruct Hinv.
  - by apply head_updated_inv.
Qed.

(** In every reachable pool the cached size of the mempool is the sum of the
    sizes of its transactions, modulo 2^64, and every order is filed under
    its kind and target block. *)
Theorem pool_invariant keep p : pool_reachable keep p -> pool_inv p.
Proof.
  induction 1 as [| p p' _ IH Hstep]; [| by eapply pool_step_inv].
  split; simpl; try done; constructor.
Qed.

Lemma nonces_valid_spec account_nonce ns :
  nonces_valid account_nonce ns = true <->
  forall n, n ∈ ns -> nonce_optional n = false ->
    onchain_nonce account_nonce (nonce_address n) <= nonce_nonce n.
Proof.
  induction ns as [| n ns IH]; simpl.
  { split; [intros _ n Hn; by apply not_elem_of_nil in Hn | done]. }
  setoid_rewrite elem_of_cons. destruct (nonce_optional n) eqn:Hopt; [| case_decide as Hgt].
  - rewrite IH. split; intros Hall n' Hn' Hopt'; [destruct Hn' as [-> | ?]; [congruence |] |]; auto.
  - split; [done |]. intros Hall. specialize (Hall n (or_introl eq_refl) Hopt). lia.
  - rewrite IH. split; intros Hall n' Hn' Hopt'; [destruct Hn' as [-> | ?]; [lia |] |]; auto.
Qed.

(** The cancellations are stored in order of arrival. *)
Lemma drop_old_cancellations_spec now l :
  StronglySorted (fun x y => x.2 <= y.2) l ->
  drop_old_cancellations now l
  = filter (fun x => elapsed now x.2 < TIME_TO_KEEP_BUNDLE_CANCELLATIONS) l.
Proof.
  induction 1 as [| [d t] l Hs IH Hall]; [done |]. simpl. case_decide as Ht.
  - rewrite filter_cons_True by done. f_equal. symmetry. apply filter_all.
    eapply Forall_impl; [done |]. intros x Hx. simpl in *. unfold elapsed, saturating_sub in *. lia.
  - by rewrite filter_cons_False.
Qed.

(** After a new head the pool keeps exactly the mempool transactions that are
    young enough and whose mandatory nonces are not below the on-chain ones,
    the young cancellations and the bundles of later blocks. *)
Theorem head_updated_spec p now block account_nonce :
  StronglySorted (fun x y => x.2 <= y.2) (bundle_cancellations p) ->
  let p' := head_updated sidecar_size metadata_size p now block account_nonce in
  (forall x, x ∈ mempool_txs p' <-> x ∈ mempool_txs p
     /\ elapsed now x.2 <= time_to_keep_mempool_txs p
     /\ forall n, n ∈ Order_nonces x.1 -> nonce_optional n = false ->
          onchain_nonce account_nonce (nonce_address n) <= nonce_nonce n)
  /\ (forall x, x ∈ bundle_cancellations p' <->
       x ∈ bundle_cancellations p /\ elapsed now x.2 < TIME_TO_KEEP_BUNDLE_CANCELLATIONS)
  /\ (forall b, bundles_by_target_block p' !! b
       = if decide (b > block) then bundles_by_target_block p !! b else None)
  /\ bundles_for_current_block p' = [].
Proof.
  intros Hsorted p'. subst p'. unfold head_updated.
  pose proof (retain_mempool_spec now account_nonce (time_to_keep_mempool_txs p)
                (mempool_txs p) (mempool_txs_size p)) as [Htxs _].
  destruct (retain_mempool _ _ _ _ _ _ _) as [txs size]. simpl in *. subst txs. split_and!.
  - intros x. rewrite list_elem_of_filter. unfold must_retain_order.
    case_decide; rewrite ?nonces_valid_spec; naive_solver lia.
  - intros x. rewrite drop_old_cancellations_spec, list_elem_of_filter by done. tauto.
  - intros b. destruct (bundles_by_target_block p !! b) as [st |] eqn:Hb; case_decide.
    + by apply map_lookup_filter_Some.
    + apply map_lookup_filter_None. right. intros st' Hst'. simpl. congruence.
    + apply map_lookup_filter_None. by left.
    + apply map_lookup_filter_None. by left.
  - done.
Qed.

(** ** Late and early subscribers *)

(** The events of a block's flow: those without target block, and its own. *)
Definition event_for_block (b : U64) (c : ReplaceableOrderPoolCommand) : option FlowEvent :=
  if decide (command_target_block c = None \/ command_target_block c = Some b)
  then Some (command_event c) else None.

Definition flow_for_block (b : U64) (cs : list (ReplaceableOrderPoolCommand * Z)) : list FlowEvent :=
  omap (fun c => event_for_block b c.1) cs.

(** The key under which the pool remembers an order. *)
Definition known_key (c : ReplaceableOrderPoolCommand) : option (OrderId * U64) :=
  match c with
  | Pool_Order o => Some (Order_id o, default 0 (target_block o))
  | _ => None
  end.
Definition known_keys (cs : list (ReplaceableOrderPoolCommand * Z)) : list (OrderId * U64) :=
  omap (fun c => known_key c.1) cs.

Lemma decide_or_None_Some {A} (block b : U64) (x y : A) :
  (if decide (Some block = None \/ Some block = Some b) then x else y)
  = if decide (block = b) then x else y.
Proof. repeat case_decide; try done; naive_solver. Qed.

Lemma block_part_push m block o b :
  match push_bundle m block o !! b with
  | Some st => (Ev_Insert <$> bundles st) ++ (Ev_RemoveSbundle <$> cancelled_sbundles st)
  | None => []
  end ≡ₚ
  match m !! b with
  | Some st => (Ev_Insert <$> bundles st) ++ (Ev_RemoveSbundle <$> cancelled_sbundles st)
  | None => []
  end ++ (if decide (block = b) then [Ev_Insert o] else []).
Proof.
  unfold push_bundle. case_decide as Hb.
  - subst b. rewrite lookup_insert_eq. destruct (m !! block) as [st |]; simpl; [| done].
    rewrite fmap_app. apply perm_snoc_middle.
  - rewrite lookup_insert_ne by done. by rewrite app_nil_r.
Qed.

Lemma process_order_fresh p now o :
  lru_contains (known_orders p) (Order_id o, default 0 (target_block o)) = false ->
  let p' := process_order sidecar_size metadata_size p now o in
  known_orders p' = lru_put (known_orders p) (Order_id o, default 0 (target_block o))
  /\ sinks p' = sinks p
  /\ forall b, replay_events p' b ≡ₚ
       replay_events p b ++ option_list (event_for_block b (Pool_Order o)).
Proof.
  intros Hfresh. unfold process_order. rewrite Hfresh. unfold event_for_block, command_target_block, replay_events.
  destruct o as [bu | tx | sb]; simpl.
  - destruct (b_block bu) as [block |] eqn:Hb; simpl; (split_and!; [done | done |]); intros b.
    + rewrite block_part_push. rewrite decide_or_None_Some.
      case_decide; simpl; rewrite ?app_nil_r; [| done].
      solve_Permutation.
    + rewrite ?decide_True by (by left). simpl. by rewrite fmap_app, !app_assoc.
  - split_and!; [done | done |]. intros b. rewrite ?decide_True by (by left). simpl.
    rewrite fmap_app. apply perm_snoc_middle.
  - split_and!; [done | done |]. intros b. rewrite block_part_push, decide_or_None_Some.
    case_decide; simpl; rewrite ?app_nil_r; [| done].
    solve_Permutation.
Qed.

Lemma replay_process_command p now c b :
  (forall k, known_key c = Some k -> lru_contains (known_orders p) k = false) ->
  replay_events (process_command sidecar_size metadata_size p now c) b
  ≡ₚ replay_events p b ++ option_list (event_for_block b c).
Proof.
  intros Hfresh. destruct c as [o | c | d].
  - pose proof (process_order_fresh p now o (Hfresh _ eq_refl)) as (_ & _ & Hr). by rewrite <- Hr.
  - unfold event_for_block, replay_events. simpl. rewrite decide_or_None_Some.
    destruct (decide (csb_block c = b)) as [<- | Hne].
    + rewrite lookup_insert_eq. simpl. destruct (bundles_by_target_block p !! csb_block c); simpl;
        rewrite ?fmap_app; solve_Permutation.
    + rewrite lookup_insert_ne by done. simpl. by rewrite app_nil_r.
  - unfold event_for_block, replay_events. simpl. rewrite ?decide_True by (by left). simpl.
    rewrite fmap_app. solve_Permutation.
Qed.

End pool_facts.

(** A sink that never fails; the pool keeps such a sink subscribed. *)
Class ReliableSink (S : Type) `{ReplaceableOrderSink S} : Prop := {
  reliable_step s e : (flow_step s e).2 = true;
  reliable_alive s : r_is_alive s = true;
}.

#[export] Instance manager_store_reliable : ReliableSink (OrderReplacementManager OrderStore).
Proof.
  split; [| done]. intros m [o | d | k]; simpl.
  - unfold manager_insert_order, state_insert_order.
    destruct (replacement_key_and_sequence_number o) as [[k s] |]; [| done].
    destruct (replacement_states m !! k) as [[v | n] |]; simpl; try case_decide; done.
  - unfold manager_remove_bundle, manager_cancel, state_cancel_order.
    destruct (replacement_states m !! _) as [[v | n] |]; simpl; try case_decide; done.
  - unfold manager_remove_sbundle, manager_cancel, state_cancel_order.
    destruct (replacement_states m !! _) as [[v | n] |]; simpl; try case_decide; done.
Qed.

Section late_subscriber.
Context {S C : Type} `{ReliableSink S} `{LruCacheOk (OrderId * U64) C}.
Context (sidecar_size : BlobTransactionSidecarVariant -> Z) (metadata_size : Z).
Implicit Types p : OrderPool S C.
Abbreviation run := (process_commands sidecar_size metadata_size).

Lemma process_commands_snoc p cs c :
  run p (cs ++ [c]) = process_command sidecar_size metadata_size (run p cs) c.2 c.1.
Proof. unfold process_commands. by rewrite foldl_app. Qed.

Lemma known_keys_snoc cs c : known_keys (cs ++ [c]) = known_keys cs ++ option_list (known_key c.1).
Proof. unfold known_keys. rewrite omap_app. simpl. by destruct (known_key c.1). Qed.

Lemma known_after_command p now c k :
  lru_contains (known_orders (process_command sidecar_size metadata_size p now c)) k = true ->
  known_key c = Some k \/ lru_contains (known_orders p) k = true.
Proof.
  destruct c as [o | c | d]; simpl; [| by right..].
  destruct (lru_contains (known_orders p) (Order_id o, default 0 (target_block o))) eqn:Hc.
  - unfold process_order. rewrite Hc. by right.
  - destruct (process_order_fresh sidecar_size metadata_size p now o Hc) as (-> & _ & _).
    intros [-> | ?]%lru_contains_put; [by left | by right].
Qed.

Lemma known_run p cs k :
  lru_contains (known_orders (run p cs)) k = true ->
  k ∈ known_keys cs \/ lru_contains (known_orders p) k = true.
Proof.
  induction cs as [| c cs IH] using rev_ind; [by right |].
  rewrite process_commands_snoc, known_keys_snoc, elem_of_app.
  intros [Hk | Hk]%known_after_command; [| naive_solver].
  left. right. rewrite Hk. by apply list_elem_of_singleton.
Qed.

(** What a pool replays for a block is, in some order, the block's flow. *)
Lemma replay_run p cs b :
  NoDup (known_keys cs) ->
  (forall k, k ∈ known_keys cs -> lru_contains (known_orders p) k = false) ->
  replay_events (run p cs) b ≡ₚ replay_events p b ++ flow_for_block b cs.
Proof.
  induction cs as [| c cs IH] using rev_ind; [by rewrite app_nil_r |].
  rewrite known_keys_snoc. intros (Hnd & Hdisj & _)%NoDup_app Hnew.
  rewrite process_commands_snoc, replay_process_command.
  - rewrite IH; [| done | intros k Hk; apply Hnew, elem_of_app; by left].
    unfold flow_for_block. rewrite omap_app, <- app_assoc. simpl.
    by destruct (event_for_block b c.1).
  - intros k Hk. apply not_true_is_false. intros Hc. rewrite Hk in Hdisj.
    destruct (known_run _ _ _ Hc) as [Hin | Hold].
    + apply (Hdisj _ Hin). by apply list_elem_of_singleton.
    + rewrite Hnew in Hold; [done |]. apply elem_of_app. right. rewrite Hk.
      by apply list_elem_of_singleton.
Qed.

Lemma process_order_sinks p now o :
  sinks (process_order sidecar_size metadata_size p now o) = sinks p.
Proof.
  unfold process_order. destruct (lru_contains _ _); [done |].
  destruct o as [b | |]; simpl; [destruct (b_block b) | |]; done.
Qed.

Lemma sink_after_command p now c id s b :
  sinks p !! id = Some (Build_SinkSubscription s b) ->
  sinks (process_command sidecar_size metadata_size p now c) !! id
  = Some (Build_SinkSubscription (flow_run s (option_list (event_for_block b c))) b).
Proof.
  intros Hs. unfold process_command. simpl. rewrite lookup_omap.
  replace (sinks _) with (sinks p) by (destruct c; simpl; by rewrite ?process_order_sinks).
  rewrite Hs. simpl. unfold notify_sink, event_for_block. simpl. rewrite reliable_alive. simpl.
  rewrite <- bool_decide_or. case_decide as Ht.
  - rewrite bool_decide_eq_true_2 by done. pose proof (reliable_step s (command_event c)) as Hok.
    by destruct (flow_step s (command_event c)) as [s' ok] eqn:Hst; simpl in *; subst; rewrite Hst.
  - by rewrite bool_decide_eq_false_2 by done.
Qed.

Lemma sink_after_run p cs id s b :
  sinks p !! id = Some (Build_SinkSubscription s b) ->
  sinks (run p cs) !! id = Some (Build_SinkSubscription (flow_run s (flow_for_block b cs)) b).
Proof.
  intros Hs. induction cs as [| c cs IH] using rev_ind; [done |].
  rewrite process_commands_snoc, (sink_after_command _ _ _ _ _ _ IH).
  unfold flow_for_block, flow_run. rewrite omap_app, foldl_app. simpl.
  by destruct (event_for_block b c.1).
Qed.

End late_subscriber.

(** C36. A replacement manager over a store of orders that subscribes to a block
    after a flow of commands ends in the same state as one that subscribed
    before it: replaying the stored orders and cancellations is equivalent
    to having seen the flow. Conditions: no order is sent twice for a block,
    two events of a replacement key with the same sequence number say the
    same, orders with the same id have the same key, and are equal when they
    have none. *)
Theorem late_subscriber_agrees {C} `{LruCacheOk (OrderId * U64) C} sidecar_size metadata_size
    (keep block : Z) (cs : list (ReplaceableOrderPoolCommand * Z)) :
  NoDup (known_keys cs) -> flow_unambiguous (flow_for_block block cs) ->
  let manager := OrderReplacementManager_new OrderStore_new in
  let '(p0, early) := add_sink (C:=C) (OrderPool_new keep) block manager in
  let p := process_commands sidecar_size metadata_size p0 cs in
  let '(p', late) := add_sink p block manager in
  exists e l, sinks p !! early = Some e /\ sinks p' !! late = Some l
    /\ replacement_states (sub_sink e) = replacement_states (sub_sink l)
    /\ orders (rm_sink (sub_sink e)) = orders (rm_sink (sub_sink l)).
Proof.
  intros Hnd Hfu manager. destruct (add_sink (OrderPool_new keep) block manager) as [p0 early] eqn:Hp0.
  injection Hp0 as Hp0 He. set (p := process_commands sidecar_size metadata_size p0 cs).
  assert (Hearly : sinks p !! early
      = Some (Build_SinkSubscription (flow_run manager (flow_for_block block cs)) block)).
  { apply sink_after_run. by rewrite <- Hp0, <- He. }
  simpl. eexists _, _. split; [exact Hearly |]. split; [apply lookup_insert_eq |]. simpl.
  apply manager_order_agrees; [done |]. symmetry. unfold p. rewrite replay_run; [by subst p0 | done |].
  intros k _. subst p0. apply lru_contains_new.
Qed.
