(* ===== verification/OrderPriority.v ===== *)
(** * Order priorities (building/block_orders/order_priority.rs)

    How simulated orders are compared when a block is built: the comparators,
    the five priorities the macro composes from them, each over the full or the
    non-mempool profit, and the acceptance threshold on re-execution. *)

From S2P Require Import Prelude Transactions Bundles Orders SimTypes Samples.

(** ** The trait *)
Class OrderPriority (P : Type) := {
  prio_new : SimulatedOrder -> P;
  prio_cmp : P -> P -> comparison;
  prio_eqb : P -> P -> bool;
  prio_simulation_too_low : SimValue -> SimValue -> bool;
}.

(** A comparison that orders its type linearly up to [Eq]. *)
Record cmp_ok {A} (cmp : A -> A -> comparison) : Prop := {
  cmp_refl a : cmp a a = Eq;
  cmp_antisym a b : cmp b a = CompOpp (cmp a b);
  cmp_trans a b c : cmp a b <> Gt -> cmp b c <> Gt -> cmp a c <> Gt;
}.

(** What [Ord], [PartialEq] and the queue rely on. *)
Class OrderPriorityOk (P : Type) `{OrderPriority P} : Prop := {
  prio_cmp_ok : cmp_ok prio_cmp;
  prio_eqb_cmp a b : prio_eqb a b = true <-> prio_cmp a b = Eq;
}.

(** ** The threshold *)
Definition MIN_SIM_RESULT_PERCENTAGE : Z := 95.

Definition new_sim_value_too_low (original_sim new_sim : U256) : bool :=
  bool_decide (u256_mul new_sim 100 < u256_mul original_sim MIN_SIM_RESULT_PERCENTAGE).

(** ** The profit a priority looks at *)
Inductive ProfitInfoGetter := FullProfitInfoGetter | NonMempoolProfitInfoGetter.

Definition get_profit_info (g : ProfitInfoGetter) (v : SimValue) : ProfitInfo :=
  match g with
  | FullProfitInfoGetter => full_profit_info v
  | NonMempoolProfitInfoGetter => non_mempool_profit_info v
  end.

(** ** Comparators *)
Definition OrderMevGasPricePriorityCmp (g : ProfitInfoGetter) (a b : SimulatedOrder) : comparison :=
  mev_gas_price (get_profit_info g (so_sim_value a))
  ?= mev_gas_price (get_profit_info g (so_sim_value b)).

Definition simulation_too_low_gas_price (g : ProfitInfoGetter) (original new : SimValue) : bool :=
  new_sim_value_too_low (mev_gas_price (get_profit_info g original))
    (mev_gas_price (get_profit_info g new)).

Definition OrderMaxProfitPriorityCmp (g : ProfitInfoGetter) (a b : SimulatedOrder) : comparison :=
  coinbase_profit (get_profit_info g (so_sim_value a))
  ?= coinbase_profit (get_profit_info g (so_sim_value b)).

Definition simulation_too_low_profit (g : ProfitInfoGetter) (original new : SimValue) : bool :=
  new_sim_value_too_low (coinbase_profit (get_profit_info g original))
    (coinbase_profit (get_profit_info g new)).

(** Bundles before mempool transactions. *)
Definition OrderTypeCmp (a b : SimulatedOrder) : comparison :=
  let a_is_tx := is_tx (so_order a) in
  let b_is_tx := is_tx (so_order b) in
  if eqb a_is_tx b_is_tx then Eq else if a_is_tx then Lt else Gt.

Definition is_long (a : SimulatedOrder) : bool :=
  bool_decide (3 <= Order_list_txs_len (so_order a))%nat.

(** Orders of three or more transactions first. *)
Definition OrderLengthThreeCmp (a b : SimulatedOrder) : comparison :=
  let a_is_long := is_long a in
  let b_is_long := is_long b in
  if eqb a_is_long b_is_long then Eq else if a_is_long then Gt else Lt.

Definition OrderIDCmp (a b : SimulatedOrder) : comparison := OrderId_cmp (so_id a) (so_id b).

(** ** [create_order_priority!]: the comparators one after the other, the
    order id last. *)
Definition then_with {A} (f g : A -> A -> comparison) (a b : A) : comparison :=
  match f a b with Eq => g a b | c => c end.

Definition cmp_chain (cmps : list (SimulatedOrder -> SimulatedOrder -> comparison))
  : SimulatedOrder -> SimulatedOrder -> comparison :=
  foldr then_with OrderIDCmp cmps.

(** The [eq]s of all comparators; each comparator's [eq] is its [cmp = Equal]
    on the compared keys. *)
Definition eq_chain (cmps : list (SimulatedOrder -> SimulatedOrder -> comparison))
    (a b : SimulatedOrder) : bool :=
  forallb (fun cmp => bool_decide (cmp a b = Eq)) cmps && bool_decide (so_id a = so_id b).

Inductive PriorityKind :=
| OrderMevGasPricePriority
| OrderMaxProfitPriority
| OrderTypePriority
| OrderLengthThreeMaxProfitPriority
| OrderLengthThreeMevGasPricePriority.

Definition priority_cmps (k : PriorityKind) (g : ProfitInfoGetter) :=
  match k with
  | OrderMevGasPricePriority => [OrderMevGasPricePriorityCmp g]
  | OrderMaxProfitPriority => [OrderMaxProfitPriorityCmp g]
  | OrderTypePriority => [OrderTypeCmp; OrderMaxProfitPriorityCmp g]
  | OrderLengthThreeMaxProfitPriority => [OrderLengthThreeCmp; OrderMaxProfitPriorityCmp g]
  | OrderLengthThreeMevGasPricePriority => [OrderLengthThreeCmp; OrderMevGasPricePriorityCmp g]
  end.

Definition priority_too_low (k : PriorityKind) (g : ProfitInfoGetter) :=
  match k with
  | OrderMevGasPricePriority => simulation_too_low_gas_price g
  | OrderMaxProfitPriority => simulation_too_low_profit g
  | OrderTypePriority => simulation_too_low_profit g
  | OrderLengthThreeMaxProfitPriority => simulation_too_low_profit g
  | OrderLengthThreeMevGasPricePriority => simulation_too_low_profit g
  end.

(** The macro's struct: the order, with the priority as a phantom type. *)
Record Priority (k : PriorityKind) (g : ProfitInfoGetter) := { prio_order : SimulatedOrder }.
Arguments prio_order {_ _} _.

#[export] Instance Priority_OrderPriority k g : OrderPriority (Priority k g) := {
  prio_new o := {| prio_order := o |};
  prio_cmp a b := cmp_chain (priority_cmps k g) (prio_order a) (prio_order b);
  prio_eqb a b := eq_chain (priority_cmps k g) (prio_order a) (prio_order b);
  prio_simulation_too_low := priority_too_low k g;
}.

(** ** Properties *)

Lemma cmp_ok_Zkey {A} (f : A -> Z) : cmp_ok (fun a b => f a ?= f b).
Proof.
  split; intros; [apply Z.compare_refl | apply Z.compare_antisym |].
  by apply (Z.le_trans _ (f b)).
Qed.

(** A key that is a boolean, [true] first when [hi]. *)
Lemma cmp_ok_boolkey {A} (f : A -> bool) (hi lo : comparison) :
  hi = CompOpp lo -> hi <> Eq ->
  cmp_ok (fun a b => if eqb (f a) (f b) then Eq else if f a then hi else lo).
Proof.
  intros -> Hne. split; intros.
  - by rewrite eqb_reflx.
  - destruct (f a), (f b), lo; done.
  - destruct (f a), (f b), (f c), lo; done.
Qed.

Lemma cmp_eq_sym {A} (f : A -> A -> comparison) a b : cmp_ok f -> f a b = Eq -> f b a = Eq.
Proof. intros Hf He. by rewrite (cmp_antisym _ Hf a b), He. Qed.

(** Equal elements compare alike. *)
Lemma cmp_eq_l {A} (f : A -> A -> comparison) a b c : cmp_ok f -> f a b = Eq -> f a c = f b c.
Proof.
  intros Hf He. pose proof (cmp_eq_sym _ _ _ Hf He) as He'.
  pose proof (cmp_trans _ Hf a b c) as H1. pose proof (cmp_trans _ Hf b a c) as H2.
  pose proof (cmp_trans _ Hf c b a) as H3. pose proof (cmp_trans _ Hf c a b) as H4.
  rewrite (cmp_antisym _ Hf a c), (cmp_antisym _ Hf b c) in *. rewrite He, He' in *.
  destruct (f a c), (f b c); simpl in *; intuition congruence.
Qed.

Lemma cmp_ok_then_with {A} (f g : A -> A -> comparison) :
  cmp_ok f -> cmp_ok g -> cmp_ok (then_with f g).
Proof.
  intros Hf Hg. unfold then_with. split.
  - intros a. by rewrite (cmp_refl _ Hf), (cmp_refl _ Hg).
  - intros a b. rewrite (cmp_antisym _ Hf a b), (cmp_antisym _ Hg a b). by destruct (f a b).
  - intros a b c. pose proof (cmp_trans _ Hf a b c) as Ht. pose proof (cmp_trans _ Hf c a b) as Ht'.
    destruct (f a b) eqn:Hab; [| | done].
    + rewrite (cmp_eq_l f a b c Hf Hab). destruct (f b c); [apply (cmp_trans _ Hg) | done..].
    + destruct (f b c) eqn:Hbc; [| | done]; intros _ _; (destruct (f a c) eqn:Hac; [| done | by destruct Ht]).
      all: rewrite (cmp_antisym _ Hf a c), Hac in Ht'; rewrite (cmp_antisym _ Hf b c), Hbc in Ht'.
      all: pose proof (cmp_eq_l f a c b Hf Hac) as Heq; rewrite Hab, (cmp_antisym _ Hf b c), Hbc in Heq; done.
Qed.

Lemma OrderId_cmp_cmp_ok : cmp_ok OrderId_cmp.
Proof.
  apply (cmp_ok_then_with (fun a b => fixed_bytes a ?= fixed_bytes b)
           (fun a b => OrderId_rank a ?= OrderId_rank b)); apply cmp_ok_Zkey.
Qed.

Lemma OrderIDCmp_ok : cmp_ok OrderIDCmp.
Proof.
  destruct OrderId_cmp_cmp_ok as [H1 H2 H3]. split; unfold OrderIDCmp; intros; eauto.
Qed.

Lemma priority_cmps_ok k g : Forall cmp_ok (priority_cmps k g).
Proof.
  destruct k; repeat constructor; unfold OrderMevGasPricePriorityCmp, OrderMaxProfitPriorityCmp;
    first [apply cmp_ok_Zkey | by apply cmp_ok_boolkey].
Qed.

Lemma cmp_chain_ok cmps : Forall cmp_ok cmps -> cmp_ok (cmp_chain cmps).
Proof. induction 1; simpl; [apply OrderIDCmp_ok | by apply cmp_ok_then_with]. Qed.

Lemma OrderId_cmp_eq a b : OrderId_cmp a b = Eq <-> a = b.
Proof.
  split; [| intros ->; apply (cmp_refl _ OrderId_cmp_cmp_ok)]. unfold OrderId_cmp.
  intros He. apply fixed_bytes_rank_inj.
  - destruct (Z.compare_spec (fixed_bytes a) (fixed_bytes b)); done.
  - destruct (Z.compare_spec (fixed_bytes a) (fixed_bytes b)); [| done..].
    by apply Z.compare_eq_iff.
Qed.

Lemma eq_chain_cmp cmps a b : eq_chain cmps a b = true <-> cmp_chain cmps a b = Eq.
Proof.
  unfold eq_chain. induction cmps as [| cmp cmps IH]; simpl.
  - rewrite bool_decide_eq_true. symmetry. apply OrderId_cmp_eq.
  - rewrite <- andb_assoc, andb_true_iff, IH, bool_decide_eq_true. unfold then_with.
    destruct (cmp a b); naive_solver.
Qed.

#[export] Instance Priority_OrderPriorityOk k g : OrderPriorityOk (Priority k g).
Proof.
  pose proof (cmp_chain_ok _ (priority_cmps_ok k g)) as [H1 H2 H3].
  split; [split; simpl; intros; eauto | intros a b; apply eq_chain_cmp].
Qed.

(** Every order priority is a total order that agrees with its equality, is
    antisymmetric and transitive, and never ties two different orders. *)
Theorem priority_total_order k g (a b c : Priority k g) :
  (prio_eqb a b = true <-> prio_cmp a b = Eq)
  /\ (prio_cmp a b = Eq -> so_id (prio_order a) = so_id (prio_order b))
  /\ prio_cmp b a = CompOpp (prio_cmp a b)
  /\ (prio_cmp a b <> Gt -> prio_cmp b c <> Gt -> prio_cmp a c <> Gt).
Proof.
  split_and!.
  - apply prio_eqb_cmp.
  - rewrite <- prio_eqb_cmp. simpl. unfold eq_chain.
    rewrite andb_true_iff, bool_decide_eq_true. tauto.
  - apply (cmp_antisym _ prio_cmp_ok).
  - apply (cmp_trans _ prio_cmp_ok).
Qed.

(** Away from overflow a simulation result is too low exactly if it lost more
    than five percent of the original value. *)
Theorem too_low_is_95_percent (original new : U256) :
  0 <= original < 2 ^ 256 / 100 -> 0 <= new < 2 ^ 256 / 100 ->
  new_sim_value_too_low original new = true <-> 100 * new < 95 * original.
Proof.
  intros Ho Hn. unfold new_sim_value_too_low, u256_mul, wrap, MIN_SIM_RESULT_PERCENTAGE.
  rewrite bool_decide_eq_true, !Z.mod_small by (split; [lia |]; change (2 ^ 256) with
    (2 ^ 256 / 100 * 100 + 2 ^ 256 mod 100); assert (0 <= 2 ^ 256 mod 100) by done; lia).
  lia.
Qed.

Lemma too_low_is_95_percent_witness : new_sim_value_too_low 1000 949 = true.
Proof. apply (too_low_is_95_percent 1000 949); [by vm_compute | by vm_compute | lia]. Defined.
