(* ===== verification/PrimitiveWitnesses.v ===== *)
(** * Runs of the primitives, the pool and the priorities

    The theorems on orders and their pool, applied to the sample orders. *)

From S2P Require Import Prelude Transactions Bundles Orders SimTypes Samples OrderSinks ReplacementManager OrderPool OrderPriority.

Lemma can_execute_iff_witness :
  can_execute_with_block_base_fee [(sample_tx 1 2 0 21000, false)] 10 = true.
Proof.
  apply (can_execute_iff [(sample_tx 1 2 0 21000, false)] 10); [vm_compute; reflexivity |].
  split.
  - intros tx opt [= -> ->]%list_elem_of_singleton Hlt. vm_compute in Hlt. discriminate Hlt.
  - exists (sample_tx 1 2 0 21000), false. split; [apply list_elem_of_singleton; reflexivity | vm_compute; discriminate].
Defined.

(** Numbers on eight bytes, each buffer's length in front of nothing else. *)
#[export] Instance sample_hashing : BundleHashing := {|
  keccak256 := fun l => Z.of_nat (length l);
  sha256 := fun l => l;
  from_sha1_bytes := fun l => Z.of_nat (length l);
  encode_var_u64 := fun a => be_bytes 8 a;
  encode_var_i64 := fun a => be_bytes 8 a;
|}.
#[export] Instance sample_varint : VarIntOk.
Proof.
  split. intros a b s t Ha Hb Heq. apply (app_be_bytes_inj 8); [exact Ha | exact Hb | exact Heq].
Qed.

Definition sample_refunded (delayed : bool) : Bundle :=
  let b := sample_bundle 1 None [sample_tx 1 2 0 21000] [1] in
  {| b_version := b_version b; b_block := b_block b; b_min_timestamp := b_min_timestamp b;
     b_max_timestamp := b_max_timestamp b; b_txs := b_txs b;
     b_reverting_tx_hashes := b_reverting_tx_hashes b;
     b_dropping_tx_hashes := b_dropping_tx_hashes b; b_hash := b_hash b; b_uuid := b_uuid b;
     b_replacement_data := None; b_signer := None; b_refund_identity := None;
     b_metadata := b_metadata b;
     b_refund := Some {| br_percent := 90; br_recipient := 9; br_tx_hash := 1; br_delayed := delayed |};
     b_external_hash := None |}.

Lemma sample_refunded_widths d : Bundle_widths (sample_refunded d).
Proof.
  split; simpl; unfold is_uint; try (intros ? [= <-]); simpl; try lia.
  - apply Forall_cons_2; [lia | apply Forall_nil_2].
  - apply Forall_nil_2.
Qed.

(** Whether the refund is delayed is no part of the identity. *)
Lemma uuid_v2_buffer_inj_witness :
  uuid_v2_buffer (sample_refunded true) = uuid_v2_buffer (sample_refunded false)
  /\ b_hash (sample_refunded true) = b_hash (sample_refunded false).
Proof.
  assert (uuid_v2_buffer (sample_refunded true) = uuid_v2_buffer (sample_refunded false)) as Heq
    by reflexivity.
  split; [exact Heq |].
  apply (uuid_v2_buffer_inj _ _ (sample_refunded_widths true) (sample_refunded_widths false) Heq).
Defined.

Definition sample_body : list ShareBundleBody :=
  [Body_Tx {| sbt_tx := sample_tx 1 2 0 21000; revert_behavior := AllowedIncluded |}].

Lemma Order_list_txs_agree_witness :
  Order_list_txs_len (Order_Bundle (sample_refunded true))
  = length (Order_list_txs (Order_Bundle (sample_refunded true))).
Proof. apply (Order_list_txs_agree (Order_Bundle (sample_refunded true))). exact I. Defined.

Lemma refund_config_dfs_witness :
  Inner_refund_config (sample_inner sample_body)
  = head (dfs_refund_configs (sample_inner sample_body)).
Proof. apply (refund_config_dfs (sample_inner sample_body)). reflexivity. Defined.

(** Numbers as strings of that many letters. *)
Fixpoint unary (n : nat) : string :=
  match n with O => EmptyString | S n => String (Ascii.ascii_of_nat 120) (unary n) end.
Lemma length_unary n : String.length (unary n) = n.
Proof. induction n; simpl; auto. Qed.
#[export] Instance sample_id_text : IdText := {|
  B256_debug := fun h => unary (Z.to_nat h);
  B256_from_str := fun s => Some (Z.of_nat (String.length s));
  Uuid_debug := fun u => unary (Z.to_nat u);
  Uuid_from_str := fun s => Some (Z.of_nat (String.length s));
|}.
#[export] Instance sample_id_text_ok : IdTextOk.
Proof.
  split; intros h Hh; simpl; rewrite length_unary, Z2Nat.id; [done | apply Hh | done | apply Hh].
Qed.

Lemma OrderId_roundtrip_witness :
  OrderId_from_str (OrderId_to_string (Id_Bundle 5)) = Some (Id_Bundle 5).
Proof. apply (OrderId_roundtrip (Id_Bundle 5)). split; [discriminate | reflexivity]. Defined.

Lemma OrderId_cmp_total_order_witness : OrderId_cmp (Id_Tx 3) (Id_Tx 3) = Eq.
Proof. apply (proj1 OrderId_cmp_total_order). reflexivity. Defined.

Lemma priority_total_order_witness :
  let p n : Priority OrderMaxProfitPriority FullProfitInfoGetter :=
    {| prio_order := sample_sim (sample_mempool n 1 0) 5 21000 |} in
  prio_cmp (p 2) (p 1) = CompOpp (prio_cmp (p 1) (p 2)).
Proof. intros p. apply (priority_total_order _ _ (p 1) (p 2) (p 1)). Defined.

(** ** The pool with a cache that keeps every key *)
#[export] Instance list_lru {K} `{EqDecision K} : LruCache K (list K) := {|
  lru_new := [];
  lru_contains := fun c k => bool_decide (k ∈ c);
  lru_put := fun c k => k :: c;
|}.
#[export] Instance list_lru_ok {K} `{EqDecision K} : LruCacheOk K (list K).
Proof.
  split.
  - intros k. apply bool_decide_eq_false, not_elem_of_nil.
  - intros c k k' [-> | Hin]%bool_decide_eq_true%elem_of_cons; [by left | right].
    by apply bool_decide_eq_true.
Qed.

Abbreviation SamplePool :=
  (OrderPool (OrderReplacementManager OrderStore) (list (OrderId * U64))).
Definition sample_size (_ : BlobTransactionSidecarVariant) : Z := 10.
Definition sample_commands : list (ReplaceableOrderPoolCommand * Z) :=
  [(Pool_Order (sample_mempool 3 1 0), 1); (Pool_Order (sample_replaceable 20 2), 2)].
Definition sample_pool : SamplePool :=
  process_command sample_size 10 (OrderPool_new 60) 1 (Pool_Order (sample_mempool 3 1 0)).

Lemma pool_invariant_witness : pool_inv sample_size 10 sample_pool /\ length (mempool_txs sample_pool) = 1%nat.
Proof.
  split; [| vm_compute; reflexivity].
  apply (pool_invariant sample_size 10 60). eapply reach_step; [apply reach_new | apply step_command].
Defined.

Lemma head_updated_spec_witness :
  bundles_for_current_block (head_updated sample_size 10 sample_pool 5 7 (fun _ => Ok None)) = [].
Proof.
  apply (head_updated_spec sample_size 10 sample_pool 5 7 (fun _ => Ok None)). constructor.
Defined.

Lemma sample_commands_unambiguous : flow_unambiguous (flow_for_block 7 sample_commands).
Proof.
  assert (flow_for_block 7 sample_commands
          = [Ev_Insert (sample_mempool 3 1 0); Ev_Insert (sample_replaceable 20 2)]) as -> by reflexivity.
  assert (forall o, Ev_Insert o ∈ [Ev_Insert (sample_mempool 3 1 0); Ev_Insert (sample_replaceable 20 2)] ->
    o = sample_mempool 3 1 0 \/ o = sample_replaceable 20 2) as Ho
    by (intros o; rewrite !elem_of_cons, elem_of_nil; naive_solver).
  split.
  - intros o o' [-> | ->]%Ho [-> | ->]%Ho; vm_compute; congruence.
  - intros e e' k seq p p'. rewrite !elem_of_cons, !elem_of_nil.
    intros [-> | [-> | []]] [-> | [-> | []]]; intros H1 H2; simplify_eq/=; done.
  - intros o o' [-> | ->]%Ho [-> | ->]%Ho; vm_compute; congruence.
Qed.

Lemma late_subscriber_agrees_witness :
  NoDup (known_keys sample_commands) /\
  let '(p0, early) := add_sink (OrderPool_new 60 : SamplePool) 7 (OrderReplacementManager_new OrderStore_new) in
  let p := process_commands sample_size 10 p0 sample_commands in
  let '(p', late) := add_sink p 7 (OrderReplacementManager_new OrderStore_new) in
  exists e l, sinks p !! early = Some e /\ sinks p' !! late = Some l
    /\ replacement_states (sub_sink e) = replacement_states (sub_sink l)
    /\ orders (rm_sink (sub_sink e)) = orders (rm_sink (sub_sink l)).
Proof.
  assert (NoDup (known_keys sample_commands)) as Hnd.
  { apply NoDup_cons. split; [| apply NoDup_singleton]. vm_compute. intros Hin.
    apply list_elem_of_singleton in Hin. discriminate Hin. }
  split; [exact Hnd |].
  exact (late_subscriber_agrees (C := list (OrderId * U64)) sample_size 10 60 7 sample_commands Hnd
           sample_commands_unambiguous).
Defined.
