(* ===== verification/BlockOrders.v ===== *)
(** * Orders of a block (building/block_orders/mod.rs, prioritized_order_store.rs)

    [SimulatedOrderStore] keeps the simulated orders of a block;
    [PrioritizedOrderStore] yields them by priority as their nonces become
    valid.  The priority queue is a third-party container, known through the
    class [PriorityQueue]. *)

From S2P Require Import Prelude Transactions Bundles Orders SimTypes Samples OrderPriority.

(** ** The sink trait and the plain store *)
Class SimulatedOrderSink (S : Type) := {
  sim_insert_order : S -> SimulatedOrder -> S;
  sim_remove_order : S -> OrderId -> S * option SimulatedOrder;
}.

Fixpoint sim_remove_orders {S} `{SimulatedOrderSink S} (s : S) (ids : list OrderId)
  : S * list SimulatedOrder :=
  match ids with
  | [] => (s, [])
  | id :: ids =>
      let '(s, o) := sim_remove_order s id in
      let '(s, result) := sim_remove_orders s ids in
      (s, match o with Some o => o :: result | None => result end)
  end.

Inductive SimulatedOrderCommand :=
| Simulation (o : SimulatedOrder)
| Cancellation (id : OrderId).

Definition simulated_order_command_to_sink {S} `{SimulatedOrderSink S}
    (c : SimulatedOrderCommand) (s : S) : S :=
  match c with
  | Simulation o => sim_insert_order s o
  | Cancellation id => (sim_remove_order s id).1
  end.

Record SimulatedOrderStore := {
  sos_orders : gmap OrderId SimulatedOrder;
  sos_new_orders : option (list SimulatedOrder);
}.

Definition SimulatedOrderStore_new : SimulatedOrderStore :=
  {| sos_orders := ∅; sos_new_orders := Some [] |}.

Definition drain_new_orders (s : SimulatedOrderStore)
  : SimulatedOrderStore * option (list SimulatedOrder) :=
  ({| sos_orders := sos_orders s; sos_new_orders := Some [] |}, sos_new_orders s).

Definition sos_insert_order (s : SimulatedOrderStore) (o : SimulatedOrder) : SimulatedOrderStore :=
  {| sos_orders := <[so_id o := o]> (sos_orders s);
     sos_new_orders := (fun l => l ++ [o]) <$> sos_new_orders s |}.

Definition sos_remove_order (s : SimulatedOrderStore) (id : OrderId)
  : SimulatedOrderStore * option SimulatedOrder :=
  ({| sos_orders := delete id (sos_orders s); sos_new_orders := None |}, sos_orders s !! id).

#[export] Instance SimulatedOrderStore_sink : SimulatedOrderSink SimulatedOrderStore := {
  sim_insert_order := sos_insert_order;
  sim_remove_order := sos_remove_order;
}.

(** ** The priority queue: one priority per id, pushing an id again replaces
    its priority, [pop] takes an element of maximal priority. *)
Class PriorityQueue (P Q : Type) := {
  pq_new : Q;
  pq_push : Q -> OrderId -> P -> Q;
  pq_pop : Q -> option (OrderId * P * Q);
  pq_remove : Q -> OrderId -> Q * option P;
  pq_content : Q -> gmap OrderId P;
}.

Class PriorityQueueOk (P Q : Type) `{OrderPriority P} `{PriorityQueue P Q} : Prop := {
  pq_content_new : pq_content pq_new = ∅;
  pq_content_push q id p : pq_content (pq_push q id p) = <[id := p]> (pq_content q);
  pq_pop_None q : pq_pop q = None <-> pq_content q = ∅;
  pq_pop_Some q id p q' : pq_pop q = Some (id, p, q') ->
    pq_content q !! id = Some p /\ pq_content q' = delete id (pq_content q)
    /\ forall id' p', pq_content q !! id' = Some p' -> prio_cmp p' p <> Gt;
  pq_remove_spec q id : pq_content (pq_remove q id).1 = delete id (pq_content q)
    /\ (pq_remove q id).2 = pq_content q !! id;
}.

(** ** The prioritized store *)
Record PrioritizedOrderStore (Q : Type) := {
  main_queue : Q;
  main_queue_nonces : gmap Address (list OrderId);
  onchain_nonces : gmap Address U64;
  pending_orders : gmap AccountNonce (list OrderId);
  po_orders : gmap OrderId SimulatedOrder;
  orders_statistics : OrderStatistics;
}.
Arguments main_queue {_} _.
Arguments main_queue_nonces {_} _.
Arguments onchain_nonces {_} _.
Arguments pending_orders {_} _.
Arguments po_orders {_} _.
Arguments orders_statistics {_} _.
Arguments Build_PrioritizedOrderStore {_}.

Section store.
Context {P Q : Type} `{!OrderPriority P} `{!PriorityQueue P Q} `{!HashOrder OrderId}.
Implicit Types s : PrioritizedOrderStore Q.

Definition PrioritizedOrderStore_new (initial : list AccountNonce) : PrioritizedOrderStore Q :=
  Build_PrioritizedOrderStore pq_new ∅
    (foldl (fun m n => <[an_account n := an_nonce n]> m) ∅ initial) ∅ ∅ OrderStatistics_default.

Definition remove_from_orders s (id : OrderId) : PrioritizedOrderStore Q * option SimulatedOrder :=
  let res := po_orders s !! id in
  (Build_PrioritizedOrderStore (main_queue s) (main_queue_nonces s) (onchain_nonces s)
     (pending_orders s) (delete id (po_orders s))
     (match res with
      | Some o => OrderStatistics_remove (orders_statistics s) (so_order o)
      | None => orders_statistics s
      end), res).

(** [entry(address)]: an occupied list loses the id, a vacant one stays vacant. *)
Definition remove_from_nonce_list (m : gmap Address (list OrderId)) (id : OrderId) (a : Address)
  : gmap Address (list OrderId) :=
  match m !! a with
  | Some ids => <[a := filter (fun id' => id' <> id) ids]> m
  | None => m
  end.

Definition remove_poped_order s (id : OrderId) : PrioritizedOrderStore Q * option SimulatedOrder :=
  match remove_from_orders s id with
  | (s, None) => (s, None)
  | (s, Some o) =>
      (Build_PrioritizedOrderStore (main_queue s)
         (foldl (fun m n => remove_from_nonce_list m (so_id o) (nonce_address n))
            (main_queue_nonces s) (so_nonces o))
         (onchain_nonces s) (pending_orders s) (po_orders s) (orders_statistics s), Some o)
  end.

(** The outer [None] is the panic of [expect]. *)
Definition pop_order s : option (PrioritizedOrderStore Q * option SimulatedOrder) :=
  match pq_pop (main_queue s) with
  | None => Some (s, None)
  | Some (id, _, q) =>
      let s := Build_PrioritizedOrderStore q (main_queue_nonces s) (onchain_nonces s)
                 (pending_orders s) (po_orders s) (orders_statistics s) in
      match remove_poped_order s id with
      | (s, Some o) => Some (s, Some o)
      | (_, None) => None
      end
  end.

Definition current_nonce s (a : Address) : U64 := default 0 (onchain_nonces s !! a).

(** The first loop of [insert_order]: [None] when a mandatory nonce is already
    used on chain, else the nonces to wait for. *)
Fixpoint pending_nonces s (ns : list Nonce) : option (list AccountNonce) :=
  match ns with
  | [] => Some []
  | n :: ns =>
      let onchain_nonce := current_nonce s (nonce_address n) in
      if bool_decide (onchain_nonce > nonce_nonce n) && negb (nonce_optional n) then None
      else
        let! rest := pending_nonces s ns in
        Some (if bool_decide (onchain_nonce < nonce_nonce n) && negb (nonce_optional n)
              then {| an_account := nonce_address n; an_nonce := nonce_nonce n |} :: rest
              else rest)
  end.

Definition add_queue_nonce (id : OrderId) (m : gmap Address (list OrderId)) (n : Nonce)
  : gmap Address (list OrderId) :=
  <[nonce_address n := default [] (m !! nonce_address n) ++ [id]]> m.

Definition add_pending (id : OrderId) (m : gmap AccountNonce (list OrderId)) (n : AccountNonce)
  : gmap AccountNonce (list OrderId) :=
  let pending := default [] (m !! n) in
  <[n := if decide (id ∈ pending) then pending else pending ++ [id]]> m.

Definition po_insert_order s (o : SimulatedOrder) : PrioritizedOrderStore Q :=
  match po_orders s !! so_id o with
  | Some _ => s
  | None =>
      match pending_nonces s (so_nonces o) with
      | None => s
      | Some pending =>
          let '(q, qn, pd) :=
            match pending with
            | [] => (pq_push (main_queue s) (so_id o) (prio_new o),
                     foldl (add_queue_nonce (so_id o)) (main_queue_nonces s) (so_nonces o),
                     pending_orders s)
            | _ => (main_queue s, main_queue_nonces s,
                    foldl (add_pending (so_id o)) (pending_orders s) pending)
            end in
          Build_PrioritizedOrderStore q qn (onchain_nonces s) pd
            (<[so_id o := o]> (po_orders s))
            (OrderStatistics_add (orders_statistics s) (so_order o))
      end
  end.

Definition po_remove_order s (id : OrderId) : PrioritizedOrderStore Q * option SimulatedOrder :=
  let '(q, removed) := pq_remove (main_queue s) id in
  let s := Build_PrioritizedOrderStore q (main_queue_nonces s) (onchain_nonces s)
             (pending_orders s) (po_orders s) (orders_statistics s) in
  let s := match removed with
           | Some _ => (remove_poped_order s id).1
           | None => s
           end in
  remove_from_orders s id.

(** First loop of [update_onchain_nonces]: the new nonces are stored and the
    orders queued under their accounts collected. *)
Definition collect_invalidated (acc : PrioritizedOrderStore Q * gset OrderId) (n : AccountNonce)
  : PrioritizedOrderStore Q * gset OrderId :=
  let '(s, invalidated) := acc in
  let ids := default [] (main_queue_nonces s !! an_account n) in
  (Build_PrioritizedOrderStore (main_queue s) (delete (an_account n) (main_queue_nonces s))
     (<[an_account n := an_nonce n]> (onchain_nonces s))
     (pending_orders s) (po_orders s) (orders_statistics s),
   list_to_set ids ∪ invalidated).

(** [valid] and [valid_nonces] of the second loop; it stops at the first
    mandatory nonce that is used. *)
Fixpoint check_nonces s (ns : list Nonce) (valid_nonces : nat) : bool * nat :=
  match ns with
  | [] => (true, valid_nonces)
  | n :: ns =>
      let onchain_nonce := current_nonce s (nonce_address n) in
      if bool_decide (onchain_nonce > nonce_nonce n) && negb (nonce_optional n)
      then (false, valid_nonces)
      else if bool_decide (onchain_nonce = nonce_nonce n) then check_nonces s ns (S valid_nonces)
      else check_nonces s ns valid_nonces
  end.

Definition revalidate_order (acc : option (PrioritizedOrderStore Q)) (id : OrderId)
  : option (PrioritizedOrderStore Q) :=
  let! st := acc in
  let s := Build_PrioritizedOrderStore (pq_remove (main_queue st) id).1 (main_queue_nonces st)
             (onchain_nonces st) (pending_orders st) (po_orders st) (orders_statistics st) in
  match remove_poped_order s id with
  | (s, None) => None
  | (s, Some o) =>
      let '(valid, valid_nonces) := check_nonces s (so_nonces o) 0 in
      if valid && bool_decide (0 < valid_nonces)%nat then Some (po_insert_order s o) else Some s
  end.

Fixpoint remove_pending_ids s (ids : list OrderId) : PrioritizedOrderStore Q * list SimulatedOrder :=
  match ids with
  | [] => (s, [])
  | id :: ids =>
      let '(s, o) := remove_from_orders s id in
      let '(s, os) := remove_pending_ids s ids in
      (s, match o with Some o => o :: os | None => os end)
  end.

(** Third loop: the orders that waited for a new nonce are inserted again. *)
Definition wake_pending s (n : AccountNonce) : PrioritizedOrderStore Q :=
  match pending_orders s !! n with
  | None => s
  | Some pending =>
      let s := Build_PrioritizedOrderStore (main_queue s) (main_queue_nonces s)
                 (onchain_nonces s) (delete n (pending_orders s)) (po_orders s)
                 (orders_statistics s) in
      let '(s, os) := remove_pending_ids s pending in
      foldl po_insert_order s os
  end.

(** [None] is the panic of [expect]. *)
Definition update_onchain_nonces s (new_nonces : list AccountNonce)
  : option (PrioritizedOrderStore Q) :=
  let '(s, invalidated) := foldl collect_invalidated (s, ∅) new_nonces in
  let! st := foldl revalidate_order (Some s) (hash_order invalidated) in
  Some (foldl wake_pending st new_nonces).

Definition get_all_orders s : list SimulatedOrder := snd <$> map_to_list (po_orders s).

#[export] Instance PrioritizedOrderStore_sink : SimulatedOrderSink (PrioritizedOrderStore Q) := {
  sim_insert_order := po_insert_order;
  sim_remove_order := po_remove_order;
}.

(** [block_orders_from_sim_orders]; [account_nonce] is the state provider. *)
Fixpoint read_onchain_nonces (account_nonce : Address -> result (option U64) unit)
    (ns : list Nonce) : result (list AccountNonce) unit :=
  match ns with
  | [] => Ok []
  | n :: ns =>
      let? value := account_nonce (nonce_address n) in
      let? rest := read_onchain_nonces account_nonce ns in
      Ok ({| an_account := nonce_address n; an_nonce := default 0 value |} :: rest)
  end.

Definition block_orders_from_sim_orders (sim_orders : list SimulatedOrder)
    (account_nonce : Address -> result (option U64) unit)
  : result (PrioritizedOrderStore Q) unit :=
  let? nonces := read_onchain_nonces account_nonce
                   (concat (map (fun o => Order_nonces (so_order o)) sim_orders)) in
  Ok (foldl po_insert_order (PrioritizedOrderStore_new nonces) sim_orders).

End store.
