(* ===== verification/BlockOrdersInv.v ===== *)
(** * Invariant of the prioritized store (building/block_orders/prioritized_order_store.rs)

    The queue, the lists of queued orders per account, the order map and the
    on-chain nonces stay consistent under every operation; hence the two
    [expect]s of the store cannot fail and [pop_order] yields an executable
    order of maximal priority. *)

From S2P Require Import Prelude Transactions Bundles Orders SimTypes Samples OrderPriority BlockOrders.

Section inv.
Context {P Q : Type} `{!OrderPriority P} `{!PriorityQueue P Q} `{!PriorityQueueOk P Q}.
Context `{!HashOrder OrderId} `{!HashOrderOk OrderId}.
Implicit Types s : PrioritizedOrderStore Q.

Definition queued s (id : OrderId) : Prop := is_Some (pq_content (main_queue s) !! id).
Definition listed s (a : Address) (id : OrderId) : Prop := id ∈ default [] (main_queue_nonces s !! a).

(** Every mandatory nonce of the order is the account's next one. *)
Definition ready s (o : SimulatedOrder) : Prop :=
  forall n, n ∈ so_nonces o -> nonce_optional n = false ->
    current_nonce s (nonce_address n) = nonce_nonce n.

(** The consistency of the store.  [X] holds the ids whose nonces are being
    checked again, [D] the orders taken out of the map to be inserted again;
    both are empty between operations. *)
Record inv (X : gset OrderId) (D : gmap OrderId SimulatedOrder) s : Prop := {
  inv_disj : D ##ₘ po_orders s;
  inv_id id o : (D ∪ po_orders s) !! id = Some o -> so_id o = id;
  inv_queue id p : pq_content (main_queue s) !! id = Some p ->
    exists o, (D ∪ po_orders s) !! id = Some o /\ p = prio_new o /\ (id ∉ X -> ready s o);
  inv_listed id o n : queued s id -> (D ∪ po_orders s) !! id = Some o -> id ∉ X ->
    n ∈ so_nonces o -> listed s (nonce_address n) id;
  inv_nonces a id : listed s a id ->
    queued s id /\ exists o, (D ∪ po_orders s) !! id = Some o /\ exists n, n ∈ so_nonces o /\ nonce_address n = a;
  inv_dirty id : id ∈ X -> queued s id;
}.

Definition store_inv s : Prop := inv ∅ ∅ s.

(** ** The lists of queued orders *)

Lemma listed_remove m ns id a id' :
  id' ∈ default [] (foldl (fun m n => remove_from_nonce_list m id (nonce_address n)) m ns !! a)
  <-> id' ∈ default [] (m !! a) /\ (id' = id -> forall n, n ∈ ns -> nonce_address n <> a).
Proof.
  revert m. induction ns as [| n ns IH]; intros m; simpl.
  { split; [intros ?; split; [done |]; intros _ n Hn; by apply not_elem_of_nil in Hn | tauto]. }
  rewrite IH. setoid_rewrite elem_of_cons. unfold remove_from_nonce_list.
  destruct (m !! nonce_address n) as [ids |] eqn:Hm.
  - destruct (decide (nonce_address n = a)) as [<- | Hne].
    + rewrite lookup_insert_eq, Hm. simpl. rewrite list_elem_of_filter. naive_solver.
    + rewrite lookup_insert_ne by done. naive_solver.
  - destruct (decide (nonce_address n = a)) as [<- | Hne]; [| naive_solver].
    rewrite Hm. simpl. split; [intros [Hin _]; by apply not_elem_of_nil in Hin |].
    intros [Hin _]; by apply not_elem_of_nil in Hin.
Qed.

Lemma listed_add m ns id a id' :
  id' ∈ default [] (foldl (add_queue_nonce id) m ns !! a)
  <-> id' ∈ default [] (m !! a) \/ id' = id /\ exists n, n ∈ ns /\ nonce_address n = a.
Proof.
  revert m. induction ns as [| n ns IH]; intros m; simpl.
  { split; [by left |]. intros [? | (_ & n & Hn & _)]; [done | by apply not_elem_of_nil in Hn]. }
  rewrite IH. setoid_rewrite elem_of_cons. unfold add_queue_nonce.
  destruct (decide (nonce_address n = a)) as [<- | Hne].
  - rewrite lookup_insert_eq. simpl. rewrite elem_of_app, list_elem_of_singleton. naive_solver.
  - rewrite lookup_insert_ne by done. naive_solver.
Qed.

(** ** Inserting *)

Lemma pending_nonces_cons_nil s n ns :
  pending_nonces s (n :: ns) = Some [] <->
  (nonce_optional n = false -> current_nonce s (nonce_address n) = nonce_nonce n)
  /\ pending_nonces s ns = Some [].
Proof.
  simpl. destruct (nonce_optional n); rewrite ?andb_false_r, ?andb_true_r.
  - destruct (pending_nonces s ns) as [l |]; naive_solver.
  - repeat case_bool_decide; destruct (pending_nonces s ns) as [l |]; try naive_solver lia.
Qed.

Lemma pending_nonces_nil s o : pending_nonces s (so_nonces o) = Some [] <-> ready s o.
Proof.
  unfold ready. induction (so_nonces o) as [| n ns IH].
  - split; [intros _ n Hn; by apply not_elem_of_nil in Hn | done].
  - rewrite pending_nonces_cons_nil, IH. setoid_rewrite elem_of_cons. naive_solver.
Qed.

(** All orders of the store, those taken out included. *)
Abbreviation known D s := (D ∪ po_orders s).

Lemma lookup_reinsert (D m : gmap OrderId SimulatedOrder) id o :
  delete id D ∪ <[id := o]> m = <[id := o]> (D ∪ m).
Proof.
  apply map_eq. intros i. destruct (decide (i = id)) as [-> | Hne].
  - rewrite lookup_union, lookup_delete_eq, !lookup_insert_eq. done.
  - rewrite lookup_insert_ne by done. rewrite !lookup_union, lookup_delete_ne, lookup_insert_ne by done.
    done.
Qed.

Lemma lookup_forget (D m : gmap OrderId SimulatedOrder) id i :
  m !! id = None -> (delete id D ∪ m) !! i = if decide (i = id) then None else (D ∪ m) !! i.
Proof.
  intros Hm. rewrite !lookup_union. case_decide as Hi.
  - subst. by rewrite lookup_delete_eq, Hm.
  - by rewrite lookup_delete_ne.
Qed.

(** Forgetting an order that is not queued. *)
Lemma inv_forget X D s id :
  inv X D s -> po_orders s !! id = None -> ~ queued s id -> inv X (delete id D) s.
Proof.
  intros Hinv Hid Hq.
  assert (Hne : forall i, queued s i -> (delete id D ∪ po_orders s) !! i = known D s !! i).
  { intros i Hi. rewrite lookup_forget by done. rewrite decide_False; [done | by intros ->]. }
  split.
  - apply map_disjoint_delete_l, (inv_disj _ _ _ Hinv).
  - intros i o. rewrite lookup_forget by done. case_decide; [done |]. apply (inv_id _ _ _ Hinv).
  - intros i p Hp. rewrite Hne by (by exists p). by apply (inv_queue _ _ _ Hinv).
  - intros i o n Hi. rewrite Hne by done. by apply (inv_listed _ _ _ Hinv).
  - intros a i Hi. destruct (inv_nonces _ _ _ Hinv _ _ Hi) as [Hqi Ho]. by rewrite Hne.
  - apply (inv_dirty _ _ _ Hinv).
Qed.

(** A waiting order: only the order map and the pending lists change. *)
Lemma inv_insert_pending X D s o pd st :
  inv X D s -> po_orders s !! so_id o = None -> ~ queued s (so_id o) ->
  inv X (delete (so_id o) D)
    (Build_PrioritizedOrderStore (main_queue s) (main_queue_nonces s) (onchain_nonces s) pd
       (<[so_id o := o]> (po_orders s)) st).
Proof.
  intros Hinv Hid Hq.
  assert (Hne : forall i, queued s i -> <[so_id o := o]> (known D s) !! i = known D s !! i).
  { intros i Hi. rewrite lookup_insert_ne; [done | by intros <-]. }
  split; simpl; rewrite ?lookup_reinsert.
  - apply map_disjoint_insert_r. split; [apply lookup_delete_eq |].
    apply map_disjoint_delete_l, (inv_disj _ _ _ Hinv).
  - intros i o'. rewrite lookup_insert_Some. intros [[<- <-] | [_ Ho']]; [done |].
    by apply (inv_id _ _ _ Hinv).
  - intros i p Hp. rewrite Hne by (by exists p). by apply (inv_queue _ _ _ Hinv).
  - intros i o' n Hi. rewrite Hne by done. by apply (inv_listed _ _ _ Hinv).
  - intros a i Hi. destruct (inv_nonces _ _ _ Hinv _ _ Hi) as [Hqi Ho]. by rewrite Hne.
  - apply (inv_dirty _ _ _ Hinv).
Qed.

(** A ready order is pushed and listed under all its accounts. *)
Lemma inv_insert_ready X D s o st :
  inv X D s -> po_orders s !! so_id o = None -> so_id o ∉ X ->
  (D !! so_id o = Some o \/ D !! so_id o = None) -> ready s o ->
  inv X (delete (so_id o) D)
    (Build_PrioritizedOrderStore (pq_push (main_queue s) (so_id o) (prio_new o))
       (foldl (add_queue_nonce (so_id o)) (main_queue_nonces s) (so_nonces o))
       (onchain_nonces s) (pending_orders s) (<[so_id o := o]> (po_orders s)) st).
Proof.
  intros Hinv Hid HX HD Hready.
  assert (Hold : forall i o', known D s !! i = Some o' -> <[so_id o := o]> (known D s) !! i = Some o').
  { intros i o' Hi. destruct (decide (so_id o = i)) as [<- | Hne]; [| by rewrite lookup_insert_ne].
    rewrite lookup_insert_eq. rewrite lookup_union, Hid in Hi. destruct HD as [HD | HD];
      rewrite HD in Hi; simplify_eq/=; done. }
  assert (Hq : forall i, is_Some (pq_content (pq_push (main_queue s) (so_id o) (prio_new o)) !! i)
            <-> i = so_id o \/ queued s i).
  { intros i. rewrite pq_content_push, lookup_insert_is_Some'. unfold queued. naive_solver. }
  split; unfold queued, listed; simpl; rewrite ?lookup_reinsert.
  - apply map_disjoint_insert_r. split; [apply lookup_delete_eq |].
    apply map_disjoint_delete_l, (inv_disj _ _ _ Hinv).
  - intros i o'. rewrite lookup_insert_Some. intros [[<- <-] | [_ Ho']]; [done |].
    by apply (inv_id _ _ _ Hinv).
  - intros i p. rewrite pq_content_push, lookup_insert_Some. intros [[<- <-] | [Hne Hp]].
    + exists o. by rewrite lookup_insert_eq.
    + destruct (inv_queue _ _ _ Hinv _ _ Hp) as (o' & Ho' & -> & Hr). exists o'.
      split_and!; [by apply Hold | done | done].
  - intros i o' n Hi Ho' Hx Hn. rewrite listed_add. apply lookup_insert_Some in Ho' as [[<- <-] | [Hne Ho']].
    + right. split; [done | by exists n].
    + left. apply (inv_listed _ _ _ Hinv i o' n); try done. apply Hq in Hi as [-> | ?]; done.
  - intros a i. rewrite listed_add, Hq. intros [Hi | (-> & n & Hn & Ha)].
    + destruct (inv_nonces _ _ _ Hinv _ _ Hi) as (Hqi & o' & Ho' & Hn).
      split; [by right |]. exists o'. split; [by apply Hold | done].
    + split; [by left |]. exists o. rewrite lookup_insert_eq. split; [done | by exists n].
  - intros i Hi. apply Hq. right. by apply (inv_dirty _ _ _ Hinv).
Qed.

Lemma insert_order_inv X D s o :
  inv X D s -> so_id o ∉ X ->
  (po_orders s !! so_id o = None /\ D !! so_id o = Some o \/ D !! so_id o = None) ->
  inv X (delete (so_id o) D) (po_insert_order s o).
Proof.
  intros Hinv HX HD. unfold po_insert_order. destruct (po_orders s !! so_id o) as [o' |] eqn:Hid.
  { assert (D !! so_id o = None) as Hd by (destruct HD as [[? _] | ?]; congruence).
    by rewrite delete_id. }
  assert (Hq : queued s (so_id o) -> pending_nonces s (so_nonces o) = Some []).
  { intros [p Hp]. destruct (inv_queue _ _ _ Hinv _ _ Hp) as (o' & Ho' & _ & Hr).
    rewrite lookup_union, Hid in Ho'. destruct HD as [[_ HD] | HD]; rewrite HD in Ho'; [| done].
    injection Ho' as <-. apply pending_nonces_nil. by apply Hr. }
  destruct (pending_nonces s (so_nonces o)) as [[| pn pns] |] eqn:Hp.
  - apply inv_insert_ready; [done.. | naive_solver | by apply pending_nonces_nil].
  - apply inv_insert_pending; [done.. |]. intros Hx. by apply Hq in Hx.
  - apply inv_forget; [done.. |]. intros Hx. by apply Hq in Hx.
Qed.

(** ** Removing *)

(** An order that left the queue leaves every list. *)
Lemma remove_poped_inv X D s q id o :
  inv X D s -> pq_content q = delete id (pq_content (main_queue s)) ->
  po_orders s !! id = Some o -> queued s id ->
  exists s', remove_poped_order
      (Build_PrioritizedOrderStore q (main_queue_nonces s) (onchain_nonces s)
         (pending_orders s) (po_orders s) (orders_statistics s)) id = (s', Some o)
    /\ inv (X ∖ {[id]}) D s' /\ po_orders s' = delete id (po_orders s)
    /\ onchain_nonces s' = onchain_nonces s /\ pending_orders s' = pending_orders s
    /\ pq_content (main_queue s') = delete id (pq_content (main_queue s)).
Proof.
  intros Hinv Hcq Ho Hq. unfold remove_poped_order, remove_from_orders. simpl. rewrite Ho.
  eexists. split; [done |]. split; [| done].
  assert (HD : D !! id = None).
  { apply (map_disjoint_Some_r _ _ _ _ (inv_disj _ _ _ Hinv) Ho). }
  assert (Hid : so_id o = id).
  { apply (inv_id _ _ _ Hinv). by rewrite lookup_union, HD, Ho. }
  assert (Hother : forall i, i <> id -> (D ∪ delete id (po_orders s)) !! i = known D s !! i).
  { intros i Hi. by rewrite !lookup_union, lookup_delete_ne. }
  assert (Hqs : forall i, is_Some (pq_content q !! i) <-> i <> id /\ queued s i).
  { intros i. rewrite Hcq, lookup_delete_is_Some. unfold queued. naive_solver. }
  split; unfold queued, listed; simpl.
  - apply map_disjoint_delete_r, (inv_disj _ _ _ Hinv).
  - intros i o'. destruct (decide (i = id)) as [-> | Hne].
    + by rewrite lookup_union, lookup_delete_eq, HD.
    + rewrite Hother by done. apply (inv_id _ _ _ Hinv).
  - intros i p. rewrite Hcq. intros [Hne Hp]%lookup_delete_Some. rewrite Hother by done.
    destruct (inv_queue _ _ _ Hinv _ _ Hp) as (o' & Ho' & -> & Hr). exists o'.
    split_and!; [done | done | set_solver].
  - intros i o' n [Hne Hi]%Hqs Ho' Hx Hn. rewrite Hother in Ho' by done. rewrite Hid, listed_remove.
    split; [| done]. apply (inv_listed _ _ _ Hinv i o' n); set_solver.
  - intros a i. rewrite Hid, listed_remove, Hqs. intros [Hi Hnot].
    destruct (inv_nonces _ _ _ Hinv _ _ Hi) as (Hqi & o' & Ho' & n & Hn & Ha).
    assert (Hne : i <> id).
    { intros ->. rewrite lookup_union, HD, Ho in Ho'. injection Ho' as <-. by eapply Hnot. }
    split; [done |]. exists o'. rewrite Hother by done. eauto.
  - intros i Hi. apply Hqs. split; [set_solver |]. apply (inv_dirty _ _ _ Hinv). set_solver.
Qed.

(** Removing an order that is not queued. *)
Lemma remove_from_orders_inv s id :
  store_inv s -> ~ queued s id -> store_inv (remove_from_orders s id).1.
Proof.
  intros Hinv Hq. unfold remove_from_orders. simpl.
  assert (Hother : forall i, queued s i -> (∅ ∪ delete id (po_orders s)) !! i = known ∅ s !! i).
  { intros i Hi. rewrite !lookup_union, lookup_delete_ne; [done | by intros ->]. }
  split; simpl.
  - apply map_disjoint_empty_l.
  - intros i o. rewrite (left_id_L ∅ _). intros [_ Ho]%lookup_delete_Some.
    apply (inv_id _ _ _ Hinv). by rewrite (left_id_L ∅ _).
  - intros i p Hp. rewrite Hother by (by exists p). by apply (inv_queue _ _ _ Hinv).
  - intros i o n Hi. rewrite Hother by done. by apply (inv_listed _ _ _ Hinv).
  - intros a i Hi. destruct (inv_nonces _ _ _ Hinv _ _ Hi) as [Hqi Ho]. by rewrite Hother.
  - set_solver.
Qed.

Lemma store_inv_queued s id p :
  store_inv s -> pq_content (main_queue s) !! id = Some p ->
  exists o, po_orders s !! id = Some o /\ p = prio_new o /\ ready s o.
Proof.
  intros Hinv Hp. destruct (inv_queue _ _ _ Hinv _ _ Hp) as (o & Ho & Hpr & Hr).
  rewrite (left_id_L ∅ _) in Ho. exists o. split_and!; [done | done |]. apply Hr. set_solver.
Qed.

Lemma store_inv_diff s id : inv (∅ ∖ {[id]}) ∅ s -> store_inv s.
Proof. unfold store_inv. by replace (∅ ∖ {[id]} : gset OrderId) with (∅ : gset OrderId) by set_solver. Qed.

Lemma pop_order_inv s :
  store_inv s -> exists s' o, pop_order s = Some (s', o) /\ store_inv s'.
Proof.
  intros Hinv. unfold pop_order. destruct (pq_pop (main_queue s)) as [[[id p] q] |] eqn:Hpop; [| eauto].
  apply pq_pop_Some in Hpop as (Hp & Hc & _).
  destruct (store_inv_queued _ _ _ Hinv Hp) as (o & Ho & _ & _).
  destruct (remove_poped_inv ∅ ∅ s q id o Hinv Hc Ho) as (s' & -> & Hs' & _); [by exists p |].
  exists s', (Some o). split; [done |]. by eapply store_inv_diff.
Qed.

Lemma remove_order_inv s id : store_inv s -> store_inv (po_remove_order s id).1.
Proof.
  intros Hinv. unfold po_remove_order. pose proof (pq_remove_spec (main_queue s) id) as [Hc Hr].
  destruct (pq_remove (main_queue s) id) as [q r]. simpl in Hc, Hr. subst r.
  destruct (pq_content (main_queue s) !! id) as [p |] eqn:Hp.
  - destruct (store_inv_queued _ _ _ Hinv Hp) as (o & Ho & _ & _).
    destruct (remove_poped_inv ∅ ∅ s q id o Hinv Hc Ho) as (s' & -> & Hs' & _ & _ & _ & Hq'); [by exists p |].
    simpl. apply remove_from_orders_inv; [by eapply store_inv_diff |].
    unfold queued. rewrite Hq', lookup_delete_eq. by intros [].
  - assert (Hsame : pq_content q = pq_content (main_queue s)) by (by rewrite Hc, delete_id).
    apply remove_from_orders_inv; unfold queued; simpl; [| rewrite Hsame, Hp; by intros []].
    destruct Hinv as [H1 H2 H3 H4 H5 H6]. unfold queued in *.
    split; unfold queued; simpl; rewrite ?Hsame; eauto.
Qed.

(** ** New nonces *)

Lemma collect_invalidated_inv X s n :
  inv X ∅ s -> let '(s', X') := collect_invalidated (s, X) n in inv X' ∅ s'.
Proof.
  intros Hinv. unfold collect_invalidated.
  set (ids := default [] (main_queue_nonces s !! an_account n)).
  set (X' := list_to_set ids ∪ X).
  assert (HX : forall i, i ∉ X' -> i ∉ X /\ ~ listed s (an_account n) i).
  { intros i Hi. unfold X' in Hi. rewrite elem_of_union, elem_of_list_to_set in Hi. tauto. }
  assert (Ha : forall i o n', queued s i -> known ∅ s !! i = Some o -> i ∉ X' -> n' ∈ so_nonces o ->
            nonce_address n' <> an_account n).
  { intros i o n' Hq Ho Hi Hn' Heq. destruct (HX _ Hi) as [Hx Hl]. apply Hl. rewrite <- Heq.
    by apply (inv_listed _ _ _ Hinv i o). }
  split; unfold queued, listed; simpl.
  - apply (inv_disj _ _ _ Hinv).
  - apply (inv_id _ _ _ Hinv).
  - intros i p Hp. destruct (inv_queue _ _ _ Hinv _ _ Hp) as (o & Ho & -> & Hr). exists o.
    split_and!; [done | done |]. intros Hi n' Hn' Hopt. unfold current_nonce. simpl.
    rewrite lookup_insert_ne; [apply Hr; [by apply HX | done | done] |].
    apply not_eq_sym. by apply (Ha i o); [exists (prio_new o) | ..].
  - intros i o n' Hq Ho Hi Hn'. rewrite lookup_delete_ne.
    + apply (inv_listed _ _ _ Hinv i o); [done | done | by apply HX | done].
    + apply not_eq_sym. by eapply Ha.
  - intros a i Hi. apply (inv_nonces _ _ _ Hinv). unfold listed.
    destruct (decide (an_account n = a)) as [<- | Hne].
    + rewrite lookup_delete_eq in Hi. by apply not_elem_of_nil in Hi.
    + by rewrite lookup_delete_ne in Hi.
  - intros i. unfold X'. rewrite elem_of_union, elem_of_list_to_set. intros [Hi | Hi].
    + by apply (inv_nonces _ _ _ Hinv) in Hi as [? _].
    + by apply (inv_dirty _ _ _ Hinv).
Qed.

Lemma collect_all_inv ns X s :
  inv X ∅ s -> let '(s', X') := foldl collect_invalidated (s, X) ns in inv X' ∅ s'.
Proof.
  revert X s. induction ns as [| n ns IH]; intros X s Hinv; cbn [foldl]; [done |].
  pose proof (collect_invalidated_inv X s n Hinv) as Hn.
  destruct (collect_invalidated (s, X) n) as [s' X']. by apply IH.
Qed.

Lemma revalidate_order_inv X s id :
  inv X ∅ s -> id ∈ X ->
  exists s', revalidate_order (Some s) id = Some s' /\ inv (X ∖ {[id]}) ∅ s'.
Proof.
  intros Hinv Hid. unfold revalidate_order. pose proof (pq_remove_spec (main_queue s) id) as [Hc _].
  pose proof (inv_dirty _ _ _ Hinv _ Hid) as Hq. pose proof Hq as [p Hp].
  destruct (inv_queue _ _ _ Hinv _ _ Hp) as (o & Ho & _ & _). rewrite (left_id_L ∅ _) in Ho.
  destruct (remove_poped_inv X ∅ s _ id o Hinv Hc Ho Hq) as (s' & -> & Hs' & Hos & _).
  destruct (check_nonces s' (so_nonces o) 0) as [valid vn].
  destruct (valid && _); [| eauto]. eexists. split; [done |].
  assert (so_id o = id) as Hoid.
  { apply (inv_id _ _ _ Hinv). by rewrite (left_id_L ∅ _). }
  rewrite <- (delete_empty (so_id o)) at 1. apply insert_order_inv; [done | set_solver |].
  right. apply lookup_empty.
Qed.

Lemma revalidate_all_inv l s :
  NoDup l -> inv (list_to_set l) ∅ s ->
  exists s', foldl revalidate_order (Some s) l = Some s' /\ store_inv s'.
Proof.
  revert s. induction l as [| id l IH]; intros s Hnd Hinv; [by exists s |].
  apply NoDup_cons in Hnd as [Hid Hnd]. cbn [foldl].
  destruct (revalidate_order_inv _ s id Hinv) as (s' & -> & Hs'); [set_solver |].
  apply IH; [done |].
  replace (list_to_set l : gset OrderId) with (list_to_set (id :: l) ∖ {[id]} : gset OrderId); [done |].
  apply set_eq. intros x. rewrite elem_of_difference, elem_of_singleton, !elem_of_list_to_set, elem_of_cons.
  split; [naive_solver |]. intros Hx. split; [by right |]. by intros ->.
Qed.

(** The orders taken out, as a map. *)
Definition by_id (os : list SimulatedOrder) : gmap OrderId SimulatedOrder :=
  list_to_map ((fun o => (so_id o, o)) <$> os).

Lemma remove_pending_ids_inv ids s D s' os :
  inv ∅ D s -> remove_pending_ids s ids = (s', os) ->
  inv ∅ (by_id os ∪ D) s' /\ NoDup (so_id <$> os) /\ (forall o, o ∈ os -> is_Some (po_orders s !! so_id o)).
Proof.
  revert s D s' os. induction ids as [| id ids IH]; intros s D s' os Hinv; simpl.
  { intros [= <- <-]. unfold by_id. simpl. rewrite (left_id_L ∅ _).
    split_and!; [done | constructor |]. intros o Ho. by apply not_elem_of_nil in Ho. }
  destruct (po_orders s !! id) as [o |] eqn:Ho.
  - assert (Hid : so_id o = id).
    { apply (inv_id _ _ _ Hinv). rewrite lookup_union_r; [done |].
      by apply (map_disjoint_Some_r _ _ _ _ (inv_disj _ _ _ Hinv) Ho). }
    set (s1 := Build_PrioritizedOrderStore _ _ _ _ _ _).
    assert (Hs1 : inv ∅ (<[id := o]> D) s1).
    { assert (Hsame : <[id := o]> D ∪ delete id (po_orders s) = known D s).
      { pose proof (inv_disj _ _ _ Hinv) as Hd. rewrite <- insert_union_l.
        rewrite insert_union_r by (by eapply map_disjoint_Some_r).
        by rewrite insert_delete_id. }
      destruct Hinv as [H1 H2 H3 H4 H5 H6]. split; simpl; rewrite ?Hsame; try done.
      apply map_disjoint_insert_l. split; [apply lookup_delete_eq | by apply map_disjoint_delete_r]. }
    destruct (remove_pending_ids s1 ids) as [s2 os2] eqn:Hr. intros [= <- <-].
    destruct (IH _ _ _ _ Hs1 Hr) as (Hinv2 & Hnd & Hos2).
    assert (Hfresh : so_id o ∉ so_id <$> os2).
    { rewrite list_elem_of_fmap. intros (o2 & Heq & Ho2). apply Hos2 in Ho2 as [x Hx]. simpl in Hx.
      rewrite <- Heq, Hid, lookup_delete_eq in Hx. done. }
    split_and!.
    + replace (by_id (o :: os2) ∪ D) with (by_id os2 ∪ <[id := o]> D); [done |].
      unfold by_id at 2. simpl. fold (by_id os2). rewrite Hid.
      rewrite <- insert_union_l, insert_union_r; [done |].
      apply not_elem_of_list_to_map_1. rewrite <- list_fmap_compose. simpl. by rewrite <- Hid.
    + simpl. by apply NoDup_cons.
    + intros o' [-> | Ho']%elem_of_cons; [rewrite Hid; eauto |].
      apply Hos2 in Ho' as [x Hx]. simpl in Hx. apply lookup_delete_Some in Hx as [_ Hx]. eauto.
  - set (s1 := Build_PrioritizedOrderStore _ _ _ _ _ _).
    assert (Hs1 : inv ∅ D s1).
    { destruct Hinv as [H1 H2 H3 H4 H5 H6]. split; simpl; rewrite ?delete_id by done; done. }
    destruct (remove_pending_ids s1 ids) as [s2 os2] eqn:Hr. intros [= <- <-].
    destruct (IH _ _ _ _ Hs1 Hr) as (Hinv2 & Hnd & Hos2). split_and!; [done | done |].
    intros o' Ho'. apply Hos2 in Ho' as [x Hx]. simpl in Hx.
    apply lookup_delete_Some in Hx as [_ Hx]. eauto.
Qed.

Lemma reinsert_all_inv os s :
  NoDup (so_id <$> os) -> inv ∅ (by_id os) s -> store_inv (foldl po_insert_order s os).
Proof.
  revert s. induction os as [| o os IH]; intros s Hnd Hinv; [done |].
  simpl in *. apply NoDup_cons in Hnd as [Ho Hnd]. apply IH; [done |].
  unfold by_id in *. simpl in *. fold (by_id os) in *.
  rewrite <- (delete_insert_id (by_id os) (so_id o) o).
  - apply insert_order_inv; [done | set_solver |]. left. split; [| apply lookup_insert_eq].
    eapply map_disjoint_Some_l; [apply (inv_disj _ _ _ Hinv) | apply lookup_insert_eq].
  - apply not_elem_of_list_to_map_1. by rewrite <- list_fmap_compose.
Qed.

Lemma wake_pending_inv s n : store_inv s -> store_inv (wake_pending s n).
Proof.
  intros Hinv. unfold wake_pending. destruct (pending_orders s !! n) as [pending |]; [| done].
  set (s1 := Build_PrioritizedOrderStore _ _ _ _ _ _).
  assert (Hs1 : inv ∅ ∅ s1) by (destruct Hinv; by split).
  destruct (remove_pending_ids s1 pending) as [s2 os] eqn:Hr.
  destruct (remove_pending_ids_inv _ _ _ _ _ Hs1 Hr) as (Hinv2 & Hnd & _).
  rewrite (right_id_L ∅ _) in Hinv2. by apply reinsert_all_inv.
Qed.

Lemma update_onchain_nonces_inv s ns :
  store_inv s -> exists s', update_onchain_nonces s ns = Some s' /\ store_inv s'.
Proof.
  intros Hinv. unfold update_onchain_nonces. pose proof (collect_all_inv ns ∅ s Hinv) as Hc.
  destruct (foldl collect_invalidated (s, ∅) ns) as [s1 X].
  destruct (revalidate_all_inv (hash_order X) s1) as (s2 & -> & Hs2).
  - rewrite hash_order_perm. apply NoDup_elements.
  - replace (list_to_set (hash_order X) : gset OrderId) with X; [done |].
    apply set_eq. intros x. by rewrite elem_of_list_to_set, hash_order_perm, elem_of_elements.
  - eexists. split; [done |]. clear Hc. revert s2 Hs2.
    induction ns as [| n ns IH]; intros s2 Hs2; simpl; [done |].
    by apply IH, wake_pending_inv.
Qed.

(** ** Statistics *)

Definition is_bundle (o : Order) : bool := match o with Order_Bundle _ => true | _ => false end.
Definition is_sbundle (o : Order) : bool := match o with Order_ShareBundle _ => true | _ => false end.

Definition count_orders (f : Order -> bool) (m : gmap OrderId SimulatedOrder) : Z :=
  Z.of_nat (size (filter (fun kv => f (so_order kv.2) = true) m)).

(** The counters are the numbers of stored orders of each type, as [i32]. *)
Definition stats_of (m : gmap OrderId SimulatedOrder) : OrderStatistics :=
  {| st_tx_count := i32 (count_orders is_tx m);
     st_bundle_count := i32 (count_orders is_bundle m);
     st_sbundle_count := i32 (count_orders is_sbundle m) |}.

Definition stats_ok s : Prop := orders_statistics s = stats_of (po_orders s).

Lemma count_orders_insert f m id o :
  m !! id = None ->
  count_orders f (<[id := o]> m) = count_orders f m + if f (so_order o) then 1 else 0.
Proof.
  intros Hid. unfold count_orders. destruct (f (so_order o)) eqn:Hf.
  - rewrite map_filter_insert_True by done. rewrite map_size_insert_None; [lia |].
    apply map_lookup_filter_None. by left.
  - rewrite map_filter_insert_False by (simpl; congruence). rewrite delete_id by done. lia.
Qed.

Lemma stats_of_insert m id o :
  m !! id = None -> stats_of (<[id := o]> m) = OrderStatistics_add (stats_of m) (so_order o).
Proof.
  intros Hid. unfold stats_of. rewrite !count_orders_insert by done.
  destruct (so_order o); simpl; unfold i32; rewrite ?wrap_signed_add, ?Z.add_0_r; done.
Qed.

Lemma i32_add_sub n : i32 (i32 (i32 n + 1) - 1) = i32 n.
Proof.
  unfold i32. rewrite <- Z.add_opp_r, wrap_signed_add, <- Z.add_assoc, wrap_signed_add. f_equal. lia.
Qed.

Lemma stats_of_delete m id o :
  m !! id = Some o -> stats_of (delete id m) = OrderStatistics_remove (stats_of m) (so_order o).
Proof.
  intros Hid. rewrite <- (insert_delete_id m id o Hid) at 2.
  rewrite stats_of_insert by apply lookup_delete_eq.
  unfold stats_of. destruct (so_order o); simpl; f_equal; symmetry; apply i32_add_sub.
Qed.

Lemma remove_from_orders_stats s id : stats_ok s -> stats_ok (remove_from_orders s id).1.
Proof.
  unfold stats_ok, remove_from_orders. simpl. intros Hs. destruct (po_orders s !! id) eqn:Ho.
  - rewrite (stats_of_delete _ _ _ Ho). by rewrite Hs.
  - by rewrite delete_id.
Qed.

Lemma remove_poped_stats s id : stats_ok s -> stats_ok (remove_poped_order s id).1.
Proof.
  intros Hs%(remove_from_orders_stats _ id). unfold remove_poped_order.
  destruct (remove_from_orders s id) as [s' [o |]]; done.
Qed.

Lemma insert_order_stats s o : stats_ok s -> stats_ok (po_insert_order s o).
Proof.
  intros Hs. unfold po_insert_order. destruct (po_orders s !! so_id o) eqn:Hid; [done |].
  destruct (pending_nonces s (so_nonces o)) as [[| pn pns] |]; [| | done].
  all: unfold stats_ok in *; simpl; by rewrite stats_of_insert, Hs.
Qed.

Lemma foldl_insert_stats os s : stats_ok s -> stats_ok (foldl po_insert_order s os).
Proof. revert s. induction os as [| o os IH]; intros s Hs; simpl; [done |]. by apply IH, insert_order_stats. Qed.

Lemma remove_order_stats s id : stats_ok s -> stats_ok (po_remove_order s id).1.
Proof.
  intros Hs. unfold po_remove_order. destruct (pq_remove (main_queue s) id) as [q [p |]];
    apply remove_from_orders_stats; [apply remove_poped_stats |]; done.
Qed.

Lemma pop_order_stats s s' o : stats_ok s -> pop_order s = Some (s', o) -> stats_ok s'.
Proof.
  intros Hs. unfold pop_order. destruct (pq_pop (main_queue s)) as [[[id p] q] |]; [| by intros [= <- _]].
  set (s1 := Build_PrioritizedOrderStore _ _ _ _ _ _). pose proof (remove_poped_stats s1 id Hs) as Hr.
  destruct (remove_poped_order s1 id) as [s2 [o2 |]]; [| done]. by intros [= <- _].
Qed.

Lemma collect_all_stats ns X s :
  stats_ok s -> stats_ok (foldl collect_invalidated (s, X) ns).1.
Proof.
  revert X s. induction ns as [| n ns IH]; intros X s Hs; cbn [foldl]; [done |]. by apply IH.
Qed.

Lemma revalidate_all_stats l s s' :
  stats_ok s -> foldl revalidate_order (Some s) l = Some s' -> stats_ok s'.
Proof.
  revert s. induction l as [| id l IH]; intros s Hs; cbn [foldl]; [by intros [= <-] |].
  destruct (revalidate_order (Some s) id) as [s1 |] eqn:Hr.
  - apply IH. unfold revalidate_order in Hr.
    set (s2 := Build_PrioritizedOrderStore _ _ _ _ _ _) in Hr.
    pose proof (remove_poped_stats s2 id Hs) as Hp.
    destruct (remove_poped_order s2 id) as [s3 [o |]]; [| done].
    destruct (check_nonces _ _ _) as [v vn]. destruct (v && _); simplify_eq; [by apply insert_order_stats | done].
  - assert (Hnone : foldl revalidate_order None l = None) by (clear; induction l; done).
    by rewrite Hnone.
Qed.

Lemma wake_pending_stats s n : stats_ok s -> stats_ok (wake_pending s n).
Proof.
  intros Hs. unfold wake_pending. destruct (pending_orders s !! n) as [pending |]; [| done].
  set (s1 := Build_PrioritizedOrderStore _ _ _ _ _ _). assert (Hs1 : stats_ok s1) by done. clearbody s1.
  assert (Hr : stats_ok (remove_pending_ids s1 pending).1).
  { clear Hs s n. revert s1 Hs1. induction pending as [| id ids IH]; intros s Hs; simpl; [done |].
    pose proof (remove_from_orders_stats s id Hs) as Hr.
    unfold remove_from_orders in Hr. simpl in Hr. specialize (IH _ Hr).
    by destruct (remove_pending_ids _ ids). }
  destruct (remove_pending_ids s1 pending) as [s2 os]. by apply foldl_insert_stats.
Qed.

Lemma update_onchain_nonces_stats s s' ns :
  stats_ok s -> update_onchain_nonces s ns = Some s' -> stats_ok s'.
Proof.
  intros Hs. unfold update_onchain_nonces. pose proof (collect_all_stats ns ∅ s Hs) as Hc.
  destruct (foldl collect_invalidated (s, ∅) ns) as [s1 X].
  destruct (foldl revalidate_order (Some s1) (hash_order X)) as [s2 |] eqn:Hr; [| done].
  intros [= <-]. pose proof (revalidate_all_stats _ _ _ Hc Hr) as Hs2. clear Hr Hc Hs s.
  revert s2 Hs2. induction ns as [| n ns IH]; intros s2 Hs2; simpl; [done |].
  by apply IH, wake_pending_stats.
Qed.

(** ** No ready order is forgotten

    An order that is stored but not queued waits in the pending list of each
    nonce that is still ahead.  [R] are the new nonces whose pending lists have
    not been looked at yet. *)
Definition waits s (id : OrderId) (n : AccountNonce) : Prop := id ∈ default [] (pending_orders s !! n).

#[local] Instance waits_dec s id n : Decision (waits s id n).
Proof. unfold waits. apply _. Defined.

Definition nonce_key (n : Nonce) : AccountNonce :=
  {| an_account := nonce_address n; an_nonce := nonce_nonce n |}.

Definition wait_inv (R : list AccountNonce) s : Prop :=
  forall id o, po_orders s !! id = Some o -> ~ queued s id ->
    (forall n, n ∈ so_nonces o -> nonce_optional n = false ->
       current_nonce s (nonce_address n) < nonce_nonce n -> waits s id (nonce_key n))
    /\ (~ ready s o \/ exists m, m ∈ R /\ waits s id m).

Lemma pending_nonces_elem s ns l n :
  pending_nonces s ns = Some l -> n ∈ ns -> nonce_optional n = false ->
  current_nonce s (nonce_address n) < nonce_nonce n -> nonce_key n ∈ l.
Proof.
  revert l. induction ns as [| n' ns IH]; intros l; [intros _ Hn; by apply not_elem_of_nil in Hn |].
  simpl. destruct (_ && _); [done |]. destruct (pending_nonces s ns) as [l' |]; [| done].
  intros [= <-] [-> | Hn]%elem_of_cons Hopt Hlt.
  - rewrite bool_decide_eq_true_2, Hopt by done. by left.
  - specialize (IH _ eq_refl Hn Hopt Hlt). destruct (_ && _); [by right | done].
Qed.

Lemma waits_add m l id id' n :
  id' ∈ default [] (foldl (add_pending id) m l !! n)
  <-> id' ∈ default [] (m !! n) \/ id' = id /\ n ∈ l.
Proof.
  revert m. induction l as [| k l IH]; intros m; simpl.
  { rewrite elem_of_nil. naive_solver. }
  rewrite IH, elem_of_cons. unfold add_pending. destruct (decide (k = n)) as [<- | Hne].
  - rewrite lookup_insert_eq. simpl. case_decide as Hin; [naive_solver |].
    rewrite elem_of_app, list_elem_of_singleton. naive_solver.
  - rewrite lookup_insert_ne by done. naive_solver.
Qed.

Lemma insert_order_wait R s o : wait_inv R s -> wait_inv R (po_insert_order s o).
Proof.
  intros Hw. unfold po_insert_order. destruct (po_orders s !! so_id o) eqn:Hid; [done |].
  destruct (pending_nonces s (so_nonces o)) as [[| pn pns] |] eqn:Hp;
    [| remember (pn :: pns) as l eqn:Hl | done];
    intros id o'; unfold queued; simpl; rewrite lookup_insert_Some; intros [[<- <-] | [Hne Ho']] Hq.
  - destruct Hq. rewrite pq_content_push, lookup_insert_eq. by eexists.
  - rewrite pq_content_push, lookup_insert_ne in Hq by done. by apply (Hw id o').
  - split.
    + intros n Hn Hopt Hlt. unfold waits. cbn [pending_orders]. rewrite waits_add. right.
      split; [done |]. by apply (pending_nonces_elem s (so_nonces o)).
    + left. intros Hr. assert (Hr' : ready s o) by exact Hr.
      apply pending_nonces_nil in Hr'. congruence.
  - destruct (Hw id o' Ho' Hq) as [H1 H2]. unfold waits. cbn [pending_orders].
    setoid_rewrite waits_add. split; [naive_solver |].
    destruct H2 as [? | (m & Hm & Hwm)]; [by left | right]. exists m. split; [done | by left].
Qed.

Lemma foldl_insert_wait R os s : wait_inv R s -> wait_inv R (foldl po_insert_order s os).
Proof. revert s. induction os as [| o os IH]; intros s Hs; simpl; [done |]. by apply IH, insert_order_wait. Qed.

(** Removing orders keeps the rest waiting. *)
Lemma wait_inv_remove R s s' :
  wait_inv R s -> onchain_nonces s' = onchain_nonces s -> pending_orders s' = pending_orders s ->
  (forall id o, po_orders s' !! id = Some o -> po_orders s !! id = Some o /\ (queued s id -> queued s' id)) ->
  wait_inv R s'.
Proof.
  intros Hw Hc Hp Ho id o Hid Hq. destruct (Ho _ _ Hid) as [Hid' Hq'].
  destruct (Hw id o Hid') as [H1 H2]; [naive_solver |].
  unfold waits, ready, current_nonce in *. by rewrite Hc, Hp.
Qed.

Lemma remove_from_orders_wait R s id : wait_inv R s -> wait_inv R (remove_from_orders s id).1.
Proof.
  intros Hw. eapply wait_inv_remove; [done.. |]. simpl.
  intros i o [_ Ho]%lookup_delete_Some. done.
Qed.

(** Taking an order off the queue and out of the map. *)
Lemma remove_poped_wait R s q id :
  wait_inv R s -> pq_content q = delete id (pq_content (main_queue s)) ->
  wait_inv R (remove_poped_order
    (Build_PrioritizedOrderStore q (main_queue_nonces s) (onchain_nonces s)
       (pending_orders s) (po_orders s) (orders_statistics s)) id).1.
Proof.
  intros Hw Hc. unfold remove_poped_order, remove_from_orders. simpl.
  assert (Hq : forall i, i <> id -> queued s i -> is_Some (pq_content q !! i)).
  { intros i Hi. rewrite Hc, lookup_delete_ne by done. done. }
  destruct (po_orders s !! id) as [o |] eqn:Ho; (eapply wait_inv_remove; [done.. |]); simpl;
    intros i o' [Hne Ho']%lookup_delete_Some; (split; [done | by apply Hq]).
Qed.

Lemma remove_order_wait R s id : wait_inv R s -> wait_inv R (po_remove_order s id).1.
Proof.
  intros Hw. unfold po_remove_order. pose proof (pq_remove_spec (main_queue s) id) as [Hc Hr].
  destruct (pq_remove (main_queue s) id) as [q [p |]]; apply remove_from_orders_wait; simpl in *.
  - by apply remove_poped_wait.
  - eapply wait_inv_remove; [done.. |]. unfold queued. simpl. rewrite Hc, delete_id by done. done.
Qed.

Lemma pop_order_wait R s s' o : wait_inv R s -> pop_order s = Some (s', o) -> wait_inv R s'.
Proof.
  intros Hw. unfold pop_order. destruct (pq_pop (main_queue s)) as [[[id p] q] |] eqn:Hpop; [| by intros [= <- _]].
  apply pq_pop_Some in Hpop as (_ & Hc & _). pose proof (remove_poped_wait R s q id Hw Hc) as Hr.
  destruct (remove_poped_order _ id) as [s2 [o2 |]]; [| done]. by intros [= <- _].
Qed.

(** The new nonces never go back. *)
Fixpoint nonces_grow (m : gmap Address U64) (ns : list AccountNonce) : Prop :=
  match ns with
  | [] => True
  | n :: ns => default 0 (m !! an_account n) <= an_nonce n
               /\ nonces_grow (<[an_account n := an_nonce n]> m) ns
  end.

Lemma collect_all_wait ns R X s :
  wait_inv R s -> nonces_grow (onchain_nonces s) ns ->
  wait_inv (R ++ ns) (foldl collect_invalidated (s, X) ns).1.
Proof.
  revert R X s. induction ns as [| n ns IH]; intros R X s Hw Hg; cbn [foldl].
  { by rewrite app_nil_r. }
  destruct Hg as [Hle Hg]. replace (R ++ n :: ns) with ((R ++ [n]) ++ ns) by (by rewrite <- app_assoc).
  apply IH; [| done]. clear IH. intros id o Ho Hq. simpl in *. destruct (Hw id o Ho Hq) as [H1 H2].
  unfold ready, current_nonce in *. simpl. split.
  - intros n' Hn' Hopt Hlt. apply H1; [done | done |].
    destruct (decide (an_account n = nonce_address n')) as [Heq | Hne].
    + rewrite Heq, lookup_insert_eq in Hlt. rewrite Heq in Hle. simpl in Hlt. lia.
    + by rewrite lookup_insert_ne in Hlt.
  - destruct H2 as [Hnr | (m & Hm & Hwm)].
    + destruct (decide (waits s id n)) as [Hwn | Hwn].
      { right. exists n. split; [apply elem_of_app; right; by apply list_elem_of_singleton | done]. }
      left. intros Hr. apply Hnr. intros n' Hn' Hopt. specialize (Hr n' Hn' Hopt).
      destruct (decide (an_account n = nonce_address n')) as [Heq | Hne];
        [| by rewrite lookup_insert_ne in Hr].
      rewrite Heq, lookup_insert_eq in Hr. simpl in Hr. rewrite Heq in Hle.
      destruct (decide (default 0 (onchain_nonces s !! nonce_address n') = nonce_nonce n')); [done |].
      destruct Hwn. replace n with (nonce_key n'); [apply H1; [done | done | lia] |].
      unfold nonce_key. destruct n; simpl in *. congruence.
    + right. exists m. split; [apply elem_of_app; by left | done].
Qed.

Lemma revalidate_all_wait l R s s' :
  wait_inv R s -> foldl revalidate_order (Some s) l = Some s' -> wait_inv R s'.
Proof.
  revert s. induction l as [| id l IH]; intros s Hs; cbn [foldl]; [by intros [= <-] |].
  destruct (revalidate_order (Some s) id) as [s1 |] eqn:Hr.
  - apply IH. unfold revalidate_order in Hr. pose proof (pq_remove_spec (main_queue s) id) as [Hc _].
    pose proof (remove_poped_wait R s _ id Hs Hc) as Hp.
    destruct (remove_poped_order _ id) as [s3 [o |]]; [| done].
    destruct (check_nonces _ _ _) as [v vn]. destruct (v && _); simplify_eq; [by apply insert_order_wait | done].
  - assert (Hnone : foldl revalidate_order None l = None) by (clear; induction l; done).
    by rewrite Hnone.
Qed.

(** Taking the ids of a pending list out of the map. *)
Lemma remove_pending_ids_spec ids s s' os :
  remove_pending_ids s ids = (s', os) ->
  main_queue s' = main_queue s /\ onchain_nonces s' = onchain_nonces s
  /\ pending_orders s' = pending_orders s
  /\ forall id o, po_orders s' !! id = Some o -> po_orders s !! id = Some o /\ id ∉ ids.
Proof.
  revert s s' os. induction ids as [| id ids IH]; intros s s' os; simpl.
  { intros [= <- <-]. split_and!; [done.. |]. intros id o Ho. split; [done |]. apply not_elem_of_nil. }
  set (s1 := Build_PrioritizedOrderStore _ _ _ _ _ _).
  destruct (remove_pending_ids s1 ids) as [s2 os2] eqn:Hr. intros [= <- <-].
  destruct (IH _ _ _ Hr) as (-> & -> & -> & Hos). split_and!; [done.. |].
  intros i o Ho. destruct (Hos _ _ Ho) as [Ho1 Hni]. simpl in Ho1.
  apply lookup_delete_Some in Ho1 as [Hne Ho1]. split; [done |]. rewrite elem_of_cons. naive_solver.
Qed.

Lemma wake_pending_wait R s n : wait_inv (n :: R) s -> wait_inv R (wake_pending s n).
Proof.
  intros Hw. unfold wake_pending. destruct (pending_orders s !! n) as [pending |] eqn:Hp.
  - set (s1 := Build_PrioritizedOrderStore _ _ _ _ _ _).
    destruct (remove_pending_ids s1 pending) as [s2 os] eqn:Hr.
    destruct (remove_pending_ids_spec _ _ _ _ Hr) as (Hq2 & Hc2 & Hp2 & Ho2).
    apply foldl_insert_wait. intros id o Ho Hq. destruct (Ho2 _ _ Ho) as [Ho1 Hni].
    unfold queued in Hq. rewrite Hq2 in Hq. destruct (Hw id o Ho1 Hq) as [H1 H2].
    assert (Hwaits : forall m, waits s id m -> waits s2 id m).
    { intros m Hm. unfold waits in *. rewrite Hp2. simpl. destruct (decide (n = m)) as [<- | Hne].
      - rewrite Hp in Hm. done.
      - by rewrite lookup_delete_ne. }
    unfold ready, current_nonce in *. rewrite Hc2. simpl. split; [by eauto |].
    destruct H2 as [? | (m & [-> | Hm]%elem_of_cons & Hwm)]; [by left | | right; eauto].
    unfold waits in Hwm. by rewrite Hp in Hwm.
  - intros id o Ho Hq. destruct (Hw id o Ho Hq) as [H1 H2]. split; [done |].
    destruct H2 as [? | (m & [-> | Hm]%elem_of_cons & Hwm)]; [by left | | right; eauto].
    unfold waits in Hwm. rewrite Hp in Hwm. by apply not_elem_of_nil in Hwm.
Qed.

Lemma update_onchain_nonces_wait s s' ns :
  wait_inv [] s -> nonces_grow (onchain_nonces s) ns ->
  update_onchain_nonces s ns = Some s' -> wait_inv [] s'.
Proof.
  intros Hs Hg. unfold update_onchain_nonces. pose proof (collect_all_wait ns [] ∅ s Hs Hg) as Hc.
  destruct (foldl collect_invalidated (s, ∅) ns) as [s1 X].
  destruct (foldl revalidate_order (Some s1) (hash_order X)) as [s2 |] eqn:Hr; [| done].
  intros [= <-]. pose proof (revalidate_all_wait _ _ _ _ Hc Hr) as Hs2. simpl in Hs2.
  clear Hr Hc Hs Hg s. revert s2 Hs2. induction ns as [| n ns IH]; intros s2 Hs2; simpl; [done |].
  by apply IH, wake_pending_wait.
Qed.

(** ** Reachable stores *)

(** Every use of the store; [G] restricts the nonce updates. *)
Inductive store_reachable (G : PrioritizedOrderStore Q -> list AccountNonce -> Prop)
  : PrioritizedOrderStore Q -> Prop :=
| sr_new initial : store_reachable G (PrioritizedOrderStore_new initial)
| sr_insert s o : store_reachable G s -> store_reachable G (po_insert_order s o)
| sr_remove s id : store_reachable G s -> store_reachable G (po_remove_order s id).1
| sr_pop s s' o : store_reachable G s -> pop_order s = Some (s', o) -> store_reachable G s'
| sr_update s s' ns : store_reachable G s -> G s ns ->
    update_onchain_nonces s ns = Some s' -> store_reachable G s'.

Lemma new_inv initial : store_inv (PrioritizedOrderStore_new initial).
Proof.
  split; unfold queued, listed; simpl; rewrite ?pq_content_new.
  - apply map_disjoint_empty_l.
  - intros id o. by rewrite (left_id_L ∅ _), lookup_empty.
  - intros id p. by rewrite lookup_empty.
  - intros id o n Hq. rewrite lookup_empty in Hq. by destruct Hq.
  - intros a id Hid. rewrite lookup_empty in Hid. by apply not_elem_of_nil in Hid.
  - set_solver.
Qed.

Lemma store_reachable_inv G s : store_reachable G s -> store_inv s /\ stats_ok s.
Proof.
  induction 1 as [initial | s o _ [IH1 IH2] | s id _ [IH1 IH2] | s s' o _ [IH1 IH2] Hpop
                 | s s' ns _ [IH1 IH2] _ Hup].
  - split; [apply new_inv | done].
  - split; [| by apply insert_order_stats].
    unfold store_inv. rewrite <- (delete_empty (so_id o)) at 1.
    apply insert_order_inv; [done | set_solver | right; apply lookup_empty].
  - split; [by apply remove_order_inv | by apply remove_order_stats].
  - split; [| by eapply pop_order_stats]. destruct (pop_order_inv s IH1) as (? & ? & ? & ?). by simplify_eq.
  - split; [| by eapply update_onchain_nonces_stats].
    destruct (update_onchain_nonces_inv s ns IH1) as (? & ? & ?). by simplify_eq.
Qed.

Lemma store_reachable_wait s :
  store_reachable (fun s ns => nonces_grow (onchain_nonces s) ns) s -> wait_inv [] s.
Proof.
  induction 1 as [initial | s o _ IH | s id _ IH | s s' o _ IH Hpop | s s' ns _ IH Hg Hup].
  - intros id o Ho. simpl in Ho. by rewrite lookup_empty in Ho.
  - by apply insert_order_wait.
  - by apply remove_order_wait.
  - by eapply pop_order_wait.
  - by eapply update_onchain_nonces_wait.
Qed.

End inv.

(** ** Properties *)
Section theorems.
Context {P Q : Type} `{!OrderPriority P} `{!PriorityQueue P Q} `{!PriorityQueueOk P Q}.
Context `{!HashOrder OrderId} `{!HashOrderOk OrderId}.
Implicit Types s : PrioritizedOrderStore Q.

(** In every store reachable by inserting, removing, popping and updating nonces
    in any order, pop_order and update_onchain_nonces return: the two
    expects on an order taken from the queue cannot fail. *)
Theorem store_never_panics G s :
  store_reachable G s ->
  (exists s' o, pop_order s = Some (s', o))
  /\ (forall ns, exists s', update_onchain_nonces s ns = Some s').
Proof.
  intros [Hinv _]%store_reachable_inv. split.
  - destruct (pop_order_inv s Hinv) as (s' & o & Hp & _). eauto.
  - intros ns. destruct (update_onchain_nonces_inv s ns Hinv) as (s' & Hu & _). eauto.
Qed.

(** C4. In every reachable prioritized store a queued order is stored under its id,
    is ready for the on-chain nonces and is listed at each of its accounts;
    the lists name only queued orders; and the statistics count exactly the
    stored orders. *)
Theorem store_consistent G s :
  store_reachable G s ->
  (forall id, queued s id -> exists o, po_orders s !! id = Some o /\ so_id o = id /\ ready s o
     /\ forall n, n ∈ so_nonces o -> listed s (nonce_address n) id)
  /\ (forall a id, listed s a id -> queued s id)
  /\ orders_statistics s = stats_of (po_orders s).
Proof.
  intros [Hinv Hst]%store_reachable_inv. split_and!; [| | exact Hst].
  - intros id [p Hp]. destruct (store_inv_queued s id p Hinv Hp) as (o & Ho & _ & Hr).
    exists o. assert (Hk : (∅ ∪ po_orders s) !! id = Some o) by (by rewrite (left_id_L ∅ _)).
    split_and!; [done | by apply (inv_id _ _ _ Hinv) | done |].
    intros n Hn. apply (inv_listed _ _ _ Hinv id o n); [by exists p | done | set_solver | done].
  - intros a id Hl. by apply (inv_nonces _ _ _ Hinv) in Hl as [? _].
Qed.

(** C37. A popped order was stored, queued and ready, is removed from the store, and
    no queued order has a higher priority. *)
Theorem pop_order_best G s s' o :
  store_reachable G s -> pop_order s = Some (s', Some o) ->
  po_orders s !! so_id o = Some o /\ queued s (so_id o) /\ ready s o
  /\ po_orders s' = delete (so_id o) (po_orders s)
  /\ forall id o', queued s id -> po_orders s !! id = Some o' ->
       prio_cmp (prio_new o' : P) (prio_new o) <> Gt.
Proof.
  intros [Hinv _]%store_reachable_inv. unfold pop_order.
  destruct (pq_pop (main_queue s)) as [[[id p] q] |] eqn:Hpop; [| done].
  apply pq_pop_Some in Hpop as (Hp & Hc & Hmax).
  destruct (store_inv_queued s id p Hinv Hp) as (o1 & Ho1 & -> & Hr).
  destruct (remove_poped_inv ∅ ∅ s q id o1 Hinv Hc Ho1) as (s1 & -> & _ & Hos & _);
    [by eexists |]. intros [= <- <-].
  assert (Hid : so_id o1 = id) by (apply (inv_id _ _ _ Hinv); by rewrite (left_id_L ∅ _)).
  rewrite Hid. split_and!; [done | by eexists | done | done |].
  intros id' o' [p' Hp'] Ho'. destruct (store_inv_queued s id' p' Hinv Hp') as (o2 & Ho2 & -> & _).
  simplify_eq. by eapply Hmax.
Qed.

(** C38. While on-chain nonces only grow, every stored order whose nonces are reached
    is in the queue: no order is forgotten among the pending ones. *)
Theorem ready_orders_queued s id o :
  store_reachable (fun s ns => nonces_grow (onchain_nonces s) ns) s ->
  po_orders s !! id = Some o -> ready s o -> queued s id.
Proof.
  intros Hr%store_reachable_wait Ho Hready.
  destruct (pq_content (main_queue s) !! id) as [p |] eqn:Hq; [by exists p |].
  destruct (Hr id o Ho) as [_ [? | (m & Hm & _)]]; [| done | by apply not_elem_of_nil in Hm].
  unfold queued. rewrite Hq. by intros [].
Qed.

(** Removing a queued order from the prioritized store removes it but reports
    None, as if it had not been found. *)
Theorem remove_order_queued_returns_none G s id :
  store_reachable G s -> queued s id ->
  (po_remove_order s id).2 = None /\ po_orders (po_remove_order s id).1 !! id = None.
Proof.
  intros [Hinv _]%store_reachable_inv [p Hp]. unfold po_remove_order.
  pose proof (pq_remove_spec (main_queue s) id) as [Hc Hrm].
  destruct (pq_remove (main_queue s) id) as [q r]. simpl in Hc, Hrm. rewrite Hp in Hrm. subst r.
  destruct (store_inv_queued s id p Hinv Hp) as (o & Ho & _ & _).
  destruct (remove_poped_inv ∅ ∅ s q id o Hinv Hc Ho) as (s1 & -> & _ & Hos & _); [by exists p |].
  simpl. by rewrite Hos, delete_delete_eq, lookup_delete_eq.
Qed.

End theorems.

(** ** A queue that satisfies the interface: a map searched for its maximum *)
Section map_queue.
Context {P : Type} `{!OrderPriority P}.

Fixpoint best (l : list (OrderId * P)) : option (OrderId * P) :=
  match l with
  | [] => None
  | x :: l =>
      match best l with
      | None => Some x
      | Some y => match prio_cmp x.2 y.2 with Gt => Some x | _ => Some y end
      end
  end.

Definition map_queue_instance : PriorityQueue P (gmap OrderId P) := {|
  pq_new := ∅;
  pq_push q id p := <[id := p]> q;
  pq_pop q := (fun x => (x.1, x.2, delete x.1 q)) <$> best (map_to_list q);
  pq_remove q id := (delete id q, q !! id);
  pq_content q := q;
|}.

Lemma best_None l : best l = None <-> l = [].
Proof.
  destruct l as [| x l]; [done |]. simpl. split; [| done].
  destruct (best l); [by destruct (prio_cmp _ _) | done].
Qed.

Lemma best_Some `{!OrderPriorityOk P} l x :
  best l = Some x -> x ∈ l /\ forall y, y ∈ l -> prio_cmp y.2 x.2 <> Gt.
Proof.
  pose proof prio_cmp_ok as Hok. revert x. induction l as [| z l IH]; intros x; [done |]. simpl.
  destruct (best l) as [w |] eqn:Hb.
  - destruct (IH w eq_refl) as [Hin Hmax]. destruct (prio_cmp z.2 w.2) eqn:Hc; intros [= <-].
    1,2: split; [by right |]; intros y [-> | Hy]%elem_of_cons; [by rewrite Hc | auto].
    split; [by left |]. intros y [-> | Hy]%elem_of_cons; [by rewrite (cmp_refl _ Hok) |].
    apply (cmp_trans _ Hok _ w.2); [auto |]. by rewrite (cmp_antisym _ Hok z.2), Hc.
  - apply best_None in Hb as ->. intros [= <-]. split; [by left |].
    intros y [-> | Hy]%elem_of_cons; [by rewrite (cmp_refl _ Hok) | by apply not_elem_of_nil in Hy].
Qed.

Lemma map_queue_ok `{!OrderPriorityOk P} :
  @PriorityQueueOk P (gmap OrderId P) _ map_queue_instance.
Proof.
  split; simpl; try done.
  - intros q. rewrite fmap_None, best_None. apply map_to_list_empty_iff.
  - intros q id p q' Hp. apply fmap_Some in Hp as ([id' p'] & Hb & [= -> -> ->]).
    apply best_Some in Hb as [Hin Hmax]. apply elem_of_map_to_list in Hin.
    split_and!; [done | done |]. intros i pi Hi. apply (Hmax (i, pi)).
    by apply elem_of_map_to_list.
Qed.

End map_queue.

#[local] Existing Instance map_queue_instance.
#[local] Existing Instance map_queue_ok.
#[local] Instance id_order : HashOrder OrderId := elements_order.
#[local] Instance id_order_ok : HashOrderOk OrderId.
Proof. by intros s. Qed.

(** ** Instances of the theorems *)
Abbreviation sample_priority := (Priority OrderMaxProfitPriority FullProfitInfoGetter) (only parsing).

Definition sample_tx_a := sample_sim (sample_mempool 1 11 0) 5 21000.
Definition sample_tx_b := sample_sim (sample_mempool 2 22 0) 9 21000.
Definition sample_tx_c := sample_sim (sample_mempool 3 22 1) 20 21000.

(** Two ready orders, the third waits for account 22 to reach nonce 1. *)
Definition sample_store : PrioritizedOrderStore (gmap OrderId sample_priority) :=
  foldl po_insert_order (PrioritizedOrderStore_new []) [sample_tx_a; sample_tx_b; sample_tx_c].

Lemma sample_store_reachable G : store_reachable G sample_store.
Proof. unfold sample_store. cbn [foldl]. repeat apply sr_insert. apply sr_new. Qed.

Lemma store_never_panics_witness :
  exists s' o, pop_order sample_store = Some (s', o).
Proof.
  exact (proj1 (store_never_panics (fun _ _ => True) sample_store (sample_store_reachable _))).
Defined.

Lemma store_consistent_witness :
  orders_statistics sample_store = {| st_tx_count := 3; st_bundle_count := 0; st_sbundle_count := 0 |}.
Proof.
  rewrite (proj2 (proj2 (store_consistent (fun _ _ => True) sample_store (sample_store_reachable _)))).
  vm_compute. reflexivity.
Defined.

Lemma pop_order_best_witness :
  exists s', pop_order sample_store = Some (s', Some sample_tx_b) /\ ready sample_store sample_tx_b.
Proof.
  destruct (pop_order sample_store) as [[s' [o |]] |] eqn:Hp; [| by vm_compute in Hp..].
  pose proof (pop_order_best (fun _ _ => True) sample_store s' o (sample_store_reachable _) Hp)
    as (_ & _ & Hr & _).
  exists s'. assert (o = sample_tx_b) as -> by (vm_compute in Hp; by injection Hp).
  split; [reflexivity | exact Hr].
Defined.

Lemma ready_orders_queued_witness : queued sample_store (Id_Tx 1).
Proof.
  apply (ready_orders_queued sample_store (Id_Tx 1) sample_tx_a).
  - apply sample_store_reachable.
  - vm_compute. reflexivity.
  - intros n Hn _. apply list_elem_of_singleton in Hn as ->. reflexivity.
Defined.

Lemma remove_order_queued_witness : (po_remove_order sample_store (Id_Tx 1)).2 = None.
Proof.
  apply (remove_order_queued_returns_none (fun _ _ => True) sample_store (Id_Tx 1)).
  - apply sample_store_reachable.
  - eexists. vm_compute. reflexivity.
Defined.
