(* ===== verification/World.v ===== *)
(** * Chain state, building context and block space (building/mod.rs,
      order_commit.rs, tracers.rs, payout_tx.rs)

    The EVM, its database and the execution cache are behind interfaces: the
    class [ChainState] for the state of the block being built, with the laws of
    its undo log, and [TxCache] for the execution cache.  On top of them: the
    context of a block, the accounting of block space, the simulation tracers
    and the payout transactions. *)

From S2P Require Import Prelude Transactions Bundles Orders SimTypes.

(** ** Errors *)
Inductive InvalidTransaction :=
| NonceTooHigh (tx state : U64)
| InvalidOther (code : Z).

Inductive TransactionErr :=
| TxErr_InvalidTransaction (e : InvalidTransaction)
| TxErr_Blocklist
| TxErr_GasLeft
| TxErr_BlobGasLeft
| TxErr_BlockSpaceLeft.

Inductive CriticalCommitOrderError :=
| Critical_Reth
| Critical_EVM
| Critical_BigIntConversion.

(** ** The state of the block under construction *)
Record AccountInfo := { acc_balance : U256; acc_nonce : U64; acc_code_hash : B256 }.

(** [keccak256] of the empty string: the code hash of an account without code. *)
Definition KECCAK_EMPTY : B256 :=
  0xc5d2460186f7233c927e7db2dcc703c0e500b653ca82273b7bfad8045d85a470.

(** What the interpreter reports of a transaction. *)
Record EvmOutput (Diff : Type) := {
  ev_gas_used : U64;
  ev_gas_refunded : U64;
  ev_success : bool;
  ev_logs : list Z;
  ev_state : Diff;
  ev_access_list : list Address;
  ev_trace : UsedStateTrace;
}.
Arguments ev_gas_used {_} _.
Arguments ev_gas_refunded {_} _.
Arguments ev_success {_} _.
Arguments ev_logs {_} _.
Arguments ev_state {_} _.
Arguments ev_access_list {_} _.
Arguments ev_trace {_} _.

Inductive EVMError :=
| EVMError_Transaction (e : InvalidTransaction)
| EVMError_Fatal.

(** The bundle state over the provider.  [commit] applies the changes of a
    transaction and opens a new entry of the undo log ([merge_transitions]);
    [revert n] undoes the last [n] entries.  [transact_with_balance] runs a
    transaction with the sender's balance raised and keeps no change. *)
Class ChainState (W Diff : Type) := {
  cs_equiv :: Equiv W;
  basic : W -> Address -> result (option AccountInfo) unit;
  commit : W -> Diff -> W;
  revert : W -> nat -> W;
  changed_accounts : W -> nat -> list Address;
  transact : W -> TxWithBlobs -> result (EvmOutput Diff) EVMError;
  transact_with_balance : W -> TxWithBlobs -> Address -> Z -> result (EvmOutput Diff) EVMError;
}.

(** Reverting undoes committing, up to what can be read of the state; balances
    are 256-bit numbers. *)
Class ChainStateOk (W Diff : Type) `{ChainState W Diff} : Prop := {
  cs_equivalence :: Equivalence (≡@{W});
  basic_proper :: Proper ((≡) ==> (=) ==> (=)) (basic (W:=W));
  revert_proper :: Proper ((≡) ==> (=) ==> (≡)) (revert (W:=W));
  revert_0 w : revert w 0 ≡ w;
  revert_commit w d n : revert (commit w d) (S n) ≡ revert w n;
  revert_revert w n m : revert (revert w n) m ≡ revert w (n + m);
  basic_balance w a i : basic w a = Ok (Some i) -> is_u256 (acc_balance i);
}.

Section reads.
Context {W Diff : Type} `{ChainState W Diff}.

(** [BlockState::balance], [nonce] and [code_hash]: a missing account reads as
    empty. *)
Definition state_balance (w : W) (a : Address) : result U256 unit :=
  let? acc := basic w a in Ok (match acc with Some i => acc_balance i | None => 0 end).
Definition state_nonce (w : W) (a : Address) : result U64 unit :=
  let? acc := basic w a in Ok (match acc with Some i => acc_nonce i | None => 0 end).
Definition state_code_hash (w : W) (a : Address) : result B256 unit :=
  let? acc := basic w a in
  Ok (match acc with Some i => acc_code_hash i | None => KECCAK_EMPTY end).

End reads.

(** The cache of executions: a hit returns the stored outcome and its trace, a
    miss says whether to store the new one.  What is stored with an outcome (the reads
    and the trace of the execution) is determined by the state and the transaction. *)
Class TxCache (W Diff C : Type) := {
  get_cached_result : C -> W -> TxHash -> Address ->
    result (option (result (EvmOutput Diff) TransactionErr * UsedStateTrace) * bool) unit;
  store_result : C -> W -> TxWithBlobs -> Address -> result (EvmOutput Diff) TransactionErr -> C;
}.

(** ** Block space *)
Record BlockBuildingSpaceState := {
  ss_space_used : BlockSpace;
  ss_reserved : BlockSpace;
}.

Definition SpaceState_ZERO : BlockBuildingSpaceState :=
  {| ss_space_used := BlockSpace_ZERO; ss_reserved := BlockSpace_ZERO |}.

Definition free_reserved_block_space (s : BlockBuildingSpaceState) : BlockBuildingSpaceState :=
  {| ss_space_used := ss_space_used s; ss_reserved := BlockSpace_ZERO |}.

Definition total_consumed_space (s : BlockBuildingSpaceState) : BlockSpace :=
  BlockSpace_add (ss_space_used s) (ss_reserved s).

Definition reserve_block_space (s : BlockBuildingSpaceState) (space : BlockSpace)
  : BlockBuildingSpaceState :=
  {| ss_space_used := ss_space_used s; ss_reserved := BlockSpace_add (ss_reserved s) space |}.

Definition use_space (s : BlockBuildingSpaceState) (space : BlockSpace) : BlockBuildingSpaceState :=
  {| ss_space_used := BlockSpace_add (ss_space_used s) space; ss_reserved := ss_reserved s |}.

(** [free_used_state] panics when more is freed than used. *)
Definition free_used_state (s : BlockBuildingSpaceState) (space : BlockSpace)
  : option BlockBuildingSpaceState :=
  let! used := BlockSpace_sub_assign (ss_space_used s) space in
  Some {| ss_space_used := used; ss_reserved := ss_reserved s |}.

(** ** The context of a block *)
Record BlockBuildingContext := {
  ctx_beneficiary : Address;
  ctx_basefee : U64;
  ctx_gas_limit : U64;
  ctx_tx_gas_limit_cap : option U64;
  ctx_gas_available : U64;
  ctx_max_blob_gas_per_block : U64;
  ctx_block : U64;
  ctx_timestamp : U64;
  ctx_chain_id : Z;
  ctx_builder_address : Address;
  ctx_blocklist : gset Address;
  ctx_mev_blocker_price : U256;
  ctx_suggested_fee_recipient : Address;
  ctx_mempool_txs : gset TxHash;
}.

(** [gas_available] of [from_attributes]: the gas limit without the gas reserved
    for constraints. *)
Definition gas_available_for (gas_limit constraint_reserved_gas : U64) : U64 :=
  saturating_sub gas_limit constraint_reserved_gas.

(** EIP-7934: 10 MiB less a margin of 2 MiB. *)
Definition MAX_RLP_BLOCK_SIZE : Z := 8388608.
Definition BASE_TX_GAS : U64 := 21000.

Definition get_percent (value : U256) (percent : Z) : U256 := u256_mul value percent `div` 100.

(** ** Tracers of simulations *)
Inductive SimulationTracer :=
| Tracer_unit
| GasUsedSimulationTracer (used_gas : U64)
| AccumulatorSimulationTracer (used_gas : U64) (trace : UsedStateTrace).

Definition add_gas_used (t : SimulationTracer) (gas : U64) : SimulationTracer :=
  match t with
  | Tracer_unit => Tracer_unit
  | GasUsedSimulationTracer used => GasUsedSimulationTracer (u64_add used gas)
  | AccumulatorSimulationTracer used trace => AccumulatorSimulationTracer (u64_add used gas) trace
  end.

Definition should_collect_used_state_trace (t : SimulationTracer) : bool :=
  match t with AccumulatorSimulationTracer _ _ => true | _ => false end.

Definition add_used_state_trace (t : SimulationTracer) (trace : UsedStateTrace) : SimulationTracer :=
  match t with
  | AccumulatorSimulationTracer used old => AccumulatorSimulationTracer used (append_trace old trace)
  | _ => t
  end.

Definition get_used_state_tracer (t : SimulationTracer) : option UsedStateTrace :=
  match t with AccumulatorSimulationTracer _ trace => Some trace | _ => None end.

(** ** Payout transactions *)
Record TxEip1559 := {
  p_chain_id : Z;
  p_nonce : U64;
  p_gas_limit : U64;
  p_max_fee_per_gas : Z;
  p_max_priority_fee_per_gas : Z;
  p_to : Address;
  p_value : U256;
}.

(** [Signer::sign_tx]: library code, and it yields a transaction without blobs
    that pays what was asked for; a transfer without data is short. *)
Class PayoutSigner := sign_tx : TxEip1559 -> option TransactionSigned.
Class PayoutSignerOk `{PayoutSigner} : Prop := {
  sign_tx_fields p tx : sign_tx p = Some tx ->
    ts_blob_versioned_hashes tx = None /\ ts_to tx = Some (p_to p)
    /\ ts_value tx = p_value p /\ ts_nonce tx = p_nonce p /\ ts_gas_limit tx = p_gas_limit p;
  sign_tx_length p tx : sign_tx p = Some tx -> 0 <= ts_length tx < 2 ^ 16;
}.

Inductive PayoutTxErr := PayoutErr_Reth | PayoutErr_SignError | PayoutErr_EvmError.
Inductive EstimatePayoutGasErr :=
| Estimate_Reth
| Estimate_PayoutTxErr (e : PayoutTxErr)
| Estimate_FailedToEstimate.

Section payout.
Context {W Diff : Type} `{ChainState W Diff} `{PayoutSigner}.
Context (ctx : BlockBuildingContext).

Definition create_payout_tx (nonce : U64) (to : Address) (gas_limit : U64) (value : U256)
  : option TransactionSigned :=
  sign_tx {| p_chain_id := ctx_chain_id ctx; p_nonce := nonce; p_gas_limit := gas_limit;
             p_max_fee_per_gas := ctx_basefee ctx; p_max_priority_fee_per_gas := 0;
             p_to := to; p_value := value |}.

(** The signed transaction as [Recovered], for the interpreter. *)
Definition recovered (tx : TransactionSigned) : TxWithBlobs :=
  {| txb_tx := tx; txb_signer := ctx_builder_address ctx;
     blobs_sidecar := default_blob_sidecar; txb_metadata := Metadata_new 0 |}.

(** [tx_value] is [10u128.pow(18)]; the balance is raised by twice the cost. *)
Definition insert_test_payout_tx (w : W) (to : Address) (gas_limit : U64)
  : result (option U64) PayoutTxErr :=
  let? nonce := map_err (fun _ => PayoutErr_Reth) (state_nonce w (ctx_builder_address ctx)) in
  let tx_value := 10 ^ 18 in
  let? tx := ok_or (create_payout_tx nonce to gas_limit tx_value) PayoutErr_SignError in
  let gas_fee := wrap 128 (ctx_basefee ctx * gas_limit) in
  let? res := map_err (fun _ => PayoutErr_EvmError)
                (transact_with_balance w (recovered tx) (ctx_builder_address ctx)
                   (wrap 128 (wrap 128 (tx_value + gas_fee) * 2))) in
  Ok (if ev_success res then Some (u64_add (ev_gas_used res) (ev_gas_refunded res)) else None).

Definition max_tx_gas_limit : U64 := default (ctx_gas_limit ctx) (ctx_tx_gas_limit_cap ctx).

(** The RLP length of a payout with zero fields, plus room for their encoding. *)
Definition estimate_payout_tx_space : option BlockSpace :=
  let! tx := create_payout_tx 0 0 max_tx_gas_limit 0 in
  Some (BlockSpace_new BASE_TX_GAS (u64_add (ts_length tx) (32 * 4)) 0).

(** The binary search.  The range halves in every round, so 65 rounds are
    enough for 64-bit limits; [None] is an exhausted budget. *)
Fixpoint search_gas_limit (fuel : nat) (w : W) (to : Address) (left right : U64)
  : option (result U64 PayoutTxErr) :=
  match fuel with
  | O => None
  | S fuel =>
      let mid := u64_add left right `div` 2 in
      if bool_decide (mid = left) || bool_decide (mid = right) then Some (Ok right)
      else
        match insert_test_payout_tx w to mid with
        | Err e => Some (Err e)
        | Ok (Some _) => search_gas_limit fuel w to left mid
        | Ok None => search_gas_limit fuel w to mid right
        end
  end.

Definition estimate_payout_gas_limit (w : W) (to : Address) (space_used : BlockSpace)
  : result BlockSpace EstimatePayoutGasErr :=
  let? default_space := ok_or estimate_payout_tx_space Estimate_FailedToEstimate in
  let? code_hash := map_err (fun _ => Estimate_Reth) (state_code_hash w to) in
  if decide (code_hash = KECCAK_EMPTY) then Ok default_space
  else
    let gas_left := default 0 (checked_sub max_tx_gas_limit (bs_gas space_used)) in
    let? first := map_err Estimate_PayoutTxErr (insert_test_payout_tx w to gas_left) in
    let? estimation := ok_or first Estimate_FailedToEstimate in
    let? again := map_err Estimate_PayoutTxErr (insert_test_payout_tx w to estimation) in
    match again with
    | Some _ => Ok (BlockSpace_new estimation (bs_rlp_length default_space) 0)
    | None =>
        match search_gas_limit 65 w to estimation gas_left with
        | Some (Ok gas) => Ok (BlockSpace_new gas (bs_rlp_length default_space) 0)
        | Some (Err e) => Err (Estimate_PayoutTxErr e)
        | None => Err Estimate_FailedToEstimate
        end
    end.

End payout.

(** ** Properties of the payout estimation *)
Section payout_facts.
Context {W Diff : Type} `{ChainState W Diff} `{PayoutSigner}.
Context (ctx : BlockBuildingContext).

Lemma mid_bounds left right :
  0 <= left < 2 ^ 63 -> 0 <= right < 2 ^ 63 ->
  u64_add left right `div` 2 = (left + right) `div` 2
  /\ 2 * ((left + right) `div` 2) <= left + right < 2 * ((left + right) `div` 2) + 2.
Proof.
  intros Hl Hr. unfold u64_add, wrap. rewrite Z.mod_small by lia. split; [done |].
  pose proof (Z.div_mod (left + right) 2). pose proof (Z.mod_pos_bound (left + right) 2). lia.
Qed.

(** The distance halves in every round. *)
Lemma search_terminates w to n left right :
  0 <= left < 2 ^ 63 -> 0 <= right < 2 ^ 63 -> Z.abs (right - left) <= 2 ^ Z.of_nat n ->
  search_gas_limit ctx (S n) w to left right <> None.
Proof.
  revert left right. induction n as [| n IH]; intros left right Hl Hr Hd.
  all: destruct (mid_bounds left right Hl Hr) as [Hmid Hb]; cbn [search_gas_limit]; rewrite Hmid.
  all: destruct (bool_decide (_ = left)) eqn:H1, (bool_decide (_ = right)) eqn:H2; simpl; try done.
  all: apply bool_decide_eq_false in H1, H2.
  - simpl in Hd. lia.
  - rewrite Nat2Z.inj_succ, Z.pow_succ_r in Hd by lia.
    destruct (insert_test_payout_tx _ _ _ _) as [[u |] | e]; [apply IH; lia.. | done].
Qed.

(** A limit that the last test accepted, and whose predecessor it refused. *)
Lemma search_finds w to fuel left right g :
  0 <= left < right -> right < 2 ^ 63 ->
  insert_test_payout_tx ctx w to left = Ok None ->
  (exists u, insert_test_payout_tx ctx w to right = Ok (Some u)) ->
  search_gas_limit ctx fuel w to left right = Some (Ok g) ->
  left < g <= right /\ insert_test_payout_tx ctx w to (g - 1) = Ok None
  /\ exists u, insert_test_payout_tx ctx w to g = Ok (Some u).
Proof.
  revert left right. induction fuel as [| fuel IH]; intros left right Hl Hr Hbad Hok; [done |].
  cbn [search_gas_limit].
  destruct (mid_bounds left right ltac:(lia) ltac:(lia)) as [-> Hb].
  set (mid := (left + right) `div` 2) in *.
  case_bool_decide as H1; simpl; [| case_bool_decide as H2; simpl].
  1-2: intros [= <-]; assert (right - 1 = left) as -> by lia; split; [lia | done].
  destruct (insert_test_payout_tx ctx w to mid) as [[u |] | e] eqn:Ht; [| | done].
  - intros Hs. destruct (IH left mid ltac:(lia) ltac:(lia) Hbad (ex_intro _ u Ht) Hs) as (? & ? & ?).
    split; [lia | done].
  - intros Hs. destruct (IH mid right ltac:(lia) ltac:(lia) Ht Hok Hs) as (? & ? & ?).
    split; [lia | done].
Qed.

Lemma search_error w to fuel left right e :
  0 <= left < right -> right < 2 ^ 63 ->
  search_gas_limit ctx fuel w to left right = Some (Err e) ->
  exists g, left < g < right /\ insert_test_payout_tx ctx w to g = Err e.
Proof.
  revert left right. induction fuel as [| fuel IH]; intros left right Hl Hr; [done |]. cbn [search_gas_limit].
  destruct (mid_bounds left right ltac:(lia) ltac:(lia)) as [-> Hb].
  destruct (bool_decide (_ = left)) eqn:H1, (bool_decide (_ = right)) eqn:H2; simpl; try done.
  apply bool_decide_eq_false in H1, H2.
  destruct (insert_test_payout_tx ctx w to _) as [[u |] | e'] eqn:Ht.
  - intros Hs. apply IH in Hs as (g & ? & ?); [| lia..]. exists g. split; [lia | done].
  - intros Hs. apply IH in Hs as (g & ? & ?); [| lia..]. exists g. split; [lia | done].
  - intros [= <-]. exists ((left + right) `div` 2). split; [lia | done].
Qed.

(** The binary search for the gas limit of a payment ends within its rounds for
    limits below 2^63, and finds a limit that the test accepts and whose
    predecessor it refuses, or reports the error of a test in the range. *)
Theorem payout_search_correct w to left right :
  0 <= left < right -> right < 2 ^ 63 ->
  insert_test_payout_tx ctx w to left = Ok None ->
  (exists u, insert_test_payout_tx ctx w to right = Ok (Some u)) ->
  match search_gas_limit ctx 65 w to left right with
  | None => False
  | Some (Err e) => exists g, left < g < right /\ insert_test_payout_tx ctx w to g = Err e
  | Some (Ok g) =>
      left < g <= right /\ insert_test_payout_tx ctx w to (g - 1) = Ok None
      /\ exists u, insert_test_payout_tx ctx w to g = Ok (Some u)
  end.
Proof.
  intros Hl Hr Hbad Hok. destruct (search_gas_limit ctx 65 w to left right) as [[g | e] |] eqn:Hs.
  - by eapply search_finds.
  - by eapply search_error.
  - apply (search_terminates w to 64 left right) in Hs; [done | lia | lia |].
    change (2 ^ Z.of_nat 64) with (2 ^ 64). lia.
Qed.

End payout_facts.
