(* ===== verification/TxSimCache.v ===== *)
(** * The cache of executions (building/tx_sim_cache)

    Executions of a transaction are stored with the state they read; a later
    execution that would read the same takes the stored outcome, with the balance and
    nonce of the coinbase moved by what changed since.  Counters and flags are atomic
    in the source; operations are taken one after another here. *)

From S2P Require Import Prelude Transactions SimTypes World.

#[export] Instance AccountInfo_eq_dec : EqDecision AccountInfo.
Proof. solve_decision. Defined.

(** ** Recording what is read (evm_db.rs)

    Accounts are compared without their code, which their code hash stands for. *)
Class Database (DB : Type) := {
  db_basic : DB -> Address -> result (option AccountInfo) unit;
  db_storage : DB -> Address -> U256 -> result U256 unit;
  db_code_by_hash : DB -> B256 -> result (list Z) unit;
  db_block_hash : DB -> U64 -> result B256 unit;
}.

Inductive AccessRecord :=
| Access_Account (address : Address) (res : option AccountInfo)
| Access_Storage (address : Address) (index : U256) (res : U256).

Record EVMRecordingDatabase (DB : Type) := {
  rd_should_record : bool;
  rd_inner_db : DB;
  rd_recorded_trace : list AccessRecord;
}.
Arguments rd_should_record {DB} _.
Arguments rd_inner_db {DB} _.
Arguments rd_recorded_trace {DB} _.

Section recording.
Context {DB : Type} `{Database DB}.

Definition EVMRecordingDatabase_new (inner_db : DB) (should_record : bool) : EVMRecordingDatabase DB :=
  {| rd_should_record := should_record; rd_inner_db := inner_db; rd_recorded_trace := [] |}.

Definition rd_push (db : EVMRecordingDatabase DB) (record : AccessRecord) : EVMRecordingDatabase DB :=
  if rd_should_record db
  then {| rd_should_record := rd_should_record db; rd_inner_db := rd_inner_db db;
          rd_recorded_trace := rd_recorded_trace db ++ [record] |}
  else db.

Definition rd_basic (db : EVMRecordingDatabase DB) (address : Address)
  : result (option AccountInfo) unit * EVMRecordingDatabase DB :=
  match db_basic (rd_inner_db db) address with
  | Ok res => (Ok res, rd_push db (Access_Account address res))
  | Err e => (Err e, db)
  end.

Definition rd_storage (db : EVMRecordingDatabase DB) (address : Address) (index : U256)
  : result U256 unit * EVMRecordingDatabase DB :=
  match db_storage (rd_inner_db db) address index with
  | Ok res => (Ok res, rd_push db (Access_Storage address index res))
  | Err e => (Err e, db)
  end.

Definition rd_code_by_hash (db : EVMRecordingDatabase DB) (code_hash : B256)
  : result (list Z) unit * EVMRecordingDatabase DB := (db_code_by_hash (rd_inner_db db) code_hash, db).

Definition rd_block_hash (db : EVMRecordingDatabase DB) (number : U64)
  : result B256 unit * EVMRecordingDatabase DB := (db_block_hash (rd_inner_db db) number, db).
End recording.

(** ** Stored traces (result_store.rs) *)
Inductive NextAction :=
| CheckAccount (address : Address)
| CheckStorage (address : Address) (index : U256)
| Action_DoNothing.

Inductive ActionResult :=
| AccountValue (account : option AccountInfo)
| StorageValue (value : U256)
| Result_DoNothing.

#[export] Instance NextAction_eq_dec : EqDecision NextAction.
Proof. solve_decision. Defined.
#[export] Instance ActionResult_eq_dec : EqDecision ActionResult.
Proof. solve_decision. Defined.

Abbreviation Trace := (list (NextAction * ActionResult)).

Section store.
Context {R : Type}.

Record StoredResult := { sr_trace : Trace; sr_result : R }.
Record ExecutionResultStore := { nodes : list StoredResult }.

Definition store_default : ExecutionResultStore := {| nodes := [] |}.
Definition store_len (s : ExecutionResultStore) : nat := length (nodes s).

Definition trace_entry (record : AccessRecord) : NextAction * ActionResult :=
  match record with
  | Access_Account address res => (CheckAccount address, AccountValue res)
  | Access_Storage address index res => (CheckStorage address index, StorageValue res)
  end.

Definition insert_result (s : ExecutionResultStore) (access_trace : list AccessRecord) (res : R)
  : ExecutionResultStore :=
  let trace := trace_entry <$> access_trace in
  let trace := if decide (trace = []) then [(Action_DoNothing, Result_DoNothing)] else trace in
  if existsb (fun node => bool_decide (sr_trace node = trace)) (nodes s) then s
  else {| nodes := nodes s ++ [{| sr_trace := trace; sr_result := res |}] |}.

(** A walker reads the store it was taken from. *)
Record ExecutionResultStoreWalker := { trace_idx : nat; record_idx : nat }.

Definition get_walker : ExecutionResultStoreWalker := {| trace_idx := 0; record_idx := 0 |}.

Definition stored_result (s : ExecutionResultStore) (idx : nat) : option StoredResult := nodes s !! idx.

Definition next_action (s : ExecutionResultStore) (w : ExecutionResultStoreWalker) : option NextAction :=
  let! stored := stored_result s (trace_idx w) in
  fst <$> sr_trace stored !! record_idx w.

(** The outer [None] is a panic of [expect]. *)
Definition action_result (s : ExecutionResultStore) (w : ExecutionResultStoreWalker) (got : ActionResult)
  : option (ExecutionResultStoreWalker * option R) :=
  match stored_result s (trace_idx w) with
  | None => Some (w, None)
  | Some stored =>
      let! (_, expected) := sr_trace stored !! record_idx w in
      if decide (got = expected) then
        let w := {| trace_idx := trace_idx w; record_idx := S (record_idx w) |} in
        if decide (record_idx w = length (sr_trace stored)) then Some (w, Some (sr_result stored))
        else Some (w, None)
      else Some ({| trace_idx := S (trace_idx w); record_idx := 0 |}, None)
  end.
End store.
Arguments StoredResult R : clear implicits.
Arguments ExecutionResultStore R : clear implicits.

(** ** Entries and the cache (mod.rs) *)
Definition NUM_OF_CACHED_EXECUTIONS : nat := 5.

Section cache.
(** What the interpreter reports of a transaction, and of an account besides its info. *)
Context {Report Parts : Type}.

Record EvmAccount := { ea_info : AccountInfo; ea_parts : Parts }.
Record ResultAndState := { rs_result : Report; rs_state : gmap Address EvmAccount }.

Definition Outcome : Type := result ResultAndState TransactionErr.

Record CachedExecutionResult := {
  ce_tx_hash : B256;
  ce_coinbase : Address;
  ce_recorded_trace : list AccessRecord;
  ce_result : Outcome;
  ce_used_state_trace : UsedStateTrace;
}.

Record CachingResult := {
  cr_result : option Outcome;
  cr_used_state_trace : UsedStateTrace;
  cr_should_cache : bool;
}.

Definition new_cache_miss (should_cache : bool) : CachingResult :=
  {| cr_result := None; cr_used_state_trace := UsedStateTrace_default; cr_should_cache := should_cache |}.

Record TxCacheEntryResult := {
  te_read_coinbase_account : option (option AccountInfo);
  te_result : Outcome;
  te_used_state_trace : UsedStateTrace;
}.

Record TxCacheEntry := {
  te_store : ExecutionResultStore TxCacheEntryResult;
  te_count_total_executions : Z;
  te_count_hits : Z;
  te_never_cache : bool;
}.

Definition TxCacheEntry_default : TxCacheEntry :=
  {| te_store := store_default; te_count_total_executions := 0; te_count_hits := 0; te_never_cache := false |}.

Definition has_storage_capacity (entry : TxCacheEntry) : bool :=
  (store_len (te_store entry) <? NUM_OF_CACHED_EXECUTIONS)%nat.

(** Whether an execution read the balance of the coinbase or wrote its storage. *)
Definition trace_is_not_cacheable (used_state_trace : UsedStateTrace) (coinbase : Address) : bool :=
  bool_decide (is_Some (read_balances used_state_trace !! coinbase)) ||
  existsb (fun slot_key => bool_decide (sk_address slot_key = coinbase))
    (fst <$> map_to_list (written_slot_values used_state_trace)).

(** The first read of the account of the coinbase is taken out of the trace. *)
Fixpoint take_coinbase_read (coinbase : Address) (trace : list AccessRecord)
  : option (option AccountInfo) * list AccessRecord :=
  match trace with
  | [] => (None, [])
  | Access_Account address res as record :: trace =>
      if decide (address = coinbase) then (Some res, trace)
      else let '(found, rest) := take_coinbase_read coinbase trace in (found, record :: rest)
  | record :: trace =>
      let '(found, rest) := take_coinbase_read coinbase trace in (found, record :: rest)
  end.

Definition entry_store_result (entry : TxCacheEntry) (res : CachedExecutionResult) : TxCacheEntry :=
  if negb (has_storage_capacity entry) then entry
  else if trace_is_not_cacheable (ce_used_state_trace res) (ce_coinbase res) then
    {| te_store := te_store entry; te_count_total_executions := te_count_total_executions entry;
       te_count_hits := te_count_hits entry; te_never_cache := true |}
  else
    let '(coinbase_read_entry, trace) := take_coinbase_read (ce_coinbase res) (ce_recorded_trace res) in
    {| te_store := insert_result (te_store entry) trace
         {| te_read_coinbase_account := coinbase_read_entry; te_result := ce_result res;
            te_used_state_trace := ce_used_state_trace res |};
       te_count_total_executions := te_count_total_executions entry;
       te_count_hits := te_count_hits entry; te_never_cache := te_never_cache entry |}.

Definition inc_total_executions (entry : TxCacheEntry) : TxCacheEntry :=
  {| te_store := te_store entry; te_count_total_executions := u64_add (te_count_total_executions entry) 1;
     te_count_hits := te_count_hits entry; te_never_cache := te_never_cache entry |}.

Definition inc_hits (entry : TxCacheEntry) : TxCacheEntry :=
  {| te_store := te_store entry; te_count_total_executions := te_count_total_executions entry;
     te_count_hits := u64_add (te_count_hits entry) 1; te_never_cache := te_never_cache entry |}.

Record TxExecutionCache := {
  tc_enabled : bool;
  tc_stored_results : gmap (B256 * Address) TxCacheEntry;
  tc_cache_hits : Z;
  tc_cache_asks : Z;
}.

Definition TxExecutionCache_new (enabled : bool) : TxExecutionCache :=
  {| tc_enabled := enabled; tc_stored_results := ∅; tc_cache_hits := 0; tc_cache_asks := 0 |}.

(** [get_tx_entry] inserts an empty entry when there is none; the entry is shared, so
    that what changes in it changes in the cache. *)
Definition get_tx_entry (cache : TxExecutionCache) (tx_hash : B256) (coinbase : Address) : TxCacheEntry :=
  default TxCacheEntry_default (tc_stored_results cache !! (tx_hash, coinbase)).

Definition set_tx_entry (cache : TxExecutionCache) (tx_hash : B256) (coinbase : Address) (entry : TxCacheEntry)
  : TxExecutionCache :=
  {| tc_enabled := tc_enabled cache;
     tc_stored_results := <[(tx_hash, coinbase) := entry]> (tc_stored_results cache);
     tc_cache_hits := tc_cache_hits cache; tc_cache_asks := tc_cache_asks cache |}.

Definition cache_store_result (cache : TxExecutionCache) (res : CachedExecutionResult) : TxExecutionCache :=
  if negb (tc_enabled cache) then cache
  else
    let entry := get_tx_entry cache (ce_tx_hash res) (ce_coinbase res) in
    set_tx_entry cache (ce_tx_hash res) (ce_coinbase res) (entry_store_result entry res).

Definition inc_cache_asks (cache : TxExecutionCache) : TxExecutionCache :=
  {| tc_enabled := tc_enabled cache; tc_stored_results := tc_stored_results cache;
     tc_cache_hits := tc_cache_hits cache; tc_cache_asks := u64_add (tc_cache_asks cache) 1 |}.

Definition inc_cache_hits (cache : TxExecutionCache) : TxExecutionCache :=
  {| tc_enabled := tc_enabled cache; tc_stored_results := tc_stored_results cache;
     tc_cache_hits := u64_add (tc_cache_hits cache) 1; tc_cache_asks := tc_cache_asks cache |}.

(** ** Looking a result up *)
Definition perform {DB} `{Database DB} (db : DB) (action : NextAction) : result ActionResult unit :=
  match action with
  | CheckAccount address => let? current_account := db_basic db address in Ok (AccountValue current_account)
  | CheckStorage address index =>
      let? _ := db_basic db address in
      let? current_value := db_storage db address index in
      Ok (StorageValue current_value)
  | Action_DoNothing => Ok Result_DoNothing
  end.

(** The loop; [None] is a panic, or that the fuel ran out. *)
Fixpoint walk {DB} `{Database DB} (fuel : nat) (db : DB) (store : ExecutionResultStore TxCacheEntryResult)
    (walker : ExecutionResultStoreWalker) : option (result (option TxCacheEntryResult) unit) :=
  match fuel with
  | O => None
  | S fuel =>
      match next_action store walker with
      | None => Some (Ok None)
      | Some action =>
          match perform db action with
          | Err e => Some (Err e)
          | Ok got =>
              let! (walker, found) := action_result store walker got in
              match found with
              | Some res => Some (Ok (Some res))
              | None => walk fuel db store walker
              end
          end
      end
  end.

Definition walk_fuel (store : ExecutionResultStore TxCacheEntryResult) : nat :=
  S (list_sum ((fun node => length (sr_trace node)) <$> nodes store)).

(** [checked_add_signed] of a 64-bit number. *)
Definition checked_add_signed (a delta : Z) : option Z :=
  if decide (0 <= a + delta < 2 ^ 64) then Some (a + delta) else None.

(** [None] is a panic; the inner [None] is [false]. *)
Definition checked_add_balance (balance : U256) (delta : Z) : option (option U256) :=
  let abs := if decide (delta = - 2 ^ 255) then delta else Z.abs delta in
  let! delta_abs := u256_try_from abs in
  if decide (delta < 0) then
    if decide (delta_abs > balance) then Some None else Some (checked_sub balance delta_abs)
  else Some (checked_add 256 balance delta_abs).

(** By how much the nonce and the balance of the coinbase changed; the outer [None]
    is a panic, the inner one rejects the stored result. *)
Definition coinbase_deltas (used_coinbase current_coinbase : option AccountInfo) : option (option (Z * Z)) :=
  match used_coinbase, current_coinbase with
  | None, None => Some (Some (0, 0))
  | None, Some _ | Some _, None => Some None
  | Some cached, Some current =>
      if decide (acc_code_hash cached <> acc_code_hash current) then Some None
      else
        let nonce_delta := wrap_signed 64 (wrap_signed 64 (acc_nonce current) - wrap_signed 64 (acc_nonce cached)) in
        let! balance_delta := signed_uint_delta (acc_balance current) (acc_balance cached) in
        Some (Some (nonce_delta, balance_delta))
  end.

Definition move_coinbase (out : ResultAndState) (coinbase : Address) (deltas : Z * Z)
  : option (option ResultAndState) :=
  match rs_state out !! coinbase with
  | None => Some None
  | Some account =>
      let info := ea_info account in
      match checked_add_signed (acc_nonce info) deltas.1 with
      | None => Some None
      | Some new_nonce =>
          let! new_balance := checked_add_balance (acc_balance info) deltas.2 in
          match new_balance with
          | None => Some None
          | Some balance =>
              let info := {| acc_balance := balance; acc_nonce := new_nonce; acc_code_hash := acc_code_hash info |} in
              Some (Some {| rs_result := rs_result out;
                            rs_state := <[coinbase := {| ea_info := info; ea_parts := ea_parts account |}]> (rs_state out) |})
          end
      end
  end.

Definition cache_get_cached_result {DB} `{Database DB} (cache : TxExecutionCache) (db : DB) (tx_hash : B256)
    (coinbase : Address) : option (TxExecutionCache * result CachingResult unit) :=
  if negb (tc_enabled cache) then Some (cache, Ok (new_cache_miss false))
  else
    let cache := inc_cache_asks cache in
    let entry := inc_total_executions (get_tx_entry cache tx_hash coinbase) in
    let cache := set_tx_entry cache tx_hash coinbase entry in
    if te_never_cache entry then Some (cache, Ok (new_cache_miss false))
    else
      let miss := Some (cache, Ok (new_cache_miss (has_storage_capacity entry))) in
      let hit res used := Some (set_tx_entry (inc_cache_hits cache) tx_hash coinbase (inc_hits entry),
                                Ok {| cr_result := Some res; cr_used_state_trace := used; cr_should_cache := false |}) in
      let! walked := walk (walk_fuel (te_store entry)) db (te_store entry) get_walker in
      match walked with
      | Err e => Some (cache, Err e)
      | Ok None => miss
      | Ok (Some cached) =>
          match te_result cached with
          | Err _ => hit (te_result cached) (te_used_state_trace cached)
          | Ok evm_result =>
              let! used_coinbase := te_read_coinbase_account cached in
              match db_basic db coinbase with
              | Err e => Some (cache, Err e)
              | Ok current_coinbase =>
                  let! deltas := coinbase_deltas used_coinbase current_coinbase in
                  match deltas with
                  | None => miss
                  | Some deltas =>
                      let! moved := move_coinbase evm_result coinbase deltas in
                      match moved with
                      | None => miss
                      | Some evm_result => hit (Ok evm_result) (te_used_state_trace cached)
                      end
                  end
              end
          end
      end.
End cache.
