(* ===== verification/SampleChain.v ===== *)
(** * A small chain

    An instance of the interfaces of World.v on which the theorems on order
    execution are run: accounts with an undo log, an interpreter that knows
    transfers, a payer of one wei per unit of gas to the coinbase, a cache that
    never hits, a cache that keeps every result, and a signer. *)

From S2P Require Import Prelude Transactions Bundles Orders SimTypes Samples World.

Record SmallChain := {
  sc_accounts : gmap Address AccountInfo;
  sc_undo : list (gmap Address AccountInfo);
}.

Definition small_commit (w : SmallChain) (d : gmap Address AccountInfo) : SmallChain :=
  {| sc_accounts := d ∪ sc_accounts w; sc_undo := sc_accounts w :: sc_undo w |}.

Fixpoint small_revert_from (now : gmap Address AccountInfo) (undo : list (gmap Address AccountInfo))
    (n : nat) : SmallChain :=
  match n, undo with
  | S n, before :: undo => small_revert_from before undo n
  | _, _ => {| sc_accounts := now; sc_undo := undo |}
  end.
Definition small_revert (w : SmallChain) (n : nat) : SmallChain :=
  small_revert_from (sc_accounts w) (sc_undo w) n.

Definition small_basic (w : SmallChain) (a : Address) : option AccountInfo :=
  (fun i => {| acc_balance := wrap 256 (acc_balance i); acc_nonce := acc_nonce i;
               acc_code_hash := acc_code_hash i |}) <$> sc_accounts w !! a.

Definition small_coinbase : Address := 1.
Definition small_gas_limit : U64 := 30000000.

Definition small_account (w : SmallChain) (a : Address) : AccountInfo :=
  default {| acc_balance := 0; acc_nonce := 0; acc_code_hash := KECCAK_EMPTY |} (small_basic w a).

Definition add_balance (d : gmap Address AccountInfo) (w : SmallChain) (a : Address) (v : Z)
  : gmap Address AccountInfo :=
  let i := default (small_account w a) (d !! a) in
  <[a := {| acc_balance := acc_balance i + v; acc_nonce := acc_nonce i;
            acc_code_hash := acc_code_hash i |}]> d.

(** A transfer for 21000 gas, with the checks of the interpreter; a transfer to
    address 13 is reverted and still pays for its gas. *)
Definition small_transact (w : SmallChain) (tx : TxWithBlobs)
  : result (EvmOutput (gmap Address AccountInfo)) EVMError :=
  let sender := small_account w (tx_signer tx) in
  let to := default 0 (tx_to tx) in
  let fee := if decide (tx_signer tx = 2) then 0 else 21000 in
  if decide (tx_nonce tx <> acc_nonce sender)
  then Err (EVMError_Transaction (NonceTooHigh (tx_nonce tx) (acc_nonce sender)))
  else if decide (21000 <= ts_gas_limit (txb_tx tx) <= small_gas_limit
                  /\ tx_value tx + fee <= acc_balance sender
                  /\ 0 <= length_eip7934 tx < 2 ^ 62 /\ 0 <= blobs_gas_used tx < 2 ^ 62)
  then
    let ok := bool_decide (to <> 13) in
    let value := if ok then tx_value tx else 0 in
    let d := <[tx_signer tx := {| acc_balance := acc_balance sender - value - fee;
                                  acc_nonce := acc_nonce sender + 1;
                                  acc_code_hash := acc_code_hash sender |}]> ∅ in
    Ok {| ev_gas_used := 21000; ev_gas_refunded := 0; ev_success := ok; ev_logs := [];
          ev_state := add_balance (add_balance d w to value) w small_coinbase fee;
          ev_access_list := [tx_signer tx; to]; ev_trace := UsedStateTrace_default |}
  else Err (EVMError_Transaction (InvalidOther 0)).

(** The recipient of a test payout runs with 50000 units of gas and needs 30000. *)
Definition small_transact_with_balance (w : SmallChain) (tx : TxWithBlobs) (a : Address) (v : Z)
  : result (EvmOutput (gmap Address AccountInfo)) EVMError :=
  Ok {| ev_gas_used := 30000; ev_gas_refunded := 0;
        ev_success := bool_decide (50000 <= ts_gas_limit (txb_tx tx)); ev_logs := [];
        ev_state := ∅; ev_access_list := []; ev_trace := UsedStateTrace_default |}.

#[export] Instance small_equiv : Equiv SmallChain := (=).
#[export] Instance small_chain : ChainState SmallChain (gmap Address AccountInfo) := {|
  cs_equiv := small_equiv;
  basic := fun w a => Ok (small_basic w a);
  commit := small_commit;
  revert := small_revert;
  changed_accounts := fun w n => [];
  transact := small_transact;
  transact_with_balance := small_transact_with_balance;
|}.

Lemma small_revert_revert now undo n m :
  small_revert (small_revert_from now undo n) m = small_revert_from now undo (n + m).
Proof.
  revert now undo. induction n as [| n IH]; intros now undo; [by destruct undo |].
  destruct undo as [| b undo]; simpl; [by destruct m | apply IH].
Qed.

#[export] Instance small_chain_ok : ChainStateOk SmallChain (gmap Address AccountInfo).
Proof.
  split; try apply _.
  - intros [now undo]. by destruct undo.
  - intros w d n. done.
  - intros w n m. apply small_revert_revert.
  - intros w a i. unfold basic; simpl. unfold small_basic.
    destruct (sc_accounts w !! a); simpl; intros [= <-]. simpl. apply Z.mod_pos_bound. lia.
Qed.

#[export] Instance small_cache : TxCache SmallChain (gmap Address AccountInfo) unit := {|
  get_cached_result := fun _ _ _ _ => Ok (None, false);
  store_result := fun c _ _ _ _ => c;
|}.

(** A cache that returns what was stored for a transaction and a coinbase. *)
Definition KeepingCache : Type :=
  gmap (TxHash * Address) (result (EvmOutput (gmap Address AccountInfo)) TransactionErr).
#[export] Instance keeping_cache : TxCache SmallChain (gmap Address AccountInfo) KeepingCache := {|
  get_cached_result := fun c _ h b => Ok match c !! (h, b) with
                                         | Some res => (Some (res, UsedStateTrace_default), false)
                                         | None => (None, true)
                                         end;
  store_result := fun c _ tx b res => <[(tx_hash tx, b) := res]> c;
|}.

(** A payout; its hash is a code of what is signed. *)
Definition payout_fields : Type := Z * Z * Z * Z * Z.
Definition small_payout (fields : payout_fields) : TransactionSigned :=
  let '(nonce, gas_limit, fee, to, value) := fields in
  {| ts_hash := 1000000 + Z.pos (encode fields); ts_ty := 2; ts_nonce := nonce; ts_to := Some to;
     ts_value := value; ts_gas_limit := gas_limit; ts_max_fee_per_gas := fee; ts_length := 110; ts_size := 200;
     ts_blob_versioned_hashes := None |}.
#[export] Instance small_signer : PayoutSigner := fun p =>
  Some (small_payout (p_nonce p, p_gas_limit p, p_max_fee_per_gas p, p_to p, p_value p)).
#[export] Instance small_signer_ok : PayoutSignerOk.
Proof. split; intros p tx [= <-]; [done | simpl; lia]. Qed.

(** The transaction with a hash: a payout, or one of [known]. *)
Definition small_tx_with_hash (known : list TransactionSigned) (h : TxHash) : TransactionSigned :=
  let none := small_payout (0, 0, 0, 0, 0) in
  if decide (1000000 < h) then default none (small_payout <$> decode (Z.to_pos (h - 1000000)))
  else default none (snd <$> list_find (fun tx => ts_hash tx = h) known).

Lemma small_payout_hash known fields : small_tx_with_hash known (ts_hash (small_payout fields)) = small_payout fields.
Proof.
  assert (ts_hash (small_payout fields) = 1000000 + Z.pos (encode fields)) as -> by (by destruct fields as [[[[]]]]).
  unfold small_tx_with_hash. rewrite decide_True by lia.
  replace (1000000 + Z.pos (encode fields) - 1000000) with (Z.pos (encode fields)) by lia.
  simpl Z.to_pos. by rewrite decode_encode.
Qed.

#[export] Instance small_order_Z : HashOrder Z := elements_order.
#[export] Instance small_order_nat : HashOrder nat := elements_order.

(** The builder is account 2, the users are 3 and 4. *)
Definition small_world : SmallChain :=
  let acc b := {| acc_balance := b; acc_nonce := 0; acc_code_hash := KECCAK_EMPTY |} in
  {| sc_accounts := {[ 1 := acc 500; 2 := acc 1000000; 3 := acc 1000000; 4 := acc 1000000 ]};
     sc_undo := [] |}.

Definition small_ctx : BlockBuildingContext :=
  {| ctx_beneficiary := small_coinbase; ctx_basefee := 0; ctx_gas_limit := small_gas_limit;
     ctx_tx_gas_limit_cap := None; ctx_gas_available := small_gas_limit;
     ctx_max_blob_gas_per_block := 786432; ctx_block := 7; ctx_timestamp := 100; ctx_chain_id := 1;
     ctx_builder_address := 2; ctx_blocklist := ∅; ctx_mev_blocker_price := 0;
     ctx_suggested_fee_recipient := 5; ctx_mempool_txs := ∅ |}.

(** The limits that the binary search narrows down to the one that is needed. *)
Lemma payout_search_witness :
  match search_gas_limit small_ctx 65 small_world 9 21000 30000000 with
  | Some (Ok g) => insert_test_payout_tx small_ctx small_world 9 (g - 1) = Ok None
  | _ => False
  end.
Proof.
  assert (insert_test_payout_tx small_ctx small_world 9 21000 = Ok None) as Hbad
    by (vm_compute; reflexivity).
  assert (exists u, insert_test_payout_tx small_ctx small_world 9 30000000 = Ok (Some u)) as Hok
    by (eexists; vm_compute; reflexivity).
  pose proof (payout_search_correct small_ctx small_world 9 21000 30000000 ltac:(lia) ltac:(lia)
                Hbad Hok) as Hs.
  destruct (search_gas_limit small_ctx 65 small_world 9 21000 30000000) as [[g | e] |] eqn:He;
    [apply Hs | | apply Hs].
  vm_compute in He. discriminate He.
Defined.
