(* ===== verification/CommitMonad.v ===== *)
(** * The effects of order execution

    Execution threads the state of a fork of the block, may stop with a critical
    error (the outer [Result] of the code) or panic.  The state is kept in every
    case, as the code mutates it in place.  Recoverable failures are values: the
    inner [Result]. *)

From S2P Require Import Prelude World.

Inductive outcome (A : Type) :=
| Done (a : A)
| Critical (e : CriticalCommitOrderError)
| Panic.
Arguments Done {_} a.
Arguments Critical {_} e.
Arguments Panic {_}.

Definition M (S A : Type) : Type := S -> S * outcome A.

Definition ret {S A} (a : A) : M S A := fun s => (s, Done a).

Definition bind {S A B} (m : M S A) (k : A -> M S B) : M S B := fun s =>
  match m s with
  | (s, Done a) => k a s
  | (s, Critical e) => (s, Critical e)
  | (s, Panic) => (s, Panic)
  end.

Definition gets {S A} (f : S -> A) : M S A := fun s => (s, Done (f s)).
Definition modify {S} (f : S -> S) : M S unit := fun s => (f s, Done tt).
Definition critical {S A} (e : CriticalCommitOrderError) : M S A := fun s => (s, Critical e).
Definition panic {S A} : M S A := fun s => (s, Panic).

(** [?] on a result whose error is critical. *)
Definition try_critical {S A E} (e : CriticalCommitOrderError) (r : result A E) : M S A :=
  match r with Ok a => ret a | Err _ => critical e end.

Notation "'let*' x ':=' c1 'in' c2" := (bind c1 (fun x => c2))
  (at level 10, x pattern, c1 at level 200, c2 at level 200) : rust_scope.

(** ** Reasoning about the state

    A relation between the states before and after that holds whatever the
    outcome is. *)
Section relates.
Context {S : Type} (R : S -> S -> Prop).

Definition relates {A} (m : M S A) : Prop := forall s, R s (m s).1.

Lemma relates_bind {A B} (m : M S A) (k : A -> M S B) :
  Transitive R -> relates m -> (forall a, relates (k a)) -> relates (bind m k).
Proof.
  intros Htrans Hm Hk s. unfold bind. specialize (Hm s).
  destruct (m s) as [s' [a | e |]]; simpl in *; [| done..].
  etrans; [exact Hm | apply Hk].
Qed.

Lemma relates_refl {A} (m : M S A) : Reflexive R -> (forall s, (m s).1 = s) -> relates m.
Proof. intros Hr Hm s. by rewrite Hm. Qed.

End relates.

(** The value a computation returned when it did. *)
Lemma bind_Done {S A B} (m : M S A) (k : A -> M S B) s s' b :
  bind m k s = (s', Done b) <-> exists a s1, m s = (s1, Done a) /\ k a s1 = (s', Done b).
Proof.
  unfold bind. split.
  - destruct (m s) as [s1 [a | e |]]; [| done..]. eauto.
  - by intros (a & s1 & -> & ?).
Qed.
