(* ===== verification/OrderCommit.v ===== *)
(** * Execution of orders on the block (building/order_commit.rs)

    [PartialBlockFork]: transactions, bundles, share bundles and orders are
    executed on the state of the block; a failed one is rolled back. *)

From S2P Require Import Prelude Transactions Bundles Orders SimTypes World CommitMonad.

(** ** Results *)
Record TxReceipt := {
  rc_tx_type : Z;
  rc_success : bool;
  rc_cumulative_gas_used : U64;
  rc_logs : list Z;
}.

Record TransactionExecutionInfo := {
  ti_tx : TxWithBlobs;
  ti_receipt : TxReceipt;
  ti_space_used : BlockSpace;
  ti_coinbase_profit : Z;
}.

(** [exec_result] is the interpreter's result: gas used, success and logs. *)
Record TransactionOk := {
  to_exec_result : U64 * bool * list Z;
  to_cumulative_space_used : BlockSpace;
  to_tx_info : TransactionExecutionInfo;
  to_nonce_updated : Address * U64;
}.

Record DelayedKickback := {
  dk_recipient : Address;
  dk_payout_value : U256;
  dk_payout_tx_fee : U256;
  dk_payout_tx_space_needed : BlockSpace;
  dk_should_pay_in_block : bool;
}.

Record BundleOk := {
  bo_space_used : BlockSpace;
  bo_cumulative_space_used : BlockSpace;
  bo_tx_infos : list TransactionExecutionInfo;
  bo_nonces_updated : list (Address * U64);
  bo_paid_kickbacks : list (Address * U256);
  bo_delayed_kickback : option DelayedKickback;
  bo_original_order_ids : list OrderId;
}.

Definition bo_space_state (b : BundleOk) (reserved : BlockSpace) : BlockBuildingSpaceState :=
  {| ss_space_used := bo_cumulative_space_used b; ss_reserved := reserved |}.

Inductive BundleErr :=
| BundleErr_InvalidTransaction (hash : B256) (e : TransactionErr)
| BundleErr_TransactionReverted (hash : B256)
| BundleErr_EmptyBundle
| BundleErr_TargetBlockIncorrect (block target_block target_max_block : U64)
| BundleErr_NotEnoughRefundForGas (to : Address) (refundable_value needed_value : U256)
| BundleErr_FailedToCommitPayoutTx (to : Address) (gas_limit : U64) (value : U256)
    (err : option TransactionErr)
| BundleErr_EstimatePayoutGas (e : EstimatePayoutGasErr)
| BundleErr_PayoutTx
| BundleErr_IncorrectRefundableElement (idx : nat)
| BundleErr_IncorrectTimestamp (min max block : U64).

Record OrderOk := {
  oo_coinbase_profit : U256;
  oo_space_used : BlockSpace;
  oo_cumulative_space_used : BlockSpace;
  oo_tx_infos : list TransactionExecutionInfo;
  oo_original_order_ids : list OrderId;
  oo_nonces_updated : list (Address * U64);
  oo_paid_kickbacks : list (Address * U256);
  oo_delayed_kickback : option DelayedKickback;
  oo_used_state_trace : option UsedStateTrace;
}.

Inductive OrderErr :=
| OrderErr_Transaction (e : TransactionErr)
| OrderErr_Bundle (e : BundleErr)
| OrderErr_NegativeProfit (loss : U256).

Record ReservedPayout := {
  rp_space_limit : BlockSpace;
  rp_tx_value : U256;
  rp_total_refundable_value : U256;
  rp_base_fee : U256;
}.

Record ShareBundleCommitResult := {
  sr_bundle_ok : BundleOk;
  sr_coinbase_diff_before_payouts : U256;
  sr_total_payouts_promissed : U256;
  sr_payouts_promissed : gmap Address ReservedPayout;
}.

(** Calls on the execution tracer. *)
Inductive ForkTraceEvent :=
| AboutToExecute (tx : TxWithBlobs) (space : BlockBuildingSpaceState)
| TxExecuted (tx : TxWithBlobs) (space : BlockBuildingSpaceState)
    (res : outcome (result TransactionOk TransactionErr)).

(** ** Nonce lists *)
Fixpoint update_nonce_list (nonces_updated : list (Address * U64)) (new_update : Address * U64)
  : list (Address * U64) :=
  match nonces_updated with
  | [] => [new_update]
  | (addr, nonce) :: rest =>
      if decide (addr = new_update.1) then (addr, new_update.2) :: rest
      else (addr, nonce) :: update_nonce_list rest new_update
  end.

Definition update_nonce_list_with_updates (nonces_updated new_updates : list (Address * U64))
  : list (Address * U64) :=
  foldl update_nonce_list nonces_updated new_updates.

Definition accumulate_tx_execution (ok : TransactionOk) (b : BundleOk) : BundleOk :=
  {| bo_space_used := BlockSpace_add (bo_space_used b) (ti_space_used (to_tx_info ok));
     bo_cumulative_space_used := to_cumulative_space_used ok;
     bo_tx_infos := bo_tx_infos b ++ [to_tx_info ok];
     bo_nonces_updated := update_nonce_list (bo_nonces_updated b) (to_nonce_updated ok);
     bo_paid_kickbacks := bo_paid_kickbacks b;
     bo_delayed_kickback := bo_delayed_kickback b;
     bo_original_order_ids := bo_original_order_ids b |}.

Definition push_paid_kickback (b : BundleOk) (k : Address * U256) : BundleOk :=
  {| bo_space_used := bo_space_used b; bo_cumulative_space_used := bo_cumulative_space_used b;
     bo_tx_infos := bo_tx_infos b; bo_nonces_updated := bo_nonces_updated b;
     bo_paid_kickbacks := bo_paid_kickbacks b ++ [k];
     bo_delayed_kickback := bo_delayed_kickback b;
     bo_original_order_ids := bo_original_order_ids b |}.

Definition set_delayed_kickback (b : BundleOk) (k : DelayedKickback) : BundleOk :=
  {| bo_space_used := bo_space_used b; bo_cumulative_space_used := bo_cumulative_space_used b;
     bo_tx_infos := bo_tx_infos b; bo_nonces_updated := bo_nonces_updated b;
     bo_paid_kickbacks := bo_paid_kickbacks b; bo_delayed_kickback := Some k;
     bo_original_order_ids := bo_original_order_ids b |}.

Definition empty_bundle_ok (space_state : BlockBuildingSpaceState) : BundleOk :=
  {| bo_space_used := BlockSpace_ZERO; bo_cumulative_space_used := ss_space_used space_state;
     bo_tx_infos := []; bo_nonces_updated := []; bo_paid_kickbacks := [];
     bo_delayed_kickback := None; bo_original_order_ids := [] |}.

(** ** The fork *)
Record PartialBlockFork (W C : Type) := {
  fk_rollbacks : nat;
  fk_world : W;
  fk_cache : C;
  fk_tracer : option SimulationTracer;
  fk_events : list ForkTraceEvent;
}.
Arguments fk_rollbacks {_ _} _.
Arguments fk_world {_ _} _.
Arguments fk_cache {_ _} _.
Arguments fk_tracer {_ _} _.
Arguments fk_events {_ _} _.
Arguments Build_PartialBlockFork {_ _}.

Definition PartialBlockFork_new {W C} (w : W) (c : C) (t : option SimulationTracer)
  : PartialBlockFork W C := Build_PartialBlockFork 0 w c t [].

Section commit.
Context {W Diff C : Type} `{ChainState W Diff} `{!TxCache W Diff C} `{PayoutSigner}.
Context `{!HashOrder Address} `{!HashOrder nat}.
Context (ctx : BlockBuildingContext).
Abbreviation Fork := (PartialBlockFork W C).

Definition rollback_point : M Fork nat := gets fk_rollbacks.

(** [checked_sub(..).expect("incorrect rollback")], then [BundleState::revert]. *)
Definition rollback (point : nat) : M Fork unit := fun f =>
  if decide (point <= fk_rollbacks f)%nat
  then (Build_PartialBlockFork point (revert (fk_world f) (fk_rollbacks f - point))
          (fk_cache f) (fk_tracer f) (fk_events f), Done tt)
  else (f, Panic).

Definition coinbase_balance : M Fork U256 :=
  let* r := gets (fun f => state_balance (fk_world f) (ctx_beneficiary ctx)) in
  try_critical Critical_Reth r.

(** Runs [f] and rolls back on a recoverable error; a critical one leaves. *)
Definition execute_with_rollback {A E} (m : M Fork (result A E)) : M Fork (result A E) :=
  let* point := rollback_point in
  let* res := m in
  match res with
  | Ok a => ret (Ok a)
  | Err e => let* _ := rollback point in ret (Err e)
  end.

Definition can_fit_tx (space_needed : BlockSpace) (blob_gas_needed : U64)
    (space_state : BlockBuildingSpaceState) : result unit TransactionErr :=
  let total := total_consumed_space space_state in
  if decide (u64_add (bs_rlp_length space_needed) (bs_rlp_length total) > MAX_RLP_BLOCK_SIZE)
  then Err TxErr_BlockSpaceLeft
  else if decide (u64_add (bs_gas space_needed) (bs_gas total) > ctx_gas_available ctx)
  then Err TxErr_GasLeft
  else if decide (u64_add blob_gas_needed (bs_blob_gas (ss_space_used space_state))
                  > ctx_max_blob_gas_per_block ctx)
  then Err TxErr_BlobGasLeft
  else Ok tt.

(** [execute_evm]: an invalid transaction and a blocked address are recoverable. *)
Definition execute_evm (w : W) (tx : TxWithBlobs)
  : result (result (EvmOutput Diff) TransactionErr) CriticalCommitOrderError :=
  match transact w tx with
  | Err (EVMError_Transaction e) => Ok (Err (TxErr_InvalidTransaction e))
  | Err EVMError_Fatal => Err Critical_EVM
  | Ok res =>
      if existsb (fun a => bool_decide (a ∈ ctx_blocklist ctx)) (ev_access_list res)
      then Ok (Err TxErr_Blocklist)
      else Ok (Ok res)
  end.

Definition is_blocked (tx : TxWithBlobs) : bool :=
  bool_decide (tx_signer tx ∈ ctx_blocklist ctx)
  || match tx_to tx with Some to => bool_decide (to ∈ ctx_blocklist ctx) | None => false end.

Definition set_cache (c : C) (f : Fork) : Fork :=
  Build_PartialBlockFork (fk_rollbacks f) (fk_world f) c (fk_tracer f) (fk_events f).
Definition set_tracer (t : option SimulationTracer) (f : Fork) : Fork :=
  Build_PartialBlockFork (fk_rollbacks f) (fk_world f) (fk_cache f) t (fk_events f).
Definition push_event (e : ForkTraceEvent) (f : Fork) : Fork :=
  Build_PartialBlockFork (fk_rollbacks f) (fk_world f) (fk_cache f) (fk_tracer f)
    (fk_events f ++ [e]).
(** [commit], [merge_transitions] and [rollbacks += 1] *)
Definition commit_changes (d : Diff) (f : Fork) : Fork :=
  Build_PartialBlockFork (S (fk_rollbacks f)) (commit (fk_world f) d) (fk_cache f) (fk_tracer f)
    (fk_events f).

(** The evm part of [commit_tx_inner]: a cached outcome, or a new execution that
    is stored when the cache asks for it; with the trace to record. *)
Definition run_transaction (tx : TxWithBlobs) (recording : bool)
  : M Fork (result (EvmOutput Diff) TransactionErr * option UsedStateTrace) :=
  let* cached := gets (fun f =>
    get_cached_result (fk_cache f) (fk_world f) (tx_hash tx) (ctx_beneficiary ctx)) in
  let* cached := try_critical Critical_Reth cached in
  match cached with
  | (Some (res, trace), _) => ret (res, Some trace)
  | (None, should_cache) =>
      let* r := gets (fun f => execute_evm (fk_world f) tx) in
      let* res := match r with Ok res => ret res | Err e => critical e end in
      let* _ := modify (fun f =>
        if should_cache
        then set_cache (store_result (fk_cache f) (fk_world f) tx (ctx_beneficiary ctx) res) f
        else f) in
      ret (res, match res with
                | Ok out => if recording then Some (ev_trace out) else None
                | Err _ => None
                end)
  end.

Definition trace_execution (out : EvmOutput Diff) (recording : bool) (trace : option UsedStateTrace)
    (f : Fork) : Fork :=
  match fk_tracer f with
  | None => f
  | Some t =>
      let t := add_gas_used t (ev_gas_used out) in
      let t := match recording, trace with
               | true, Some tr => add_used_state_trace t tr
               | _, _ => t
               end in
      set_tracer (Some t) f
  end.

Definition commit_tx_inner (tx : TxWithBlobs) (space_state : BlockBuildingSpaceState)
  : M Fork (result TransactionOk TransactionErr) :=
  let blob_gas_used := blobs_gas_used tx in
  match can_fit_tx (tx_space_needed tx) blob_gas_used space_state with
  | Err e => ret (Err e)
  | Ok _ =>
      let* before := coinbase_balance in
      let* coinbase_balance_before := match i256_try_from before with
                                      | Some b => ret b
                                      | None => critical Critical_BigIntConversion end in
      if is_blocked tx then ret (Err TxErr_Blocklist)
      else
        let* recording := gets (fun f => match fk_tracer f with
                                         | Some t => should_collect_used_state_trace t
                                         | None => false end) in
        let* rt := run_transaction tx recording in
        match rt with
        | (Err e, _) => ret (Err e)
        | (Ok out, trace) =>
            let* _ := modify (trace_execution out recording trace) in
            let* _ := modify (commit_changes (ev_state out)) in
            let space_used := BlockSpace_new (ev_gas_used out) (length_eip7934 tx) blob_gas_used in
            let space_state := use_space space_state space_used in
            let receipt := {| rc_tx_type := ts_ty (txb_tx tx); rc_success := ev_success out;
                              rc_cumulative_gas_used := bs_gas (ss_space_used space_state);
                              rc_logs := ev_logs out |} in
            let* after := coinbase_balance in
            let* coinbase_balance_after := match i256_try_from after with
                                           | Some b => ret b
                                           | None => critical Critical_BigIntConversion end in
            ret (Ok {| to_exec_result := (ev_gas_used out, ev_success out, ev_logs out);
                       to_cumulative_space_used := ss_space_used space_state;
                       to_tx_info := {| ti_tx := tx; ti_receipt := receipt;
                                        ti_space_used := space_used;
                                        ti_coinbase_profit :=
                                          i256_sub coinbase_balance_after coinbase_balance_before |};
                       to_nonce_updated := (tx_signer tx, u64_add (tx_nonce tx) 1) |})
        end
  end.

Definition commit_tx (tx : TxWithBlobs) (space_state : BlockBuildingSpaceState)
  : M Fork (result TransactionOk TransactionErr) := fun f =>
  let f := push_event (AboutToExecute tx space_state) f in
  let '(f, res) := commit_tx_inner tx space_state f in
  (push_event (TxExecuted tx space_state res) f, res).

(** ** Refunds *)
Definition estimate_refund_payout_tx (to : Address) (refundable_value : U256)
    (space_used : BlockSpace) : M Fork (result ReservedPayout BundleErr) :=
  let* estimate := gets (fun f => estimate_payout_gas_limit ctx (fk_world f) to space_used) in
  match estimate with
  | Err e => ret (Err (BundleErr_EstimatePayoutGas e))
  | Ok space_limit =>
      let base_fee := u256_mul (ctx_basefee ctx) (bs_gas space_limit) in
      if decide (base_fee > refundable_value)
      then ret (Err (BundleErr_NotEnoughRefundForGas to refundable_value base_fee))
      else ret (Ok {| rp_space_limit := space_limit;
                      rp_tx_value := u256_sub refundable_value base_fee;
                      rp_total_refundable_value := refundable_value;
                      rp_base_fee := base_fee |})
  end.

(** The reception time of the payout's metadata plays no role and is 0; [unwrap]
    panics when the signed transaction carries blobs. *)
Definition insert_refund_payout_tx (payout : ReservedPayout) (to : Address) (reserved : BlockSpace)
    (insert_result : BundleOk) : M Fork (result BundleOk BundleErr) :=
  let* nonce := gets (fun f => state_nonce (fk_world f) (ctx_builder_address ctx)) in
  let* nonce := try_critical Critical_Reth nonce in
  match create_payout_tx ctx nonce to (bs_gas (rp_space_limit payout)) (rp_tx_value payout) with
  | None => ret (Err BundleErr_PayoutTx)
  | Some signed =>
      match new_no_blobs 0 signed (ctx_builder_address ctx) with
      | Err _ => panic
      | Ok payout_tx =>
          let* res := commit_tx payout_tx (bo_space_state insert_result reserved) in
          match res with
          | Ok ok =>
              if rc_success (ti_receipt (to_tx_info ok))
              then ret (Ok (push_paid_kickback (accumulate_tx_execution ok insert_result)
                              (to, rp_tx_value payout)))
              else ret (Err (BundleErr_FailedToCommitPayoutTx to (bs_gas (rp_space_limit payout))
                               (rp_tx_value payout) None))
          | Err e => ret (Err (BundleErr_FailedToCommitPayoutTx to (bs_gas (rp_space_limit payout))
                                 (rp_tx_value payout) (Some e)))
          end
      end
  end.

(** ** Bundles *)

(** [I256::unsigned_abs] of a positive profit. *)
Definition add_refundable (profit : U256) (coinbase_profit : Z) (refundable : bool) : U256 :=
  if bool_decide (coinbase_profit > 0) && refundable
  then u256_add profit (Z.abs coinbase_profit) else profit.

Fixpoint commit_bundle_txs (bundle : Bundle) (reserved : BlockSpace) (allow_tx_skip : bool)
    (txs : list TxWithBlobs) (insert : BundleOk) (refundable_profit : U256)
  : M Fork (result (BundleOk * U256) BundleErr) :=
  match txs with
  | [] => ret (Ok (insert, refundable_profit))
  | tx :: txs =>
      let hash := tx_hash tx in
      let* point := rollback_point in
      let* result := commit_tx tx (bo_space_state insert reserved) in
      match result with
      | Ok res =>
          if negb (rc_success (ti_receipt (to_tx_info res)))
             && bool_decide (hash ∈ b_dropping_tx_hashes bundle)
          then let* _ := rollback point in
               commit_bundle_txs bundle reserved allow_tx_skip txs insert refundable_profit
          else if negb (rc_success (ti_receipt (to_tx_info res)))
                  && negb (bool_decide (hash ∈ b_reverting_tx_hashes bundle))
          then ret (Err (BundleErr_TransactionReverted hash))
          else commit_bundle_txs bundle reserved allow_tx_skip txs
                 (accumulate_tx_execution res insert)
                 (add_refundable refundable_profit (ti_coinbase_profit (to_tx_info res))
                    (is_tx_refundable bundle hash))
      | Err e =>
          if (allow_tx_skip && bool_decide (hash ∈ b_reverting_tx_hashes bundle))
             || bool_decide (hash ∈ b_dropping_tx_hashes bundle)
          then commit_bundle_txs bundle reserved allow_tx_skip txs insert refundable_profit
          else ret (Err (BundleErr_InvalidTransaction hash e))
      end
  end.

(** The ['refund] block. *)
Definition refund_bundle (bundle : Bundle) (reserved : BlockSpace)
    (combined_refunds : gmap Address U256) (insert : BundleOk) (refundable_profit : U256)
  : M Fork (result BundleOk BundleErr) :=
  match b_refund bundle with
  | None => ret (Ok insert)
  | Some cfg =>
      let refundable_value := get_percent refundable_profit (br_percent cfg) in
      let delayed pay := {| dk_recipient := br_recipient cfg; dk_payout_value := refundable_value;
                            dk_payout_tx_fee := 0; dk_payout_tx_space_needed := BlockSpace_ZERO;
                            dk_should_pay_in_block := pay |} in
      if br_delayed cfg then ret (Ok (set_delayed_kickback insert (delayed false)))
      else if bool_decide (is_Some (combined_refunds !! br_recipient cfg))
      then ret (Ok (set_delayed_kickback insert (delayed true)))
      else
        let* est := estimate_refund_payout_tx (br_recipient cfg) refundable_value
                      (bo_cumulative_space_used insert) in
        match est with
        | Err e => ret (Err e)
        | Ok payout =>
            if bool_decide (bs_gas (rp_space_limit payout) = BASE_TX_GAS)
               && is_ok (can_fit_tx (rp_space_limit payout) 0 (bo_space_state insert reserved))
            then ret (Ok (set_delayed_kickback insert
                   {| dk_recipient := br_recipient cfg; dk_payout_value := rp_tx_value payout;
                      dk_payout_tx_fee := rp_base_fee payout;
                      dk_payout_tx_space_needed := rp_space_limit payout;
                      dk_should_pay_in_block := true |}))
            else insert_refund_payout_tx payout (br_recipient cfg) reserved insert
        end
  end.

Definition commit_bundle_no_rollback (bundle : Bundle) (space_state : BlockBuildingSpaceState)
    (allow_tx_skip : bool) (combined_refunds : gmap Address U256)
  : M Fork (result BundleOk BundleErr) :=
  let reserved := ss_reserved space_state in
  let* r := commit_bundle_txs bundle reserved allow_tx_skip (b_txs bundle)
              (empty_bundle_ok space_state) 0 in
  match r with
  | Err e => ret (Err e)
  | Ok (insert, refundable_profit) =>
      if decide (bs_gas (bo_space_used insert) = 0) then ret (Err BundleErr_EmptyBundle)
      else refund_bundle bundle reserved combined_refunds insert refundable_profit
  end.

Definition commit_bundle (bundle : Bundle) (space_state : BlockBuildingSpaceState)
    (allow_tx_skip : bool) (combined_refunds : gmap Address U256)
  : M Fork (result BundleOk BundleErr) :=
  let current_block := ctx_block ctx in
  let min_ts := default 0 (b_min_timestamp bundle) in
  let max_ts := default u64_max (b_max_timestamp bundle) in
  let block_ts := ctx_timestamp ctx in
  match b_block bundle with
  | Some block =>
      if decide (block = current_block) then
        if bool_decide (min_ts <= block_ts) && bool_decide (block_ts <= max_ts)
        then execute_with_rollback
               (commit_bundle_no_rollback bundle space_state allow_tx_skip combined_refunds)
        else ret (Err (BundleErr_IncorrectTimestamp min_ts max_ts block_ts))
      else ret (Err (BundleErr_TargetBlockIncorrect current_block block block))
  | None =>
      if bool_decide (min_ts <= block_ts) && bool_decide (block_ts <= max_ts)
      then execute_with_rollback
             (commit_bundle_no_rollback bundle space_state allow_tx_skip combined_refunds)
      else ret (Err (BundleErr_IncorrectTimestamp min_ts max_ts block_ts))
  end.

(** ** Share bundles *)

(** [entry(..).and_modify(+=).or_insert(..)] *)
Definition add_payout (m : gmap Address U256) (a : Address) (v : U256) : gmap Address U256 :=
  <[a := match m !! a with Some old => u256_add old v | None => v end]> m.

(** [collect] into a map: a later refund of an index replaces an earlier one. *)
Definition refundable_elements (refunds : list Refund) : gmap nat Z :=
  foldl (fun m r => <[body_idx r := refund_percent r]> m) ∅ refunds.

(** The second loop: every refundable element shares its percentage of the
    profit among the addresses of its refund configuration. *)
Fixpoint share_refunds (body : list ShareBundleBody) (elements : gmap nat Z) (idxs : list nat)
    (refundable_profit : U256) (inner_payouts : gmap Address U256)
  : result (gmap Address U256) BundleErr :=
  match idxs with
  | [] => Ok inner_payouts
  | idx :: idxs =>
      match (b ← body !! idx; Body_refund_config b) with
      | None => Err (BundleErr_IncorrectRefundableElement idx)
      | Some configs =>
          let total_value := get_percent refundable_profit (default 0 (elements !! idx)) in
          share_refunds body elements idxs refundable_profit
            (foldl (fun m c => add_payout m (rc_address c) (get_percent total_value (rc_percent c)))
               inner_payouts configs)
      end
  end.

(** The third loop: the gas of every promised payout. *)
Fixpoint estimate_payouts (inner_payouts : gmap Address U256) (addrs : list Address)
    (cumulative : BlockSpace) (promised : gmap Address ReservedPayout)
  : M Fork (result (gmap Address ReservedPayout) BundleErr) :=
  match addrs with
  | [] => ret (Ok promised)
  | to :: addrs =>
      let* est := estimate_refund_payout_tx to (default 0 (inner_payouts !! to)) cumulative in
      match est with
      | Err e => ret (Err e)
      | Ok payout => estimate_payouts inner_payouts addrs cumulative (<[to := payout]> promised)
      end
  end.

(** [values().map(total_refundable_value).sum()] *)
Definition total_promised (m : gmap Address ReservedPayout) : U256 :=
  foldr (fun p acc => u256_add (rp_total_refundable_value p.2) acc) 0 (map_to_list m).

(** What an executed inner bundle adds to its parent. *)
Definition merge_inner_bundle (inner_oid : option OrderId) (insert : BundleOk) (inner : BundleOk)
  : BundleOk :=
  let own := match inner_oid with
             | Some oid => match bo_tx_infos inner with [] => [] | _ => [oid] end
             | None => []
             end in
  {| bo_space_used := BlockSpace_add (bo_space_used insert) (bo_space_used inner);
     bo_cumulative_space_used := bo_cumulative_space_used inner;
     bo_tx_infos := bo_tx_infos insert ++ bo_tx_infos inner;
     bo_nonces_updated := update_nonce_list_with_updates (bo_nonces_updated insert)
                            (bo_nonces_updated inner);
     bo_paid_kickbacks := bo_paid_kickbacks insert;
     bo_delayed_kickback := bo_delayed_kickback insert;
     bo_original_order_ids := bo_original_order_ids insert ++ own ++ bo_original_order_ids inner |}.

Definition inner_refundable (profit : U256) (res : ShareBundleCommitResult) (refundable : bool) : U256 :=
  if bool_decide (sr_coinbase_diff_before_payouts res > sr_total_payouts_promissed res)
     && negb refundable
  then u256_add profit (u256_sub (sr_coinbase_diff_before_payouts res)
                          (sr_total_payouts_promissed res))
  else profit.

(** [payouts_promissed] of an inner bundle, added to the outer payouts. *)
Definition add_promised (m : gmap Address U256) (promised : gmap Address ReservedPayout)
  : gmap Address U256 :=
  foldl (fun m a => match promised !! a with
                    | Some p => add_payout m a (rp_total_refundable_value p)
                    | None => m
                    end) m (hash_order (dom promised)).

(** The end of [commit_share_bundle_inner_no_rollback], after its first loop. *)
Definition finish_share_bundle (body : list ShareBundleBody) (elements : gmap nat Z)
    (coinbase_balance_before : U256) (insert : BundleOk) (refundable_profit : U256)
    (inner_payouts : gmap Address U256) : M Fork (result ShareBundleCommitResult BundleErr) :=
  match share_refunds body elements (hash_order (dom elements)) refundable_profit inner_payouts with
  | Err e => ret (Err e)
  | Ok payouts =>
      let* est := estimate_payouts payouts (hash_order (dom payouts))
                    (bo_cumulative_space_used insert) ∅ in
      match est with
      | Err e => ret (Err e)
      | Ok promised =>
          let* after := gets (fun f => state_balance (fk_world f) (ctx_beneficiary ctx)) in
          ret (Ok {| sr_bundle_ok := insert;
                     sr_coinbase_diff_before_payouts :=
                       match after with
                       | Ok b => saturating_sub b coinbase_balance_before
                       | Err _ => 0
                       end;
                     sr_total_payouts_promissed := total_promised promised;
                     sr_payouts_promissed := promised |})
      end
  end.

Fixpoint commit_share_bundle_inner (bundle : ShareBundleInner)
    (space_state : BlockBuildingSpaceState) (allow_tx_skip : bool)
  : M Fork (result ShareBundleCommitResult BundleErr) :=
  let '(mk_ShareBundleInner body refund _ _ _) := bundle in
  let elements := refundable_elements refund in
  let reserved := ss_reserved space_state in
  execute_with_rollback (
    let* coinbase_balance_before := coinbase_balance in
    let* r := (fix loop (idx : nat) (l : list ShareBundleBody) (insert : BundleOk)
                   (profit : U256) (payouts : gmap Address U256)
                 : M Fork (result (BundleOk * U256 * gmap Address U256) BundleErr) :=
       match l with
       | [] => ret (Ok (insert, profit, payouts))
       | Body_Tx sbundle_tx :: l =>
           let tx := sbt_tx sbundle_tx in
           let* point := rollback_point in
           let* result := commit_tx tx (bo_space_state insert reserved) in
           match result with
           | Ok res =>
               let include := loop (S idx) l (accumulate_tx_execution res insert)
                    (add_refundable profit (ti_coinbase_profit (to_tx_info res))
                       (negb (bool_decide (is_Some (elements !! idx))))) payouts in
               if rc_success (ti_receipt (to_tx_info res)) then include
               else
                 match revert_behavior sbundle_tx with
                 | NotAllowed => ret (Err (BundleErr_TransactionReverted (tx_hash tx)))
                 | AllowedIncluded => include
                 | AllowedExcluded =>
                     let* _ := rollback point in
                     loop (S idx) l insert profit payouts
                 end
           | Err e =>
               if allow_tx_skip && can_revert (revert_behavior sbundle_tx)
               then loop (S idx) l insert profit payouts
               else ret (Err (BundleErr_InvalidTransaction (tx_hash tx) e))
           end
       | Body_Bundle inner :: l =>
           let* inner_res := commit_share_bundle_inner inner (bo_space_state insert reserved)
                               allow_tx_skip in
           match inner_res with
           | Ok res =>
               loop (S idx) l
                 (merge_inner_bundle (sbi_original_order_id inner) insert (sr_bundle_ok res))
                 (inner_refundable profit res (bool_decide (is_Some (elements !! idx))))
                 (add_promised payouts (sr_payouts_promissed res))
           | Err e =>
               if sbi_can_skip inner then loop (S idx) l insert profit payouts
               else ret (Err e)
           end
       end) O body (empty_bundle_ok space_state) 0 ∅ in
    match r with
    | Err e => ret (Err e)
    | Ok (insert, profit, payouts) =>
        finish_share_bundle body elements coinbase_balance_before insert profit payouts
    end).

(** All kickbacks, by address. *)
Fixpoint pay_kickbacks (payouts : list (Address * ReservedPayout)) (reserved : BlockSpace)
    (insert : BundleOk) : M Fork (result BundleOk BundleErr) :=
  match payouts with
  | [] => ret (Ok insert)
  | (to, payout) :: payouts =>
      let* r := insert_refund_payout_tx payout to reserved insert in
      match r with
      | Err e => ret (Err e)
      | Ok insert => pay_kickbacks payouts reserved insert
      end
  end.

Definition payout_le (a b : Address * ReservedPayout) : Prop := a.1 <= b.1.
#[export] Instance payout_le_dec a b : Decision (payout_le a b).
Proof. unfold payout_le. apply _. Defined.

Definition commit_share_bundle_no_rollback (bundle : ShareBundle)
    (space_state : BlockBuildingSpaceState) (allow_tx_skip : bool)
  : M Fork (result BundleOk BundleErr) :=
  let* res := commit_share_bundle_inner (sb_inner_bundle bundle) space_state allow_tx_skip in
  match res with
  | Err e => ret (Err e)
  | Ok r => pay_kickbacks (merge_sort payout_le (map_to_list (sr_payouts_promissed r)))
              (ss_reserved space_state) (sr_bundle_ok r)
  end.

Definition commit_share_bundle (bundle : ShareBundle) (space_state : BlockBuildingSpaceState)
    (allow_tx_skip : bool) : M Fork (result BundleOk BundleErr) :=
  let current_block := ctx_block ctx in
  if bool_decide (sb_block bundle <= current_block) && bool_decide (current_block <= sb_max_block bundle)
  then execute_with_rollback (commit_share_bundle_no_rollback bundle space_state allow_tx_skip)
  else ret (Err (BundleErr_TargetBlockIncorrect current_block (sb_block bundle) (sb_max_block bundle))).

(** ** Orders *)
Definition get_used_state_trace : M Fork (option UsedStateTrace) :=
  gets (fun f => t ← fk_tracer f; get_used_state_tracer t).

(** The profit left after what is owed; negative profit is an error. *)
Definition coinbase_profit_when_refunds (initial_balance delayed_refund_cost : U256)
  : M Fork (result U256 OrderErr) :=
  let* after := coinbase_balance in
  let min_balance := u256_add initial_balance delayed_refund_cost in
  if decide (after >= min_balance) then ret (Ok (u256_sub after min_balance))
  else ret (Err (OrderErr_NegativeProfit (u256_sub min_balance after))).

Definition delayed_cost (k : option DelayedKickback) : U256 :=
  match k with Some r => u256_add (dk_payout_value r) (dk_payout_tx_fee r) | None => 0 end.

Definition bundle_to_order_result (r : result BundleOk BundleErr) (coinbase_balance_before : U256)
  : M Fork (result OrderOk OrderErr) :=
  match r with
  | Err e => ret (Err (OrderErr_Bundle e))
  | Ok ok =>
      let* p := coinbase_profit_when_refunds coinbase_balance_before
                  (delayed_cost (bo_delayed_kickback ok)) in
      match p with
      | Err e => ret (Err e)
      | Ok profit =>
          let* trace := get_used_state_trace in
          ret (Ok {| oo_coinbase_profit := profit; oo_space_used := bo_space_used ok;
                     oo_cumulative_space_used := bo_cumulative_space_used ok;
                     oo_tx_infos := bo_tx_infos ok;
                     oo_original_order_ids := bo_original_order_ids ok;
                     oo_nonces_updated := bo_nonces_updated ok;
                     oo_paid_kickbacks := bo_paid_kickbacks ok;
                     oo_delayed_kickback := bo_delayed_kickback ok;
                     oo_used_state_trace := trace |})
      end
  end.

Definition tx_order_ok (ok : TransactionOk) (profit : U256) (trace : option UsedStateTrace) : OrderOk :=
  {| oo_coinbase_profit := profit; oo_space_used := ti_space_used (to_tx_info ok);
     oo_cumulative_space_used := to_cumulative_space_used ok;
     oo_tx_infos := [to_tx_info ok]; oo_original_order_ids := [];
     oo_nonces_updated := [to_nonce_updated ok]; oo_paid_kickbacks := [];
     oo_delayed_kickback := None; oo_used_state_trace := trace |}.

Definition commit_order_no_rollback (order : Order) (space_state : BlockBuildingSpaceState)
    (allow_tx_skip : bool) (combined_refunds : gmap Address U256)
  : M Fork (result OrderOk OrderErr) :=
  match order with
  | Order_Tx tx =>
      let* res := commit_tx (tx_with_blobs tx) space_state in
      match res with
      | Err e => ret (Err (OrderErr_Transaction e))
      | Ok ok =>
          let profit := ti_coinbase_profit (to_tx_info ok) in
          if decide (0 <= profit) then
            let* trace := get_used_state_trace in ret (Ok (tx_order_ok ok (Z.abs profit) trace))
          else if is_system (txb_metadata (tx_with_blobs tx)) then
            let* trace := get_used_state_trace in ret (Ok (tx_order_ok ok 0 trace))
          else ret (Err (OrderErr_NegativeProfit (Z.abs profit)))
      end
  | Order_Bundle bundle =>
      let* before := coinbase_balance in
      let* res := commit_bundle bundle space_state allow_tx_skip combined_refunds in
      bundle_to_order_result res before
  | Order_ShareBundle bundle =>
      let* before := coinbase_balance in
      let* res := commit_share_bundle bundle space_state allow_tx_skip in
      bundle_to_order_result res before
  end.

Definition commit_order (order : Order) (space_state : BlockBuildingSpaceState)
    (allow_tx_skip : bool) (combined_refunds : gmap Address U256)
  : M Fork (result OrderOk OrderErr) :=
  execute_with_rollback
    (commit_order_no_rollback order space_state allow_tx_skip combined_refunds).

End commit.
