(* ===== verification/OrderCommitSafe.v ===== *)
(** * Atomicity of order execution (building/order_commit.rs)

    Whatever an operation does, the state it started from can be recovered from
    the undo log ([extends]); hence an operation that fails with a recoverable
    error leaves the block as it was, and no rollback is ever incorrect. *)

From S2P Require Import Prelude Transactions Bundles Orders SimTypes World CommitMonad OrderCommit.

(** Facts that an operation is [good], below. *)
Create HintDb good.

Section safe.
Context {W Diff C : Type} `{ChainState W Diff} `{!ChainStateOk W Diff} `{!TxCache W Diff C}.
Context `{PayoutSigner} `{!PayoutSignerOk}.
Context `{!HashOrder Address} `{!HashOrder nat}.
Context (ctx : BlockBuildingContext).
Abbreviation Fork := (PartialBlockFork W C).

(** ** What the undo log still knows *)
Definition extends (f f' : Fork) : Prop :=
  (fk_rollbacks f <= fk_rollbacks f')%nat
  /\ revert (fk_world f') (fk_rollbacks f' - fk_rollbacks f) ≡ fk_world f.

(** The same point of the undo log, and the same state as far as it can be read. *)
Definition restored (f f' : Fork) : Prop :=
  fk_rollbacks f' = fk_rollbacks f /\ fk_world f' ≡ fk_world f.

#[export] Instance extends_preorder : PreOrder extends.
Proof.
  split.
  - intros f. split; [done |]. by rewrite Nat.sub_diag, revert_0.
  - intros f1 f2 f3 [Hle1 Hr1] [Hle2 Hr2]. split; [lia |].
    replace (fk_rollbacks f3 - fk_rollbacks f1)%nat
      with ((fk_rollbacks f3 - fk_rollbacks f2) + (fk_rollbacks f2 - fk_rollbacks f1))%nat by lia.
    by rewrite <- revert_revert, Hr2, Hr1.
Qed.

Lemma restored_extends f f' : restored f f' -> extends f f'.
Proof. intros [Hr Hw]. split; [lia |]. by rewrite Hr, Nat.sub_diag, revert_0, Hw. Qed.

Lemma extends_same (f f' : Fork) :
  fk_rollbacks f' = fk_rollbacks f -> fk_world f' = fk_world f -> extends f f'.
Proof. intros Hr Hw. apply restored_extends. split; [done | by rewrite Hw]. Qed.

Lemma extends_commit d f : extends f (commit_changes d f).
Proof.
  split; simpl; [lia |]. replace (S (fk_rollbacks f) - fk_rollbacks f)%nat with 1%nat by lia.
  by rewrite revert_commit, revert_0.
Qed.

(** ** Operations that only extend the log and do not panic *)
Definition safe_at (f0 : Fork) {A} (r : Fork * outcome A) : Prop :=
  extends f0 r.1 /\ r.2 <> Panic.
Definition good {A} (m : M Fork A) : Prop := forall f, safe_at f (m f).

Lemma safe_at_trans {A} f0 f1 (r : Fork * outcome A) : extends f0 f1 -> safe_at f1 r -> safe_at f0 r.
Proof. intros Ha [Hb Hp]. split; [by etrans | done]. Qed.

Lemma good_ret {A} (a : A) : good (ret a).
Proof. intros f. split; simpl; [reflexivity | done]. Qed.
Lemma good_gets {A} (g : Fork -> A) : good (gets g).
Proof. intros f. split; simpl; [reflexivity | done]. Qed.
Lemma good_critical {A} e : good (critical (A:=A) e).
Proof. intros f. split; simpl; [reflexivity | done]. Qed.
Lemma good_try_critical {A E} e (r : result A E) : good (try_critical e r).
Proof. destruct r; [apply good_ret | apply good_critical]. Qed.
Lemma good_modify g : (forall f, extends f (g f)) -> good (modify g).
Proof. intros Hg f. split; simpl; [apply Hg | done]. Qed.

Lemma good_bind {A B} (m : M Fork A) (k : A -> M Fork B) :
  good m -> (forall a, good (k a)) -> good (bind m k).
Proof.
  intros Hm Hk f. unfold bind. destruct (Hm f) as [He Hp].
  destruct (m f) as [f' [a | e |]]; simpl in *; [| by split..].
  eapply safe_at_trans; [exact He | apply Hk].
Qed.

Lemma good_rollback_point : good rollback_point.
Proof. apply good_gets. Qed.
Lemma good_coinbase_balance : good (coinbase_balance ctx).
Proof. apply good_bind; [apply good_gets | intros; apply good_try_critical]. Qed.

(** Rolling back to a point of the log restores the state there. *)
Lemma rollback_restores f0 f1 :
  extends f0 f1 ->
  exists f2, rollback (fk_rollbacks f0) f1 = (f2, Done tt) /\ restored f0 f2.
Proof.
  intros [Hle Hr]. unfold rollback. rewrite decide_True by done. eexists. split; [done |].
  split; [done |]. exact Hr.
Qed.

Lemma rollback_then {A} (k : M Fork A) f0 f1 :
  extends f0 f1 -> good k -> safe_at f0 (bind (rollback (fk_rollbacks f0)) (fun _ => k) f1).
Proof.
  intros He Hk. unfold bind. destruct (rollback_restores f0 f1 He) as (f2 & -> & Hr).
  eapply safe_at_trans; [by apply restored_extends | apply Hk].
Qed.

Lemma continue_with {A} (k : M Fork A) f0 f1 : extends f0 f1 -> good k -> safe_at f0 (k f1).
Proof. intros He Hk. eapply safe_at_trans; [done | apply Hk]. Qed.

(** A point is taken, something is tried, and the rest may roll back to it. *)
Lemma good_attempt {A B} (m : M Fork A) (k : nat -> A -> M Fork B) :
  good m ->
  (forall f0 f1 a, extends f0 f1 -> safe_at f0 (k (fk_rollbacks f0) a f1)) ->
  good (let* point := rollback_point in let* a := m in k point a).
Proof.
  intros Hm Hk f. unfold bind, rollback_point, gets. destruct (Hm f) as [He Hp].
  destruct (m f) as [f' [a | e |]]; simpl in *; [by apply Hk | by split..].
Qed.

Lemma good_execute_with_rollback {A E} (m : M Fork (result A E)) :
  good m -> good (execute_with_rollback m).
Proof.
  intros Hm. apply good_attempt; [done |]. intros f0 f1 [a | e] He.
  - by apply continue_with, good_ret.
  - by apply rollback_then, good_ret.
Qed.

(** On a recoverable error the block is as it was. *)
Lemma execute_with_rollback_restores {A E} (m : M Fork (result A E)) f f' e :
  good m -> execute_with_rollback m f = (f', Done (Err e)) -> restored f f'.
Proof.
  intros Hm. unfold execute_with_rollback, bind, rollback_point, gets.
  destruct (Hm f) as [He _]. destruct (m f) as [f1 [[a | e'] | |]]; try done.
  destruct (rollback_restores f f1 He) as (f2 & -> & Hr). by intros [= <- _].
Qed.

(** The steps that the code is made of; what is left is shown by hand. *)
Ltac good_step :=
  match goal with
  | |- good (ret _) => apply good_ret
  | |- good (gets _) => apply good_gets
  | |- good (critical _) => apply good_critical
  | |- good (try_critical _ _) => apply good_try_critical
  | |- good (coinbase_balance _) => apply good_coinbase_balance
  | |- good (execute_with_rollback _) => apply good_execute_with_rollback
  | |- good (bind rollback_point _) => apply good_attempt; [| intros f0 f1 ? Hext]
  | |- good (bind _ _) => apply good_bind; [| intros ?]
  | |- safe_at _ (bind (rollback _) _ _) => apply rollback_then; [done |]
  | |- safe_at _ ((match ?x with _ => _ end) _) => destruct x
  | |- safe_at _ (_ _) => apply continue_with; [done |]
  | |- good (match ?x with _ => _ end) => destruct x
  end.
Ltac good := repeat (good_step || solve [eauto with good]).

(** ** Transactions *)
Lemma good_run_transaction tx recording : good (run_transaction ctx tx recording).
Proof.
  unfold run_transaction. good. apply good_modify. intros f.
  case_match; [by apply extends_same | reflexivity].
Qed.

Lemma good_trace_execution (out : EvmOutput Diff) recording trace : good (modify (trace_execution out recording trace)).
Proof.
  apply good_modify. intros f. unfold trace_execution. case_match; [| reflexivity].
  by apply extends_same.
Qed.

Lemma good_commit_changes d : good (modify (commit_changes d)).
Proof. apply good_modify. intros f. apply extends_commit. Qed.

#[local] Hint Resolve good_run_transaction good_trace_execution good_commit_changes : good.

Lemma good_commit_tx_inner tx space_state : good (commit_tx_inner ctx tx space_state).
Proof. unfold commit_tx_inner. good. Qed.

Lemma good_commit_tx tx space_state : good (commit_tx ctx tx space_state).
Proof.
  intros f. unfold commit_tx. set (f1 := push_event _ f).
  assert (extends f f1) as Hf by (by apply extends_same).
  destruct (good_commit_tx_inner tx space_state f1) as [He Hp].
  destruct (commit_tx_inner ctx tx space_state f1) as [f2 r]. simpl in *.
  split; simpl; [| done]. etrans; [exact Hf |]. etrans; [exact He |]. by apply extends_same.
Qed.
#[local] Hint Resolve good_commit_tx : good.

(** ** Refunds and bundles *)
Lemma good_estimate_refund_payout_tx to v s : good (estimate_refund_payout_tx ctx to v s).
Proof. unfold estimate_refund_payout_tx. good. Qed.

(** The signed payout carries no blobs, so wrapping it cannot fail. *)
Lemma good_insert_refund_payout_tx payout to reserved insert :
  good (insert_refund_payout_tx ctx payout to reserved insert).
Proof.
  unfold insert_refund_payout_tx. good_step; [good |]. good_step; [good |].
  destruct (create_payout_tx _ _ _ _ _) as [signed |] eqn:Hs; [| good].
  unfold create_payout_tx in Hs. apply sign_tx_fields in Hs as [Hb _].
  unfold new_no_blobs, TxWithBlobs_new. rewrite Hb. simpl. good.
Qed.
#[local] Hint Resolve good_estimate_refund_payout_tx good_insert_refund_payout_tx : good.

Lemma good_commit_bundle_txs bundle reserved skip txs insert profit :
  good (commit_bundle_txs ctx bundle reserved skip txs insert profit).
Proof.
  revert insert profit. induction txs as [| tx txs IH]; intros insert profit; simpl; good.
Qed.

Lemma good_refund_bundle bundle reserved combined insert profit :
  good (refund_bundle ctx bundle reserved combined insert profit).
Proof. unfold refund_bundle. good. Qed.
#[local] Hint Resolve good_commit_bundle_txs good_refund_bundle : good.

Lemma good_commit_bundle_no_rollback bundle s skip combined :
  good (commit_bundle_no_rollback ctx bundle s skip combined).
Proof. unfold commit_bundle_no_rollback. good. Qed.
#[local] Hint Resolve good_commit_bundle_no_rollback : good.

Lemma good_commit_bundle bundle s skip combined : good (commit_bundle ctx bundle s skip combined).
Proof. unfold commit_bundle. good. Qed.

(** ** Share bundles *)
Lemma good_estimate_payouts payouts addrs cumulative promised :
  good (estimate_payouts ctx payouts addrs cumulative promised).
Proof. revert promised. induction addrs as [| a addrs IH]; intros promised; simpl; good. Qed.
#[local] Hint Resolve good_estimate_payouts : good.

Lemma good_finish_share_bundle body elements before insert profit payouts :
  good (finish_share_bundle ctx body elements before insert profit payouts).
Proof. unfold finish_share_bundle. good. Qed.
#[local] Hint Resolve good_finish_share_bundle : good.

Lemma good_commit_share_bundle_inner bundle s skip : good (commit_share_bundle_inner ctx bundle s skip).
Proof.
  revert s. induction bundle as [body refund config can_skip oid IH] using ShareBundleInner_tree_ind.
  intros s. cbn [commit_share_bundle_inner]. apply good_execute_with_rollback.
  apply good_bind; [good |]. intros before. apply good_bind; [| intros; good].
  generalize O, (empty_bundle_ok s), 0, (∅ : gmap Address U256).
  induction IH as [| e body He IHall IH]; intros idx insert profit payouts; [good |].
  destruct e as [t | inner]; simpl in He; good.
Qed.
#[local] Hint Resolve good_commit_share_bundle_inner : good.

Lemma good_pay_kickbacks payouts reserved insert : good (pay_kickbacks ctx payouts reserved insert).
Proof. revert insert. induction payouts as [| p payouts IH]; intros insert; simpl; good. Qed.
#[local] Hint Resolve good_pay_kickbacks : good.

Lemma good_commit_share_bundle_no_rollback bundle s skip :
  good (commit_share_bundle_no_rollback ctx bundle s skip).
Proof. unfold commit_share_bundle_no_rollback. good. Qed.
#[local] Hint Resolve good_commit_share_bundle_no_rollback : good.

Lemma good_commit_share_bundle bundle s skip : good (commit_share_bundle ctx bundle s skip).
Proof. unfold commit_share_bundle. good. Qed.

(** ** Orders *)
Lemma good_bundle_to_order_result r before : good (bundle_to_order_result ctx r before).
Proof. unfold bundle_to_order_result, coinbase_profit_when_refunds, get_used_state_trace. good. Qed.
#[local] Hint Resolve good_commit_bundle good_commit_share_bundle good_bundle_to_order_result : good.

Lemma good_commit_order_no_rollback order s skip combined :
  good (commit_order_no_rollback ctx order s skip combined).
Proof. unfold commit_order_no_rollback, get_used_state_trace. good. Qed.
#[local] Hint Resolve good_commit_order_no_rollback : good.

Lemma good_commit_order order s skip combined : good (commit_order ctx order s skip combined).
Proof. unfold commit_order. good. Qed.

(** C1. Executing an order on a fork never panics (no rollback is incorrect and the
    payout transactions are well formed), whatever it does can be undone
    from the undo log, and an order that fails with a recoverable error
    leaves the undo log and the state of the block as they were before it. *)
Theorem commit_order_atomic order s skip combined f f' r :
  commit_order ctx order s skip combined f = (f', r) ->
  r <> Panic /\ extends f f' /\ (forall e, r = Done (Err e) -> restored f f').
Proof.
  intros Hc. destruct (good_commit_order order s skip combined f) as [He Hp]. rewrite Hc in He, Hp.
  split; [done |]. split; [done |]. intros e ->.
  eapply execute_with_rollback_restores; [apply good_commit_order_no_rollback | exact Hc].
Qed.

End safe.
