(* ===== verification/OrderCommitSpec.v ===== *)
(** * What executed orders contain (building/order_commit.rs)

    The transactions of a committed order form a [tx_run]: each was accepted by
    the space check at the point where it ran, its receipt continues the
    cumulative gas of the one before, and the result's totals and nonces are
    those of the run.  Executions may be answered by a cache; as long as it holds only
    what was executed, which execution maintains, the limits of the block are
    respected.  The cache of building/tx_sim_cache keeps the promises used here. *)

From S2P Require Import Prelude Transactions Bundles Orders SimTypes World TxSimCache CommitMonad OrderCommit.

(** ** Block space is a commutative monoid modulo [2^64] *)
Lemma u64_add_assoc a b c : u64_add (u64_add a b) c = u64_add a (u64_add b c).
Proof. unfold u64_add, wrap. rewrite Zplus_mod_idemp_l, Zplus_mod_idemp_r. f_equal. lia. Qed.

Lemma BlockSpace_add_assoc a b c :
  BlockSpace_add (BlockSpace_add a b) c = BlockSpace_add a (BlockSpace_add b c).
Proof. unfold BlockSpace_add; simpl. by rewrite !u64_add_assoc. Qed.

Lemma BlockSpace_add_zero a b :
  BlockSpace_add (BlockSpace_add a b) BlockSpace_ZERO = BlockSpace_add a b.
Proof.
  unfold BlockSpace_add, u64_add, wrap; simpl. by rewrite !Z.add_0_r, !Z.mod_mod by lia.
Qed.

(** The space after a list of executed transactions. *)
Definition run_space (s : BlockSpace) (l : list TransactionExecutionInfo) : BlockSpace :=
  foldl (fun s i => BlockSpace_add s (ti_space_used i)) s l.

Lemma run_space_zero s : s = BlockSpace_ZERO \/ (exists a b, s = BlockSpace_add a b) ->
  BlockSpace_add s BlockSpace_ZERO = s.
Proof. intros [-> | (a & b & ->)]; [done | apply BlockSpace_add_zero]. Qed.

Lemma run_space_shift s a l :
  BlockSpace_add s (run_space a l) = run_space (BlockSpace_add s a) l.
Proof.
  revert a. induction l as [| i l IH]; intros a; [done |]. cbn [run_space foldl].
  unfold run_space in IH. by rewrite IH, BlockSpace_add_assoc.
Qed.

Lemma run_space_total l :
  BlockSpace_add (run_space BlockSpace_ZERO l) BlockSpace_ZERO = run_space BlockSpace_ZERO l.
Proof.
  apply run_space_zero. induction l as [| i l IH] using rev_ind; [by left | right].
  unfold run_space. rewrite foldl_app. eauto.
Qed.

(** The space of two parts of a run is the sum of their spaces. *)
Lemma run_space_app l1 l2 :
  run_space BlockSpace_ZERO (l1 ++ l2)
  = BlockSpace_add (run_space BlockSpace_ZERO l1) (run_space BlockSpace_ZERO l2).
Proof.
  rewrite run_space_shift, run_space_total. unfold run_space. by rewrite foldl_app.
Qed.

(** ** Nonce updates *)
Lemma update_nonce_list_dom l x :
  (update_nonce_list l x).*1 = if decide (x.1 ∈ l.*1) then l.*1 else l.*1 ++ [x.1].
Proof.
  induction l as [| [a n] l IH]; [done |]. cbn [update_nonce_list]. rewrite !fmap_cons; cbn [fst].
  destruct (decide (a = x.1)) as [-> |]; rewrite fmap_cons; cbn [fst].
  - by rewrite decide_True by set_solver.
  - rewrite IH. repeat case_decide; set_solver.
Qed.

Lemma update_nonce_list_commute l x y :
  x.1 <> y.1 -> x.1 ∈ l.*1 ->
  update_nonce_list (update_nonce_list l y) x = update_nonce_list (update_nonce_list l x) y.
Proof.
  intros Hne. induction l as [| [a n] l IH]; simpl; [set_solver |]. intros Hin.
  destruct (decide (a = y.1)), (decide (a = x.1)); subst; simpl;
    repeat case_decide; try congruence.
  f_equal. apply IH. set_solver.
Qed.

Lemma update_nonce_list_twice l x y :
  x.1 = y.1 -> update_nonce_list (update_nonce_list l x) y = update_nonce_list l y.
Proof.
  intros Hxy. induction l as [| [a n] l IH]; simpl.
  - destruct x as [a n], y; simpl in *; subst. by rewrite decide_True by done.
  - destruct (decide (a = x.1)); simpl; repeat case_decide; congruence.
Qed.

Lemma updates_commute l r x :
  x.1 ∉ r.*1 -> x.1 ∈ l.*1 ->
  update_nonce_list (update_nonce_list_with_updates l r) x
  = update_nonce_list_with_updates (update_nonce_list l x) r.
Proof.
  revert l. induction r as [| y r IH]; intros l Hr Hl; [done |].
  cbn [update_nonce_list_with_updates foldl] in *.
  change (foldl update_nonce_list) with update_nonce_list_with_updates.
  rewrite IH; [| set_solver |].
  - f_equal. apply update_nonce_list_commute; [set_solver | done].
  - rewrite update_nonce_list_dom. case_decide; set_solver.
Qed.

Lemma updates_update l r x :
  NoDup r.*1 ->
  update_nonce_list_with_updates l (update_nonce_list r x)
  = update_nonce_list (update_nonce_list_with_updates l r) x.
Proof.
  revert l. induction r as [| [a n] r IH]; intros l Hnd; [done |].
  apply NoDup_cons in Hnd as [Ha Hnd]. cbn [update_nonce_list].
  destruct (decide (a = x.1)) as [-> | Hne]; cbn [update_nonce_list_with_updates foldl];
    change (foldl update_nonce_list) with update_nonce_list_with_updates; [| by apply IH].
  rewrite updates_commute; [| done |].
  - rewrite update_nonce_list_twice by done. by destruct x.
  - rewrite update_nonce_list_dom. case_decide; set_solver.
Qed.

(** The nonces after a run: for every sender, in the order of their first
    transaction, the one that follows its last transaction. *)
Definition run_nonces (l : list TransactionExecutionInfo) : list (Address * U64) :=
  foldl update_nonce_list []
    ((fun i => (tx_signer (ti_tx i), u64_add (tx_nonce (ti_tx i)) 1)) <$> l).

Lemma NoDup_update_nonce_list l x : NoDup l.*1 -> NoDup (update_nonce_list l x).*1.
Proof.
  intros Hl. rewrite update_nonce_list_dom. case_decide; [done |].
  apply NoDup_app. split_and!; [done | set_solver | apply NoDup_singleton].
Qed.

Lemma run_nonces_snoc l i :
  run_nonces (l ++ [i])
  = update_nonce_list (run_nonces l) (tx_signer (ti_tx i), u64_add (tx_nonce (ti_tx i)) 1).
Proof. unfold run_nonces. by rewrite fmap_app, foldl_app. Qed.

Lemma NoDup_run_nonces l : NoDup (run_nonces l).*1.
Proof.
  induction l as [| i l IH] using rev_ind; [apply NoDup_nil_2 |].
  rewrite run_nonces_snoc. by apply NoDup_update_nonce_list.
Qed.

Lemma run_nonces_app l1 l2 :
  update_nonce_list_with_updates (run_nonces l1) (run_nonces l2) = run_nonces (l1 ++ l2).
Proof.
  induction l2 as [| i l2 IH] using rev_ind; [by rewrite app_nil_r |].
  rewrite app_assoc, !run_nonces_snoc, updates_update by apply NoDup_run_nonces. by rewrite IH.
Qed.

(** ** Values that an operation can return *)
Section ensures.
Context {S : Type}.

Definition ensures {A} (m : M S A) (Q : A -> Prop) : Prop :=
  forall s s' a, m s = (s', Done a) -> Q a.

Lemma ensures_true {A} (m : M S A) : ensures m (fun _ => True).
Proof. done. Qed.
Lemma ensures_ret {A} (a : A) (Q : A -> Prop) : Q a -> ensures (ret a) Q.
Proof. intros HQ s s' a' [= <- <-]. done. Qed.
Lemma ensures_critical {A} e (Q : A -> Prop) : ensures (critical e) Q.
Proof. intros s s' a. done. Qed.
Lemma ensures_panic {A} (Q : A -> Prop) : ensures panic Q.
Proof. intros s s' a. done. Qed.
Lemma ensures_bind {A B} (m : M S A) (k : A -> M S B) (Q1 : A -> Prop) (Q : B -> Prop) :
  ensures m Q1 -> (forall a, Q1 a -> ensures (k a) Q) -> ensures (bind m k) Q.
Proof. intros Hm Hk s s' b (a & s1 & ? & ?)%bind_Done. eapply Hk; [by eapply Hm | done]. Qed.
Lemma ensures_skip {A B} (m : M S A) (k : A -> M S B) (Q : B -> Prop) :
  (forall a, ensures (k a) Q) -> ensures (bind m k) Q.
Proof. intros Hk. eapply ensures_bind; [apply ensures_true | eauto]. Qed.
Lemma ensures_wand {A} (m : M S A) (Q1 Q : A -> Prop) :
  ensures m Q1 -> (forall a, Q1 a -> Q a) -> ensures m Q.
Proof. intros Hm HQ s s' a Hs. by eapply HQ, Hm. Qed.

End ensures.

(** ** What execution relies on

    The transaction with a hash (hashes of different transactions differ). *)
Class TxHashing := tx_with_hash : TxHash -> TransactionSigned.

(** A transaction that is the one with its hash, whose encoding and blobs are far below
    the range of 64 bits. *)
Definition proper_tx `{TxHashing} (tx : TxWithBlobs) : Prop :=
  tx_with_hash (ts_hash (txb_tx tx)) = txb_tx tx
  /\ 0 <= length_eip7934 tx < 2 ^ 62 /\ 0 <= blobs_gas_used tx < 2 ^ 62.

Class SignerHashOk `{TxHashing} `{PayoutSigner} : Prop :=
  sign_tx_hash p tx : sign_tx p = Some tx -> tx_with_hash (ts_hash tx) = tx.

(** Outcomes that report the same: a hit may have the account of the coinbase moved. *)
Definition same_report {Diff : Type} (res res' : result (EvmOutput Diff) TransactionErr) : Prop :=
  match res, res' with
  | Ok out, Ok out' => ev_gas_used out = ev_gas_used out' /\ ev_success out = ev_success out'
                       /\ ev_logs out = ev_logs out'
  | Err e, Err e' => e = e'
  | _, _ => False
  end.

(** What order execution relies on of the cache: [holds c h b res] when [c] has [res] for
    the hash [h] and the coinbase [b].  A hit reports what the cache holds, and the cache
    holds only what was stored. *)
Class TxCacheOk (W Diff C : Type) `{TxCache W Diff C} := {
  holds : C -> TxHash -> Address -> result (EvmOutput Diff) TransactionErr -> Prop;
  hit_held c (w : W) h b res trace x : get_cached_result c w h b = Ok (Some (res, trace), x) ->
    exists res', holds c h b res' /\ same_report res res';
  held_stored c (w : W) tx b res h' b' res' : holds (store_result c w tx b res) h' b' res' ->
    (h' = tx_hash tx /\ b' = b /\ same_report res' res) \/ holds c h' b' res';
}.

Lemma same_report_refl {Diff} (res : result (EvmOutput Diff) TransactionErr) : same_report res res.
Proof. by destruct res. Qed.
Lemma same_report_trans {Diff} (r1 r2 r3 : result (EvmOutput Diff) TransactionErr) :
  same_report r1 r2 -> same_report r2 r3 -> same_report r1 r3.
Proof. destruct r1, r2, r3; simpl; try done; intros; destruct_and?; split_and?; congruence. Qed.

(** The interpreter runs a transaction only if its gas limit is within that of the
    block, and uses no more than its gas limit. *)
Class ExecutionOk {W Diff : Type} `{ChainState W Diff} (ctx : BlockBuildingContext) : Prop :=
  transact_gas (w : W) tx out : transact w tx = Ok out ->
    0 <= ev_gas_used out <= ts_gas_limit (txb_tx tx) /\ ts_gas_limit (txb_tx tx) <= ctx_gas_limit ctx.

(** A property of the [Ok] values. *)
Definition on_ok {A E} (Q : A -> Prop) (r : result A E) : Prop :=
  match r with Ok a => Q a | Err _ => True end.

Section ledger.
Context {W Diff C : Type} `{ChainState W Diff} `{!TxCache W Diff C}.
Context `{PayoutSigner} `{!PayoutSignerOk}.
Context `{!HashOrder Address} `{!HashOrder nat}.
Context (ctx : BlockBuildingContext).
Abbreviation Fork := (PartialBlockFork W C).

(** [out] is an outcome of [tx]: of the interpreter, or of the cache. *)
Definition ran (tx : TxWithBlobs) (out : EvmOutput Diff) : Prop :=
  (exists w : W, transact w tx = Ok out
    /\ existsb (fun a => bool_decide (a ∈ ctx_blocklist ctx)) (ev_access_list out) = false)
  \/ (exists (c : C) (w : W) trace b, get_cached_result c w (tx_hash tx) (ctx_beneficiary ctx)
                                = Ok (Some (Ok out, trace), b)).

(** What is recorded of a transaction executed when [s] was used and [reserved]
    was kept free. *)
Record accepted (reserved s : BlockSpace) (i : TransactionExecutionInfo) : Prop := {
  acc_fits : can_fit_tx ctx (tx_space_needed (ti_tx i)) (blobs_gas_used (ti_tx i))
               {| ss_space_used := s; ss_reserved := reserved |} = Ok tt;
  acc_allowed : is_blocked ctx (ti_tx i) = false;
  acc_ran : exists out, ran (ti_tx i) out
    /\ ti_space_used i = BlockSpace_new (ev_gas_used out) (length_eip7934 (ti_tx i))
                           (blobs_gas_used (ti_tx i))
    /\ ti_receipt i = {| rc_tx_type := ts_ty (txb_tx (ti_tx i)); rc_success := ev_success out;
                         rc_cumulative_gas_used := u64_add (bs_gas s) (ev_gas_used out);
                         rc_logs := ev_logs out |};
}.

Inductive tx_run (reserved s : BlockSpace) : list TransactionExecutionInfo -> BlockSpace -> Prop :=
| run_nil : tx_run reserved s [] s
| run_snoc l s1 i :
    tx_run reserved s l s1 -> accepted reserved s1 i ->
    tx_run reserved s (l ++ [i]) (BlockSpace_add s1 (ti_space_used i)).

Lemma tx_run_app reserved s l1 s1 l2 s2 :
  tx_run reserved s l1 s1 -> tx_run reserved s1 l2 s2 -> tx_run reserved s (l1 ++ l2) s2.
Proof.
  intros Hl1 Hl2. induction Hl2 as [| l s2 i _ IH Hi]; [by rewrite app_nil_r |].
  rewrite app_assoc. by apply run_snoc.
Qed.

(** The totals of a result are those of its run. *)
Record ledger (s0 : BlockBuildingSpaceState) (b : BundleOk) : Prop := {
  lg_run : tx_run (ss_reserved s0) (ss_space_used s0) (bo_tx_infos b) (bo_cumulative_space_used b);
  lg_space : bo_space_used b = run_space BlockSpace_ZERO (bo_tx_infos b);
  lg_nonces : bo_nonces_updated b = run_nonces (bo_tx_infos b);
}.

Lemma ledger_empty s0 : ledger s0 (empty_bundle_ok s0).
Proof. split; simpl; [constructor | done | done]. Qed.

Lemma ledger_delayed s0 b k : ledger s0 b -> ledger s0 (set_delayed_kickback b k).
Proof. by intros []. Qed.

(** Until the refund of a bundle is decided, none is delayed. *)
Definition plain (s0 : BlockBuildingSpaceState) (b : BundleOk) : Prop :=
  ledger s0 b /\ bo_delayed_kickback b = None.

Lemma plain_empty s0 : plain s0 (empty_bundle_ok s0).
Proof. split; [apply ledger_empty | done]. Qed.
Lemma plain_kickback s0 b k : plain s0 b -> plain s0 (push_paid_kickback b k).
Proof. by intros [[] ?]. Qed.

(** What [commit_tx] returns. *)
Record committed (tx : TxWithBlobs) (s : BlockBuildingSpaceState) (ok : TransactionOk) : Prop := {
  cm_tx : ti_tx (to_tx_info ok) = tx;
  cm_accepted : accepted (ss_reserved s) (ss_space_used s) (to_tx_info ok);
  cm_space : to_cumulative_space_used ok
             = BlockSpace_add (ss_space_used s) (ti_space_used (to_tx_info ok));
  cm_nonce : to_nonce_updated ok = (tx_signer tx, u64_add (tx_nonce tx) 1);
}.

Lemma plain_accumulate s0 b tx ok :
  plain s0 b -> committed tx (bo_space_state b (ss_reserved s0)) ok ->
  plain s0 (accumulate_tx_execution ok b).
Proof.
  intros [[Hr Hs Hn] Hd] [Ht Ha Hc Hno]. split; [| done]. split; simpl in *.
  - rewrite Hc. by apply run_snoc.
  - rewrite Hs. unfold run_space. by rewrite foldl_app.
  - by rewrite Hn, Hno, run_nonces_snoc, Ht.
Qed.

Lemma plain_merge s0 oid b inner :
  plain s0 b -> plain (bo_space_state b (ss_reserved s0)) inner ->
  plain s0 (merge_inner_bundle oid b inner).
Proof.
  intros [[Hr Hs Hn] Hd] [[Hr' Hs' Hn'] _]. split; [| done]. split; simpl in *.
  - by eapply tx_run_app.
  - by rewrite Hs, Hs', run_space_app.
  - by rewrite Hn, Hn', run_nonces_app.
Qed.

Create HintDb ledger.
#[local] Hint Resolve plain_empty plain_kickback plain_accumulate plain_merge : ledger.
#[local] Hint Extern 1 (on_ok _ _) => simpl : ledger.

Ltac ensure_step :=
  match goal with
  | |- ensures (ret _) _ => apply ensures_ret
  | |- ensures (critical _) _ => apply ensures_critical
  | |- ensures panic _ => apply ensures_panic
  | |- ensures (match ?x with _ => _ end) _ => destruct x eqn:?
  | |- ensures (bind (commit_tx _ _ _) _) _ => fail 1
  | |- ensures (bind _ _) _ => apply ensures_skip; intros ?
  end.

Lemma ensures_run_transaction tx recording :
  ensures (run_transaction ctx tx recording) (fun r => on_ok (ran tx) r.1).
Proof.
  intros f f' [r t] Hs. unfold run_transaction in Hs. simpl.
  apply bind_Done in Hs as (cached & f1 & [= <- <-] & Hs).
  apply bind_Done in Hs as (c & f2 & Hc & Hs).
  destruct (get_cached_result _ _ _ _) as [c' |] eqn:Hget; simpl in Hc; [| done].
  injection Hc as <- <-. destruct c' as [[[res trace] |] should_cache].
  - injection Hs as <- <- <-. destruct res as [out | e]; simpl; [| done]. right. eauto.
  - apply bind_Done in Hs as (res0 & f3 & [= <- <-] & Hs).
    apply bind_Done in Hs as (res & f3 & Hres & Hs).
    apply bind_Done in Hs as (u & f4 & _ & [= _ <- _]).
    unfold execute_evm in Hres. destruct (transact _ _) as [out | [|]] eqn:Ht.
    + destruct (existsb _ _) eqn:Hb; injection Hres as _ <-; simpl; [done | left; eauto].
    + by injection Hres as _ <-.
    + done.
Qed.

Lemma ensures_commit_tx_inner tx s :
  ensures (commit_tx_inner ctx tx s) (on_ok (committed tx s)).
Proof.
  unfold commit_tx_inner.
  destruct (can_fit_tx _ _ _ _) as [[] | e] eqn:Hfit; [| by apply ensures_ret].
  do 2 (apply ensures_skip; intros ?). destruct (is_blocked ctx tx) eqn:Hb; [by apply ensures_ret |].
  apply ensures_skip. intros recording. eapply ensures_bind; [apply ensures_run_transaction |].
  intros [[out | e] trace] Hran; simpl in Hran; [| by apply ensures_ret].
  do 4 (apply ensures_skip; intros ?). apply ensures_ret. simpl.
  split; simpl; try done. split; simpl; [by destruct s | done | eauto].
Qed.

Lemma ensures_commit_tx tx s : ensures (commit_tx ctx tx s) (on_ok (committed tx s)).
Proof.
  intros f f' r. unfold commit_tx.
  destruct (commit_tx_inner ctx tx s (push_event _ f)) as [f1 r1] eqn:Hin. intros [= _ ->].
  by eapply ensures_commit_tx_inner.
Qed.

(** The ledger holds through refunds, bundles and share bundles. *)
Lemma ensures_insert_refund_payout_tx payout to s0 b :
  plain s0 b ->
  ensures (insert_refund_payout_tx ctx payout to (ss_reserved s0) b) (on_ok (plain s0)).
Proof.
  intros Hl. unfold insert_refund_payout_tx. repeat ensure_step; try done.
  eapply ensures_bind; [apply ensures_commit_tx |].
  intros [ok |] Hok; repeat ensure_step; simpl in *; eauto with ledger.
Qed.

Lemma ensures_commit_bundle_txs bundle s0 skip txs b profit :
  plain s0 b ->
  ensures (commit_bundle_txs ctx bundle (ss_reserved s0) skip txs b profit)
    (on_ok (fun r => plain s0 r.1)).
Proof.
  revert b profit. induction txs as [| tx txs IH]; intros b profit Hl; simpl; [by apply ensures_ret |].
  apply ensures_skip. intros point. eapply ensures_bind; [apply ensures_commit_tx |].
  intros [ok |] Hok; repeat ensure_step; simpl in *; eauto with ledger.
Qed.

(** The space of a payment without blobs. *)
Definition payout_space (s : BlockSpace) : Prop :=
  bs_blob_gas s = 0 /\ 0 <= bs_rlp_length s < 2 ^ 62.

(** What a delayed refund promises: a recipient known to the block needs no more
    space; for a new one there is room for its payment. *)
Definition kickback_spec (combined : gmap Address U256) (s0 : BlockBuildingSpaceState) (b : BundleOk)
  : Prop :=
  forall k, bo_delayed_kickback b = Some k -> dk_should_pay_in_block k = true ->
    (is_Some (combined !! dk_recipient k) /\ dk_payout_tx_space_needed k = BlockSpace_ZERO)
    \/ (combined !! dk_recipient k = None
        /\ bs_gas (dk_payout_tx_space_needed k) = BASE_TX_GAS
        /\ payout_space (dk_payout_tx_space_needed k)
        /\ can_fit_tx ctx (dk_payout_tx_space_needed k) 0 (bo_space_state b (ss_reserved s0)) = Ok tt).

Lemma plain_kickback_spec combined s0 b : plain s0 b -> ledger s0 b /\ kickback_spec combined s0 b.
Proof. intros [Hl Hd]. split; [done |]. intros k Hk. congruence. Qed.

Lemma estimate_payout_space w to s space :
  estimate_payout_gas_limit (W := W) ctx w to s = Ok space -> payout_space space.
Proof.
  unfold estimate_payout_gas_limit, estimate_payout_tx_space. intros He.
  destruct (create_payout_tx _ _ _ _ _) as [tx |] eqn:Hs; cbn [ok_or] in He; [| done].
  assert (payout_space (BlockSpace_new BASE_TX_GAS (u64_add (ts_length tx) (32 * 4)) 0)) as Hdef.
  { unfold create_payout_tx in Hs. apply sign_tx_length in Hs.
    split; cbn; [done |]. unfold u64_add, wrap. rewrite Z.mod_small; lia. }
  destruct (map_err _ _); [| done]. case_decide; [by injection He as <- |].
  destruct (map_err _ _); [| done]. destruct (ok_or _ _); [| done]. destruct (map_err _ _); [| done].
  generalize dependent (search_gas_limit (W := W) ctx 65). intros search He.
  repeat case_match; simplify_eq/=; split; done || apply Hdef.
Qed.

Lemma estimate_refund_space to v s :
  ensures (S := Fork) (estimate_refund_payout_tx ctx to v s)
    (on_ok (fun p => payout_space (rp_space_limit p))).
Proof.
  unfold estimate_refund_payout_tx.
  eapply ensures_bind with (Q1 := on_ok payout_space).
  { intros f f' a [= <- <-]. destruct (estimate_payout_gas_limit _ _ _ _) eqn:He; [| done].
    by eapply estimate_payout_space. }
  intros [sp |] Hsp; repeat ensure_step; done.
Qed.

Lemma ensures_refund_bundle bundle s0 combined b profit :
  plain s0 b ->
  ensures (refund_bundle ctx bundle (ss_reserved s0) combined b profit)
    (on_ok (fun r => ledger s0 r /\ kickback_spec combined s0 r)).
Proof.
  intros Hl. unfold refund_bundle. pose proof (ledger_delayed s0 b) as Hdel.
  destruct (b_refund bundle) as [cfg |]; [| by apply ensures_ret, plain_kickback_spec].
  destruct (br_delayed cfg).
  { apply ensures_ret. split; [apply Hdel, Hl |]. by intros k [= <-]. }
  case_bool_decide as Hknown.
  { apply ensures_ret. split; [apply Hdel, Hl |]. intros k [= <-] _. by left. }
  eapply ensures_bind; [apply estimate_refund_space |].
  intros [payout |] Hp; [simpl in Hp | by apply ensures_ret].
  destruct (bool_decide _ && _) eqn:Hfit.
  - apply andb_prop in Hfit as [Hgas Hfit]. apply bool_decide_eq_true in Hgas.
    apply ensures_ret. split; [apply Hdel, Hl |]. intros k [= <-] _. right. simpl.
    destruct (can_fit_tx _ _ _ _) as [[] |] eqn:Hcan; [| done].
    split_and!; [| done | done | by rewrite <- Hcan].
    destruct (combined !! br_recipient cfg); [by exfalso; eauto | done].
  - eapply ensures_wand; [by apply ensures_insert_refund_payout_tx |].
    intros [r |] Hr; [by apply plain_kickback_spec | done].
Qed.

Lemma execute_with_rollback_ensures {A E} (m : M Fork (result A E)) (Q : A -> Prop) :
  ensures m (on_ok Q) -> ensures (execute_with_rollback m) (on_ok Q).
Proof.
  intros Hm. unfold execute_with_rollback. apply ensures_skip. intros point.
  eapply ensures_bind; [exact Hm |]. intros [a | e] Ha; repeat ensure_step; done.
Qed.

Lemma ensures_commit_bundle bundle s0 skip combined :
  ensures (commit_bundle ctx bundle s0 skip combined) (on_ok (fun r => ledger s0 r /\ kickback_spec combined s0 r)).
Proof.
  assert (ensures (commit_bundle_no_rollback ctx bundle s0 skip combined) (on_ok (fun r => ledger s0 r /\ kickback_spec combined s0 r))).
  { unfold commit_bundle_no_rollback.
    eapply ensures_bind; [apply ensures_commit_bundle_txs, plain_empty |].
    intros [[b profit] |] Hb; [| by apply ensures_ret].
    ensure_step; [by apply ensures_ret | by apply ensures_refund_bundle]. }
  unfold commit_bundle. repeat ensure_step; simpl; auto using execute_with_rollback_ensures.
Qed.

Lemma ensures_finish_share_bundle body elements before s0 b profit payouts :
  plain s0 b ->
  ensures (S := Fork) (finish_share_bundle ctx body elements before b profit payouts)
    (on_ok (fun r => plain s0 (sr_bundle_ok r))).
Proof. intros Hl. unfold finish_share_bundle. repeat ensure_step; done. Qed.

Lemma ensures_commit_share_bundle_inner bundle s0 skip :
  ensures (commit_share_bundle_inner ctx bundle s0 skip)
    (on_ok (fun r => plain s0 (sr_bundle_ok r))).
Proof.
  revert s0. induction bundle as [body refund config can_skip oid IH] using ShareBundleInner_tree_ind.
  intros s0. cbn [commit_share_bundle_inner]. apply execute_with_rollback_ensures.
  apply ensures_skip. intros before. eapply ensures_bind with (Q1 := on_ok (fun r => plain s0 r.1.1)).
  2: { intros [[[b profit] payouts] |] Hb; [by apply ensures_finish_share_bundle | by apply ensures_ret]. }
  assert (plain s0 (empty_bundle_ok s0)) as Hl by apply plain_empty. revert Hl.
  generalize O, (empty_bundle_ok s0), 0, (∅ : gmap Address U256).
  induction IH as [| e body He IHall IH]; intros idx b profit payouts Hl; [by apply ensures_ret |].
  destruct e as [t | inner]; simpl in He.
  - apply ensures_skip. intros point. eapply ensures_bind; [apply ensures_commit_tx |].
    intros [ok |] Hok; repeat ensure_step; simpl in *; eauto with ledger.
  - eapply ensures_bind; [apply He |].
    intros [r |] Hr; repeat ensure_step; simpl in *; eauto with ledger.
Qed.

Lemma ensures_pay_kickbacks payouts s0 b :
  plain s0 b -> ensures (pay_kickbacks ctx payouts (ss_reserved s0) b) (on_ok (plain s0)).
Proof.
  revert b. induction payouts as [| [to p] payouts IH]; intros b Hl; simpl; [by apply ensures_ret |].
  eapply ensures_bind; [by apply ensures_insert_refund_payout_tx |].
  intros [b' |] Hb; [by apply IH | by apply ensures_ret].
Qed.

Lemma ensures_commit_share_bundle bundle s0 skip :
  ensures (commit_share_bundle ctx bundle s0 skip) (on_ok (plain s0)).
Proof.
  unfold commit_share_bundle. ensure_step; [| by apply ensures_ret].
  apply execute_with_rollback_ensures. unfold commit_share_bundle_no_rollback.
  eapply ensures_bind; [apply ensures_commit_share_bundle_inner |].
  intros [r |] Hr; [by apply ensures_pay_kickbacks | by apply ensures_ret].
Qed.

(** The result of an order, as the result of a bundle. *)
Definition order_bundle (ok : OrderOk) : BundleOk :=
  {| bo_space_used := oo_space_used ok; bo_cumulative_space_used := oo_cumulative_space_used ok;
     bo_tx_infos := oo_tx_infos ok; bo_nonces_updated := oo_nonces_updated ok;
     bo_paid_kickbacks := oo_paid_kickbacks ok; bo_delayed_kickback := oo_delayed_kickback ok;
     bo_original_order_ids := oo_original_order_ids ok |}.

Definition order_spec (combined : gmap Address U256) (s0 : BlockBuildingSpaceState) (ok : OrderOk) : Prop :=
  ledger s0 (order_bundle ok) /\ kickback_spec combined s0 (order_bundle ok).

Lemma ensures_bundle_to_order_result combined s0 r before :
  on_ok (fun b => ledger s0 b /\ kickback_spec combined s0 b) r ->
  ensures (S := Fork) (bundle_to_order_result ctx r before) (on_ok (order_spec combined s0)).
Proof.
  intros Hr. unfold bundle_to_order_result. destruct r as [b |]; simpl in Hr; [| by apply ensures_ret].
  repeat ensure_step; simpl; [| done]. destruct Hr as [[] ?]. by split.
Qed.

(** A single transaction uses the space of its execution, in range. *)
Lemma tx_order_ledger s0 tx ok profit trace :
  committed tx s0 ok -> BlockSpace_add BlockSpace_ZERO (ti_space_used (to_tx_info ok))
                        = ti_space_used (to_tx_info ok) ->
  ledger s0 (order_bundle (tx_order_ok ok profit trace)).
Proof.
  intros [Ht Ha Hc Hn] Hz. split; simpl.
  - rewrite Hc. apply (run_snoc _ _ []); [constructor | done].
  - done.
  - rewrite Hn. unfold run_nonces. simpl. by rewrite Ht.
Qed.

(** What the bounds of an executed transaction are: it used no more than its gas limit,
    which is within the block's, and its encoding and its blobs are far below the range
    of 64 bits. *)
Record info_bounded (i : TransactionExecutionInfo) : Prop := {
  ib_gas : 0 <= bs_gas (ti_space_used i) <= ts_gas_limit (txb_tx (ti_tx i));
  ib_gas_limit : ts_gas_limit (txb_tx (ti_tx i)) <= ctx_gas_limit ctx;
  ib_length : 0 <= length_eip7934 (ti_tx i) < 2 ^ 62;
  ib_blobs : 0 <= blobs_gas_used (ti_tx i) < 2 ^ 62;
}.

(** Limits of a block far below the range of 64 bits. *)
Definition sane_limits : Prop :=
  0 <= ctx_gas_available ctx <= ctx_gas_limit ctx /\ ctx_gas_limit ctx < 2 ^ 62
  /\ 0 <= ctx_max_blob_gas_per_block ctx < 2 ^ 62.

(** The space used and the space reserved respect the limits of the block. *)
Record within_limits (s : BlockBuildingSpaceState) : Prop := {
  wl_gas : 0 <= bs_gas (ss_space_used s) /\ 0 <= bs_gas (ss_reserved s)
    /\ bs_gas (ss_space_used s) + bs_gas (ss_reserved s) <= ctx_gas_available ctx;
  wl_rlp : 0 <= bs_rlp_length (ss_space_used s) /\ 0 <= bs_rlp_length (ss_reserved s)
    /\ bs_rlp_length (ss_space_used s) + bs_rlp_length (ss_reserved s) <= MAX_RLP_BLOCK_SIZE;
  wl_blob : 0 <= bs_blob_gas (ss_space_used s) <= ctx_max_blob_gas_per_block ctx;
}.

Lemma u64_add_small a b : 0 <= a -> 0 <= b -> a + b < 2 ^ 64 -> u64_add a b = a + b.
Proof. intros. unfold u64_add, wrap. apply Z.mod_small. lia. Qed.

Lemma can_fit_tx_limits space blob_gas s :
  can_fit_tx ctx space blob_gas s = Ok tt ->
  u64_add (bs_rlp_length space) (bs_rlp_length (total_consumed_space s)) <= MAX_RLP_BLOCK_SIZE
  /\ u64_add (bs_gas space) (bs_gas (total_consumed_space s)) <= ctx_gas_available ctx
  /\ u64_add blob_gas (bs_blob_gas (ss_space_used s)) <= ctx_max_blob_gas_per_block ctx.
Proof. unfold can_fit_tx. repeat case_decide; try done. Qed.

Lemma accepted_within_limits reserved s i :
  sane_limits -> within_limits {| ss_space_used := s; ss_reserved := reserved |} ->
  accepted reserved s i -> info_bounded i ->
  within_limits {| ss_space_used := BlockSpace_add s (ti_space_used i); ss_reserved := reserved |}.
Proof.
  intros (Hl & Hl' & Hm) [Hg Hr Hb] [Hfit _ (out & Hran & Hsp & _)] [G1 G2 S1 S2]. simpl in Hg, Hr, Hb.
  apply can_fit_tx_limits in Hfit as (Hf1 & Hf2 & Hf3). cbn in Hf1, Hf2, Hf3.
  rewrite Hsp in G1. simpl in G1. unfold MAX_RLP_BLOCK_SIZE in *.
  rewrite (u64_add_small (bs_gas s)) in Hf2 by lia.
  rewrite (u64_add_small (bs_rlp_length s)) in Hf1 by lia.
  rewrite u64_add_small in Hf1, Hf2, Hf3 by lia.
  split; rewrite Hsp; cbn; rewrite !u64_add_small by lia; unfold MAX_RLP_BLOCK_SIZE; lia.
Qed.

Lemma run_within_limits reserved s l s' :
  sane_limits -> within_limits {| ss_space_used := s; ss_reserved := reserved |} ->
  tx_run reserved s l s' -> Forall info_bounded l ->
  within_limits {| ss_space_used := s'; ss_reserved := reserved |}.
Proof.
  intros Hs Hw. induction 1 as [| l s1 i _ IH Ha]; [done |].
  intros [Hl [Hi _]%Forall_cons]%Forall_app. by apply accepted_within_limits; auto.
Qed.

(** When its transactions are bounded, the result of an order is a ledger. *)
Lemma ensures_commit_order order s0 skip combined :
  sane_limits ->
  ensures (commit_order ctx order s0 skip combined)
    (on_ok (fun ok => Forall info_bounded (oo_tx_infos ok) -> order_spec combined s0 ok)).
Proof.
  intros Hsane. apply execute_with_rollback_ensures. destruct order as [b | tx | b]; simpl.
  - apply ensures_skip. intros before. eapply ensures_bind; [apply ensures_commit_bundle |].
    intros r Hr. eapply ensures_wand; [by apply ensures_bundle_to_order_result |]. intros [ok |] Hok; [by intros _ | done].
  - eapply ensures_bind; [apply ensures_commit_tx |]. intros [ok |] Hok; [| by apply ensures_ret].
    simpl in Hok.
    assert (info_bounded (to_tx_info ok) -> BlockSpace_add BlockSpace_ZERO (ti_space_used (to_tx_info ok))
                          = ti_space_used (to_tx_info ok)) as Hz.
    { intros [G1 G2 S1 S2]. destruct Hok as [_ [_ _ (out & Hran & Hsp & _)] _ _]. rewrite Hsp in *. destruct Hsane as (? & ? & ?).
      unfold BlockSpace_add; simpl in *. by rewrite !u64_add_small by lia. }
    repeat ensure_step; simpl; try done;
      (intros [Hi _]%Forall_cons; split; [by eapply tx_order_ledger; auto | by intros k]).
  - apply ensures_skip. intros before. eapply ensures_bind; [apply ensures_commit_share_bundle |].
    intros r Hr. eapply ensures_wand; [apply (ensures_bundle_to_order_result combined s0) |].
    + destruct r; [by apply plain_kickback_spec | done].
    + intros [ok |] Hok; [by intros _ | done].
Qed.

(** ** Executions and the cache

    A transaction is identified by its hash: [tx_with_hash] is the transaction with a
    hash.  What a cache holds was stored in it, and stored is what executing a
    transaction with that hash gave. *)
Context `{TxHashing} `{!SignerHashOk} `{!TxCacheOk W Diff C} `{!ExecutionOk ctx}.

(** What is held is what executing the transaction with the hash reported. *)
Definition cache_sound (c : C) : Prop :=
  forall h res, holds c h (ctx_beneficiary ctx) res ->
    exists (w : W) tx res', proper_tx tx /\ tx_hash tx = h /\ execute_evm ctx w tx = Ok res'
      /\ same_report res res'.

Lemma execute_evm_ok (w : W) tx out : execute_evm ctx w tx = Ok (Ok out) -> transact w tx = Ok out.
Proof.
  unfold execute_evm. destruct (transact w tx) as [out' | [|]]; [| done..].
  destruct (existsb _ _); [done |]. by intros [= <-].
Qed.

Lemma execute_evm_error (w : W) tx e : execute_evm ctx w tx = Ok (Err e) ->
  e = TxErr_Blocklist \/ exists i, e = TxErr_InvalidTransaction i.
Proof.
  unfold execute_evm. destruct (transact w tx) as [out' | [|]]; [| intros [= <-]; eauto | done].
  destruct (existsb _ _); [| done]. intros [= <-]. by left.
Qed.

Lemma store_result_sound c (w : W) tx res : cache_sound c -> proper_tx tx -> execute_evm ctx w tx = Ok res ->
  cache_sound (store_result c w tx (ctx_beneficiary ctx) res).
Proof.
  intros Hc Htx Hres h res' [(-> & _ & Hsame) | Hh]%held_stored; [by exists w, tx, res | by apply Hc].
Qed.

(** *** Operations under a sound cache

    They keep the cache sound, whatever the outcome, and their values satisfy [Q]. *)
Definition assures {A} (m : M Fork A) (Q : A -> Prop) : Prop :=
  forall f, cache_sound (fk_cache f) -> cache_sound (fk_cache (m f).1) /\ forall a, (m f).2 = Done a -> Q a.

Lemma assures_same {A} (m : M Fork A) (Q : A -> Prop) :
  (forall f, fk_cache (m f).1 = fk_cache f) -> ensures m Q -> assures m Q.
Proof.
  intros Hm HQ f Hf. rewrite Hm. split; [done |]. intros a Ha. apply (HQ f (m f).1).
  by destruct (m f); simpl in *; subst.
Qed.
Lemma assures_keeps {A} (m : M Fork A) : (forall f, fk_cache (m f).1 = fk_cache f) -> assures m (fun _ => True).
Proof. intros Hm. by apply assures_same. Qed.
Lemma assures_ret {A} (a : A) (Q : A -> Prop) : Q a -> assures (ret a) Q.
Proof. intros HQ. apply assures_same; [done | by apply ensures_ret]. Qed.
Lemma assures_critical {A} e (Q : A -> Prop) : assures (critical e) Q.
Proof. apply assures_same; [done | apply ensures_critical]. Qed.
Lemma assures_panic {A} (Q : A -> Prop) : assures panic Q.
Proof. apply assures_same; [done | apply ensures_panic]. Qed.
Lemma assures_bind {A B} (m : M Fork A) (k : A -> M Fork B) (Q1 : A -> Prop) (Q : B -> Prop) :
  assures m Q1 -> (forall a, Q1 a -> assures (k a) Q) -> assures (bind m k) Q.
Proof.
  intros Hm Hk f Hf. unfold bind. destruct (Hm f Hf) as [Hf1 HQ1].
  destruct (m f) as [f1 [a | e |]]; simpl in *; [| by split.. ]. by apply Hk; auto.
Qed.
Lemma assures_wand {A} (m : M Fork A) (Q1 Q : A -> Prop) : assures m Q1 -> (forall a, Q1 a -> Q a) -> assures m Q.
Proof. intros Hm HQ f Hf. destruct (Hm f Hf) as [? HQ1]. split; [done |]. auto. Qed.
Lemma assures_skip {A B} (m : M Fork A) (k : A -> M Fork B) (Q : B -> Prop) :
  assures m (fun _ => True) -> (forall a, assures (k a) Q) -> assures (bind m k) Q.
Proof. intros Hm Hk. eapply assures_bind; [exact Hm | auto]. Qed.

Lemma keeps_rollback point : assures (rollback point) (fun _ => True).
Proof. apply assures_keeps. intros f. unfold rollback. by case_decide. Qed.
Lemma keeps_try_critical {A E} e (r : result A E) : assures (try_critical e r) (fun _ => True).
Proof. by destruct r; [apply assures_ret | apply assures_critical]. Qed.
Lemma keeps_coinbase_balance : assures (coinbase_balance ctx) (fun _ => True).
Proof. apply assures_skip; [by apply assures_keeps |]. intros r. apply keeps_try_critical. Qed.
Lemma keeps_estimate to v s : assures (estimate_refund_payout_tx ctx to v s) (fun _ => True).
Proof.
  unfold estimate_refund_payout_tx. apply assures_skip; [by apply assures_keeps |]. intros [sp |]; [| by apply assures_ret].
  by case_decide; apply assures_ret.
Qed.

(** The parts that leave the cache alone; what is left is shown by hand. *)
Ltac keeps :=
  first [ done | apply keeps_rollback | apply keeps_try_critical | apply keeps_coinbase_balance | apply keeps_estimate
        | by apply assures_keeps ].
Ltac assure_step :=
  match goal with
  | |- assures (ret _) _ => apply assures_ret
  | |- assures (critical _) _ => apply assures_critical
  | |- assures panic _ => apply assures_panic
  | |- assures (match ?x with _ => _ end) _ => destruct x eqn:?
  | |- assures (bind (commit_tx _ _ _) _) _ => fail 1
  | |- assures (bind _ _) _ => apply assures_skip; [keeps | intros ?]
  end.

Lemma assures_run_transaction tx recording : proper_tx tx ->
  assures (run_transaction ctx tx recording)
    (fun r => on_ok (fun out => 0 <= ev_gas_used out <= ts_gas_limit (txb_tx tx)
                                /\ ts_gas_limit (txb_tx tx) <= ctx_gas_limit ctx) r.1
              /\ r.1 <> Err TxErr_GasLeft).
Proof.
  intros Htx f Hf. unfold run_transaction, bind, gets, modify, try_critical, ret, critical.
  destruct (get_cached_result _ _ _ _) as [[[[res trace] |] should_cache] |] eqn:Hget; simpl.
  - split; [done |]. intros r [= <-]. simpl.
    destruct (hit_held _ _ _ _ _ _ _ Hget) as (res' & Hheld & Hsame).
    destruct (Hf _ _ Hheld) as (w' & tx' & res1 & [Hh' _] & Hhash & Hex & Hsame1).
    pose proof (same_report_trans _ _ _ Hsame Hsame1) as Hrep. clear res' Hheld Hsame Hsame1.
    assert (txb_tx tx' = txb_tx tx) as Heq.
    { destruct Htx as [Hh _]. unfold tx_hash in Hhash. congruence. }
    destruct res as [out | e], res1 as [out' | e']; simpl in *; try done.
    + destruct Hrep as (-> & _). split; [| done]. rewrite <- Heq. by eapply transact_gas, execute_evm_ok.
    + split; [done |]. intros [= ->]. subst e'. by destruct (execute_evm_error _ _ _ Hex) as [? | [i ?]].
  - destruct (execute_evm ctx (fk_world f) tx) as [res |] eqn:Hex; simpl; [| done].
    split; [destruct should_cache; [by eapply store_result_sound | done] |].
    intros r [= <-]. simpl. destruct res as [out | e]; simpl.
    + split; [| done]. by eapply transact_gas, execute_evm_ok.
    + split; [done |]. intros [= ->]. by destruct (execute_evm_error _ _ _ Hex) as [? | [i ?]].
  - done.
Qed.

Lemma assures_commit_tx_inner tx s : proper_tx tx ->
  assures (commit_tx_inner ctx tx s)
    (fun r => on_ok (fun ok => info_bounded (to_tx_info ok)) r
              /\ (r = Err TxErr_GasLeft -> can_fit_tx ctx (tx_space_needed tx) (blobs_gas_used tx) s = Err TxErr_GasLeft)).
Proof.
  intros Htx. unfold commit_tx_inner. destruct (can_fit_tx _ _ _ _) as [[] | e] eqn:Hfit;
    [| apply assures_ret; split; [done | congruence]].
  apply assures_skip; [keeps |]. intros before. apply assures_skip; [by destruct (i256_try_from before); repeat assure_step |].
  intros cb. destruct (is_blocked ctx tx); [by apply assures_ret |].
  apply assures_skip; [keeps |]. intros recording.
  eapply assures_bind; [by apply assures_run_transaction |].
  intros [[out | e] trace] [Hran Hgl]; simpl in Hran, Hgl; [| apply assures_ret; split; [done | congruence]].
  apply assures_skip; [apply assures_keeps; intros f; simpl; unfold trace_execution; by case_match |]. intros _.
  apply assures_skip; [keeps |]. intros _. apply assures_skip; [keeps |]. intros after.
  apply assures_skip; [by destruct (i256_try_from after); repeat assure_step |]. intros cb'.
  apply assures_ret. split; [| done]. destruct Htx as (_ & ? & ?), Hran as [? ?]. by split.
Qed.

Lemma assures_commit_tx tx s : proper_tx tx ->
  assures (commit_tx ctx tx s)
    (fun r => on_ok (fun ok => info_bounded (to_tx_info ok)) r
              /\ (r = Err TxErr_GasLeft -> can_fit_tx ctx (tx_space_needed tx) (blobs_gas_used tx) s = Err TxErr_GasLeft)).
Proof.
  intros Htx f Hf. unfold commit_tx. destruct (assures_commit_tx_inner tx s Htx (push_event (AboutToExecute tx s) f) Hf) as [Hf1 HQ].
  destruct (commit_tx_inner ctx tx s _) as [f1 r]. by split.
Qed.

(** A payout is a proper transaction. *)
Lemma payout_proper nonce to gas_limit value signed a tx :
  create_payout_tx ctx nonce to gas_limit value = Some signed -> new_no_blobs 0 signed a = Ok tx -> proper_tx tx.
Proof.
  unfold create_payout_tx. intros Hs. pose proof (sign_tx_length _ _ Hs). pose proof (sign_tx_fields _ _ Hs) as [Hb _].
  pose proof (sign_tx_hash _ _ Hs) as Hh. unfold new_no_blobs, TxWithBlobs_new. rewrite Hb. simpl. intros [= <-].
  split; [done |]. unfold length_eip7934; simpl. split; [lia |]. unfold blobs_gas_used. simpl. by vm_compute.
Qed.

(** *** Through refunds, bundles and share bundles *)
Abbreviation bounded := (Forall info_bounded).

Lemma bounded_snoc l i : bounded l -> info_bounded i -> bounded (l ++ [i]).
Proof. intros Hl Hi. by apply Forall_app; split; [| constructor]. Qed.
Lemma bounded_app l l' : bounded l -> bounded l' -> bounded (l ++ l').
Proof. intros Hl Hl'. by apply Forall_app. Qed.

#[local] Hint Resolve bounded_snoc bounded_app : ledger.
#[local] Hint Extern 1 (Forall info_bounded (bo_tx_infos _)) => progress simpl : ledger.

Lemma execute_with_rollback_assures {A E} (m : M Fork (result A E)) (Q : A -> Prop) :
  assures m (on_ok Q) -> assures (execute_with_rollback m) (on_ok Q).
Proof.
  intros Hm. unfold execute_with_rollback. apply assures_skip; [keeps |]. intros point.
  eapply assures_bind; [exact Hm |]. intros [a | e] Ha; repeat assure_step; done.
Qed.

Lemma assures_insert_refund_payout_tx payout to reserved b : bounded (bo_tx_infos b) ->
  assures (insert_refund_payout_tx ctx payout to reserved b) (on_ok (fun r => bounded (bo_tx_infos r))).
Proof.
  intros Hl. unfold insert_refund_payout_tx. do 2 (apply assures_skip; [keeps | intros ?]).
  destruct (create_payout_tx _ _ _ _ _) as [signed |] eqn:Hs; [| by apply assures_ret].
  destruct (new_no_blobs _ _ _) as [tx |] eqn:Htx; [| apply assures_panic].
  eapply assures_bind; [by eapply assures_commit_tx, payout_proper |].
  intros [ok |] [Hok _]; repeat assure_step; simpl in *; eauto with ledger.
Qed.

Lemma assures_commit_bundle_txs bundle reserved skip txs b profit : Forall proper_tx txs -> bounded (bo_tx_infos b) ->
  assures (commit_bundle_txs ctx bundle reserved skip txs b profit) (on_ok (fun r => bounded (bo_tx_infos r.1))).
Proof.
  intros Htxs. revert b profit. induction Htxs as [| tx txs Htx _ IH]; intros b profit Hl; simpl; [by apply assures_ret |].
  apply assures_skip; [keeps |]. intros point. eapply assures_bind; [by apply assures_commit_tx |].
  intros [ok |] [Hok _]; repeat assure_step; simpl in *; eauto with ledger.
Qed.

Lemma assures_refund_bundle bundle reserved combined b profit : bounded (bo_tx_infos b) ->
  assures (refund_bundle ctx bundle reserved combined b profit) (on_ok (fun r => bounded (bo_tx_infos r))).
Proof.
  intros Hl. unfold refund_bundle.
  repeat (assure_step || (by apply assures_insert_refund_payout_tx) || done).
Qed.

Lemma assures_commit_bundle bundle s skip combined : Forall proper_tx (b_txs bundle) ->
  assures (commit_bundle ctx bundle s skip combined) (on_ok (fun r => bounded (bo_tx_infos r))).
Proof.
  intros Htxs. assert (assures (commit_bundle_no_rollback ctx bundle s skip combined) (on_ok (fun r => bounded (bo_tx_infos r)))).
  { unfold commit_bundle_no_rollback. eapply assures_bind; [by apply assures_commit_bundle_txs; [| constructor] |].
    intros [[b profit] |] Hb; [| by apply assures_ret].
    assure_step; [by apply assures_ret | by apply assures_refund_bundle]. }
  unfold commit_bundle. repeat assure_step; simpl; auto using execute_with_rollback_assures.
Qed.

Lemma keeps_estimate_payouts payouts addrs cumulative promised :
  assures (estimate_payouts ctx payouts addrs cumulative promised) (fun _ => True).
Proof.
  revert promised. induction addrs as [| a addrs IH]; intros promised; simpl; [by apply assures_ret |].
  apply assures_skip; [keeps |]. intros [p |]; [apply IH | by apply assures_ret].
Qed.

Lemma assures_finish_share_bundle body elements before b profit payouts : bounded (bo_tx_infos b) ->
  assures (finish_share_bundle ctx body elements before b profit payouts)
    (on_ok (fun r => bounded (bo_tx_infos (sr_bundle_ok r)))).
Proof.
  intros Hl. unfold finish_share_bundle. destruct (share_refunds _ _ _ _ _); [| by apply assures_ret].
  apply assures_skip; [apply keeps_estimate_payouts |]. intros [promised |]; [| by apply assures_ret].
  apply assures_skip; [keeps |]. intros after. by apply assures_ret.
Qed.

Definition proper_inner (inner : ShareBundleInner) : Prop := Forall proper_tx (Inner_list_txs inner).*1.

Lemma assures_commit_share_bundle_inner bundle s skip : proper_inner bundle ->
  assures (commit_share_bundle_inner ctx bundle s skip) (on_ok (fun r => bounded (bo_tx_infos (sr_bundle_ok r)))).
Proof.
  revert s. induction bundle as [body refund config can_skip oid IH] using ShareBundleInner_tree_ind.
  intros s Hp. cbn [commit_share_bundle_inner]. apply execute_with_rollback_assures.
  apply assures_skip; [keeps |]. intros before.
  eapply assures_bind with (Q1 := on_ok (fun r => bounded (bo_tx_infos r.1.1))).
  2: { intros [[[b profit] payouts] |] Hb; [by apply assures_finish_share_bundle | by apply assures_ret]. }
  assert (bounded (bo_tx_infos (empty_bundle_ok s))) as Hl by constructor. revert Hl.
  unfold proper_inner in Hp. cbn [Inner_list_txs] in Hp. revert Hp.
  generalize O, (empty_bundle_ok s), 0, (∅ : gmap Address U256).
  induction IH as [| e body He IHall IH]; intros idx b profit payouts Hp Hl; [by apply assures_ret |].
  cbn [map concat] in Hp. rewrite fmap_app in Hp. apply Forall_app in Hp as [Hpe Hp].
  destruct e as [t | inner]; simpl in He.
  - apply Forall_cons in Hpe as [Ht _].
    apply assures_skip; [keeps |]. intros point. eapply assures_bind; [by apply assures_commit_tx |].
    intros [ok |] [Hok _]; repeat assure_step; simpl in *; eauto with ledger.
  - eapply assures_bind; [by apply He |].
    intros [r |] Hr; repeat assure_step; simpl in *; eauto with ledger.
Qed.

Lemma assures_pay_kickbacks payouts reserved b : bounded (bo_tx_infos b) ->
  assures (pay_kickbacks ctx payouts reserved b) (on_ok (fun r => bounded (bo_tx_infos r))).
Proof.
  revert b. induction payouts as [| [to p] payouts IH]; intros b Hl; simpl; [by apply assures_ret |].
  eapply assures_bind; [by apply assures_insert_refund_payout_tx |].
  intros [b' |] Hb; [by apply IH | by apply assures_ret].
Qed.

Lemma assures_commit_share_bundle bundle s skip : proper_inner (sb_inner_bundle bundle) ->
  assures (commit_share_bundle ctx bundle s skip) (on_ok (fun r => bounded (bo_tx_infos r))).
Proof.
  intros Hp. unfold commit_share_bundle. assure_step; [| by apply assures_ret].
  apply execute_with_rollback_assures. unfold commit_share_bundle_no_rollback.
  eapply assures_bind; [by apply assures_commit_share_bundle_inner |].
  intros [r |] Hr; [by apply assures_pay_kickbacks | by apply assures_ret].
Qed.

Lemma assures_bundle_to_order_result r before : on_ok (fun b => bounded (bo_tx_infos b)) r ->
  assures (bundle_to_order_result ctx r before) (on_ok (fun ok => bounded (oo_tx_infos ok))).
Proof.
  intros Hr. unfold bundle_to_order_result. destruct r as [b |]; simpl in Hr; [| by apply assures_ret].
  apply assures_skip.
  { unfold coinbase_profit_when_refunds. apply assures_skip; [keeps |]. intros after. by case_decide; apply assures_ret. }
  intros [p |]; [| by apply assures_ret]. apply assures_skip; [keeps |]. intros trace. by apply assures_ret.
Qed.

(** The transactions of an order are those with their hashes. *)
Definition proper_order (o : Order) : Prop := Forall proper_tx (Order_list_txs o).*1.

(** Executing an order keeps the cache sound and executes bounded transactions. *)
Lemma assures_commit_order order s skip combined : proper_order order ->
  assures (commit_order ctx order s skip combined) (on_ok (fun ok => bounded (oo_tx_infos ok))).
Proof.
  intros Hp. apply execute_with_rollback_assures. unfold proper_order in Hp. destruct order as [b | tx | b]; simpl in *.
  - apply assures_skip; [keeps |]. intros before. eapply assures_bind; [apply assures_commit_bundle | by intros r Hr; apply assures_bundle_to_order_result].
    unfold Bundle_list_txs in Hp. rewrite <- list_fmap_compose in Hp. erewrite list_fmap_ext, list_fmap_id in Hp; [exact Hp | done].
  - apply Forall_cons in Hp as [Htx _]. eapply assures_bind; [by apply assures_commit_tx |].
    intros [ok |] [Hok _]; [| by apply assures_ret]. simpl in Hok.
    repeat assure_step; simpl; try done; by constructor.
  - apply assures_skip; [keeps |]. intros before. eapply assures_bind; [by apply assures_commit_share_bundle |].
    intros r Hr. by apply assures_bundle_to_order_result.
Qed.

Lemma assures_order_spec order s skip combined : sane_limits -> proper_order order ->
  assures (commit_order ctx order s skip combined)
    (on_ok (fun ok => order_spec combined s ok /\ bounded (oo_tx_infos ok))).
Proof.
  intros Hs Hp f Hf. destruct (assures_commit_order order s skip combined Hp f Hf) as [Hf' HQ]. split; [done |].
  intros r Hr. specialize (HQ r Hr).
  assert (commit_order ctx order s skip combined f = ((commit_order ctx order s skip combined f).1, Done r)) as Hc
    by (by destruct (commit_order _ _ _ _ _ _); simpl in *; subst).
  pose proof (ensures_commit_order order s skip combined Hs _ _ _ Hc) as Ho. destruct r as [ok |]; [| done].
  simpl in *. auto.
Qed.

Lemma assures_run {A} (m : M Fork A) Q f f' r : assures m Q -> cache_sound (fk_cache f) -> m f = (f', r) ->
  cache_sound (fk_cache f') /\ forall a, r = Done a -> Q a.
Proof. intros Hm Hf Hr. destruct (Hm f Hf) as [Hs HQ]. by rewrite Hr in Hs, HQ. Qed.

(** The result of an executed order is a ledger of its transactions: each was
    accepted by the space check and the blocklist when it ran, its receipt
    continues the cumulative gas of the previous one, the reported space is
    the sum of the spaces, and the reported nonces are, per sender in order
    of appearance, the successor of its last nonce. This holds through
    bundles and nested share bundles. *)
Theorem commit_order_ledger order s0 skip combined f f' ok :
  sane_limits -> proper_order order -> cache_sound (fk_cache f) ->
  commit_order ctx order s0 skip combined f = (f', Done (Ok ok)) ->
  ledger s0 (order_bundle ok).
Proof.
  intros Hs Hp Hf Hc. destruct (assures_run _ _ _ _ _ (assures_order_spec _ _ _ _ Hs Hp) Hf Hc) as [_ HQ].
  by destruct (HQ _ eq_refl) as [[Hl _] _].
Qed.

(** C25. If the space used and reserved respects the limits of the block before an
    order, it does after the order was executed, by the interpreter or from
    the cache: the gas available to orders, the size of the encoded block
    and the blob gas are never exceeded by committed transactions; whatever
    the outcome, the cache of executions stays sound. Conditions: the limits
    of the block are far below 2^64, transactions are identified by their
    hashes with encodings and blobs far below 2^64, the interpreter uses at
    most the gas limit of a transaction, which is within that of the block,
    and the cache of executions, which may answer, is sound: what it holds
    was reported by executing the transaction with that hash. *)
Theorem commit_order_within_limits order s0 skip combined f f' r :
  sane_limits -> proper_order order -> cache_sound (fk_cache f) -> within_limits s0 ->
  commit_order ctx order s0 skip combined f = (f', r) ->
  cache_sound (fk_cache f')
  /\ forall ok, r = Done (Ok ok) ->
       within_limits {| ss_space_used := oo_cumulative_space_used ok; ss_reserved := ss_reserved s0 |}.
Proof.
  intros Hs Hp Hf Hw Hc. destruct (assures_run _ _ _ _ _ (assures_order_spec _ _ _ _ Hs Hp) Hf Hc) as [Hf' HQ].
  split; [done |]. intros ok ->. destruct (HQ _ eq_refl) as [[Hl _] Hb].
  eapply run_within_limits; [done | | exact (lg_run _ _ Hl) | exact Hb]. by destruct s0.
Qed.
End ledger.

(** ** The cache of building/tx_sim_cache keeps these promises

    Lookups only change counters, which are left out.  What the interpreter reads and
    traces when it executes a transaction on a state is library code. *)
Section tx_sim_cache.
Context {W Parts : Type} `{Database W}.
Context (recorded : W -> TxWithBlobs -> list AccessRecord * UsedStateTrace).

(** What the interpreter reports besides the changed accounts. *)
Record EvmReport := {
  er_gas_used : U64; er_gas_refunded : U64; er_success : bool; er_logs : list Z; er_access_list : list Address;
}.
Abbreviation Accounts := (gmap Address (EvmAccount (Parts := Parts))).
Abbreviation Execution := (Outcome (Report := EvmReport) (Parts := Parts)).

Definition to_outcome (res : result (EvmOutput Accounts) TransactionErr) : Execution :=
  match res with
  | Ok out => Ok {| rs_result := {| er_gas_used := ev_gas_used out; er_gas_refunded := ev_gas_refunded out;
                                    er_success := ev_success out; er_logs := ev_logs out;
                                    er_access_list := ev_access_list out |};
                    rs_state := ev_state out |}
  | Err e => Err e
  end.

Definition of_outcome (o : Execution) (used : UsedStateTrace) : result (EvmOutput Accounts) TransactionErr :=
  match o with
  | Ok r => Ok {| ev_gas_used := er_gas_used (rs_result r); ev_gas_refunded := er_gas_refunded (rs_result r);
                  ev_success := er_success (rs_result r); ev_logs := er_logs (rs_result r);
                  ev_state := rs_state r; ev_access_list := er_access_list (rs_result r); ev_trace := used |}
  | Err e => Err e
  end.

(** A panic of the lookup is taken as its failure; there is none in the uses of
    TxSimCacheSpec.v. *)
#[local] Instance tx_sim_cache : TxCache W Accounts (TxExecutionCache (Report := EvmReport) (Parts := Parts)) := {|
  get_cached_result := fun c w h b =>
    match cache_get_cached_result c w h b with
    | Some (_, Ok cr) => Ok ((fun o => (of_outcome o (cr_used_state_trace cr), cr_used_state_trace cr)) <$> cr_result cr,
                             cr_should_cache cr)
    | Some (_, Err e) => Err e
    | None => Err tt
    end;
  store_result := fun c w tx b res =>
    cache_store_result c {| ce_tx_hash := tx_hash tx; ce_coinbase := b; ce_recorded_trace := (recorded w tx).1;
                            ce_result := to_outcome res; ce_used_state_trace := (recorded w tx).2 |};
|}.

(** A stored execution of the entry of the transaction. *)
Definition entry_holds (entry : TxCacheEntry) (o : Execution) : Prop :=
  exists node, node ∈ nodes (te_store entry) /\ te_result (sr_result node) = o.

Lemma walk_found fuel (w : W) (store : ExecutionResultStore (TxCacheEntryResult (Report := EvmReport) (Parts := Parts)))
    walker res :
  walk fuel w store walker = Some (Ok (Some res)) -> exists node, node ∈ nodes store /\ sr_result node = res.
Proof.
  revert walker. induction fuel as [| fuel IH]; intros walker; cbn [walk]; [done |].
  destruct (next_action store walker); [| done]. destruct (perform w _) as [got |]; [| done].
  unfold action_result. destruct (stored_result store (trace_idx walker)) as [node |] eqn:Hn; [| apply IH].
  destruct (sr_trace node !! record_idx walker) as [[a expected] |]; [| done]. cbn.
  case_decide; [| apply IH]. case_decide; [| apply IH]. intros [= <-]. exists node.
  split; [by eapply list_elem_of_lookup_2 | done].
Qed.

Lemma hit_entry_held c (w : W) h b c' cr o :
  cache_get_cached_result c w h b = Some (c', Ok cr) -> cr_result cr = Some o ->
  exists o', entry_holds (get_tx_entry c h b) o'
    /\ same_report (of_outcome o (cr_used_state_trace cr)) (of_outcome o' UsedStateTrace_default).
Proof.
  unfold cache_get_cached_result. destruct (negb _); [by intros [= _ <-] |].
  destruct (te_never_cache _); [by intros [= _ <-] |].
  destruct (walk _ _ _ _) as [[[found |] |] |] eqn:Hw; cbn [mbind option_bind]; [| by intros [= _ <-] | done | done].
  apply walk_found in Hw as (node & Hin & <-). intros Hget Ho. exists (te_result (sr_result node)).
  split; [by exists node |]. revert Hget.
  destruct (te_result (sr_result node)) as [out | e]; [| by intros [= _ <-]; injection Ho as <-].
  destruct (te_read_coinbase_account _) as [used |]; [| done]. cbn [mbind option_bind].
  destruct (db_basic w b) as [current |]; [| done].
  destruct (coinbase_deltas used current) as [[deltas |] |]; cbn [mbind option_bind]; [| by intros [= _ <-] | done].
  destruct (move_coinbase out b deltas) as [[moved |] |] eqn:Hm; cbn [mbind option_bind]; [| by intros [= _ <-] | done].
  intros [= _ <-]. injection Ho as <-. revert Hm. unfold move_coinbase.
  destruct (rs_state out !! b); [| done]. destruct (checked_add_signed _ _); [| done].
  destruct (checked_add_balance _ _) as [[|] |]; cbn [mbind option_bind]; [| done | done]. by intros [= <-].
Qed.

Lemma stored_entry entry res o :
  entry_holds (entry_store_result entry res) o -> o = ce_result res \/ entry_holds entry o.
Proof.
  unfold entry_store_result. destruct (negb _); [auto |]. destruct (trace_is_not_cacheable _ _); [auto |].
  destruct (take_coinbase_read _ _) as [found trace]. intros (node & Hin & <-). revert Hin. cbn [te_store].
  unfold insert_result. destruct (existsb _ _); [right; by exists node |]. cbn [nodes].
  intros [? | ->%list_elem_of_singleton]%elem_of_app; [right; by exists node | by left].
Qed.

#[local] Instance tx_sim_cache_ok : TxCacheOk W Accounts (TxExecutionCache (Report := EvmReport) (Parts := Parts)).
Proof.
  refine {| holds := fun c h b res => entry_holds (get_tx_entry c h b) (to_outcome res) |}.
  - intros c w h b res trace x. unfold get_cached_result; cbn [tx_sim_cache].
    destruct (cache_get_cached_result c w h b) as [[c' [cr |]] |] eqn:Hget; [| done..].
    destruct (cr_result cr) as [o |] eqn:Ho; intros [= <- <- _].
    destruct (hit_entry_held _ _ _ _ _ _ _ Hget Ho) as (o' & Hheld & Hsame).
    exists (of_outcome o' UsedStateTrace_default). split; [| done]. by destruct o' as [[[] ] |].
  - intros c w tx b res h' b' res'. unfold store_result; cbn [tx_sim_cache]. unfold cache_store_result.
    destruct (negb _); [by right |]. cbn [ce_tx_hash ce_coinbase]. unfold get_tx_entry at 1, set_tx_entry. cbn [tc_stored_results].
    destruct (decide ((tx_hash tx, b) = (h', b'))) as [[= <- <-] | Hne];
      [rewrite lookup_insert_eq; cbn [default from_option]
      | rewrite lookup_insert_ne by done; by right].
    intros [Heq | Hh]%stored_entry; [left | by right]. split_and!; [done | done |].
    cbn [ce_result] in Heq. destruct res, res'; simpl in *; by simplify_eq.
Defined.

(** A new cache holds nothing. *)
Lemma new_tx_cache_sound `{ChainState W Accounts} `{TxHashing} ctx enabled :
  cache_sound (W := W) ctx (TxExecutionCache_new (Report := EvmReport) (Parts := Parts) enabled).
Proof. intros h res (node & Hin & _). by apply elem_of_nil in Hin. Qed.
End tx_sim_cache.
