(* ===== verification/OrderCommitProfit.v ===== *)
(** * Inclusion and profit of executed orders (building/order_commit.rs)

    Which transactions of a bundle are in the block after it was executed, and
    what the coinbase gained. *)

From S2P Require Import Prelude Transactions Bundles Orders SimTypes World CommitMonad OrderCommit OrderCommitSpec.

Section inclusion.
Context {W Diff C : Type} `{ChainState W Diff} `{!TxCache W Diff C}.
Context `{PayoutSigner} `{!PayoutSignerOk}.
Context `{!HashOrder Address} `{!HashOrder nat}.
Context (ctx : BlockBuildingContext).
Abbreviation Fork := (PartialBlockFork W C).

(** [infos] is an outcome of the bundle's transactions: a transaction is kept
    when it succeeds or may revert and is not dropped for it; it is left out
    when it may be dropped, or skipped if skipping is allowed. *)
Inductive bundle_outcome (bundle : Bundle) (skip : bool)
  : list TxWithBlobs -> list TransactionExecutionInfo -> Prop :=
| outcome_nil : bundle_outcome bundle skip [] []
| outcome_keep tx txs i l :
    ti_tx i = tx ->
    rc_success (ti_receipt i) = true
      \/ tx_hash tx ∈ b_reverting_tx_hashes bundle /\ tx_hash tx ∉ b_dropping_tx_hashes bundle ->
    bundle_outcome bundle skip txs l -> bundle_outcome bundle skip (tx :: txs) (i :: l)
| outcome_leave tx txs l :
    tx_hash tx ∈ b_dropping_tx_hashes bundle
      \/ skip = true /\ tx_hash tx ∈ b_reverting_tx_hashes bundle ->
    bundle_outcome bundle skip txs l -> bundle_outcome bundle skip (tx :: txs) l.

Lemma outcome_leave_ok bundle skip reserved tx txs b profit :
  ensures (S := Fork) (commit_bundle_txs ctx bundle reserved skip txs b profit)
    (on_ok (fun r => exists l, bo_tx_infos r.1 = bo_tx_infos b ++ l /\ bundle_outcome bundle skip txs l)) ->
  tx_hash tx ∈ b_dropping_tx_hashes bundle
    \/ skip = true /\ tx_hash tx ∈ b_reverting_tx_hashes bundle ->
  ensures (S := Fork) (commit_bundle_txs ctx bundle reserved skip txs b profit)
    (on_ok (fun r => exists l, bo_tx_infos r.1 = bo_tx_infos b ++ l
                     /\ bundle_outcome bundle skip (tx :: txs) l)).
Proof.
  intros IH Hskip. eapply ensures_wand; [exact IH |]. intros [r |] Hr; [| done].
  destruct Hr as (l & ? & ?). exists l. split; [done | by apply outcome_leave].
Qed.

Lemma bundle_txs_outcome bundle reserved skip txs b profit :
  ensures (S := Fork) (commit_bundle_txs ctx bundle reserved skip txs b profit)
    (on_ok (fun r => exists l, bo_tx_infos r.1 = bo_tx_infos b ++ l /\ bundle_outcome bundle skip txs l)).
Proof.
  revert b profit. induction txs as [| tx txs IH]; intros b profit; cbn [commit_bundle_txs].
  { apply ensures_ret. exists []. rewrite app_nil_r. split; [done | constructor]. }
  apply ensures_skip. intros point. eapply ensures_bind; [apply ensures_commit_tx |].
  intros [ok | e] Hok; simpl in Hok.
  - destruct (rc_success (ti_receipt (to_tx_info ok))) eqn:Hs; simpl.
    2: case_bool_decide; simpl;
       [apply ensures_skip; intros _; apply outcome_leave_ok; auto |];
       case_bool_decide; simpl; [| by apply ensures_ret].
    all: eapply ensures_wand; [apply IH |]; intros [r |] Hr; [| done].
    all: destruct Hr as (l & Hl & ?); exists (to_tx_info ok :: l); split;
      [by rewrite Hl; simpl; rewrite <- app_assoc | apply outcome_keep; [apply Hok | auto | done]].
  - destruct (_ || _) eqn:Hc; [| by apply ensures_ret]. apply outcome_leave_ok; [apply IH |].
    apply orb_prop in Hc as [[-> Hc]%andb_prop | Hc]; apply bool_decide_eq_true in Hc; auto.
Qed.

(** The payout that may follow the transactions of a bundle. *)
Definition bundle_payout (bundle : Bundle) (p : list TransactionExecutionInfo) : Prop :=
  p = [] \/ exists i cfg, p = [i] /\ b_refund bundle = Some cfg /\ br_delayed cfg = false
    /\ tx_to (ti_tx i) = Some (br_recipient cfg) /\ tx_signer (ti_tx i) = ctx_builder_address ctx
    /\ rc_success (ti_receipt i) = true.

Lemma payout_inserted payout to reserved b :
  ensures (S := Fork) (insert_refund_payout_tx ctx payout to reserved b)
    (on_ok (fun r => exists i, bo_tx_infos r = bo_tx_infos b ++ [i] /\ tx_to (ti_tx i) = Some to
      /\ tx_signer (ti_tx i) = ctx_builder_address ctx /\ rc_success (ti_receipt i) = true
      /\ tx_value (ti_tx i) = rp_tx_value payout /\ bo_paid_kickbacks r = bo_paid_kickbacks b ++ [(to, rp_tx_value payout)])).
Proof.
  unfold insert_refund_payout_tx. do 2 (apply ensures_skip; intros ?).
  destruct (create_payout_tx _ _ _ _ _) as [signed |] eqn:Hs; [| by apply ensures_ret].
  unfold create_payout_tx in Hs. apply sign_tx_fields in Hs as (Hb & Hto & Hv & _). simpl in Hto, Hv.
  unfold new_no_blobs, TxWithBlobs_new. rewrite Hb. simpl.
  eapply ensures_bind; [apply ensures_commit_tx |]. intros [ok | e] Hok; [| by apply ensures_ret].
  destruct (rc_success _) eqn:Hsucc; apply ensures_ret; [| done].
  destruct Hok as [Ht _ _ _]. exists (to_tx_info ok). by rewrite Ht.
Qed.

Lemma refund_payout bundle reserved combined b profit :
  ensures (S := Fork) (refund_bundle ctx bundle reserved combined b profit)
    (on_ok (fun r => exists p, bo_tx_infos r = bo_tx_infos b ++ p /\ bundle_payout bundle p)).
Proof.
  unfold refund_bundle.
  assert (exists p, bo_tx_infos b = bo_tx_infos b ++ p /\ bundle_payout bundle p) as Hnone.
  { exists []. rewrite app_nil_r. split; [done | by left]. }
  destruct (b_refund bundle) as [cfg |] eqn:Hcfg; [| by apply ensures_ret].
  destruct (br_delayed cfg) eqn:Hd; [by apply ensures_ret |].
  case_bool_decide; [by apply ensures_ret |].
  apply ensures_skip. intros [payout | e]; [| by apply ensures_ret].
  destruct (_ && _); [by apply ensures_ret |].
  eapply ensures_wand; [apply payout_inserted |]. intros [r |] Hr; [| done].
  destruct Hr as (i & ? & ? & ? & ? & _). exists [i]. split; [done |]. right. exists i, cfg. done.
Qed.

(** The bundle is for this block and its time. *)
Definition bundle_in_time (bundle : Bundle) : Prop :=
  (forall block, b_block bundle = Some block -> block = ctx_block ctx)
  /\ (forall t, b_min_timestamp bundle = Some t -> t <= ctx_timestamp ctx)
  /\ (forall t, b_max_timestamp bundle = Some t -> ctx_timestamp ctx <= t).

Lemma bundle_time_checked bundle s skip combined :
  ensures (S := Fork) (commit_bundle ctx bundle s skip combined)
    (on_ok (fun _ => bundle_in_time bundle)).
Proof.
  unfold commit_bundle, bundle_in_time.
  destruct (b_block bundle) as [block |]; [case_decide; [subst | by apply ensures_ret] |].
  all: destruct (_ && _) eqn:Ht; [| by apply ensures_ret].
  all: apply andb_prop in Ht as [Hmin Hmax]; apply bool_decide_eq_true in Hmin, Hmax.
  all: intros f f' [a |] _; [simpl | done]; split_and!;
    [by intros ? [= <-] | intros t Ht; by rewrite Ht in Hmin | intros t Ht; by rewrite Ht in Hmax].
Qed.

Definition bundle_included (bundle : Bundle) (skip : bool) (ok : BundleOk) : Prop :=
  exists l p, bo_tx_infos ok = l ++ p /\ bundle_outcome bundle skip (b_txs bundle) l
    /\ bundle_payout bundle p.

Lemma ensures_bundle_included bundle s skip combined :
  ensures (S := Fork) (commit_bundle ctx bundle s skip combined) (on_ok (bundle_included bundle skip)).
Proof.
  assert (ensures (S := Fork) (commit_bundle_no_rollback ctx bundle s skip combined)
            (on_ok (bundle_included bundle skip))).
  { eapply ensures_bind; [apply bundle_txs_outcome |].
    intros [[b profit] |] Hb; [| by apply ensures_ret]. destruct Hb as (l & Hl & Ho).
    case_decide; [by apply ensures_ret |]. eapply ensures_wand; [apply refund_payout |].
    intros [r |] Hr; [| done]. destruct Hr as (p & Hp & ?). exists l, p.
    simpl in Hl. by rewrite Hp, Hl. }
  unfold commit_bundle. repeat case_match; try (by apply ensures_ret);
    by apply execute_with_rollback_ensures.
Qed.

(** C27. A bundle is executed only in its block and its time window; of its
    transactions, in order, those are in the block that succeeded or may
    revert (and are not dropped for it), the missing ones may all be dropped
    or skipped; at most one more transaction follows, a successful payment
    of the builder to the refund recipient of a bundle whose refund is not
    delayed. *)
Theorem bundle_inclusion bundle s skip combined (f f' : Fork) ok :
  commit_bundle ctx bundle s skip combined f = (f', Done (Ok ok)) ->
  bundle_in_time bundle
  /\ exists l p, bo_tx_infos ok = l ++ p /\ bundle_outcome bundle skip (b_txs bundle) l
       /\ bundle_payout bundle p.
Proof.
  intros Hc. split; [exact (bundle_time_checked bundle s skip combined f f' (Ok ok) Hc) |].
  exact (ensures_bundle_included bundle s skip combined f f' (Ok ok) Hc).
Qed.

End inclusion.

(** ** Profit *)
Section profit.
Context {W Diff C : Type} `{ChainState W Diff} `{!ChainStateOk W Diff} `{!TxCache W Diff C}.
Context `{PayoutSigner} `{!HashOrder Address} `{!HashOrder nat}.
Context (ctx : BlockBuildingContext).
Abbreviation Fork := (PartialBlockFork W C).

(** The coinbase balance, where it can be read. *)
Definition coinbase_is (f : Fork) (b : U256) : Prop :=
  state_balance (fk_world f) (ctx_beneficiary ctx) = Ok b.

Lemma coinbase_balance_Done f f' b :
  coinbase_balance ctx f = (f', Done b) <-> f' = f /\ coinbase_is f b.
Proof.
  unfold coinbase_balance, bind, gets, coinbase_is. destruct (state_balance _ _) as [b' |]; simpl.
  - split; [by intros [= <- <-] | by intros [-> [= ->]]].
  - split; [done | by intros [_ ?]].
Qed.

Lemma coinbase_is_u256 f b : coinbase_is f b -> is_u256 b.
Proof.
  unfold coinbase_is, state_balance. destruct (basic _ _) as [[i |] |] eqn:Hb; intros [= <-].
  - by eapply basic_balance.
  - unfold is_uint. lia.
Qed.

Lemma run_transaction_world tx recording f f' r :
  run_transaction ctx tx recording f = (f', Done r) -> fk_world f' = fk_world f.
Proof.
  intros Hs. apply bind_Done in Hs as (cached & f1 & [= <- <-] & Hs).
  apply bind_Done in Hs as (c & f2 & Hc & Hs).
  destruct (get_cached_result _ _ _ _) as [c' |]; simpl in Hc; [| done]. injection Hc as <- <-.
  destruct c' as [[[res trace] |] should_cache]; [by injection Hs as <- _ |].
  apply bind_Done in Hs as (res0 & f3 & [= <- <-] & Hs).
  apply bind_Done in Hs as (res & f3 & Hres & Hs).
  apply bind_Done in Hs as (u & f4 & [= <-] & [= <- _]).
  destruct (execute_evm _ _ _); [| done]. injection Hres as <- _. by destruct should_cache.
Qed.

(** A committed transaction is one entry of the undo log. *)
Lemma commit_tx_world tx s (f f' : Fork) ok :
  commit_tx ctx tx s f = (f', Done (Ok ok)) -> exists d, fk_world f' = commit (fk_world f) d.
Proof.
  unfold commit_tx. destruct (commit_tx_inner _ _ _ _) as [f1 r1] eqn:Hc. intros [= <- ->].
  unfold commit_tx_inner in Hc. destruct (can_fit_tx _ _ _ _); [| done].
  apply bind_Done in Hc as (before & g1 & [-> _]%coinbase_balance_Done & Hc).
  apply bind_Done in Hc as (b & g2 & Hconv & Hc).
  destruct (i256_try_from before); [injection Hconv as <- <- | done].
  destruct (is_blocked _ _); [done |]. apply bind_Done in Hc as (rec & g3 & [= <- <-] & Hc).
  apply bind_Done in Hc as ([[out | e] trace] & g4 & Hrun%run_transaction_world & Hc); [| done].
  apply bind_Done in Hc as (u & g5 & [= <-] & Hc). apply bind_Done in Hc as (u' & g6 & [= <-] & Hc).
  apply bind_Done in Hc as (after & g7 & [-> _]%coinbase_balance_Done & Hc).
  apply bind_Done in Hc as (a' & g8 & Hconv' & Hc).
  destruct (i256_try_from after); [injection Hconv' as <- <- | done].
  injection Hc as <- _. exists (ev_state out). simpl. unfold trace_execution.
  destruct (fk_tracer g4); simpl; by rewrite Hrun.
Qed.

(** The profit of a transaction is the change of the coinbase balance. *)
Lemma commit_tx_profit tx s (f f' : Fork) ok :
  commit_tx ctx tx s f = (f', Done (Ok ok)) ->
  exists before after, coinbase_is f before /\ coinbase_is f' after
    /\ before < 2 ^ 255 /\ after < 2 ^ 255
    /\ ti_coinbase_profit (to_tx_info ok) = after - before.
Proof.
  unfold commit_tx. destruct (commit_tx_inner _ _ _ _) as [f1 r1] eqn:Hc. intros [= <- ->].
  unfold commit_tx_inner in Hc. destruct (can_fit_tx _ _ _ _); [| done].
  apply bind_Done in Hc as (before & g1 & [-> Hb]%coinbase_balance_Done & Hc).
  apply bind_Done in Hc as (before' & g2 & Hconv & Hc).
  destruct (i256_try_from before) as [b |] eqn:Hi; [| done]. injection Hconv as <- <-.
  destruct (is_blocked _ _); [done |]. apply bind_Done in Hc as (rec & g3 & [= <- <-] & Hc).
  apply bind_Done in Hc as ([[out | e] trace] & g4 & Hrun & Hc); [| done].
  apply bind_Done in Hc as (u & g5 & _ & Hc). apply bind_Done in Hc as (u' & g6 & _ & Hc).
  apply bind_Done in Hc as (after & g7 & [-> Ha]%coinbase_balance_Done & Hc).
  apply bind_Done in Hc as (after' & g8 & Hconv' & Hc).
  destruct (i256_try_from after) as [a' |] eqn:Hi'; [| done]. injection Hconv' as <- <-.
  injection Hc as <- <-. exists before, after. simpl.
  unfold i256_try_from in Hi, Hi'. do 2 case_decide; try done. simplify_eq.
  pose proof (coinbase_is_u256 _ _ Hb) as [? ?]. pose proof (coinbase_is_u256 _ _ Ha) as [? ?].
  split_and!; try done. unfold i256_sub, wrap_signed, wrap. rewrite Z.mod_small; [lia |].
  change (2 ^ (256 - 1)) with (2 ^ 255). change (2 ^ 256) with (2 * 2 ^ 255). lia.
Qed.

(** What an order must have left the coinbase with. *)
Definition profit_spec (order : Order) (ok : OrderOk) (before after : U256) : Prop :=
  match order with
  | Order_Tx tx =>
      if decide (before <= after) then oo_coinbase_profit ok = after - before
      else is_system (txb_metadata (tx_with_blobs tx)) = true /\ oo_coinbase_profit ok = 0
  | _ => 0 <= oo_coinbase_profit ok
         /\ u256_add before (delayed_cost (oo_delayed_kickback ok)) + oo_coinbase_profit ok = after
  end.

Lemma wrap_nonneg w z : 0 <= w -> 0 <= wrap w z.
Proof. intros. unfold wrap. apply Z.mod_pos_bound. apply Z.pow_pos_nonneg; lia. Qed.

Lemma bundle_result_profit r before (f f' : Fork) ok :
  bundle_to_order_result ctx r before f = (f', Done (Ok ok)) ->
  exists after, coinbase_is f' after /\ 0 <= oo_coinbase_profit ok
    /\ u256_add before (delayed_cost (oo_delayed_kickback ok)) + oo_coinbase_profit ok = after.
Proof.
  intros Hr. destruct r as [b |]; [| done].
  apply bind_Done in Hr as (p & f1 & Hp & Hr). unfold coinbase_profit_when_refunds in Hp.
  apply bind_Done in Hp as (after & f2 & [-> Ha]%coinbase_balance_Done & Hp).
  destruct (decide (after >= _)) as [Hge |]; [| by injection Hp as _ <-].
  injection Hp as <- <-. apply bind_Done in Hr as (t & f3 & [= <- <-] & [= <- <-]).
  exists after. simpl. pose proof (coinbase_is_u256 _ _ Ha) as [? ?].
  assert (0 <= u256_add before (delayed_cost (bo_delayed_kickback b))) by (apply wrap_nonneg; lia).
  unfold u256_sub, wrap. rewrite Z.mod_small by lia. split; [done | lia].
Qed.

(** C26. The profit reported for an executed order is what the coinbase gained: for a
    transaction the difference of its balances (zero for a losing system
    transaction), for bundles what is left of the gain after the delayed
    refund that is still owed. *)
Theorem commit_order_profit order s skip combined (f f' : Fork) ok :
  commit_order ctx order s skip combined f = (f', Done (Ok ok)) ->
  exists before after, coinbase_is f before /\ coinbase_is f' after
    /\ profit_spec order ok before after.
Proof.
  unfold commit_order, execute_with_rollback. intros Hc.
  apply bind_Done in Hc as (point & f1 & [= <- <-] & Hc).
  apply bind_Done in Hc as ([ok' | e] & f2 & Hm & Hc).
  2: by apply bind_Done in Hc as (u & f3 & _ & ?).
  injection Hc as <- <-. destruct order as [b | tx | b].
  - apply bind_Done in Hm as (before & f3 & [-> Hb]%coinbase_balance_Done & Hm).
    apply bind_Done in Hm as (r & f3 & _ & Hm). apply bundle_result_profit in Hm as (after & ? & ?).
    by exists before, after.
  - apply bind_Done in Hm as ([ok | e] & f3 & Ht & Hm); [| done].
    apply commit_tx_profit in Ht as (before & after & Hb & Ha & _ & _ & Hp).
    exists before, after. rewrite Hp in Hm. cbv zeta in Hm. simpl.
    repeat case_decide; try lia; [| destruct (is_system _) eqn:?; [| done]].
    all: apply bind_Done in Hm as (t & f4 & [= <- <-] & [= <- <-]); simpl;
      split_and!; try done. lia.
  - apply bind_Done in Hm as (before & f3 & [-> Hb]%coinbase_balance_Done & Hm).
    apply bind_Done in Hm as (r & f3 & _ & Hm). apply bundle_result_profit in Hm as (after & ? & ?).
    by exists before, after.
Qed.

End profit.
