(* ===== verification/CommitWitnesses.v ===== *)
(** * Executions on the small chain

    The theorems on order execution, applied to concrete runs. *)

From S2P Require Import Prelude Transactions Bundles Orders SimTypes Samples World SampleChain CommitMonad OrderCommit OrderCommitSafe OrderCommitSpec OrderCommitProfit.

(** ** The laws of execution hold of the small chain *)
#[export] Instance small_execution_ok : ExecutionOk small_ctx.
Proof.
  intros w tx out Ht. unfold transact in Ht; simpl in Ht. unfold small_transact in Ht.
  destruct (decide _); [done |].
  destruct (decide (21000 <= ts_gas_limit (txb_tx tx) <= small_gas_limit /\ _)) as [Hd |]; [| done].
  injection Ht as <-. unfold small_ctx, ev_gas_used, ctx_gas_limit. lia.
Qed.

Definition small_hashing (known : list TxWithBlobs) : TxHashing := small_tx_with_hash (txb_tx <$> known).
#[export] Instance small_hash_ok known : SignerHashOk (H := small_hashing known).
Proof.
  intros p tx [= <-].
  exact (small_payout_hash _ (p_nonce p, p_gas_limit p, p_max_fee_per_gas p, p_to p, p_value p)).
Qed.

#[export] Instance small_cache_ok : TxCacheOk SmallChain (gmap Address AccountInfo) unit.
Proof. by refine {| holds := fun _ _ _ _ => False |}; [.. | by right]. Defined.
#[export] Instance keeping_cache_ok : TxCacheOk SmallChain (gmap Address AccountInfo) KeepingCache.
Proof.
  refine {| holds := fun (c : KeepingCache) h b res => c !! (h, b) = Some res |}.
  - intros c w h b res trace x. unfold get_cached_result; cbn [keeping_cache].
    destruct (c !! (h, b)) as [r |]; intros [= <- _ _]. exists r. by destruct r.
  - intros c w tx b res h' b' res'. unfold store_result; cbn [keeping_cache]. unfold KeepingCache in *.
    intros [[[= <- <-] <-] | [_ Hc]]%lookup_insert_Some; auto using same_report_refl.
Defined.

(** Nothing is in a cache that never hits, or in a new one. *)
Lemma small_cache_sound `{TxHashing} : cache_sound (W := SmallChain) small_ctx tt.
Proof. by intros h res. Qed.
Lemma new_cache_sound `{TxHashing} : cache_sound (W := SmallChain) small_ctx (∅ : KeepingCache).
Proof. by intros h res. Qed.

Definition small_fork : PartialBlockFork SmallChain unit := PartialBlockFork_new small_world tt None.

Definition small_tx (hash signer to value : Z) : TxWithBlobs :=
  {| txb_tx := {| ts_hash := hash; ts_ty := 2; ts_nonce := 0; ts_to := Some to; ts_value := value;
                  ts_gas_limit := 50000; ts_max_fee_per_gas := 10; ts_length := 100; ts_size := 200;
                  ts_blob_versioned_hashes := None |};
     txb_signer := signer; blobs_sidecar := default_blob_sidecar; txb_metadata := Metadata_new 0 |}.

(** A transfer, and one that is reverted: allowed to or not. *)
Definition small_bundle (reverting : list B256) : Order :=
  Order_Bundle (sample_bundle 1 None [small_tx 70 3 9 10; small_tx 71 4 13 10] reverting).

Definition small_inner (order : Order) : Bundle :=
  match order with Order_Bundle b => b | _ => sample_bundle 0 None [] [] end.

Definition run_small (order : Order) :=
  commit_order small_ctx order SpaceState_ZERO true ∅ small_fork.

Definition ok_of {A E} (d : A) (o : outcome (result A E)) : A :=
  match o with Done (Ok a) => a | _ => d end.
Definition no_order_ok : OrderOk :=
  {| oo_coinbase_profit := 0; oo_space_used := BlockSpace_ZERO;
     oo_cumulative_space_used := BlockSpace_ZERO; oo_tx_infos := []; oo_original_order_ids := [];
     oo_nonces_updated := []; oo_paid_kickbacks := []; oo_delayed_kickback := None;
     oo_used_state_trace := None |}.
Definition small_ok (order : Order) : OrderOk := ok_of no_order_ok (run_small order).2.

Lemma small_run_ok : run_small (small_bundle [71]) = ((run_small (small_bundle [71])).1, Done (Ok (small_ok (small_bundle [71])))).
Proof. vm_compute. reflexivity. Qed.

Lemma small_sane : sane_limits small_ctx.
Proof. unfold sane_limits, small_ctx, small_gas_limit; simpl. lia. Qed.

Lemma small_start : within_limits small_ctx SpaceState_ZERO.
Proof. split; vm_compute; repeat split; discriminate. Qed.

(** The bundle without permission to revert fails and leaves the block as it was. *)
Lemma commit_order_atomic_witness :
  run_small (small_bundle []) = ((run_small (small_bundle [])).1,
    Done (Err (OrderErr_Bundle (BundleErr_TransactionReverted 71))))
  /\ restored small_fork (run_small (small_bundle [])).1.
Proof.
  assert (run_small (small_bundle []) = ((run_small (small_bundle [])).1,
    Done (Err (OrderErr_Bundle (BundleErr_TransactionReverted 71))))) as Hr
    by (vm_compute; reflexivity).
  split; [exact Hr |].
  destruct (commit_order_atomic small_ctx _ _ _ _ _ _ _ Hr) as (_ & _ & Hres).
  exact (Hres _ eq_refl).
Defined.

(** The hashes of the transactions below. *)
#[local] Instance bundle_hashing : TxHashing := small_hashing [small_tx 70 3 9 10; small_tx 71 4 13 10].

Lemma small_bundle_proper reverting : proper_order (small_bundle reverting).
Proof. repeat constructor; vm_compute; try reflexivity; discriminate. Qed.

Lemma commit_order_ledger_witness :
  ledger small_ctx (C := unit) SpaceState_ZERO (order_bundle (small_ok (small_bundle [71])))
  /\ oo_nonces_updated (small_ok (small_bundle [71])) = [(3, 1); (4, 1)].
Proof.
  split; [| vm_compute; reflexivity].
  exact (commit_order_ledger small_ctx _ _ _ _ small_fork _ _ small_sane (small_bundle_proper _)
           small_cache_sound small_run_ok).
Defined.

(** The bundle is executed twice on the same state: the first execution fills the cache,
    the second one is answered from it. *)
Definition run_keeping (c : KeepingCache) :=
  commit_order small_ctx (small_bundle [71]) SpaceState_ZERO true ∅ (PartialBlockFork_new small_world c None).
Definition filled : KeepingCache := fk_cache (run_keeping ∅).1.

Lemma commit_order_within_limits_witness :
  is_Some (filled !! (70, small_coinbase)) /\ is_Some (filled !! (71, small_coinbase))
  /\ cache_sound (W := SmallChain) small_ctx (fk_cache (run_keeping filled).1)
  /\ within_limits small_ctx
       {| ss_space_used := oo_cumulative_space_used (ok_of no_order_ok (run_keeping filled).2);
          ss_reserved := BlockSpace_ZERO |}
  /\ bs_gas (oo_cumulative_space_used (ok_of no_order_ok (run_keeping filled).2)) = 42000.
Proof.
  split; [vm_compute; eauto |]. split; [vm_compute; eauto |].
  assert (cache_sound (W := SmallChain) small_ctx filled) as Hfilled.
  { apply (commit_order_within_limits small_ctx (small_bundle [71]) SpaceState_ZERO true ∅
             (PartialBlockFork_new small_world (∅ : KeepingCache) None) _ (run_keeping ∅).2 small_sane
             (small_bundle_proper _) new_cache_sound small_start).
    unfold run_keeping. by destruct (commit_order _ _ _ _ _ _). }
  destruct (commit_order_within_limits small_ctx (small_bundle [71]) SpaceState_ZERO true ∅
             (PartialBlockFork_new small_world filled None) (run_keeping filled).1 (run_keeping filled).2
             small_sane (small_bundle_proper _) Hfilled small_start) as [Hc Hl].
  { unfold run_keeping. by destruct (commit_order _ _ _ _ _ _). }
  split; [exact Hc |]. split; [| vm_compute; reflexivity].
  apply Hl. vm_compute. reflexivity.
Defined.

Lemma commit_order_profit_witness :
  exists before after, coinbase_is small_ctx small_fork before
    /\ coinbase_is small_ctx (run_small (small_bundle [71])).1 after
    /\ profit_spec (small_bundle [71]) (small_ok (small_bundle [71])) before after.
Proof. exact (commit_order_profit small_ctx _ _ _ _ _ _ _ small_run_ok). Defined.

Definition no_bundle_ok : BundleOk := empty_bundle_ok SpaceState_ZERO.

Lemma bundle_inclusion_witness :
  exists ok, commit_bundle small_ctx (small_inner (small_bundle [71])) SpaceState_ZERO true ∅ small_fork
    = ((commit_bundle small_ctx (small_inner (small_bundle [71])) SpaceState_ZERO true ∅ small_fork).1,
       Done (Ok ok))
  /\ exists l p, bo_tx_infos ok = l ++ p
     /\ bundle_outcome (small_inner (small_bundle [71])) true
          [small_tx 70 3 9 10; small_tx 71 4 13 10] l.
Proof.
  pose (ok := ok_of no_bundle_ok (commit_bundle small_ctx (small_inner (small_bundle [71]))
                              SpaceState_ZERO true ∅ small_fork).2).
  assert (commit_bundle small_ctx (small_inner (small_bundle [71])) SpaceState_ZERO true ∅ small_fork
    = ((commit_bundle small_ctx (small_inner (small_bundle [71])) SpaceState_ZERO true ∅ small_fork).1,
       Done (Ok ok))) as Hr by (vm_compute; reflexivity).
  exists ok. split; [exact Hr |].
  destruct (bundle_inclusion small_ctx _ _ _ _ _ _ _ Hr) as (_ & l & p & Hl & Ho & _).
  exists l, p. split; [exact Hl | exact Ho].
Defined.
