(* ===== verification/PartialBlock.v ===== *)
(** * The block under construction (building/mod.rs)

    [PartialBlock] accumulates executed orders: their space, profit, transactions
    and refunds.  It executes an order on a fork of the state, and at the end pays
    the combined refunds and the proposer; the last payment can be taken back to
    seal the block again with another value. *)

From S2P Require Import Prelude Transactions Bundles Orders SimTypes OrderSinks World CommitMonad OrderCommit.

(** ** Sorting of the orders *)
Inductive Sorting := MevGasPrice | MaxProfit | TypeMaxProfit | LengthThreeMaxProfit | LengthThreeMevGasPrice.
#[export] Instance Sorting_eq_dec : EqDecision Sorting.
Proof. solve_decision. Defined.

Definition MEV_GAS_PRICE_NAME : string := "mev_gas_price".
Definition MAX_PROFIT_NAME : string := "max_profit".
Definition TYPE_MAX_PROFIT_NAME : string := "type_max_profit".
Definition LENGTH_THREE_MAX_PROFIT_NAME : string := "length_three_max_profit".
Definition LENGTH_THREE_MEV_GAS_PRICE_NAME : string := "length_three_mev_gas_price".

Definition Sorting_from_str (s : string) : option Sorting :=
  if decide (s = MEV_GAS_PRICE_NAME) then Some MevGasPrice
  else if decide (s = MAX_PROFIT_NAME) then Some MaxProfit
  else if decide (s = TYPE_MAX_PROFIT_NAME) then Some TypeMaxProfit
  else if decide (s = LENGTH_THREE_MAX_PROFIT_NAME) then Some LengthThreeMaxProfit
  else if decide (s = LENGTH_THREE_MEV_GAS_PRICE_NAME) then Some LengthThreeMevGasPrice
  else None.

Definition Sorting_fmt (s : Sorting) : string :=
  match s with
  | MevGasPrice => MEV_GAS_PRICE_NAME
  | MaxProfit => MAX_PROFIT_NAME
  | TypeMaxProfit => TYPE_MAX_PROFIT_NAME
  | LengthThreeMaxProfit => LENGTH_THREE_MAX_PROFIT_NAME
  | LengthThreeMevGasPrice => LENGTH_THREE_MEV_GAS_PRICE_NAME
  end.

(** ** Results and errors *)
Record ExecutionResult := {
  er_coinbase_profit : U256;
  er_inplace_sim : SimValue;
  er_space_used : BlockSpace;
  er_order : Order;
  er_tx_infos : list TransactionExecutionInfo;
  er_original_order_ids : list OrderId;
  er_nonces_updated : list (Address * U64);
  er_paid_kickbacks : list (Address * U256);
  er_delayed_kickback : option DelayedKickback;
}.

Inductive InsertPayoutTxErr :=
| Payout_CriticalCommitError (e : CriticalCommitOrderError)
| ProfitTooLow
| CombinedRefundTxReverted
| PayoutTxReverted
| Payout_SignerError
| Payout_TxErr (e : TransactionErr)
| NoSigner.

Inductive ExecutionError :=
| ExecutionError_OrderError (e : OrderErr)
| LowerInsertedValue (before inplace : SimValue).

(** The sender whose nonce is too high, with the nonce. *)
Definition try_get_tx_too_high_error (err : ExecutionError) (order : Order) : option (Address * U64) :=
  match err with
  | ExecutionError_OrderError (OrderErr_Transaction
      (TxErr_InvalidTransaction (NonceTooHigh tx_nonce _))) =>
      p ← head (Order_list_txs order); Some (tx_signer p.1, tx_nonce)
  | ExecutionError_OrderError (OrderErr_Bundle (BundleErr_InvalidTransaction hash
      (TxErr_InvalidTransaction (NonceTooHigh tx_nonce _)))) =>
      p ← snd <$> list_find (fun p => tx_hash p.1 = hash) (Order_list_txs order);
      Some (tx_signer p.1, tx_nonce)
  | _ => None
  end.

(** What a finalization did, to be undone, and what the last one changed. *)
Record FinalizeRevertStateCurrentIteration := {
  last_tx_block_space : BlockSpace;
  state_reverts : nat;
}.
Definition FinalizeRevertState_default : FinalizeRevertStateCurrentIteration :=
  {| last_tx_block_space := BlockSpace_ZERO; state_reverts := 0 |}.

Record FinalizeAdjustmentState := {
  revert_state : FinalizeRevertStateCurrentIteration;
  account_changed_previous_iteration : list Address;
}.

(** ** The simulation value of an executed order *)
Definition create_sim_value (order : Order) (order_ok : OrderOk) (detector : MempoolTxsDetector)
  : SimValue :=
  let non_mempool_coinbase_profit :=
    match order with
    | Order_Tx _ => oo_coinbase_profit order_ok
    | _ =>
        let mempool_coinbase_profit :=
          foldl (fun acc i => i256_add acc (ti_coinbase_profit i)) 0
            (filter (fun i => is_mempool detector (ti_tx i) = true) (oo_tx_infos order_ok)) in
        if decide (mempool_coinbase_profit > 0)
        then saturating_sub (oo_coinbase_profit order_ok) (Z.abs mempool_coinbase_profit)
        else oo_coinbase_profit order_ok
    end in
  SimValue_new (oo_coinbase_profit order_ok) non_mempool_coinbase_profit (oo_space_used order_ok)
    (oo_paid_kickbacks order_ok).

(** ** State *)
Inductive BlockTraceEvent :=
| OrderAboutToExecute (order : SimulatedOrder)
| OrderExecuted (order : SimulatedOrder) (res : outcome (result ExecutionResult ExecutionError))
| ForkEvent (e : ForkTraceEvent).

Record PartialBlock := {
  pb_discard_txs : bool;
  pb_space_state : BlockBuildingSpaceState;
  pb_coinbase_profit : U256;
  pb_executed_tx_infos : list TransactionExecutionInfo;
  pb_combined_refunds : gmap Address U256;
  pb_delayed_refund : U256;
  pb_tracer : SimulationTracer;
  pb_events : list BlockTraceEvent;
}.

Definition PartialBlock_new (discard_txs : bool) : PartialBlock :=
  {| pb_discard_txs := discard_txs; pb_space_state := SpaceState_ZERO; pb_coinbase_profit := 0;
     pb_executed_tx_infos := []; pb_combined_refunds := ∅; pb_delayed_refund := 0;
     pb_tracer := Tracer_unit; pb_events := [] |}.

Definition with_tracer (b : PartialBlock) (t : SimulationTracer) : PartialBlock :=
  {| pb_discard_txs := pb_discard_txs b; pb_space_state := pb_space_state b;
     pb_coinbase_profit := pb_coinbase_profit b; pb_executed_tx_infos := pb_executed_tx_infos b;
     pb_combined_refunds := pb_combined_refunds b; pb_delayed_refund := pb_delayed_refund b;
     pb_tracer := t; pb_events := pb_events b |}.

Definition set_space_state (b : PartialBlock) (s : BlockBuildingSpaceState) : PartialBlock :=
  {| pb_discard_txs := pb_discard_txs b; pb_space_state := s;
     pb_coinbase_profit := pb_coinbase_profit b; pb_executed_tx_infos := pb_executed_tx_infos b;
     pb_combined_refunds := pb_combined_refunds b; pb_delayed_refund := pb_delayed_refund b;
     pb_tracer := pb_tracer b; pb_events := pb_events b |}.

Definition set_executed_tx_infos (b : PartialBlock) (l : list TransactionExecutionInfo) : PartialBlock :=
  {| pb_discard_txs := pb_discard_txs b; pb_space_state := pb_space_state b;
     pb_coinbase_profit := pb_coinbase_profit b; pb_executed_tx_infos := l;
     pb_combined_refunds := pb_combined_refunds b; pb_delayed_refund := pb_delayed_refund b;
     pb_tracer := pb_tracer b; pb_events := pb_events b |}.

Definition log_block_event (b : PartialBlock) (es : list BlockTraceEvent) : PartialBlock :=
  {| pb_discard_txs := pb_discard_txs b; pb_space_state := pb_space_state b;
     pb_coinbase_profit := pb_coinbase_profit b; pb_executed_tx_infos := pb_executed_tx_infos b;
     pb_combined_refunds := pb_combined_refunds b; pb_delayed_refund := pb_delayed_refund b;
     pb_tracer := pb_tracer b; pb_events := pb_events b ++ es |}.

Definition pb_reserve_block_space (b : PartialBlock) (space : BlockSpace) : PartialBlock :=
  set_space_state b (reserve_block_space (pb_space_state b) space).
Definition pb_free_reserved_block_space (b : PartialBlock) : PartialBlock :=
  set_space_state b (free_reserved_block_space (pb_space_state b)).

(** [use_space] and [push] of one executed transaction. *)
Definition push_executed (b : PartialBlock) (ok : TransactionOk) : PartialBlock :=
  set_executed_tx_infos
    (set_space_state b (use_space (pb_space_state b) (ti_space_used (to_tx_info ok))))
    (pb_executed_tx_infos b ++ [to_tx_info ok]).

(** What an executed order adds to the block. *)
Definition use_order (b : PartialBlock) (ok : OrderOk) : PartialBlock :=
  let used := use_space (pb_space_state b) (oo_space_used ok) in
  let '(space, refunds, delayed) :=
    match oo_delayed_kickback ok with
    | Some k =>
        if dk_should_pay_in_block k
        then (reserve_block_space used (dk_payout_tx_space_needed k),
              <[dk_recipient k :=
                  u256_add (default 0 (pb_combined_refunds b !! dk_recipient k))
                    (dk_payout_value k)]> (pb_combined_refunds b),
              pb_delayed_refund b)
        else (used, pb_combined_refunds b, u256_add (pb_delayed_refund b) (dk_payout_value k))
    | None => (used, pb_combined_refunds b, pb_delayed_refund b)
    end in
  {| pb_discard_txs := pb_discard_txs b; pb_space_state := space;
     pb_coinbase_profit := u256_add (pb_coinbase_profit b) (oo_coinbase_profit ok);
     pb_executed_tx_infos := pb_executed_tx_infos b ++ oo_tx_infos ok;
     pb_combined_refunds := refunds; pb_delayed_refund := delayed;
     pb_tracer := pb_tracer b; pb_events := pb_events b |}.

(** The block with the state it is executed on. *)
Record Building (W C : Type) := { bl_block : PartialBlock; bl_world : W; bl_cache : C }.
Arguments bl_block {_ _} _.
Arguments bl_world {_ _} _.
Arguments bl_cache {_ _} _.
Arguments Build_Building {_ _}.

Section block.
Context {W Diff C : Type} `{ChainState W Diff} `{!TxCache W Diff C} `{PayoutSigner}.
Context `{!HashOrder Address} `{!HashOrder nat}.
Context (ctx : BlockBuildingContext).
Abbreviation Fork := (PartialBlockFork W C).
Abbreviation Block := (Building W C).

Definition update_block (g : PartialBlock -> PartialBlock) : M Block unit :=
  modify (fun s => Build_Building (g (bl_block s)) (bl_world s) (bl_cache s)).

(** A new fork that borrows the state and the tracer of the block runs [m]; the
    execution tracer is the block's when [traced], and else none. *)
Definition run_fork {A} (traced : bool) (m : M Fork A) : M Block A := fun s =>
  let b := bl_block s in
  let '(f, r) := m (PartialBlockFork_new (bl_world s) (bl_cache s) (Some (pb_tracer b))) in
  let b := with_tracer b (default (pb_tracer b) (fk_tracer f)) in
  let b := if traced then log_block_event b (ForkEvent <$> fk_events f) else b in
  (Build_Building b (fk_world f) (fk_cache f), r).

(** The work on the fork: [commit_order], and the filter that may cancel it. *)
Definition commit_and_filter (order : SimulatedOrder) (b : PartialBlock)
    (result_filter : SimValue -> result unit ExecutionError)
  : M Fork (result (OrderOk * SimValue) ExecutionError) :=
  let* point := rollback_point in
  let* exec_result := commit_order ctx (so_order order) (pb_space_state b) (pb_discard_txs b)
                        (pb_combined_refunds b) in
  match exec_result with
  | Err e => ret (Err (ExecutionError_OrderError e))
  | Ok ok =>
      let inplace := create_sim_value (so_order order) ok
                       {| detector_txs := ctx_mempool_txs ctx |} in
      match result_filter inplace with
      | Ok _ => ret (Ok (ok, inplace))
      | Err e => let* _ := rollback point in ret (Err e)
      end
  end.

Definition pb_commit_order_inner (order : SimulatedOrder)
    (result_filter : SimValue -> result unit ExecutionError)
  : M Block (result ExecutionResult ExecutionError) :=
  let* b := gets bl_block in
  let* res := run_fork true (commit_and_filter order b result_filter) in
  match res with
  | Err e => ret (Err e)
  | Ok (ok, inplace) =>
      let* _ := update_block (fun b => use_order b ok) in
      ret (Ok {| er_coinbase_profit := oo_coinbase_profit ok; er_inplace_sim := inplace;
                 er_space_used := oo_space_used ok; er_order := so_order order;
                 er_tx_infos := oo_tx_infos ok; er_original_order_ids := oo_original_order_ids ok;
                 er_nonces_updated := oo_nonces_updated ok;
                 er_paid_kickbacks := oo_paid_kickbacks ok;
                 er_delayed_kickback := oo_delayed_kickback ok |})
  end.

Definition pb_commit_order (order : SimulatedOrder)
    (result_filter : SimValue -> result unit ExecutionError)
  : M Block (result ExecutionResult ExecutionError) := fun s =>
  let log es s := Build_Building (log_block_event (bl_block s) es) (bl_world s) (bl_cache s) in
  let '(s, res) := pb_commit_order_inner order result_filter (log [OrderAboutToExecute order] s) in
  (log [OrderExecuted order res] s, res).

(** ** Payment of the refunds and of the proposer *)
Definition get_proposer_payout_tx_value (b : PartialBlock) (gas_limit : U64)
  : result U256 InsertPayoutTxErr :=
  ok_or (profit ← checked_sub (pb_coinbase_profit b) (u256_mul gas_limit (ctx_basefee ctx));
         checked_sub profit (ctx_mev_blocker_price ctx)) ProfitTooLow.

(** [?] where a critical error is an error value. *)
Definition catch {A} (m : M Block A) : M Block (result A InsertPayoutTxErr) := fun s =>
  match m s with
  | (s, Done a) => (s, Done (Ok a))
  | (s, Critical e) => (s, Done (Err (Payout_CriticalCommitError e)))
  | (s, Panic) => (s, Panic)
  end.

(** Signs a payment and commits it; one that reverts is the error [reverted]. *)
Definition commit_payment (nonce : U64) (to : Address) (gas_limit : U64) (value : U256)
    (reverted : InsertPayoutTxErr) : M Block (result TransactionOk InsertPayoutTxErr) :=
  match create_payout_tx ctx nonce to gas_limit value with
  | None => ret (Err Payout_SignerError)
  | Some signed =>
      match new_no_blobs 0 signed (ctx_builder_address ctx) with
      | Err _ => panic
      | Ok tx =>
          let* b := gets bl_block in
          let* r := catch (run_fork false (commit_tx ctx tx (pb_space_state b))) in
          match r with
          | Err e => ret (Err e)
          | Ok (Err e) => ret (Err (Payout_TxErr e))
          | Ok (Ok ok) =>
              if rc_success (ti_receipt (to_tx_info ok)) then ret (Ok ok) else ret (Err reverted)
          end
      end
  end.

(** The loop over [combined_refunds]; a recipient with code is skipped. *)
Fixpoint insert_refunds (refunds : list (Address * U256)) (nonce : U64)
  : M Block (result U64 InsertPayoutTxErr) :=
  match refunds with
  | [] => ret (Ok nonce)
  | (recipient, amount) :: refunds =>
      let* code := gets (fun s => state_code_hash (bl_world s) recipient) in
      match code with
      | Err _ => ret (Err (Payout_CriticalCommitError Critical_Reth))
      | Ok hash =>
          if decide (hash <> KECCAK_EMPTY) then insert_refunds refunds nonce
          else
            let* r := commit_payment nonce recipient BASE_TX_GAS amount CombinedRefundTxReverted in
            match r with
            | Err e => ret (Err e)
            | Ok ok =>
                let* _ := update_block (fun b => push_executed b ok) in
                insert_refunds refunds (u64_add nonce 1)
            end
      end
  end.

Definition refund_entries (refunds : gmap Address U256) : list (Address * U256) :=
  (fun a => (a, default 0 (refunds !! a))) <$> hash_order (dom refunds).

(** Returns the updated [finalize_revert_state]. *)
Definition insert_refunds_and_proposer_payout_tx (gas_limit : U64) (value : U256)
    (adjust_finalized_block : bool) (revert : FinalizeRevertStateCurrentIteration)
  : M Block (result FinalizeRevertStateCurrentIteration InsertPayoutTxErr) :=
  let* _ := update_block pb_free_reserved_block_space in
  let* nonce := gets (fun s => state_nonce (bl_world s) (ctx_builder_address ctx)) in
  match nonce with
  | Err _ => ret (Err (Payout_CriticalCommitError Critical_Reth))
  | Ok nonce =>
      let* refunds := gets (fun s => refund_entries (pb_combined_refunds (bl_block s))) in
      let* r := if adjust_finalized_block then ret (Ok nonce) else insert_refunds refunds nonce in
      match r with
      | Err e => ret (Err e)
      | Ok nonce =>
          let* r := commit_payment nonce (ctx_suggested_fee_recipient ctx) gas_limit value
                      PayoutTxReverted in
          match r with
          | Err e => ret (Err e)
          | Ok ok =>
              let* _ := update_block (fun b => push_executed b ok) in
              ret (Ok {| last_tx_block_space := ti_space_used (to_tx_info ok);
                         state_reverts := S (state_reverts revert) |})
          end
      end
  end.

(** [pop] of the last transaction, and of the undo log; freeing more space than
    was used panics. *)
Definition adjust_finalize_block_revert_to_prefinalized_state
    (revert_state : FinalizeRevertStateCurrentIteration) : M Block unit := fun s =>
  match free_used_state (pb_space_state (bl_block s)) (last_tx_block_space revert_state) with
  | None => (s, Panic)
  | Some space =>
      let b := set_space_state (bl_block s) space in
      let b := set_executed_tx_infos b (take (pred (length (pb_executed_tx_infos b)))
                                          (pb_executed_tx_infos b)) in
      (Build_Building b (revert (bl_world s) (state_reverts revert_state)) (bl_cache s), Done tt)
  end.

End block.
