(* ===== verification/SimTree.v ===== *)
(** * The tree of simulations (building/sim.rs, utils/noncer.rs)

    An order is simulated on the state of the parent block once its nonces are
    reached there or by orders already simulated, which then run before it as
    its parents.  [SimTree] keeps the orders that wait and hands out the
    requests; [simulate_order] runs one request on a fork. *)

From S2P Require Import Prelude Transactions Bundles Orders SimTypes OrderSinks World CommitMonad OrderCommit PartialBlock.

(** ** Nonces of the parent block

    The provider may fail at any call; the cache keeps what it answered.  The
    argument counts the calls. *)
Class NonceProvider := account_nonce : nat -> Address -> result (option U64) unit.

Record NonceCache := { nc_calls : nat; nc_cache : gmap Address U64 }.

Definition NonceCache_new : NonceCache := {| nc_calls := 0; nc_cache := ∅ |}.

Definition cached_nonce `{NonceProvider} (c : NonceCache) (a : Address) : NonceCache * result U64 unit :=
  match nc_cache c !! a with
  | Some n => (c, Ok n)
  | None =>
      match account_nonce (nc_calls c) a with
      | Err e => ({| nc_calls := S (nc_calls c); nc_cache := nc_cache c |}, Err e)
      | Ok o =>
          let n := default 0 o in
          ({| nc_calls := S (nc_calls c); nc_cache := <[a := n]> (nc_cache c) |}, Ok n)
      end
  end.

(** ** Data *)
Record NonceKey := { nk_address : Address; nk_nonce : U64 }.

#[export] Instance NonceKey_eq_dec : EqDecision NonceKey.
Proof. solve_decision. Defined.
#[export] Program Instance NonceKey_countable : Countable NonceKey :=
  inj_countable' (fun k => (nk_address k, nk_nonce k))
    (fun p => {| nk_address := p.1; nk_nonce := p.2 |}) _.
Next Obligation. by intros []. Qed.

Record PendingOrder := { pd_order : Order; pd_unsatisfied_nonces : U64 }.

Definition SimulationId := U64.

Record SimulationRequest := {
  rq_id : SimulationId;
  rq_order : Order;
  rq_parents : list Order;
}.

Record SimulatedResult := {
  sm_id : SimulationId;
  sm_simulated_order : SimulatedOrder;
  sm_previous_orders : list Order;
  sm_nonces_after : list NonceKey;
  sm_simulation_time : Z;
}.

Inductive OrderNonceState :=
| Nonce_Invalid
| Nonce_Pending (nonces : list NonceKey)
| Nonce_Ready (parents : list Order).

(** What the code logs as a bug of its own. *)
Inductive SimTreeBug := Bug_OrderNotFound | Bug_BecameInvalid | Bug_PendingAgain.

(** The state of the tree, with the number of random ids drawn and the bugs logged. *)
Record SimTree := {
  st_nonces : NonceCache;
  st_sims : gmap SimulationId SimulatedResult;
  st_sims_that_update_one_nonce : gmap NonceKey SimulationId;
  st_pending_orders : gmap OrderId PendingOrder;
  st_pending_nonces : gmap NonceKey (list OrderId);
  st_ready_orders : list SimulationRequest;
  st_drawn : nat;
  st_bugs : list SimTreeBug;
}.

Definition SimTree_new (nonce_cache_ref : NonceCache) : SimTree :=
  {| st_nonces := nonce_cache_ref; st_sims := ∅; st_sims_that_update_one_nonce := ∅;
     st_pending_orders := ∅; st_pending_nonces := ∅; st_ready_orders := []; st_drawn := 0;
     st_bugs := [] |}.

(** [rand::random]: the n-th id drawn. *)
Class RandomIds := random_id : nat -> SimulationId.

Definition with_nonces (t : SimTree) (c : NonceCache) : SimTree :=
  {| st_nonces := c; st_sims := st_sims t;
     st_sims_that_update_one_nonce := st_sims_that_update_one_nonce t;
     st_pending_orders := st_pending_orders t; st_pending_nonces := st_pending_nonces t;
     st_ready_orders := st_ready_orders t; st_drawn := st_drawn t; st_bugs := st_bugs t |}.

Definition log_bug (t : SimTree) (b : SimTreeBug) : SimTree :=
  {| st_nonces := st_nonces t; st_sims := st_sims t;
     st_sims_that_update_one_nonce := st_sims_that_update_one_nonce t;
     st_pending_orders := st_pending_orders t; st_pending_nonces := st_pending_nonces t;
     st_ready_orders := st_ready_orders t; st_drawn := st_drawn t; st_bugs := st_bugs t ++ [b] |}.

Definition with_pending (t : SimTree) (orders : gmap OrderId PendingOrder)
    (nonces : gmap NonceKey (list OrderId)) : SimTree :=
  {| st_nonces := st_nonces t; st_sims := st_sims t;
     st_sims_that_update_one_nonce := st_sims_that_update_one_nonce t;
     st_pending_orders := orders; st_pending_nonces := nonces;
     st_ready_orders := st_ready_orders t; st_drawn := st_drawn t; st_bugs := st_bugs t |}.

Definition with_sims (t : SimTree) (sims : gmap SimulationId SimulatedResult)
    (updates : gmap NonceKey SimulationId) : SimTree :=
  {| st_nonces := st_nonces t; st_sims := sims; st_sims_that_update_one_nonce := updates;
     st_pending_orders := st_pending_orders t; st_pending_nonces := st_pending_nonces t;
     st_ready_orders := st_ready_orders t; st_drawn := st_drawn t; st_bugs := st_bugs t |}.

(** [self.ready_orders.push(SimulationRequest { id: rand::random(), .. })] *)
Definition push_ready `{RandomIds} (t : SimTree) (order : Order) (parents : list Order) : SimTree :=
  {| st_nonces := st_nonces t; st_sims := st_sims t;
     st_sims_that_update_one_nonce := st_sims_that_update_one_nonce t;
     st_pending_orders := st_pending_orders t; st_pending_nonces := st_pending_nonces t;
     st_ready_orders := st_ready_orders t
       ++ [{| rq_id := random_id (st_drawn t); rq_order := order; rq_parents := parents |}];
     st_drawn := S (st_drawn t); st_bugs := st_bugs t |}.

(** ** Operations *)
Section tree.
Context `{NonceProvider} `{RandomIds}.

(** The loop of [get_order_nonce_state] with its locals.  [None] is the panic of
    "we never delete sims". *)
Fixpoint nonce_state_loop (sims : gmap SimulationId SimulatedResult)
    (updates : gmap NonceKey SimulationId) (c : NonceCache) (nonces : list Nonce)
    (onchain_nonces_incremented : gset Address) (pending : list NonceKey) (parents : list Order)
  : option (NonceCache * result OrderNonceState unit) :=
  match nonces with
  | [] => Some (c, Ok (match pending with [] => Nonce_Ready parents | _ => Nonce_Pending pending end))
  | n :: nonces =>
      let a := nonce_address n in
      match cached_nonce c a with
      | (c, Err e) => Some (c, Err e)
      | (c, Ok onchain_nonce) =>
          match onchain_nonce ?= nonce_nonce n with
          | Eq => nonce_state_loop sims updates c nonces ({[a]} ∪ onchain_nonces_incremented)
                    pending parents
          | Gt =>
              if nonce_optional n
              then nonce_state_loop sims updates c nonces onchain_nonces_incremented pending parents
              else Some (c, Ok Nonce_Invalid)
          | Lt =>
              if decide (a ∈ onchain_nonces_incremented)
              then nonce_state_loop sims updates c nonces onchain_nonces_incremented pending parents
              else
                let incremented := {[a]} ∪ onchain_nonces_incremented in
                let nonce_key := {| nk_address := a; nk_nonce := nonce_nonce n |} in
                match updates !! nonce_key with
                | Some sim_id =>
                    let! sim := sims !! sim_id in
                    nonce_state_loop sims updates c nonces incremented pending
                      (parents ++ sm_previous_orders sim ++ [so_order (sm_simulated_order sim)])
                | None =>
                    nonce_state_loop sims updates c nonces incremented (pending ++ [nonce_key]) parents
                end
          end
      end
  end.

Definition get_order_nonce_state (t : SimTree) (order : Order)
  : option (SimTree * result OrderNonceState unit) :=
  let! (c, r) := nonce_state_loop (st_sims t) (st_sims_that_update_one_nonce t) (st_nonces t)
                   (Order_nonces order) ∅ [] [] in
  Some (with_nonces t c, r).

(** [entry(nonce).or_default().push(id)] *)
Definition push_pending_nonce (id : OrderId) (m : gmap NonceKey (list OrderId)) (k : NonceKey)
  : gmap NonceKey (list OrderId) :=
  <[k := default [] (m !! k) ++ [id]]> m.

Definition push_order (t : SimTree) (order : Order) : option (SimTree * result unit unit) :=
  if decide (is_Some (st_pending_orders t !! Order_id order)) then Some (t, Ok tt)
  else
    let! (t, r) := get_order_nonce_state t order in
    match r with
    | Err e => Some (t, Err e)
    | Ok Nonce_Invalid => Some (t, Ok tt)
    | Ok (Nonce_Pending pending_nonces) =>
        Some (with_pending t
                (<[Order_id order := {| pd_order := order;
                     pd_unsatisfied_nonces := Z.of_nat (length pending_nonces) |}]>
                   (st_pending_orders t))
                (foldl (push_pending_nonce (Order_id order)) (st_pending_nonces t) pending_nonces),
              Ok tt)
    | Ok (Nonce_Ready parents) => Some (push_ready t order parents, Ok tt)
    end.

Fixpoint push_orders (t : SimTree) (orders : list Order) : option (SimTree * result unit unit) :=
  match orders with
  | [] => Some (t, Ok tt)
  | order :: orders =>
      let! (t, r) := push_order t order in
      match r with Ok _ => push_orders t orders | Err e => Some (t, Err e) end
  end.

Definition pop_simulation_tasks (t : SimTree) (limit : nat) : SimTree * list SimulationRequest :=
  let limit := Nat.min limit (length (st_ready_orders t)) in
  ({| st_nonces := st_nonces t; st_sims := st_sims t;
      st_sims_that_update_one_nonce := st_sims_that_update_one_nonce t;
      st_pending_orders := st_pending_orders t; st_pending_nonces := st_pending_nonces t;
      st_ready_orders := drop limit (st_ready_orders t); st_drawn := st_drawn t;
      st_bugs := st_bugs t |},
   take limit (st_ready_orders t)).

Definition sim_profit (r : SimulatedResult) : U256 :=
  coinbase_profit (full_profit_info (so_sim_value (sm_simulated_order r))).

(** One order that waited for the nonce; the subtraction wraps. *)
Definition satisfy_pending (s : SimTree * list Order) (id : OrderId) : SimTree * list Order :=
  let '(t, orders_ready) := s in
  match st_pending_orders t !! id with
  | None => (log_bug t Bug_OrderNotFound, orders_ready)
  | Some p =>
      let unsatisfied := u64_sub (pd_unsatisfied_nonces p) 1 in
      if decide (unsatisfied = 0)
      then (with_pending t (delete id (st_pending_orders t)) (st_pending_nonces t),
            orders_ready ++ [pd_order p])
      else (with_pending t
              (<[id := {| pd_order := pd_order p; pd_unsatisfied_nonces := unsatisfied |}]>
                 (st_pending_orders t)) (st_pending_nonces t), orders_ready)
  end.

(** The first part of [process_simulation_task_result]: the result is recorded,
    and the orders that waited for the nonce it reaches are taken out. *)
Definition record_result (t : SimTree) (result : SimulatedResult) : option (SimTree * list Order) :=
  let sims := <[sm_id result := result]> (st_sims t) in
  let updates := st_sims_that_update_one_nonce t in
  match sm_nonces_after result with
  | [updated_nonce] =>
      match updates !! updated_nonce with
      | Some sim_id =>
          let! current := sims !! sim_id in
          if decide (sim_profit result > sim_profit current)
          then Some (with_sims t sims (<[updated_nonce := sm_id result]> updates), [])
          else Some (with_sims t sims updates, [])
      | None =>
          let t' := with_sims t sims (<[updated_nonce := sm_id result]> updates) in
          match st_pending_nonces t !! updated_nonce with
          | Some ids =>
              Some (foldl satisfy_pending
                      (with_pending t' (st_pending_orders t)
                         (delete updated_nonce (st_pending_nonces t)), []) ids)
          | None => Some (t', [])
          end
      end
  | _ => Some (with_sims t sims updates, [])
  end.

(** The second part: the orders taken out are requested. *)
Fixpoint request_orders (t : SimTree) (orders_ready : list Order)
  : option (SimTree * result unit unit) :=
  match orders_ready with
  | [] => Some (t, Ok tt)
  | ready_order :: orders_ready =>
      let! (t, r) := get_order_nonce_state t ready_order in
      match r with
      | Err e => Some (t, Err e)
      | Ok (Nonce_Ready parents) => request_orders (push_ready t ready_order parents) orders_ready
      | Ok Nonce_Invalid => request_orders (log_bug t Bug_BecameInvalid) orders_ready
      | Ok (Nonce_Pending _) => request_orders (log_bug t Bug_PendingAgain) orders_ready
      end
  end.

Definition process_simulation_task_result (t : SimTree) (result : SimulatedResult)
  : option (SimTree * Prelude.result unit unit) :=
  let! (t, orders_ready) := record_result t result in request_orders t orders_ready.

Fixpoint submit_simulation_tasks_results (t : SimTree) (results : list SimulatedResult)
  : option (SimTree * Prelude.result unit unit) :=
  match results with
  | [] => Some (t, Ok tt)
  | result :: results =>
      let! (t, r) := process_simulation_task_result t result in
      match r with Ok _ => submit_simulation_tasks_results t results | Err e => Some (t, Err e) end
  end.

End tree.

(** ** Simulating one order *)
Inductive OrderSimResult :=
| Sim_Success (order : SimulatedOrder) (nonces : list (Address * U64))
| Sim_Failed (e : OrderErr).

Record OrderSimResultWithGas := { sg_result : OrderSimResult; sg_gas_used : U64 }.

Section simulate.
Context {W Diff C : Type} `{ChainState W Diff} `{!TxCache W Diff C} `{PayoutSigner}.
Context `{!HashOrder Address} `{!HashOrder nat}.
Context (ctx : BlockBuildingContext).
Abbreviation Fork := (PartialBlockFork W C).

(** The loop over the parents: the space they used, or the error of the first
    that fails. *)
Fixpoint simulate_parents (parents : list Order) (space_state : BlockBuildingSpaceState)
  : M Fork (result BlockBuildingSpaceState OrderErr) :=
  match parents with
  | [] => ret (Ok space_state)
  | parent :: parents =>
      let* res := commit_order ctx parent space_state true ∅ in
      match res with
      | Ok ok => simulate_parents parents (use_space space_state (oo_space_used ok))
      | Err e => ret (Err e)
      end
  end.

Definition simulate_order_using_fork (parent_orders : list Order) (order : Order)
    (detector : MempoolTxsDetector) : M Fork OrderSimResult :=
  let* parents := simulate_parents parent_orders SpaceState_ZERO in
  match parents with
  | Err e => ret (Sim_Failed e)
  | Ok space_state =>
      let* res := commit_order ctx order space_state true ∅ in
      match res with
      | Ok ok =>
          ret (Sim_Success
                 {| so_order := order; so_sim_value := create_sim_value order ok detector;
                    so_used_state_trace := oo_used_state_trace ok |} (oo_nonces_updated ok))
      | Err e => ret (Sim_Failed e)
      end
  end.

Definition tracer_used_gas (t : option SimulationTracer) : U64 :=
  match t with
  | Some (AccumulatorSimulationTracer gas _) | Some (GasUsedSimulationTracer gas) => gas
  | _ => 0
  end.

(** A fork with its own tracer; the changes are rolled back also after a
    critical error. *)
Definition simulate_order (parent_orders : list Order) (order : Order) (w : W) (c : C) : W * C * outcome OrderSimResultWithGas :=
  let fork := PartialBlockFork_new w c
                (Some (AccumulatorSimulationTracer 0 UsedStateTrace_default)) in
  let point := fk_rollbacks fork in
  match simulate_order_using_fork parent_orders order
          {| detector_txs := ctx_mempool_txs ctx |} fork with
  | (fork, Panic) => (fk_world fork, fk_cache fork, Panic)
  | (fork, sim_res) =>
      match rollback point fork with
      | (fork, Done _) =>
          (fk_world fork, fk_cache fork,
           match sim_res with
           | Done res => Done {| sg_result := res; sg_gas_used := tracer_used_gas (fk_tracer fork) |}
           | Critical e => Critical e
           | Panic => Panic
           end)
      | (fork, _) => (fk_world fork, fk_cache fork, Panic)
      end
  end.

(** ** Simulating all orders *)
Context `{NonceProvider} `{RandomIds}.
Context (elapsed : SimulationId -> Z).

(** The results of one round of tasks, each on the state [w] of the parent block,
    with the errors of those that failed. *)
Fixpoint simulate_tasks (tasks : list SimulationRequest) (w : W) (c : C)
    (sim_results : list SimulatedResult) (sim_errors : list OrderErr)
  : outcome (C * list SimulatedResult * list OrderErr) :=
  match tasks with
  | [] => Done (c, sim_results, sim_errors)
  | task :: tasks =>
      match simulate_order (rq_parents task) (rq_order task) w c with
      | (_, _, Panic) => Panic
      | (_, _, Critical e) => Critical e
      | (_, c, Done res) =>
          match sg_result res with
          | Sim_Failed e => simulate_tasks tasks w c sim_results (sim_errors ++ [e])
          | Sim_Success sim_order nonces =>
              simulate_tasks tasks w c
                (sim_results ++
                   [{| sm_id := rq_id task; sm_simulated_order := sim_order;
                       sm_previous_orders := rq_parents task;
                       sm_nonces_after :=
                         (fun p => {| nk_address := p.1; nk_nonce := p.2 |}) <$> nonces;
                       sm_simulation_time := elapsed (rq_id task) |}])
                sim_errors
          end
      end
  end.

(** A change of the tree whose error becomes critical. *)
Definition tree_step {A} (r : option (SimTree * result unit unit))
    (k : SimTree -> option (outcome A)) : option (outcome A) :=
  match r with
  | None => Some Panic
  | Some (_, Err _) => Some (Critical Critical_Reth)
  | Some (t, Ok _) => k t
  end.

(** The loop; the orders left are those not yet inserted.  The outer [None] is
    that the fuel ran out. *)
Fixpoint simulate_all_loop (fuel : nat) (w : W) (randomize_insertion : bool) (insert_size : nat)
    (t : SimTree) (orders : list Order) (c : C) (sim_errors : list OrderErr)
  : option (outcome (SimTree * list OrderErr)) :=
  match fuel with
  | O => None
  | S fuel =>
      let inserting := randomize_insertion && negb (bool_decide (orders = [])) in
      let n := if inserting then Nat.min insert_size (length orders) else O in
      tree_step (push_orders t (take n orders)) (fun t =>
        let orders := drop n orders in
        let '(t, sim_tasks) := pop_simulation_tasks t 1000 in
        match sim_tasks with
        | [] =>
            if randomize_insertion && negb (bool_decide (orders = []))
            then simulate_all_loop fuel w randomize_insertion insert_size t orders c sim_errors
            else Some (Done (t, sim_errors))
        | _ =>
            match simulate_tasks sim_tasks w c [] sim_errors with
            | Panic => Some Panic
            | Critical e => Some (Critical e)
            | Done (c, sim_results, sim_errors) =>
                tree_step (submit_simulation_tasks_results t sim_results) (fun t =>
                  simulate_all_loop fuel w randomize_insertion insert_size t orders c sim_errors)
            end
        end)
  end.

(** [orders] are shuffled already when the insertion is randomized. *)
Definition simulate_all_orders_with_sim_tree (fuel : nat) (w : W) (c : C) (orders : list Order)
    (randomize_insertion : bool) : option (outcome (list SimulatedOrder * list OrderErr)) :=
  let random_insert_size := Nat.max (length orders / 20) 1 in
  let start := SimTree_new NonceCache_new in
  tree_step (if randomize_insertion then Some (start, Ok tt) else push_orders start orders) (fun t =>
    match simulate_all_loop fuel w randomize_insertion random_insert_size t
            orders c [] with
    | Some (Done (t, sim_errors)) =>
        Some (Done (omap (fun id => sm_simulated_order <$> (st_sims t !! id))
                      (hash_order (dom (st_sims t))), sim_errors))
    | Some (Critical e) => Some (Critical e)
    | Some Panic => Some Panic
    | None => None
    end).

End simulate.
