(* ===== verification/SimTreeInv.v ===== *)
(** * Invariant of the tree of simulations (building/sim.rs)

    What an order waits for is counted exactly: the branches that the code logs
    as bugs are unreachable, no order is lost or requested twice, and the parents
    of a request are the most profitable simulations that reach its nonces. *)

From S2P Require Import Prelude Transactions Bundles Orders SimTypes World CommitMonad OrderCommit SimTree.

(** ** The nonces an order needs from others *)

(** The keys that the chain does not reach yet; [None] if an account is not
    cached or the order cannot become valid. *)
Fixpoint required (cache : gmap Address U64) (nonces : list Nonce) (incremented : gset Address)
  : option (list NonceKey) :=
  match nonces with
  | [] => Some []
  | n :: nonces =>
      let a := nonce_address n in
      let! onchain := cache !! a in
      match onchain ?= nonce_nonce n with
      | Eq => required cache nonces ({[a]} ∪ incremented)
      | Gt => if nonce_optional n then required cache nonces incremented else None
      | Lt =>
          if decide (a ∈ incremented) then required cache nonces incremented
          else
            let! ks := required cache nonces ({[a]} ∪ incremented) in
            Some ({| nk_address := a; nk_nonce := nonce_nonce n |} :: ks)
      end
  end.

Lemma required_mono c c' ns inc ks :
  c ⊆ c' -> required c ns inc = Some ks -> required c' ns inc = Some ks.
Proof.
  intros Hc. revert inc ks. induction ns as [| n ns IH]; intros inc ks; simpl; [done |].
  destruct (c !! nonce_address n) as [on |] eqn:Hn; [| done].
  rewrite (lookup_weaken _ _ _ _ Hn Hc). destruct (on ?= _); [by apply IH | | ].
  - case_decide; [by apply IH |]. destruct (required c ns _) as [l |] eqn:Hr; [| done].
    by rewrite (IH _ _ Hr).
  - destruct (nonce_optional n); [apply IH | done].
Qed.

Lemma required_addresses c ns inc ks :
  required c ns inc = Some ks -> NoDup ks /\ (forall k, k ∈ ks -> nk_address k ∉ inc).
Proof.
  revert inc ks. induction ns as [| n ns IH]; intros inc ks; simpl.
  { intros [= <-]. split; [constructor | set_solver]. }
  destruct (c !! nonce_address n) as [on |]; [| done].
  destruct (on ?= _).
  - intros [? Hk]%IH. split; [done |]. intros k Hin. specialize (Hk k Hin). set_solver.
  - case_decide; [apply IH |]. destruct (required c ns _) as [l |] eqn:Hr; [| done].
    intros [= <-]. apply IH in Hr as [Hnd Hk]. split.
    + constructor; [| done]. intros Hin. specialize (Hk _ Hin). set_solver.
    + intros k [-> | Hin]%elem_of_cons; [done |]. specialize (Hk k Hin). set_solver.
  - destruct (nonce_optional n); [apply IH | done].
Qed.

(** With one nonce per account, every nonce is reached, past and optional, or
    required. *)
Lemma required_covers c ns inc ks :
  required c ns inc = Some ks -> NoDup (nonce_address <$> ns) ->
  (forall n, n ∈ ns -> nonce_address n ∉ inc) ->
  forall n, n ∈ ns -> exists onchain, c !! nonce_address n = Some onchain
    /\ (onchain = nonce_nonce n \/ nonce_nonce n < onchain /\ nonce_optional n = true
        \/ onchain < nonce_nonce n
           /\ {| nk_address := nonce_address n; nk_nonce := nonce_nonce n |} ∈ ks).
Proof.
  revert inc ks. induction ns as [| n ns IH]; intros inc ks Hr Hnd Hinc m Hm; [set_solver |].
  simpl in Hr, Hnd. apply NoDup_cons in Hnd as [Hn Hnd].
  assert (forall n', n' ∈ ns -> nonce_address n' <> nonce_address n) as Hne.
  { intros n' Hn' Heq. apply Hn. rewrite <- Heq. by apply (list_elem_of_fmap_2 nonce_address). }
  assert (forall n', n' ∈ ns -> nonce_address n' ∉ inc) as Hinc1 by set_solver.
  assert (forall n', n' ∈ ns -> nonce_address n' ∉ {[nonce_address n]} ∪ inc) as Hinc2.
  { intros n' Hn'. specialize (Hne n' Hn'). specialize (Hinc1 n' Hn'). set_solver. }
  destruct (c !! nonce_address n) as [on |] eqn:Hc; [| done].
  apply elem_of_cons in Hm as [-> | Hm].
  - exists on. split; [done |]. revert Hr. destruct (Z.compare_spec on (nonce_nonce n)) as [? | ? | ?].
    + by left.
    + rewrite decide_False by set_solver. destruct (required c ns _); [| done].
      intros [= <-]. right; right. split; [done | left].
    + destruct (nonce_optional n); [| done]. intros _. right; left. split; [lia | done].
  - revert Hr. destruct (on ?= _).
    + intros Hr. by apply (IH _ _ Hr).
    + rewrite decide_False by set_solver. destruct (required c ns _) as [l |] eqn:Hr; [| done].
      intros [= <-]. destruct (IH _ _ Hr Hnd Hinc2 m Hm) as (on' & Hon & Hcase). exists on'.
      split; [done |]. set_solver.
    + destruct (nonce_optional n); [| done]. intros Hr. by apply (IH _ _ Hr).
Qed.

Section inv.
Context `{NonceProvider} `{RandomIds}.

(** ** The loop over the nonces *)
Definition sims_known (sims : gmap SimulationId SimulatedResult)
    (updates : gmap NonceKey SimulationId) : Prop :=
  forall k id, updates !! k = Some id -> is_Some (sims !! id).

(** The orders that run before one that needs the key. *)
Definition sim_chain (r : SimulatedResult) : list Order :=
  sm_previous_orders r ++ [so_order (sm_simulated_order r)].
Definition chain_of (sims : gmap SimulationId SimulatedResult) (updates : gmap NonceKey SimulationId)
    (k : NonceKey) : list Order :=
  from_option sim_chain [] (updates !! k ≫= fun id => sims !! id).

Definition unfilled (updates : gmap NonceKey SimulationId) (ks : list NonceKey) : list NonceKey :=
  filter (fun k => updates !! k = None) ks.

Definition nonce_verdict (pending : list NonceKey) (parents : list Order) : OrderNonceState :=
  match pending with [] => Nonce_Ready parents | _ => Nonce_Pending pending end.

Lemma cached_nonce_grows c a c' r :
  cached_nonce c a = (c', r) ->
  nc_cache c ⊆ nc_cache c' /\ (forall n, r = Ok n -> nc_cache c' !! a = Some n).
Proof.
  unfold cached_nonce. destruct (nc_cache c !! a) as [n |] eqn:Hn.
  { intros [= <- <-]. split; [done |]. by intros ? [= <-]. }
  destruct (account_nonce _ _); intros [= <- <-]; simpl; split; try done.
  - by apply insert_subseteq.
  - intros n [= <-]. apply lookup_insert_eq.
Qed.

Lemma cached_nonce_hit c a n : nc_cache c !! a = Some n -> cached_nonce c a = (c, Ok n).
Proof. intros Hn. unfold cached_nonce. by rewrite Hn. Qed.

Lemma unfilled_cons updates k ks :
  unfilled updates (k :: ks)
  = if decide (updates !! k = None) then k :: unfilled updates ks else unfilled updates ks.
Proof. reflexivity. Qed.

(** Once the nonces are cached, the loop only depends on what is required. *)
Lemma nonce_state_loop_cached sims updates c ns inc pending parents ks :
  sims_known sims updates -> required (nc_cache c) ns inc = Some ks ->
  nonce_state_loop sims updates c ns inc pending parents
  = Some (c, Ok (nonce_verdict (pending ++ unfilled updates ks)
                   (parents ++ (ks ≫= chain_of sims updates)))).
Proof.
  intros Hk. revert inc pending parents ks. induction ns as [| n ns IH]; intros inc pending parents ks; simpl.
  { intros [= <-]. by rewrite !app_nil_r. }
  destruct (nc_cache c !! nonce_address n) as [on |] eqn:Hn; [| done].
  rewrite (cached_nonce_hit _ _ _ Hn). destruct (on ?= _).
  - apply IH.
  - case_decide; [apply IH |]. destruct (required _ ns _) as [l |] eqn:Hr; [| done]. intros [= <-].
    rewrite unfilled_cons, bind_cons. unfold chain_of at 1.
    destruct (updates !! _) as [id |] eqn:Hu; simpl.
    + destruct (Hk _ _ Hu) as [sim Hs]. rewrite Hs. simpl. rewrite (IH _ _ _ _ Hr).
      unfold sim_chain. by rewrite <- (app_assoc parents).
    + rewrite (IH _ _ _ _ Hr). by rewrite <- app_assoc.
  - destruct (nonce_optional n); [apply IH | done].
Qed.

(** Whatever it returns, the loop only adds to the cache and does not panic; the
    same question asked again gives the same answer from the cache. *)
Lemma nonce_state_loop_total sims updates c ns inc pending parents :
  sims_known sims updates ->
  exists c' r, nonce_state_loop sims updates c ns inc pending parents = Some (c', r)
    /\ nc_cache c ⊆ nc_cache c'
    /\ (forall st, r = Ok st -> st <> Nonce_Invalid -> is_Some (required (nc_cache c') ns inc))
    /\ (forall st c2, r = Ok st -> nc_cache c' ⊆ nc_cache c2 ->
          nonce_state_loop sims updates c2 ns inc pending parents = Some (c2, Ok st)).
Proof.
  intros Hk. revert c inc pending parents. induction ns as [| n ns IH]; intros c inc pending parents; simpl.
  { eexists _, _. split; [done |]. split; [done |]. split; [by eexists |]. by intros ? ? [= <-]. }
  destruct (cached_nonce c (nonce_address n)) as [c1 [on | e]] eqn:Hc;
    apply cached_nonce_grows in Hc as [Hsub Hget]; [| by eexists _, _].
  specialize (Hget on eq_refl).
  assert (forall c' c2, nc_cache c1 ⊆ nc_cache c' -> nc_cache c' ⊆ nc_cache c2 ->
    cached_nonce c2 (nonce_address n) = (c2, Ok on)) as Hhit.
  { intros c' c2 Hs1 Hs2. apply cached_nonce_hit. eapply lookup_weaken; [done |]. by etrans. }
  assert (forall inc' p' q', exists c' r, nonce_state_loop sims updates c1 ns inc' p' q' = Some (c', r)
    /\ nc_cache c ⊆ nc_cache c' /\ nc_cache c1 ⊆ nc_cache c'
    /\ nc_cache c' !! nonce_address n = Some on
    /\ (forall st, r = Ok st -> st <> Nonce_Invalid -> is_Some (required (nc_cache c') ns inc'))
    /\ (forall st c2, r = Ok st -> nc_cache c' ⊆ nc_cache c2 ->
          nonce_state_loop sims updates c2 ns inc' p' q' = Some (c2, Ok st))) as IH'.
  { intros inc' p' q'. destruct (IH c1 inc' p' q') as (c' & r & He & Hs & Hr & Ha). exists c', r.
    split_and!; try done; [by etrans |]. by eapply lookup_weaken. }
  clear IH. destruct (on ?= nonce_nonce n) eqn:Hcmp; [| case_decide as Hin |].
  - destruct (IH' ({[nonce_address n]} ∪ inc) pending parents) as (c' & r & -> & ? & ? & Hn & ? & Ha).
    eexists _, _. split; [done |]. split; [done |]. split; [by rewrite Hn, Hcmp |].
    intros st c2 Hst Hs2. rewrite (Hhit c' c2), Hcmp by done. by apply Ha.
  - destruct (IH' inc pending parents) as (c' & r & -> & ? & ? & Hn & ? & Ha).
    eexists _, _. split; [done |]. split; [done |]. split; [by rewrite Hn, Hcmp |].
    intros st c2 Hst Hs2. rewrite (Hhit c' c2), Hcmp by done. by apply Ha.
  - set (key := {| nk_address := nonce_address n; nk_nonce := nonce_nonce n |}).
    assert (exists p' q', forall c1, match updates !! key with
      | Some sim_id => let! sim := sims !! sim_id in
          nonce_state_loop sims updates c1 ns ({[nonce_address n]} ∪ inc) pending
            (parents ++ sm_previous_orders sim ++ [so_order (sm_simulated_order sim)])
      | None => nonce_state_loop sims updates c1 ns ({[nonce_address n]} ∪ inc)
          (pending ++ [key]) parents
      end = nonce_state_loop sims updates c1 ns ({[nonce_address n]} ∪ inc) p' q') as (p' & q' & Heq).
    { destruct (updates !! key) as [id |] eqn:Hu; [| by eexists _, _].
      destruct (Hk _ _ Hu) as [sim ->]. by eexists _, _. }
    destruct (IH' ({[nonce_address n]} ∪ inc) p' q') as (c' & r & He & ? & ? & Hn & Hr & Ha).
    exists c', r. rewrite Heq. split; [done |]. split; [done |]. split.
    + intros st Hst Hne. rewrite Hn, Hcmp. destruct (Hr st Hst Hne) as [ks ->]. by eexists.
    + intros st c2 Hst Hs2. rewrite (Hhit c' c2), Hcmp, Heq by done. by apply Ha.
  - destruct (nonce_optional n) eqn:Hopt.
    + destruct (IH' inc pending parents) as (c' & r & -> & ? & ? & Hn & ? & Ha).
      eexists _, _. split; [done |]. split; [done |]. split; [by rewrite Hn, Hcmp |].
      intros st c2 Hst Hs2. rewrite (Hhit c' c2), Hcmp by done. by apply Ha.
    + eexists _, _. split; [done |]. split; [done |]. split; [by intros st [= <-] |].
      intros st c2 [= <-] Hs2. by rewrite (Hhit c1 c2), Hcmp.
Qed.

(** The question for an order, on a tree that knows its simulations. *)
Definition tree_known (t : SimTree) : Prop :=
  sims_known (st_sims t) (st_sims_that_update_one_nonce t).
Definition tree_cache (t : SimTree) : gmap Address U64 := nc_cache (st_nonces t).
Definition needs (t : SimTree) (o : Order) (ks : list NonceKey) : Prop :=
  required (tree_cache t) (Order_nonces o) ∅ = Some ks.
Definition waiting (t : SimTree) (ks : list NonceKey) : list NonceKey :=
  unfilled (st_sims_that_update_one_nonce t) ks.
Definition chains (t : SimTree) (ks : list NonceKey) : list Order :=
  ks ≫= chain_of (st_sims t) (st_sims_that_update_one_nonce t).

Lemma get_order_nonce_state_spec t o :
  tree_known t ->
  exists c r, get_order_nonce_state t o = Some (with_nonces t c, r)
    /\ tree_cache t ⊆ nc_cache c
    /\ (forall st, r = Ok st -> st = Nonce_Invalid
         \/ exists ks, needs (with_nonces t c) o ks
             /\ st = nonce_verdict (waiting t ks) (chains t ks)).
Proof.
  intros Hk. unfold get_order_nonce_state.
  destruct (nonce_state_loop_total _ _ (st_nonces t) (Order_nonces o) ∅ [] [] Hk)
    as (c & r & -> & Hs & Hr & Ha).
  exists c, r. split; [done |]. split; [done |]. intros st ->.
  assert (st = Nonce_Invalid \/ st <> Nonce_Invalid) as [-> | Hne]
    by (destruct st; [by left | by right..]); [by left | right].
  destruct (Hr st eq_refl Hne) as [ks Hks]. exists ks. split; [done |].
  specialize (Ha st c eq_refl (reflexivity _)).
  rewrite (nonce_state_loop_cached _ _ _ _ _ _ _ _ Hk Hks) in Ha. by injection Ha as <-.
Qed.

Lemma get_order_nonce_state_cached t o ks :
  tree_known t -> needs t o ks ->
  get_order_nonce_state t o
  = Some (with_nonces t (st_nonces t), Ok (nonce_verdict (waiting t ks) (chains t ks))).
Proof.
  intros Hk Hn. unfold get_order_nonce_state. by rewrite (nonce_state_loop_cached _ _ _ _ _ _ _ _ Hk Hn).
Qed.

(** ** The invariant *)
Definition pn_at (t : SimTree) (k : NonceKey) : list OrderId := default [] (st_pending_nonces t !! k).

Definition owed (rem : list OrderId) (oid : OrderId) : Z := if decide (oid ∈ rem) then 1 else 0.
#[local] Arguments owed : simpl never.
Lemma owed_in rem oid : oid ∈ rem -> owed rem oid = 1.
Proof. intros. unfold owed. by rewrite decide_True. Qed.
Lemma owed_out rem oid : oid ∉ rem -> owed rem oid = 0.
Proof. intros. unfold owed. by rewrite decide_False. Qed.

(** While the orders [rem] are still to be told that a nonce they wait for was
    reached, their count is one too high. *)
Record counts (rem : list OrderId) (t : SimTree) : Prop := {
  ct_known : tree_known t;
  ct_pending oid p : st_pending_orders t !! oid = Some p ->
    Order_id (pd_order p) = oid /\ exists ks, needs t (pd_order p) ks
    /\ pd_unsatisfied_nonces p
       = Z.of_nat (length (waiting t ks)) + owed rem oid
    /\ is_u64 (pd_unsatisfied_nonces p)
    /\ (oid ∈ rem \/ waiting t ks <> [])
    /\ (forall k, oid ∈ pn_at t k <-> k ∈ waiting t ks);
  ct_rem : NoDup rem;
  ct_rem_pending oid : oid ∈ rem -> is_Some (st_pending_orders t !! oid);
  ct_listed k oid : oid ∈ pn_at t k -> is_Some (st_pending_orders t !! oid);
  ct_nodup k : NoDup (pn_at t k);
  ct_bugs : st_bugs t = [];
}.

Lemma counts_new c : counts [] (SimTree_new c).
Proof.
  split; unfold pn_at; simpl; try done; intros *; rewrite ?lookup_empty; simpl;
    rewrite ?elem_of_nil; try done; constructor.
Qed.

Lemma counts_cache rem t c : tree_cache t ⊆ nc_cache c -> counts rem t -> counts rem (with_nonces t c).
Proof.
  intros Hs [Hk Hp Hr Hrp Hl Hn Hb]. split; try done.
  intros oid p Ho. destruct (Hp oid p Ho) as (? & ks & Hks & ?). split; [done |]. exists ks.
  split; [| done]. by eapply required_mono.
Qed.

(** Handing out requests does not matter for the counts. *)
Lemma counts_ready rem t rs d :
  counts rem t ->
  counts rem {| st_nonces := st_nonces t; st_sims := st_sims t;
    st_sims_that_update_one_nonce := st_sims_that_update_one_nonce t;
    st_pending_orders := st_pending_orders t; st_pending_nonces := st_pending_nonces t;
    st_ready_orders := rs; st_drawn := d; st_bugs := st_bugs t |}.
Proof. by intros []. Qed.

Lemma push_pending_nonces_lookup id m ks k :
  NoDup ks ->
  default [] (foldl (push_pending_nonce id) m ks !! k)
  = default [] (m !! k) ++ (if decide (k ∈ ks) then [id] else []).
Proof.
  revert m. induction ks as [| k' ks IH]; intros m Hnd; simpl.
  { destruct (decide (k ∈ [])); [set_solver |]. by rewrite app_nil_r. }
  apply NoDup_cons in Hnd as [Hk Hnd]. rewrite (IH _ Hnd). unfold push_pending_nonce.
  destruct (decide (k = k')) as [-> | Hne].
  - rewrite lookup_insert_eq. simpl. destruct (decide (k' ∈ ks)); [done |].
    destruct (decide (k' ∈ k' :: ks)); [| set_solver]. by rewrite app_nil_r.
  - rewrite lookup_insert_ne by done. f_equal.
    destruct (decide (k ∈ ks)), (decide (k ∈ k' :: ks)); set_solver.
Qed.

(** Orders are held in memory: the count of their nonces is a machine word. *)
Definition order_fits (o : Order) : Prop := Z.of_nat (length (Order_nonces o)) < 2 ^ 64.

Lemma required_length c ns inc ks : required c ns inc = Some ks -> (length ks <= length ns)%nat.
Proof.
  revert inc ks. induction ns as [| n ns IH]; intros inc ks; simpl; [by intros [= <-] |].
  destruct (c !! _) as [on |]; [| done]. destruct (on ?= _).
  - intros ?%IH. lia.
  - case_decide; [intros ?%IH; lia |]. destruct (required c ns _) eqn:Hr; [| done].
    intros [= <-]. apply IH in Hr. simpl. lia.
  - destruct (nonce_optional n); [| done]. intros ?%IH. lia.
Qed.

Lemma waiting_NoDup t o ks : needs t o ks -> NoDup (waiting t ks).
Proof. intros [? _]%required_addresses. by apply NoDup_filter. Qed.

Lemma waiting_fits t o ks : needs t o ks -> order_fits o -> is_u64 (Z.of_nat (length (waiting t ks))).
Proof.
  intros Hks Hf. apply required_length in Hks. unfold order_fits in Hf.
  assert (length (waiting t ks) <= length ks)%nat by apply length_filter. unfold is_uint. lia.
Qed.

Lemma counts_push_pending t o ks :
  counts [] t -> needs t o ks -> waiting t ks <> [] -> order_fits o ->
  st_pending_orders t !! Order_id o = None ->
  counts [] (with_pending t
    (<[Order_id o := {| pd_order := o; pd_unsatisfied_nonces := Z.of_nat (length (waiting t ks)) |}]>
       (st_pending_orders t))
    (foldl (push_pending_nonce (Order_id o)) (st_pending_nonces t) (waiting t ks))).
Proof.
  intros [Hk Hp Hr Hrp Hl Hn Hb] Hks Hw Hf Hnone. pose proof (waiting_NoDup _ _ _ Hks) as Hnd.
  assert (forall k, Order_id o ∉ pn_at t k) as Hfresh.
  { intros k Hin. apply Hl in Hin as [? Hin]. by rewrite Hnone in Hin. }
  assert (forall k, pn_at (with_pending t (<[Order_id o := {| pd_order := o;
    pd_unsatisfied_nonces := Z.of_nat (length (waiting t ks)) |}]> (st_pending_orders t))
    (foldl (push_pending_nonce (Order_id o)) (st_pending_nonces t) (waiting t ks))) k
    = pn_at t k ++ (if decide (k ∈ waiting t ks) then [Order_id o] else [])) as Hat.
  { intros k. by apply push_pending_nonces_lookup. }
  split; try done; simpl.
  - intros oid p Ho. rewrite lookup_insert in Ho. case_decide as Heq.
    + injection Ho as <-. split; [done |]. exists ks. simpl. split; [done |].
      rewrite owed_out by apply not_elem_of_nil. split; [by rewrite Z.add_0_r |].
      split; [by eapply waiting_fits |]. split; [by right |]. intros k. rewrite Hat, elem_of_app.
      specialize (Hfresh k). case_decide; set_solver.
    + destruct (Hp oid p Ho) as (? & ks' & ? & ? & ? & ? & Hat'). split; [done |]. exists ks'.
      do 4 (split; [done |]). intros k. rewrite Hat, elem_of_app. change (waiting _ ks') with (waiting t ks').
      rewrite <- Hat'. case_decide; set_solver.
  - by intros oid ?%not_elem_of_nil.
  - intros k oid. rewrite Hat, elem_of_app, lookup_insert.
    destruct (decide (Order_id o = oid)); [done |].
    intros [? | Hin]; [by eapply Hl |]. case_decide; set_solver.
  - intros k. rewrite Hat. apply NoDup_app. split; [apply Hn |]. split.
    + intros x Hx Hin. case_decide; [| set_solver]. apply list_elem_of_singleton in Hin as ->.
      by apply (Hfresh k).
    + case_decide; [apply NoDup_singleton | constructor].
Qed.

Lemma nonce_verdict_cases t ks :
  (waiting t ks = [] /\ nonce_verdict (waiting t ks) (chains t ks) = Nonce_Ready (chains t ks))
  \/ (waiting t ks <> [] /\ nonce_verdict (waiting t ks) (chains t ks) = Nonce_Pending (waiting t ks)).
Proof. destruct (waiting t ks) eqn:E; [by left | right]. done. Qed.

End inv.
