(* ===== verification/SimTreeSpec.v ===== *)
(** * Properties of the tree of simulations (building/sim.rs)

    Results wake exactly the orders that waited for them; every accepted order is
    either pending or requested, once; requests come with the parents they need. *)

From S2P Require Import Prelude Transactions Bundles Orders SimTypes World CommitMonad OrderCommit OrderCommitSafe SimTree SimTreeInv.

Section spec.
Context `{NonceProvider} `{RandomIds}.

(** ** Waking the orders that waited *)
Definition complete (t : SimTree) (o : Order) : Prop := exists ks, needs t o ks /\ waiting t ks = [].

Definition pend_orders (m : gmap OrderId PendingOrder) : list Order := pd_order <$> (map_to_list m).*2.

Lemma pend_orders_insert m id p :
  m !! id = None -> pend_orders (<[id := p]> m) ≡ₚ pd_order p :: pend_orders m.
Proof. intros Hn. unfold pend_orders. by rewrite map_to_list_insert. Qed.

Lemma pend_orders_delete m id p :
  m !! id = Some p -> pend_orders m ≡ₚ pd_order p :: pend_orders (delete id m).
Proof.
  intros Hs. rewrite <- (insert_delete_id m id p Hs) at 1.
  apply pend_orders_insert. apply lookup_delete_eq.
Qed.

Lemma pend_orders_update m id p u :
  m !! id = Some p ->
  pend_orders m
  ≡ₚ pend_orders (<[id := {| pd_order := pd_order p; pd_unsatisfied_nonces := u |}]> m).
Proof.
  intros Hs. rewrite (pend_orders_delete _ _ _ Hs), <- insert_delete_eq.
  rewrite pend_orders_insert by apply lookup_delete_eq. done.
Qed.

Lemma satisfy_pending_spec id rem t ready :
  counts (id :: rem) t ->
  exists po new, satisfy_pending (t, ready) id = (with_pending t po (st_pending_nonces t), ready ++ new)
    /\ counts rem (with_pending t po (st_pending_nonces t))
    /\ pend_orders (st_pending_orders t) ≡ₚ pend_orders po ++ new
    /\ Forall (complete t) new.
Proof.
  intros [Hk Hp Hr Hrp Hl Hn Hb]. apply NoDup_cons in Hr as [Hid Hr].
  destruct (Hrp id) as [p Hs]; [left |].
  destruct (Hp id p Hs) as (Hoid & ks & Hks & Hu & Hu64 & _ & Hat).
  rewrite owed_in in Hu by left. unfold satisfy_pending. rewrite Hs.
  assert (u64_sub (pd_unsatisfied_nonces p) 1 = Z.of_nat (length (waiting t ks))) as ->.
  { unfold u64_sub, wrap. unfold is_uint in Hu64. rewrite Z.mod_small; lia. }
  assert (forall oid q, st_pending_orders t !! oid = Some q -> oid <> id ->
    Order_id (pd_order q) = oid /\ exists ks, needs t (pd_order q) ks
    /\ pd_unsatisfied_nonces q = Z.of_nat (length (waiting t ks)) + owed rem oid
    /\ is_u64 (pd_unsatisfied_nonces q)
    /\ (oid ∈ rem \/ waiting t ks <> [])
    /\ (forall k, oid ∈ pn_at t k <-> k ∈ waiting t ks)) as Hother.
  { intros oid q Hq Hne. destruct (Hp oid q Hq) as (? & ks' & ? & Hu' & ? & Hw & ?).
    split; [done |]. exists ks'. do 1 (split; [done |]). split; [| split; [done |]].
    - rewrite Hu'. f_equal. unfold owed. destruct (decide (oid ∈ id :: rem)), (decide (oid ∈ rem)); set_solver.
    - split; [| done]. destruct Hw as [[-> | ?]%elem_of_cons | ?]; [done | by left | by right]. }
  case_decide as Hz.
  - exists (delete id (st_pending_orders t)), [pd_order p].
    assert (waiting t ks = []) as Hw by (apply length_zero_iff_nil; lia).
    split; [done |]. split; [split; try done; simpl |]; [| | | split].
    + intros oid q [Hne Hq]%lookup_delete_Some. by apply Hother.
    + intros oid Hin. rewrite lookup_delete_ne by (intros ->; done). apply Hrp. by right.
    + intros k oid Hin. change (oid ∈ pn_at t k) in Hin. rewrite lookup_delete_ne; [by eapply Hl |].
      intros ->. apply Hat in Hin. rewrite Hw in Hin. by apply not_elem_of_nil in Hin.
    + rewrite (pend_orders_delete _ _ _ Hs). rewrite Permutation_app_comm. done.
    + apply Forall_singleton. by exists ks.
  - eexists _, []. rewrite app_nil_r. split; [done |].
    split; [split; try done; simpl |]; [| | | split; [| constructor]].
    + intros oid q Hq. rewrite lookup_insert in Hq. case_decide as Heq; [subst oid | by apply Hother].
      injection Hq as <-. split; [done |]. exists ks. split; [done |]. simpl.
      rewrite owed_out by done. split; [by rewrite Z.add_0_r |]. split; [unfold is_uint in *; lia |].
      split; [right; intros Hw; change (waiting t ks = []) in Hw; by rewrite Hw in Hz | done].
    + intros oid Hin. rewrite lookup_insert. case_decide; [done |]. apply Hrp. by right.
    + intros k oid Hin. change (oid ∈ pn_at t k) in Hin. rewrite lookup_insert.
      case_decide; [done |]. by eapply Hl.
    + rewrite app_nil_r. by apply pend_orders_update.
Qed.

Lemma satisfy_all_spec ids t ready :
  counts ids t ->
  exists po new, foldl satisfy_pending (t, ready) ids
      = (with_pending t po (st_pending_nonces t), ready ++ new)
    /\ counts [] (with_pending t po (st_pending_nonces t))
    /\ pend_orders (st_pending_orders t) ≡ₚ pend_orders po ++ new
    /\ Forall (complete t) new.
Proof.
  revert t ready. induction ids as [| id ids IH]; intros t ready Hc.
  { exists (st_pending_orders t), []. rewrite !app_nil_r. by destruct t. }
  destruct (satisfy_pending_spec _ _ _ ready Hc) as (po & new & Hs & Hc1 & Hp1 & Hf1).
  destruct (IH _ (ready ++ new) Hc1) as (po2 & new2 & Hs2 & Hc2 & Hp2 & Hf2).
  exists po2, (new ++ new2). cbn [foldl]. rewrite Hs, Hs2, app_assoc. split; [done |].
  split; [done |]. split.
  - rewrite Hp1. simpl in Hp2. rewrite Hp2, <- app_assoc. f_equiv. apply Permutation_app_comm.
  - apply Forall_app. split; [done |]. eapply Forall_impl; [exact Hf2 | done].
Qed.

(** Recording a result keeps the domain of the nonces that are reached, or adds
    one key. *)
Lemma counts_replace t r k :
  counts [] t -> (is_Some (st_sims_that_update_one_nonce t !! k)) ->
  counts [] (with_sims t (<[sm_id r := r]> (st_sims t))
               (<[k := sm_id r]> (st_sims_that_update_one_nonce t))).
Proof.
  intros [Hk Hp Hr Hrp Hl Hn Hb] Hs.
  assert (forall ks, waiting (with_sims t (<[sm_id r := r]> (st_sims t))
               (<[k := sm_id r]> (st_sims_that_update_one_nonce t))) ks = waiting t ks) as Hw.
  { intros ks. apply list_filter_iff. intros k'. simpl. rewrite lookup_insert.
    case_decide as Heq; [subst |]; [| done]. destruct Hs as [? ->]. done. }
  split; try done.
  - intros k' id. simpl. rewrite !lookup_insert. do 2 case_decide; try done; [congruence |]. apply Hk.
  - intros oid p Ho. destruct (Hp oid p Ho) as (? & ks & ?). split; [done |]. exists ks. by rewrite Hw.
Qed.

Lemma counts_record t r : counts [] t ->
  counts [] (with_sims t (<[sm_id r := r]> (st_sims t)) (st_sims_that_update_one_nonce t)).
Proof.
  intros [Hk Hp Hr Hrp Hl Hn Hb]. split; try done.
  intros k id Hu. simpl. rewrite lookup_insert. case_decide; [done |]. by eapply Hk.
Qed.

Lemma waiting_fill t sims k id ks :
  waiting (with_sims t sims (<[k := id]> (st_sims_that_update_one_nonce t))) ks
  = filter (fun k' => k' <> k) (waiting t ks).
Proof.
  unfold waiting, unfilled. simpl. rewrite list_filter_filter. apply list_filter_iff.
  intros k'. rewrite lookup_insert. case_decide; naive_solver.
Qed.

Lemma filter_ne_length (k : NonceKey) ks :
  NoDup ks -> Z.of_nat (length ks)
  = Z.of_nat (length (filter (fun k' => k' <> k) ks)) + (if decide (k ∈ ks) then 1 else 0).
Proof.
  induction ks as [| k' ks IH]; intros Hnd; [done |]. apply NoDup_cons in Hnd as [Hk Hnd].
  specialize (IH Hnd). rewrite filter_cons. cbn [length]. destruct (decide (k' <> k)) as [Hne | Heq].
  - cbn [length]. destruct (decide (k ∈ k' :: ks)), (decide (k ∈ ks)); try set_solver; lia.
  - apply dec_stable in Heq as ->. destruct (decide (k ∈ k :: ks)); [| set_solver].
    destruct (decide (k ∈ ks)); [done | lia].
Qed.

(** A key is reached for the first time: its orders are to be told. *)
Lemma counts_fill t r k :
  counts [] t -> st_sims_that_update_one_nonce t !! k = None ->
  counts (pn_at t k)
    (with_pending (with_sims t (<[sm_id r := r]> (st_sims t))
                     (<[k := sm_id r]> (st_sims_that_update_one_nonce t)))
       (st_pending_orders t) (delete k (st_pending_nonces t))).
Proof.
  intros [Hk Hp Hr Hrp Hl Hn Hb] Hnone. set (t' := with_pending _ _ _).
  assert (forall k', pn_at t' k' = if decide (k = k') then [] else pn_at t k') as Hat'.
  { intros k'. unfold pn_at. simpl. rewrite lookup_delete. by case_decide. }
  assert (forall ks, waiting t' ks = filter (fun k' => k' <> k) (waiting t ks)) as Hw
    by (intros; apply waiting_fill).
  split; try done.
  - intros k' id. simpl. rewrite !lookup_insert. do 2 case_decide; try done; [congruence |]. apply Hk.
  - intros oid p Ho. destruct (Hp oid p Ho) as (? & ks & Hks & Hu & ? & Hne & Hat). split; [done |].
    exists ks. split; [done |]. rewrite Hw.
    assert (pd_unsatisfied_nonces p
      = Z.of_nat (length (filter (fun k' => k' <> k) (waiting t ks))) + owed (pn_at t k) oid) as Hu'.
    { rewrite Hu, owed_out by apply not_elem_of_nil. rewrite Z.add_0_r.
      rewrite (filter_ne_length k) by (by eapply waiting_NoDup). f_equal. unfold owed.
      destruct (decide (k ∈ _)) as [Hin | Hin], (decide (oid ∈ _)) as [Hin' | Hin'];
        rewrite <- Hat in Hin; done. }
    split; [done |]. split; [done |]. split.
    + destruct (decide (oid ∈ pn_at t k)) as [| Hout]; [by left | right]. intros Hz.
      rewrite Hz, owed_out in Hu' by done. rewrite owed_out in Hu by apply not_elem_of_nil.
      destruct Hne as [?%not_elem_of_nil | Hne]; [done |]. apply Hne, length_zero_iff_nil. simpl in Hu'. lia.
    + intros k'. rewrite Hat', list_elem_of_filter, <- Hat. case_decide; [subst | ]; set_solver.
  - intros oid. apply Hl.
  - intros k' oid. rewrite Hat'. case_decide; [set_solver | apply Hl].
  - intros k'. rewrite Hat'. case_decide; [constructor | apply Hn].
Qed.

(** How a result changes which simulation reaches a nonce: the most profitable
    one is kept, the first among equals. *)
Definition updates_best (t : SimTree) (r : SimulatedResult) (t' : SimTree) : Prop :=
  st_sims t' = <[sm_id r := r]> (st_sims t) /\
  (forall k, is_Some (st_sims_that_update_one_nonce t' !! k)
     <-> is_Some (st_sims_that_update_one_nonce t !! k) \/ sm_nonces_after r = [k]) /\
  (forall k id, st_sims_that_update_one_nonce t' !! k = Some id ->
     (id = sm_id r /\ sm_nonces_after r = [k]
      /\ forall id0 r0, st_sims_that_update_one_nonce t !! k = Some id0 ->
           st_sims t' !! id0 = Some r0 -> sim_profit r0 < sim_profit r)
     \/ (st_sims_that_update_one_nonce t !! k = Some id
         /\ (sm_nonces_after r = [k] -> forall r0, st_sims t' !! id = Some r0 ->
              sim_profit r <= sim_profit r0))).

Lemma updates_best_same t r t' :
  st_sims t' = <[sm_id r := r]> (st_sims t) ->
  st_sims_that_update_one_nonce t' = st_sims_that_update_one_nonce t ->
  (forall k, sm_nonces_after r = [k] -> exists id r0,
     st_sims_that_update_one_nonce t !! k = Some id /\ st_sims t' !! id = Some r0
     /\ sim_profit r <= sim_profit r0) ->
  updates_best t r t'.
Proof.
  intros Hs Hu Hk. split; [done |]. rewrite Hu. split.
  - intros k. split; [by left |]. intros [? | (id & r0 & -> & _)%Hk]; done.
  - intros k id Hid. right. split; [done |]. intros Hr r0 Hr0.
    destruct (Hk k Hr) as (id' & r' & Hid' & Hr' & ?). by simplify_eq.
Qed.

Lemma updates_best_insert t r t' k :
  sm_nonces_after r = [k] ->
  st_sims t' = <[sm_id r := r]> (st_sims t) ->
  st_sims_that_update_one_nonce t' = <[k := sm_id r]> (st_sims_that_update_one_nonce t) ->
  (forall id r0, st_sims_that_update_one_nonce t !! k = Some id -> st_sims t' !! id = Some r0 ->
     sim_profit r0 < sim_profit r) ->
  updates_best t r t'.
Proof.
  intros Hk Hs Hu Hb. split; [done |]. rewrite Hu, Hk. split; intros k'; rewrite lookup_insert; case_decide.
  - subst. split; [by right | done].
  - split; [by left |]. intros [? | [= ?]]; done.
  - subst. intros id [= <-]. left. split; [done |]. split; [done |]. intros id0 r0. apply Hb.
  - intros id Hid. right. split; [done |]. by intros [= ?].
Qed.

Lemma record_result_spec t r :
  counts [] t ->
  exists t1 new, record_result t r = Some (t1, new)
    /\ counts [] t1 /\ updates_best t r t1
    /\ pend_orders (st_pending_orders t) ≡ₚ pend_orders (st_pending_orders t1) ++ new
    /\ Forall (complete t1) new
    /\ st_ready_orders t1 = st_ready_orders t /\ st_nonces t1 = st_nonces t.
Proof.
  intros Hc. unfold record_result.
  assert (forall u, updates_best t r (with_sims t (<[sm_id r := r]> (st_sims t)) u) ->
    counts [] (with_sims t (<[sm_id r := r]> (st_sims t)) u) ->
    exists t1 new, Some (with_sims t (<[sm_id r := r]> (st_sims t)) u, []) = Some (t1, new)
    /\ counts [] t1 /\ updates_best t r t1
    /\ pend_orders (st_pending_orders t) ≡ₚ pend_orders (st_pending_orders t1) ++ new
    /\ Forall (complete t1) new
    /\ st_ready_orders t1 = st_ready_orders t /\ st_nonces t1 = st_nonces t) as Hplain.
  { intros u Hu Hcu. eexists _, []. split; [done |]. by rewrite app_nil_r. }
  destruct (sm_nonces_after r) as [| k [| k2 l]] eqn:Hk.
  1, 3: apply Hplain; [| by apply counts_record]; apply updates_best_same; [done.. |];
    intros k'; by rewrite Hk.
  destruct (st_sims_that_update_one_nonce t !! k) as [id |] eqn:Hu.
  - assert (is_Some (<[sm_id r := r]> (st_sims t) !! id)) as [cur Hcur].
    { rewrite lookup_insert. case_decide; [done |]. by apply (ct_known _ _ Hc _ _ Hu). }
    rewrite Hcur. case_decide as Hgt; apply Hplain.
    + apply updates_best_insert with (k := k); [done.. |]. simpl. intros id' r0. rewrite Hu.
      intros [= <-]. rewrite Hcur. intros [= <-]. lia.
    + by apply counts_replace.
    + apply updates_best_same; [done.. |]. rewrite Hk. intros k' [= <-]. exists id, cur.
      split; [done |]. split; [done | lia].
    + by apply counts_record.
  - pose proof (counts_fill t r k Hc Hu) as Hf.
    destruct (satisfy_all_spec _ _ [] Hf) as (po & new & Hs & Hc1 & Hp & Hn).
    assert (match st_pending_nonces t !! k with
      | Some ids => Some (foldl satisfy_pending
          (with_pending (with_sims t (<[sm_id r := r]> (st_sims t))
             (<[k := sm_id r]> (st_sims_that_update_one_nonce t))) (st_pending_orders t)
             (delete k (st_pending_nonces t)), []) ids)
      | None => Some (with_sims t (<[sm_id r := r]> (st_sims t))
             (<[k := sm_id r]> (st_sims_that_update_one_nonce t)), [])
      end = Some (foldl satisfy_pending
          (with_pending (with_sims t (<[sm_id r := r]> (st_sims t))
             (<[k := sm_id r]> (st_sims_that_update_one_nonce t))) (st_pending_orders t)
             (delete k (st_pending_nonces t)), []) (pn_at t k))) as ->.
    { unfold pn_at. destruct (st_pending_nonces t !! k) eqn:Hpn; [done |]. simpl.
      by rewrite delete_id. }
    rewrite Hs. eexists _, _. split; [done |]. split; [done |]. split.
    { apply updates_best_insert with (k := k); [done.. |]. intros id r0. by rewrite Hu. }
    done.
Qed.

(** Requests for orders whose nonces are reached. *)
Definition request_ok (t : SimTree) (q : SimulationRequest) : Prop :=
  exists ks, needs t (rq_order q) ks /\ waiting t ks = [] /\ rq_parents q = chains t ks.

Definition with_ready (t : SimTree) (rs : list SimulationRequest) (d : nat) : SimTree :=
  {| st_nonces := st_nonces t; st_sims := st_sims t;
     st_sims_that_update_one_nonce := st_sims_that_update_one_nonce t;
     st_pending_orders := st_pending_orders t; st_pending_nonces := st_pending_nonces t;
     st_ready_orders := rs; st_drawn := d; st_bugs := st_bugs t |}.

Lemma request_orders_spec t l :
  counts [] t -> Forall (complete t) l ->
  exists d reqs, request_orders t l = Some (with_ready t (st_ready_orders t ++ reqs) d, Ok tt)
    /\ rq_order <$> reqs = l /\ Forall (request_ok t) reqs.
Proof.
  revert t. induction l as [| o l IH]; intros t Hc Hl.
  { exists (st_drawn t), []. rewrite app_nil_r. by destruct t. }
  apply Forall_cons in Hl as [(ks & Hks & Hw) Hl]. simpl.
  rewrite (get_order_nonce_state_cached _ _ _ (ct_known _ _ Hc) Hks), Hw. simpl.
  set (t1 := push_ready _ _ _).
  destruct (IH t1) as (d & reqs & -> & Ho & Hr); [exact (counts_ready [] t _ _ Hc) | done |].
  exists d, ({| rq_id := random_id (st_drawn t); rq_order := o; rq_parents := chains t ks |} :: reqs).
  split; [| split].
  - unfold with_ready, t1, push_ready, with_nonces. simpl. by rewrite <- app_assoc.
  - csimpl. by rewrite Ho.
  - constructor; [by exists ks | done].
Qed.

Lemma process_result_spec t r :
  counts [] t ->
  exists t' reqs, process_simulation_task_result t r = Some (t', Ok tt)
    /\ counts [] t' /\ updates_best t r t' /\ st_nonces t' = st_nonces t
    /\ pend_orders (st_pending_orders t)
       ≡ₚ pend_orders (st_pending_orders t') ++ (rq_order <$> reqs)
    /\ st_ready_orders t' = st_ready_orders t ++ reqs /\ Forall (request_ok t') reqs.
Proof.
  intros Hc. unfold process_simulation_task_result.
  destruct (record_result_spec t r Hc) as (t1 & new & -> & Hc1 & Hu & Hp & Hn & Hr & Hno).
  destruct (request_orders_spec t1 new Hc1 Hn) as (d & reqs & -> & Ho & Hrq).
  eexists _, reqs. split; [done |]. split; [by apply counts_ready |]. rewrite Ho, <- Hr. done.
Qed.

(** ** Reachable trees

    With the orders that were accepted, the requests handed out and the results
    submitted so far. *)
Definition accepts (t : SimTree) (o : Order) : bool :=
  if decide (is_Some (st_pending_orders t !! Order_id o)) then false
  else match get_order_nonce_state t o with
       | Some (_, Ok (Nonce_Pending _)) | Some (_, Ok (Nonce_Ready _)) => true
       | _ => false
       end.

Inductive tree_reach
  : list Order -> list SimulationRequest -> list SimulatedResult -> SimTree -> Prop :=
| reach_new c : tree_reach [] [] [] (SimTree_new c)
| reach_push acc handed results t o t' r :
    tree_reach acc handed results t -> order_fits o -> push_order t o = Some (t', r) ->
    tree_reach (acc ++ (if accepts t o then [o] else [])) handed results t'
| reach_pop acc handed results t limit :
    tree_reach acc handed results t ->
    tree_reach acc (handed ++ (pop_simulation_tasks t limit).2) results
      (pop_simulation_tasks t limit).1
| reach_result acc handed results t r t' res :
    tree_reach acc handed results t -> process_simulation_task_result t r = Some (t', res) ->
    tree_reach acc handed (results ++ [r]) t'.

(** What pushing an order does to the requests and the pending orders. *)
Lemma push_order_spec t o t' r :
  counts [] t -> order_fits o -> push_order t o = Some (t', r) ->
  counts [] t' /\ tree_cache t ⊆ tree_cache t' /\ st_sims t' = st_sims t
  /\ st_sims_that_update_one_nonce t' = st_sims_that_update_one_nonce t
  /\ exists reqs, st_ready_orders t' = st_ready_orders t ++ reqs /\ Forall (request_ok t') reqs
     /\ pend_orders (st_pending_orders t') ++ (rq_order <$> reqs)
        ≡ₚ pend_orders (st_pending_orders t) ++ (if accepts t o then [o] else []).
Proof.
  intros Hc Hf. unfold push_order, accepts. case_decide as Hin.
  { intros [= <- <-]. split_and!; [done.. |]. exists []. by rewrite !app_nil_r. }
  apply eq_None_not_Some in Hin.
  destruct (get_order_nonce_state_spec t o (ct_known _ _ Hc)) as (c & st & -> & Hs & Hst).
  pose proof (counts_cache _ _ _ Hs Hc) as Hc1. set (t1 := with_nonces t c) in *.
  assert (forall r', Some (t1, r') = Some (t', r) -> t' = t1) as Heq by (by intros r' [= <- _]).
  assert (t' = t1 -> counts [] t' /\ tree_cache t ⊆ tree_cache t' /\ st_sims t' = st_sims t
    /\ st_sims_that_update_one_nonce t' = st_sims_that_update_one_nonce t
    /\ exists reqs, st_ready_orders t' = st_ready_orders t ++ reqs /\ Forall (request_ok t') reqs
     /\ pend_orders (st_pending_orders t') ++ (rq_order <$> reqs)
        ≡ₚ pend_orders (st_pending_orders t) ++ []) as Hsame.
  { intros ->. split_and!; [done.. |]. exists []. by rewrite !app_nil_r. }
  destruct st as [st | e]; [| by intros ?%Heq%Hsame].
  destruct (Hst st eq_refl) as [-> | (ks & Hks & ->)]; [by intros ?%Heq%Hsame |].
  change (waiting t ks) with (waiting t1 ks). change (chains t ks) with (chains t1 ks).
  destruct (nonce_verdict_cases t1 ks) as [[Hw ->] | [Hw ->]]; intros [= <- <-].
  - split; [exact (counts_ready _ _ _ _ Hc1) |]. split_and!; [done.. |]. eexists [_].
    split; [done |]. split; [| done]. apply Forall_singleton. by exists ks.
  - split; [by apply (counts_push_pending t1) |]. split_and!; [done.. |]. exists [].
    rewrite !app_nil_r. split; [done |]. split; [constructor |]. simpl.
    rewrite pend_orders_insert by done. apply Permutation_cons_append.
Qed.

(** ** What holds of reachable trees *)
Lemma pop_spec t limit :
  st_ready_orders t = (pop_simulation_tasks t limit).2 ++ st_ready_orders (pop_simulation_tasks t limit).1.
Proof. simpl. by rewrite take_drop. Qed.

Lemma reach_counts acc handed results t : tree_reach acc handed results t -> counts [] t.
Proof.
  induction 1 as [c | acc handed results t o t' r Hr IH Hf Hp | acc handed results t limit Hr IH
    | acc handed results t r t' res Hr IH Hp].
  - apply counts_new.
  - by eapply push_order_spec.
  - exact (counts_ready _ _ _ _ IH).
  - destruct (process_result_spec t r IH) as (t1 & reqs & Hp1 & Hc & _). by simplify_eq.
Qed.

Lemma reach_accounts acc handed results t :
  tree_reach acc handed results t ->
  acc ≡ₚ pend_orders (st_pending_orders t) ++ (rq_order <$> handed ++ st_ready_orders t).
Proof.
  induction 1 as [c | acc handed results t o t' r Hr IH Hf Hp | acc handed results t limit Hr IH
    | acc handed results t r t' res Hr IH Hp].
  - done.
  - destruct (push_order_spec t o t' r) as (_ & _ & _ & _ & reqs & -> & _ & Hperm);
      [by eapply reach_counts | done.. |].
    trans ((pend_orders (st_pending_orders t) ++ (if accepts t o then [o] else []))
             ++ (rq_order <$> handed ++ st_ready_orders t)).
    + rewrite IH. solve_Permutation.
    + rewrite <- Hperm, !fmap_app. solve_Permutation.
  - rewrite IH, (pop_spec t limit), app_assoc. done.
  - destruct (process_result_spec t r) as (t1 & reqs & Hp1 & _ & _ & _ & Hperm & Hready & _);
      [by eapply reach_counts |]. rewrite Hp in Hp1. simplify_eq.
    rewrite IH, Hperm, Hready. rewrite !fmap_app. solve_Permutation.
Qed.

Lemma reach_reached acc handed results t r k :
  tree_reach acc handed results t -> r ∈ results -> sm_nonces_after r = [k] ->
  is_Some (st_sims_that_update_one_nonce t !! k).
Proof.
  intros Hreach. revert r k. induction Hreach as [c | acc handed results t o t' r Hr IH Hf Hp
    | acc handed results t limit Hr IH | acc handed results t r t' res Hr IH Hp]; intros r' k Hin Hk.
  - by apply not_elem_of_nil in Hin.
  - destruct (push_order_spec t o t' r) as (_ & _ & _ & -> & _); [by eapply reach_counts | done.. |].
    by eapply IH.
  - by eapply IH.
  - destruct (process_result_spec t r) as (t1 & reqs & Hp1 & _ & (_ & Hu & _) & _);
      [by eapply reach_counts |]. rewrite Hp in Hp1. simplify_eq. apply Hu.
    apply elem_of_app in Hin as [Hin | ->%list_elem_of_singleton]; [left | by right]. by eapply IH.
Qed.

(** ** Parents come from results *)

(** The simulations that reach the nonces an order needs, and the request they
    give. *)
Definition reaches (results : list SimulatedResult) (k : NonceKey) (r : SimulatedResult) : Prop :=
  r ∈ results /\ sm_nonces_after r = [k].

Definition request_from (results : list SimulatedResult) (t : SimTree) (q : SimulationRequest) : Prop :=
  exists ks rs, needs t (rq_order q) ks /\ Forall2 (reaches results) ks rs
    /\ rq_parents q = rs ≫= sim_chain.

(** Each nonce that is reached is so by the best result. *)
Definition best_known (results : list SimulatedResult) (t : SimTree) : Prop :=
  forall k id, st_sims_that_update_one_nonce t !! k = Some id ->
  exists r, st_sims t !! id = Some r /\ reaches results k r /\ sm_id r = id
    /\ (forall r', reaches results k r' -> sim_profit r' <= sim_profit r).

Lemma request_from_mono results results' t t' q :
  results ⊆ results' -> tree_cache t ⊆ tree_cache t' ->
  request_from results t q -> request_from results' t' q.
Proof.
  intros Hr Hc (ks & rs & Hks & Hf & Hp). exists ks, rs. split; [by eapply required_mono |].
  split; [| done]. eapply Forall2_impl; [exact Hf |]. intros k r [? ?]. split; [by apply Hr | done].
Qed.

Lemma request_ok_from results t q : best_known results t -> request_ok t q -> request_from results t q.
Proof.
  intros Hb (ks & Hks & Hw & Hp).
  enough (exists rs, Forall2 (reaches results) ks rs /\ chains t ks = rs ≫= sim_chain)
    as (rs & ? & Heq) by (exists ks, rs; by rewrite <- Heq).
  clear Hks Hp. induction ks as [| k ks IH]; [by exists [] |].
  unfold waiting in Hw, IH. rewrite unfilled_cons in Hw. case_decide as Hk; [done |].
  destruct (IH Hw) as (rs & Hf & Heq).
  destruct (st_sims_that_update_one_nonce t !! k) as [id |] eqn:Hu; [| done].
  destruct (Hb k id Hu) as (r & Hs & Hr & _). exists (r :: rs). split; [by constructor |].
  unfold chains in *. rewrite !bind_cons, <- Heq. f_equal. unfold chain_of. by rewrite Hu; simpl; rewrite Hs.
Qed.

Lemma best_known_result results t r t' :
  best_known results t -> (forall r0 k, r0 ∈ results -> sm_nonces_after r0 = [k] ->
    is_Some (st_sims_that_update_one_nonce t !! k)) ->
  sm_id r ∉ sm_id <$> results -> updates_best t r t' -> best_known (results ++ [r]) t'.
Proof.
  intros Hb Hreached Hfresh (Hs & _ & Hu) k id Hid.
  assert (forall id0 r0, st_sims t !! id0 = Some r0 -> r0 ∈ results -> sm_id r0 = id0 ->
    st_sims t' !! id0 = Some r0) as Hkeep.
  { intros id0 r0 Hr0 Hin Heq. rewrite Hs, lookup_insert_ne; [done |]. intros Hid0. apply Hfresh.
    rewrite Hid0, <- Heq. by apply list_elem_of_fmap_2. }
  destruct (Hu k id Hid) as [(-> & Hk & Hlt) | (Hold & Hle)].
  - exists r. split; [rewrite Hs; apply lookup_insert_eq |]. split; [split; [set_solver | done] |].
    split; [done |]. intros r' [[Hin | ->%list_elem_of_singleton]%elem_of_app Hk']; [| lia].
    destruct (Hreached r' k Hin Hk') as [id0 Hid0].
    destruct (Hb k id0 Hid0) as (r0 & Hr0 & [Hin0 _] & Hid00 & Hmax).
    specialize (Hlt id0 r0 Hid0 (Hkeep _ _ Hr0 Hin0 Hid00)).
    specialize (Hmax r' (conj Hin Hk')). lia.
  - destruct (Hb k id Hold) as (r0 & Hr0 & [Hin0 Hk0] & Hid0 & Hmax). exists r0.
    specialize (Hkeep _ _ Hr0 Hin0 Hid0). split; [done |]. split; [split; [set_solver | done] |].
    split; [done |]. intros r' [[Hin | ->%list_elem_of_singleton]%elem_of_app Hk']; [by apply Hmax |].
    by apply Hle.
Qed.

Lemma reach_history acc handed results t :
  tree_reach acc handed results t -> NoDup (sm_id <$> results) ->
  best_known results t /\ Forall (request_from results t) (handed ++ st_ready_orders t).
Proof.
  induction 1 as [c | acc handed results t o t' r Hr IH Hf Hp | acc handed results t limit Hr IH
    | acc handed results t r t' res Hr IH Hp]; intros Hnd.
  - split; [| constructor]. intros k id. simpl. by rewrite lookup_empty.
  - destruct (IH Hnd) as [Hb Hq].
    destruct (push_order_spec t o t' r) as (_ & Hc & Hs & Hu & reqs & -> & Hok & _);
      [by eapply reach_counts | done.. |].
    assert (best_known results t') as Hb' by (intros k id; rewrite Hu, Hs; apply Hb).
    split; [done |]. rewrite app_assoc. apply Forall_app. split.
    + eapply Forall_impl; [exact Hq |]. intros q. by apply request_from_mono.
    + eapply Forall_impl; [exact Hok |]. intros q. by apply request_ok_from.
  - destruct (IH Hnd) as [Hb Hq]. split; [done |]. rewrite (pop_spec t limit) in Hq.
    by rewrite <- app_assoc.
  - rewrite fmap_app in Hnd. apply NoDup_app in Hnd as (Hnd & Hfresh & _).
    destruct (IH Hnd) as [Hb Hq].
    destruct (process_result_spec t r) as (t1 & reqs & Hp1 & _ & Hu & Hn & _ & Hready & Hok);
      [by eapply reach_counts |]. rewrite Hp in Hp1. simplify_eq.
    assert (best_known (results ++ [r]) t1) as Hb'.
    { eapply best_known_result; [done | | | done].
      - intros r0 k. by eapply reach_reached.
      - intros Hin. apply (Hfresh _ Hin). simpl. set_solver. }
    split; [done |]. rewrite Hready, app_assoc. apply Forall_app. split.
    + eapply Forall_impl; [exact Hq |]. intros q. apply request_from_mono; [set_solver |].
      unfold tree_cache. by rewrite Hn.
    + eapply Forall_impl; [exact Hok |]. intros q. by apply request_ok_from.
Qed.

End spec.

(** An order has one nonce per account. *)
Lemma Order_nonces_NoDup o : NoDup (nonce_address <$> Order_nonces o).
Proof.
  assert (forall l, NoDup (nonce_address <$> bundle_nonces l)) as Hb.
  { intros l. pose proof (bundle_nonces_sorted l) as Hs. induction Hs as [| a l' Hs IH Ha]; constructor.
    - intros Hin. rewrite Forall_forall in Ha. specialize (Ha a Hin). lia.
    - done. }
  destruct o; simpl; [apply Hb | apply NoDup_singleton | apply Hb].
Qed.

Lemma required_elem c ns inc ks k :
  required c ns inc = Some ks -> k ∈ ks ->
  exists n onchain, n ∈ ns /\ nonce_address n = nk_address k /\ nonce_nonce n = nk_nonce k
    /\ c !! nk_address k = Some onchain /\ onchain < nk_nonce k.
Proof.
  revert inc ks. induction ns as [| n ns IH]; intros inc ks; simpl.
  { intros [= <-] ?%not_elem_of_nil. done. }
  destruct (c !! nonce_address n) as [on |] eqn:Hc; [| done].
  assert (forall inc' ks', required c ns inc' = Some ks' -> k ∈ ks' ->
    exists n' onchain, n' ∈ n :: ns /\ nonce_address n' = nk_address k /\ nonce_nonce n' = nk_nonce k
    /\ c !! nk_address k = Some onchain /\ onchain < nk_nonce k) as IH'.
  { intros inc' ks' Hr Hk. destruct (IH _ _ Hr Hk) as (n' & oc & ? & ?). exists n', oc.
    split; [by right | done]. }
  destruct (Z.compare_spec on (nonce_nonce n)) as [? | Hlt | ?]; [apply IH' | | ].
  - case_decide; [apply IH' |]. destruct (required c ns _) as [l |] eqn:Hr; [| done]. intros [= <-].
    intros [-> | Hin]%elem_of_cons; [| by eapply IH']. exists n, on. simpl. split; [left | done].
  - destruct (nonce_optional n); [apply IH' | done].
Qed.

Section theorems.
Context `{NonceProvider} `{RandomIds}.

(** In every tree reached by pushing orders, popping requests and submitting any
    results, the branches that the code logs as bugs were never taken,
    pushing an order does not panic, and a result is processed without panic
    and without asking the provider again. *)
Theorem sim_tree_never_bugs acc handed results t :
  tree_reach acc handed results t ->
  st_bugs t = [] /\ (forall o, is_Some (push_order t o))
  /\ (forall r, exists t', process_simulation_task_result t r = Some (t', Ok tt)).
Proof.
  intros Hr%reach_counts. split; [by apply (ct_bugs [] t) |]. split.
  - intros o. unfold push_order. case_decide; [done |].
    destruct (get_order_nonce_state_spec t o (ct_known _ _ Hr)) as (c & st & -> & _).
    by destruct st as [[] |].
  - intros r. destruct (process_result_spec t r Hr) as (t' & reqs & Hp & _). by exists t'.
Qed.

(** C33. Every accepted order is exactly once pending, requested or handed out, and a
    pending order waits for a nonce that is above the one on chain and that
    no submitted result reaches: no wake-up is lost and none comes too
    early. *)
Theorem sim_tree_keeps_orders acc handed results t :
  tree_reach acc handed results t ->
  acc ≡ₚ pend_orders (st_pending_orders t) ++ (rq_order <$> handed ++ st_ready_orders t)
  /\ (forall o, o ∈ pend_orders (st_pending_orders t) ->
       exists n onchain, n ∈ Order_nonces o /\ tree_cache t !! nonce_address n = Some onchain
       /\ onchain < nonce_nonce n
       /\ (forall r, r ∈ results ->
            sm_nonces_after r <> [{| nk_address := nonce_address n; nk_nonce := nonce_nonce n |}])).
Proof.
  intros Hr. split; [by eapply reach_accounts |]. intros o Ho.
  apply list_elem_of_fmap in Ho as (p & -> & Hp). apply list_elem_of_fmap in Hp as ([oid p'] & -> & Hp).
  apply elem_of_map_to_list in Hp.
  destruct (ct_pending _ _ (reach_counts _ _ _ _ Hr) _ _ Hp) as (_ & ks & Hks & _ & _ & Hw & _).
  destruct Hw as [?%not_elem_of_nil | Hw]; [done |].
  destruct (waiting t ks) as [| k l] eqn:Hk; [done |].
  assert (k ∈ waiting t ks) as Hin by (rewrite Hk; left). apply list_elem_of_filter in Hin as [Hu Hin].
  destruct (required_elem _ _ _ _ _ Hks Hin) as (n & oc & Hn & Ha & Hnn & Hc & Hlt).
  exists n, oc. rewrite Ha, Hnn. split_and!; try done. intros r Hr' Hafter.
  destruct (reach_reached _ _ _ _ _ _ Hr Hr' Hafter) as [id Hid]. destruct k; simpl in *. congruence.
Qed.

(** When the submitted results have different ids, the parents of every request
    are the chains of submitted results, and each nonce of its order is the
    one on chain, past and optional, or reached by one of these results. *)
Theorem sim_tree_requests acc handed results t q :
  tree_reach acc handed results t -> NoDup (sm_id <$> results) -> q ∈ handed ++ st_ready_orders t ->
  exists rs, rq_parents q = rs ≫= sim_chain /\ rs ⊆ results
  /\ (forall n, n ∈ Order_nonces (rq_order q) -> exists onchain,
       tree_cache t !! nonce_address n = Some onchain
       /\ (onchain = nonce_nonce n \/ nonce_nonce n < onchain /\ nonce_optional n = true
           \/ onchain < nonce_nonce n /\ exists r, r ∈ rs
              /\ sm_nonces_after r = [{| nk_address := nonce_address n; nk_nonce := nonce_nonce n |}])).
Proof.
  intros Hr Hnd Hq. destruct (reach_history _ _ _ _ Hr Hnd) as [_ Hf]. rewrite Forall_forall in Hf.
  destruct (Hf q Hq) as (ks & rs & Hks & Hrs & ->). exists rs. split; [done |]. split.
  - intros r (i & Hi)%list_elem_of_lookup.
    destruct (Forall2_lookup_r _ _ _ _ _ Hrs Hi) as (k & _ & Hin & _). done.
  - intros n Hn.
    destruct (required_covers _ _ _ _ Hks (Order_nonces_NoDup _)) with (n := n)
      as (oc & Hc & Hcase); [set_solver | done |]. exists oc. split; [done |].
    destruct Hcase as [? | [? | [Hlt Hk]]]; [by left | by right; left | right; right].
    split; [done |]. apply list_elem_of_lookup in Hk as [i Hi].
    destruct (Forall2_lookup_l _ _ _ _ _ Hrs Hi) as (r & Hri & _ & Hafter). exists r.
    split; [by eapply list_elem_of_lookup_2 | done].
Qed.

(** The simulation that is used to reach a nonce is the most profitable of all
    submitted ones that change only this nonce. *)
Theorem sim_tree_best_parent acc handed results t k id :
  tree_reach acc handed results t -> NoDup (sm_id <$> results) ->
  st_sims_that_update_one_nonce t !! k = Some id ->
  exists r, st_sims t !! id = Some r /\ reaches results k r
  /\ (forall r', reaches results k r' -> sim_profit r' <= sim_profit r).
Proof.
  intros Hr Hnd Hk. destruct (reach_history _ _ _ _ Hr Hnd) as [Hb _].
  destruct (Hb k id Hk) as (r & ? & ? & _ & ?). by exists r.
Qed.

End theorems.
