(* ===== verification/SimulateSpec.v ===== *)
(** * Simulating orders (building/sim.rs)

    A simulation leaves the state it ran on as it was; simulating all orders
    ends, within two rounds per order and one more. *)

From S2P Require Import Prelude Transactions Bundles Orders SimTypes OrderSinks World CommitMonad OrderCommit OrderCommitSafe PartialBlock SimTree SimTreeInv SimTreeSpec.

Section simulate.
Context {W Diff C : Type} `{ChainState W Diff} `{!ChainStateOk W Diff} `{!TxCache W Diff C}.
Context `{PayoutSigner} `{!PayoutSignerOk}.
Context `{!HashOrder Address} `{!HashOrder nat}.
Context (ctx : BlockBuildingContext).

Lemma good_simulate_parents parents s : good (W := W) (C := C) (simulate_parents ctx parents s).
Proof.
  revert s. induction parents as [| o parents IH]; intros s; simpl; [apply good_ret |].
  apply good_bind; [apply good_commit_order |]. intros [ok | e]; [apply IH | apply good_ret].
Qed.

Lemma good_simulate_using_fork parents o d :
  good (W := W) (C := C) (simulate_order_using_fork ctx parents o d).
Proof.
  apply good_bind; [apply good_simulate_parents |]. intros [s | e]; [| apply good_ret].
  apply good_bind; [apply good_commit_order |]. intros [ok | e]; apply good_ret.
Qed.

Lemma simulate_order_pure parents o (w w' : W) (c c' : C) r :
  simulate_order ctx parents o w c = (w', c', r) -> r <> Panic /\ w' ≡ w.
Proof.
  unfold simulate_order. set (f0 := PartialBlockFork_new _ _ _).
  destruct (good_simulate_using_fork parents o {| detector_txs := ctx_mempool_txs ctx |} f0) as [He Hp].
  destruct (simulate_order_using_fork _ _ _ _ f0) as [f1 r1]; simpl in He, Hp.
  destruct (rollback_restores f0 f1 He) as (f2 & Hrb & Hw). rewrite Hrb.
  destruct r1; [| | done]; intros [= <- <- <-]; (split; [done | apply Hw]).
Qed.

(** Simulating an order on top of its parents never panics and leaves the state
    it ran on as it was; a success reports the profit and the nonces of the
    order executed after all its parents were. *)
Theorem simulate_order_restores parents o (w w' : W) (c c' : C) r :
  simulate_order ctx parents o w c = (w', c', r) ->
  r <> Panic /\ w' ≡ w
  /\ (forall so nonces gas, r = Done {| sg_result := Sim_Success so nonces; sg_gas_used := gas |} ->
      exists f1 s f2 ok,
        simulate_parents ctx parents SpaceState_ZERO
          (PartialBlockFork_new w c (Some (AccumulatorSimulationTracer 0 UsedStateTrace_default)))
          = (f1, Done (Ok s))
        /\ commit_order ctx o s true ∅ f1 = (f2, Done (Ok ok))
        /\ so_order so = o /\ nonces = oo_nonces_updated ok
        /\ coinbase_profit (full_profit_info (so_sim_value so)) = oo_coinbase_profit ok).
Proof.
  intros Hs. destruct (simulate_order_pure _ _ _ _ _ _ _ Hs) as [Hp Hw]. split; [done |].
  split; [done |]. intros so nonces gas ->. revert Hs. unfold simulate_order.
  set (f0 := PartialBlockFork_new _ _ _).
  destruct (simulate_order_using_fork _ _ _ _ f0) as [f1 r1] eqn:Hr.
  assert (r1 = Done (Sim_Success so nonces) ->
    exists f1 s f2 ok, simulate_parents ctx parents SpaceState_ZERO f0 = (f1, Done (Ok s))
    /\ commit_order ctx o s true ∅ f1 = (f2, Done (Ok ok))
    /\ so_order so = o /\ nonces = oo_nonces_updated ok
    /\ coinbase_profit (full_profit_info (so_sim_value so)) = oo_coinbase_profit ok) as Hdone.
  { intros ->. apply bind_Done in Hr as ([s | e] & f2 & Hpar & Hr); [| by injection Hr].
    apply bind_Done in Hr as ([ok | e] & f3 & Hco & Hr); [| by injection Hr].
    injection Hr as _ <- <-. by exists f2, s, f3, ok. }
  intros Hs. apply Hdone. destruct r1 as [res | e |]; [| by repeat case_match | done].
  by repeat (case_match; simplify_eq/=).
Qed.

(** ** All orders *)
Context `{NonceProvider} `{RandomIds}.
Context (elapsed : SimulationId -> Z).

(** The orders a tree holds. *)
Definition tree_size (t : SimTree) : nat :=
  (length (pend_orders (st_pending_orders t)) + length (st_ready_orders t))%nat.

(** Some history led to the tree. *)
Definition reachable_tree (t : SimTree) : Prop :=
  exists acc handed results, tree_reach acc handed results t.

Lemma push_order_size t o :
  reachable_tree t -> order_fits o ->
  exists t' r, push_order t o = Some (t', r) /\ reachable_tree t' /\ (tree_size t' <= S (tree_size t))%nat.
Proof.
  intros (acc & handed & results & Hr) Hf. pose proof (reach_counts _ _ _ _ Hr) as Hc.
  assert (is_Some (push_order t o)) as [[t' r] Hp].
  { unfold push_order. case_decide; [done |].
    destruct (get_order_nonce_state_spec t o (ct_known _ _ Hc)) as (c & st & -> & _).
    by destruct st as [[] |]. }
  exists t', r. split; [done |]. split; [eexists _, _, _; by eapply reach_push |].
  destruct (push_order_spec t o t' r Hc Hf Hp) as (_ & _ & _ & _ & reqs & Hready & _ & Hperm).
  apply Permutation_length in Hperm. unfold tree_size. rewrite Hready.
  rewrite !length_app, length_fmap in *. destruct (accepts t o); simpl in Hperm; lia.
Qed.

Lemma push_orders_size l t :
  reachable_tree t -> Forall order_fits l ->
  exists t' r, push_orders t l = Some (t', r) /\ reachable_tree t'
    /\ (tree_size t' <= tree_size t + length l)%nat.
Proof.
  revert t. induction l as [| o l IH]; intros t Hr Hf; simpl; [eexists _, _; split; [done |]; split; [done | lia] |].
  apply Forall_cons in Hf as [Ho Hf].
  destruct (push_order_size t o Hr Ho) as (t1 & [[] | e] & -> & Hr1 & Hs1).
  - destruct (IH t1 Hr1 Hf) as (t2 & r2 & -> & Hr2 & Hs2). exists t2, r2. split; [done |].
    split; [done | lia].
  - eexists _, _. split; [done |]. split; [done | lia].
Qed.

Lemma submit_size l t :
  reachable_tree t ->
  exists t', submit_simulation_tasks_results t l = Some (t', Ok tt) /\ reachable_tree t'
    /\ tree_size t' = tree_size t.
Proof.
  revert t. induction l as [| r l IH]; intros t Hreach; simpl; [by exists t |].
  destruct Hreach as (acc & handed & results & Hr).
  destruct (process_result_spec t r (reach_counts _ _ _ _ Hr))
    as (t1 & reqs & Hp & _ & _ & _ & Hperm & Hready & _).
  destruct (IH t1) as (t2 & Hs & Hr2 & Hsz); [eexists _, _, _; by eapply reach_result |].
  rewrite Hp. exists t2. split; [done |]. split; [done |]. rewrite Hsz.
  apply Permutation_length in Hperm. unfold tree_size. rewrite Hready.
  rewrite !length_app, length_fmap in *. lia.
Qed.

Lemma pop_size t limit :
  tree_size t = (length (pop_simulation_tasks t limit).2 + tree_size (pop_simulation_tasks t limit).1)%nat.
Proof.
  unfold tree_size. rewrite (pop_spec t limit) at 1. rewrite length_app. simpl. lia.
Qed.

Lemma simulate_tasks_no_panic tasks (w : W) (c : C) rs es :
  simulate_tasks ctx elapsed tasks w c rs es <> Panic.
Proof.
  revert c rs es. induction tasks as [| q tasks IH]; intros c rs es; simpl; [done |].
  destruct (simulate_order _ _ _ _ _) as [[w' c'] r] eqn:Hs.
  apply simulate_order_pure in Hs as [Hp _]. destruct r as [res | e |]; [| done..].
  destruct (sg_result res); apply IH.
Qed.

(** The final tree: nothing is left to simulate. *)
Definition all_simulated (r : outcome (SimTree * list OrderErr)) : Prop :=
  match r with
  | Done (t, _) => reachable_tree t /\ st_ready_orders t = []
  | Critical _ => True
  | Panic => False
  end.

Lemma simulate_all_loop_ends fuel (w : W) randomize n t orders (c : C) es :
  reachable_tree t -> Forall order_fits orders -> (0 < n)%nat ->
  ((if randomize : bool then 2 * length orders else 0) + tree_size t < fuel)%nat ->
  exists out, simulate_all_loop ctx elapsed fuel w randomize n t orders c es = Some out
    /\ all_simulated out.
Proof.
  revert t orders c es. induction fuel as [| fuel IH]; intros t orders c es Hr Hf Hn Hfuel; [lia |].
  cbn [simulate_all_loop]. set (inserting := randomize && _).
  set (k := if inserting then _ else _).
  assert (k <= length orders)%nat as Hk by (unfold k; destruct inserting; lia).
  destruct (push_orders_size (take k orders) t Hr) as (t1 & r & -> & Hr1 & Hs1);
    [by apply Forall_take |]. rewrite length_take, Nat.min_l in Hs1 by done.
  destruct r as [[] | []]; cbn [tree_step]; [| by eexists].
  pose proof (pop_size t1 1000) as Hpop.
  assert (reachable_tree (pop_simulation_tasks t1 1000).1) as Hr2.
  { destruct Hr1 as (a & h & rs & Hr1). eexists _, _, _. by apply reach_pop. }
  destruct (pop_simulation_tasks t1 1000) as [t2 tasks] eqn:Hpt. simpl in Hpop, Hr2.
  assert (Forall order_fits (drop k orders)) as Hfd by (by apply Forall_drop).
  assert (length (drop k orders) = length orders - k)%nat as Hld by apply length_drop.
  destruct tasks as [| q tasks].
  - destruct (randomize && negb (bool_decide (drop k orders = []))) eqn:Hmore.
    + apply andb_true_iff in Hmore as [-> Hmore]. apply IH; [done.. |].
      assert (orders <> []) as Hne.
      { intros Heq. clearbody k. subst orders. by rewrite drop_nil in Hmore. }
      assert (0 < k)%nat; [| rewrite Hld; cbn [length] in Hpop; lia]. unfold k, inserting.
      rewrite bool_decide_eq_false_2 by done. simpl.
      assert (length orders <> 0)%nat by (by intros ?%length_zero_iff_nil). lia.
    + eexists. split; [done |]. split; [done |].
      unfold pop_simulation_tasks in Hpt. injection Hpt as <- Htake. simpl.
      destruct (st_ready_orders t1) as [| x l]; [done |]. done.
  - destruct (simulate_tasks _ _ _ _ _ _ _) as [[[c' rs] es'] | e |] eqn:Hst; [| by eexists |].
    2: by apply simulate_tasks_no_panic in Hst.
    destruct (submit_size rs t2 Hr2) as (t3 & -> & Hr3 & Hs3). cbn [tree_step]. apply IH; [done.. |].
    cbn [length] in Hpop. destruct randomize; simpl in *; lia.
Qed.

(** C34. Simulating all orders ends without panic within two rounds per order and one
    more, whether they are inserted at once or in portions. *)
Theorem simulate_all_terminates fuel (w : W) (c : C) orders randomize :
  Forall order_fits orders -> (2 * length orders < fuel)%nat ->
  exists out, simulate_all_orders_with_sim_tree ctx elapsed fuel w c orders randomize = Some out
    /\ out <> Panic.
Proof.
  intros Hf Hfuel. unfold simulate_all_orders_with_sim_tree.
  assert (reachable_tree (SimTree_new NonceCache_new)) as Hnew by (eexists _, _, _; apply reach_new).
  assert (exists t r, (if randomize then Some (SimTree_new NonceCache_new, Ok tt)
     else push_orders (SimTree_new NonceCache_new) orders) = Some (t, r) /\ reachable_tree t
     /\ (tree_size t <= if randomize then 0 else length orders)%nat) as (t & r & -> & Hr & Hs).
  { destruct randomize; [by eexists _, _ |].
    destruct (push_orders_size orders _ Hnew Hf) as (t & r & -> & ? & ?). by exists t, r. }
  destruct r as [u | u]; cbn [tree_step]; [| by eexists].
  destruct (simulate_all_loop_ends fuel w randomize (Nat.max (length orders / 20) 1) t orders c [] Hr Hf)
    as (out & -> & Hout); [lia | destruct randomize; lia |].
  destruct out as [[t' es] | e |]; [by eexists | by eexists | done].
Qed.

End simulate.
