(* ===== verification/PartialBlockInv.v ===== *)
(** * Invariants of the block under construction (building/mod.rs)

    The space of the block is that of its transactions, the receipts are those
    of one execution in sequence, the limits hold with what is reserved, and the
    reservation pays for every combined refund. *)

From S2P Require Import Prelude Transactions Bundles Orders SimTypes World CommitMonad OrderCommit OrderCommitSafe OrderCommitSpec PartialBlock.

(** ** Sorting *)
(** A sorting survives being printed and parsed, and nothing else parses. *)
Theorem Sorting_roundtrip (s : Sorting) (t : string) :
  Sorting_from_str (Sorting_fmt s) = Some s
  /\ (Sorting_from_str t = Some s -> t = Sorting_fmt s).
Proof.
  split; [by destruct s |]. unfold Sorting_from_str. repeat case_decide; intros [= <-]; done.
Qed.

(** ** Receipts in sequence *)

(** Every receipt reports the gas used up to its transaction. *)
Definition chain (s : BlockSpace) (l : list TransactionExecutionInfo) : Prop :=
  forall l1 i l2, l = l1 ++ i :: l2 ->
    rc_cumulative_gas_used (ti_receipt i) = bs_gas (run_space s (l1 ++ [i])).

Lemma chain_nil s : chain s [].
Proof. intros [|] i l2; done. Qed.

Lemma chain_snoc s l i :
  chain s l -> rc_cumulative_gas_used (ti_receipt i) = bs_gas (run_space s (l ++ [i])) ->
  chain s (l ++ [i]).
Proof.
  intros Hc Hi l1 j l2 Hl. destruct l2 as [| k l2 _] using rev_ind.
  - apply app_inj_tail in Hl as [-> ->]. done.
  - rewrite app_comm_cons, app_assoc in Hl. apply app_inj_tail in Hl as [Hl _]. by eapply Hc.
Qed.

Lemma run_space_snoc s l i : run_space s (l ++ [i]) = BlockSpace_add (run_space s l) (ti_space_used i).
Proof. unfold run_space. by rewrite foldl_app. Qed.
Lemma run_space_app_l s l1 l2 : run_space s (l1 ++ l2) = run_space (run_space s l1) l2.
Proof. unfold run_space. by rewrite foldl_app. Qed.

(** A simulated order of proper transactions. *)
Definition proper_sim `{TxHashing} (o : SimulatedOrder) : Prop := proper_order (so_order o).

Section inv.
Context {W Diff C : Type} `{ChainState W Diff} `{!ChainStateOk W Diff} `{!TxCache W Diff C}.
Context `{PayoutSigner} `{!PayoutSignerOk}.
Context `{!HashOrder Address} `{!HashOrder nat}.
Context (ctx : BlockBuildingContext).
Context `{TxHashing} `{!SignerHashOk} `{!TxCacheOk W Diff C} `{!ExecutionOk ctx} (Hsane : sane_limits ctx).
Abbreviation Fork := (PartialBlockFork W C).
Abbreviation Block := (Building W C).

Lemma accepted_receipt reserved s i :
  accepted (C := C) ctx reserved s i ->
  rc_cumulative_gas_used (ti_receipt i) = bs_gas (BlockSpace_add s (ti_space_used i)).
Proof. intros [_ _ (out & _ & -> & ->)]. done. Qed.

(** A run continues the receipts and the space of the block. *)
Lemma tx_run_chain reserved s0 l0 s l s' :
  s = run_space s0 l0 -> chain s0 l0 -> tx_run (C := C) ctx reserved s l s' ->
  s' = run_space s0 (l0 ++ l) /\ chain s0 (l0 ++ l).
Proof.
  intros Hs Hc. induction 1 as [| l s1 i _ [IH1 IH2] Ha]; [by rewrite app_nil_r |].
  rewrite app_assoc. split; [by rewrite run_space_snoc, <- IH1 |].
  apply chain_snoc; [done |]. rewrite run_space_snoc, <- IH1. by eapply accepted_receipt.
Qed.

(** ** The invariant *)
Record block_inv (start R0 : BlockSpace) (b : PartialBlock) : Prop := {
  bi_space : ss_space_used (pb_space_state b) = run_space start (pb_executed_tx_infos b);
  bi_receipts : chain start (pb_executed_tx_infos b);
  bi_limits : within_limits ctx (pb_space_state b);
  bi_reserved : bs_gas (ss_reserved (pb_space_state b))
                = bs_gas R0 + BASE_TX_GAS * Z.of_nat (size (pb_combined_refunds b));
}.

(** Only the space, the transactions and the refunds matter. *)
Lemma block_inv_ext start R0 b b' :
  pb_space_state b' = pb_space_state b -> pb_executed_tx_infos b' = pb_executed_tx_infos b ->
  pb_combined_refunds b' = pb_combined_refunds b ->
  block_inv start R0 b -> block_inv start R0 b'.
Proof. intros Hs Ht Hr []. split; rewrite ?Hs, ?Ht, ?Hr; done. Qed.

Lemma within_limits_space_zero s :
  within_limits ctx s -> BlockSpace_add (ss_space_used s) BlockSpace_ZERO = ss_space_used s.
Proof.
  intros [Hg Hr Hb]. destruct Hsane as (? & ? & ?). unfold MAX_RLP_BLOCK_SIZE in *.
  destruct s as [[g r b] res]; unfold BlockSpace_add; simpl in *.
  by rewrite !u64_add_small, !Z.add_0_r by lia.
Qed.

(** An order whose space was checked leaves the space used in the limits. *)
Lemma order_space b start R0 ok combined :
  block_inv start R0 b -> order_spec (C := C) ctx combined (pb_space_state b) ok ->
  Forall (info_bounded ctx) (oo_tx_infos ok) ->
  let infos := pb_executed_tx_infos b ++ oo_tx_infos ok in
  BlockSpace_add (ss_space_used (pb_space_state b)) (oo_space_used ok) = run_space start infos
  /\ oo_cumulative_space_used ok = run_space start infos /\ chain start infos
  /\ within_limits ctx {| ss_space_used := oo_cumulative_space_used ok;
                          ss_reserved := ss_reserved (pb_space_state b) |}.
Proof.
  intros [Hs Hc Hl Hr] [[Hrun Hsp Hn] _] Hbd. simpl in *.
  destruct (tx_run_chain _ _ _ _ _ _ Hs Hc Hrun) as [Hcum Hch].
  split; [| split; [done | split; [done |]]].
  - rewrite Hsp, run_space_shift, within_limits_space_zero by done. by rewrite run_space_app_l, Hs.
  - refine (run_within_limits ctx _ _ _ _ Hsane _ Hrun Hbd). by destruct (pb_space_state b).
Qed.

(** Reserving room that fits. *)
Lemma reserve_within_limits s space :
  within_limits ctx s -> bs_gas space = BASE_TX_GAS -> payout_space space ->
  can_fit_tx ctx space 0 s = Ok tt ->
  within_limits ctx (reserve_block_space s space)
  /\ bs_gas (ss_reserved (reserve_block_space s space)) = bs_gas (ss_reserved s) + BASE_TX_GAS.
Proof.
  intros [Hg Hr Hb] Hgas [Hz Hrlp] Hfit. destruct Hsane as (? & ? & ?).
  apply can_fit_tx_limits in Hfit as (Hf1 & Hf2 & _). cbn in Hf1, Hf2. rewrite Hgas in Hf2.
  unfold MAX_RLP_BLOCK_SIZE, BASE_TX_GAS in *.
  rewrite (u64_add_small (bs_gas (ss_space_used s))) in Hf2 by lia.
  rewrite (u64_add_small (bs_rlp_length (ss_space_used s))) in Hf1 by lia.
  rewrite u64_add_small in Hf1, Hf2 by lia.
  unfold reserve_block_space, BlockSpace_add; cbn. rewrite Hgas.
  split; [split; cbn; rewrite ?Hgas, ?u64_add_small by lia; unfold MAX_RLP_BLOCK_SIZE; lia |].
  by rewrite u64_add_small by lia.
Qed.

Lemma reserve_nothing s :
  within_limits ctx s ->
  within_limits ctx (reserve_block_space s BlockSpace_ZERO)
  /\ bs_gas (ss_reserved (reserve_block_space s BlockSpace_ZERO)) = bs_gas (ss_reserved s).
Proof.
  intros [Hg Hr Hb]. destruct Hsane as (? & ? & ?). unfold MAX_RLP_BLOCK_SIZE in *.
  unfold reserve_block_space, BlockSpace_add; cbn.
  split; [split; cbn; rewrite ?u64_add_small by lia; unfold MAX_RLP_BLOCK_SIZE; lia |].
  rewrite u64_add_small by lia. lia.
Qed.

Lemma use_order_inv b start R0 ok :
  block_inv start R0 b ->
  order_spec (C := C) ctx (pb_combined_refunds b) (pb_space_state b) ok ->
  Forall (info_bounded ctx) (oo_tx_infos ok) -> block_inv start R0 (use_order b ok).
Proof.
  intros Hb Ho Hbd. destruct (order_space _ _ _ _ _ Hb Ho Hbd) as (Hsp & Hcum & Hch & Hlim).
  destruct Hb as [_ _ _ Hres]. destruct Ho as [_ Hk].
  unfold use_order, use_space. rewrite Hsp. rewrite Hcum in Hlim. unfold kickback_spec in Hk. simpl in Hk.
  destruct (oo_delayed_kickback ok) as [k |] eqn:Hdk; [| by split].
  destruct (dk_should_pay_in_block k) eqn:Hpay; [| by split].
  destruct (Hk k eq_refl Hpay) as [[[v Hv] ->] | (Hnone & Hgas & Hps & Hfit)].
  - destruct (reserve_nothing _ Hlim) as [Hl' Hg']. split; try done. simpl pb_space_state.
    rewrite Hg'. simpl. rewrite map_size_insert_Some by eauto. done.
  - unfold bo_space_state in Hfit. simpl in Hfit. rewrite Hcum in Hfit.
    destruct (reserve_within_limits _ _ Hlim Hgas Hps Hfit) as [Hl' Hg'].
    split; try done. simpl pb_space_state. rewrite Hg'. simpl.
    rewrite map_size_insert_None, Hres by done. lia.
Qed.

(** ** Committing an order *)
Lemma good_commit_and_filter order b fl : good (commit_and_filter ctx order b fl).
Proof.
  apply good_attempt; [apply good_commit_order |]. intros f0 f1 [ok | e] He.
  - cbv zeta. destruct (fl _); [by apply continue_with, good_ret | by apply rollback_then, good_ret].
  - by apply continue_with, good_ret.
Qed.

Lemma commit_and_filter_restores order b fl (f f' : Fork) e :
  commit_and_filter ctx order b fl f = (f', Done (Err e)) -> restored f f'.
Proof.
  intros Hc. apply bind_Done in Hc as (point & f1 & [= <- <-] & Hc).
  apply bind_Done in Hc as ([ok | e'] & f1 & Hco & Hc).
  - cbv zeta in Hc. destruct (fl _); [done |].
    destruct (good_commit_order ctx (so_order order) (pb_space_state b) (pb_discard_txs b)
                (pb_combined_refunds b) f) as [He _]. rewrite Hco in He.
    destruct (rollback_restores f f1 He) as (f2 & Hrb & Hr).
    apply bind_Done in Hc as (u & f3 & Hrb' & [= <- _]). rewrite Hrb in Hrb'. by injection Hrb' as <-.
  - injection Hc as <- _.
    eapply execute_with_rollback_restores; [apply good_commit_order_no_rollback | exact Hco].
Qed.

Lemma assures_commit_and_filter order b fl : proper_order (so_order order) ->
  assures ctx (commit_and_filter ctx order b fl)
    (on_ok (fun r => order_spec (C := C) ctx (pb_combined_refunds b) (pb_space_state b) r.1
                     /\ Forall (info_bounded ctx) (oo_tx_infos r.1))).
Proof.
  intros Hp. apply assures_skip; [by apply assures_keeps |]. intros point.
  eapply assures_bind; [by apply assures_order_spec |].
  intros [ok | e] Hok; [| by apply assures_ret].
  cbv zeta. destruct (fl _); [by apply assures_ret | apply assures_skip; [apply keeps_rollback |]; intros; by apply assures_ret].
Qed.

(** The same block but for its tracers. *)
Record same_block (b b' : PartialBlock) : Prop := {
  sb_discard : pb_discard_txs b' = pb_discard_txs b;
  sb_space : pb_space_state b' = pb_space_state b;
  sb_profit : pb_coinbase_profit b' = pb_coinbase_profit b;
  sb_infos : pb_executed_tx_infos b' = pb_executed_tx_infos b;
  sb_refunds : pb_combined_refunds b' = pb_combined_refunds b;
  sb_delayed : pb_delayed_refund b' = pb_delayed_refund b;
}.

Lemma same_block_inv start R0 b b' : same_block b b' -> block_inv start R0 b -> block_inv start R0 b'.
Proof. intros []. by apply block_inv_ext. Qed.

(** Running on a fork changes the tracers of the block and the state below it. *)
Lemma run_fork_result {A} traced (m : M Fork A) s s' r :
  run_fork traced m s = (s', r) ->
  exists f', m (PartialBlockFork_new (bl_world s) (bl_cache s) (Some (pb_tracer (bl_block s)))) = (f', r)
    /\ bl_world s' = fk_world f' /\ bl_cache s' = fk_cache f' /\ same_block (bl_block s) (bl_block s').
Proof.
  unfold run_fork. destruct (m _) as [f' r'] eqn:Hm. intros [= <- <-].
  exists f'. split; [done |]. split; [done |]. split; [done |]. by destruct traced.
Qed.

Definition order_committed (b b' : PartialBlock) (er : ExecutionResult) : Prop :=
  pb_executed_tx_infos b' = pb_executed_tx_infos b ++ er_tx_infos er
  /\ pb_coinbase_profit b' = u256_add (pb_coinbase_profit b) (er_coinbase_profit er)
  /\ ss_space_used (pb_space_state b')
     = BlockSpace_add (ss_space_used (pb_space_state b)) (er_space_used er).

Lemma use_order_committed b ok er :
  er_tx_infos er = oo_tx_infos ok -> er_coinbase_profit er = oo_coinbase_profit ok ->
  er_space_used er = oo_space_used ok -> order_committed b (use_order b ok) er.
Proof.
  intros Ht Hp Hs. unfold order_committed, use_order. rewrite Ht, Hp, Hs.
  destruct (oo_delayed_kickback ok) as [k |]; [destruct (dk_should_pay_in_block k) |]; done.
Qed.

Lemma pb_commit_order_inner_spec order fl s s' r start R0 :
  proper_order (so_order order) -> cache_sound ctx (bl_cache s) ->
  block_inv start R0 (bl_block s) -> pb_commit_order_inner ctx order fl s = (s', r) ->
  r <> Panic /\ block_inv start R0 (bl_block s') /\ cache_sound ctx (bl_cache s')
  /\ (forall e, r = Done (Err e) -> same_block (bl_block s) (bl_block s') /\ bl_world s' ≡ bl_world s)
  /\ (forall er, r = Done (Ok er) -> order_committed (bl_block s) (bl_block s') er).
Proof.
  intros Hpr Hca Hb. unfold pb_commit_order_inner, bind, gets.
  destruct (run_fork _ _ _) as [s1 r1] eqn:Hrun. apply run_fork_result in Hrun as (f' & Hf & Hw & Hca' & Hsame).
  set (f0 := PartialBlockFork_new _ _ _) in Hf.
  destruct (good_commit_and_filter order (bl_block s) fl f0) as [_ Hp]. rewrite Hf in Hp.
  pose proof (same_block_inv _ _ _ _ Hsame Hb) as Hb1.
  destruct (assures_run ctx _ _ f0 _ _ (assures_commit_and_filter order (bl_block s) fl Hpr) Hca Hf) as [Hcs HQ].
  rewrite <- Hca' in Hcs.
  destruct r1 as [[[ok sim] | e] | e |]; [| | | done].
  - intros [= <- <-]. destruct (HQ _ eq_refl) as [Hok Hbd].
    simpl in Hok. split; [done |]. split; [| split; [done | split; [done |]]].
    + simpl. destruct Hsame as [? Hsp ? ? Hrf ?]. apply use_order_inv; [done | | done]. by rewrite Hsp, Hrf.
    + intros er [= <-]. destruct Hsame as [? Hsp Hpr' Hin Hrf ?].
      unfold order_committed. rewrite <- Hsp, <- Hpr', <- Hin. by apply use_order_committed.
  - intros [= <- <-]. split; [done |]. split; [done |]. split; [done |]. split; [| done]. intros e' _.
    split; [done |]. rewrite Hw. apply (commit_and_filter_restores _ _ _ _ _ _ Hf).
  - intros [= <- <-]. done.
Qed.

Lemma pb_commit_order_spec order fl s s' r start R0 :
  proper_order (so_order order) -> cache_sound ctx (bl_cache s) ->
  block_inv start R0 (bl_block s) -> pb_commit_order ctx order fl s = (s', r) ->
  r <> Panic /\ block_inv start R0 (bl_block s') /\ cache_sound ctx (bl_cache s')
  /\ (forall e, r = Done (Err e) -> same_block (bl_block s) (bl_block s') /\ bl_world s' ≡ bl_world s)
  /\ (forall er, r = Done (Ok er) -> order_committed (bl_block s) (bl_block s') er).
Proof.
  intros Hpr Hca Hb. unfold pb_commit_order. destruct (pb_commit_order_inner _ _ _ _) as [s1 r1] eqn:Hc.
  intros [= <- <-]. apply (pb_commit_order_inner_spec _ _ _ _ _ start R0) in Hc as (Hp & Hi & Hcs & He & Ho); [| done | done |].
  2: { by eapply block_inv_ext; [.. | exact Hb]. }
  split; [done |]. split; [by eapply block_inv_ext; [.. | exact Hi] |]. split; [done |]. split.
  - intros e Hr. destruct (He e Hr) as [[] Hw]. by split.
  - intros er Hr. exact (Ho er Hr).
Qed.

(** C2. Committing an order to the block under construction never panics and
    preserves the block invariant: the space used is that of the executed
    transactions, every receipt reports the gas used up to its transaction,
    the gas, size and blob limits hold together with what is reserved, and
    the reserved gas pays for the payout and one payment per combined
    refund. A refused order leaves the block and its state unchanged, an
    accepted one adds exactly its transactions, profit and space; the cache
    of executions stays sound. Conditions: the limits of the block are far
    below 2^64, transactions are identified by their hashes with encodings
    and blobs far below 2^64, the interpreter uses at most the gas limit of
    a transaction, which is within that of the block, and the cache of
    executions, which may answer, is sound: what it holds was reported by
    executing the transaction with that hash. *)
Theorem block_commit_order order fl s s' r start R0 :
  proper_order (so_order order) -> cache_sound ctx (bl_cache s) ->
  block_inv start R0 (bl_block s) -> pb_commit_order ctx order fl s = (s', r) ->
  r <> Panic /\ block_inv start R0 (bl_block s') /\ cache_sound ctx (bl_cache s')
  /\ (forall e, r = Done (Err e) -> same_block (bl_block s) (bl_block s') /\ bl_world s' ≡ bl_world s)
  /\ (forall er, r = Done (Ok er) -> order_committed (bl_block s) (bl_block s') er).
Proof. apply pb_commit_order_spec. Qed.

(** ** Payments at the end of the block *)

(** Nothing is reserved any more, and [g] units of gas are free. *)
Record gas_room (b : PartialBlock) (g : Z) : Prop := {
  gr_reserved : ss_reserved (pb_space_state b) = BlockSpace_ZERO;
  gr_used : 0 <= bs_gas (ss_space_used (pb_space_state b));
  gr_free : bs_gas (ss_space_used (pb_space_state b)) + g <= ctx_gas_available ctx;
}.

Definition no_gas_left {A} (r : outcome (result A InsertPayoutTxErr)) : Prop :=
  r <> Panic /\ r <> Done (Err (Payout_TxErr TxErr_GasLeft)).

Lemma room_fits b gas_limit rlp blob blob_gas g :
  0 <= gas_limit -> 0 <= g -> gas_room b (gas_limit + g) ->
  can_fit_tx ctx (BlockSpace_new gas_limit rlp blob) blob_gas (pb_space_state b) <> Err TxErr_GasLeft.
Proof.
  intros Hgl Hg [Hr Hu Hf]. destruct Hsane as (? & ? & _). unfold can_fit_tx, total_consumed_space.
  rewrite Hr. case_decide; [done |]. simpl. rewrite (u64_add_small _ 0) by lia.
  rewrite u64_add_small by lia. rewrite decide_False by lia. by case_decide.
Qed.

Lemma commit_payment_room nonce to gas_limit value reverted s s' r g :
  0 <= gas_limit -> 0 <= g -> reverted <> Payout_TxErr TxErr_GasLeft ->
  gas_room (bl_block s) (gas_limit + g) -> cache_sound ctx (bl_cache s) ->
  commit_payment ctx nonce to gas_limit value reverted s = (s', r) ->
  no_gas_left r /\ same_block (bl_block s) (bl_block s') /\ cache_sound ctx (bl_cache s')
  /\ (forall ok, r = Done (Ok ok) -> gas_room (push_executed (bl_block s') ok) g).
Proof.
  intros Hgl Hg Hrev Hroom Hca. unfold commit_payment.
  destruct (create_payout_tx _ _ _ _ _) as [signed |] eqn:Hs; [| by intros [= <- <-]].
  pose proof (fun tx => payout_proper ctx _ _ _ _ _ (ctx_builder_address ctx) tx Hs) as Hproper.
  unfold create_payout_tx in Hs. pose proof (sign_tx_fields _ _ Hs) as (Hb & _ & _ & _ & Hlim). simpl in Hlim.
  unfold new_no_blobs, TxWithBlobs_new in *. rewrite Hb in *. simpl in *.
  set (tx := Build_TransactionSignedEcRecoveredWithBlobs _ _ _ _) in *. specialize (Hproper tx eq_refl).
  unfold bind at 1, gets, bind, catch.
  destruct (run_fork _ _ _) as [s1 r1] eqn:Hrun. apply run_fork_result in Hrun as (f' & Hf & _ & Hca' & Hsame).
  set (f0 := PartialBlockFork_new _ _ _) in Hf.
  destruct (good_commit_tx ctx tx (pb_space_state (bl_block s)) f0) as [_ Hp].
  destruct (assures_run ctx _ _ f0 _ _ (assures_commit_tx ctx tx _ Hproper) Hca Hf) as [Hcs HQ].
  rewrite <- Hca' in Hcs.
  rewrite Hf in Hp. pose proof (room_fits _ gas_limit (ts_length signed) (blobs_gas_used tx) (blobs_gas_used tx) g Hgl Hg Hroom) as Hfit.
  destruct r1 as [[ok | e] | e |]; [| | by intros [= <- <-] | done].
  - pose proof (ensures_commit_tx ctx tx _ _ _ _ Hf) as [Htx Hacc _ _].
    destruct (HQ _ eq_refl) as [[[? Hle] ? _ _] _]. rewrite Htx in Hle. simpl in Hle. rewrite Hlim in Hle.
    destruct (rc_success _); intros [= <- <-]; (split; [split; congruence |]); (split; [done |]);
      (split; [done |]); [| done].
    intros ok' [= <-]. destruct Hsame as [_ Hss _ _ _ _]. destruct Hroom as [Hr Hu Hfr], Hsane as (? & ? & _).
    split; simpl; rewrite Hss; simpl; [done | rewrite u64_add_small by lia; lia ..].
  - intros [= <- <-]. split; [| done]. split; [done |]. intros [= ->].
    apply Hfit. rewrite <- Hlim. by apply (HQ _ eq_refl).
Qed.

Lemma gas_room_same b b' g : same_block b b' -> gas_room b g -> gas_room b' g.
Proof. intros [_ Hs _ _ _ _] []. split; by rewrite Hs. Qed.

Lemma insert_refunds_room refunds nonce s s' r g :
  0 <= g -> gas_room (bl_block s) (BASE_TX_GAS * Z.of_nat (length refunds) + g) ->
  cache_sound ctx (bl_cache s) -> insert_refunds ctx refunds nonce s = (s', r) ->
  no_gas_left r /\ cache_sound ctx (bl_cache s') /\ (forall n, r = Done (Ok n) -> gas_room (bl_block s') g).
Proof.
  intros Hg. revert nonce s. induction refunds as [| [to v] refunds IH]; intros nonce s Hroom Hca; cbn [insert_refunds].
  { intros [= <- <-]. split; [done |]. split; [done |]. intros n _. exact Hroom. }
  replace (BASE_TX_GAS * Z.of_nat (length ((to, v) :: refunds)) + g)
    with (BASE_TX_GAS + (BASE_TX_GAS * Z.of_nat (length refunds) + g)) in Hroom
    by (rewrite length_cons; lia).
  assert (0 <= BASE_TX_GAS) by done.
  unfold bind at 1, gets. destruct (state_code_hash _ _) as [h | e]; [| by intros [= <- <-]].
  case_decide.
  { apply IH; [| done]. destruct Hroom. split; try done. lia. }
  unfold bind. destruct (commit_payment _ _ _ _ _ _ _) as [s1 r1] eqn:Hp.
  apply (commit_payment_room _ _ _ _ _ _ _ _ (BASE_TX_GAS * Z.of_nat (length refunds) + g))
    in Hp as ([Hnp Hng] & _ & Hcs & Hok); [| done | lia | done | done | done].
  destruct r1 as [[ok | e] | e |]; [| | | done].
  - apply IH; [by apply Hok | done].
  - intros [= <- <-]. split; [| done]. split; [done |]. intros [= ->]. done.
  - by intros [= <- <-].
Qed.

Context `{!HashOrderOk Address}.

Lemma length_refund_entries m : length (refund_entries m) = size m.
Proof.
  unfold refund_entries. rewrite length_fmap, hash_order_perm, <- size_dom. done.
Qed.

(** C28. When the block invariant holds and the payout needs no more gas than was
    reserved for it, paying all combined refunds and the proposer neither
    panics nor fails for lack of gas. Conditions: the limits of the block
    are far below 2^64, payouts are identified by their hashes and short,
    the interpreter uses at most the gas limit of a transaction, which is
    within that of the block, and the cache of executions, which may answer,
    is sound: what it holds was reported by executing the transaction with
    that hash. *)
Theorem reserved_gas_suffices gas_limit value adjust rv start R0 s s' r :
  cache_sound ctx (bl_cache s) -> block_inv start R0 (bl_block s) -> 0 <= gas_limit <= bs_gas R0 ->
  insert_refunds_and_proposer_payout_tx ctx gas_limit value adjust rv s = (s', r) ->
  r <> Panic /\ r <> Done (Err (Payout_TxErr TxErr_GasLeft)).
Proof.
  intros Hca [_ _ Hlim Hres] Hgl.
  assert (gas_room (pb_free_reserved_block_space (bl_block s))
            (BASE_TX_GAS * Z.of_nat (length (refund_entries (pb_combined_refunds (bl_block s))))
             + gas_limit)) as Hroom.
  { rewrite length_refund_entries. destruct Hlim as [Hg _ _]. split; simpl; [done | lia | lia]. }
  unfold insert_refunds_and_proposer_payout_tx. unfold bind at 1, update_block, modify.
  unfold bind at 1, gets. cbn [bl_world bl_block bl_cache].
  destruct (state_nonce _ _) as [nonce | e]; [| by intros [= <- <-]].
  unfold bind at 1, gets. cbn [bl_world bl_block bl_cache]. unfold bind at 1.
  change (pb_combined_refunds (pb_free_reserved_block_space (bl_block s)))
    with (pb_combined_refunds (bl_block s)).
  set (s0 := Build_Building _ _ _).
  destruct ((if adjust then ret (Ok nonce)
             else insert_refunds ctx (refund_entries (pb_combined_refunds (bl_block s))) nonce) s0)
    as [s1 r1] eqn:Hr.
  assert (no_gas_left r1 /\ cache_sound ctx (bl_cache s1)
          /\ (forall n, r1 = Done (Ok n) -> gas_room (bl_block s1) gas_limit)) as ([Hnp Hng] & Hcs & Hok).
  { destruct adjust; [| refine (insert_refunds_room _ _ s0 _ _ _ _ Hroom Hca Hr); lia].
    injection Hr as <- <-. split; [done |]. split; [done |]. intros n _. change (bl_block s0) with (pb_free_reserved_block_space (bl_block s)).
    destruct Hroom as [? ? Hf]. split; try done. unfold BASE_TX_GAS in Hf. lia. }
  destruct r1 as [[n | e] | e |]; [| | by intros [= <- <-] | done].
  - unfold bind at 1. destruct (commit_payment _ _ _ _ _ _ _) as [s2 r2] eqn:Hp.
    apply (commit_payment_room _ _ _ _ _ _ _ _ 0) in Hp as ([Hnp2 Hng2] & _ & _);
      [| lia | lia | done | rewrite Z.add_0_r; by eapply Hok | done].
    destruct r2 as [[ok | e] | e |]; intros [= <- <-]; (split; [done |]); congruence.
  - intros [= <- <-]. split; [done |]. congruence.
Qed.

End inv.
