(* ===== verification/Finalize.v ===== *)
(** * Sealing the block (building/mod.rs: process_requests, finalize)

    The end of block changes open one entry of the undo log; the header and the
    body are taken from the block under construction.  The system calls, the
    roots and the bloom filter are library code and are parameters. *)

From S2P Require Import Prelude Transactions Bundles Orders SimTypes World CommitMonad OrderCommit OrderCommitSafe OrderCommitSpec OrderCommitProfit PartialBlock PartialBlockInv.

Inductive FinalizeError := Finalize_RootHash | Finalize_BlockExecution | Finalize_Other.

Record Withdrawal := { wd_address : Address; wd_amount : U64 }.

(** [amount_wei]: the amount is in gwei. *)
Definition amount_wei (w : Withdrawal) : Z := wd_amount w * 10 ^ 9.

Definition u128_add (a b : Z) : Z := wrap 128 (a + b).

(** The balance increments of the withdrawals, by address. *)
Definition balance_increments (ws : list Withdrawal) : gmap Address Z :=
  foldl (fun m w => if decide (wd_amount w > 0)
                    then <[wd_address w := u128_add (default 0 (m !! wd_address w)) (amount_wei w)]> m
                    else m) ∅ ws.

(** What the block determines of its header; the other fields are copied from the
    payload attributes or are constants. *)
Record Header := {
  hd_beneficiary : Address;
  hd_state_root : B256;
  hd_transactions_root : B256;
  hd_receipts_root : B256;
  hd_withdrawals_root : option B256;
  hd_logs_bloom : Z;
  hd_timestamp : U64;
  hd_base_fee_per_gas : U64;
  hd_number : U64;
  hd_gas_limit : U64;
  hd_gas_used : U64;
  hd_blob_gas_used : option U64;
  hd_excess_blob_gas : option U64;
  hd_requests_hash : option B256;
}.

Record SealedBlock := {
  sl_header : Header;
  sl_transactions : list TransactionSigned;
  sl_withdrawals : option (list Withdrawal);
  sl_txs_blob_sidecars : list BlobTransactionSidecarVariant;
}.

(** The forks that are active at the time of the block. *)
Record ForkSchedule := { is_shanghai : bool; is_cancun : bool; is_prague : bool; is_osaka : bool }.

(** The sidecars of the kind that the fork knows, with blobs in them. *)
Definition valid_blobs_count (osaka : bool) (s : BlobTransactionSidecarVariant) : nat :=
  match osaka, s with
  | true, Eip7594 sc => length (sc_blobs sc)
  | false, Eip4844 sc => length (sc_blobs sc)
  | _, _ => 0%nat
  end.

Definition blob_sidecars (osaka : bool) (infos : list TransactionExecutionInfo)
  : list BlobTransactionSidecarVariant :=
  filter (fun s => (0 < valid_blobs_count osaka s)%nat)
    ((fun i => blobs_sidecar (ti_tx i)) <$> infos).

(** [sort] and [dedup]. *)
Definition incremental_change (previous current : list Address) : list Address :=
  sort_dedup Z.le (previous ++ current).

Section finalize.
Context {W Diff C : Type} `{ChainState W Diff} `{!TxCache W Diff C}.
Context (ctx : BlockBuildingContext) (forks : ForkSchedule).
Context (withdrawals : list Withdrawal) (excess_blob_gas : option U64).
Abbreviation Block := (Building W C).

(** Deposits from the receipts and the system calls of Prague, then the balance
    increments: the requests' hash and the changes to the state. *)
Context (post_execution : W -> option (list TxReceipt) -> gmap Address Z ->
         result (option B256 * Diff) FinalizeError).
Context (calculate_withdrawals_root : list Withdrawal -> B256).
Context (receipts_data : list TxReceipt -> B256 * Z).
Context (transactions_root : list TransactionSigned -> B256).
Context (state_root : W -> list Address -> result B256 FinalizeError).

Definition process_requests (rv : FinalizeRevertStateCurrentIteration)
  : M Block (result (option B256 * option B256 * FinalizeRevertStateCurrentIteration) FinalizeError) :=
  let* r := gets (fun s =>
    post_execution (bl_world s)
      (if is_prague forks then Some (ti_receipt <$> pb_executed_tx_infos (bl_block s)) else None)
      (if is_shanghai forks then balance_increments withdrawals else ∅)) in
  match r with
  | Err e => ret (Err e)
  | Ok (requests_hash, d) =>
      let* _ := modify (fun s => Build_Building (bl_block s) (commit (bl_world s) d) (bl_cache s)) in
      ret (Ok (requests_hash,
               if is_shanghai forks then Some (calculate_withdrawals_root withdrawals) else None,
               {| last_tx_block_space := last_tx_block_space rv;
                  state_reverts := S (state_reverts rv) |}))
  end.

Definition seal (b : PartialBlock) (root : B256) (requests_hash withdrawals_root : option B256)
  : SealedBlock :=
  let infos := pb_executed_tx_infos b in
  let txs := (fun i => txb_tx (ti_tx i)) <$> infos in
  let '(receipts_root, logs_bloom) := receipts_data (ti_receipt <$> infos) in
  {| sl_header :=
       {| hd_beneficiary := ctx_beneficiary ctx; hd_state_root := root;
          hd_transactions_root := transactions_root txs; hd_receipts_root := receipts_root;
          hd_withdrawals_root := withdrawals_root; hd_logs_bloom := logs_bloom;
          hd_timestamp := ctx_timestamp ctx; hd_base_fee_per_gas := ctx_basefee ctx;
          hd_number := ctx_block ctx; hd_gas_limit := ctx_gas_limit ctx;
          hd_gas_used := bs_gas (ss_space_used (pb_space_state b));
          hd_blob_gas_used := if is_cancun forks
                              then Some (bs_blob_gas (ss_space_used (pb_space_state b))) else None;
          hd_excess_blob_gas := if is_cancun forks then excess_blob_gas else None;
          hd_requests_hash := requests_hash |};
     sl_transactions := txs;
     sl_withdrawals := if is_shanghai forks then Some withdrawals else None;
     sl_txs_blob_sidecars := if is_cancun forks then blob_sidecars (is_osaka forks) infos else [] |}.

(** Returns the sealed block and the updated adjustment state. *)
Definition finalize (adjust_finalize_block : bool) (st : FinalizeAdjustmentState)
  : M Block (result (SealedBlock * FinalizeAdjustmentState) FinalizeError) :=
  let* r := process_requests (revert_state st) in
  match r with
  | Err e => ret (Err e)
  | Ok (requests_hash, withdrawals_root, rv) =>
      let* changes := gets (fun s => changed_accounts (bl_world s) (state_reverts rv)) in
      let incremental :=
        if adjust_finalize_block
        then incremental_change (account_changed_previous_iteration st) changes else [] in
      let* root := gets (fun s => state_root (bl_world s) incremental) in
      match root with
      | Err e => ret (Err e)
      | Ok root =>
          let* b := gets bl_block in
          ret (Ok (seal b root requests_hash withdrawals_root,
                   {| revert_state := rv; account_changed_previous_iteration := changes |}))
      end
  end.

End finalize.

(** ** Sealed blocks are consistent *)
Section sealed.
Context {W Diff C : Type} `{ChainState W Diff} `{!ChainStateOk W Diff} `{!TxCache W Diff C}.
Context `{PayoutSigner} `{!PayoutSignerOk}.
Context `{!HashOrder Address} `{!HashOrder nat}.
Context (ctx : BlockBuildingContext) (forks : ForkSchedule).
Context (withdrawals : list Withdrawal) (excess_blob_gas : option U64).
Context `{TxHashing} `{!SignerHashOk} `{!TxCacheOk W Diff C} `{!ExecutionOk ctx} (Hsane : sane_limits ctx).
Context (post_execution : W -> option (list TxReceipt) -> gmap Address Z ->
         result (option B256 * Diff) FinalizeError).
Context (calculate_withdrawals_root : list Withdrawal -> B256).
Context (receipts_data : list TxReceipt -> B256 * Z).
Context (transactions_root : list TransactionSigned -> B256).
Context (state_root : W -> list Address -> result B256 FinalizeError).
Abbreviation Block := (Building W C).
Abbreviation finalize_block := (finalize ctx forks withdrawals excess_blob_gas post_execution
  calculate_withdrawals_root receipts_data transactions_root state_root).

(** Finalizing adds one entry to the undo log and leaves the block as it is. *)
Lemma finalize_result adjust st (s s' : Block) sealed st' :
  finalize_block adjust st s = (s', Done (Ok (sealed, st'))) ->
  bl_block s' = bl_block s
  /\ (exists d, bl_world s' = commit (bl_world s) d)
  /\ revert_state st' = {| last_tx_block_space := last_tx_block_space (revert_state st);
                           state_reverts := S (state_reverts (revert_state st)) |}
  /\ (exists root rh wr, sealed = seal ctx forks withdrawals excess_blob_gas receipts_data
                                     transactions_root (bl_block s) root rh wr).
Proof.
  intros Hf. apply bind_Done in Hf as ([[[rh wr] rv] | e] & s1 & Hp & Hf); [| done].
  apply bind_Done in Hp as ([[rh' d] | e] & s2 & [= <- Hpost] & Hp); [| done].
  apply bind_Done in Hp as (u & s3 & [= <-] & [= <- <- <- <-]).
  apply bind_Done in Hf as (changes & s4 & [= <- <-] & Hf).
  apply bind_Done in Hf as ([root | e] & s5 & [= <- Hroot] & Hf); [| done].
  apply bind_Done in Hf as (b & s6 & [= <- <-] & [= <- <- <-]). simpl.
  split; [done |]. split; [by exists d |]. split; [done |]. by eexists _, _, _.
Qed.

(** The gas used in the header of a sealed block is the cumulative gas of its
    last receipt and within the gas limit, and the body holds the executed
    transactions in order. *)
Theorem sealed_block_gas adjust st (s s' : Block) sealed st' start R0 :
  block_inv ctx start R0 (bl_block s) -> bs_gas start = 0 ->
  finalize_block adjust st s = (s', Done (Ok (sealed, st'))) ->
  let infos := pb_executed_tx_infos (bl_block s) in
  hd_gas_used (sl_header sealed)
    = default 0 (rc_cumulative_gas_used <$> (last (ti_receipt <$> infos)))
  /\ hd_gas_used (sl_header sealed) <= hd_gas_limit (sl_header sealed)
  /\ sl_transactions sealed = (fun i => txb_tx (ti_tx i)) <$> infos.
Proof.
  intros [Hsp Hch Hlim _] Hz Hf. apply finalize_result in Hf as (_ & _ & _ & root & rh & wr & ->).
  unfold seal. destruct (receipts_data _) as [rr bloom]. simpl. split; [| split; [| done]].
  - rewrite Hsp. destruct (pb_executed_tx_infos (bl_block s)) as [| i l _] using rev_ind; [done |].
    rewrite fmap_app. change (ti_receipt <$> [i]) with [ti_receipt i]. rewrite last_snoc. simpl.
    symmetry. exact (Hch l i [] eq_refl).
  - destruct Hlim as [Hg _ _], Hsane as ([? ?] & _). lia.
Qed.

(** ** Taking the last payment back *)

(** A payment is one accepted transaction, within its bounds. *)
Lemma payment_committed nonce to gas_limit value reverted (s s' : Block) ok :
  cache_sound ctx (bl_cache s) ->
  commit_payment ctx nonce to gas_limit value reverted s = (s', Done (Ok ok)) ->
  same_block (bl_block s) (bl_block s')
  /\ accepted (C := C) ctx (ss_reserved (pb_space_state (bl_block s)))
       (ss_space_used (pb_space_state (bl_block s))) (to_tx_info ok)
  /\ (info_bounded ctx (to_tx_info ok) /\ cache_sound ctx (bl_cache s'))
  /\ exists d, bl_world s' = commit (bl_world s) d.
Proof.
  intros Hca. unfold commit_payment. destruct (create_payout_tx _ _ _ _ _) as [signed |] eqn:Hs; [| done].
  destruct (new_no_blobs _ _ _) as [tx |] eqn:Htx; [| done]. unfold bind at 1, gets, bind, catch.
  destruct (run_fork _ _ _) as [s1 r1] eqn:Hrun. apply run_fork_result in Hrun as (f' & Hf & Hw & Hca' & Hsame).
  destruct r1 as [[ok' | e] | e |]; [| done..]. destruct (rc_success _); [| done]. intros [= <- <-].
  destruct (commit_tx_world _ _ _ _ _ _ Hf) as [d Hd]. rewrite Hw, Hca'.
  pose proof (payout_proper ctx _ _ _ _ _ _ _ Hs Htx) as Hproper.
  set (f0 := PartialBlockFork_new _ _ _) in *.
  destruct (assures_run ctx _ _ f0 _ _ (assures_commit_tx ctx tx _ Hproper) Hca Hf) as [Hcs HQ].
  destruct (HQ _ eq_refl) as [Hbd _]. simpl in Hbd.
  split; [done |]. split; [| split; [done | by exists d]].
  pose proof (ensures_commit_tx ctx tx _ _ _ _ Hf) as [_ Hacc _ _]. exact Hacc.
Qed.

(** Freeing the space of the last transaction gives the space before it. *)
Lemma free_used_last s reserved i :
  within_limits ctx {| ss_space_used := s; ss_reserved := reserved |} ->
  accepted (C := C) ctx reserved s i -> info_bounded ctx i ->
  BlockSpace_sub_assign (BlockSpace_add s (ti_space_used i)) (ti_space_used i) = Some s.
Proof.
  intros Hw Ha Hbd. destruct (accepted_within_limits ctx _ _ _ Hsane Hw Ha Hbd) as [Hg' Hr' Hb'].
  destruct Ha as [_ _ (out & Hran & Hsp & _)]. destruct Hbd as [G1 G2 S1 S2]. rewrite Hsp in *. simpl in *.
  destruct Hw as [Hg Hr Hb], Hsane as (? & ? & ?). simpl in *. unfold MAX_RLP_BLOCK_SIZE in *.
  unfold BlockSpace_sub_assign, BlockSpace_add, checked_sub; cbn.
  rewrite !u64_add_small by lia. rewrite !decide_True by lia.
  destruct s as [g r b]; simpl. f_equal. f_equal; lia.
Qed.

Lemma insert_refunds_limits refunds nonce (s s' : Block) n :
  cache_sound ctx (bl_cache s) -> within_limits ctx (pb_space_state (bl_block s)) ->
  insert_refunds ctx refunds nonce s = (s', Done (Ok n)) ->
  cache_sound ctx (bl_cache s') /\ within_limits ctx (pb_space_state (bl_block s')).
Proof.
  revert nonce s. induction refunds as [| [to v] refunds IH]; intros nonce s Hca Hw; cbn [insert_refunds].
  { by intros [= <- _]. }
  intros Hi. apply bind_Done in Hi as (code & s1 & [= <- <-] & Hi).
  destruct (state_code_hash _ _); [| done]. case_decide; [by eapply IH |].
  apply bind_Done in Hi as ([ok | e] & s1 & Hp & Hi); [| done].
  apply bind_Done in Hi as (u & s2 & [= <-] & Hi).
  apply payment_committed in Hp as ([_ Hss _ _ _ _] & Hacc & [Hbd Hcs] & _); [| done].
  refine (IH _ _ _ _ Hi); [done |]. simpl. rewrite Hss.
  refine (accepted_within_limits ctx _ _ _ Hsane _ Hacc Hbd). by destruct (pb_space_state (bl_block s)).
Qed.

(** The block with nothing reserved, on the same state. *)
Definition freed (s : Block) : Block :=
  Build_Building (pb_free_reserved_block_space (bl_block s)) (bl_world s) (bl_cache s).

(** The block just before the last payment. *)
Definition before_payment (adjust : bool) (s mid : Block) : Prop :=
  if adjust then mid = freed s
  else exists nonce nonce',
    insert_refunds ctx (refund_entries (pb_combined_refunds (bl_block s))) nonce (freed s)
    = (mid, Done (Ok nonce')).

Lemma payout_split gas_limit value adjust rv (s s1 : Block) rv1 :
  cache_sound ctx (bl_cache s) -> within_limits ctx (pb_space_state (bl_block s)) ->
  insert_refunds_and_proposer_payout_tx ctx gas_limit value adjust rv s = (s1, Done (Ok rv1)) ->
  exists mid nonce ok s2, before_payment adjust s mid
    /\ (cache_sound ctx (bl_cache mid) /\ within_limits ctx (pb_space_state (bl_block mid)))
    /\ commit_payment ctx nonce (ctx_suggested_fee_recipient ctx) gas_limit value PayoutTxReverted mid
       = (s2, Done (Ok ok))
    /\ s1 = Build_Building (push_executed (bl_block s2) ok) (bl_world s2) (bl_cache s2)
    /\ rv1 = {| last_tx_block_space := ti_space_used (to_tx_info ok);
                state_reverts := S (state_reverts rv) |}.
Proof.
  intros Hca Hw Hi. apply bind_Done in Hi as (u & s2 & [= <-] & Hi).
  apply bind_Done in Hi as (no & s3 & [= <- <-] & Hi). destruct (state_nonce _ _) as [nonce |]; [| done].
  apply bind_Done in Hi as (refunds & s4 & [= <- <-] & Hi).
  apply bind_Done in Hi as ([nonce' | e] & mid & Hr & Hi); [| done].
  apply bind_Done in Hi as ([ok | e] & s5 & Hp & Hi); [| done].
  apply bind_Done in Hi as (u' & s6 & [= <-] & [= <- <-]).
  assert (within_limits ctx (pb_space_state (bl_block (freed s)))) as Hfree.
  { destruct Hw as [? ? ?]. simpl. split; simpl; try done; lia. }
  exists mid, nonce', ok, s5. destruct adjust.
  - injection Hr as <- <-. done.
  - split; [by exists nonce, nonce' |]. split; [| done]. by eapply insert_refunds_limits; [| | exact Hr].
Qed.

(** C29. Paying the proposer and finalizing, from a block within its limits and
    without other entries to revert, can be taken back: reverting to the
    prefinalized state does not panic and yields the block and the state
    just before the payment, with the combined refunds paid, so that the
    block can be sealed again with another value. Conditions: the limits of
    the block are far below 2^64, payouts are identified by their hashes and
    short, the interpreter uses at most the gas limit of a transaction,
    which is within that of the block, and the cache of executions, which
    may answer, is sound: what it holds was reported by executing the
    transaction with that hash. *)
Theorem adjust_takes_payment_back gas_limit value adjust rv acc (s s1 s2 : Block) rv1 sealed st2 :
  cache_sound ctx (bl_cache s) -> within_limits ctx (pb_space_state (bl_block s)) -> state_reverts rv = 0%nat ->
  insert_refunds_and_proposer_payout_tx ctx gas_limit value adjust rv s = (s1, Done (Ok rv1)) ->
  finalize_block adjust {| revert_state := rv1; account_changed_previous_iteration := acc |} s1
    = (s2, Done (Ok (sealed, st2))) ->
  exists mid s3, before_payment adjust s mid
    /\ adjust_finalize_block_revert_to_prefinalized_state (revert_state st2) s2 = (s3, Done tt)
    /\ same_block (bl_block mid) (bl_block s3) /\ bl_world s3 ≡ bl_world mid.
Proof.
  intros Hca Hw Hz Hp Hf.
  apply (payout_split _ _ _ _ _ _ _ Hca Hw) in Hp as (mid & nonce & ok & sp & Hmid & [Hcm Hwm] & Hpay & -> & ->).
  apply payment_committed in Hpay as (Hsame & Hacc & [Hbd _] & d & Hd); [| done].
  apply finalize_result in Hf as (Hb & [d' Hd'] & Hrv & _). simpl in Hb, Hd', Hrv. rewrite Hz in Hrv.
  exists mid. unfold adjust_finalize_block_revert_to_prefinalized_state, free_used_state.
  rewrite Hrv, Hb. simpl. destruct Hsame as [? Hss ? Hin ? ?]. rewrite Hss.
  rewrite (free_used_last _ (ss_reserved (pb_space_state (bl_block mid))) (to_tx_info ok));
    [| by destruct (pb_space_state (bl_block mid)) | done | done].
  eexists. split; [done |]. split; [done |]. split.
  - split; simpl; try done; [by destruct (pb_space_state (bl_block mid)) |].
    rewrite length_app, Nat.add_comm. simpl. by rewrite take_app_length, Hin.
  - simpl. rewrite Hd', Hd, !revert_commit, revert_0. done.
Qed.

End sealed.
