(* ===== verification/ConstraintPool.v ===== *)
(** * Constraints and their pool (rbuilder-primitives/src/constraints.rs,
      live_builder/constraint_input/, live_builder/mod.rs)

    A constraint is a list of raw transactions that a block must contain.  The
    RPC handler sends its transactions to the order pipeline as bundles, and the
    constraint itself to the pool, from which the builder takes those of its
    block. *)

From S2P Require Import Prelude Transactions Bundles Orders OrderPool.

(** ** Data *)
Definition RawBytes : Type := list Z.
Definition MAX_CONSTRAINTS_PER_BLOCK : nat := 256.

Record ConstraintsMessage := {
  cm_block : U64;
  cm_transactions : list RawBytes;
}.
Record Constraints := { c_message : ConstraintsMessage }.
#[export] Instance ConstraintsMessage_eq_dec : EqDecision ConstraintsMessage.
Proof. solve_decision. Defined.
#[export] Instance Constraints_eq_dec : EqDecision Constraints.
Proof. solve_decision. Defined.

Definition ConstraintId : Type := B256.

Definition c_block (c : Constraints) : U64 := cm_block (c_message c).

(** The SSZ serialization with keccak, and the decoding of a transaction, are
    library code. *)
Class ConstraintCodec := {
  ssz_keccak : Constraints -> B256;
  raw_decode_signed : RawBytes -> option TransactionSigned;
  raw_recover_signer : TransactionSigned -> option Address;
}.

Definition constraint_id `{ConstraintCodec} (c : Constraints) : ConstraintId := ssz_keccak c.
Definition constraint_hash `{ConstraintCodec} (c : Constraints) : B256 := constraint_id c.

(** [RawTx::decode] without blob data. *)
Definition decode_constraint_tx `{ConstraintCodec} (raw : RawBytes)
  : result TxWithBlobs TxWithBlobsCreateError :=
  decode_enveloped (fun _ => None) raw_decode_signed raw_recover_signer 0
    (RawTransactionDecodable_new raw NoBlobData).

(** ** Sinks *)
Class ConstraintSink (S : Type) := {
  insert_constraint : S -> Constraints -> S * bool;
  remove_constraints_for_block : S -> U64 -> S * bool;
  constraint_sink_alive : S -> bool;
}.

Inductive ConstraintPrinter := mk_ConstraintPrinter.
#[export] Instance ConstraintPrinter_sink : ConstraintSink ConstraintPrinter := {
  insert_constraint s _ := (s, true);
  remove_constraints_for_block s _ := (s, true);
  constraint_sink_alive _ := true;
}.

Inductive ConstraintPoolCommand :=
| Constraint_Insert (c : Constraints)
| Constraint_RemoveBlock (block : U64).
#[export] Instance ConstraintPoolCommand_eq_dec : EqDecision ConstraintPoolCommand.
Proof. solve_decision. Defined.

(** The channel: what was sent and not received yet, until the receiver drops it. *)
Record ConstraintSender2ConstraintSink := {
  cs_sent : list ConstraintPoolCommand;
  cs_closed : bool;
}.
Definition ConstraintSender2ConstraintSink_new : ConstraintSender2ConstraintSink :=
  {| cs_sent := []; cs_closed := false |}.

Definition constraint_send (s : ConstraintSender2ConstraintSink) (c : ConstraintPoolCommand)
  : ConstraintSender2ConstraintSink * bool :=
  if cs_closed s then (s, false)
  else ({| cs_sent := cs_sent s ++ [c]; cs_closed := false |}, true).

#[export] Instance ConstraintSender_sink : ConstraintSink ConstraintSender2ConstraintSink := {
  insert_constraint s c := constraint_send s (Constraint_Insert c);
  remove_constraints_for_block s b := constraint_send s (Constraint_RemoveBlock b);
  constraint_sink_alive s := negb (cs_closed s);
}.

Definition constraint_target_block (c : ConstraintPoolCommand) : U64 :=
  match c with Constraint_Insert c => c_block c | Constraint_RemoveBlock b => b end.

(** ** The pool *)
Record ConstraintPool (S K : Type) := {
  constraints_by_block : gmap U64 (list Constraints);
  known_constraints : K;
  cp_sinks : gmap Z (S * U64);
  cp_next_sink_id : U64;
}.
Arguments constraints_by_block {_ _} _.
Arguments known_constraints {_ _} _.
Arguments cp_sinks {_ _} _.
Arguments cp_next_sink_id {_ _} _.
Arguments Build_ConstraintPool {_ _}.

Section pool.
Context {S K : Type} `{ConstraintSink S} `{LruCache (ConstraintId * U64) K} `{ConstraintCodec}.
Abbreviation Pool := (ConstraintPool S K).

Definition ConstraintPool_new : Pool := Build_ConstraintPool ∅ lru_new ∅ 0.

Definition process_constraint (p : Pool) (c : Constraints) : Pool :=
  let block := c_block c in
  let id := constraint_id c in
  if lru_contains (known_constraints p) (id, block) then p
  else Build_ConstraintPool
         (<[block := default [] (constraints_by_block p !! block) ++ [c]]> (constraints_by_block p))
         (lru_put (known_constraints p) (id, block)) (cp_sinks p) (cp_next_sink_id p).

Definition process_remove_block (p : Pool) (block : U64) : Pool :=
  Build_ConstraintPool (delete block (constraints_by_block p)) (known_constraints p)
    (cp_sinks p) (cp_next_sink_id p).

(** The closure of [retain]: a dead sink is dropped, one for the block is told. *)
Definition forward_constraint (cmd : ConstraintPoolCommand) (sub : S * U64) : option (S * U64) :=
  if constraint_sink_alive sub.1 then
    if decide (sub.2 = constraint_target_block cmd) then
      let '(sink, ok) := match cmd with
                         | Constraint_Insert c => insert_constraint sub.1 c
                         | Constraint_RemoveBlock b => remove_constraints_for_block sub.1 b
                         end in
      if ok : bool then Some (sink, sub.2) else None
    else Some sub
  else None.

Definition process_constraint_command (p : Pool) (cmd : ConstraintPoolCommand) : Pool :=
  let p := match cmd with
           | Constraint_Insert c => process_constraint p c
           | Constraint_RemoveBlock b => process_remove_block p b
           end in
  Build_ConstraintPool (constraints_by_block p) (known_constraints p)
    (omap (forward_constraint cmd) (cp_sinks p)) (cp_next_sink_id p).

Definition process_constraint_commands (p : Pool) (cmds : list ConstraintPoolCommand) : Pool :=
  foldl process_constraint_command p cmds.

(** The stored constraints of the block are replayed; failures are ignored. *)
Definition replay_constraints (sink : S) (cs : list Constraints) : S :=
  foldl (fun s c => (insert_constraint s c).1) sink cs.

Definition constraint_add_sink (p : Pool) (block : U64) (sink : S) : Pool * Z :=
  let sink := match constraints_by_block p !! block with
              | Some existing => replay_constraints sink existing
              | None => sink
              end in
  (Build_ConstraintPool (constraints_by_block p) (known_constraints p)
     (<[cp_next_sink_id p := (sink, block)]> (cp_sinks p)) (u64_add (cp_next_sink_id p) 1),
   cp_next_sink_id p).

Definition constraint_remove_sink (p : Pool) (id : Z) : Pool * option S :=
  (Build_ConstraintPool (constraints_by_block p) (known_constraints p)
     (delete id (cp_sinks p)) (cp_next_sink_id p),
   fst <$> cp_sinks p !! id).

Definition cleanup_expired_constraints (p : Pool) (current_block : U64) : Pool :=
  Build_ConstraintPool (filter (fun e => ~ e.1 < current_block) (constraints_by_block p))
    (known_constraints p) (cp_sinks p) (cp_next_sink_id p).

Definition block_updated (p : Pool) (current_block : U64) : Pool :=
  let p := cleanup_expired_constraints p current_block in
  Build_ConstraintPool (constraints_by_block p) (known_constraints p)
    (filter (fun e => constraint_sink_alive e.2.1 = true /\ e.2.2 >= current_block) (cp_sinks p))
    (cp_next_sink_id p).

Definition get_constraints_for_block (p : Pool) (block : U64) : Pool * list Constraints :=
  let p := cleanup_expired_constraints p block in
  (p, default [] (constraints_by_block p !! block)).

End pool.

(** ** From a constraint to orders, and to reserved gas *)
Section codec.
Context `{ConstraintCodec}.

(** One bundle per transaction, for the block of the constraint; [uuid] is the
    random identifier of each. *)
Definition constraint_bundle (uuid now : Z) (c : Constraints) (tx : TxWithBlobs) : Bundle :=
  {| b_version := V2; b_block := Some (c_block c); b_min_timestamp := None; b_max_timestamp := None;
     b_txs := [tx]; b_reverting_tx_hashes := []; b_dropping_tx_hashes := [];
     b_hash := constraint_hash c; b_uuid := uuid; b_replacement_data := None; b_signer := None;
     b_refund_identity := None; b_metadata := Metadata_new now; b_refund := None;
     b_external_hash := None |}.

Fixpoint individual_bundles (uuids : nat -> Z) (now : Z) (c : Constraints) (idx : nat)
    (txs : list RawBytes) : option (list Bundle) :=
  match txs with
  | [] => Some []
  | raw :: txs =>
      match decode_constraint_tx raw with
      | Err _ => None
      | Ok tx =>
          let! rest := individual_bundles uuids now c (S idx) txs in
          Some (constraint_bundle (uuids idx) now c tx :: rest)
      end
  end.

Definition constraint_to_individual_bundles (uuids : nat -> Z) (now : Z) (c : Constraints)
  : option (list Bundle) :=
  individual_bundles uuids now c 0 (cm_transactions (c_message c)).

(** [submitConstraints]: the orders that are sent, and the constraint, as long as
    the channels have room. *)
Definition submit_constraints (uuids : nat -> Z) (now : Z) (c : Constraints)
  : list ReplaceableOrderPoolCommand * Constraints :=
  (match constraint_to_individual_bundles uuids now c with
   | Some bundles => (fun b => Pool_Order (Order_Bundle b)) <$> bundles
   | None => []
   end, c).

Definition reserve_tx_gas (total : U64) (raw : RawBytes) : U64 :=
  match decode_constraint_tx raw with
  | Ok tx => u64_add total (bs_gas (tx_space_needed tx))
  | Err _ => total
  end.

Definition calculate_constraint_gas_reservation (cs : list Constraints) : U64 :=
  foldl (fun total c => foldl reserve_tx_gas total (cm_transactions (c_message c))) 0 cs.

End codec.

(** ** What the pool holds *)

(** A cache that has not reached its capacity forgets nothing. *)
Class LruCacheExact (K C : Type) `{LruCache K C} : Prop := {
  lru_exact_new k : lru_contains lru_new k = false;
  lru_exact_put c k k' : lru_contains (lru_put c k) k' = true <-> k = k' \/ lru_contains c k' = true;
}.

Section spec.
Context {S K : Type} `{ConstraintSink S} `{LruCacheExact (ConstraintId * U64) K} `{ConstraintCodec}.
Abbreviation Pool := (ConstraintPool S K).

Definition constraint_key (c : Constraints) : ConstraintId * U64 := (constraint_id c, c_block c).

(** The constraint was inserted, none with its key came before, and its block was
    not removed since. *)
Definition in_store (cmds : list ConstraintPoolCommand) (b : U64) (c : Constraints) : Prop :=
  exists l1 l2, cmds = l1 ++ Constraint_Insert c :: l2 /\ c_block c = b
    /\ (forall c', Constraint_Insert c' ∈ l1 -> constraint_key c' <> constraint_key c)
    /\ Constraint_RemoveBlock b ∉ l2.

Definition stored (p : Pool) (b : U64) : list Constraints := default [] (constraints_by_block p !! b).

Lemma in_store_snoc cmds cmd b c :
  in_store (cmds ++ [cmd]) b c <->
  (in_store cmds b c /\ cmd <> Constraint_RemoveBlock b)
  \/ (cmd = Constraint_Insert c /\ c_block c = b
      /\ forall c', Constraint_Insert c' ∈ cmds -> constraint_key c' <> constraint_key c).
Proof.
  split.
  - intros (l1 & l2 & Heq & Hb & Hf & Hr). destruct l2 as [| e l2 _] using rev_ind.
    + apply app_inj_tail in Heq as [-> ->]. by right.
    + rewrite app_comm_cons, app_assoc in Heq. apply app_inj_tail in Heq as [-> ->]. left.
      apply not_elem_of_app in Hr as [Hr He]. split; [by exists l1, l2 | set_solver].
  - intros [[(l1 & l2 & -> & Hb & Hf & Hr) Hc] | (-> & Hb & Hf)].
    + exists l1, (l2 ++ [cmd]). rewrite <- app_assoc. split; [done |]. split; [done |]. split; [done |].
      set_solver.
    + exists cmds, []. split; [done |]. split; [done |]. split; [done | set_solver].
Qed.

Lemma in_store_inserted cmds b c : in_store cmds b c -> Constraint_Insert c ∈ cmds /\ c_block c = b.
Proof. intros (l1 & l2 & -> & Hb & _). split; [set_solver | done]. Qed.

Record pool_ok (cmds : list ConstraintPoolCommand) (p : Pool) : Prop := {
  po_known k : lru_contains (known_constraints p) k = true
    <-> exists c, Constraint_Insert c ∈ cmds /\ constraint_key c = k;
  po_stored b c : c ∈ stored p b <-> in_store cmds b c;
  po_NoDup b : NoDup (constraint_id <$> stored p b);
}.

Lemma pool_ok_insert cmds p c :
  pool_ok cmds p -> pool_ok (cmds ++ [Constraint_Insert c]) (process_constraint p c).
Proof.
  intros [Hk Hs Hn]. unfold process_constraint. fold (constraint_key c).
  destruct (lru_contains _ _) eqn:Hc.
  - split; [| | exact Hn].
    + intros k. rewrite Hk. apply Hk in Hc as (c0 & Hin0 & Hkey0). split.
      * intros (c' & ? & ?). exists c'. set_solver.
      * intros (c' & [? | [= ->]%list_elem_of_singleton]%elem_of_app & ?); [by exists c' |].
        exists c0. split; [done | congruence].
    + intros b c'. rewrite Hs, in_store_snoc. split; [intros ?; by left |].
      intros [[? _] | ([= ->] & _ & Hf)]; [done |]. apply Hk in Hc as (c0 & Hin0 & Hkey0).
      by destruct (Hf c0 Hin0).
  - assert (forall c', Constraint_Insert c' ∈ cmds -> constraint_key c' <> constraint_key c) as Hfresh.
    { intros c' Hin Heq. assert (lru_contains (known_constraints p) (constraint_key c) = true); [| congruence].
      apply Hk. by exists c'. }
    split; unfold stored; simpl.
    + intros k. rewrite lru_exact_put, Hk. setoid_rewrite elem_of_app.
      setoid_rewrite list_elem_of_singleton. naive_solver.
    + intros b c'. rewrite in_store_snoc. destruct (decide (c_block c = b)) as [<- | Hne].
      * rewrite lookup_insert_eq. simpl. rewrite elem_of_app, list_elem_of_singleton.
        fold (stored p (c_block c)). rewrite Hs. naive_solver.
      * rewrite lookup_insert_ne by done. fold (stored p b). rewrite Hs. naive_solver.
    + intros b. destruct (decide (c_block c = b)) as [<- | Hne]; [| rewrite lookup_insert_ne by done; apply Hn].
      rewrite lookup_insert_eq. simpl. fold (stored p (c_block c)). rewrite fmap_app.
      apply NoDup_app. split_and!; [apply Hn | | apply NoDup_singleton].
      intros id (c' & -> & Hin)%list_elem_of_fmap Heq%list_elem_of_singleton.
      apply Hs, in_store_inserted in Hin as [Hin Hb]. apply (Hfresh c' Hin).
      unfold constraint_key. by rewrite Hb, Heq.
Qed.

Lemma pool_ok_remove cmds p b :
  pool_ok cmds p -> pool_ok (cmds ++ [Constraint_RemoveBlock b]) (process_remove_block p b).
Proof.
  intros [Hk Hs Hn]. unfold stored in *. split; unfold stored; simpl.
  - intros k. rewrite Hk. setoid_rewrite elem_of_app. setoid_rewrite list_elem_of_singleton. naive_solver.
  - intros b' c. rewrite in_store_snoc. destruct (decide (b = b')) as [<- | Hne].
    + rewrite lookup_delete_eq. simpl. rewrite elem_of_nil. naive_solver.
    + rewrite lookup_delete_ne, Hs by done. naive_solver.
  - intros b'. destruct (decide (b = b')) as [<- | Hne].
    + rewrite lookup_delete_eq. apply NoDup_nil_2.
    + rewrite lookup_delete_ne by done. apply Hn.
Qed.

Lemma pool_ok_run cmds : pool_ok cmds (process_constraint_commands (ConstraintPool_new : Pool) cmds).
Proof.
  induction cmds as [| cmd cmds IH] using rev_ind.
  - split; unfold stored; simpl.
    + intros k. rewrite lru_exact_new. split; [done |]. by intros (c & Hc%elem_of_nil & _).
    + intros b c. rewrite lookup_empty. simpl. rewrite elem_of_nil. split; [done |].
      intros (l1 & l2 & Heq & _). by destruct l1.
    + intros b. rewrite lookup_empty. apply NoDup_nil_2.
  - unfold process_constraint_commands. rewrite foldl_app. cbn [foldl]. fold (process_constraint_commands (ConstraintPool_new : Pool) cmds).
    set (p := process_constraint_commands _ cmds) in *. clearbody p. destruct cmd as [c | b].
    + by destruct (pool_ok_insert cmds p c IH).
    + by destruct (pool_ok_remove cmds p b IH).
Qed.

(** C35. While the cache of known constraints has room, the constraints handed out
    for a block are those inserted for it, the first with each id, whose
    block was not removed since; no id occurs twice; and asking for a block
    drops exactly the constraints of older blocks. *)
Theorem constraint_pool_content cmds b :
  let '(p, l) := get_constraints_for_block (process_constraint_commands (ConstraintPool_new : Pool) cmds) b in
  (forall c, c ∈ l <-> in_store cmds b c) /\ NoDup (constraint_id <$> l)
  /\ (forall b' c, c ∈ stored p b' <-> b <= b' /\ in_store cmds b' c).
Proof.
  destruct (pool_ok_run cmds) as [_ Hs Hn]. simpl. unfold stored in *. simpl in *.
  assert (forall m b', b <= b' ->
    (filter (fun e : Z * list Constraints => ~ e.1 < b) m : gmap Z (list Constraints)) !! b' = m !! b') as Hf.
  { intros m b' Hle. destruct (m !! b') as [l |] eqn:Hm.
    - apply map_lookup_filter_Some. split; [done | simpl; lia].
    - apply map_lookup_filter_None. by left. }
  rewrite Hf by lia. split; [intros c; apply Hs |]. split; [apply Hn |].
  intros b' c. destruct (decide (b <= b')).
  - rewrite Hf, Hs by done. naive_solver.
  - assert (filter (fun e : Z * list Constraints => ~ e.1 < b)
      (constraints_by_block (process_constraint_commands (ConstraintPool_new : Pool) cmds)) !! b' = None) as ->.
    { apply map_lookup_filter_None. right. intros l _. simpl. lia. }
    simpl. rewrite elem_of_nil. naive_solver.
Qed.

(** A constraint that is inserted again after its block was removed is not
    stored. *)
Theorem reinserted_constraint_lost c :
  (get_constraints_for_block
     (process_constraint_commands (ConstraintPool_new : Pool)
        [Constraint_Insert c; Constraint_RemoveBlock (c_block c); Constraint_Insert c]) (c_block c)).2
  = [].
Proof.
  pose proof (pool_ok_run [Constraint_Insert c; Constraint_RemoveBlock (c_block c); Constraint_Insert c])
    as [_ Hs _].
  set (p := process_constraint_commands _ _) in *. clearbody p. simpl.
  assert (forall c', c' ∉ stored p (c_block c)) as Hnone.
  { intros c' (l1 & l2 & Heq & Hb & Hf & Hr)%Hs.
    destruct l1 as [| e1 [| e2 [| e3 l1]]]; simplify_eq/=; [set_solver | | by destruct l1].
    apply (Hf c'); [set_solver | done]. }
  destruct (filter _ _ !! c_block c) as [l |] eqn:Hl; [| done]. simpl.
  apply map_lookup_filter_Some in Hl as [Hl _]. unfold stored in Hnone. rewrite Hl in Hnone.
  destruct l as [| c' l]; [done |]. by destruct (Hnone c'); left.
Qed.

End spec.

(** ** Orders and gas of a constraint *)
#[local] Opaque decode_constraint_tx.
Section codec_facts.
Context `{ConstraintCodec}.

(** The transactions of a constraint that decode. *)
Definition decoded_txs (raws : list RawBytes) : list TxWithBlobs :=
  omap (fun raw => match decode_constraint_tx raw with Ok tx => Some tx | Err _ => None end) raws.
Definition all_decode (raws : list RawBytes) : Prop :=
  Forall (fun raw => is_ok (decode_constraint_tx raw) = true) raws.

Lemma individual_bundles_spec uuids now c idx raws :
  match individual_bundles uuids now c idx raws with
  | Some bs => all_decode raws /\ b_txs <$> bs = (fun tx => [tx]) <$> decoded_txs raws
      /\ Forall (fun b => b_block b = Some (c_block c) /\ b_reverting_tx_hashes b = []
                         /\ b_dropping_tx_hashes b = []) bs
  | None => ~ all_decode raws
  end.
Proof.
  revert idx. induction raws as [| raw raws IH]; intros idx; simpl.
  { split; [constructor |]. split; [done | constructor]. }
  specialize (IH (S idx)). unfold all_decode in *.
  destruct (decode_constraint_tx raw) as [tx | e] eqn:Hd.
  2: { intros [Hd' _]%Forall_cons. by rewrite Hd in Hd'. }
  destruct (individual_bundles _ _ _ _ _) as [bs |]; [| by intros [_ ?]%Forall_cons].
  destruct IH as (Hall & Htx & Hbs). split; [constructor; [by rewrite Hd | done] |]. split; [| by constructor].
  simpl. f_equal. exact Htx.
Qed.

(** Submitting a constraint always forwards the constraint; if all its
    transactions decode, one bundle per transaction is sent to the order
    pipeline, in order, for the block of the constraint and without
    permission to revert or drop; otherwise no bundle is sent. *)
Theorem submit_constraints_spec uuids now c :
  let raws := cm_transactions (c_message c) in
  let '(orders, sent) := submit_constraints uuids now c in
  sent = c
  /\ (all_decode raws -> exists bs, orders = (fun b => Pool_Order (Order_Bundle b)) <$> bs
        /\ b_txs <$> bs = (fun tx => [tx]) <$> decoded_txs raws
        /\ Forall (fun b => b_block b = Some (c_block c) /\ b_reverting_tx_hashes b = []
                           /\ b_dropping_tx_hashes b = []) bs)
  /\ (~ all_decode raws -> orders = []).
Proof.
  simpl. unfold constraint_to_individual_bundles.
  pose proof (individual_bundles_spec uuids now c 0 (cm_transactions (c_message c))) as Hs.
  destruct (individual_bundles _ _ _ _ _) as [bs |]; [| naive_solver].
  destruct Hs as (? & ? & ?). split; [done |]. split; [| done]. intros _. by exists bs.
Qed.

Lemma sum_app l1 l2 : foldr Z.add 0 (l1 ++ l2) = foldr Z.add 0 l1 + foldr Z.add 0 l2.
Proof. induction l1 as [| z l1 IH]; simpl; lia. Qed.

Lemma reserve_fold total raws :
  foldl reserve_tx_gas (wrap 64 total) raws
  = wrap 64 (total + foldr Z.add 0 ((fun tx => ts_gas_limit (txb_tx tx)) <$> decoded_txs raws)).
Proof.
  revert total. induction raws as [| raw raws IH]; intros total; simpl; [f_equal; lia |].
  unfold reserve_tx_gas at 2. destruct (decode_constraint_tx raw) as [tx | e]; [| apply IH].
  assert (u64_add (wrap 64 total) (bs_gas (tx_space_needed tx))
          = wrap 64 (total + ts_gas_limit (txb_tx tx))) as ->.
  { unfold u64_add, wrap. simpl. by rewrite Zplus_mod_idemp_l. }
  by rewrite IH, <- Z.add_assoc.
Qed.

Lemma constraint_gas_reservation_eq cs :
  calculate_constraint_gas_reservation cs
  = wrap 64 (foldr Z.add 0 ((fun tx => ts_gas_limit (txb_tx tx))
                              <$> (cs ≫= fun c => decoded_txs (cm_transactions (c_message c))))).
Proof.
  unfold calculate_constraint_gas_reservation.
  assert (forall l total, foldl (fun total c => foldl reserve_tx_gas total (cm_transactions (c_message c)))
      (wrap 64 total) l
    = wrap 64 (total + foldr Z.add 0 ((fun tx => ts_gas_limit (txb_tx tx))
        <$> (l ≫= fun c => decoded_txs (cm_transactions (c_message c)))))) as Hl.
  { induction l as [| c l IH]; intros total; simpl; [f_equal; lia |].
    rewrite reserve_fold, IH, fmap_app, sum_app. by rewrite Z.add_assoc. }
  apply (Hl cs 0).
Qed.

(** The gas reserved for constraints is the sum of the gas limits of their
    decodable transactions, modulo 2^64. *)
Theorem constraint_gas_reservation_sum cs :
  calculate_constraint_gas_reservation cs
  = wrap 64 (foldr Z.add 0 ((fun tx => ts_gas_limit (txb_tx tx))
                              <$> (cs ≫= fun c => decoded_txs (cm_transactions (c_message c))))).
Proof. apply constraint_gas_reservation_eq. Qed.

End codec_facts.
