(* ===== verification/BlockHelper.v ===== *)
(** * The block building helper (building/builders/block_building_helper.rs,
      building/built_block_trace.rs)

    The helper owns the block under construction, its state and the trace of what
    was tried; finalizing appends missing constraint transactions, pays the
    refunds and the proposer and seals the block; a finalized block can be
    adjusted to another payment. *)

From S2P Require Import Prelude Transactions Bundles Orders SimTypes World CommitMonad OrderCommit OrderPool ConstraintPool PartialBlock PartialBlockInv Finalize.

(** ** The trace of a block

    Without its timestamps and durations, and without the statistics of the
    pre-filtered step, which no code here reads. *)
Record BuiltBlockTrace := {
  bt_included_orders : list ExecutionResult;
  bt_bid_value : U256;
  bt_subsidy : Z;
  bt_coinbase_reward : U256;
  bt_true_bid_value : U256;
  bt_mev_blocker_price : U256;
  bt_seen_competition_bid : option U256;
  bt_available_orders_statistics : OrderStatistics;
  bt_considered_orders_statistics : OrderStatistics;
  bt_failed_orders_statistics : OrderStatistics;
  bt_filtered_build_considered_orders_statistics : OrderStatistics;
  bt_filtered_build_failed_orders_statistics : OrderStatistics;
  bt_appended_constraint_txs : list TxHash;
}.

Definition BuiltBlockTrace_new : BuiltBlockTrace :=
  {| bt_included_orders := []; bt_bid_value := 0; bt_subsidy := 0; bt_coinbase_reward := 0;
     bt_true_bid_value := 0; bt_mev_blocker_price := 0; bt_seen_competition_bid := None;
     bt_available_orders_statistics := OrderStatistics_default;
     bt_considered_orders_statistics := OrderStatistics_default;
     bt_failed_orders_statistics := OrderStatistics_default;
     bt_filtered_build_considered_orders_statistics := OrderStatistics_default;
     bt_filtered_build_failed_orders_statistics := OrderStatistics_default; bt_appended_constraint_txs := [] |}.

Definition add_included_order (t : BuiltBlockTrace) (r : ExecutionResult) : BuiltBlockTrace :=
  {| bt_included_orders := bt_included_orders t ++ [r]; bt_bid_value := bt_bid_value t;
     bt_subsidy := bt_subsidy t; bt_coinbase_reward := bt_coinbase_reward t;
     bt_true_bid_value := bt_true_bid_value t; bt_mev_blocker_price := bt_mev_blocker_price t;
     bt_seen_competition_bid := bt_seen_competition_bid t;
     bt_available_orders_statistics := bt_available_orders_statistics t;
     bt_considered_orders_statistics := bt_considered_orders_statistics t;
     bt_failed_orders_statistics := bt_failed_orders_statistics t;
     bt_filtered_build_considered_orders_statistics := bt_filtered_build_considered_orders_statistics t;
     bt_filtered_build_failed_orders_statistics := bt_filtered_build_failed_orders_statistics t;
     bt_appended_constraint_txs := bt_appended_constraint_txs t |}.

Definition set_statistics (t : BuiltBlockTrace) (considered failed : OrderStatistics)
  : BuiltBlockTrace :=
  {| bt_included_orders := bt_included_orders t; bt_bid_value := bt_bid_value t;
     bt_subsidy := bt_subsidy t; bt_coinbase_reward := bt_coinbase_reward t;
     bt_true_bid_value := bt_true_bid_value t; bt_mev_blocker_price := bt_mev_blocker_price t;
     bt_seen_competition_bid := bt_seen_competition_bid t;
     bt_available_orders_statistics := bt_available_orders_statistics t;
     bt_considered_orders_statistics := considered; bt_failed_orders_statistics := failed;
     bt_filtered_build_considered_orders_statistics := bt_filtered_build_considered_orders_statistics t;
     bt_filtered_build_failed_orders_statistics := bt_filtered_build_failed_orders_statistics t;
     bt_appended_constraint_txs := bt_appended_constraint_txs t |}.

Definition add_considered_order (t : BuiltBlockTrace) (o : SimulatedOrder) : BuiltBlockTrace :=
  set_statistics t (OrderStatistics_add (bt_considered_orders_statistics t) (so_order o))
    (bt_failed_orders_statistics t).
Definition add_failed_order (t : BuiltBlockTrace) (o : SimulatedOrder) : BuiltBlockTrace :=
  set_statistics t (bt_considered_orders_statistics t)
    (OrderStatistics_add (bt_failed_orders_statistics t) (so_order o)).

Definition set_filtered_build_statistics (t : BuiltBlockTrace) (considered failed : OrderStatistics)
  : BuiltBlockTrace :=
  {| bt_included_orders := bt_included_orders t; bt_bid_value := bt_bid_value t;
     bt_subsidy := bt_subsidy t; bt_coinbase_reward := bt_coinbase_reward t;
     bt_true_bid_value := bt_true_bid_value t; bt_mev_blocker_price := bt_mev_blocker_price t;
     bt_seen_competition_bid := bt_seen_competition_bid t;
     bt_available_orders_statistics := bt_available_orders_statistics t;
     bt_considered_orders_statistics := bt_considered_orders_statistics t;
     bt_failed_orders_statistics := bt_failed_orders_statistics t;
     bt_filtered_build_considered_orders_statistics := considered;
     bt_filtered_build_failed_orders_statistics := failed;
     bt_appended_constraint_txs := bt_appended_constraint_txs t |}.

Definition set_appended (t : BuiltBlockTrace) (l : list TxHash) : BuiltBlockTrace :=
  {| bt_included_orders := bt_included_orders t; bt_bid_value := bt_bid_value t;
     bt_subsidy := bt_subsidy t; bt_coinbase_reward := bt_coinbase_reward t;
     bt_true_bid_value := bt_true_bid_value t; bt_mev_blocker_price := bt_mev_blocker_price t;
     bt_seen_competition_bid := bt_seen_competition_bid t;
     bt_available_orders_statistics := bt_available_orders_statistics t;
     bt_considered_orders_statistics := bt_considered_orders_statistics t;
     bt_failed_orders_statistics := bt_failed_orders_statistics t;
     bt_filtered_build_considered_orders_statistics := bt_filtered_build_considered_orders_statistics t;
     bt_filtered_build_failed_orders_statistics := bt_filtered_build_failed_orders_statistics t;
     bt_appended_constraint_txs := l |}.

Definition set_values (t : BuiltBlockTrace) (coinbase_reward bid_value true_bid_value mev : U256)
    (subsidy : Z) (seen : option U256) : BuiltBlockTrace :=
  {| bt_included_orders := bt_included_orders t; bt_bid_value := bid_value;
     bt_subsidy := subsidy; bt_coinbase_reward := coinbase_reward;
     bt_true_bid_value := true_bid_value; bt_mev_blocker_price := mev;
     bt_seen_competition_bid := seen;
     bt_available_orders_statistics := bt_available_orders_statistics t;
     bt_considered_orders_statistics := bt_considered_orders_statistics t;
     bt_failed_orders_statistics := bt_failed_orders_statistics t;
     bt_filtered_build_considered_orders_statistics := bt_filtered_build_considered_orders_statistics t;
     bt_filtered_build_failed_orders_statistics := bt_filtered_build_failed_orders_statistics t;
     bt_appended_constraint_txs := bt_appended_constraint_txs t |}.

Definition used_order_count (t : BuiltBlockTrace) : nat * nat * nat :=
  foldl (fun '(a, b, c) r => match er_order r with
                            | Order_Tx _ => (S a, b, c)
                            | Order_Bundle _ => (a, S b, c)
                            | Order_ShareBundle _ => (a, b, S c)
                            end) (0, 0, 0)%nat (bt_included_orders t).

Inductive BuiltBlockTraceError :=
| DuplicateReplacementData (key : OrderReplacementKey)
| BlockedAddress
| BundleTxReverted (order_id : OrderId) (tx_hash : TxHash).

(** A transaction that occurs twice may revert if one occurrence may. *)
Definition bundle_txs (order : Order) : gmap TxHash bool :=
  foldl (fun m p => match m !! tx_hash p.1 with
                    | None => <[tx_hash p.1 := p.2]> m
                    | Some stored => if negb stored && p.2 then <[tx_hash p.1 := p.2]> m else m
                    end) ∅ (Order_list_txs order).

(** An executed transaction of the order that reverted and must not. *)
Definition bad_revert (order : Order) (i : TransactionExecutionInfo) : bool :=
  match bundle_txs order !! tx_hash (ti_tx i) with
  | Some can_revert => negb (rc_success (ti_receipt i)) && negb can_revert
  | None => false
  end.

Definition touches_blocked (blocklist : gset Address) (i : TransactionExecutionInfo) : bool :=
  bool_decide (tx_signer (ti_tx i) ∈ blocklist)
  || match tx_to (ti_tx i) with Some to => bool_decide (to ∈ blocklist) | None => false end.

Definition verify_order (blocklist : gset Address) (res : ExecutionResult)
  : result unit BuiltBlockTraceError :=
  if existsb (touches_blocked blocklist) (er_tx_infos res) then Err BlockedAddress
  else
    match list_find (fun i => bad_revert (er_order res) i = true) (er_tx_infos res) with
    | Some (_, i) => Err (BundleTxReverted (Order_id (er_order res)) (tx_hash (ti_tx i)))
    | None => Ok tt
    end.

Fixpoint verify_orders (blocklist : gset Address) (l : list ExecutionResult)
  : result unit BuiltBlockTraceError :=
  match l with
  | [] => Ok tt
  | res :: l => let? _ := verify_order blocklist res in verify_orders blocklist l
  end.

Definition verify_bundle_consistency (t : BuiltBlockTrace) (blocklist : gset Address)
  : result unit BuiltBlockTraceError := verify_orders blocklist (bt_included_orders t).

(** ** The helper *)
Inductive BlockBuildingHelperError :=
| Helper_ProviderError
| Helper_UnableToEstimatePayoutGas (e : EstimatePayoutGasErr)
| Helper_PreBlockCallFailed
| Helper_InsertPayoutTxErr (e : InsertPayoutTxErr)
| Helper_BundleConsistencyCheckFailed (e : BuiltBlockTraceError)
| Helper_FinalizeError (e : FinalizeError)
| Helper_HistoricalBlockError
| Helper_BlockFinalizedIncorrectly.

(** [db_view] tells whether a finalization error is one of the consistent view. *)
Definition is_critical (db_view : FinalizeError -> bool) (e : BlockBuildingHelperError) : bool :=
  match e with
  | Helper_FinalizeError f => negb (db_view f)
  | Helper_InsertPayoutTxErr ProfitTooLow => false
  | _ => true
  end.

Record BlockBuildingHelper (W C : Type) := {
  hp_fee_recipient_balance_start : U256;
  hp_building : Building W C;
  hp_payout_tx_gas : U64;
  hp_trace : BuiltBlockTrace;
  hp_cancelled : bool;
  hp_adjustment : option FinalizeAdjustmentState;
}.
Arguments hp_fee_recipient_balance_start {_ _} _.
Arguments hp_building {_ _} _.
Arguments hp_payout_tx_gas {_ _} _.
Arguments hp_trace {_ _} _.
Arguments hp_cancelled {_ _} _.
Arguments hp_adjustment {_ _} _.
Arguments Build_BlockBuildingHelper {_ _}.

Definition BLOCK_HEADER_RLP_OVERHEAD : Z := 1024.

Section helper.
Context {W Diff C : Type} `{ChainState W Diff} `{!TxCache W Diff C} `{PayoutSigner}.
Context `{!HashOrder Address} `{!HashOrder nat} `{ConstraintCodec}.
Context (ctx : BlockBuildingContext) (constraints : list Constraints).
Abbreviation Block := (Building W C).
Abbreviation Helper := (BlockBuildingHelper W C).

(** [pre_block_call]: the space of the header and the withdrawals, and the system
    calls, which are library code. *)
Definition pre_block_call (withdrawals_length : Z) (system_calls : W -> result Diff unit) (s : Block)
  : result Block unit :=
  let b := set_space_state (bl_block s)
             (use_space (pb_space_state (bl_block s))
                (BlockSpace_new 0 (u64_add withdrawals_length BLOCK_HEADER_RLP_OVERHEAD) 0)) in
  let? d := system_calls (bl_world s) in
  Ok (Build_Building b (commit (bl_world s) d) (bl_cache s)).

Definition new_with_execution_tracer (healthy : bool) (w : W) (c : C) (discard_txs : bool)
    (withdrawals_length : Z) (system_calls : W -> result Diff unit)
    (available : OrderStatistics) : result Helper BlockBuildingHelperError :=
  if healthy then
    let? start := map_err (fun _ => Helper_ProviderError)
                    (state_balance w (ctx_suggested_fee_recipient ctx)) in
    let block := with_tracer (PartialBlock_new discard_txs) (GasUsedSimulationTracer 0) in
    let? s := map_err (fun _ => Helper_PreBlockCallFailed)
                (pre_block_call withdrawals_length system_calls (Build_Building block w c)) in
    let? space := map_err Helper_UnableToEstimatePayoutGas
                    (estimate_payout_gas_limit ctx (bl_world s) (ctx_suggested_fee_recipient ctx)
                       BlockSpace_ZERO) in
    Ok {| hp_fee_recipient_balance_start := start;
          hp_building := Build_Building (pb_reserve_block_space (bl_block s) space) (bl_world s)
                           (bl_cache s);
          hp_payout_tx_gas := bs_gas space;
          hp_trace := {| bt_included_orders := []; bt_bid_value := 0; bt_subsidy := 0;
                         bt_coinbase_reward := 0; bt_true_bid_value := 0; bt_mev_blocker_price := 0;
                         bt_seen_competition_bid := None;
                         bt_available_orders_statistics := available;
                         bt_considered_orders_statistics := OrderStatistics_default;
                         bt_failed_orders_statistics := OrderStatistics_default;
                         bt_filtered_build_considered_orders_statistics := OrderStatistics_default;
                         bt_filtered_build_failed_orders_statistics := OrderStatistics_default;
                         bt_appended_constraint_txs := [] |};
          hp_cancelled := false; hp_adjustment := None |}
  else Err Helper_HistoricalBlockError.

(** Operations on the block and on the trace. *)
Definition on_block {A} (m : M Block A) : M Helper A := fun h =>
  let '(s, r) := m (hp_building h) in
  (Build_BlockBuildingHelper (hp_fee_recipient_balance_start h) s (hp_payout_tx_gas h) (hp_trace h)
     (hp_cancelled h) (hp_adjustment h), r).
Definition update_trace (g : BuiltBlockTrace -> BuiltBlockTrace) : M Helper unit :=
  modify (fun h => Build_BlockBuildingHelper (hp_fee_recipient_balance_start h) (hp_building h)
                     (hp_payout_tx_gas h) (g (hp_trace h)) (hp_cancelled h) (hp_adjustment h)).
Definition set_adjustment (a : option FinalizeAdjustmentState) : M Helper unit :=
  modify (fun h => Build_BlockBuildingHelper (hp_fee_recipient_balance_start h) (hp_building h)
                     (hp_payout_tx_gas h) (hp_trace h) (hp_cancelled h) a).
Definition cancel : M Helper unit :=
  modify (fun h => Build_BlockBuildingHelper (hp_fee_recipient_balance_start h) (hp_building h)
                     (hp_payout_tx_gas h) (hp_trace h) true (hp_adjustment h)).

Definition helper_commit_order (order : SimulatedOrder)
    (result_filter : SimValue -> result unit ExecutionError)
  : M Helper (result ExecutionResult ExecutionError) :=
  let* _ := update_trace (fun t => add_considered_order t order) in
  let* r := on_block (pb_commit_order ctx order result_filter) in
  match r with
  | Ok res => let* _ := update_trace (fun t => add_included_order t res) in ret (Ok res)
  | Err e => let* _ := update_trace (fun t => add_failed_order t order) in ret (Err e)
  end.

Definition true_block_value (h : Helper) : result U256 BlockBuildingHelperError :=
  map_err Helper_InsertPayoutTxErr
    (get_proposer_payout_tx_value ctx (bl_block (hp_building h)) (hp_payout_tx_gas h)).

(** ** Constraint transactions *)
Definition compute_constraint_tx_hash (raw : RawBytes) : result B256 BlockBuildingHelperError :=
  match decode_constraint_tx raw with Ok tx => Ok (tx_hash tx) | Err _ => Err Helper_ProviderError end.

(** The fork has no simulation tracer here. *)
Definition run_untraced {A} (m : M (PartialBlockFork W C) A) : M Block A := fun s =>
  let '(f, r) := m (PartialBlockFork_new (bl_world s) (bl_cache s) None) in
  (Build_Building (bl_block s) (fk_world f) (fk_cache f), r).

(** The profit grows by the absolute value of the transaction's profit. *)
Definition push_constraint (b : PartialBlock) (ok : TransactionOk) : PartialBlock :=
  {| pb_discard_txs := pb_discard_txs b;
     pb_space_state := use_space (pb_space_state b) (ti_space_used (to_tx_info ok));
     pb_coinbase_profit := u256_add (pb_coinbase_profit b) (Z.abs (ti_coinbase_profit (to_tx_info ok)));
     pb_executed_tx_infos := pb_executed_tx_infos b ++ [to_tx_info ok];
     pb_combined_refunds := pb_combined_refunds b; pb_delayed_refund := pb_delayed_refund b;
     pb_tracer := pb_tracer b; pb_events := pb_events b |}.

(** A critical error of the execution becomes an error value; a failed
    transaction is [false]. *)
Definition execute_constraint_transaction (raw : RawBytes)
  : M Block (result bool BlockBuildingHelperError) :=
  match decode_constraint_tx raw with
  | Err _ => ret (Err Helper_ProviderError)
  | Ok tx =>
      let* b := gets bl_block in
      let* r := catch (run_untraced (commit_tx ctx tx (pb_space_state b))) in
      match r with
      | Ok (Ok ok) =>
          let* _ := update_block (fun b => push_constraint b ok) in
          ret (Ok true)
      | Ok (Err _) => ret (Ok false)
      | Err _ => ret (Err Helper_ProviderError)
      end
  end.

Definition append_hash (t : BuiltBlockTrace) (b : PartialBlock) : BuiltBlockTrace :=
  match last (pb_executed_tx_infos b) with
  | Some i => set_appended t (bt_appended_constraint_txs t ++ [tx_hash (ti_tx i)])
  | None => t
  end.

Fixpoint insert_constraint_txs (executed : gset B256) (raws : list RawBytes)
  : M Helper (result unit BlockBuildingHelperError) :=
  match raws with
  | [] => ret (Ok tt)
  | raw :: raws =>
      let included := match compute_constraint_tx_hash raw with
                      | Ok hash => bool_decide (hash ∈ executed)
                      | Err _ => false
                      end in
      if included then insert_constraint_txs executed raws
      else
        let* r := on_block (execute_constraint_transaction raw) in
        match r with
        | Err e => ret (Err e)
        | Ok appended =>
            let* b := gets (fun h => bl_block (hp_building h)) in
            let* _ := update_trace (fun t => if appended : bool then append_hash t b else t) in
            insert_constraint_txs executed raws
        end
  end.

(** The two nested loops run over all transactions of all constraints. *)
Definition insert_constraint_transactions : M Helper (result unit BlockBuildingHelperError) :=
  match constraints with
  | [] => ret (Ok tt)
  | _ =>
      let* executed := gets (fun h =>
        list_to_set ((fun i => tx_hash (ti_tx i)) <$> pb_executed_tx_infos (bl_block (hp_building h)))) in
      insert_constraint_txs executed
        (constraints ≫= fun c => cm_transactions (c_message c))
  end.

End helper.

(** ** Finalization *)
Section finalize_helper.
Context {W Diff C : Type} `{ChainState W Diff} `{!TxCache W Diff C} `{PayoutSigner}.
Context `{!HashOrder Address} `{!HashOrder nat} `{ConstraintCodec}.
Context (ctx : BlockBuildingContext) (constraints : list Constraints).
Context (db_view : FinalizeError -> bool).
Context (finalize_block_fn : bool -> FinalizeAdjustmentState ->
         M (Building W C) (result (SealedBlock * FinalizeAdjustmentState) FinalizeError)).
Abbreviation Helper := (BlockBuildingHelper W C).

(** Returns the updated [finalize_revert_state]. *)
Definition finalize_block_execution (payout_tx_value : U256) (subsidy : Z)
    (adjust_finalized_block : bool) (rv : FinalizeRevertStateCurrentIteration)
  : M Helper (result FinalizeRevertStateCurrentIteration BlockBuildingHelperError) :=
  let* reward := gets (fun h => pb_coinbase_profit (bl_block (hp_building h))) in
  let* _ := update_trace (fun t => set_values t reward (bt_bid_value t) (bt_true_bid_value t)
                                     (bt_mev_blocker_price t) (bt_subsidy t)
                                     (bt_seen_competition_bid t)) in
  let* r := insert_constraint_transactions ctx constraints in
  match r with
  | Err e => ret (Err e)
  | Ok _ =>
      let* gas := gets hp_payout_tx_gas in
      let* r := on_block (insert_refunds_and_proposer_payout_tx ctx gas payout_tx_value
                            adjust_finalized_block rv) in
      match r with
      | Err e => ret (Err (Helper_InsertPayoutTxErr e))
      | Ok rv =>
          let* true_value := gets (true_block_value ctx) in
          match true_value with
          | Err e => ret (Err e)
          | Ok true_value =>
              let* balance := gets (fun h => state_balance (bl_world (hp_building h))
                                               (ctx_suggested_fee_recipient ctx)) in
              match balance with
              | Err _ => ret (Err Helper_ProviderError)
              | Ok after =>
                  let* start := gets hp_fee_recipient_balance_start in
                  let diff := default 0 (checked_sub after start) in
                  let* _ := update_trace (fun t => set_values t (bt_coinbase_reward t)
                              (Z.max payout_tx_value diff) true_value (ctx_mev_blocker_price ctx) subsidy
                              (bt_seen_competition_bid t)) in
                  ret (Ok rv)
              end
          end
      end
  end.

Definition finalize_block_impl (payout_tx_value : U256) (subsidy : Z)
    (seen_competition_bid : option U256) (adjust_finalized_block : bool)
  : M Helper (result (SealedBlock * BuiltBlockTrace) BlockBuildingHelperError) :=
  let* adjustment := gets hp_adjustment in
  if negb (Bool.eqb adjust_finalized_block (bool_decide (is_Some adjustment)))
  then ret (Err Helper_BlockFinalizedIncorrectly)
  else
    let state := default {| revert_state := FinalizeRevertState_default;
                            account_changed_previous_iteration := [] |} adjustment in
    let* _ := set_adjustment None in
    let* _ := if adjust_finalized_block
              then on_block (adjust_finalize_block_revert_to_prefinalized_state (revert_state state))
              else ret tt in
    let* r := finalize_block_execution payout_tx_value subsidy adjust_finalized_block
                FinalizeRevertState_default in
    match r with
    | Err e => ret (Err e)
    | Ok rv =>
        let* t := gets hp_trace in
        match (if adjust_finalized_block then Ok tt
               else verify_bundle_consistency t (ctx_blocklist ctx)) with
        | Err e => ret (Err (Helper_BundleConsistencyCheckFailed e))
        | Ok _ =>
            let* r := on_block (finalize_block_fn adjust_finalized_block
              {| revert_state := rv;
                 account_changed_previous_iteration := account_changed_previous_iteration state |}) in
            match r with
            | Err e =>
                let* _ := if db_view e then cancel else ret tt in
                ret (Err (Helper_FinalizeError e))
            | Ok (sealed, state) =>
                let* _ := update_trace (fun t => set_values t (bt_coinbase_reward t) (bt_bid_value t)
                            (bt_true_bid_value t) (bt_mev_blocker_price t) (bt_subsidy t)
                            seen_competition_bid) in
                let* t := gets hp_trace in
                let* _ := set_adjustment (Some state) in
                ret (Ok (sealed, t))
            end
        end
    end.

Definition helper_finalize_block (payout_tx_value : U256) (subsidy : Z)
    (seen_competition_bid : option U256) :=
  finalize_block_impl payout_tx_value subsidy seen_competition_bid false.
Definition helper_adjust_finalized_block (payout_tx_value : U256) (subsidy : Z)
    (seen_competition_bid : option U256) :=
  finalize_block_impl payout_tx_value subsidy seen_competition_bid true.

End finalize_helper.
