(* ===== verification/BlockHelperSpec.v ===== *)
(** * Properties of the block building helper

    The consistency check of a trace built by [commit_order] succeeds; a block is
    finalized once and then adjusted; what becomes of constraint transactions. *)

From S2P Require Import Prelude Transactions Bundles Orders SimTypes World CommitMonad OrderCommit OrderCommitSafe OrderCommitSpec OrderCommitProfit OrderPool ConstraintPool PartialBlock PartialBlockInv Finalize BlockHelper.

(** ** Reverted transactions *)

(** Every reverted transaction is one of [txs] that may revert. *)
Definition reverts_allowed (txs : list (TxWithBlobs * bool)) (l : list TransactionExecutionInfo) : Prop :=
  forall i, i ∈ l -> rc_success (ti_receipt i) = false -> (ti_tx i, true) ∈ txs.

Lemma reverts_allowed_nil txs : reverts_allowed txs [].
Proof. by intros i ?%elem_of_nil. Qed.
Lemma reverts_allowed_app txs l1 l2 :
  reverts_allowed txs l1 -> reverts_allowed txs l2 -> reverts_allowed txs (l1 ++ l2).
Proof. intros H1 H2 i [?|?]%elem_of_app ?; eauto. Qed.
Lemma reverts_allowed_one txs i :
  (rc_success (ti_receipt i) = false -> (ti_tx i, true) ∈ txs) -> reverts_allowed txs [i].
Proof. by intros Hi j ->%list_elem_of_singleton. Qed.
Lemma reverts_allowed_mono txs txs' l : txs ⊆ txs' -> reverts_allowed txs l -> reverts_allowed txs' l.
Proof. intros Hs Hl i Hi Hr. by apply Hs, Hl. Qed.

Section reverts.
Context {W Diff C : Type} `{ChainState W Diff} `{!TxCache W Diff C}.
Context `{PayoutSigner} `{!PayoutSignerOk}.
Context `{!HashOrder Address} `{!HashOrder nat}.
Context (ctx : BlockBuildingContext).
Abbreviation Fork := (PartialBlockFork W C).

Lemma bundle_outcome_allowed bundle skip txs l :
  bundle_outcome bundle skip txs l ->
  reverts_allowed ((fun tx => (tx, is_tx_optional bundle (tx_hash tx))) <$> txs) l.
Proof.
  induction 1 as [| tx txs i l Ht Hs _ IH | tx txs l Hs _ IH].
  - apply reverts_allowed_nil.
  - rewrite fmap_cons. intros j [-> | Hj]%elem_of_cons Hr; [| right; by apply IH].
    apply elem_of_cons. left. rewrite Ht. f_equal. symmetry. unfold is_tx_optional. apply orb_true_intro. left.
    apply bool_decide_eq_true. destruct Hs as [Hs | [Hs _]]; [congruence | done].
  - intros j Hj Hr. rewrite fmap_cons. right. by apply IH.
Qed.

Lemma bundle_included_allowed bundle skip ok :
  bundle_included ctx bundle skip ok -> reverts_allowed (Bundle_list_txs bundle) (bo_tx_infos ok).
Proof.
  intros (l & p & -> & Ho & Hp). apply reverts_allowed_app; [by eapply bundle_outcome_allowed |].
  destruct Hp as [-> | (i & cfg & -> & _ & _ & _ & _ & Hs)]; [apply reverts_allowed_nil |].
  apply reverts_allowed_one. congruence.
Qed.

(** The transactions of one element of a share bundle. *)
Definition body_txs (e : ShareBundleBody) : list (TxWithBlobs * bool) :=
  match e with
  | Body_Tx t => [(sbt_tx t, can_revert (revert_behavior t))]
  | Body_Bundle inner => Inner_list_txs inner
  end.

Lemma share_bundle_allowed bundle s0 skip :
  ensures (S := Fork) (commit_share_bundle_inner ctx bundle s0 skip)
    (on_ok (fun r => reverts_allowed (Inner_list_txs bundle) (bo_tx_infos (sr_bundle_ok r)))).
Proof.
  revert s0. induction bundle as [body refund config can_skip oid IH] using ShareBundleInner_tree_ind.
  intros s0. cbn [commit_share_bundle_inner]. apply execute_with_rollback_ensures.
  set (all := Inner_list_txs _).
  apply ensures_skip. intros before.
  eapply ensures_bind with (Q1 := on_ok (fun r => reverts_allowed all (bo_tx_infos r.1.1))).
  2: { intros [[[b profit] payouts] |] Hb; [| by apply ensures_ret]. unfold finish_share_bundle.
       repeat (case_match || apply ensures_skip; intros ?); by apply ensures_ret. }
  assert (concat (map body_txs body) ⊆ all) as Hsub by done. revert Hsub.
  assert (reverts_allowed all (bo_tx_infos (empty_bundle_ok s0))) as Hl by apply reverts_allowed_nil.
  revert Hl. clearbody all. generalize O, (empty_bundle_ok s0), 0, (∅ : gmap Address U256).
  induction IH as [| e body He IHall IH]; intros idx b profit payouts Hl Hsub; [by apply ensures_ret |].
  simpl in Hsub. apply list_subseteq_app_iff_l in Hsub as [Hs1 Hs2].
  destruct e as [t | inner]; simpl in He, Hs1.
  - apply ensures_skip. intros point. eapply ensures_bind; [apply ensures_commit_tx |].
    intros [ok |] Hok; [| destruct (skip && _); [by apply IH | by apply ensures_ret]].
    destruct Hok as [Htx _ _ _].
    destruct (rc_success _) eqn:Hs; [| destruct (revert_behavior t) eqn:Hrb].
    + apply IH; [| done]. apply reverts_allowed_app; [done |]. apply reverts_allowed_one. congruence.
    + by apply ensures_ret.
    + apply IH; [| done]. apply reverts_allowed_app; [done |]. apply reverts_allowed_one.
      intros _. rewrite Htx. apply Hs1. by left.
    + apply ensures_skip. intros _. by apply IH.
  - eapply ensures_bind; [apply He |]. intros [r |] Hr.
    + apply IH; [| done]. apply reverts_allowed_app; [done |]. exact (reverts_allowed_mono _ _ _ Hs1 Hr).
    + destruct (sbi_can_skip inner); [by apply IH | by apply ensures_ret].
Qed.

Lemma pay_kickbacks_allowed txs payouts reserved b :
  reverts_allowed txs (bo_tx_infos b) ->
  ensures (S := Fork) (pay_kickbacks ctx payouts reserved b)
    (on_ok (fun r => reverts_allowed txs (bo_tx_infos r))).
Proof.
  revert b. induction payouts as [| [to p] payouts IH]; intros b Hb; simpl; [by apply ensures_ret |].
  eapply ensures_bind; [apply payout_inserted |]. intros [r |] Hr; [| by apply ensures_ret].
  destruct Hr as (i & Hi & _ & _ & Hs & _). apply IH. rewrite Hi.
  apply reverts_allowed_app; [done |]. apply reverts_allowed_one. congruence.
Qed.

(** Every executed transaction of an order was allowed by the blocklist, and
    those that reverted may. *)
Definition infos_consistent (order : Order) (l : list TransactionExecutionInfo) : Prop :=
  reverts_allowed (Order_list_txs order) l
  /\ Forall (fun i => touches_blocked (ctx_blocklist ctx) i = false) l.

Lemma run_not_blocked reserved s l s' :
  tx_run (C := C) ctx reserved s l s' ->
  Forall (fun i => touches_blocked (ctx_blocklist ctx) i = false) l.
Proof.
  induction 1 as [| l s1 i _ IH [_ Ha _]]; [constructor |]. apply Forall_app_2; [done |].
  constructor; [exact Ha | constructor].
Qed.

Lemma ensures_and {S A} (m : M S A) (Q1 Q2 : A -> Prop) :
  ensures m Q1 -> ensures m Q2 -> ensures m (fun a => Q1 a /\ Q2 a).
Proof. intros H1' H2' s s' a Hm. split; eauto. Qed.

Lemma bundle_result_infos r before (Q : list TransactionExecutionInfo -> Prop) :
  on_ok (fun b => Q (bo_tx_infos b)) r ->
  ensures (S := Fork) (bundle_to_order_result ctx r before) (on_ok (fun ok => Q (oo_tx_infos ok))).
Proof.
  intros Hr. unfold bundle_to_order_result. destruct r as [b |]; [| by apply ensures_ret].
  apply ensures_skip. intros [p |]; [| by apply ensures_ret]. apply ensures_skip. intros t.
  by apply ensures_ret.
Qed.

Lemma ensures_order_consistent order s0 skip combined :
  ensures (commit_order ctx order s0 skip combined)
    (on_ok (fun ok => infos_consistent order (oo_tx_infos ok))).
Proof.
  apply execute_with_rollback_ensures. destruct order as [b | tx | b]; simpl.
  - apply ensures_skip. intros before. eapply ensures_bind;
      [apply ensures_and; [apply (ensures_bundle_included ctx) | apply (ensures_commit_bundle ctx)] |].
    intros r [Hi Hl]. apply bundle_result_infos. destruct r as [ok |]; [| done]. simpl in *.
    split; [by eapply bundle_included_allowed |]. destruct Hl as [[Hrun _ _] _].
    by eapply run_not_blocked.
  - eapply ensures_bind; [apply (ensures_commit_tx ctx) |]. intros [ok |] Hok; [| by apply ensures_ret].
    assert (infos_consistent (Order_Tx tx) [to_tx_info ok]) as Hc.
    { destruct Hok as [Ht [_ Ha _] _ _]. split; [| by constructor].
      apply reverts_allowed_one. intros _. rewrite Ht. by left. }
    repeat (case_match || apply ensures_skip; intros ?); by apply ensures_ret.
  - apply ensures_skip. intros before.
    eapply ensures_bind with (Q1 := on_ok (fun r => infos_consistent (Order_ShareBundle b) (bo_tx_infos r)));
      [| intros r Hr; by apply bundle_result_infos].
    eapply ensures_wand; [apply ensures_and; [apply (ensures_commit_share_bundle ctx) |] |].
    + instantiate (1 := on_ok (fun r => reverts_allowed (Order_list_txs (Order_ShareBundle b)) (bo_tx_infos r))).
      unfold commit_share_bundle. case_match; [| by apply ensures_ret].
      apply execute_with_rollback_ensures. unfold commit_share_bundle_no_rollback.
      eapply ensures_bind; [apply share_bundle_allowed |].
      intros [r |] Hr; [by apply pay_kickbacks_allowed | by apply ensures_ret].
    + intros [r |] [Hl Ha]; [| done]. destruct Hl as [[Hrun _ _] _].
      split; [done | by eapply run_not_blocked].
Qed.

End reverts.

(** ** The consistency check of the trace *)
Lemma bundle_txs_sticky l m h :
  m !! h = Some true ->
  foldl (fun (m : gmap TxHash bool) p => match m !! tx_hash p.1 with
               | None => <[tx_hash p.1 := p.2]> m
               | Some stored => if negb stored && p.2 then <[tx_hash p.1 := p.2]> m else m
               end) m l !! h = Some true.
Proof.
  revert m. induction l as [| [tx r] l IH]; intros m Hm; [done |]. cbn [foldl fst snd]. apply IH.
  destruct (decide (tx_hash tx = h)) as [<- | Hne]; [by rewrite Hm |].
  destruct (m !! tx_hash tx) as [[|] |]; [done | destruct r; simpl |]; by rewrite ?lookup_insert_ne.
Qed.

(** A transaction that may revert somewhere in the order is known to. *)
Lemma bundle_txs_revertible order tx :
  (tx, true) ∈ Order_list_txs order -> bundle_txs order !! tx_hash tx = Some true.
Proof.
  unfold bundle_txs. generalize (∅ : gmap TxHash bool). induction (Order_list_txs order) as [| [tx' r] l IH];
    intros m; [by intros ?%elem_of_nil |].
  intros [[= <- <-] | Hin]%elem_of_cons; cbn [foldl fst snd]; [| by apply IH].
  apply bundle_txs_sticky. destruct (m !! tx_hash tx) as [[|] |] eqn:Hm; simpl; [done | |];
    by rewrite lookup_insert_eq.
Qed.

Section check.
Context {W Diff C : Type} `{ChainState W Diff} `{!ChainStateOk W Diff} `{!TxCache W Diff C}.
Context `{PayoutSigner} `{!PayoutSignerOk}.
Context `{!HashOrder Address} `{!HashOrder nat}.
Context (ctx : BlockBuildingContext).
Abbreviation Block := (Building W C).
Abbreviation Helper := (BlockBuildingHelper W C).

Lemma verify_consistent res :
  infos_consistent ctx (er_order res) (er_tx_infos res) -> verify_order (ctx_blocklist ctx) res = Ok tt.
Proof.
  intros [Hr Hb]. unfold verify_order.
  destruct (existsb _ _) eqn:He.
  { apply existsb_exists in He as (i & Hin%list_elem_of_In & Hi). rewrite Forall_forall in Hb.
    by rewrite Hb in Hi. }
  destruct (list_find _ _) as [[k i] |] eqn:Hf; [| done].
  apply list_find_Some in Hf as (Hk & Hbad & _). unfold bad_revert in Hbad.
  destruct (bundle_txs _ !! _) as [can |] eqn:Ht; [| done].
  destruct (rc_success _) eqn:Hs; [done |].
  rewrite (bundle_txs_revertible _ (ti_tx i)) in Ht by (apply Hr; [by eapply list_elem_of_lookup_2 | done]).
  by injection Ht as <-.
Qed.

Definition trace_ok (h : Helper) : Prop :=
  Forall (fun res => infos_consistent ctx (er_order res) (er_tx_infos res))
    (bt_included_orders (hp_trace h)).

Lemma trace_ok_verifies h :
  trace_ok h -> verify_bundle_consistency (hp_trace h) (ctx_blocklist ctx) = Ok tt.
Proof.
  unfold trace_ok, verify_bundle_consistency.
  induction 1 as [| res l Hres _ IH]; [done |]. simpl. by rewrite verify_consistent.
Qed.

(** The result that the block reports is that of the executed order. *)
Lemma pb_commit_order_consistent order fl (s s' : Block) er :
  pb_commit_order ctx order fl s = (s', Done (Ok er)) -> infos_consistent ctx (er_order er) (er_tx_infos er).
Proof.
  unfold pb_commit_order. destruct (pb_commit_order_inner _ _ _ _) as [s1 r1] eqn:Hc. intros [= _ ->].
  apply bind_Done in Hc as (b & s2 & [= <- <-] & Hc).
  apply bind_Done in Hc as ([[ok sim] | e] & s3 & Hrun & Hc); [| done].
  apply bind_Done in Hc as (u & s4 & _ & [= _ <-]). simpl.
  apply run_fork_result in Hrun as (f' & Hf & _).
  apply bind_Done in Hf as (point & f1 & [= <- <-] & Hf).
  apply bind_Done in Hf as ([ok' | e] & f2 & Hco & Hf); [| done].
  cbv zeta in Hf. destruct (fl _); [| by apply bind_Done in Hf as (? & ? & _ & ?)].
  injection Hf as _ <- _. exact (ensures_order_consistent ctx _ _ _ _ _ _ _ Hco).
Qed.

Lemma helper_commit_order_trace order fl h h' r :
  trace_ok h -> helper_commit_order ctx order fl h = (h', r) -> trace_ok h'.
Proof.
  intros Ht. unfold helper_commit_order, bind, update_trace, modify, on_block. cbn [hp_building].
  destruct (pb_commit_order _ _ _ _) as [s1 [[res | e] | e |]] eqn:Hc; intros [= <- _]; try exact Ht.
  apply pb_commit_order_consistent in Hc. apply Forall_app_2; [exact Ht |]. by constructor.
Qed.

(** Any number of attempts, whatever their results. *)
Definition commit_orders (h : Helper) (l : list (SimulatedOrder * (SimValue -> result unit ExecutionError)))
  : Helper := foldl (fun h p => (helper_commit_order ctx p.1 p.2 h).1) h l.

Lemma commit_orders_trace h l : trace_ok h -> trace_ok (commit_orders h l).
Proof.
  unfold commit_orders. revert h. induction l as [| [o fl] l IH]; intros h Ht; [done |].
  cbn [foldl fst snd]. apply IH. destruct (helper_commit_order _ _ _ _) as [h' r] eqn:Hc.
  by eapply helper_commit_order_trace.
Qed.

Lemma new_helper_trace healthy w (c : C) discard wl sc available h :
  new_with_execution_tracer ctx healthy w c discard wl sc available = Ok h ->
  hp_trace h = {| bt_included_orders := []; bt_bid_value := 0; bt_subsidy := 0;
                  bt_coinbase_reward := 0; bt_true_bid_value := 0; bt_mev_blocker_price := 0;
                  bt_seen_competition_bid := None; bt_available_orders_statistics := available;
                  bt_considered_orders_statistics := OrderStatistics_default;
                  bt_failed_orders_statistics := OrderStatistics_default;
                  bt_filtered_build_considered_orders_statistics := OrderStatistics_default;
                  bt_filtered_build_failed_orders_statistics := OrderStatistics_default;
                  bt_appended_constraint_txs := [] |}.
Proof.
  unfold new_with_execution_tracer. destruct healthy; [| done].
  destruct (map_err _ (state_balance _ _)); [| done]. destruct (map_err _ (pre_block_call _ _ _)); [| done].
  destruct (map_err _ (estimate_payout_gas_limit _ _ _ _)); [| done]. by intros [= <-].
Qed.

(** C30. Whatever orders a new helper tries to commit, with whatever results, the
    consistency check of its trace succeeds: no included order touches a
    blocked address and no transaction reverted that must not, for bundles
    and nested share bundles alike. *)
Theorem consistency_check_passes healthy w (c : C) discard wl sc available h l :
  new_with_execution_tracer ctx healthy w c discard wl sc available = Ok h ->
  verify_bundle_consistency (hp_trace (commit_orders h l)) (ctx_blocklist ctx) = Ok tt.
Proof.
  intros Hnew%new_helper_trace. apply trace_ok_verifies, commit_orders_trace.
  unfold trace_ok. rewrite Hnew. constructor.
Qed.

End check.

(** ** Constraint transactions *)
Section constraint_txs.
Context {W Diff C : Type} `{ChainState W Diff} `{!ChainStateOk W Diff} `{!TxCache W Diff C}.
Context `{PayoutSigner} `{!PayoutSignerOk}.
Context `{!HashOrder Address} `{!HashOrder nat} `{ConstraintCodec}.
Context (ctx : BlockBuildingContext).
Abbreviation Block := (Building W C).
Abbreviation Helper := (BlockBuildingHelper W C).

(** [insert_constraint_transactions] as one loop, also without constraints. *)
Lemma insert_constraint_transactions_loop cs (h : Helper) :
  insert_constraint_transactions ctx cs h
  = insert_constraint_txs ctx
      (list_to_set ((fun i => tx_hash (ti_tx i)) <$> pb_executed_tx_infos (bl_block (hp_building h))))
      (cs ≫= fun c => cm_transactions (c_message c)) h.
Proof. by destruct cs. Qed.

(** A transaction that does not decode is never appended. *)
Lemma undecodable_stops executed raws raw (h h' : Helper) r :
  raw ∈ raws -> is_ok (decode_constraint_tx raw) = false ->
  insert_constraint_txs ctx executed raws h = (h', r) -> r <> Done (Ok tt).
Proof.
  intros Hin Hd. revert h. induction raws as [| raw' raws IH]; intros h; [by apply elem_of_nil in Hin |].
  cbn [insert_constraint_txs].
  apply elem_of_cons in Hin as [<- | Hin].
  - unfold compute_constraint_tx_hash. destruct (decode_constraint_tx raw) as [tx | e] eqn:He; [done |].
    cbv zeta iota. unfold bind at 1, on_block, execute_constraint_transaction. rewrite He.
    by intros [= _ <-].
  - specialize (IH Hin). cbv zeta. destruct (match compute_constraint_tx_hash raw' with Ok _ => _ | Err _ => _ end);
      [apply IH |].
    unfold bind at 1. destruct (on_block _ _) as [h1 [[b | e] | e |]]; [| by intros [= _ <-]..].
    unfold bind at 1, gets, bind at 1, update_trace, modify. apply IH.
Qed.

(** C40. If a constraint of the block holds a transaction that does not decode, no
    call to finalize or adjust the block succeeds. *)
Theorem undecodable_constraint_blocks_finalization cs c raw (db_view : FinalizeError -> bool) fin
    payout subsidy seen adjust (h h' : Helper) r :
  c ∈ cs -> raw ∈ cm_transactions (c_message c) -> is_ok (decode_constraint_tx raw) = false ->
  finalize_block_impl ctx cs db_view fin payout subsidy seen adjust h = (h', r) ->
  ~ exists sealed, r = Done (Ok sealed).
Proof.
  intros Hc Hraw Hd Hf [sealed ->]. unfold finalize_block_impl in Hf.
  apply bind_Done in Hf as (adj & h1 & [= <- <-] & Hf). destruct (negb _); [done |]. cbv zeta in Hf.
  apply bind_Done in Hf as (u1 & h2 & _ & Hf). apply bind_Done in Hf as (u2 & h3 & _ & Hf).
  apply bind_Done in Hf as ([rv | e] & h4 & He & Hf); [clear Hf | done].
  unfold finalize_block_execution in He. apply bind_Done in He as (reward & h5 & _ & He).
  apply bind_Done in He as (u3 & h6 & _ & He).
  apply bind_Done in He as ([[] | e] & h7 & Hi & He); [| done].
  rewrite insert_constraint_transactions_loop in Hi.
  eapply undecodable_stops in Hi; [done | | exact Hd]. apply list_elem_of_bind. by exists c.
Qed.

(** How a decoded constraint transaction is executed. *)
Lemma execute_decoded raw tx (s : Block) :
  decode_constraint_tx raw = Ok tx ->
  execute_constraint_transaction ctx raw s =
  match commit_tx ctx tx (pb_space_state (bl_block s)) (PartialBlockFork_new (bl_world s) (bl_cache s) None) with
  | (f, Done (Ok ok)) =>
      (Build_Building (push_constraint (bl_block s) ok) (fk_world f) (fk_cache f), Done (Ok true))
  | (f, Done (Err _)) => (Build_Building (bl_block s) (fk_world f) (fk_cache f), Done (Ok false))
  | (f, Critical _) =>
      (Build_Building (bl_block s) (fk_world f) (fk_cache f), Done (Err Helper_ProviderError))
  | (f, Panic) => (Build_Building (bl_block s) (fk_world f) (fk_cache f), Panic)
  end.
Proof.
  intros Hd. unfold execute_constraint_transaction. rewrite Hd. unfold bind at 1, gets, bind at 1, catch, run_untraced.
  destruct (commit_tx _ _ _ _) as [f [[ok | e] | e |]]; done.
Qed.

(** A transaction that cannot fit is refused before anything else. *)
Lemma commit_tx_refused tx space e (f : PartialBlockFork W C) :
  can_fit_tx ctx (tx_space_needed tx) (blobs_gas_used tx) space = Err e ->
  exists f', commit_tx ctx tx space f = (f', Done (Err e)) /\ fk_world f' = fk_world f.
Proof. intros He. unfold commit_tx, commit_tx_inner. rewrite He. by eexists. Qed.

(** When the orders of a block used all the gas available to them, the gas limit
    less the gas reserved for constraints, every constraint transaction is
    refused: the space check of constraint transactions does not give them
    the gas reserved for them. *)
Theorem constraint_reservation_unusable cs raw tx (s s' : Block) r :
  ctx_gas_available ctx
    = gas_available_for (ctx_gas_limit ctx) (calculate_constraint_gas_reservation cs) ->
  decode_constraint_tx raw = Ok tx -> 0 < ts_gas_limit (txb_tx tx) < 2 ^ 62 ->
  bs_gas (total_consumed_space (pb_space_state (bl_block s))) = ctx_gas_available ctx ->
  ctx_gas_limit ctx < 2 ^ 62 ->
  execute_constraint_transaction ctx raw s = (s', r) ->
  r = Done (Ok false) /\ bl_block s' = bl_block s /\ bl_world s' = bl_world s.
Proof.
  intros Havail Hd Hgas Hfull Hlim. rewrite (execute_decoded _ _ _ Hd).
  assert (exists e, can_fit_tx ctx (tx_space_needed tx) (blobs_gas_used tx) (pb_space_state (bl_block s))
                    = Err e) as [e He].
  { unfold can_fit_tx. case_decide; [by eexists |]. rewrite Hfull.
    assert (0 <= calculate_constraint_gas_reservation cs).
    { rewrite constraint_gas_reservation_eq. apply wrap_nonneg. lia. }
    assert (0 <= ctx_gas_available ctx < 2 ^ 62).
    { rewrite Havail. unfold gas_available_for, saturating_sub. lia. }
    simpl bs_gas. rewrite u64_add_small by lia. rewrite decide_True by lia. by eexists. }
  destruct (commit_tx_refused _ _ _ (PartialBlockFork_new (bl_world s) (bl_cache s) None) He) as (f' & -> & Hw).
  intros [= <- <-]. done.
Qed.

(** An executed constraint transaction raises the profit of the block by the
    absolute difference of the coinbase balances, also when the coinbase
    lost. *)
Theorem constraint_profit_is_absolute raw (s s' : Block) :
  execute_constraint_transaction ctx raw s = (s', Done (Ok true)) ->
  exists before after,
    state_balance (bl_world s) (ctx_beneficiary ctx) = Ok before
    /\ state_balance (bl_world s') (ctx_beneficiary ctx) = Ok after
    /\ pb_coinbase_profit (bl_block s')
       = u256_add (pb_coinbase_profit (bl_block s)) (Z.abs (after - before)).
Proof.
  destruct (decode_constraint_tx raw) as [tx | e] eqn:Hd.
  2: { unfold execute_constraint_transaction. by rewrite Hd. }
  rewrite (execute_decoded _ _ _ Hd).
  destruct (commit_tx _ _ _ _) as [f [[ok | e] | e |]] eqn:Hc; intros [= <-].
  apply commit_tx_profit in Hc as (before & after & Hb & Ha & _ & _ & Hp).
  exists before, after. simpl. by rewrite Hp.
Qed.

(** What one execution adds to the block. *)
Lemma execute_adds raw (s s' : Block) b :
  execute_constraint_transaction ctx raw s = (s', Done (Ok b)) ->
  exists new, pb_executed_tx_infos (bl_block s') = pb_executed_tx_infos (bl_block s) ++ new
    /\ if b : bool then exists i, new = [i] /\ decode_constraint_tx raw = Ok (ti_tx i) else new = [].
Proof.
  destruct (decode_constraint_tx raw) as [tx | e] eqn:Hd.
  2: { unfold execute_constraint_transaction. by rewrite Hd. }
  rewrite (execute_decoded _ _ _ Hd).
  destruct (commit_tx _ _ _ _) as [f [[ok | e] | e |]] eqn:Hc; intros [= <- <-].
  - pose proof (ensures_commit_tx ctx _ _ _ _ _ Hc) as [Ht _ _ _]. exists [to_tx_info ok].
    split; [done |]. exists (to_tx_info ok). split; [done | by rewrite Ht].
  - exists []. split; [by rewrite app_nil_r | done].
Qed.

Definition helper_infos (h : Helper) : list TransactionExecutionInfo :=
  pb_executed_tx_infos (bl_block (hp_building h)).
Definition helper_appended (h : Helper) : list TxHash := bt_appended_constraint_txs (hp_trace h).

(** The transactions [new] come from [raws], and none was in the block before. *)
Definition appended_from (executed : gset B256) (raws : list RawBytes)
    (new : list TransactionExecutionInfo) : Prop :=
  Forall (fun i => (exists raw, raw ∈ raws /\ decode_constraint_tx raw = Ok (ti_tx i))
                   /\ tx_hash (ti_tx i) ∉ executed) new.

Lemma insert_constraint_txs_tracked executed raws (h h' : Helper) :
  insert_constraint_txs ctx executed raws h = (h', Done (Ok tt)) ->
  exists new, helper_infos h' = helper_infos h ++ new
    /\ helper_appended h' = helper_appended h ++ ((fun i => tx_hash (ti_tx i)) <$> new)
    /\ appended_from executed raws new.
Proof.
  revert h. induction raws as [| raw raws IH]; intros h; cbn [insert_constraint_txs].
  { intros [= <-]. exists []. rewrite !app_nil_r. split; [done |]. split; [done | constructor]. }
  assert (forall new, appended_from executed raws new -> appended_from executed (raw :: raws) new) as Hmono.
  { intros new Hn. eapply Forall_impl; [exact Hn |]. intros i [(raw' & ? & ?) ?].
    split; [exists raw'; split; [by right | done] | done]. }
  cbv zeta. destruct (match compute_constraint_tx_hash raw with Ok _ => _ | Err _ => _ end) eqn:Hinc.
  { intros (new & ? & ? & ?)%IH. exists new. auto. }
  intros Hc. apply bind_Done in Hc as ([b | e] & h1 & Hex & Hc); [| done].
  unfold on_block in Hex. destruct (execute_constraint_transaction _ _ _) as [s1 r1] eqn:He.
  injection Hex as <- ->. apply execute_adds in He as (new1 & Hinfos & Hb).
  apply bind_Done in Hc as (b' & h2 & [= <- <-] & Hc). apply bind_Done in Hc as (u & h3 & [= <-] & Hc).
  apply IH in Hc as (new & Hi & Ha & Hf). unfold helper_infos, helper_appended in *. simpl in *.
  exists (new1 ++ new). rewrite Hi, Hinfos, <- app_assoc. split; [done |]. rewrite Ha.
  destruct b.
  - destruct Hb as (i & -> & Hd). unfold append_hash. rewrite Hinfos, last_snoc. simpl.
    rewrite <- app_assoc. split; [done |]. constructor; [| by apply Hmono].
    split; [exists raw; split; [by left | done] |].
    unfold compute_constraint_tx_hash in Hinc. rewrite Hd in Hinc. by apply bool_decide_eq_false in Hinc.
  - subst new1. simpl. split; [done | by apply Hmono].
Qed.

(** C31. Inserting the constraint transactions only appends to the block: the new
    transactions come from the constraints, were not in the block before,
    and their hashes are exactly those added to the list of appended
    constraint transactions. *)
Theorem constraints_appended_and_tracked cs (h h' : Helper) :
  insert_constraint_transactions ctx cs h = (h', Done (Ok tt)) ->
  exists new, helper_infos h' = helper_infos h ++ new
    /\ helper_appended h' = helper_appended h ++ ((fun i => tx_hash (ti_tx i)) <$> new)
    /\ appended_from (list_to_set ((fun i => tx_hash (ti_tx i)) <$> helper_infos h))
         (cs ≫= fun c => cm_transactions (c_message c)) new.
Proof. rewrite insert_constraint_transactions_loop. apply insert_constraint_txs_tracked. Qed.

(** Nothing but [finalize_block_impl] touches the adjustment state. *)
Definition same_adjustment (h h' : Helper) : Prop := hp_adjustment h' = hp_adjustment h.
#[local] Instance same_adjustment_preorder : PreOrder same_adjustment.
Proof. split; [by intros h | intros h1 h2 h3 H12 H23; unfold same_adjustment in *; congruence]. Qed.

Lemma keeps_bind {A B} (m : M Helper A) (k : A -> M Helper B) :
  relates same_adjustment m -> (forall a, relates same_adjustment (k a)) ->
  relates same_adjustment (bind m k).
Proof. apply relates_bind, _. Qed.
Lemma keeps_ret {A} (a : A) : relates same_adjustment (ret a).
Proof. by intros h. Qed.
Lemma keeps_gets {A} (g : Helper -> A) : relates same_adjustment (gets g).
Proof. by intros h. Qed.
Lemma keeps_trace g : relates same_adjustment (update_trace (W := W) (C := C) g).
Proof. by intros h. Qed.
Lemma keeps_cancel : relates same_adjustment (cancel (W := W) (C := C)).
Proof. by intros h. Qed.
Lemma keeps_on_block {A} (m : M Block A) : relates same_adjustment (on_block m).
Proof. intros h. unfold on_block. by destruct (m _). Qed.

Ltac keeps := repeat first
  [ apply keeps_ret | apply keeps_gets | apply keeps_trace | apply keeps_cancel | apply keeps_on_block
  | apply keeps_bind; [| intros ?] | case_match ].

Lemma keeps_insert_constraint_txs executed raws :
  relates same_adjustment (insert_constraint_txs ctx executed raws).
Proof. induction raws as [| raw raws IH]; cbn [insert_constraint_txs]; keeps; apply IH. Qed.

Lemma keeps_execution cs payout subsidy adjust rv :
  relates same_adjustment (finalize_block_execution ctx cs payout subsidy adjust rv).
Proof.
  unfold finalize_block_execution. keeps. intros h. rewrite insert_constraint_transactions_loop.
  apply keeps_insert_constraint_txs.
Qed.

(** From no adjustment state, success leaves one and an error none. *)
Definition ends {A E} (m : M Helper (result A E)) : Prop := forall h, hp_adjustment h = None ->
  (forall a, (m h).2 = Done (Ok a) -> is_Some (hp_adjustment (m h).1))
  /\ (forall e, (m h).2 = Done (Err e) -> hp_adjustment (m h).1 = None).

Lemma ends_bind {A B E} (m : M Helper A) (k : A -> M Helper (result B E)) :
  relates same_adjustment m -> (forall a, ends (k a)) -> ends (bind m k).
Proof.
  intros Hm Hk h Hh. specialize (Hm h). unfold bind. destruct (m h) as [h1 [a | e |]]; simpl in *; [| done..].
  apply Hk. unfold same_adjustment in Hm. congruence.
Qed.
Lemma ends_err {A E} (e : E) : ends (A := A) (ret (Err e)).
Proof. intros h Hh. by split. Qed.
Lemma ends_set {A E} st (a : A) : ends (E := E) (let* _ := set_adjustment (Some st) in ret (Ok a)).
Proof. intros h Hh. split; [by eexists | done]. Qed.

(** A helper is finalized once and then only adjusted: the wrong one of the two
    calls changes nothing and is an error, success leaves the data for an
    adjustment, and after any error in between none is left. *)
Theorem finalize_then_adjust cs (db_view : FinalizeError -> bool) fin payout subsidy seen adjust (h h' : Helper) r :
  finalize_block_impl ctx cs db_view fin payout subsidy seen adjust h = (h', r) ->
  if Bool.eqb adjust (bool_decide (is_Some (hp_adjustment h)))
  then (forall sealed, r = Done (Ok sealed) -> is_Some (hp_adjustment h'))
       /\ (forall e, r = Done (Err e) -> hp_adjustment h' = None)
  else h' = h /\ r = Done (Err Helper_BlockFinalizedIncorrectly).
Proof.
  unfold finalize_block_impl. unfold bind at 1, gets at 1.
  destruct (Bool.eqb _ _); cbn [negb]; [| by intros [= <- <-]].
  cbv zeta. unfold bind at 1, set_adjustment at 1, modify at 1.
  match goal with |- ?m ?h0 = _ -> _ =>
    assert (ends m) as Hm; [| intros Hr; specialize (Hm h0 eq_refl); by rewrite Hr in Hm] end.
  apply ends_bind; [destruct adjust; keeps |]. intros u. apply ends_bind; [apply keeps_execution |].
  intros [rv | e]; [| apply ends_err]. apply ends_bind; [keeps |]. intros t.
  case_match; [| apply ends_err]. apply ends_bind; [keeps |]. intros [[sealed st] | e].
  - do 2 (apply ends_bind; [keeps |]; intros ?). apply ends_set.
  - apply ends_bind; [keeps |]. intros ?. apply ends_err.
Qed.

End constraint_txs.
