(* ===== verification/HelperWitnesses.v ===== *)
(** * A block on the small chain

    One bundle and the payment of the proposer, sealed and adjusted. *)

From S2P Require Import Prelude Transactions Bundles Orders SimTypes Samples OrderPool PrimitiveWitnesses World SampleChain CommitMonad OrderCommit OrderCommitSafe OrderCommitSpec CommitWitnesses PartialBlock PartialBlockInv Finalize ConstraintPool BlockHelper BlockHelperSpec.

#[export] Instance small_order_ok : HashOrderOk Z.
Proof. intros s. done. Qed.

#[local] Instance helper_hashing : TxHashing := small_hashing [small_tx 70 3 9 10; small_tx 71 4 13 10].

Definition small_reserved : BlockSpace := BlockSpace_new 21000 238 0.
Definition small_building : Building SmallChain unit :=
  Build_Building (pb_reserve_block_space (PartialBlock_new true) small_reserved) small_world tt.

Lemma small_block_inv : block_inv small_ctx BlockSpace_ZERO small_reserved (bl_block small_building).
Proof.
  split; [vm_compute; reflexivity | apply chain_nil | | vm_compute; reflexivity].
  split; vm_compute; repeat split; discriminate.
Qed.

Definition small_sim : SimulatedOrder := sample_sim (small_bundle [71]) 42000 42000.
Definition accept_all (_ : SimValue) : result unit ExecutionError := Ok tt.
Definition after_order : Building SmallChain unit :=
  (pb_commit_order small_ctx small_sim accept_all small_building).1.

Lemma small_sim_proper : proper_order (so_order small_sim).
Proof. repeat constructor; vm_compute; try reflexivity; discriminate. Qed.

Lemma after_order_inv : block_inv small_ctx BlockSpace_ZERO small_reserved (bl_block after_order).
Proof.
  eapply (pb_commit_order_spec small_ctx small_sane small_sim accept_all small_building after_order
              (pb_commit_order small_ctx small_sim accept_all small_building).2
              BlockSpace_ZERO small_reserved small_sim_proper small_cache_sound small_block_inv).
  unfold after_order. destruct (pb_commit_order _ _ _ _). reflexivity.
Qed.

(** A block whose executions are cached. *)
Definition keeping_building (c : KeepingCache) : Building SmallChain KeepingCache :=
  Build_Building (pb_reserve_block_space (PartialBlock_new true) small_reserved) small_world c.
Definition commit_keeping (c : KeepingCache) :=
  pb_commit_order small_ctx small_sim accept_all (keeping_building c).
Definition filled_by_block : KeepingCache := bl_cache (commit_keeping ∅).1.

(** The bundle fills the cache of a first block and is answered from it in a second one:
    the invariant holds after the bundle, and its two transactions are in. *)
Lemma block_commit_order_witness :
  is_Some (filled_by_block !! (70, small_coinbase)) /\ is_Some (filled_by_block !! (71, small_coinbase))
  /\ block_inv small_ctx BlockSpace_ZERO small_reserved (bl_block (commit_keeping filled_by_block).1)
  /\ length (pb_executed_tx_infos (bl_block (commit_keeping filled_by_block).1)) = 2%nat.
Proof.
  split; [vm_compute; eauto |]. split; [vm_compute; eauto |]. split; [| vm_compute; reflexivity].
  assert (cache_sound (W := SmallChain) small_ctx filled_by_block) as Hfilled.
  { destruct (block_commit_order small_ctx small_sane small_sim accept_all (keeping_building ∅)
                (commit_keeping ∅).1 (commit_keeping ∅).2 BlockSpace_ZERO small_reserved small_sim_proper
                new_cache_sound small_block_inv) as (_ & _ & Hc & _); [| exact Hc].
    unfold commit_keeping. destruct (pb_commit_order _ _ _ _). reflexivity. }
  destruct (block_commit_order small_ctx small_sane small_sim accept_all (keeping_building filled_by_block)
              (commit_keeping filled_by_block).1 (commit_keeping filled_by_block).2
              BlockSpace_ZERO small_reserved small_sim_proper Hfilled small_block_inv) as (_ & Hinv & _).
  - unfold commit_keeping. destruct (pb_commit_order _ _ _ _). reflexivity.
  - exact Hinv.
Defined.

(** A bundle that must not revert is refused, and the block is as before. *)
Definition small_revert_order : SimulatedOrder := sample_sim (small_bundle []) 42000 42000.

Definition paid (s : Building SmallChain unit) :=
  insert_refunds_and_proposer_payout_tx small_ctx 21000 1000 false FinalizeRevertState_default s.

Lemma reserved_gas_suffices_witness :
  (paid small_building).2 <> Panic
  /\ (paid small_building).2 <> Done (Err (Payout_TxErr TxErr_GasLeft)).
Proof.
  apply (reserved_gas_suffices small_ctx small_sane 21000 1000 false FinalizeRevertState_default
           BlockSpace_ZERO small_reserved small_building (paid small_building).1
           (paid small_building).2 small_cache_sound small_block_inv); [vm_compute; split; discriminate |].
  fold (paid small_building). destruct (paid small_building). reflexivity.
Defined.

Definition small_forks : ForkSchedule :=
  {| is_shanghai := true; is_cancun := true; is_prague := true; is_osaka := false |}.
Definition small_post (w : SmallChain) (r : option (list TxReceipt)) (m : gmap Address Z)
  : result (option B256 * gmap Address AccountInfo) FinalizeError :=
  Ok (Some 1, add_balance ∅ w 6 (default 0 (m !! 6))).
Definition small_finalize (adjust : bool) (st : FinalizeAdjustmentState) :=
  finalize (W := SmallChain) (C := unit) small_ctx small_forks [{| wd_address := 6; wd_amount := 2 |}]
    (Some 0) small_post (fun _ => 2) (fun _ => (3, 4)) (fun _ => 5) (fun _ _ => Ok 6) adjust st.

Definition small_paid : Building SmallChain unit := (paid small_building).1.
Definition small_rv : FinalizeRevertStateCurrentIteration :=
  ok_of FinalizeRevertState_default (paid small_building).2.
Definition small_st : FinalizeAdjustmentState :=
  {| revert_state := small_rv; account_changed_previous_iteration := [] |}.
Definition small_final := small_finalize false small_st small_paid.
Definition no_seal : SealedBlock * FinalizeAdjustmentState :=
  (seal small_ctx small_forks [] None (fun _ => (3, 4)) (fun _ => 5) (PartialBlock_new true) 0 None None,
   small_st).
Definition small_sealed := ok_of no_seal small_final.2.

(** The gas used in the header is what the last receipt reports. *)
Definition after_final := small_finalize false small_st after_order.
Lemma sealed_block_gas_witness :
  hd_gas_used (sl_header (ok_of no_seal after_final.2).1)
    = default 0 (rc_cumulative_gas_used
                   <$> last (ti_receipt <$> pb_executed_tx_infos (bl_block after_order)))
  /\ hd_gas_used (sl_header (ok_of no_seal after_final.2).1) = 42000.
Proof.
  split; [| vm_compute; reflexivity].
  assert (after_final = (after_final.1, Done (Ok (ok_of no_seal after_final.2)))) as Hf
    by (vm_compute; reflexivity).
  destruct (ok_of no_seal after_final.2) as [sealed st'] eqn:Hs. unfold after_final, small_finalize in Hf.
  pose proof after_order_inv as Hinv.
  destruct (sealed_block_gas small_ctx small_forks _ _ small_sane _ _ _ _ _ _ _ _ _ _ _
              BlockSpace_ZERO small_reserved Hinv eq_refl Hf) as [Hg _].
  exact Hg.
Defined.

Lemma adjust_takes_payment_back_witness :
  exists mid s3, before_payment small_ctx false small_building mid
    /\ adjust_finalize_block_revert_to_prefinalized_state (revert_state small_sealed.2) small_final.1
       = (s3, Done tt)
    /\ same_block (bl_block mid) (bl_block s3) /\ bl_world s3 ≡ bl_world mid.
Proof.
  assert (paid small_building = (small_paid, Done (Ok small_rv))) as Hp by (vm_compute; reflexivity).
  assert (small_final = (small_final.1, Done (Ok (small_sealed.1, small_sealed.2)))) as Hf
    by (vm_compute; reflexivity).
  unfold paid in Hp. unfold small_final at 1, small_finalize, small_st in Hf.
  exact (adjust_takes_payment_back small_ctx small_forks _ _ small_sane _ _ _ _ _ 21000 1000 false
           FinalizeRevertState_default [] small_building small_paid small_final.1 small_rv
           small_sealed.1 small_sealed.2 small_cache_sound (bi_limits _ _ _ _ small_block_inv) eq_refl Hp Hf).
Defined.

Lemma Sorting_roundtrip_witness : Sorting_from_str (Sorting_fmt MaxProfit) = Some MaxProfit.
Proof. apply (Sorting_roundtrip MaxProfit MAX_PROFIT_NAME). Defined.

(** * Constraints and the helper on the small chain *)

(** A raw transaction is its hash, its signer, its recipient and its gas limit. *)
Definition small_decode (raw : RawBytes) : option TransactionSigned :=
  match raw with
  | [hash; signer; to; gas] =>
      Some {| ts_hash := hash; ts_ty := signer; ts_nonce := 0; ts_to := Some to; ts_value := 5;
              ts_gas_limit := gas; ts_max_fee_per_gas := 10; ts_length := 100; ts_size := 200;
              ts_blob_versioned_hashes := None |}
  | _ => None
  end.
#[export] Instance small_codec : ConstraintCodec := {|
  ssz_keccak := fun c => 1000 * c_block c + Z.of_nat (length (cm_transactions (c_message c)));
  raw_decode_signed := small_decode;
  raw_recover_signer := fun tx => Some (ts_ty tx);
|}.

#[export] Instance list_lru_exact {K} `{EqDecision K} : LruCacheExact K (list K).
Proof.
  split.
  - intros k. apply bool_decide_eq_false, not_elem_of_nil.
  - intros c k k'. unfold lru_contains, lru_put; simpl. rewrite !bool_decide_eq_true, elem_of_cons.
    naive_solver.
Qed.

Definition constraint_of (raws : list RawBytes) : Constraints :=
  {| c_message := {| cm_block := 7; cm_transactions := raws |} |}.
(** A transfer of account 3, and bytes that are no transaction. *)
Definition good_raw : RawBytes := [70; 3; 9; 50000].
Definition bad_raw : RawBytes := [1].

Definition small_helper : BlockBuildingHelper SmallChain unit :=
  {| hp_fee_recipient_balance_start := 0; hp_building := small_building; hp_payout_tx_gas := 21000;
     hp_trace := BuiltBlockTrace_new; hp_cancelled := false; hp_adjustment := None |}.

Lemma constraint_pool_content_witness :
  constraint_of [good_raw] ∈
    (get_constraints_for_block (process_constraint_commands
       (ConstraintPool_new : ConstraintPool ConstraintPrinter (list (ConstraintId * U64)))
       [Constraint_Insert (constraint_of [good_raw])]) 7).2.
Proof.
  pose proof (constraint_pool_content (S := ConstraintPrinter) (K := list (ConstraintId * U64))
                [Constraint_Insert (constraint_of [good_raw])] 7) as Hc.
  unfold get_constraints_for_block in Hc |- *. destruct Hc as [Hc _]. apply Hc.
  exists [], []. split; [reflexivity |]. split; [reflexivity |]. split.
  - intros c' Hc'. destruct (not_elem_of_nil (Constraint_Insert c') Hc').
  - apply not_elem_of_nil.
Defined.

Lemma reinserted_constraint_lost_witness :
  (get_constraints_for_block (process_constraint_commands
     (ConstraintPool_new : ConstraintPool ConstraintPrinter (list (ConstraintId * U64)))
     [Constraint_Insert (constraint_of [good_raw]); Constraint_RemoveBlock 7;
      Constraint_Insert (constraint_of [good_raw])]) 7).2 = [].
Proof. exact (reinserted_constraint_lost (constraint_of [good_raw])). Defined.

Lemma submit_constraints_spec_witness :
  (submit_constraints (fun n => Z.of_nat n) 0 (constraint_of [bad_raw])).1 = [].
Proof.
  pose proof (submit_constraints_spec (fun n => Z.of_nat n) 0 (constraint_of [bad_raw])) as Hs.
  unfold submit_constraints in Hs |- *. destruct Hs as (_ & _ & Hs). apply Hs.
  intros Hall. apply Forall_cons in Hall as [Hb _]. vm_compute in Hb. discriminate Hb.
Defined.

Lemma undecodable_witness :
  ~ exists sealed,
      (finalize_block_impl small_ctx [constraint_of [good_raw; bad_raw]] (fun _ => false)
         small_finalize 1000 0 None false small_helper).2 = Done (Ok sealed).
Proof.
  apply (undecodable_constraint_blocks_finalization small_ctx [constraint_of [good_raw; bad_raw]]
    (constraint_of [good_raw; bad_raw]) bad_raw (fun _ => false) small_finalize 1000 0 None false
    small_helper
    (finalize_block_impl small_ctx [constraint_of [good_raw; bad_raw]] (fun _ => false)
       small_finalize 1000 0 None false small_helper).1).
  - left.
  - right. left.
  - reflexivity.
  - destruct (finalize_block_impl _ _ _ _ _ _ _ _ _). reflexivity.
Defined.

(** A block whose orders used all the gas that is available to them. *)
Definition full_ctx : BlockBuildingContext :=
  {| ctx_beneficiary := small_coinbase; ctx_basefee := 0; ctx_gas_limit := small_gas_limit;
     ctx_tx_gas_limit_cap := None; ctx_gas_available := 29950000;
     ctx_max_blob_gas_per_block := 786432; ctx_block := 7; ctx_timestamp := 100; ctx_chain_id := 1;
     ctx_builder_address := 2; ctx_blocklist := ∅; ctx_mev_blocker_price := 0;
     ctx_suggested_fee_recipient := 5; ctx_mempool_txs := ∅ |}.
Definition full_building : Building SmallChain unit :=
  Build_Building (set_space_state (PartialBlock_new true)
    {| ss_space_used := BlockSpace_new 29929000 1000 0; ss_reserved := BlockSpace_new 21000 238 0 |})
    small_world tt.

Lemma constraint_reservation_unusable_witness :
  (execute_constraint_transaction full_ctx good_raw full_building).2 = Done (Ok false).
Proof.
  apply (constraint_reservation_unusable full_ctx [constraint_of [good_raw]] good_raw
           {| txb_tx := {| ts_hash := 70; ts_ty := 3; ts_nonce := 0; ts_to := Some 9; ts_value := 5;
                           ts_gas_limit := 50000; ts_max_fee_per_gas := 10; ts_length := 100; ts_size := 200;
                           ts_blob_versioned_hashes := None |};
              txb_signer := 3; blobs_sidecar := default_blob_sidecar; txb_metadata := Metadata_new 0 |}
           full_building (execute_constraint_transaction full_ctx good_raw full_building).1).
  - vm_compute. reflexivity.
  - vm_compute. reflexivity.
  - vm_compute. split; reflexivity.
  - vm_compute. reflexivity.
  - vm_compute. reflexivity.
  - destruct (execute_constraint_transaction _ _ _). reflexivity.
Defined.

Lemma constraint_profit_witness :
  exists before after,
    state_balance small_world small_coinbase = Ok before
    /\ state_balance (bl_world (execute_constraint_transaction small_ctx good_raw small_building).1)
         small_coinbase = Ok after
    /\ pb_coinbase_profit (bl_block (execute_constraint_transaction small_ctx good_raw small_building).1)
       = u256_add 0 (Z.abs (after - before)).
Proof.
  apply (constraint_profit_is_absolute small_ctx good_raw small_building
           (execute_constraint_transaction small_ctx good_raw small_building).1).
  vm_compute. reflexivity.
Defined.

Lemma constraints_appended_witness :
  exists new, helper_infos (insert_constraint_transactions small_ctx [constraint_of [good_raw]] small_helper).1
    = [] ++ new
    /\ helper_appended (insert_constraint_transactions small_ctx [constraint_of [good_raw]] small_helper).1
       = [] ++ ((fun i => tx_hash (ti_tx i)) <$> new)
    /\ appended_from (list_to_set ((fun i => tx_hash (ti_tx i)) <$> [])) [good_raw] new.
Proof.
  apply (constraints_appended_and_tracked small_ctx [constraint_of [good_raw]] small_helper
           (insert_constraint_transactions small_ctx [constraint_of [good_raw]] small_helper).1).
  vm_compute. reflexivity.
Defined.

Lemma finalize_then_adjust_witness :
  (finalize_block_impl small_ctx [] (fun _ => false) small_finalize 0 0 None true small_helper).2
  = Done (Err Helper_BlockFinalizedIncorrectly).
Proof.
  apply (finalize_then_adjust small_ctx [] (fun _ => false) small_finalize 0 0 None true small_helper
           (finalize_block_impl small_ctx [] (fun _ => false) small_finalize 0 0 None true small_helper).1).
  vm_compute. reflexivity.
Defined.

Definition small_system_calls (w : SmallChain) : result (gmap Address AccountInfo) unit := Ok ∅.
Definition new_small_helper : result (BlockBuildingHelper SmallChain unit) BlockBuildingHelperError :=
  new_with_execution_tracer small_ctx true small_world tt true 1 small_system_calls OrderStatistics_default.

Lemma consistency_check_passes_witness : exists h, new_small_helper = Ok h
  /\ verify_bundle_consistency (hp_trace (commit_orders small_ctx h [(small_sim, accept_all)])) ∅ = Ok tt.
Proof.
  destruct new_small_helper as [h | e] eqn:Hn; [| vm_compute in Hn; discriminate Hn].
  exists h. split; [reflexivity |].
  exact (consistency_check_passes small_ctx true small_world tt true 1 small_system_calls
           OrderStatistics_default h [(small_sim, accept_all)] Hn).
Defined.
