(* ===== verification/SparseTrie.v ===== *)
(** * The sparse Merkle Patricia trie (eth-sparse-mpt: v2/trie/mod.rs, utils.rs)

    Nodes, keys, values and tables of children live in growing arrays and refer
    to each other by index.  A pointer is local, or remote: a node that was not
    fetched, of which only the pointer for the parent's encoding is known. *)

From S2P Require Import Prelude.

Abbreviation bytes := (list Z).
(** Half bytes. *)
Abbreviation nibbles := (list Z).

(** ** Ranges of arrays *)
Record Range := { r_start : nat; r_end : nat }.

Definition range_len (r : Range) : nat := r_end r - r_start r.
Definition range_is_empty (r : Range) : bool := (r_end r <=? r_start r)%nat.
Definition empty_range : Range := {| r_start := 0; r_end := 0 |}.

(** [&l[r]]: [None] is the panic of a bad range. *)
Definition slice {A} (l : list A) (r : Range) : option (list A) :=
  if ((r_start r <=? r_end r) && (r_end r <=? length l))%nat
  then Some (take (range_len r) (drop (r_start r) l)) else None.

(** [l.copy_within(r, dest)] *)
Definition copy_within {A} (l : list A) (r : Range) (dest : nat) : option (list A) :=
  let! src := slice l r in
  if (dest + length src <=? length l)%nat
  then Some (take dest l ++ src ++ drop (dest + length src) l) else None.

(** ** Mismatch of byte strings, in chunks of eight and then one by one *)
Fixpoint equal_chunks (n : nat) (fuel : nat) (xs ys : list Z) : nat :=
  match fuel with
  | O => O
  | S fuel =>
      if ((n <=? length xs) && (n <=? length ys))%nat && bool_decide (take n xs = take n ys)
      then S (equal_chunks n fuel (drop n xs) (drop n ys)) else O
  end.

Fixpoint equal_prefix (xs ys : list Z) : nat :=
  match xs, ys with
  | x :: xs, y :: ys => if decide (x = y) then S (equal_prefix xs ys) else O
  | _, _ => O
  end.

Definition mismatch_chunks (n : nat) (xs ys : list Z) : nat :=
  let off := (equal_chunks n (length xs) xs ys * n)%nat in
  (off + equal_prefix (drop off xs) (drop off ys))%nat.

Definition mismatch (xs ys : list Z) : nat := mismatch_chunks 8 xs ys.

(** ** Nodes *)
Inductive NodePtr := Local (i : nat) | Remote (i : nat).
#[export] Instance NodePtr_eq_dec : EqDecision NodePtr.
Proof. solve_decision. Defined.

Definition is_remote (p : NodePtr) : bool := match p with Remote _ => true | Local _ => false end.
Definition as_local (p : NodePtr) : option nat := match p with Local i => Some i | Remote _ => None end.

Inductive DiffTrieNode :=
| Leaf (key value : Range)
| Extension (key : Range) (next_node : NodePtr)
| Branch (children : nat)
| Null.

Record Trie := {
  hashed_nodes : list bool;
  rlp_ptrs_local : list bytes;
  nodes : list DiffTrieNode;
  values : bytes;
  keys : nibbles;
  branch_node_children : list (list (option NodePtr));
  walk_path : list (nat * Z);
}.

Inductive InsertValue := Value (v : bytes) | StoredValue (r : Range).

Inductive NodeNotFound := node_not_found (path : nibbles).
Inductive DeletionError := Del_NodeNotFound (e : NodeNotFound) | Del_KeyNotFound.
Inductive ProofError := Proof_NodeNotFound (e : NodeNotFound) | Proof_TrieIsDirty.

(** ** Elementary updates *)
Definition clear (t : Trie) : Trie :=
  {| hashed_nodes := []; rlp_ptrs_local := []; nodes := []; values := []; keys := [];
     branch_node_children := []; walk_path := walk_path t |}.

Definition push_node (t : Trie) (n : DiffTrieNode) : Trie * NodePtr :=
  ({| hashed_nodes := hashed_nodes t ++ [false]; rlp_ptrs_local := rlp_ptrs_local t ++ [[]];
      nodes := nodes t ++ [n]; values := values t; keys := keys t;
      branch_node_children := branch_node_children t; walk_path := walk_path t |},
   Local (length (nodes t))).

Definition default_trie : Trie :=
  {| hashed_nodes := []; rlp_ptrs_local := []; nodes := []; values := []; keys := [];
     branch_node_children := []; walk_path := [] |}.

Definition clear_empty (t : Trie) : Trie := (push_node (clear t) Null).1.
Definition new_empty : Trie := clear_empty default_trie.
Definition is_uninit (t : Trie) : bool := bool_decide (nodes t = []).

Definition with_keys (t : Trie) (ks : nibbles) : Trie :=
  {| hashed_nodes := hashed_nodes t; rlp_ptrs_local := rlp_ptrs_local t; nodes := nodes t;
     values := values t; keys := ks; branch_node_children := branch_node_children t;
     walk_path := walk_path t |}.

Definition insert_key (t : Trie) (key : nibbles) : Trie * Range :=
  let offset := length (keys t) in
  (with_keys t (keys t ++ key), {| r_start := offset; r_end := offset + length key |}).

Definition copy_value (t : Trie) (value : bytes) : Trie * Range :=
  let offset := length (values t) in
  ({| hashed_nodes := hashed_nodes t; rlp_ptrs_local := rlp_ptrs_local t; nodes := nodes t;
      values := values t ++ value; keys := keys t; branch_node_children := branch_node_children t;
      walk_path := walk_path t |}, {| r_start := offset; r_end := offset + length value |}).

Definition insert_value (t : Trie) (v : InsertValue) : Trie * Range :=
  match v with Value slice => copy_value t slice | StoredValue range => (t, range) end.

Definition with_tables (t : Trie) (tables : list (list (option NodePtr))) : Trie :=
  {| hashed_nodes := hashed_nodes t; rlp_ptrs_local := rlp_ptrs_local t; nodes := nodes t;
     values := values t; keys := keys t; branch_node_children := tables; walk_path := walk_path t |}.

Definition create_branch_children (t : Trie) : Trie * nat :=
  (with_tables t (branch_node_children t ++ [replicate 16 None]), length (branch_node_children t)).

Definition with_node_arrays (t : Trie) (hashed : list bool) (ns : list DiffTrieNode) : Trie :=
  {| hashed_nodes := hashed; rlp_ptrs_local := rlp_ptrs_local t; nodes := ns; values := values t;
     keys := keys t; branch_node_children := branch_node_children t; walk_path := walk_path t |}.

(** [self.nodes[i] = n], [self.hashed_nodes[i] = b],
    [self.branch_node_children[b][n] = p]: [None] is the panic of a bad index. *)
Definition set_node (t : Trie) (i : nat) (n : DiffTrieNode) : option Trie :=
  if decide (i < length (nodes t))%nat
  then Some (with_node_arrays t (hashed_nodes t) (<[i := n]> (nodes t))) else None.

Definition set_hashed (t : Trie) (i : nat) (b : bool) : option Trie :=
  if decide (i < length (hashed_nodes t))%nat
  then Some (with_node_arrays t (<[i := b]> (hashed_nodes t)) (nodes t)) else None.

Definition get_child (t : Trie) (b : nat) (n : Z) : option (option NodePtr) :=
  let! children := branch_node_children t !! b in children !! Z.to_nat n.

Definition set_child (t : Trie) (b : nat) (n : Z) (p : option NodePtr) : option Trie :=
  let! children := branch_node_children t !! b in
  if decide (Z.to_nat n < length children)%nat
  then Some (with_tables t (<[b := <[Z.to_nat n := p]> children]> (branch_node_children t))) else None.

Definition with_walk_path (t : Trie) (w : list (nat * Z)) : Trie :=
  {| hashed_nodes := hashed_nodes t; rlp_ptrs_local := rlp_ptrs_local t; nodes := nodes t;
     values := values t; keys := keys t; branch_node_children := branch_node_children t;
     walk_path := w |}.

Definition starts_with (l p : list Z) : bool := bool_decide (take (length p) l = p).

(** Prefix, first nibble and rest of the path, first nibble and rest of the key. *)
Definition extract_prefix_and_suffix (t : Trie) (path_left : nibbles) (key : Range)
  : option (nibbles * Z * nibbles * Z * Range) :=
  let! k := slice (keys t) key in
  let p := mismatch path_left k in
  let! n1 := path_left !! p in
  let! n2 := keys t !! (r_start key + p)%nat in
  Some (take p path_left, n1, drop (S p) path_left, n2,
        {| r_start := r_start key + p + 1; r_end := r_end key |}).

(** ** Insertion *)

(** The current node is replaced by a branch, below an extension for the common
    prefix if there is one. *)
Definition split_node (t : Trie) (current_node : nat) (prefix : nibbles) : option (Trie * nat) :=
  match prefix with
  | [] =>
      let '(t, children) := create_branch_children t in
      let! t := set_node t current_node (Branch children) in
      Some (t, children)
  | _ =>
      let '(t, new_ext_key) := insert_key t prefix in
      let! t := set_node t current_node (Extension new_ext_key (Local (length (nodes t)))) in
      let '(t, children) := create_branch_children t in
      Some ((push_node t (Branch children)).1, children)
  end.

Definition push_leaf (t : Trie) (key : nibbles) (v : InsertValue) : Trie * NodePtr :=
  let '(t, k) := insert_key t key in
  let '(t, r) := insert_value t v in
  push_node t (Leaf k r).

(** The branch for an extension whose key differs from the path. *)
Definition split_extension (t : Trie) (current_node : nat) (path_left : nibbles) (key : Range)
    (next_node : NodePtr) (v : InsertValue) : option Trie :=
  let! (prefix, n1, suff1, n2, suff2) := extract_prefix_and_suffix t path_left key in
  let! (t, children) := split_node t current_node prefix in
  let '(t, leaf_ptr) := push_leaf t suff1 v in
  let '(t, branch_child) :=
    if range_is_empty suff2 then (t, next_node) else push_node t (Extension suff2 next_node) in
  let! t := set_child t children n1 (Some leaf_ptr) in
  set_child t children n2 (Some branch_child).

Definition split_leaf (t : Trie) (current_node : nat) (path_left : nibbles) (key value : Range)
    (v : InsertValue) : option Trie :=
  let! (prefix, n1, suff1, n2, suff2) := extract_prefix_and_suffix t path_left key in
  let! (t, children) := split_node t current_node prefix in
  let '(t, first_leaf_ptr) := push_leaf t suff1 v in
  let '(t, second_leaf_ptr) := push_node t (Leaf suff2 value) in
  let! t := set_child t children n1 (Some first_leaf_ptr) in
  set_child t children n2 (Some second_leaf_ptr).

(** The loop of [insert_nibble_key].  [None] is a panic, or that the fuel ran
    out; each round consumes a nibble of the key at least. *)
Fixpoint insert_loop (fuel : nat) (t : Trie) (current_node path_walked : nat) (key : nibbles)
    (v : InsertValue) : option (Trie * result (option Range) NodeNotFound) :=
  match fuel with
  | O => None
  | S fuel =>
      match nodes t !! current_node with
      | None => Some (t, Err (node_not_found key))
      | Some node =>
          let! t := set_hashed t current_node false in
          match node with
          | Branch children =>
              let! n := key !! path_walked in
              let! child := get_child t children n in
              match child with
              | Some (Local i) => insert_loop fuel t i (S path_walked) key v
              | Some (Remote _) => Some (t, Err (node_not_found key))
              | None =>
                  let '(t, leaf_ptr) := push_leaf t (drop (S path_walked) key) v in
                  let! t := set_child t children n (Some leaf_ptr) in
                  Some (t, Ok None)
              end
          | Extension ext_key next_node =>
              let! k := slice (keys t) ext_key in
              if starts_with (drop path_walked key) k then
                match next_node with
                | Local i => insert_loop fuel t i (path_walked + range_len ext_key) key v
                | Remote _ => Some (t, Err (node_not_found key))
                end
              else
                let! t := split_extension t current_node (drop path_walked key) ext_key next_node v in
                Some (t, Ok None)
          | Leaf leaf_key value =>
              let! k := slice (keys t) leaf_key in
              if decide (k = drop path_walked key) then
                let '(t, new_value) := insert_value t v in
                let! t := set_node t current_node (Leaf leaf_key new_value) in
                Some (t, Ok (Some value))
              else
                let! t := split_leaf t current_node (drop path_walked key) leaf_key value v in
                Some (t, Ok None)
          | Null =>
              let '(t, k) := insert_key t (drop path_walked key) in
              let '(t, r) := insert_value t v in
              let! t := set_node t current_node (Leaf k r) in
              Some (t, Ok None)
          end
      end
  end.

Definition insert_nibble_key (t : Trie) (key : nibbles) (v : InsertValue)
  : option (Trie * result (option Range) NodeNotFound) :=
  insert_loop (S (length key)) t 0 0 key v.

(** [Nibbles::unpack] *)
Definition unpack (key : bytes) : nibbles := key ≫= fun b => [b / 16; b `mod` 16].

Definition insert (t : Trie) (key value : bytes) : option (Trie * result (option Range) NodeNotFound) :=
  insert_nibble_key t (unpack key) (Value value).

(** ** Deletion *)

(** [Vec::resize], [copy_within] and an indexed write. *)
Definition merge_keys (t : Trie) (key1 : Range) (nibble : Z) (key2 : Range) : option (Trie * Range) :=
  let new_start := length (keys t) in
  let new_len := (length (keys t) + range_len key1 + range_len key2 + 1)%nat in
  let ks := keys t ++ replicate (range_len key1 + range_len key2 + 1) 0 in
  let! ks := copy_within ks key1 new_start in
  let ks := <[(new_start + range_len key1)%nat := nibble]> ks in
  let! ks := copy_within ks key2 (new_start + range_len key1 + 1) in
  Some (with_keys t ks, {| r_start := new_start; r_end := new_len |}).

Definition push_walk (t : Trie) (node : nat) (nibble : Z) : Trie :=
  with_walk_path t (walk_path t ++ [(node, nibble)]).

Definition count_children (children : list (option NodePtr)) : nat :=
  length (filter is_Some children).

(** The first child whose nibble passes the test. *)
Fixpoint find_child (test : nat -> bool) (i : nat) (children : list (option NodePtr))
  : option (nat * NodePtr) :=
  match children with
  | [] => None
  | Some p :: children => if test i then Some (i, p) else find_child test (S i) children
  | None :: children => find_child test (S i) children
  end.

Definition del_missing (key : nibbles) : DeletionError := Del_NodeNotFound (node_not_found key).

(** The way down: the nodes and nibbles walked are recorded, and a branch that
    would be left with one child must have it in the trie. *)
Fixpoint delete_walk (fuel : nat) (t : Trie) (current_node path_walked : nat) (key : nibbles)
  : option (Trie * result Range DeletionError) :=
  match fuel with
  | O => None
  | S fuel =>
      match nodes t !! current_node with
      | None => Some (t, Err (del_missing key))
      | Some node =>
          let! t := set_hashed t current_node false in
          match node with
          | Branch children =>
              if decide (length key = path_walked) then Some (t, Err Del_KeyNotFound)
              else
                let! n := key !! path_walked in
                let t := push_walk t current_node n in
                let! child := get_child t children n in
                match child with
                | Some (Remote _) => Some (t, Err (del_missing key))
                | Some (Local i) =>
                    let! table := branch_node_children t !! children in
                    if decide (count_children table = 2%nat) then
                      let! (orphan_nibble, orphan_ptr) :=
                        find_child (fun nib => negb (Z.of_nat nib =? n)) 0 table in
                      if is_remote orphan_ptr
                      then Some (t, Err (del_missing (take path_walked key ++ [Z.of_nat orphan_nibble])))
                      else delete_walk fuel t i (S path_walked) key
                    else delete_walk fuel t i (S path_walked) key
                | None => Some (t, Err Del_KeyNotFound)
                end
          | Extension ext_key next_node =>
              let! k := slice (keys t) ext_key in
              if starts_with (drop path_walked key) k then
                let t := push_walk t current_node 0 in
                match next_node with
                | Local i => delete_walk fuel t i (path_walked + range_len ext_key) key
                | Remote _ => Some (t, Err (del_missing key))
                end
              else Some (t, Err Del_KeyNotFound)
          | Leaf leaf_key value =>
              let! k := slice (keys t) leaf_key in
              if decide (k = drop path_walked key)
              then Some (push_walk t current_node 0, Ok value)
              else Some (t, Err Del_KeyNotFound)
          | Null => Some (t, Err Del_KeyNotFound)
          end
      end
  end.

Inductive NodeDeletionResult :=
| NodeDeleted
| NodeUpdated
| BranchBelowRemovedWithOneChild (child_nibble : Z) (child_ptr : NodePtr).

(** The node below was deleted. *)
Definition remove_child (t : Trie) (current_node : nat) (current_node_child : Z)
  : option (Trie * NodeDeletionResult) :=
  let! node := nodes t !! current_node in
  match node with
  | Leaf _ _ => Some (t, NodeDeleted)
  | Branch children =>
      let! table := branch_node_children t !! children in
      let! t := match count_children table with
                | 0%nat | 1%nat => None
                | _ => set_child t children current_node_child None
                end in
      if decide (count_children table = 2%nat) then
        let! table := branch_node_children t !! children in
        let! (orphan_nibble, orphan_ptr) := find_child (fun _ => true) 0 table in
        if is_remote orphan_ptr then None
        else Some (t, BranchBelowRemovedWithOneChild (Z.of_nat orphan_nibble) orphan_ptr)
      else Some (t, NodeUpdated)
  | _ => None
  end.

(** The only child left of the branch below is merged into its new parent. *)
Definition adopt_orphan (t : Trie) (current_node : nat) (current_node_child orphan_nibble : Z)
    (orphan_ptr : NodePtr) : option Trie :=
  let! orphan_ptr_idx := as_local orphan_ptr in
  let! new_parent := nodes t !! current_node in
  let! orphaned_node := nodes t !! orphan_ptr_idx in
  match new_parent, orphaned_node with
  | Extension parent_key _, Leaf orphan_key value =>
      let! (t, new_leaf_key) := merge_keys t parent_key orphan_nibble orphan_key in
      set_node t current_node (Leaf new_leaf_key value)
  | Extension parent_key _, Extension orphan_key orphan_next =>
      let! (t, new_ext_key) := merge_keys t parent_key orphan_nibble orphan_key in
      set_node t current_node (Extension new_ext_key orphan_next)
  | Extension parent_key _, Branch _ =>
      let! (t, new_ext_key) := merge_keys t parent_key orphan_nibble empty_range in
      set_node t current_node (Extension new_ext_key orphan_ptr)
  | Branch parent_children, Leaf orphan_key value =>
      let! (t, new_leaf_key) := merge_keys t empty_range orphan_nibble orphan_key in
      let! t := set_node t orphan_ptr_idx (Leaf new_leaf_key value) in
      let! t := set_hashed t orphan_ptr_idx false in
      set_child t parent_children current_node_child (Some orphan_ptr)
  | Branch parent_children, Extension orphan_key next_node =>
      let! (t, new_ext_key) := merge_keys t empty_range orphan_nibble orphan_key in
      let! t := set_node t orphan_ptr_idx (Extension new_ext_key next_node) in
      let! t := set_hashed t orphan_ptr_idx false in
      set_child t parent_children current_node_child (Some orphan_ptr)
  | Branch parent_children, Branch _ =>
      let '(t, new_ext_key) := insert_key t [orphan_nibble] in
      let '(t, next_ext_ptr) := push_node t (Extension new_ext_key orphan_ptr) in
      set_child t parent_children current_node_child (Some next_ext_ptr)
  | _, _ => None
  end.

Definition walk_back_step (t : Trie) (deletion_result : NodeDeletionResult) (current_node : nat)
    (current_node_child : Z) : option (Trie * NodeDeletionResult) :=
  match deletion_result with
  | NodeDeleted => remove_child t current_node current_node_child
  | BranchBelowRemovedWithOneChild orphan_nibble orphan_ptr =>
      let! t := adopt_orphan t current_node current_node_child orphan_nibble orphan_ptr in
      Some (t, NodeUpdated)
  | NodeUpdated => Some (t, NodeUpdated)
  end.

(** The way back, over the path in reverse; nothing happens after an update. *)
Fixpoint walk_back (path : list (nat * Z)) (t : Trie) (deletion_result : NodeDeletionResult)
  : option (Trie * NodeDeletionResult) :=
  match path with
  | [] => Some (t, deletion_result)
  | (node, nibble) :: path =>
      let! (t, deletion_result) := walk_back_step t deletion_result node nibble in
      walk_back path t deletion_result
  end.

(** The deletion reached the head. *)
Definition delete_head (t : Trie) (deletion_result : NodeDeletionResult) : option Trie :=
  match deletion_result with
  | NodeUpdated => Some t
  | NodeDeleted =>
      let! t := set_node t 0 Null in
      set_hashed t 0 false
  | BranchBelowRemovedWithOneChild orphan_nibble orphan_ptr =>
      let! orphan_ptr_idx := as_local orphan_ptr in
      let! t := set_hashed t 0 false in
      let! orphan := nodes t !! orphan_ptr_idx in
      match orphan with
      | Leaf orphan_key value =>
          let! (t, new_leaf_key) := merge_keys t empty_range orphan_nibble orphan_key in
          set_node t 0 (Leaf new_leaf_key value)
      | Extension orphan_key next_node =>
          let! (t, new_ext_key) := merge_keys t empty_range orphan_nibble orphan_key in
          set_node t 0 (Extension new_ext_key next_node)
      | Branch _ =>
          let '(t, new_ext_key) := insert_key t [orphan_nibble] in
          set_node t 0 (Extension new_ext_key orphan_ptr)
      | Null => None
      end
  end.

Definition delete_nibbles_key (t : Trie) (key : nibbles)
  : option (Trie * result Range DeletionError) :=
  let! (t, r) := delete_walk (S (length key)) (with_walk_path t []) 0 0 key in
  match r with
  | Err e => Some (t, Err e)
  | Ok old_value =>
      let! (t, deletion_result) := walk_back (rev (walk_path t)) t NodeDeleted in
      let! t := delete_head t deletion_result in
      Some (t, Ok old_value)
  end.

Definition delete (t : Trie) (key : bytes) : option (Trie * result Range DeletionError) :=
  delete_nibbles_key t (unpack key).

(** ** Encoding and hashing *)

(** The hash function and the encoders of alloy. *)
Class TrieCodec := {
  keccak256 : bytes -> bytes;
  leaf_rlp : nibbles -> bytes -> bytes;
  extension_rlp : nibbles -> bytes -> bytes;
  list_header : nat -> bytes;
  keccak256_length : forall b, length (keccak256 b) = 32%nat;
}.

(** What a proof store holds: keys, values and pointers by index, and parsed proofs. *)
Inductive ProofNode :=
| PLeaf (key value : nat)
| PExtension (key child : nat)
| PBranch (children : list (option nat))
| PEmpty.

Record ProofStore := {
  ps_keys : list nibbles;
  ps_values : list bytes;
  ps_rlp_ptrs : list bytes;
  ps_proofs : gmap nibbles (list (nibbles * ProofNode));
}.

Definition EMPTY_STRING_CODE : Z := 128.

Definition push_bytes (capacity : nat) (l : bytes) : option bytes :=
  if (length l <=? capacity)%nat then Some l else None.

Section encoding.
Context `{TrieCodec}.

Definition child_payload (c : option bytes) : bytes :=
  match c with Some child => child | None => [EMPTY_STRING_CODE] end.

Definition encode_branch_node (child_rlp_pointers : list (option bytes)) : bytes :=
  let payload_length := foldl (fun n c => n + match c with Some child => length child | None => 1 end)%nat
                          1%nat child_rlp_pointers in
  list_header payload_length ++ (child_rlp_pointers ≫= child_payload) ++ [EMPTY_STRING_CODE].

(** The pointer of a child; [None] is a panic. *)
Definition child_rlp_ptr (t : Trie) (ps : ProofStore) (p : NodePtr) : option bytes :=
  match p with
  | Local i => rlp_ptrs_local t !! i
  | Remote i => ps_rlp_ptrs ps !! i
  end.

Definition children_rlp_ptrs (t : Trie) (ps : ProofStore) (children : list (option NodePtr))
  : option (list (option bytes)) :=
  mapM (fun c => match c with
                 | Some p => let! r := child_rlp_ptr t ps p in Some (Some r)
                 | None => Some None
                 end) children.

Definition rlp_encode_node (t : Trie) (ps : ProofStore) (node_idx : nat) : option bytes :=
  let! node := nodes t !! node_idx in
  match node with
  | Branch children =>
      let! table := branch_node_children t !! children in
      let! ptrs := children_rlp_ptrs t ps table in
      Some (encode_branch_node ptrs)
  | Extension key next_node =>
      let! k := slice (keys t) key in
      let! child := child_rlp_ptr t ps next_node in
      Some (extension_rlp k child)
  | Leaf key value =>
      let! k := slice (keys t) key in
      let! v := slice (values t) value in
      Some (leaf_rlp k v)
  | Null => Some [EMPTY_STRING_CODE]
  end.

(** Short encodings are their own pointers. *)
Definition rlp_pointer (rlp : bytes) : bytes :=
  if (length rlp <? 32)%nat then rlp else (EMPTY_STRING_CODE + 32) :: keccak256 rlp.

Definition set_pointer (t : Trie) (node_idx : nat) (ptr : bytes) : Trie :=
  {| hashed_nodes := <[node_idx := true]> (hashed_nodes t);
     rlp_ptrs_local := <[node_idx := ptr]> (rlp_ptrs_local t); nodes := nodes t;
     values := values t; keys := keys t; branch_node_children := branch_node_children t;
     walk_path := walk_path t |}.

Definition calculate_rlp_pointer_node (t : Trie) (ps : ProofStore) (node_idx : nat) : option Trie :=
  let! rlp := rlp_encode_node t ps node_idx in
  let! ptr := push_bytes 33 (rlp_pointer rlp) in
  Some (set_pointer t node_idx ptr).

Definition local_children (table : list (option NodePtr)) : list nat :=
  omap (fun c => c ≫= as_local) table.

Section hashing.
(** The order in which spawned tasks run; each writes to the nodes below its own. *)
Context (schedule : list nat -> list nat) (parallel : bool) (ps : ProofStore).

Definition hashing_order (local : list nat) : list nat :=
  if negb parallel || (length local <=? 1)%nat then local else schedule local.

(** [None] is a panic, or that the fuel ran out. *)
Fixpoint root_hash_node (fuel : nat) (t : Trie) (node_idx : nat) : option Trie :=
  match fuel with
  | O => None
  | S fuel =>
      let! hashed := hashed_nodes t !! node_idx in
      if (hashed : bool) then Some t
      else
        let! node := nodes t !! node_idx in
        let! t :=
          match node with
          | Branch children =>
              let! table := branch_node_children t !! children in
              foldl (fun o child => let! t := o in root_hash_node fuel t child)
                (Some t) (hashing_order (local_children table))
          | Extension _ (Local child) => root_hash_node fuel t child
          | Extension _ (Remote _) | Null | Leaf _ _ => Some t
          end in
        calculate_rlp_pointer_node t ps node_idx
  end.

(** Paths have no more nodes than the trie. *)
Definition root_hash (t : Trie) : option (Trie * result bytes NodeNotFound) :=
  if bool_decide (nodes t = []) then Some (t, Err (node_not_found []))
  else
    let! t := root_hash_node (length (nodes t)) t 0 in
    let! rlp := rlp_encode_node t ps 0 in
    Some (t, Ok (keccak256 rlp)).

End hashing.

(** ** Proofs *)
Record ProofWithValue := {
  pv_proof : list (nibbles * bytes);
  pv_value : option bytes;
}.

Fixpoint get_proof_loop (fuel : nat) (t : Trie) (ps : ProofStore) (current_node path_walked : nat)
    (key : nibbles) (proof : list (nibbles * bytes)) : option (result ProofWithValue ProofError) :=
  match fuel with
  | O => None
  | S fuel =>
      match nodes t !! current_node with
      | None => Some (Err (Proof_NodeNotFound (node_not_found key)))
      | Some node =>
          let! hashed := hashed_nodes t !! current_node in
          if negb hashed then Some (Err Proof_TrieIsDirty)
          else
            let! rlp := rlp_encode_node t ps current_node in
            let proof := proof ++ [(take path_walked key, rlp)] in
            let done v := Some (Ok {| pv_proof := proof; pv_value := v |}) in
            match node with
            | Branch children =>
                if decide (length key = path_walked) then done None
                else
                  let! n := key !! path_walked in
                  let! child := get_child t children n in
                  match child with
                  | Some (Local i) => get_proof_loop fuel t ps i (S path_walked) key proof
                  | Some (Remote _) => Some (Err (Proof_NodeNotFound (node_not_found key)))
                  | None => done None
                  end
            | Extension ext_key next_node =>
                let! k := slice (keys t) ext_key in
                if starts_with (drop path_walked key) k then
                  match next_node with
                  | Local i => get_proof_loop fuel t ps i (path_walked + range_len ext_key) key proof
                  | Remote _ => Some (Err (Proof_NodeNotFound (node_not_found key)))
                  end
                else done None
            | Leaf leaf_key value =>
                let! k := slice (keys t) leaf_key in
                if decide (k = drop path_walked key)
                then let! v := slice (values t) value in done (Some v)
                else done None
            | Null => done None
            end
      end
  end.

Definition get_proof_nibbles_key (t : Trie) (ps : ProofStore) (key : nibbles)
  : option (result ProofWithValue ProofError) :=
  get_proof_loop (S (length key)) t ps 0 0 key [].

Definition get_proof (t : Trie) (ps : ProofStore) (key : bytes)
  : option (result ProofWithValue ProofError) :=
  get_proof_nibbles_key t ps (unpack key).

End encoding.

(** ** Adding nodes from proofs *)

(** [self.push_node] for a node of a proof; [None] is a panic of a bad index. *)
Definition push_proof_node (t : Trie) (ps : ProofStore) (node : ProofNode) : option (Trie * NodePtr) :=
  match node with
  | PLeaf key value =>
      let! k := ps_keys ps !! key in
      let '(t, k) := insert_key t k in
      let! v := ps_values ps !! value in
      let '(t, v) := copy_value t v in
      Some (push_node t (Leaf k v))
  | PExtension key child =>
      let! k := ps_keys ps !! key in
      let '(t, k) := insert_key t k in
      Some (push_node t (Extension k (Remote child)))
  | PBranch children =>
      let b := length (branch_node_children t) in
      let t := with_tables t (branch_node_children t ++ [(fun c : option nat => Remote <$> c) <$> children]) in
      Some (push_node t (Branch b))
  | PEmpty => Some (push_node t Null)
  end.

(** Where a node of a proof belongs: the parent and, for a branch, the nibble. *)
Inductive ProofPlace :=
| Place (current_node : nat) (parent_ptr : option NodePtr) (parent_nibble : Z)
| NoPlace
| PlaceMissing (e : NodeNotFound).

Fixpoint find_place (fuel : nat) (t : Trie) (current_node path_walked : nat) (path : nibbles)
  : option (Trie * ProofPlace) :=
  match fuel with
  | O => None
  | S fuel =>
      match nodes t !! current_node with
      | None => Some (t, PlaceMissing (node_not_found (take path_walked path)))
      | Some node =>
          let! t := set_hashed t current_node false in
          match node with
          | Branch children =>
              let! n := path !! path_walked in
              let! child := get_child t children n in
              if decide (drop (S path_walked) path = []) then Some (t, Place current_node child n)
              else
                match child with
                | Some (Local i) => find_place fuel t i (S path_walked) path
                | _ => Some (t, PlaceMissing (node_not_found (take (S path_walked) path)))
                end
          | Extension ext_key next_node =>
              let! k := slice (keys t) ext_key in
              if starts_with (drop path_walked path) k then
                let path_walked := (path_walked + range_len ext_key)%nat in
                if decide (drop path_walked path = []) then Some (t, Place current_node (Some next_node) 0)
                else
                  match next_node with
                  | Local i => find_place fuel t i path_walked path
                  | Remote _ => Some (t, PlaceMissing (node_not_found (take path_walked path)))
                  end
              else Some (t, Place current_node None 0)
          | Leaf _ _ | Null => Some (t, NoPlace)
          end
      end
  end.

Definition give_to_parent (t : Trie) (current_node : nat) (parent_nibble : Z) (new_node : NodePtr)
  : option Trie :=
  let! parent := nodes t !! current_node in
  match parent with
  | Branch children => set_child t children parent_nibble (Some new_node)
  | Extension key _ => set_node t current_node (Extension key new_node)
  | _ => None
  end.

Definition add_node_from_proof (t : Trie) (ps : ProofStore) (path : nibbles) (node : ProofNode)
  : option (Trie * result unit NodeNotFound) :=
  if bool_decide (path = []) && negb (bool_decide (nodes t = [])) then Some (t, Ok tt)
  else if bool_decide (nodes t = []) then
    if negb (bool_decide (path = [])) then Some (t, Err (node_not_found []))
    else let! (t, _) := push_proof_node t ps node in Some (t, Ok tt)
  else
    let! (t, place) := find_place (S (length path)) t 0 0 path in
    match place with
    | PlaceMissing e => Some (t, Err e)
    | NoPlace => Some (t, Ok tt)
    | Place current_node (Some (Remote _)) parent_nibble =>
        match node with
        | PEmpty => None
        | _ =>
            let! (t, new_node) := push_proof_node t ps node in
            let! t := give_to_parent t current_node parent_nibble new_node in
            Some (t, Ok tt)
        end
    | Place _ _ _ => Some (t, Ok tt)
    end.

Fixpoint add_proof_nodes (t : Trie) (ps : ProofStore) (proof : list (nibbles * ProofNode))
  : option (Trie * result unit NodeNotFound) :=
  match proof with
  | [] => Some (t, Ok tt)
  | (path, node) :: proof =>
      let! (t, r) := add_node_from_proof t ps path node in
      match r with
      | Ok _ => add_proof_nodes t ps proof
      | Err e => Some (t, Err e)
      end
  end.

Definition try_add_proof_from_proof_store (t : Trie) (ps : ProofStore) (key : nibbles)
  : option (Trie * result bool NodeNotFound) :=
  match ps_proofs ps !! key with
  | None => Some (t, Ok false)
  | Some proof =>
      let! (t, r) := add_proof_nodes t ps proof in
      Some (t, match r with Ok _ => Ok true | Err e => Err e end)
  end.

(** ** Filling a proof store *)

(** What alloy decodes a node to; a branch has a pointer for each bit of its mask. *)
Inductive AlloyTrieNode :=
| ABranch (stack : list bytes) (state_mask : Z)
| AExtension (key : nibbles) (child : bytes)
| ALeaf (key : nibbles) (value : bytes)
| AEmptyRoot.

Definition add_rlp_ptr (ps : ProofStore) (data : bytes) : ProofStore * nat :=
  ({| ps_keys := ps_keys ps; ps_values := ps_values ps; ps_rlp_ptrs := ps_rlp_ptrs ps ++ [data];
      ps_proofs := ps_proofs ps |}, length (ps_rlp_ptrs ps)).

Definition add_key (ps : ProofStore) (data : nibbles) : ProofStore * nat :=
  ({| ps_keys := ps_keys ps ++ [data]; ps_values := ps_values ps; ps_rlp_ptrs := ps_rlp_ptrs ps;
      ps_proofs := ps_proofs ps |}, length (ps_keys ps)).

Definition add_value (ps : ProofStore) (data : bytes) : ProofStore * nat :=
  ({| ps_keys := ps_keys ps; ps_values := ps_values ps ++ [data]; ps_rlp_ptrs := ps_rlp_ptrs ps;
      ps_proofs := ps_proofs ps |}, length (ps_values ps)).

(** Children for the nibbles from [index]; a stack that is too short panics, and
    so does a pointer of more than 33 bytes. *)
Fixpoint add_branch_children (n : nat) (index : nat) (ps : ProofStore) (stack : list bytes)
    (state_mask : Z) : option (ProofStore * list (option nat)) :=
  match n with
  | O => Some (ps, [])
  | S n =>
      if Z.testbit state_mask (Z.of_nat index) then
        match stack with
        | [] => None
        | rlp :: stack =>
            let! rlp_ptr := push_bytes 33 rlp in
            let '(ps, i) := add_rlp_ptr ps rlp_ptr in
            let! (ps, children) := add_branch_children n (S index) ps stack state_mask in
            Some (ps, Some i :: children)
        end
      else
        let! (ps, children) := add_branch_children n (S index) ps stack state_mask in
        Some (ps, None :: children)
  end.

Definition store_node (ps : ProofStore) (node : AlloyTrieNode) : option (ProofStore * ProofNode) :=
  match node with
  | ABranch stack state_mask =>
      let! (ps, children) := add_branch_children 16 0 ps stack state_mask in
      Some (ps, PBranch children)
  | AExtension key child =>
      let '(ps, k) := add_key ps key in
      let! rlp_ptr := push_bytes 33 child in
      let '(ps, c) := add_rlp_ptr ps rlp_ptr in
      Some (ps, PExtension k c)
  | ALeaf key value =>
      let '(ps, k) := add_key ps key in
      let '(ps, v) := add_value ps value in
      Some (ps, PLeaf k v)
  | AEmptyRoot => Some (ps, PEmpty)
  end.

Section proof_store.
(** [alloy_trie::nodes::TrieNode::decode]: [None] is an error. *)
Context (decode : bytes -> option AlloyTrieNode).

Fixpoint store_nodes (ps : ProofStore) (proof : list (nibbles * bytes))
  : option (ProofStore * option (list (nibbles * ProofNode))) :=
  match proof with
  | [] => Some (ps, Some [])
  | (path, encoded_node) :: proof =>
      match decode encoded_node with
      | None => Some (ps, None)
      | Some node =>
          let! (ps, decoded_node) := store_node ps node in
          let! (ps, parsed) := store_nodes ps proof in
          Some (ps, (fun parsed => (path, decoded_node) :: parsed) <$> parsed)
      end
  end.

Definition has_proof (ps : ProofStore) (key : nibbles) : bool :=
  bool_decide (is_Some (ps_proofs ps !! key)).

(** Keys, values and pointers stored before an error stay. *)
Definition add_proof (ps : ProofStore) (key : nibbles) (proof : list (nibbles * bytes))
  : option (ProofStore * result unit unit) :=
  if has_proof ps key then Some (ps, Ok tt)
  else
    let! (ps, parsed) := store_nodes ps proof in
    match parsed with
    | None => Some (ps, Err tt)
    | Some parsed =>
        Some ({| ps_keys := ps_keys ps; ps_values := ps_values ps; ps_rlp_ptrs := ps_rlp_ptrs ps;
                 ps_proofs := <[key := parsed]> (ps_proofs ps) |}, Ok tt)
    end.

End proof_store.
