(* ===== verification/TrieModel.v ===== *)
(** * Reference tries: what the sparse trie stands for

    A trie as a tree.  A trie in canonical form is determined by the values it
    has for keys, so that its root hash depends only on its content. *)

From S2P Require Import Prelude SparseTrie.

Inductive tree :=
| TNull
| TLeaf (key : nibbles) (value : bytes)
| TExt (key : nibbles) (next : tree)
| TBranch (children : list (option tree)).

(** The child at a position, if there is one. *)
Definition child {A} (cs : list (option A)) (n : nat) : option A := mjoin (cs !! n).

Fixpoint tget (T : tree) (key : nibbles) : option bytes :=
  match T with
  | TNull => None
  | TLeaf k v => if decide (k = key) then Some v else None
  | TExt k T => if starts_with key k then tget T (drop (length k) key) else None
  | TBranch cs =>
      match key with
      | [] => None
      | n :: key =>
          (fix get_nth cs i :=
             match cs, i with
             | Some c :: _, O => tget c key
             | _ :: cs, S i => get_nth cs i
             | _, _ => None
             end) cs (Z.to_nat n)
      end
  end.

Lemma tget_branch cs n key :
  tget (TBranch cs) (n :: key) = child cs (Z.to_nat n) ≫= fun c => tget c key.
Proof.
  unfold child. simpl. generalize (Z.to_nat n) as i. induction cs as [| c cs IH]; intros i; [done |].
  destruct i as [| i]; simpl; [by destruct c |]. destruct c; apply IH.
Qed.

(** ** Canonical form, for keys of a length *)
Definition nibble (n : Z) : Prop := 0 <= n < 16.

Inductive canon : nat -> tree -> Prop :=
| canon_leaf n k v : Forall nibble k -> length k = n -> canon n (TLeaf k v)
| canon_ext n m k cs : Forall nibble k -> k <> [] -> canon m (TBranch cs) ->
    n = (length k + m)%nat -> canon n (TExt k (TBranch cs))
| canon_branch n cs i j : length cs = 16%nat -> i <> j -> is_Some (child cs i) -> is_Some (child cs j) ->
    (forall i c, child cs i = Some c -> canon n c) -> canon (S n) (TBranch cs).

Definition canon_root (n : nat) (T : tree) : Prop := T = TNull \/ canon n T.

Definition key_of (n : nat) (k : nibbles) : Prop := length k = n /\ Forall nibble k.

(** ** Children of a node *)
Lemma child_Some {A} (cs : list (option A)) i x : child cs i = Some x <-> cs !! i = Some (Some x).
Proof. unfold child. destruct (cs !! i) as [[|] |]; naive_solver. Qed.

Lemma child_lt {A} (cs : list (option A)) i x : child cs i = Some x -> (i < length cs)%nat.
Proof. rewrite child_Some. by apply lookup_lt_Some. Qed.

Lemma child_insert {A} (cs : list (option A)) n o m : (n < length cs)%nat ->
  child (<[n := o]> cs) m = if decide (m = n) then o else child cs m.
Proof.
  intros Hn. unfold child. case_decide as Hm; [subst m |].
  - by rewrite list_lookup_insert_eq.
  - by rewrite list_lookup_insert_ne.
Qed.

Lemma child_replicate {A} n m : child (replicate n (None : option A)) m = None.
Proof.
  unfold child. destruct (replicate n None !! m) as [o |] eqn:E; [| done].
  by apply lookup_replicate in E as [-> _].
Qed.

Lemma child_fmap {A B} (f : A -> B) (cs : list (option A)) n :
  child ((fun c : option A => f <$> c) <$> cs) n = f <$> child cs n.
Proof. unfold child. rewrite list_lookup_fmap. by destruct (cs !! n) as [[|] |]. Qed.

(** ** Prefixes of keys *)
Lemma starts_with_spec l p : starts_with l p = true <-> exists k, l = p ++ k.
Proof.
  unfold starts_with. rewrite bool_decide_eq_true. split.
  - intros E. exists (drop (length p) l). by rewrite <- E at 1; rewrite take_drop.
  - intros [k ->]. by rewrite take_app_length.
Qed.

Lemma starts_with_app p k : starts_with (p ++ k) p = true.
Proof. apply starts_with_spec. eauto. Qed.

Lemma starts_with_false l p : starts_with l p = false <-> ~ exists k, l = p ++ k.
Proof. rewrite <- starts_with_spec. by destruct (starts_with l p). Qed.

Lemma tget_ext_app k T key : tget (TExt k T) (k ++ key) = tget T key.
Proof. simpl. by rewrite starts_with_app, drop_app_length. Qed.

Lemma tget_ext_Some k T key v : tget (TExt k T) key = Some v ->
  exists key', key = k ++ key' /\ tget T key' = Some v.
Proof.
  simpl. destruct (starts_with key k) eqn:E; [| done]. apply starts_with_spec in E as [key' ->].
  rewrite drop_app_length. eauto.
Qed.

Lemma key_of_app n m k1 k2 : length k1 = n -> key_of (n + m) (k1 ++ k2) <-> Forall nibble k1 /\ key_of m k2.
Proof. unfold key_of. rewrite length_app, Forall_app. intuition lia. Qed.

Lemma key_of_cons n x k : key_of (S n) (x :: k) <-> nibble x /\ key_of n k.
Proof. unfold key_of. rewrite Forall_cons. simpl. intuition lia. Qed.

(** ** A canonical trie has keys, and they have its length *)
Lemma canon_key n T : canon n T -> exists key v, key_of n key /\ tget T key = Some v.
Proof.
  induction 1 as [n k v Hk Hl | n m k cs Hk Hne Hc (key & v & Hkey & Hget) -> |
                  n cs i j Hlen Hij [ci Hci] [cj Hcj] _ IH].
  - exists k, v. simpl. by rewrite decide_True.
  - exists (k ++ key), v. rewrite tget_ext_app. split; [| done]. by rewrite key_of_app.
  - destruct (IH i ci Hci) as (key & v & Hkey & Hget). apply child_lt in Hci as Hi.
    exists (Z.of_nat i :: key), v. rewrite tget_branch, Nat2Z.id, Hci. split; [| done].
    rewrite key_of_cons. split; [unfold nibble; lia | done].
Qed.

Lemma canon_child_key n cs i c : canon (S n) (TBranch cs) -> child cs i = Some c ->
  exists key v, key_of (S n) (Z.of_nat i :: key) /\ tget (TBranch cs) (Z.of_nat i :: key) = Some v.
Proof.
  intros HT Hc. inversion HT as [| | n' cs' i' j' Hlen Hij Hi Hj Hcs]; subst.
  destruct (canon_key n c (Hcs i c Hc)) as (key & v & Hkey & Hget). apply child_lt in Hc as Hlt.
  exists key, v. rewrite tget_branch, Nat2Z.id, Hc, key_of_cons. unfold nibble. split; [split; [lia | done] | done].
Qed.

(** Two keys of a branch differ in their first nibble. *)
Lemma canon_branch_keys n cs : canon n (TBranch cs) ->
  exists x y k1 k2, x <> y /\ key_of n (x :: k1) /\ key_of n (y :: k2)
    /\ is_Some (tget (TBranch cs) (x :: k1)) /\ is_Some (tget (TBranch cs) (y :: k2)).
Proof.
  intros HT. inversion HT as [| | n' cs' i j Hlen Hij [ci Hi] [cj Hj] Hcs]; subst.
  destruct (canon_child_key _ _ _ _ HT Hi) as (k1 & v1 & Hk1 & Hv1).
  destruct (canon_child_key _ _ _ _ HT Hj) as (k2 & v2 & Hk2 & Hv2).
  exists (Z.of_nat i), (Z.of_nat j), k1, k2. split_and!; [lia | done | done | by eexists | by eexists].
Qed.

(** ** Extensionality *)
Definition same_content (n : nat) (T1 T2 : tree) : Prop :=
  forall key, key_of n key -> tget T1 key = tget T2 key.

Lemma same_content_sym n T1 T2 : same_content n T1 T2 -> same_content n T2 T1.
Proof. intros H key Hk. symmetry. by apply H. Qed.

(** The first nibble after the common part splits the keys of a branch, so no
    extension or leaf has them all. *)
Lemma branch_no_common_prefix n cs p T : canon n (TBranch cs) -> p <> [] ->
  (forall key, key_of n key -> is_Some (tget T key) -> exists k, key = p ++ k) ->
  ~ same_content n (TBranch cs) T.
Proof.
  intros HT Hp Hall Hsame.
  destruct (canon_branch_keys n cs HT) as (x & y & k1 & k2 & Hxy & Hk1 & Hk2 & H1 & H2).
  rewrite (Hsame _ Hk1) in H1. rewrite (Hsame _ Hk2) in H2.
  destruct (Hall _ Hk1 H1) as [q1 E1]. destruct (Hall _ Hk2 H2) as [q2 E2].
  destruct p as [| z p]; [done |]. simpl in *. congruence.
Qed.

Lemma leaf_content n k v cs : canon n (TBranch cs) -> ~ same_content n (TBranch cs) (TLeaf k v).
Proof.
  intros HT. destruct (canon_branch_keys n cs HT) as (x & y & k1 & k2 & Hxy & Hk1 & Hk2 & H1 & H2).
  intros Hsame. rewrite (Hsame _ Hk1) in H1. rewrite (Hsame _ Hk2) in H2.
  simpl in H1, H2. destruct H1 as [v1 H1], H2 as [v2 H2]. repeat case_decide; simplify_eq.
Qed.

Lemma ext_content n k T cs : canon n (TBranch cs) -> k <> [] ->
  ~ same_content n (TBranch cs) (TExt k T).
Proof.
  intros HT Hk. apply (branch_no_common_prefix n cs k); [done | done |].
  intros key Hkey [v Hv]. apply tget_ext_Some in Hv as (k' & -> & _). eauto.
Qed.

(** An extension in front of a branch against a leaf. *)
Lemma ext_leaf_content n m k cs k' v : canon m (TBranch cs) -> Forall nibble k -> n = (length k + m)%nat ->
  ~ same_content n (TExt k (TBranch cs)) (TLeaf k' v).
Proof.
  intros HT Hk -> Hsame.
  destruct (canon_branch_keys m cs HT) as (x & y & k1 & k2 & Hxy & Hk1 & Hk2 & [v1 H1] & [v2 H2]).
  pose proof (Hsame (k ++ x :: k1)) as E1. pose proof (Hsame (k ++ y :: k2)) as E2.
  rewrite tget_ext_app, H1 in E1. rewrite tget_ext_app, H2 in E2. rewrite key_of_app in E1, E2 by done.
  specialize (E1 (conj Hk Hk1)). specialize (E2 (conj Hk Hk2)). simpl in E1, E2.
  repeat case_decide; by simplify_eq.
Qed.

(** Extensions with the same content have the same key: the shorter one would
    make the branch of the other have a common prefix. *)
Lemma ext_keys_prefix n m1 m2 k1 k2 cs1 cs2 :
  canon m1 (TBranch cs1) -> canon m2 (TBranch cs2) -> Forall nibble k1 -> Forall nibble k2 ->
  n = (length k1 + m1)%nat -> n = (length k2 + m2)%nat ->
  same_content n (TExt k1 (TBranch cs1)) (TExt k2 (TBranch cs2)) -> k2 `prefix_of` k1.
Proof.
  intros HT1 HT2 Hk1 Hk2 Hn1 Hn2 Hsame.
  destruct (canon_branch_keys m1 cs1 HT1) as (x & y & a & b & Hxy & Ha & Hb & [v1 H1] & [v2 H2]).
  pose proof (Hsame (k1 ++ x :: a)) as E1. pose proof (Hsame (k1 ++ y :: b)) as E2.
  rewrite Hn1, key_of_app in E1, E2 by done. rewrite tget_ext_app, H1 in E1. rewrite tget_ext_app, H2 in E2.
  specialize (E1 (conj Hk1 Ha)). specialize (E2 (conj Hk1 Hb)). symmetry in E1, E2.
  apply tget_ext_Some in E1 as (r1 & E1 & _). apply tget_ext_Some in E2 as (r2 & E2 & _).
  destruct (decide (length k2 <= length k1)%nat) as [Hle | Hlt].
  - apply (f_equal (take (length k2))) in E1. rewrite take_app_length, take_app_le in E1 by lia.
    rewrite <- E1. apply prefix_take.
  - exfalso. apply (f_equal (lookup (length k1))) in E1, E2.
    rewrite (list_lookup_middle k1 a), (lookup_app_l k2) in E1 by lia.
    rewrite (list_lookup_middle k1 b), (lookup_app_l k2) in E2 by lia. congruence.
Qed.

Lemma list_child_eq {A} (cs1 cs2 : list (option A)) : length cs1 = length cs2 ->
  (forall i, child cs1 i = child cs2 i) -> cs1 = cs2.
Proof.
  intros Hl H. apply list_eq. intros i. specialize (H i). unfold child in H.
  destruct (cs1 !! i) as [o1 |] eqn:E1, (cs2 !! i) as [o2 |] eqn:E2; simpl in H.
  - by rewrite H.
  - apply lookup_lt_Some in E1. apply lookup_ge_None in E2. lia.
  - apply lookup_lt_Some in E2. apply lookup_ge_None in E1. lia.
  - done.
Qed.

(** Content determines a canonical trie. *)
Lemma canon_ext_eq n T1 T2 : canon n T1 -> canon n T2 -> same_content n T1 T2 -> T1 = T2.
Proof.
  intros HT1. revert T2. induction HT1 as [n k v Hk Hl | n m k cs Hk Hne Hc IH Hn |
                  n cs i j Hlen Hij Hi Hj Hcs IH]; intros T2 HT2 Hsame.
  - destruct HT2 as [n k' v' Hk' Hl' | n m k' cs' Hk' Hne' Hc' Hn' | n cs' i j Hlen Hij Hi Hj Hcs].
    + pose proof (Hsame k (conj Hl Hk)) as E. simpl in E. rewrite decide_True in E by done.
      case_decide; by simplify_eq.
    + apply same_content_sym in Hsame. exfalso. by eapply ext_leaf_content.
    + apply same_content_sym in Hsame. exfalso. eapply leaf_content; [| done]. by econstructor.
  - destruct HT2 as [n k' v' Hk' Hl' | n m' k' cs' Hk' Hne' Hc' Hn' | n cs' i j Hlen Hij Hi Hj Hcs].
    + exfalso. by eapply (ext_leaf_content n m k).
    + assert (k = k') as <-.
      { assert (k' `prefix_of` k) as P1 by by eapply (ext_keys_prefix n m m').
        assert (k `prefix_of` k') as P2.
        { apply same_content_sym in Hsame. by eapply (ext_keys_prefix n m' m). }
        apply prefix_length_eq; [done |]. by apply prefix_length. }
      assert (m' = m) as -> by lia. f_equal. apply IH; [done |].
      intros key Hkey. rewrite <- (tget_ext_app k (TBranch cs)), <- (tget_ext_app k (TBranch cs')).
      apply Hsame. subst n. by rewrite key_of_app.
    + apply same_content_sym in Hsame. exfalso. by eapply ext_content; [econstructor | ..].
  - assert (canon (S n) (TBranch cs)) as HT1 by (by econstructor).
    inversion HT2 as [n' k' v' Hk' Hl' | n' m' k' cs' Hk' Hne' Hc' Hn' |
                    n' cs' i' j' Hlen' Hij' Hi' Hj' Hcs']; subst.
    + by destruct (leaf_content _ _ _ _ HT1 Hsame).
    + by destruct (ext_content _ _ _ _ HT1 Hne' Hsame).
    + f_equal. apply list_child_eq; [by rewrite Hlen |]. intros l.
      destruct (child cs l) as [c |] eqn:E, (child cs' l) as [c' |] eqn:E'.
      * f_equal. apply (IH l); [done | by eapply Hcs' |]. intros key Hkey.
        pose proof (Hsame (Z.of_nat l :: key)) as Hl. rewrite !tget_branch, Nat2Z.id, E, E' in Hl.
        apply Hl. apply key_of_cons. apply child_lt in E. unfold nibble. split; [lia | done].
      * destruct (canon_child_key _ _ _ _ HT1 E) as (key & v & Hkey & Hv).
        rewrite (Hsame _ Hkey), tget_branch, Nat2Z.id, E' in Hv. done.
      * destruct (canon_child_key _ _ _ _ HT2 E') as (key & v & Hkey & Hv).
        rewrite <- (Hsame _ Hkey), tget_branch, Nat2Z.id, E in Hv. done.
      * done.
Qed.

Lemma canon_root_ext_eq n T1 T2 : canon_root n T1 -> canon_root n T2 -> same_content n T1 T2 -> T1 = T2.
Proof.
  intros [-> | H1] [-> | H2] Hsame; [done | | | by eapply canon_ext_eq].
  - destruct (canon_key n T2 H2) as (key & v & Hk & Hv). by rewrite <- (Hsame _ Hk) in Hv.
  - destruct (canon_key n T1 H1) as (key & v & Hk & Hv). by rewrite (Hsame _ Hk) in Hv.
Qed.

(** ** Encoding from scratch *)
Section encoding.
Context `{TrieCodec}.

Fixpoint tenc (T : tree) : bytes :=
  match T with
  | TNull => [EMPTY_STRING_CODE]
  | TLeaf k v => leaf_rlp k v
  | TExt k T => extension_rlp k (rlp_pointer (tenc T))
  | TBranch cs =>
      encode_branch_node ((fun c : option tree => (fun c => rlp_pointer (tenc c)) <$> c) <$> cs)
  end.

Definition tptr (T : tree) : bytes := rlp_pointer (tenc T).
Definition troot (T : tree) : bytes := keccak256 (tenc T).

Lemma rlp_pointer_fits b : push_bytes 33 (rlp_pointer b) = Some (rlp_pointer b).
Proof.
  unfold push_bytes, rlp_pointer. destruct (Nat.ltb_spec (length b) 32) as [Hlt | Hge].
  - by rewrite (proj2 (Nat.leb_le _ _)) by lia.
  - simpl. by rewrite keccak256_length.
Qed.

(** The header of a branch announces the length of what follows. *)
Lemma branch_payload_length cs :
  encode_branch_node cs =
    list_header (length ((cs ≫= child_payload) ++ [EMPTY_STRING_CODE]))
      ++ (cs ≫= child_payload) ++ [EMPTY_STRING_CODE].
Proof.
  unfold encode_branch_node. f_equal. f_equal. rewrite length_app. simpl.
  assert (forall m, foldl (fun n c => n + match c with Some child => length child | None => 1 end)%nat m cs
    = (length (cs ≫= child_payload) + m)%nat) as ->; [| done].
  induction cs as [| c cs IH]; intros m; csimpl; [done |].
  rewrite IH, length_app. destruct c; simpl; lia.
Qed.
End encoding.

(** ** Mismatch *)
Lemma equal_prefix_take xs ys : take (equal_prefix xs ys) xs = take (equal_prefix xs ys) ys.
Proof.
  revert ys. induction xs as [| x xs IH]; intros [| y ys]; simpl; try done.
  case_decide; simpl; [| done]. subst. by rewrite IH.
Qed.

Lemma equal_prefix_len xs ys :
  (equal_prefix xs ys <= length xs)%nat /\ (equal_prefix xs ys <= length ys)%nat.
Proof.
  revert ys. induction xs as [| x xs IH]; intros [| y ys]; simpl; try lia.
  case_decide; [| lia]. specialize (IH ys). lia.
Qed.

Lemma equal_prefix_ne xs ys x y :
  xs !! equal_prefix xs ys = Some x -> ys !! equal_prefix xs ys = Some y -> x <> y.
Proof.
  revert ys. induction xs as [| a xs IH]; intros [| b ys]; simpl; try done.
  case_decide as E; simpl; [by apply IH |]. naive_solver.
Qed.

Lemma equal_prefix_app p xs ys : equal_prefix (p ++ xs) (p ++ ys) = (length p + equal_prefix xs ys)%nat.
Proof. induction p as [| a p IH]; [done |]. simpl. rewrite decide_True by done. by rewrite IH. Qed.

Lemma equal_chunks_spec n fuel xs ys : (0 < n)%nat ->
  let off := (equal_chunks n fuel xs ys * n)%nat in
  take off xs = take off ys /\ (off <= length xs)%nat /\ (off <= length ys)%nat.
Proof.
  intros Hn. revert xs ys. induction fuel as [| fuel IH]; intros xs ys; simpl; [split; [done | lia] |].
  destruct (((n <=? length xs) && (n <=? length ys))%nat && bool_decide (take n xs = take n ys)) eqn:E;
    simpl; [| split; [done | lia]].
  apply andb_prop in E as [[Hx%Nat.leb_le Hy%Nat.leb_le]%andb_prop E%bool_decide_eq_true].
  destruct (IH (drop n xs) (drop n ys)) as (IHt & IHx & IHy). rewrite !length_drop in IHx, IHy.
  set (k := (equal_chunks n fuel (drop n xs) (drop n ys) * n)%nat) in *. clearbody k.
  split; [| lia]. rewrite <- (take_drop n xs), <- (take_drop n ys), E.
  rewrite !take_app_ge by (rewrite length_take; lia). rewrite !length_take, Nat.min_l by lia.
  replace (n + k - n)%nat with k by lia. by rewrite IHt.
Qed.

(** Comparing in chunks finds the length of the common prefix. *)
Lemma mismatch_spec xs ys : mismatch xs ys = equal_prefix xs ys.
Proof.
  unfold mismatch, mismatch_chunks.
  destruct (equal_chunks_spec 8 (length xs) xs ys ltac:(lia)) as (E & Hx & Hy).
  set (off := (equal_chunks 8 (length xs) xs ys * 8)%nat) in *. clearbody off.
  rewrite <- (take_drop off xs) at 2. rewrite <- (take_drop off ys) at 2. rewrite <- E.
  rewrite equal_prefix_app, length_take. lia.
Qed.
