(* ===== verification/TrieRep.v ===== *)
(** * How arrays represent a trie

    [rep a p T F]: the pointer [p] of the trie [a] stands for the tree [T], and
    [F] holds the nodes and tables that belong to it.  A remote pointer stands
    for any tree with that pointer; so [T] is the full trie, of which [a] holds
    a part.  A node marked as hashed has the right pointer, and so have all nodes
    below it.  [modifies F a a']: only cells of [F] have changed, and arrays
    have grown. *)

From stdpp Require Export propset.
From S2P Require Import Prelude SparseTrie TrieModel.

(** A node or a table of children. *)
Definition cell : Type := nat + nat.

Definition valid (a : Trie) (x : cell) : Prop :=
  match x with
  | inl i => (i < length (nodes a))%nat
  | inr b => (b < length (branch_node_children a))%nat
  end.

Definition unused (a : Trie) : propset cell := {[ x | ~ valid a x ]}.

Lemma elem_of_unused a x : x ∈ unused a <-> ~ valid a x.
Proof. done. Qed.
#[export] Instance set_unfold_unused a x : SetUnfoldElemOf x (unused a) (~ valid a x).
Proof. by constructor. Qed.

Definition same_cell (a a' : Trie) (x : cell) : Prop :=
  match x with
  | inl i => nodes a' !! i = nodes a !! i /\ hashed_nodes a' !! i = hashed_nodes a !! i
             /\ rlp_ptrs_local a' !! i = rlp_ptrs_local a !! i
  | inr b => branch_node_children a' !! b = branch_node_children a !! b
  end.

(** The three arrays of nodes have one length. *)
Definition arrays_ok (a : Trie) : Prop :=
  length (hashed_nodes a) = length (nodes a) /\ length (rlp_ptrs_local a) = length (nodes a).

Record grows (a a' : Trie) : Prop := {
  gr_keys : keys a `prefix_of` keys a';
  gr_values : values a `prefix_of` values a';
  gr_nodes : (length (nodes a) <= length (nodes a'))%nat;
  gr_tables : (length (branch_node_children a) <= length (branch_node_children a'))%nat;
  gr_arrays : arrays_ok a -> arrays_ok a';
}.

Definition modifies (F : propset cell) (a a' : Trie) : Prop :=
  grows a a' /\ forall x, valid a x -> x ∉ F -> same_cell a a' x.

(** ** Slices of growing arrays *)
Lemma slice_Some {A} (l : list A) r s : slice l r = Some s ->
  (r_start r <= r_end r <= length l)%nat /\ s = take (range_len r) (drop (r_start r) l)
  /\ length s = range_len r.
Proof.
  unfold slice, range_len. destruct (_ && _)%nat eqn:E; [| done]. intros [= <-].
  apply andb_prop in E as [H1%Nat.leb_le H2%Nat.leb_le].
  rewrite length_take, length_drop. split_and!; [lia | lia | done | lia].
Qed.

Lemma slice_prefix {A} (l l' : list A) r s :
  slice l r = Some s -> l `prefix_of` l' -> slice l' r = Some s.
Proof.
  intros Hs [k ->]. pose proof (slice_Some _ _ _ Hs) as (Hr & -> & _). unfold slice, range_len.
  rewrite (proj2 (Nat.leb_le _ _)), (proj2 (Nat.leb_le _ _)) by (rewrite ?length_app; lia). simpl.
  rewrite drop_app_le by lia. by rewrite take_app_le by (rewrite length_drop; lia).
Qed.

Lemma slice_snoc {A} (l s : list A) :
  slice (l ++ s) {| r_start := length l; r_end := length l + length s |} = Some s.
Proof.
  unfold slice, range_len. simpl. rewrite (proj2 (Nat.leb_le _ _)), (proj2 (Nat.leb_le _ _))
    by (rewrite ?length_app; lia). simpl. rewrite drop_app_length. f_equal. apply take_ge. lia.
Qed.

(** The end of a slice is a slice. *)
Lemma slice_suffix {A} (l : list A) r s p : slice l r = Some s -> (p <= length s)%nat ->
  slice l {| r_start := r_start r + p; r_end := r_end r |} = Some (drop p s).
Proof.
  intros Hs Hp. pose proof (slice_Some _ _ _ Hs) as (Hr & -> & Hl). unfold slice, range_len in *. simpl.
  rewrite Hl in Hp. rewrite (proj2 (Nat.leb_le _ _)), (proj2 (Nat.leb_le _ _)) by lia. simpl. f_equal.
  rewrite skipn_firstn_comm, drop_drop. f_equal. lia.
Qed.

Lemma slice_lookup {A} (l : list A) r s p x : slice l r = Some s -> s !! p = Some x ->
  l !! (r_start r + p)%nat = Some x.
Proof.
  intros Hs Hx. pose proof (slice_Some _ _ _ Hs) as (Hr & -> & Hl).
  apply lookup_take_Some in Hx as [Hx _]. by rewrite lookup_drop in Hx.
Qed.

Lemma range_is_empty_spec {A} (l : list A) r s : slice l r = Some s -> range_is_empty r = bool_decide (s = []).
Proof.
  intros Hs. pose proof (slice_Some _ _ _ Hs) as (Hr & _ & Hl). unfold range_is_empty, range_len in *.
  destruct (Nat.leb_spec (r_end r) (r_start r)) as [Hle | Hlt].
  - rewrite bool_decide_true; [done |]. apply length_zero_iff_nil. lia.
  - rewrite bool_decide_false; [done |]. intros ->. simpl in Hl. lia.
Qed.

(** ** Changes *)
Lemma grows_refl a : grows a a.
Proof. by split. Qed.

Lemma grows_trans a b c : grows a b -> grows b c -> grows a c.
Proof. intros [] []. split; [by etrans | by etrans | lia | lia | auto]. Qed.

Lemma valid_grows a a' x : grows a a' -> valid a x -> valid a' x.
Proof. intros [_ _ Hn Ht _]. destruct x; simpl; lia. Qed.

Lemma valid_unused a x : valid a x -> x ∈ unused a -> False.
Proof. by rewrite elem_of_unused. Qed.

Lemma unused_grows a a' : grows a a' -> unused a' ⊆ unused a.
Proof. intros Hg x. rewrite !elem_of_unused. eauto using valid_grows. Qed.

Lemma same_cell_trans a b c x : same_cell a b x -> same_cell b c x -> same_cell a c x.
Proof. destruct x; simpl; [intros (? & ? & ?) (? & ? & ?); split_and! |]; by etrans. Qed.

Lemma modifies_refl F a : modifies F a a.
Proof. split; [apply grows_refl |]. intros [i | b]; by simpl. Qed.

Lemma modifies_trans F G a b c : modifies F a b -> modifies G b c -> G ⊆ F ∪ unused a -> modifies F a c.
Proof.
  intros [Hg Hs] [Hg' Hs'] HG. split; [by eapply grows_trans |]. intros x Hv HF.
  eapply same_cell_trans; [by apply Hs |]. apply Hs'; [by eapply valid_grows |].
  intros [HxF | HxF]%HG%elem_of_union; [done |]. by eapply valid_unused.
Qed.

Lemma modifies_weaken F G a b : modifies F a b -> F ⊆ G -> modifies G a b.
Proof. intros [Hg Hs] HFG. split; [done |]. intros x Hv HG. apply Hs; [done |]. set_solver. Qed.

Section rep.
Context `{TrieCodec} (remotes : list bytes).

Definition hash_ok (a : Trie) (i : nat) (T : tree) (F : propset cell) : Prop :=
  hashed_nodes a !! i = Some true ->
  rlp_ptrs_local a !! i = Some (tptr T) /\ forall j, inl j ∈ F -> hashed_nodes a !! j = Some true.

Inductive rep (a : Trie) : NodePtr -> tree -> propset cell -> Prop :=
| rep_remote r T F : remotes !! r = Some (tptr T) -> F ≡ ∅ -> rep a (Remote r) T F
| rep_null i F : nodes a !! i = Some Null -> F ≡ {[inl i]} -> hash_ok a i TNull F ->
    rep a (Local i) TNull F
| rep_leaf i kr vr k v F : nodes a !! i = Some (Leaf kr vr) -> slice (keys a) kr = Some k ->
    slice (values a) vr = Some v -> F ≡ {[inl i]} -> hash_ok a i (TLeaf k v) F ->
    rep a (Local i) (TLeaf k v) F
| rep_ext i kr p k T F G : nodes a !! i = Some (Extension kr p) -> slice (keys a) kr = Some k ->
    rep a p T G -> inl i ∉ G -> F ≡ {[inl i]} ∪ G -> hash_ok a i (TExt k T) F ->
    rep a (Local i) (TExt k T) F
| rep_branch i b ptrs cs Fs F : nodes a !! i = Some (Branch b) ->
    branch_node_children a !! b = Some ptrs -> length ptrs = length cs ->
    (forall n, child ptrs n = None <-> child cs n = None) ->
    (forall n, child ptrs n = None -> Fs n ≡ ∅) ->
    (forall n p c, child ptrs n = Some p -> child cs n = Some c -> rep a p c (Fs n)) ->
    (forall n, inl i ∉ Fs n /\ inr b ∉ Fs n) -> (forall n m, n <> m -> Fs n ## Fs m) ->
    F ≡ {[ x | x = inl i \/ x = inr b \/ exists n, x ∈ Fs n ]} -> hash_ok a i (TBranch cs) F ->
    rep a (Local i) (TBranch cs) F.

Definition rep_opt (a : Trie) (op : option NodePtr) (oc : option tree) (F : propset cell) : Prop :=
  match op, oc with
  | Some p, Some T => rep a p T F
  | None, None => F ≡ ∅
  | _, _ => False
  end.

#[global] Instance hash_ok_proper a i T : Proper ((≡) ==> (↔)) (hash_ok a i T).
Proof. intros F G E. unfold hash_ok. by setoid_rewrite E. Qed.

#[global] Instance rep_proper a p T : Proper ((≡) ==> (↔)) (rep a p T).
Proof.
  intros F G E. split; intros Hr; destruct Hr.
  all: try (econstructor; eauto; [by rewrite <- E || rewrite E | by rewrite <- E || rewrite E]).
  all: try (econstructor; eauto; by rewrite <- E || rewrite E).
Qed.

Lemma rep_local a i T F : rep a (Local i) T F -> inl i ∈ F.
Proof. inversion 1; set_solver. Qed.

Lemma rep_valid a p T F : rep a p T F -> forall x, x ∈ F -> valid a x.
Proof.
  induction 1 as [| i F Hn E _ | i kr vr k v F Hn _ _ E _ | i kr p k T F G Hn _ _ IH _ E _ |
    i b ptrs cs Fs F Hn Ht Hl Hd Hempty _ IH _ _ E _]; intros x Hx; try (set_unfold; naive_solver).
  1, 2: assert (x = inl i) as -> by set_solver; simpl; by eapply lookup_lt_Some.
  - apply E, elem_of_union in Hx as [-> % elem_of_singleton | Hx]; [simpl; by eapply lookup_lt_Some | auto].
  - apply E in Hx as [-> | [-> | [n Hx]]]; [simpl; by eapply lookup_lt_Some.. |].
    destruct (child ptrs n) as [p |] eqn:Ep; [| by apply Hempty in Hx].
    destruct (child cs n) as [c |] eqn:Ec; [by eapply IH | by apply Hd in Ec; rewrite Ep in Ec].
Qed.

(** ** Framing *)
Lemma hash_ok_frame a a' i T F : (forall x, x ∈ F -> same_cell a a' x) -> inl i ∈ F ->
  hash_ok a i T F -> hash_ok a' i T F.
Proof.
  intros Hs Hi Hh Ht. destruct (Hs _ Hi) as (_ & E1 & E2). rewrite E1 in Ht. rewrite E2.
  destruct (Hh Ht) as [Hp Hall]. split; [done |]. intros j Hj. destruct (Hs _ Hj) as (_ & -> & _). auto.
Qed.

Lemma rep_frame a a' p T F : grows a a' -> (forall x, x ∈ F -> same_cell a a' x) ->
  rep a p T F -> rep a' p T F.
Proof.
  intros Hg Hs Hr. revert Hs. induction Hr as [| i F Hn E Hh | i kr vr k v F Hn Hk Hv E Hh |
    i kr p k T F G Hn Hk _ IH Hi E Hh | i b ptrs cs Fs F Hn Ht Hl Hd Hempty _ IH Hi Hdisj E Hh]; intros Hs.
  - by constructor.
  - assert (inl i ∈ F) as HiF by set_solver. destruct (Hs _ HiF) as (Hn' & _).
    constructor; [congruence | done | by eapply hash_ok_frame].
  - assert (inl i ∈ F) as HiF by set_solver. destruct (Hs _ HiF) as (Hn' & _).
    econstructor; [by rewrite Hn' | by eapply slice_prefix, Hg.. | done | by eapply hash_ok_frame].
  - assert (inl i ∈ F) as HiF by set_solver. destruct (Hs _ HiF) as (Hn' & _).
    econstructor; [by rewrite Hn' | by eapply slice_prefix, Hg | | done.. | by eapply hash_ok_frame].
    apply IH. intros x Hx. apply Hs. set_solver.
  - assert (inl i ∈ F) as HiF by (apply E; by left). destruct (Hs _ HiF) as (Hn' & _).
    assert (inr b ∈ F) as HbF by (apply E; by right; left). pose proof (Hs _ HbF) as Hb'. simpl in Hb'.
    econstructor; [by rewrite Hn' | by rewrite Hb' | done.. | | done | done | done | by eapply hash_ok_frame].
    intros n p c Hp Hc. eapply IH; [done.. |]. intros x Hx. apply Hs, E. right; right. eauto.
Qed.

Lemma rep_modifies a a' p T F G : modifies G a a' -> G ## F -> rep a p T F -> rep a' p T F.
Proof.
  intros [Hg Hs] HGF Hr. apply (rep_frame a); [done | | done]. intros x Hx.
  apply Hs; [by eapply rep_valid | set_solver].
Qed.

Lemma rep_opt_modifies a a' op oc F G : modifies G a a' -> G ## F -> rep_opt a op oc F -> rep_opt a' op oc F.
Proof. unfold rep_opt. destruct op, oc; eauto using rep_modifies. Qed.

Lemma rep_opt_valid a op oc F x : rep_opt a op oc F -> x ∈ F -> valid a x.
Proof. unfold rep_opt. destruct op, oc; [by eauto using rep_valid | done | done | set_solver]. Qed.

(** ** A node that is no longer hashed *)
Definition unhash (a : Trie) (i : nat) : Trie :=
  with_node_arrays a (<[i := false]> (hashed_nodes a)) (nodes a).

Lemma set_hashed_false a i T F : arrays_ok a -> rep a (Local i) T F ->
  set_hashed a i false = Some (unhash a i).
Proof.
  intros [Ha _] Hr. pose proof (rep_valid _ _ _ _ Hr _ (rep_local _ _ _ _ Hr)) as Hv. simpl in Hv.
  unfold set_hashed. by rewrite decide_True by lia.
Qed.

Lemma unhash_modifies a i : modifies {[inl i]} a (unhash a i).
Proof.
  split.
  - split; try done. unfold arrays_ok. simpl. by rewrite length_insert.
  - intros [j | b] _ Hx; simpl; [| done]. rewrite list_lookup_insert_ne by set_solver. done.
Qed.

Lemma unhash_hashed a i T F : arrays_ok a -> rep a (Local i) T F -> hashed_nodes (unhash a i) !! i = Some false.
Proof.
  intros [Ha _] Hr. pose proof (rep_valid _ _ _ _ Hr _ (rep_local _ _ _ _ Hr)) as Hv. simpl in *.
  apply list_lookup_insert_eq. lia.
Qed.

Lemma hash_ok_false a i T F : hashed_nodes a !! i = Some false -> hash_ok a i T F.
Proof. intros Hf Ht. congruence. Qed.

Lemma rep_unhash a i T F : arrays_ok a -> rep a (Local i) T F -> rep (unhash a i) (Local i) T F.
Proof.
  intros Ha Hr. pose proof (unhash_hashed _ _ _ _ Ha Hr) as Hf. pose proof (unhash_modifies a i) as Hm.
  inversion Hr; subst; econstructor; eauto using hash_ok_false.
  - eapply rep_modifies; [done | set_solver | done].
  - intros n p c Hp Hc. eapply rep_modifies; [done | | eauto]. naive_solver set_solver.
Qed.

(** ** A branch with a hole

    The branch at [j] with table [b], whose child at [n] is left out; [R] holds
    the cells of the rest. *)
Definition branch_hole (a : Trie) (j b : nat) (ptrs : list (option NodePtr)) (cs : list (option tree))
    (n : nat) (R : propset cell) : Prop :=
  exists Fs, nodes a !! j = Some (Branch b) /\ hashed_nodes a !! j = Some false
  /\ branch_node_children a !! b = Some ptrs /\ length ptrs = length cs
  /\ (forall m, m <> n -> rep_opt a (child ptrs m) (child cs m) (Fs m))
  /\ (forall m, m <> n -> inl j ∉ Fs m /\ inr b ∉ Fs m)
  /\ (forall m m', m <> n -> m' <> n -> m <> m' -> Fs m ## Fs m')
  /\ R ≡ {[ x | x = inl j \/ x = inr b \/ exists m, m <> n /\ x ∈ Fs m ]}.

Lemma hole_valid a j b ptrs cs n R x : branch_hole a j b ptrs cs n R -> x ∈ R -> valid a x.
Proof.
  intros (Fs & Hn & _ & Ht & _ & Hr & _ & _ & E) Hx.
  apply E in Hx as [-> | [-> | (m & Hm & Hx)]]; [simpl; by eapply lookup_lt_Some.. |].
  eapply rep_opt_valid; [by apply Hr | done].
Qed.

Lemma hole_cells a j b ptrs cs n R : branch_hole a j b ptrs cs n R -> inl j ∈ R /\ inr b ∈ R.
Proof. intros (Fs & _ & _ & _ & _ & _ & _ & _ & E). split; apply E; [by left | by right; left]. Qed.

Lemma hole_open a j cs F n : rep a (Local j) (TBranch cs) F -> hashed_nodes a !! j = Some false ->
  exists b ptrs R G, nodes a !! j = Some (Branch b) /\ branch_node_children a !! b = Some ptrs
    /\ branch_hole a j b ptrs cs n R /\ rep_opt a (child ptrs n) (child cs n) G
    /\ F ≡ G ∪ R /\ G ## R.
Proof.
  intros Hr Hf. inversion Hr as [| | | |i b ptrs cs' Fs F' Hn Ht Hl Hd He Hc Hi Hdisj E _]; subst.
  assert (forall m, rep_opt a (child ptrs m) (child cs m) (Fs m)) as Hopt.
  { intros m. unfold rep_opt. destruct (child ptrs m) eqn:Ep, (child cs m) eqn:Ec; [by eauto | | | by auto].
    - apply Hd in Ec. congruence.
    - apply Hd in Ep. congruence. }
  exists b, ptrs, {[ x | x = inl j \/ x = inr b \/ exists m, m <> n /\ x ∈ Fs m ]}, (Fs n).
  split_and!; [done | done | | done | |].
  - exists Fs. split_and!; auto.
  - rewrite E. intros x. set_unfold. split.
    + intros [| [| [m Hm]]]; [by right; left | by right; right; left |].
      destruct (decide (m = n)) as [-> | ]; [by left | right; right; right; eauto].
    + naive_solver.
  - intros x Hx. set_unfold. specialize (Hi n). intros [-> | [-> | (m & Hm & Hx')]]; [naive_solver.. |].
    by eapply (Hdisj n m).
Qed.

Lemma hole_frame a a' j b ptrs cs n R G : branch_hole a j b ptrs cs n R -> modifies G a a' -> G ## R ->
  branch_hole a' j b ptrs cs n R.
Proof.
  intros Hh Hm HG. pose proof (hole_cells _ _ _ _ _ _ _ Hh) as [Hj Hb].
  pose proof (hole_valid _ _ _ _ _ _ _ _ Hh Hj) as Vj. pose proof (hole_valid _ _ _ _ _ _ _ _ Hh Hb) as Vb.
  destruct (proj2 Hm _ Vj) as (En & Eh & _); [set_solver |].
  pose proof (proj2 Hm _ Vb) as Et. simpl in Et. specialize (Et ltac:(set_solver)).
  destruct Hh as (Fs & Hn & Hf & Ht & Hl & Hr & Hi & Hdisj & E). exists Fs.
  rewrite En, Eh, Et. split_and!; try done. intros m Hmn. eapply rep_opt_modifies; [done | | by apply Hr].
  intros x HxG Hx. apply (HG x HxG), E. right; right. eauto.
Qed.

Lemma hole_close a j b ptrs cs n R oc G : branch_hole a j b ptrs cs n R ->
  rep_opt a (child ptrs n) oc G -> G ## R -> (n < length cs)%nat ->
  rep a (Local j) (TBranch (<[n := oc]> cs)) (G ∪ R).
Proof.
  intros (Fs & Hn & Hf & Ht & Hl & Hr & Hi & Hdisj & E) Hopt HG Hlt.
  set (Fs' m := if decide (m = n) then G else Fs m).
  assert (forall m, rep_opt a (child ptrs m) (child (<[n := oc]> cs) m) (Fs' m)) as Hall.
  { intros m. unfold Fs'. rewrite child_insert by done. case_decide as Em; [by rewrite Em | by apply Hr]. }
  apply (rep_branch a j b ptrs _ Fs'); try done.
  - by rewrite length_insert.
  - intros m. specialize (Hall m). unfold rep_opt in Hall. by destruct (child ptrs m), (child _ m).
  - intros m Hm. specialize (Hall m). unfold rep_opt in Hall. rewrite Hm in Hall. by destruct (child _ m).
  - intros m p c Hp Hc. specialize (Hall m). unfold rep_opt in Hall. by rewrite Hp, Hc in Hall.
  - intros m. unfold Fs'. case_decide; [| by apply Hi]. set_unfold. naive_solver.
  - intros m m' Hmm. unfold Fs'. do 2 case_decide; subst; [done | | | by apply Hdisj].
    + intros x Hx Hx'. apply (HG x Hx), E. right; right. eauto.
    + intros x Hx Hx'. apply (HG x Hx'), E. right; right. eauto.
  - intros x. unfold Fs'. rewrite elem_of_union, E, elem_of_PropSet. split.
    + intros [Hx | [| [| (m & Hm & Hx)]]]; [| by left | by right; left |]; right; right.
      * exists n. by rewrite decide_True.
      * exists m. by rewrite decide_False.
    + intros [| [| [m Hx]]]; [by right; left | by right; right; left |].
      case_decide; [by left | right; right; right; eauto].
  - by apply hash_ok_false.
Qed.

Lemma hole_set a j b ptrs cs n R op : branch_hole a j b ptrs cs n R -> (n < length cs)%nat ->
  exists a', set_child a b (Z.of_nat n) op = Some a' /\ modifies {[inr b]} a a'
    /\ branch_hole a' j b (<[n := op]> ptrs) cs n R.
Proof.
  intros (Fs & Hn & Hf & Ht & Hl & Hr & Hi & Hdisj & E) Hlt. unfold set_child. rewrite Ht, Nat2Z.id.
  rewrite decide_True by lia. eexists. split; [done |].
  set (a' := with_tables a _). assert (modifies {[inr b]} a a') as Hm.
  { split; [split; try done; simpl; by rewrite ?length_insert |].
    intros [i | b'] _ Hx; simpl; [done |]. rewrite list_lookup_insert_ne by set_solver. done. }
  split; [done |]. exists Fs. split_and!; try done.
  - simpl. apply list_lookup_insert_eq. by eapply lookup_lt_Some.
  - by rewrite length_insert.
  - intros m Hmn. rewrite child_insert, decide_False by (done || lia).
    eapply rep_opt_modifies; [done | | by apply Hr]. specialize (Hi m Hmn). set_solver.
Qed.

(** Replacing the pointer and the content of the hole. *)
Lemma hole_fill a j b ptrs cs n R p T G : branch_hole a j b ptrs cs n R -> (n < length cs)%nat ->
  rep a p T G -> G ## R ->
  exists a', set_child a b (Z.of_nat n) (Some p) = Some a' /\ modifies {[inr b]} a a'
    /\ rep a' (Local j) (TBranch (<[n := Some T]> cs)) (G ∪ R).
Proof.
  intros Hh Hlt Hr HG. pose proof (hole_cells _ _ _ _ _ _ _ Hh) as [_ Hb].
  destruct (hole_set _ _ _ _ _ _ _ (Some p) Hh Hlt) as (a' & E & Hm & Hh'). exists a'. split_and!; [done | done |].
  eapply hole_close; [done | | done | done]. destruct Hh as (_ & _ & _ & _ & Hl & _).
  rewrite child_insert, decide_True by (done || lia). eapply (rep_modifies a); [done | set_solver | done].
Qed.

End rep.
