(* ===== verification/TrieSplit.v ===== *)
(** * Allocating nodes and splitting a node of the sparse trie

    What the elementary updates change, and the new branch where a key and a
    node part ways. *)

From S2P Require Import Prelude SparseTrie TrieModel TrieRep.

(** ** Allocation *)
Lemma push_node_modifies a n : arrays_ok a -> modifies ∅ a (push_node a n).1.
Proof.
  intros [H1 H2]. split.
  - split; simpl; try done; [rewrite length_app; simpl; lia |].
    unfold arrays_ok. simpl. rewrite !length_app. simpl. lia.
  - intros [i | b] Hv _; simpl in *; [| done]. by rewrite !lookup_app_l by lia.
Qed.

Lemma push_node_cell a n : arrays_ok a ->
  nodes (push_node a n).1 !! length (nodes a) = Some n
  /\ hashed_nodes (push_node a n).1 !! length (nodes a) = Some false.
Proof.
  intros [H1 H2]. simpl. split; [by apply list_lookup_middle |]. rewrite <- H1. by apply list_lookup_middle.
Qed.

Lemma with_keys_modifies a ks : keys a `prefix_of` ks -> modifies ∅ a (with_keys a ks).
Proof. intros Hp. split; [by split | intros [|]; by simpl]. Qed.

Lemma insert_key_modifies a k : modifies ∅ a (insert_key a k).1.
Proof. apply with_keys_modifies. by apply prefix_app_r. Qed.

Lemma insert_key_slice a k : slice (keys (insert_key a k).1) (insert_key a k).2 = Some k.
Proof. apply slice_snoc. Qed.

Lemma create_children_modifies a : modifies ∅ a (create_branch_children a).1.
Proof.
  split; [split; simpl; try done; rewrite length_app; lia |].
  intros [i | b] Hv _; simpl in *; [done |]. by rewrite lookup_app_l.
Qed.

(** A value to insert: new bytes, or a range of the stored ones. *)
Definition value_of (a : Trie) (v : InsertValue) : option bytes :=
  match v with Value s => Some s | StoredValue r => slice (values a) r end.

Lemma value_of_grows a a' v bs : grows a a' -> value_of a v = Some bs -> value_of a' v = Some bs.
Proof. intros Hg. destruct v as [s | r]; [done |]. simpl. intros Hs. eapply slice_prefix; [done | by apply Hg]. Qed.

Lemma insert_value_modifies a v : modifies ∅ a (insert_value a v).1.
Proof.
  destruct v as [s | r]; [| apply modifies_refl].
  split; [split; try done; simpl; by apply prefix_app_r | intros [|]; by simpl].
Qed.

Lemma insert_value_slice a v bs : value_of a v = Some bs ->
  slice (values (insert_value a v).1) (insert_value a v).2 = Some bs.
Proof. destruct v as [s | r]; [intros [= <-]; apply slice_snoc | done]. Qed.

Lemma set_node_modifies a i n : (i < length (nodes a))%nat ->
  exists a', set_node a i n = Some a' /\ modifies {[inl i]} a a' /\ nodes a' !! i = Some n
    /\ hashed_nodes a' = hashed_nodes a /\ keys a' = keys a /\ values a' = values a.
Proof.
  intros Hi. unfold set_node. rewrite decide_True by done. eexists. split; [done |]. split_and!; try done.
  - split; [split; simpl; try done; try (by rewrite length_insert) |].
    + unfold arrays_ok. simpl. by rewrite length_insert.
    + intros [j | b] Hv Hx; simpl; [| done]. by rewrite list_lookup_insert_ne by set_solver.
  - simpl. by apply list_lookup_insert_eq.
Qed.

(** Changes that add cells only. *)
Lemma modifies_add F a b c : modifies F a b -> modifies ∅ b c -> modifies F a c.
Proof. intros H1 H2. eapply modifies_trans; [done.. |]. set_solver. Qed.

Lemma modifies_add_l F a b c : modifies ∅ a b -> modifies F b c -> modifies F a c.
Proof.
  intros H1 H2. eapply modifies_trans; [by eapply modifies_weaken, empty_subseteq | done | set_solver].
Qed.

Lemma modifies_arrays F a b : modifies F a b -> arrays_ok a -> arrays_ok b.
Proof. intros [[] _]. auto. Qed.

Section rep.
Context `{TrieCodec} (remotes : list bytes).
Abbreviation rep := (rep remotes).
Abbreviation branch_hole := (branch_hole remotes).

(** ** New nodes *)
Lemma push_leaf_range a kr vr k v : arrays_ok a -> slice (keys a) kr = Some k ->
  slice (values a) vr = Some v ->
  modifies ∅ a (push_node a (Leaf kr vr)).1
  /\ rep (push_node a (Leaf kr vr)).1 (Local (length (nodes a))) (TLeaf k v) {[inl (length (nodes a))]}.
Proof.
  intros Ha Hk Hv. pose proof (push_node_modifies a (Leaf kr vr) Ha) as Hm.
  pose proof (push_node_cell a (Leaf kr vr) Ha) as [Hn Hh]. split; [done |].
  eapply rep_leaf; [done | done | done | done | by apply hash_ok_false].
Qed.

Lemma push_leaf_rep a key v bs : arrays_ok a -> value_of a v = Some bs ->
  exists a', push_leaf a key v = (a', Local (length (nodes a))) /\ modifies ∅ a a'
    /\ rep a' (Local (length (nodes a))) (TLeaf key bs) {[inl (length (nodes a))]}.
Proof.
  intros Ha Hv. unfold push_leaf.
  pose proof (insert_key_modifies a key) as M1. pose proof (insert_key_slice a key) as S1.
  destruct (insert_key a key) as [a1 kr] eqn:E1. simpl in *.
  pose proof (insert_value_modifies a1 v) as M2.
  pose proof (insert_value_slice a1 v bs (value_of_grows _ _ _ _ (proj1 M1) Hv)) as S2.
  destruct (insert_value a1 v) as [a2 vr] eqn:E2. simpl in *.
  assert (length (nodes a2) = length (nodes a)) as El.
  { injection E1 as <- <-. destruct v; injection E2 as <- <-; done. }
  pose proof (modifies_add _ _ _ _ M1 M2) as M.
  destruct (push_leaf_range a2 kr vr key bs) as [M3 Hr]; [by eapply modifies_arrays | | done |].
  { eapply slice_prefix; [done | apply M2]. }
  rewrite El in Hr. exists (push_node a2 (Leaf kr vr)).1. split; [by rewrite <- El |].
  split; [by eapply modifies_add | done].
Qed.

Lemma push_ext_rep a kr k q T G : arrays_ok a -> slice (keys a) kr = Some k -> rep a q T G ->
  modifies ∅ a (push_node a (Extension kr q)).1
  /\ rep (push_node a (Extension kr q)).1 (Local (length (nodes a))) (TExt k T)
       ({[inl (length (nodes a))]} ∪ G).
Proof.
  intros Ha Hk Hr. pose proof (push_node_modifies a (Extension kr q) Ha) as Hm.
  pose proof (push_node_cell a (Extension kr q) Ha) as [Hn Hh]. split; [done |].
  eapply rep_ext; [done | done | | | done | by apply hash_ok_false].
  - eapply rep_modifies; [done | set_solver | done].
  - intros Hx. eapply rep_valid in Hr; [| done]. simpl in Hr. lia.
Qed.

(** ** An extension if the prefix is not empty *)
Definition mk_ext (p : nibbles) (T : tree) : tree := match p with [] => T | _ => TExt p T end.

Lemma tget_mk_ext p T key :
  tget (mk_ext p T) key = if starts_with key p then tget T (drop (length p) key) else None.
Proof. destruct p as [| x p]; [| done]. by destruct key. Qed.

Lemma tget_mk_ext_app p T key : tget (mk_ext p T) (p ++ key) = tget T key.
Proof. by rewrite tget_mk_ext, starts_with_app, drop_app_length. Qed.

Lemma tget_leaf_app p s v key : tget (TLeaf (p ++ s) v) key = tget (mk_ext p (TLeaf s v)) key.
Proof.
  rewrite tget_mk_ext. destruct (starts_with key p) eqn:E.
  - apply starts_with_spec in E as [k ->]. rewrite drop_app_length. simpl.
    destruct (decide (s = k)) as [-> | Hne]; [by rewrite !decide_True |].
    rewrite decide_False; [done |]. by intros ?%(inj (app p)).
  - simpl. rewrite decide_False; [done |]. intros <-. by rewrite starts_with_app in E.
Qed.

Lemma tget_mk_ext_mk_ext p s T key : tget (mk_ext (p ++ s) T) key = tget (mk_ext p (mk_ext s T)) key.
Proof.
  rewrite !tget_mk_ext. destruct (starts_with key p) eqn:E.
  - apply starts_with_spec in E as [k ->]. rewrite drop_app_length, length_app, drop_app_add' by done.
    assert (starts_with (p ++ k) (p ++ s) = starts_with k s) as ->; [| done].
    unfold starts_with. rewrite length_app, take_app_add. apply bool_decide_ext. split; [| by intros ->].
    by intros ?%(inj (app p)).
  - assert (starts_with key (p ++ s) = false) as ->; [| done]. apply starts_with_false.
    intros [k ->]. by rewrite <- app_assoc, starts_with_app in E.
Qed.

Definition is_branch (T : tree) : Prop := match T with TBranch _ => True | _ => False end.

Lemma canon_mk_ext m p T : canon m T -> Forall nibble p -> p = [] \/ is_branch T ->
  canon (length p + m) (mk_ext p T).
Proof.
  intros HT Hp Hb. destruct p as [| x p]; [done |]. destruct T as [| | | cs]; try naive_solver.
  by eapply canon_ext.
Qed.

(** ** Splitting at the first difference *)
Definition two_children (n1 n2 : Z) (c1 c2 : tree) : tree :=
  TBranch (<[Z.to_nat n2 := Some c2]> (<[Z.to_nat n1 := Some c1]> (replicate 16 None))).

Lemma child_two n1 n2 (c1 c2 : tree) m : nibble n1 -> nibble n2 -> n1 <> n2 ->
  child (<[Z.to_nat n2 := Some c2]> (<[Z.to_nat n1 := Some c1]> (replicate 16 None))) m =
  if decide (m = Z.to_nat n2) then Some c2 else if decide (m = Z.to_nat n1) then Some c1 else None.
Proof.
  unfold nibble. intros H1 H2 Hne.
  rewrite !child_insert by (rewrite ?length_insert, length_replicate; lia).
  repeat case_decide; try done. apply child_replicate.
Qed.

Lemma canon_two m n1 n2 c1 c2 : nibble n1 -> nibble n2 -> n1 <> n2 -> canon m c1 -> canon m c2 ->
  canon (S m) (two_children n1 n2 c1 c2).
Proof.
  intros H1 H2 Hne Hc1 Hc2. apply (canon_branch m _ (Z.to_nat n1) (Z.to_nat n2)).
  - by rewrite !length_insert, length_replicate.
  - unfold nibble in *. lia.
  - rewrite child_two, decide_False, decide_True by (done || (unfold nibble in *; lia)). by eexists.
  - rewrite child_two, decide_True by done. by eexists.
  - intros i c. rewrite child_two by done. repeat case_decide; naive_solver.
Qed.

(** What a split trie maps keys to. *)
Lemma tget_split prefix n1 s1 n2 c2 bs key :
  nibble n1 -> nibble n2 -> n1 <> n2 -> Forall nibble key ->
  tget (mk_ext prefix (two_children n1 n2 (TLeaf s1 bs) c2)) key =
  if decide (key = prefix ++ n1 :: s1) then Some bs else tget (mk_ext (prefix ++ [n2]) c2) key.
Proof.
  intros H1 H2 Hne Hkey. rewrite tget_mk_ext_mk_ext, !tget_mk_ext.
  destruct (starts_with key prefix) eqn:E.
  - apply starts_with_spec in E as [k ->]. rewrite drop_app_length. destruct k as [| x k].
    { rewrite decide_False by (intros E%(inj (app prefix)); done). done. }
    apply Forall_app in Hkey as [_ [Hx _]%Forall_cons]. unfold two_children. rewrite tget_branch, child_two by done.
    unfold starts_with. simpl. rewrite take_0. unfold nibble in *.
    destruct (decide (x = n2)) as [-> | Hx2].
    + rewrite decide_True, bool_decide_true by done. simpl. rewrite drop_0.
      rewrite decide_False; [done |]. intros E%(inj (app prefix)). congruence.
    + rewrite (decide_False (P := Z.to_nat x = _)) by lia. rewrite bool_decide_false by congruence.
      destruct (decide (x = n1)) as [-> | Hx1].
      * rewrite decide_True by done. simpl. apply decide_ext. split; [by intros -> |].
        intros E%(inj (app prefix)). congruence.
      * rewrite !decide_False; [done | | lia]. intros E%(inj (app prefix)). congruence.
  - rewrite decide_False; [done |]. intros ->. by rewrite starts_with_app in E.
Qed.

Lemma extract_spec a path kr k : slice (keys a) kr = Some k -> (length k <= length path)%nat ->
  ~ k `prefix_of` path ->
  exists prefix n1 s1 n2 s2 r2,
    extract_prefix_and_suffix a path kr = Some (prefix, n1, s1, n2, r2)
    /\ path = prefix ++ n1 :: s1 /\ k = prefix ++ n2 :: s2 /\ n1 <> n2 /\ slice (keys a) r2 = Some s2.
Proof.
  intros Hk Hlen Hnp. unfold extract_prefix_and_suffix. rewrite Hk, mismatch_spec.
  pose proof (equal_prefix_len path k) as [L1 L2]. pose proof (equal_prefix_take path k) as Et.
  pose proof (equal_prefix_ne path k) as Hne. set (p := equal_prefix path k) in *. clearbody p.
  assert (p < length k)%nat as Hp.
  { destruct (decide (p = length k)) as [-> |]; [| lia]. destruct Hnp.
    rewrite (take_ge k) in Et by lia. rewrite <- Et. apply prefix_take. }
  destruct (lookup_lt_is_Some_2 path p) as [n1 H1]; [lia |].
  destruct (lookup_lt_is_Some_2 k p Hp) as [n2 H2]. rewrite H1, (slice_lookup _ _ _ _ _ Hk H2).
  exists (take p path), n1, (drop (S p) path), n2, (drop (S p) k). eexists. split; [done |].
  split_and!; [by rewrite take_drop_middle | rewrite Et; by rewrite take_drop_middle | by apply (Hne _ _ H1 H2) |].
  pose proof (slice_suffix _ _ _ (S p) Hk Hp) as Hs. by rewrite <- Hs; do 2 f_equal; lia.
Qed.

(** ** The new branch *)

(** The node [i] is the branch [j], or an extension in front of it. *)
Definition ext_above (a : Trie) (i j : nat) (prefix : nibbles) : Prop :=
  match prefix with
  | [] => i = j
  | _ => exists kr, nodes a !! i = Some (Extension kr (Local j)) /\ slice (keys a) kr = Some prefix
           /\ hashed_nodes a !! i = Some false /\ i <> j
  end.

Lemma ext_above_frame a a' i j p G : ext_above a i j p -> modifies G a a' -> valid a (inl i) ->
  (i <> j -> inl i ∉ G) -> ext_above a' i j p.
Proof.
  destruct p as [| x p]; [done |]. intros (kr & Hn & Hk & Hf & Hij) Hm Hv HG.
  destruct (proj2 Hm _ Hv (HG Hij)) as (E1 & E2 & _). exists kr. rewrite E1, E2. split_and!; try done.
  eapply slice_prefix; [done | apply Hm].
Qed.

Lemma ext_above_rep a i j p T G : ext_above a i j p -> rep a (Local j) T G -> (i <> j -> inl i ∉ G) ->
  rep a (Local i) (mk_ext p T) ({[inl i]} ∪ G).
Proof.
  destruct p as [| x p].
  - intros -> Hr _. pose proof (rep_local _ _ _ _ _ Hr) as Hj.
    assert ({[inl j]} ∪ G ≡ G) as -> by set_solver. done.
  - intros (kr & Hn & Hk & Hf & Hij) Hr HG. eapply rep_ext; [done | done | done | auto | done |].
    by apply hash_ok_false.
Qed.

Lemma empty_hole a j b n : nodes a !! j = Some (Branch b) -> hashed_nodes a !! j = Some false ->
  branch_node_children a !! b = Some (replicate 16 None) ->
  branch_hole a j b (replicate 16 None) (replicate 16 None) n {[inl j; inr b]}.
Proof.
  intros Hn Hf Ht. exists (fun _ => ∅). split_and!; try done; try set_solver.
  - intros m _. by rewrite !child_replicate.
Qed.

Lemma split_node_spec a i prefix n : arrays_ok a -> valid a (inl i) -> hashed_nodes a !! i = Some false ->
  exists a' b j, split_node a i prefix = Some (a', b) /\ modifies {[inl i]} a a'
    /\ branch_hole a' j b (replicate 16 None) (replicate 16 None) n {[inl j; inr b]}
    /\ ext_above a' i j prefix /\ (j = i \/ ~ valid a (inl j)) /\ ~ valid a (inr b).
Proof.
  intros Ha Hv Hf. simpl in Hv. destruct prefix as [| x prefix].
  - unfold split_node. pose proof (create_children_modifies a) as M1.
    set (a1 := (create_branch_children a).1) in *. change (create_branch_children a) with (a1, length (branch_node_children a)).
    destruct (set_node_modifies a1 i (Branch (length (branch_node_children a)))) as (a' & -> & M2 & Hn & Eh & _); [done |].
    eexists _, _, i. split; [done |]. split_and!; [| | done | by left | simpl; lia].
    + by eapply modifies_add_l.
    + apply empty_hole; [done | by rewrite Eh |].
      destruct M2 as [_ M2]. rewrite (M2 (inr (length (branch_node_children a)))); [| | set_solver].
      * simpl. by apply list_lookup_middle.
      * simpl. rewrite length_app. simpl. lia.
  - unfold split_node. pose proof (insert_key_modifies a (x :: prefix)) as M1.
    pose proof (insert_key_slice a (x :: prefix)) as Hs.
    destruct (insert_key a (x :: prefix)) as [a1 kr] eqn:E1. simpl in Hs, M1.
    assert (nodes a1 = nodes a /\ hashed_nodes a1 = hashed_nodes a
      /\ branch_node_children a1 = branch_node_children a) as (En & Eh & Et) by (injection E1 as <- <-; done).
    rewrite En. destruct (set_node_modifies a1 i (Extension kr (Local (length (nodes a)))))
      as (a2 & -> & M2 & Hn2 & Eh2 & Ek2 & _); [by rewrite En |].
    pose proof (create_children_modifies a2) as M3. set (a3 := (create_branch_children a2).1) in *.
    change (create_branch_children a2) with (a3, length (branch_node_children a2)).
    assert (modifies {[inl i]} a a2) as M12 by by eapply modifies_add_l.
    assert (modifies {[inl i]} a a3) as M123 by by eapply modifies_add.
    pose proof (modifies_arrays _ _ _ M123 Ha) as Ha3.
    pose proof (push_node_modifies a3 (Branch (length (branch_node_children a2))) Ha3) as M4.
    pose proof (push_node_cell a3 (Branch (length (branch_node_children a2))) Ha3) as [Hn4 Hf4].
    set (a4 := (push_node a3 _).1) in *.
    assert (length (nodes a3) = length (nodes a)) as El3.
    { transitivity (length (nodes a1)); [| by rewrite En]. destruct Ha3 as [<- _].
      pose proof (modifies_arrays _ _ _ M1 Ha) as [<- _]. by rewrite <- Eh2. }
    eexists a4, _, (length (nodes a)). split; [done |].
    split_and!; [by eapply modifies_add | | | right; simpl; lia |].
    + rewrite <- El3. apply empty_hole; [done | done |]. simpl. by apply list_lookup_middle.
    + exists kr. split_and!; [| | | lia].
      * simpl. rewrite lookup_app_l by (simpl; apply lookup_lt_Some in Hn2; done). done.
      * simpl. by rewrite Ek2.
      * simpl. rewrite lookup_app_l, Eh2, Eh by (apply lookup_lt_Some in Hf; rewrite Eh2, Eh; done). done.
    + pose proof (gr_tables _ _ (proj1 M12)). simpl. lia.
Qed.

(** Both children are put into the new branch. *)
Lemma split_fill a i j b n prefix n1 n2 p1 p2 c1 c2 G1 G2 :
  branch_hole a j b (replicate 16 None) (replicate 16 None) n {[inl j; inr b]} ->
  ext_above a i j prefix -> valid a (inl i) -> nibble n1 -> nibble n2 -> n1 <> n2 ->
  rep a p1 c1 G1 -> rep a p2 c2 G2 -> G1 ## G2 ->
  G1 ## {[inl i; inl j; inr b]} -> G2 ## {[inl i; inl j; inr b]} ->
  exists a', (let! t := set_child a b n1 (Some p1) in set_child t b n2 (Some p2)) = Some a'
    /\ modifies {[inr b]} a a'
    /\ rep a' (Local i) (mk_ext prefix (two_children n1 n2 c1 c2)) (G1 ∪ G2 ∪ {[inl i; inl j; inr b]}).
Proof.
  intros (Fs & Hn & Hf & Ht & _) Hx Hv H1 H2 Hne Hr1 Hr2 HG H1i H2i.
  rewrite <- (Z2Nat.id n1), <- (Z2Nat.id n2) by (unfold nibble in *; lia).
  pose proof (empty_hole a j b (Z.to_nat n1) Hn Hf Ht) as Hh.
  destruct (hole_fill _ _ _ _ _ _ _ _ _ _ _ Hh ltac:(rewrite length_replicate; unfold nibble in *; lia) Hr1)
    as (a1 & -> & M1 & Hr); [set_solver |].
  assert (valid a (inl j)) as Vj by (simpl; by eapply lookup_lt_Some).
  destruct (proj2 M1 _ Vj) as (En & Eh & _); [set_solver |]. rewrite <- Eh in Hf.
  destruct (hole_open _ _ _ _ _ (Z.to_nat n2) Hr Hf) as (b' & ptrs & R & G & Hn' & Ht' & Hh' & Hopt & EF & HR).
  assert (b' = b) as -> by congruence.
  destruct (hole_fill _ _ _ _ _ _ _ _ p2 c2 G2 Hh') as (a2 & -> & M2 & Hrep).
  { rewrite length_insert, length_replicate. unfold nibble in *. lia. }
  { eapply rep_modifies; [done | set_solver | done]. }
  { assert (R ⊆ G1 ∪ {[inl j; inr b]}) as HRs by (rewrite EF; clear; set_solver).
    clear - HRs HG H2i. set_solver. }
  exists a2. assert (modifies {[inr b]} a a2) as M by (eapply modifies_trans; [done | done | set_solver]).
  split_and!; [done | done |].
  assert (G ≡ ∅) as HG0.
  { unfold rep_opt in Hopt. rewrite child_insert, decide_False, child_replicate in Hopt
      by (rewrite ?length_replicate; unfold nibble in *; lia). by destruct (child ptrs _). }
  assert (R ≡ G1 ∪ {[inl j; inr b]}) as HRE by (rewrite EF, HG0; clear; set_solver).
  assert (G1 ∪ G2 ∪ {[inl i; inl j; inr b]} ≡ {[inl i]} ∪ (G2 ∪ R)) as ->
    by (rewrite HRE; clear; set_solver).
  apply (ext_above_rep _ _ j);
    [eapply (ext_above_frame a _ _ _ _ {[inr b]}); [done | done | done | clear; set_solver]
    | | rewrite HRE; clear - H1i H2i; set_solver].
  unfold two_children. by rewrite !Nat2Z.id.
Qed.

(** The new branch and the leaf of the new key. *)
Lemma split_start a i prefix s1 v bs : arrays_ok a -> valid a (inl i) ->
  hashed_nodes a !! i = Some false -> value_of a v = Some bs ->
  exists a1 b j a2 l, split_node a i prefix = Some (a1, b) /\ push_leaf a1 s1 v = (a2, Local l)
    /\ modifies {[inl i]} a a2
    /\ branch_hole a2 j b (replicate 16 None) (replicate 16 None) 0 {[inl j; inr b]}
    /\ ext_above a2 i j prefix /\ rep a2 (Local l) (TLeaf s1 bs) {[inl l]}
    /\ {[inl l]} ## ({[inl i; inl j; inr b]} : propset cell)
    /\ {[inl l]} ⊆ unused a /\ {[inl i; inl j; inr b]} ⊆ ({[inl i]} ∪ unused a : propset cell).
Proof.
  intros Ha Hv Hf Hbs. destruct (split_node_spec a i prefix 0 Ha Hv Hf) as (a1 & b & j & E1 & M1 & Hh & Hx & Hj & Hb).
  destruct (push_leaf_rep a1 s1 v bs) as (a2 & E2 & M2 & Hr).
  { by eapply modifies_arrays. }
  { by eapply value_of_grows; [apply M1 |]. }
  pose proof (gr_nodes _ _ (proj1 M1)) as Hgr.
  assert (valid a1 (inl i)) as Hv1 by (by eapply valid_grows; [apply M1 |]).
  assert (valid a1 (inl j)) as Vj by (eapply hole_valid; [done | clear; set_solver]).
  exists a1, b, j, a2, (length (nodes a1)). split_and!; [done | done | by eapply modifies_add | | | done | | |].
  - eapply hole_frame; [done | done | set_solver].
  - by eapply ext_above_frame; [done | done | done | set_solver].
  - simpl in *. intros x Hx1 Hx2. apply elem_of_singleton in Hx1 as ->. set_unfold.
    destruct Hx2 as [[E | E] | E]; simplify_eq; lia.
  - intros x ->%elem_of_singleton. rewrite elem_of_unused. simpl. lia.
  - intros x. rewrite !elem_of_union, !elem_of_singleton, elem_of_unused.
    intros [[-> | ->] | ->]; [by left | | by right]. destruct Hj as [-> | Hj]; [by left | by right].
Qed.

Lemma split_extension_spec a i path kr next v bs k T G : arrays_ok a -> valid a (inl i) ->
  hashed_nodes a !! i = Some false -> value_of a v = Some bs -> slice (keys a) kr = Some k ->
  rep a next T G -> inl i ∉ G -> Forall nibble path -> Forall nibble k ->
  (length k <= length path)%nat -> ~ k `prefix_of` path ->
  exists a' prefix n1 s1 n2 s2 F, split_extension a i path kr next v = Some a' /\ modifies {[inl i]} a a'
    /\ path = prefix ++ n1 :: s1 /\ k = prefix ++ n2 :: s2 /\ n1 <> n2
    /\ rep a' (Local i) (mk_ext prefix (two_children n1 n2 (TLeaf s1 bs) (mk_ext s2 T))) F
    /\ F ⊆ {[inl i]} ∪ G ∪ unused a.
Proof.
  intros Ha Hv Hf Hbs Hk Hr HiG Hp Hkn Hlen Hnp. unfold split_extension.
  destruct (extract_spec _ _ _ _ Hk Hlen Hnp) as (prefix & n1 & s1 & n2 & s2 & r2 & -> & Ep & Ek & Hne & Hs2).
  destruct (split_start a i prefix s1 v bs Ha Hv Hf Hbs)
    as (a1 & b & j & a2 & l & -> & -> & M & Hh & Hx & Hl & Hd & Hlu & Hu).
  assert (rep a2 next T G) as Hr2 by (eapply rep_modifies; [done | set_solver | done]).
  assert (slice (keys a2) r2 = Some s2) as Hs by (eapply slice_prefix; [done | apply M]).
  assert (forall x, x ∈ G -> valid a x) as HGv by by eapply rep_valid.
  assert (nibble n1 /\ nibble n2) as [N1 N2].
  { subst. by apply Forall_app in Hp as [_ [? _]%Forall_cons]; apply Forall_app in Hkn as [_ [? _]%Forall_cons]. }
  rewrite (range_is_empty_spec _ _ _ Hs).
  assert (exists a3 q G2, (if bool_decide (s2 = []) then (a2, next) else push_node a2 (Extension r2 next)) = (a3, q)
    /\ modifies ∅ a2 a3 /\ rep a3 q (mk_ext s2 T) G2 /\ G ⊆ G2 /\ G2 ⊆ G ∪ unused a2) as (a3 & q & G2 & -> & M3 & Hq & HG2 & HG2').
  { case_bool_decide as Es.
    - subst s2. exists a2, next, G. split_and!; [done | apply modifies_refl | done | done | set_solver].
    - destruct (push_ext_rep a2 r2 s2 next T G) as [M3 Hq]; [by eapply modifies_arrays | done | done |].
      eexists _, _, _. split; [done |]. split_and!; [done | by destruct s2 | set_solver |].
      intros x. rewrite !elem_of_union, elem_of_singleton, elem_of_unused. intros [-> | ?]; [right; simpl; lia | by left]. }
  assert (forall x, x ∈ G2 -> x ∈ G \/ ~ valid a2 x) as HG3 by (intros x Hx'%HG2'; clear - Hx'; set_solver).
  assert (valid a2 (inl i)) as Vi by (eapply valid_grows; [apply M | done]).
  assert (forall x, x ∈ ({[inl i; inl j; inr b]} : propset cell) -> valid a2 x) as Hval.
  { intros x Hx'. rewrite !elem_of_union, !elem_of_singleton in Hx'.
    destruct Hx' as [[-> | ->] | ->]; [done | ..]; (eapply hole_valid; [exact Hh | clear; set_solver]). }
  assert (G2 ## {[inl i; inl j; inr b]}) as Hd2.
  { intros x HxG Hx'. destruct (HG3 x HxG) as [HG | HG]; [| by apply HG, Hval].
    apply Hu, elem_of_union in Hx' as [->%elem_of_singleton | Hx']; [done |].
    by eapply valid_unused; [apply HGv |]. }
  destruct (split_fill a3 i j b 0 prefix n1 n2 (Local l) q (TLeaf s1 bs) (mk_ext s2 T) {[inl l]} G2)
    as (a' & E & M' & Hrep); try done.
  { eapply hole_frame; [done | done | clear; set_solver]. }
  { eapply ext_above_frame; [done | done | done | clear; set_solver]. }
  { by eapply valid_grows; [apply M3 |]. }
  { eapply rep_modifies; [done | clear; set_solver | done]. }
  { intros x ->%elem_of_singleton [HG | HG]%HG3; [| by apply HG, (rep_valid _ _ _ _ _ Hl), elem_of_singleton].
    eapply (valid_unused a (inl l)); [by apply HGv | by apply Hlu, elem_of_singleton]. }
  exists a', prefix, n1, s1, n2, s2. eexists. split; [exact E |]. split_and!; try done.
  - eapply modifies_trans; [by eapply modifies_add | done |].
    intros x ->%elem_of_singleton. apply Hu. clear. set_solver.
  - intros x. rewrite !elem_of_union. intros [[Hx' | Hx'] | Hx'].
    + right. by apply Hlu.
    + apply HG3 in Hx' as [? | Hx']; [by left; right | right]. rewrite elem_of_unused.
      intros Hv'. apply Hx'. by eapply valid_grows; [apply M |].
    + rewrite <- elem_of_union in Hx'. rewrite <- elem_of_union in Hx'. apply Hu in Hx'. clear - Hx'. set_solver.
Qed.

Lemma split_leaf_spec a i path kr vr v bs k w : arrays_ok a -> valid a (inl i) ->
  hashed_nodes a !! i = Some false -> value_of a v = Some bs -> slice (keys a) kr = Some k ->
  slice (values a) vr = Some w -> Forall nibble path -> Forall nibble k ->
  (length k <= length path)%nat -> ~ k `prefix_of` path ->
  exists a' prefix n1 s1 n2 s2 F, split_leaf a i path kr vr v = Some a' /\ modifies {[inl i]} a a'
    /\ path = prefix ++ n1 :: s1 /\ k = prefix ++ n2 :: s2 /\ n1 <> n2
    /\ rep a' (Local i) (mk_ext prefix (two_children n1 n2 (TLeaf s1 bs) (TLeaf s2 w))) F
    /\ F ⊆ {[inl i]} ∪ unused a.
Proof.
  intros Ha Hv Hf Hbs Hk Hw Hp Hkn Hlen Hnp. unfold split_leaf.
  destruct (extract_spec _ _ _ _ Hk Hlen Hnp) as (prefix & n1 & s1 & n2 & s2 & r2 & -> & Ep & Ek & Hne & Hs2).
  destruct (split_start a i prefix s1 v bs Ha Hv Hf Hbs)
    as (a1 & b & j & a2 & l & -> & -> & M & Hh & Hx & Hl & Hd & Hlu & Hu).
  assert (nibble n1 /\ nibble n2) as [N1 N2].
  { subst. by apply Forall_app in Hp as [_ [? _]%Forall_cons]; apply Forall_app in Hkn as [_ [? _]%Forall_cons]. }
  destruct (push_leaf_range a2 r2 vr s2 w) as [M3 Hq];
    [by eapply modifies_arrays | by eapply slice_prefix; [| apply M].. |].
  change (push_node a2 (Leaf r2 vr)) with ((push_node a2 (Leaf r2 vr)).1, Local (length (nodes a2))).
  set (a3 := (push_node a2 (Leaf r2 vr)).1) in *.
  assert (valid a2 (inl i)) as Vi by (eapply valid_grows; [apply M | done]).
  assert (valid a2 (inl l)) as Vl by (eapply rep_valid; [done | clear; set_solver]).
  assert (valid a2 (inl j)) as Vj by (eapply hole_valid; [done | clear; set_solver]).
  destruct (split_fill a3 i j b 0 prefix n1 n2 (Local l) (Local (length (nodes a2))) (TLeaf s1 bs) (TLeaf s2 w)
    {[inl l]} {[inl (length (nodes a2))]}) as (a' & E & M' & Hrep); try done.
  { eapply hole_frame; [done | done | clear; set_solver]. }
  { eapply ext_above_frame; [done | done | done | clear; set_solver]. }
  { by eapply valid_grows; [apply M3 |]. }
  { eapply rep_modifies; [done | clear; set_solver | done]. }
  { simpl in *. intros x ->%elem_of_singleton [= E]%elem_of_singleton. lia. }
  { simpl in *. intros x ->%elem_of_singleton. set_unfold. intros [[E | E] | E]; simplify_eq; lia. }
  exists a', prefix, n1, s1, n2, s2. eexists. split; [exact E |]. split_and!; try done.
  - eapply modifies_trans; [by eapply modifies_add | done |].
    intros x ->%elem_of_singleton. apply Hu. clear. set_solver.
  - pose proof (gr_nodes _ _ (proj1 M)) as Hgr. intros x. rewrite !elem_of_union.
    intros [[Hx' | ->%elem_of_singleton] | Hx'].
    + right. by apply Hlu.
    + right. rewrite elem_of_unused. simpl. lia.
    + rewrite <- elem_of_union in Hx'. rewrite <- elem_of_union in Hx'. apply Hu in Hx'. clear - Hx'. set_solver.
Qed.

End rep.
