(* ===== verification/TriePaths.v ===== *)
(** * Paths in the trie: subtrees, the nodes along a key, and what is loaded *)

From S2P Require Import Prelude SparseTrie TrieModel TrieSplit.

(** The subtree at a path. *)
Fixpoint tsub (T : tree) (path : nibbles) : option tree :=
  match path, T with
  | [], _ => Some T
  | _, TExt k T => if starts_with path k then tsub T (drop (length k) path) else None
  | n :: path, TBranch cs =>
      (fix nth_sub cs i :=
         match cs, i with
         | Some c :: _, O => tsub c path
         | _ :: cs, S i => nth_sub cs i
         | _, _ => None
         end) cs (Z.to_nat n)
  | _, _ => None
  end.

Lemma tsub_branch cs n path : tsub (TBranch cs) (n :: path) = child cs (Z.to_nat n) ≫= fun c => tsub c path.
Proof.
  unfold child. simpl. generalize (Z.to_nat n) as i. induction cs as [| c cs IH]; intros i; [done |].
  destruct i as [| i]; simpl; [by destruct c |]. destruct c; apply IH.
Qed.

Lemma tsub_nil T : tsub T [] = Some T.
Proof. by destruct T. Qed.

Lemma not_canon_null m : canon m TNull -> False.
Proof. by inversion 1. Qed.

Lemma tsub_canon n T path S : canon n T -> tsub T path = Some S -> exists m, canon m S.
Proof.
  intros Hc. revert path. induction Hc as [n k v Hk Hl | n m k cs Hk Hne Hc IH Hn |
    n cs i j Hlen Hij Hi Hj Hcs IH]; intros [| x path] Hs; try done.
  - injection Hs as <-. exists n. by constructor.
  - injection Hs as <-. exists n. by eapply canon_ext.
  - simpl in Hs. destruct (starts_with _ _); [| done]. by eapply IH.
  - injection Hs as <-. exists (Datatypes.S n). by eapply canon_branch.
  - rewrite tsub_branch in Hs. destruct (child cs (Z.to_nat x)) as [c |] eqn:Ec; [| done]. by eapply IH.
Qed.

(** ** Nodes along a key *)
Definition below (p : nibbles) (e : nibbles * tree) : nibbles * tree := (p ++ e.1, e.2).

(** The nodes of a trie that a lookup of the key visits, with their paths. *)
Fixpoint tnodes (T : tree) (key : nibbles) : list (nibbles * tree) :=
  ([], T) ::
  match T with
  | TNull | TLeaf _ _ => []
  | TExt k T => if starts_with key k then below k <$> tnodes T (drop (length k) key) else []
  | TBranch cs =>
      match key with
      | [] => []
      | n :: key =>
          (fix nth_nodes cs i :=
             match cs, i with
             | Some c :: _, O => below [n] <$> tnodes c key
             | _ :: cs, S i => nth_nodes cs i
             | _, _ => []
             end) cs (Z.to_nat n)
      end
  end.

Lemma tnodes_branch cs n key : tnodes (TBranch cs) (n :: key) =
  ([], TBranch cs) :: match child cs (Z.to_nat n) with Some c => below [n] <$> tnodes c key | None => [] end.
Proof.
  unfold child. cbn [tnodes]. f_equal. generalize (Z.to_nat n) as i.
  induction cs as [| c cs IH]; intros i; [done |].
  destruct i as [| i]; simpl; [by destruct c |]. destruct c; apply IH.
Qed.

Lemma tnodes_ext_app k c key : tnodes (TExt k c) (k ++ key) = ([], TExt k c) :: (below k <$> tnodes c key).
Proof. cbn [tnodes]. by rewrite starts_with_app, drop_app_length. Qed.

Lemma tnodes_head T key : exists l, tnodes T key = ([], T) :: l.
Proof. destruct T; simpl; eauto. Qed.

(** The node at a path is in the trie. *)
Inductive local_to (ns : list DiffTrieNode) (ts : list (list (option NodePtr)))
  : NodePtr -> tree -> nibbles -> Prop :=
| local_here i T : local_to ns ts (Local i) T []
| local_ext i kr p k c path : ns !! i = Some (Extension kr p) -> local_to ns ts p c path ->
    local_to ns ts (Local i) (TExt k c) (k ++ path)
| local_branch i b ptrs p cs c x path : ns !! i = Some (Branch b) -> ts !! b = Some ptrs ->
    child ptrs (Z.to_nat x) = Some p -> child cs (Z.to_nat x) = Some c -> local_to ns ts p c path ->
    local_to ns ts (Local i) (TBranch cs) (x :: path).

Definition local_at (a : Trie) := local_to (nodes a) (branch_node_children a).

(** The key from a node to a child of it. *)
Definition one_step (T : tree) (q step : nibbles) : Prop :=
  match tsub T q with
  | Some (TExt k _) => step = k
  | Some (TBranch _) => exists x, step = [x]
  | _ => False
  end.

Lemma tsub_ext_app k c path : k <> [] -> tsub (TExt k c) (k ++ path) = tsub c path.
Proof.
  intros Hk. destruct (k ++ path) as [| y l] eqn:E; [by destruct k |].
  simpl. by rewrite <- E, starts_with_app, drop_app_length.
Qed.

Lemma one_step_branch cs x c q step : child cs (Z.to_nat x) = Some c ->
  one_step (TBranch cs) (x :: q) step = one_step c q step.
Proof. intros Hc. unfold one_step. by rewrite tsub_branch, Hc. Qed.

Lemma one_step_ext k c q step : k <> [] -> one_step (TExt k c) (k ++ q) step = one_step c q step.
Proof. intros Hk. unfold one_step. by rewrite tsub_ext_app. Qed.

(** Every node that a lookup visits is in the trie. *)
Definition loaded (a : Trie) (p : NodePtr) (T : tree) (key : nibbles) : Prop :=
  Forall (fun e => local_at a p T e.1) (tnodes T key).

Lemma local_to_local ns ts p T path : local_to ns ts p T path -> exists i, p = Local i.
Proof. destruct 1; eauto. Qed.

Lemma local_ext_inv a i kr p k c path : nodes a !! i = Some (Extension kr p) -> k <> [] ->
  local_at a (Local i) (TExt k c) (k ++ path) -> local_at a p c path.
Proof.
  intros Hn Hk Hl. inversion Hl as [i1 T1 E1 E2 E3 | i1 kr1 p1 k1 c1 path1 Hn1 Hl1 E1 E2 E3 |]; subst.
  - by destruct k.
  - apply (inj (app k)) in E3 as ->. rewrite Hn in Hn1. by injection Hn1 as <- <-.
Qed.

Lemma local_branch_inv a i b ptrs p cs c x path : nodes a !! i = Some (Branch b) ->
  branch_node_children a !! b = Some ptrs -> child ptrs (Z.to_nat x) = Some p ->
  child cs (Z.to_nat x) = Some c -> local_at a (Local i) (TBranch cs) (x :: path) -> local_at a p c path.
Proof. intros Hn Ht Hp Hc Hl. inversion Hl; subst. by simplify_eq. Qed.

Lemma loaded_ext a i kr p k c key : nodes a !! i = Some (Extension kr p) -> k <> [] ->
  loaded a (Local i) (TExt k c) (k ++ key) -> loaded a p c key.
Proof.
  intros Hn Hk. unfold loaded. rewrite tnodes_ext_app. intros [_ Hl]%Forall_cons. rewrite Forall_fmap in Hl.
  eapply Forall_impl; [done |]. intros e. by apply local_ext_inv with kr.
Qed.

Lemma loaded_branch a i b ptrs p cs c x key : nodes a !! i = Some (Branch b) ->
  branch_node_children a !! b = Some ptrs -> child ptrs (Z.to_nat x) = Some p ->
  child cs (Z.to_nat x) = Some c -> loaded a (Local i) (TBranch cs) (x :: key) -> loaded a p c key.
Proof.
  intros Hn Ht Hp Hc. unfold loaded. rewrite tnodes_branch, Hc. intros [_ Hl]%Forall_cons. rewrite Forall_fmap in Hl.
  eapply Forall_impl; [done |]. intros e. by apply local_branch_inv with b ptrs.
Qed.

Lemma loaded_remote a r T key : ~ loaded a (Remote r) T key.
Proof.
  unfold loaded. destruct (tnodes_head T key) as [l ->]. intros [Hl _]%Forall_cons.
  by apply local_to_local in Hl as [i ?].
Qed.

(** ** Chains of nodes

    Each node is a child of the one before, the first a child of that at [q]. *)
Fixpoint chain (T : tree) (q : nibbles) (l : list (nibbles * tree)) : Prop :=
  match l with
  | [] => True
  | (path, T') :: l => (exists step, path = q ++ step /\ one_step T q step)
      /\ Forall nibble path /\ tsub T path = Some T' /\ chain T path l
  end.

Definition last_path (q : nibbles) (l : list (nibbles * tree)) : nibbles :=
  match last l with Some e => e.1 | None => q end.

Lemma last_path_cons q e l : last_path q (e :: l) = last_path e.1 l.
Proof. unfold last_path. rewrite last_cons. by destruct (last l). Qed.

(** A chain below a child, seen from the node. *)
Lemma chain_below T c k q l : Forall nibble k ->
  (forall q step, one_step T (k ++ q) step = one_step c q step) ->
  (forall path, tsub T (k ++ path) = tsub c path) ->
  chain c q l -> chain T (k ++ q) (below k <$> l).
Proof.
  intros Hk Hstep Hsub. revert q. induction l as [| [path T'] l IH]; intros q; [done |]. csimpl.
  intros ((step & -> & Hs) & Hn & HT & Hch). split_and!.
  - exists step. rewrite Hstep, app_assoc. done.
  - by apply Forall_app.
  - by rewrite Hsub.
  - by apply IH.
Qed.

Lemma tnodes_chain n T key : canon n T -> key_of n key ->
  exists l, tnodes T key = ([], T) :: l /\ chain T [] l.
Proof.
  intros Hc. revert key. induction Hc as [n k v Hk Hl | n m k cs Hk Hne Hc IH Hn |
    n cs i j Hlen Hij Hi Hj Hcs IH]; intros key Hkey; [by exists [] | |].
  - destruct (starts_with key k) eqn:Es; [| exists []; simpl; by rewrite Es].
    apply starts_with_spec in Es as [rest ->]. rewrite tnodes_ext_app. rewrite Hn, key_of_app in Hkey by done.
    destruct (IH rest (proj2 Hkey)) as (l & -> & Hch). eexists. split; [done |].
    rewrite fmap_cons. unfold below at 1. cbn [chain fst snd]. rewrite app_nil_r.
    split_and!; [by exists k | done | | ].
    + rewrite <- (app_nil_r k) at 2. rewrite tsub_ext_app by done. apply tsub_nil.
    + rewrite <- (app_nil_r k) at 2. apply (chain_below _ (TBranch cs)); [done | | | done].
      * intros q step. by apply one_step_ext.
      * intros path. by apply tsub_ext_app.
  - destruct key as [| x key]; [by destruct Hkey |]. apply key_of_cons in Hkey as [Hx Hkey].
    rewrite tnodes_branch. destruct (child cs (Z.to_nat x)) as [c |] eqn:Ec; [| by exists []].
    destruct (IH _ _ Ec key Hkey) as (l & -> & Hch). eexists. split; [done |].
    rewrite fmap_cons. unfold below at 1. cbn [chain fst snd]. rewrite app_nil_r.
    split_and!; [exists [x]; split; [done | by exists x] | by constructor | rewrite tsub_branch, Ec; apply tsub_nil |].
    apply (chain_below _ c [x] []); [by constructor | | | done].
    + intros q step. by apply one_step_branch.
    + intros path. simpl app. by rewrite tsub_branch, Ec.
Qed.

(** The nodes above a loaded node are loaded. *)
Lemma local_to_prefix ns ts p T q s Q : local_to ns ts p T (q ++ s) -> tsub T q = Some Q -> local_to ns ts p T q.
Proof.
  intros Hl. remember (q ++ s) as path eqn:E. revert q s E.
  induction Hl as [i T | i kr p k c path Hn Hl IH | i b ptrs p cs c x path Hn Ht Hp Hc Hl IH]; intros q s E Hs.
  - symmetry in E. apply app_eq_nil in E as [-> ->]. apply local_here.
  - destruct q as [| y q]; [apply local_here |]. simpl in Hs.
    destruct (starts_with (y :: q) k) eqn:Es; [| done]. apply starts_with_spec in Es as [q' Eq].
    rewrite Eq in *. rewrite drop_app_length in Hs. rewrite <- app_assoc in E. apply (inj (app k)) in E.
    eapply local_ext; [done |]. by eapply IH.
  - destruct q as [| y q]; [apply local_here |]. injection E as <- E. rewrite tsub_branch, Hc in Hs.
    eapply local_branch; [done | done | done | done |]. by eapply IH.
Qed.

Lemma chain_local a p T q l : chain T q l -> local_at a p T (last_path q l) ->
  is_Some (tsub T q) -> Forall (fun e => local_at a p T e.1) l /\ exists s, last_path q l = q ++ s.
Proof.
  revert q. induction l as [| [path T'] l IH]; intros q Hch Hl Hq.
  - split; [constructor |]. exists []. by rewrite app_nil_r.
  - destruct Hch as ((step & -> & _) & _ & Hs & Hch). rewrite last_path_cons in *. simpl in *.
    destruct (IH _ Hch Hl) as [Hall [s Es]]; [by eexists |]. split.
    + constructor; [| done]. simpl. rewrite Es in Hl. by eapply local_to_prefix.
    + exists (step ++ s). by rewrite Es, app_assoc.
Qed.

(** The nodes along a key, below the root. *)
Lemma tnodes_root n T key : canon_root n T -> key_of n key ->
  exists l, tnodes T key = ([], T) :: l /\ chain T [] l.
Proof. intros [-> | Hc] Hk; [by exists [] | by eapply tnodes_chain]. Qed.

Lemma tnodes_subtrees n T key : canon_root n T -> key_of n key ->
  Forall (fun e : nibbles * tree => (exists m, canon_root m e.2) /\ tsub T e.1 = Some e.2) (tnodes T key).
Proof.
  intros Hc Hk. destruct (tnodes_root n T key Hc Hk) as (l & -> & Hch).
  constructor; [split; [by exists n | apply tsub_nil] |].
  assert (forall path T', path <> [] -> tsub T path = Some T' -> exists m, canon_root m T') as Hsub.
  { intros path T' Hne Hs. destruct Hc as [-> | Hc]; [by destruct path |].
    destruct (tsub_canon _ _ _ _ Hc Hs) as [m Hm]. exists m. by right. }
  clear Hk. revert Hch. generalize (@nil Z) as q. induction l as [| [path T'] l IH]; intros q Hch; [constructor |].
  destruct Hch as ((step & Ep & Hstep) & _ & Hs & Hch). constructor; [| by eapply IH]. split; [| done]. simpl.
  destruct path as [| x path]; [| by apply (Hsub (x :: path))]. rewrite tsub_nil in Hs. injection Hs as <-. by exists n.
Qed.
