(* ===== verification/TrieInsertSpec.v ===== *)
(** * Insertion into the sparse trie

    Inserting a key into the arrays that represent a canonical trie yields
    arrays that represent the canonical trie with the key set, or reports a node
    that is not in the trie and changes nothing but marks. *)

From S2P Require Import Prelude SparseTrie TrieModel TrieRep TrieSplit TriePaths.

(** ** Updates of the content *)
Definition updates (n : nat) (key : nibbles) (ov : option bytes) (T T' : tree) : Prop :=
  forall k, key_of n k -> tget T' k = if decide (k = key) then ov else tget T k.

Lemma updates_ext m p key ov T T' : updates m key ov T T' ->
  updates (length p + m) (p ++ key) ov (TExt p T) (TExt p T').
Proof.
  intros Hu k Hk. simpl. destruct (starts_with k p) eqn:E.
  - apply starts_with_spec in E as [k' ->]. rewrite drop_app_length.
    apply key_of_app in Hk as [_ Hk]; [| done]. rewrite (Hu k' Hk). apply decide_ext. split; [by intros -> |].
    by intros ?%(inj (app p)).
  - rewrite decide_False; [done |]. intros ->. by rewrite starts_with_app in E.
Qed.

Lemma updates_branch m x key ov cs oc : nibble x -> length cs = 16%nat ->
  (forall k, key_of m k -> (oc ≫= fun c => tget c k) =
     if decide (k = key) then ov else child cs (Z.to_nat x) ≫= fun c => tget c k) ->
  updates (S m) (x :: key) ov (TBranch cs) (TBranch (<[Z.to_nat x := oc]> cs)).
Proof.
  intros Hx Hl Hu [| y k] Hk; [by destruct Hk |]. apply key_of_cons in Hk as [Hy Hk].
  rewrite !tget_branch, child_insert by (unfold nibble in *; lia). unfold nibble in *.
  destruct (decide (y = x)) as [-> | Hne].
  - rewrite decide_True by done. rewrite (Hu k Hk). apply decide_ext. split; [by intros -> | by intros [= ->]].
  - rewrite !decide_False; [done | | lia]. by intros [= -> _].
Qed.

Lemma updates_none_leaf m key bs : forall k, key_of m k ->
  tget (TLeaf key bs) k = if decide (k = key) then Some bs else None.
Proof. intros k _. simpl. apply decide_ext. split; congruence. Qed.

Lemma canon_branch_set m x cs c : canon (S m) (TBranch cs) -> (x < 16)%nat -> canon m c ->
  canon (S m) (TBranch (<[x := Some c]> cs)).
Proof.
  intros HT Hx Hc. inversion HT as [| | n' cs' i j Hl Hij Hi Hj Hcs]; subst.
  apply (canon_branch m _ i j); [by rewrite length_insert | done | | |].
  1, 2: rewrite child_insert by lia; case_decide; [by eexists | done].
  intros i' c'. rewrite child_insert by lia. case_decide; [by intros [= <-] | apply Hcs].
Qed.

(** The parts of a path at a branch. *)
Lemma key_of_drop m pw key : key_of (S m) (drop pw key) ->
  exists x, key !! pw = Some x /\ nibble x /\ drop pw key = x :: drop (S pw) key /\ key_of m (drop (S pw) key).
Proof.
  intros Hk. destruct (drop pw key) as [| x k] eqn:E; [by destruct Hk |].
  assert (key !! pw = Some x) as Hx by (rewrite <- (Nat.add_0_r pw), <- lookup_drop, E; done).
  rewrite (drop_S _ _ _ Hx) in E. injection E as E. rewrite E.
  apply key_of_cons in Hk as [? ?]. eauto.
Qed.

Section insertion.
Context `{TrieCodec} (remotes : list bytes).
Abbreviation rep := (rep remotes).

(** A leaf written over a node. *)
Lemma set_leaf_spec a i kr vr k w : valid a (inl i) -> hashed_nodes a !! i = Some false ->
  slice (keys a) kr = Some k -> slice (values a) vr = Some w ->
  exists a', set_node a i (Leaf kr vr) = Some a' /\ modifies {[inl i]} a a'
    /\ rep a' (Local i) (TLeaf k w) {[inl i]}.
Proof.
  intros Hv Hf Hk Hw. destruct (set_node_modifies a i (Leaf kr vr) Hv) as (a' & E & M & Hn & Eh & Ek & Ev).
  exists a'. split_and!; [done | done |]. eapply rep_leaf; [done | by rewrite Ek | by rewrite Ev | done |].
  apply hash_ok_false. by rewrite Eh.
Qed.

(** The old value that is reported is a range of the values. *)
Definition old_value_ok (a : Trie) (old : option Range) (o : option bytes) : Prop :=
  match old with Some r => o = slice (values a) r /\ is_Some o | None => o = None end.

(** What an insertion below node [i] leaves there. *)
Definition insert_post (a a' : Trie) (i : nat) (T : tree) (F : propset cell) (n : nat) (path : nibbles)
    (bs : bytes) (key : nibbles) (r : result (option Range) NodeNotFound) : Prop :=
  exists T' F', rep a' (Local i) T' F' /\ F' ⊆ F ∪ unused a
  /\ match r with
     | Ok old => canon n T' /\ (is_branch T -> is_branch T') /\ updates n path (Some bs) T T'
                 /\ old_value_ok a old (tget T path)
     | Err e => T' = T /\ e = node_not_found key /\ ~ loaded a (Local i) T path
     end.

(** A branch whose child was changed below. *)
Lemma hole_update a a' j b ptrs cs n R G i T' F' : branch_hole remotes a j b ptrs cs n R -> modifies G a a' ->
  G ## R -> child ptrs n = Some (Local i) -> rep a' (Local i) T' F' -> F' ⊆ G ∪ unused a ->
  (n < length cs)%nat ->
  rep a' (Local j) (TBranch (<[n := Some T']> cs)) (F' ∪ R) /\ F' ∪ R ⊆ (G ∪ R) ∪ unused a.
Proof.
  intros Hh Hm HG Hp Hr HF Hn. split; [| clear - HF; set_solver].
  eapply hole_close; [by eapply hole_frame | by rewrite Hp | | done].
  intros x [HxG | Hxu]%HF%elem_of_union HxR; [by eapply HG |].
  eapply valid_unused; [by eapply hole_valid | done].
Qed.

(** The node visited is marked, which changes nothing else. *)
Lemma unhash_post a a' i T F n path bs key r : arrays_ok a -> rep a (Local i) T F ->
  modifies F (unhash a i) a' -> insert_post (unhash a i) a' i T F n path bs key r ->
  modifies F a a' /\ insert_post a a' i T F n path bs key r.
Proof.
  intros Ha Hr M P. split; [| exact P]. pose proof (rep_local _ _ _ _ _ Hr) as Hi.
  eapply modifies_trans; [| exact M | clear; set_solver].
  eapply modifies_weaken; [apply unhash_modifies |]. clear - Hi. set_solver.
Qed.

Abbreviation insert_ok fuel := (forall a i pw key v T F n bs,
  arrays_ok a -> rep a (Local i) T F -> canon_root n T -> key_of n (drop pw key) -> (n < fuel)%nat ->
  value_of a v = Some bs ->
  exists a' r, insert_loop fuel a i pw key v = Some (a', r) /\ modifies F a a'
    /\ insert_post a a' i T F n (drop pw key) bs key r).

(** One round of the loop, at a node that is not hashed. *)
Definition insert_at (fuel : nat) (t : Trie) (current_node path_walked : nat) (key : nibbles)
    (v : InsertValue) (node : DiffTrieNode) : option (Trie * result (option Range) NodeNotFound) :=
  match node with
  | Branch children =>
      let! n := key !! path_walked in
      let! child := get_child t children n in
      match child with
      | Some (Local i) => insert_loop fuel t i (S path_walked) key v
      | Some (Remote _) => Some (t, Err (node_not_found key))
      | None =>
          let '(t, leaf_ptr) := push_leaf t (drop (S path_walked) key) v in
          let! t := set_child t children n (Some leaf_ptr) in
          Some (t, Ok None)
      end
  | Extension ext_key next_node =>
      let! k := slice (keys t) ext_key in
      if starts_with (drop path_walked key) k then
        match next_node with
        | Local i => insert_loop fuel t i (path_walked + range_len ext_key) key v
        | Remote _ => Some (t, Err (node_not_found key))
        end
      else
        let! t := split_extension t current_node (drop path_walked key) ext_key next_node v in
        Some (t, Ok None)
  | Leaf leaf_key value =>
      let! k := slice (keys t) leaf_key in
      if decide (k = drop path_walked key) then
        let '(t, new_value) := insert_value t v in
        let! t := set_node t current_node (Leaf leaf_key new_value) in
        Some (t, Ok (Some value))
      else
        let! t := split_leaf t current_node (drop path_walked key) leaf_key value v in
        Some (t, Ok None)
  | Null =>
      let '(t, k) := insert_key t (drop path_walked key) in
      let '(t, r) := insert_value t v in
      let! t := set_node t current_node (Leaf k r) in
      Some (t, Ok None)
  end.

Lemma insert_loop_S fuel a i pw key v node T F : arrays_ok a -> rep a (Local i) T F ->
  nodes a !! i = Some node ->
  insert_loop (S fuel) a i pw key v = insert_at fuel (unhash a i) i pw key v node.
Proof. intros Ha Hr Hn. simpl. by rewrite Hn, (set_hashed_false _ _ _ _ _ Ha Hr). Qed.

Section round.
Context (a : Trie) (i pw : nat) (key : nibbles) (v : InsertValue) (F : propset cell) (n : nat) (bs : bytes).
Hypothesis Ha : arrays_ok a.
Hypothesis Hf : hashed_nodes a !! i = Some false.
Hypothesis Hkey : key_of n (drop pw key).
Hypothesis Hbs : value_of a v = Some bs.

Lemma insert_null fuel : rep a (Local i) TNull F ->
  exists a' r, insert_at fuel a i pw key v Null = Some (a', r) /\ modifies F a a'
    /\ insert_post a a' i TNull F n (drop pw key) bs key r.
Proof.
  intros Hr. pose proof (rep_local _ _ _ _ _ Hr) as Hi. pose proof (rep_valid _ _ _ _ _ Hr _ Hi) as Hv.
  unfold insert_at.
  pose proof (insert_key_modifies a (drop pw key)) as M1. pose proof (insert_key_slice a (drop pw key)) as S1.
  destruct (insert_key a (drop pw key)) as [a1 kr] eqn:E1. simpl in M1, S1.
  pose proof (insert_value_modifies a1 v) as M2.
  pose proof (insert_value_slice a1 v bs (value_of_grows _ _ _ _ (proj1 M1) Hbs)) as S2.
  destruct (insert_value a1 v) as [a2 vr] eqn:E2. simpl in M2, S2.
  pose proof (modifies_add _ _ _ _ M1 M2) as M.
  destruct (set_leaf_spec a2 i kr vr (drop pw key) bs) as (a' & -> & M3 & Hr'); [..| done |].
  - by eapply valid_grows; [apply M |].
  - destruct (proj2 M _ Hv) as (_ & -> & _); [clear; set_solver | done].
  - eapply slice_prefix; [done | apply M2].
  - eexists a', _. split; [done |]. split.
    + eapply modifies_weaken; [by eapply modifies_add_l |]. clear - Hi. set_solver.
    + exists (TLeaf (drop pw key) bs), {[inl i]}. split_and!; [done | clear - Hi; set_solver | | done | | done].
      * destruct Hkey. by constructor.
      * intros k Hk. rewrite (updates_none_leaf n) by done. done.
Qed.

Lemma insert_leaf fuel kr vr k w : rep a (Local i) (TLeaf k w) F -> nodes a !! i = Some (Leaf kr vr) ->
  slice (keys a) kr = Some k -> slice (values a) vr = Some w -> canon n (TLeaf k w) ->
  exists a' r, insert_at fuel a i pw key v (Leaf kr vr) = Some (a', r) /\ modifies F a a'
    /\ insert_post a a' i (TLeaf k w) F n (drop pw key) bs key r.
Proof.
  intros Hr Hn Hk Hw Hc. pose proof (rep_local _ _ _ _ _ Hr) as Hi.
  pose proof (rep_valid _ _ _ _ _ Hr _ Hi) as Hv. inversion Hc as [n' k' v' Hkn Hl | |]; subst.
  unfold insert_at. rewrite Hk.
  case_decide as Ek.
  - pose proof (insert_value_modifies a v) as M. pose proof (insert_value_slice a v bs Hbs) as Hs.
    destruct (insert_value a v) as [a1 r]. simpl in M, Hs.
    destruct (set_leaf_spec a1 i kr r k bs) as (a' & -> & M3 & Hr'); [..| done |].
    + by eapply valid_grows; [apply M |].
    + destruct (proj2 M _ Hv) as (_ & -> & _); [clear; set_solver | done].
    + eapply slice_prefix; [done | apply M].
    + eexists a', _. split; [done |]. split.
      * eapply modifies_weaken; [by eapply modifies_add_l |]. clear - Hi. set_solver.
      * exists (TLeaf k bs), {[inl i]}. split_and!; [done | clear - Hi; set_solver | by constructor | done | |].
        -- intros k' Hk'. rewrite (updates_none_leaf (length k)) by done. rewrite <- Ek.
           case_decide; [done |]. simpl. by rewrite decide_False.
        -- simpl. rewrite decide_True by done. split; [done | by eexists].
  - assert (length k = length (drop pw key)) as El by (by destruct Hkey).
    destruct (split_leaf_spec remotes a i (drop pw key) kr vr v bs k w)
      as (a' & prefix & n1 & s1 & n2 & s2 & F' & -> & M & Ep & Ekk & Hne & Hrep & HF); try done.
    { apply Hkey. } { lia. }
    { intros Hp. apply Ek, prefix_length_eq; [done | lia]. }
    eexists a', _. split; [done |]. split; [eapply modifies_weaken; [done | clear - Hi; set_solver] |].
    destruct Hkey as [_ Hnib]. rewrite Ep in Hnib. apply Forall_app in Hnib as [Np [N1 Ns1]%Forall_cons].
    rewrite Ekk in Hkn. apply Forall_app in Hkn as [_ [N2 Ns2]%Forall_cons].
    assert (length s1 = length s2) as Els by (rewrite Ep, Ekk, !length_app in El; simpl in El; lia).
    eexists _, F'. split_and!; [done | clear - HF Hi; set_solver | | done | |].
    + replace (length k) with (length prefix + S (length s1))%nat
        by (rewrite Ekk, length_app; simpl; lia).
      apply canon_mk_ext; [| done | by right]. apply canon_two; try done; by constructor.
    + intros k' [_ Hk']. rewrite tget_split, Ep by done. case_decide; [done |].
      rewrite Ekk. change (n2 :: s2) with ([n2] ++ s2). by rewrite app_assoc, tget_leaf_app.
    + simpl. by rewrite decide_False.
Qed.

Lemma insert_ext fuel kr p k cs G m : insert_ok fuel -> rep a (Local i) (TExt k (TBranch cs)) F ->
  nodes a !! i = Some (Extension kr p) -> slice (keys a) kr = Some k -> rep a p (TBranch cs) G ->
  inl i ∉ G -> F ≡ {[inl i]} ∪ G -> Forall nibble k -> k <> [] -> canon m (TBranch cs) ->
  n = (length k + m)%nat -> (n < S fuel)%nat ->
  exists a' r, insert_at fuel a i pw key v (Extension kr p) = Some (a', r) /\ modifies F a a'
    /\ insert_post a a' i (TExt k (TBranch cs)) F n (drop pw key) bs key r.
Proof.
  intros IH Hr Hn Hk Hp HiG EF Hkn Hkne Hc Hm Hfuel. unfold insert_at. rewrite Hk.
  pose proof (rep_local _ _ _ _ _ Hr) as Hi. pose proof (rep_valid _ _ _ _ _ Hr _ Hi) as Hv.
  pose proof (slice_Some _ _ _ Hk) as (_ & _ & Hkl).
  destruct (starts_with (drop pw key) k) eqn:Es.
  - apply starts_with_spec in Es as [rest Es]. destruct p as [i' | r].
    + assert (drop (pw + range_len kr) key = rest) as Er by (by rewrite <- drop_drop, Es, <- Hkl, drop_app_length).
      rewrite Es, Hm, key_of_app in Hkey by done. destruct Hkey as [_ Hrest].
      destruct (IH a i' (pw + range_len kr)%nat key v (TBranch cs) G m bs) as (a' & r & -> & M & P); try done.
      { by right. } { by rewrite Er. } { destruct k; [done | simpl in *; lia]. }
      rewrite Er in P. exists a', r. split; [done |]. split; [eapply modifies_weaken; [done | rewrite EF; clear; set_solver] |].
      destruct P as (T' & F' & Hr' & HF' & P). destruct (proj2 M _ Hv HiG) as (En & Eh & _).
      assert (inl i ∉ F') as HiF.
      { intros [?|?]%HF'%elem_of_union; [done |]. by eapply valid_unused. }
      assert (rep a' (Local i) (TExt k T') ({[inl i]} ∪ F')) as Hr2.
      { eapply rep_ext; [by rewrite En | eapply slice_prefix; [done | apply M] | done | done | done |].
        apply hash_ok_false. by rewrite Eh. }
      exists (TExt k T'), ({[inl i]} ∪ F'). split_and!; [done | rewrite EF; clear - HF'; set_solver |].
      destruct r as [old | e].
      * destruct P as (Hc' & Hb & Hu & Ho). destruct T' as [| | | cs']; try (by destruct Hb).
        split_and!; [by eapply canon_ext | done | rewrite Es, Hm; by apply updates_ext |].
        by rewrite Es, tget_ext_app.
      * destruct P as (-> & -> & Hre). split_and!; [done | done |]. rewrite Es. intros Hlo.
        apply Hre. by eapply loaded_ext.
    + eexists a, _. split; [done |]. split; [apply modifies_refl |]. exists (TExt k (TBranch cs)), F.
      split_and!; [done | clear; set_solver | done | done |]. rewrite Es. intros Hlo.
      eapply loaded_ext in Hlo; [| done | done]. by eapply loaded_remote.
  - apply starts_with_false in Es.
    assert (length k <= length (drop pw key))%nat as Hlen by (destruct Hkey; lia).
    destruct (split_extension_spec remotes a i (drop pw key) kr p v bs k (TBranch cs) G)
      as (a' & prefix & n1 & s1 & n2 & s2 & F' & -> & M & Ep & Ekk & Hne & Hrep & HF); try done.
    { apply Hkey. }
    eexists a', _. split; [done |]. split; [eapply modifies_weaken; [done | rewrite EF; clear; set_solver] |].
    destruct Hkey as [Hkl' Hnib]. rewrite Ep in Hnib. apply Forall_app in Hnib as [Np [N1 Ns1]%Forall_cons].
    rewrite Ekk in Hkn. apply Forall_app in Hkn as [_ [N2 Ns2]%Forall_cons].
    assert (length s1 = length s2 + m)%nat as Els
      by (rewrite Hm, Ep, Ekk, !length_app in Hkl'; simpl in Hkl'; lia).
    eexists _, F'. split_and!; [done | rewrite EF; clear - HF; set_solver | | done | |].
    + replace n with (length prefix + S (length s1))%nat by (rewrite Hm, Ekk, length_app; simpl; lia).
      apply canon_mk_ext; [| done | by right]. apply canon_two; try done; [by constructor |].
      rewrite Els. by apply canon_mk_ext; [| | right].
    + intros k' [_ Hk']. rewrite tget_split, Ep by done. case_decide; [done |].
      assert (TExt k (TBranch cs) = mk_ext (prefix ++ [n2] ++ s2) (TBranch cs)) as ->
        by (rewrite Ekk; by destruct prefix).
      by rewrite app_assoc, (tget_mk_ext_mk_ext (prefix ++ [n2])).
    + simpl. destruct (starts_with (drop pw key) k) eqn:E; [| done]. by apply starts_with_spec in E.
Qed.

Lemma child_lookup {A} (l : list (option A)) x : (x < length l)%nat -> l !! x = Some (child l x).
Proof. intros Hx. destruct (lookup_lt_is_Some_2 l x Hx) as [o E]. unfold child. by rewrite E. Qed.

Lemma insert_branch fuel b cs m : insert_ok fuel -> rep a (Local i) (TBranch cs) F ->
  nodes a !! i = Some (Branch b) -> canon n (TBranch cs) -> n = S m -> (n < S fuel)%nat ->
  exists a' r, insert_at fuel a i pw key v (Branch b) = Some (a', r) /\ modifies F a a'
    /\ insert_post a a' i (TBranch cs) F n (drop pw key) bs key r.
Proof.
  intros IH Hr Hn Hc Hm Hfuel. unfold insert_at, get_child. subst n.
  assert (length cs = 16%nat) as Hl by by inversion Hc.
  destruct (key_of_drop _ _ _ Hkey) as (x & -> & Hx & Ed & Hk'). rewrite Ed.
  destruct (hole_open _ _ _ _ _ (Z.to_nat x) Hr Hf) as (b' & ptrs & R & G & Hn' & Ht & Hh & Hopt & EF & Hd).
  assert (b' = b) as -> by congruence. rewrite Ht.
  assert (length ptrs = 16%nat) as Hlp by (destruct Hh as (_ & _ & _ & _ & -> & _); done).
  rewrite (child_lookup ptrs) by (unfold nibble in *; lia).
  assert (Z.to_nat x < length cs)%nat as Hlt by (unfold nibble in *; lia).
  unfold rep_opt in Hopt. destruct (child ptrs (Z.to_nat x)) as [p |] eqn:Ep,
    (child cs (Z.to_nat x)) as [c |] eqn:Ec; try done.
  - destruct p as [i' | r].
    + inversion Hc as [| | m' cs' i1 i2 _ _ _ _ Hcs]; subst.
      destruct (IH a i' (S pw) key v c G m bs) as (a' & r & -> & M & P); try done.
      { right. by eapply Hcs. } { lia. }
      exists a', r. split; [done |]. split; [eapply modifies_weaken; [done | rewrite EF; clear; set_solver] |].
      destruct P as (T' & F' & Hr' & HF' & P).
      destruct (hole_update _ _ _ _ _ _ _ _ _ _ _ _ Hh M Hd Ep Hr' HF' Hlt) as [Hr2 HF2].
      eexists _, _. split_and!; [done | by rewrite EF |]. destruct r as [old | e].
      * destruct P as (Hc' & _ & Hu & Ho). split_and!; [by apply canon_branch_set; [| lia |] | done | |].
        -- apply updates_branch; [done | done |]. intros k Hk. rewrite Ec. by apply Hu.
        -- by rewrite tget_branch, Ec.
      * destruct P as (-> & -> & Hre). split_and!; [| done |].
        -- f_equal. apply list_insert_id. by apply child_Some.
        -- intros Hlo. apply Hre. by eapply loaded_branch.
    + eexists a, _. split; [done |]. split; [apply modifies_refl |]. exists (TBranch cs), F.
      split_and!; [done | clear; set_solver | done | done |]. intros Hlo.
      eapply loaded_branch in Hlo; [| done..]. by eapply loaded_remote.
  - destruct (push_leaf_rep remotes a (drop (S pw) key) v bs Ha Hbs) as (a1 & -> & M1 & Hl1).
    destruct (hole_fill _ _ _ _ _ _ _ R (Local (length (nodes a))) (TLeaf (drop (S pw) key) bs)
      {[inl (length (nodes a))]} (hole_frame _ _ _ _ _ _ _ _ _ _ Hh M1 ltac:(clear; set_solver)) Hlt Hl1)
      as (a2 & E2 & M2 & Hr2).
    { intros y ->%elem_of_singleton Hy. eapply hole_valid in Hy; [| done]. simpl in Hy. lia. }
    rewrite Z2Nat.id in E2 by (unfold nibble in *; lia). rewrite E2. eexists a2, _. split; [done |].
    pose proof (hole_cells _ _ _ _ _ _ _ _ Hh) as [_ HbR]. split.
    + eapply modifies_weaken; [by eapply modifies_add_l |]. rewrite EF. clear - HbR. set_solver.
    + eexists _, _. split_and!; [done | | | done | |].
      * rewrite EF. intros y. rewrite !elem_of_union, elem_of_singleton, elem_of_unused.
        intros [-> | Hy]; [right; simpl; lia | by left; right].
      * apply canon_branch_set; [done | lia |]. destruct Hk'. by constructor.
      * apply updates_branch; [done | done |]. intros k Hk. rewrite Ec. by apply (updates_none_leaf m).
      * unfold old_value_ok. by rewrite tget_branch, Ec.
Qed.

End round.

Lemma insert_loop_spec fuel : insert_ok fuel.
Proof.
  induction fuel as [| fuel IH]; intros a i pw key v T F n bs Ha Hr Hc Hkey Hfuel Hbs; [lia |].
  pose proof (rep_unhash _ _ _ _ _ Ha Hr) as Hr'. pose proof (unhash_hashed _ _ _ _ _ Ha Hr) as Hf.
  pose proof (modifies_arrays _ _ _ (unhash_modifies a i) Ha) as Ha'.
  assert (exists node a' r, nodes a !! i = Some node
    /\ insert_at fuel (unhash a i) i pw key v node = Some (a', r)
    /\ modifies F (unhash a i) a' /\ insert_post (unhash a i) a' i T F n (drop pw key) bs key r)
    as (node & a' & r & Hn & E & M & P).
  { inversion Hr'; subst.
    - edestruct insert_null as (a' & r & ? & ? & ?); eauto 10.
    - destruct Hc as [| Hc]; [done |]. edestruct insert_leaf as (a' & r & ? & ? & ?); eauto 10.
    - destruct Hc as [| Hc]; [done |]. inversion Hc; subst.
      edestruct insert_ext as (a' & r & ? & ? & ?); eauto 10.
    - destruct Hc as [| Hc]; [done |]. inversion Hc; subst.
      edestruct insert_branch as (a' & r & ? & ? & ?); eauto 10. }
  exists a', r. rewrite (insert_loop_S _ _ _ _ _ _ _ _ _ Ha Hr Hn). split; [done |]. by eapply unhash_post.
Qed.

End insertion.
