(* ===== verification/TrieMerge.v ===== *)
(** * Merging nodes of the sparse trie

    The child that a branch is left with is merged into the node above. *)

From S2P Require Import Prelude SparseTrie TrieModel TrieRep TrieSplit TrieInsertSpec.

(** ** Counting children *)
Lemma count_cons o l : count_children (o :: l) = ((if o then 1 else 0) + count_children l)%nat.
Proof. unfold count_children. rewrite filter_cons. destruct o; case_decide as E; try done; by destruct E. Qed.

Lemma count_remove l n p : child l n = Some p ->
  count_children l = S (count_children (<[n := None]> l)).
Proof.
  revert n. induction l as [| o l IH]; intros n Hn; [apply child_lt in Hn; simpl in Hn; lia |].
  destruct n as [| n]; simpl; rewrite !count_cons; [by destruct o |]. rewrite (IH n) by done. lia.
Qed.

Lemma count_pos l : (0 < count_children l)%nat -> exists n p, child l n = Some p.
Proof.
  induction l as [| o l IH]; [unfold count_children; simpl; lia |]. rewrite count_cons.
  destruct o as [p |]; [by exists O, p |].
  intros Hc. destruct IH as (n & p & Hn); [simpl in Hc; lia |]. by exists (S n), p.
Qed.

Lemma child_remove {A} (l : list (option A)) n m p : child (<[n := None]> l) m = Some p <-> m <> n /\ child l m = Some p.
Proof.
  destruct (decide (n < length l)%nat) as [Hlt | Hge].
  - rewrite child_insert by done. case_decide; naive_solver.
  - rewrite list_insert_ge by lia. split; [| naive_solver]. intros E. split; [| done].
    apply child_lt in E. lia.
Qed.

Lemma count_ge_2 l : (2 <= count_children l)%nat <->
  exists i j, i <> j /\ is_Some (child l i) /\ is_Some (child l j).
Proof.
  split.
  - intros Hc. destruct (count_pos l) as (i & p & Hi); [lia |]. rewrite (count_remove l i p Hi) in Hc.
    destruct (count_pos (<[i := None]> l)) as (j & q & Hj); [lia |]. apply child_remove in Hj as [Hne Hj].
    exists i, j. split_and!; [done | by eexists | by eexists].
  - intros (i & j & Hne & [p Hi] & [q Hj]). rewrite (count_remove l i p Hi).
    rewrite (count_remove (<[i := None]> l) j q); [lia |]. by apply child_remove.
Qed.

(** With two children, there is only one besides a given one. *)
Lemma count_2_unique l n i j : count_children l = 2%nat -> is_Some (child l n) -> i <> n -> j <> n ->
  is_Some (child l i) -> is_Some (child l j) -> i = j.
Proof.
  intros Hc [p Hn] Hi Hj [pi Ei] [pj Ej]. destruct (decide (i = j)) as [| Hne]; [done |].
  rewrite (count_remove l n p Hn) in Hc. assert (2 <= count_children (<[n := None]> l))%nat; [| lia].
  apply count_ge_2. exists i, j. split_and!; [done | exists pi | exists pj]; by apply child_remove.
Qed.

Lemma find_child_Some test k l i p : find_child test k l = Some (i, p) ->
  (k <= i)%nat /\ child l (i - k) = Some p /\ test i = true.
Proof.
  revert k. induction l as [| o l IH]; intros k; [done |]. simpl.
  assert (forall i, (S k <= i)%nat -> child (o :: l) (i - k) = child l (i - S k)) as Hs.
  { intros i' Hi. unfold child. replace (i' - k)%nat with (S (i' - S k))%nat by lia. done. }
  destruct o as [q |]; [destruct (test k) eqn:E |].
  - intros [= -> ->]. rewrite Nat.sub_diag. done.
  - intros (Hk & Hc & Ht)%IH. rewrite Hs by done. split_and!; [lia | done | done].
  - intros (Hk & Hc & Ht)%IH. rewrite Hs by done. split_and!; [lia | done | done].
Qed.

Lemma find_child_is_Some test k l n p : child l n = Some p -> test (k + n)%nat = true ->
  is_Some (find_child test k l).
Proof.
  revert k n. induction l as [| o l IH]; intros k n Hn Ht; [apply child_lt in Hn; simpl in Hn; lia |]. simpl.
  destruct n as [| n].
  - unfold child in Hn. simpl in Hn. subst o. rewrite Nat.add_0_r in Ht. rewrite Ht. by eexists.
  - assert (is_Some (find_child test (S k) l)) by (eapply (IH _ n); [done | by rewrite <- Ht; f_equal; lia]).
    destruct o; [| done]. by destruct (test k); [eexists |].
Qed.

(** ** Merging keys *)
Lemma copy_within_tail {A} (pre z post s : list A) r : slice pre r = Some s -> length z = length s ->
  copy_within (pre ++ z ++ post) r (length pre) = Some (pre ++ s ++ post).
Proof.
  intros Hs Hz. unfold copy_within. rewrite (slice_prefix pre _ _ s) by (done || by apply prefix_app_r).
  rewrite (proj2 (Nat.leb_le _ _)) by (rewrite !length_app; lia). do 2 f_equal; [by rewrite take_app_length |].
  f_equal. rewrite <- Hz, app_assoc, <- length_app. by rewrite drop_app_length.
Qed.

Lemma merge_keys_spec a r1 nib r2 k1 k2 : slice (keys a) r1 = Some k1 -> slice (keys a) r2 = Some k2 ->
  exists r, merge_keys a r1 nib r2 = Some (with_keys a (keys a ++ k1 ++ nib :: k2), r)
    /\ slice (keys a ++ k1 ++ nib :: k2) r = Some (k1 ++ nib :: k2).
Proof.
  intros H1 H2. unfold merge_keys. pose proof (slice_Some _ _ _ H1) as (_ & _ & L1).
  pose proof (slice_Some _ _ _ H2) as (_ & _ & L2). rewrite <- L1, <- L2.
  replace (length k1 + length k2 + 1)%nat with (length k1 + (1 + length k2))%nat by lia.
  rewrite !replicate_add. rewrite (copy_within_tail (keys a) (replicate (length k1) 0%Z) _ k1)
    by (done || by rewrite length_replicate).
  simpl replicate at 1. rewrite <- (Nat.add_0_r (length (keys a) + length k1)), <- length_app.
  rewrite (app_assoc (keys a)), insert_app_r. simpl.
  rewrite Nat.add_0_r. replace (length (keys a ++ k1) + 1)%nat with (length ((keys a ++ k1) ++ [nib]))
    by (rewrite length_app; simpl; lia).
  replace ((keys a ++ k1) ++ nib :: replicate (length k2) 0%Z)
    with (((keys a ++ k1) ++ [nib]) ++ replicate (length k2) 0%Z ++ []) by (by rewrite app_nil_r, <- app_assoc).
  rewrite (copy_within_tail _ _ _ k2).
  - eexists. split; [do 3 f_equal; by rewrite app_nil_r, <- !app_assoc |].
    replace (length (keys a ++ k1) + length k2 + 1)%nat with (length (keys a) + length (k1 ++ nib :: k2))%nat
      by (rewrite !length_app; simpl; lia). apply slice_snoc.
  - eapply slice_prefix; [done |]. rewrite <- app_assoc. by apply prefix_app_r.
  - by rewrite length_replicate.
Qed.

Lemma slice_empty {A} (l : list A) : slice l empty_range = Some [].
Proof. done. Qed.

(** ** A node with a longer key *)

(** The tree of [c] below [p], in canonical form. *)
Definition absorb (p : nibbles) (c : tree) : tree :=
  match c with
  | TLeaf k v => TLeaf (p ++ k) v
  | TExt k c => TExt (p ++ k) c
  | c => TExt p c
  end.

Lemma tget_absorb p c k : p <> [] -> tget (absorb p c) k = tget (mk_ext p c) k.
Proof.
  intros Hp. destruct c as [| s v | s c | cs]; simpl absorb; [by destruct p | apply tget_leaf_app | | by destruct p].
  destruct s as [| x s].
  - rewrite app_nil_r. destruct p; [done |]. rewrite !tget_mk_ext. simpl. destruct (starts_with _ _); [| done].
    by destruct (drop _ _).
  - assert (TExt (p ++ x :: s) c = mk_ext (p ++ x :: s) c) as -> by (by destruct p).
    by rewrite tget_mk_ext_mk_ext.
Qed.

Lemma canon_absorb m p c : canon m c -> Forall nibble p -> p <> [] -> canon (length p + m) (absorb p c).
Proof.
  intros Hc Hp Hne. inversion Hc as [n k v Hk Hl | n m' k cs Hk Hkne Hcs Hn | n cs i j Hl Hij Hi Hj Hcs]; subst; simpl.
  - constructor; [by apply Forall_app | rewrite length_app; lia].
  - eapply canon_ext; [by apply Forall_app | by destruct p | done | rewrite length_app; lia].
  - by eapply canon_ext; [| | done |].
Qed.

Section rep.
Context `{TrieCodec} (remotes : list bytes).
Abbreviation rep := (rep remotes).

(** An extension written over a node. *)
Lemma set_ext_spec a i kr p k T G : valid a (inl i) -> hashed_nodes a !! i = Some false ->
  slice (keys a) kr = Some k -> rep a p T G -> inl i ∉ G ->
  exists a', set_node a i (Extension kr p) = Some a' /\ modifies {[inl i]} a a'
    /\ rep a' (Local i) (TExt k T) ({[inl i]} ∪ G).
Proof.
  intros Hv Hf Hk Hr Hi. destruct (set_node_modifies a i (Extension kr p) Hv) as (a' & E & M & Hn & Eh & Ek & Ev).
  exists a'. split_and!; [done | done |].
  eapply rep_ext; [done | by rewrite Ek | | done | done | apply hash_ok_false; by rewrite Eh].
  eapply rep_modifies; [done | | done]. clear - Hi. set_solver.
Qed.

(** What merging the orphan at [j] into node [i], below the key [k], leaves. *)
Definition absorbed (a a' : Trie) (i : nat) (p : nibbles) (c : tree) (G : propset cell) : Prop :=
  modifies {[inl i]} a a' /\ exists F', rep a' (Local i) (absorb p c) F' /\ F' ⊆ {[inl i]} ∪ G.

Section merge.
Context (a : Trie) (i j : nat) (nib : Z) (c : tree) (G : propset cell) (m : nat).
Hypothesis Ha : arrays_ok a.
Hypothesis Hv : valid a (inl i).
Hypothesis Hf : hashed_nodes a !! i = Some false.
Hypothesis Hr : rep a (Local j) c G.
Hypothesis Hi : inl i ∉ G.
Hypothesis Hc : canon m c.

Lemma merge_into kr k : slice (keys a) kr = Some k ->
  exists orphan, nodes a !! j = Some orphan
  /\ match orphan with
     | Leaf orphan_key value =>
         exists a', (let! (t, new_key) := merge_keys a kr nib orphan_key in set_node t i (Leaf new_key value)) = Some a'
           /\ absorbed a a' i (k ++ [nib]) c G
     | Extension orphan_key next =>
         exists a', (let! (t, new_key) := merge_keys a kr nib orphan_key in set_node t i (Extension new_key next)) = Some a'
           /\ absorbed a a' i (k ++ [nib]) c G
     | Branch _ =>
         (exists a', (let! (t, new_key) := merge_keys a kr nib empty_range in set_node t i (Extension new_key (Local j))) = Some a'
           /\ absorbed a a' i (k ++ [nib]) c G)
         /\ (k = [] -> exists a', (let '(t, new_key) := insert_key a [nib] in set_node t i (Extension new_key (Local j))) = Some a'
           /\ absorbed a a' i (k ++ [nib]) c G)
     | Null => False
     end.
Proof.
  intros Hk. inversion Hr as [| j' F Hn EF Hh | j' kr' vr k' w F Hn Hk' Hw EF Hh |
    j' kr' p k' T F G' Hn Hk' Hp Hj EF Hh | j' b ptrs cs Fs F Hn]; subst; [by inversion Hc | ..];
    eexists; (split; [exact Hn |]).
  - destruct (merge_keys_spec a kr nib kr' k k' Hk Hk') as (r & -> & Hs).
    destruct (set_leaf_spec remotes (with_keys a (keys a ++ k ++ nib :: k')) i r vr _ w Hv Hf Hs Hw) as (a' & E & M & Hr').
    exists a'. split; [exact E |]. split.
    + eapply modifies_add_l; [apply with_keys_modifies; by apply prefix_app_r | done].
    + exists {[inl i]}. simpl. rewrite <- app_assoc. split; [exact Hr' | clear; set_solver].
  - destruct (merge_keys_spec a kr nib kr' k k' Hk Hk') as (r & -> & Hs).
    assert (modifies ∅ a (with_keys a (keys a ++ k ++ nib :: k'))) as M0
      by (apply with_keys_modifies; by apply prefix_app_r).
    destruct (set_ext_spec (with_keys a (keys a ++ k ++ nib :: k')) i r p _ T G' Hv Hf Hs) as (a' & E & M & Hr').
    { eapply rep_modifies; [done | clear; set_solver | done]. } { clear - Hi EF. set_solver. }
    exists a'. split; [exact E |]. split; [by eapply modifies_add_l |].
    exists ({[inl i]} ∪ G'). simpl. rewrite <- app_assoc. split; [exact Hr' | rewrite EF; clear; set_solver].
  - assert (forall a1 r, modifies ∅ a a1 -> slice (keys a1) r = Some (k ++ [nib]) ->
      exists a', set_node a1 i (Extension r (Local j)) = Some a'
        /\ absorbed a a' i (k ++ [nib]) (TBranch cs) G) as Hset.
    { intros a1 r M0 Hs. destruct (proj2 M0 _ Hv) as (_ & Eh & _); [clear; set_solver |].
      destruct (set_ext_spec a1 i r (Local j) (k ++ [nib]) (TBranch cs) G) as (a' & E & M & Hr').
      - by eapply valid_grows; [apply M0 |].
      - by rewrite Eh.
      - done.
      - eapply rep_modifies; [done | clear; set_solver | done].
      - done.
      - exists a'. split; [exact E |]. split; [by eapply modifies_add_l |]. by eexists. }
    split.
    + destruct (merge_keys_spec a kr nib empty_range k [] Hk (slice_empty _)) as (r & -> & Hs).
      apply Hset; [| done]. apply with_keys_modifies. by apply prefix_app_r.
    + intros ->. pose proof (insert_key_modifies a [nib]) as M1. pose proof (insert_key_slice a [nib]) as S1.
      destruct (insert_key a [nib]) as [a1 r]. by apply Hset.
Qed.
End merge.

(** The orphan keeps its node and gets a longer key. *)
Lemma rewrite_node a j node : arrays_ok a -> valid a (inl j) ->
  exists a2 a3, set_node a j node = Some a2 /\ set_hashed a2 j false = Some a3 /\ modifies {[inl j]} a a3
    /\ nodes a3 !! j = Some node /\ hashed_nodes a3 !! j = Some false
    /\ keys a3 = keys a /\ values a3 = values a.
Proof.
  intros [Ha _] Hv. destruct (set_node_modifies a j node Hv) as (a2 & E & M & Hn & Eh & Ek & Ev).
  simpl in Hv. exists a2, (unhash a2 j). split; [done |]. split_and!.
  - unfold set_hashed. rewrite Eh, decide_True by lia. unfold unhash. by rewrite Eh.
  - eapply modifies_trans; [done | apply unhash_modifies | clear; set_solver].
  - done.
  - simpl. apply list_lookup_insert_eq. rewrite Eh. lia.
  - done.
  - done.
Qed.

(** The orphan becomes a child of the branch above. *)
Lemma adopt_branch a i j b ptrs cs n R nib c G m : arrays_ok a -> branch_hole remotes a i b ptrs cs n R ->
  rep a (Local j) c G -> G ## R -> canon m c -> (n < length cs)%nat ->
  exists a', adopt_orphan a i (Z.of_nat n) nib (Local j) = Some a' /\ modifies (G ∪ R) a a'
    /\ exists F', rep a' (Local i) (TBranch (<[n := Some (absorb [nib] c)]> cs)) F'
    /\ F' ⊆ G ∪ R ∪ unused a.
Proof.
  intros Ha Hh Hr HG Hc Hlt. unfold adopt_orphan. simpl as_local. cbv iota.
  pose proof (hole_cells _ _ _ _ _ _ _ _ Hh) as [HiR HbR].
  assert (nodes a !! i = Some (Branch b)) as -> by (by destruct Hh as (Fs & ? & _)).
  assert (forall a1 p T G1 S, modifies S a a1 -> S ⊆ G -> rep a1 p T G1 -> G1 ⊆ G ∪ unused a ->
    exists a', set_child a1 b (Z.of_nat n) (Some p) = Some a' /\ modifies (G ∪ R) a a'
    /\ exists F', rep a' (Local i) (TBranch (<[n := Some T]> cs)) F' /\ F' ⊆ G ∪ R ∪ unused a) as Hfill.
  { intros a1 p T G1 S M HS Hr1 HG1.
    assert (branch_hole remotes a1 i b ptrs cs n R) as Hh1 by (eapply hole_frame; [done | done | clear - HS HG; set_solver]).
    destruct (hole_fill _ _ _ _ _ _ _ _ p T G1 Hh1 Hlt Hr1) as (a' & E & M' & Hr').
    { intros x [Hx | Hx]%HG1%elem_of_union HxR; [by eapply HG |].
      eapply (valid_unused a x); [by eapply (hole_valid _ a) | done]. }
    exists a'. split; [done |]. split.
    - eapply modifies_trans; [eapply modifies_weaken; [done | clear - HS; set_solver] | done | clear - HbR; set_solver].
    - eexists. split; [done |]. clear - HG1. set_solver. }
  inversion Hr as [| j' F Hn EF Hhh | j' kr vr k w F Hn Hk Hw EF Hhh |
    j' kr p k T F G' Hn Hk Hp Hj EF Hhh | j' b' ptrs' cs' Fs F Hn]; subst; [by inversion Hc | ..]; rewrite Hn;
    cbv iota beta.
  - destruct (merge_keys_spec a empty_range nib kr [] k (slice_empty _) Hk) as (r & -> & Hs). simpl in Hs.
    assert (modifies ∅ a (with_keys a (keys a ++ nib :: k))) as M0
      by (apply with_keys_modifies; by apply prefix_app_r).
    simpl app. destruct (rewrite_node (with_keys a (keys a ++ nib :: k)) j (Leaf r vr)) as
      (a2 & a3 & -> & -> & M & Hn3 & Hf3 & Ek & Ev); [done | simpl; by eapply lookup_lt_Some |].
    eapply (Hfill a3 _ _ {[inl j]} {[inl j]}); [by eapply modifies_add_l | rewrite EF; done | | rewrite EF; clear; set_solver].
    eapply rep_leaf; [done | by rewrite Ek | by rewrite Ev | done | by apply hash_ok_false].
  - destruct (merge_keys_spec a empty_range nib kr [] k (slice_empty _) Hk) as (r & -> & Hs). simpl in Hs.
    assert (modifies ∅ a (with_keys a (keys a ++ nib :: k))) as M0
      by (apply with_keys_modifies; by apply prefix_app_r).
    simpl app. destruct (rewrite_node (with_keys a (keys a ++ nib :: k)) j (Extension r p)) as
      (a2 & a3 & -> & -> & M & Hn3 & Hf3 & Ek & Ev); [done | simpl; by eapply lookup_lt_Some |].
    assert (modifies {[inl j]} a a3) as M3 by (by eapply modifies_add_l).
    eapply (Hfill a3 _ _ ({[inl j]} ∪ G') {[inl j]}); [done | rewrite EF; clear; set_solver | | rewrite EF; clear; set_solver].
    eapply rep_ext; [done | by rewrite Ek | | done | done | by apply hash_ok_false].
    eapply rep_modifies; [done | clear - Hj; set_solver | done].
  - pose proof (insert_key_modifies a [nib]) as M1. pose proof (insert_key_slice a [nib]) as S1.
    destruct (insert_key a [nib]) as [a1 r]. simpl in M1, S1.
    destruct (push_ext_rep remotes a1 r [nib] (Local j) (TBranch cs') G) as [M2 Hr2];
      [by eapply modifies_arrays | done | eapply rep_modifies; [done | clear; set_solver | done] |].
    eapply (Hfill (push_node a1 (Extension r (Local j))).1 _ _ _ ∅);
      [by eapply modifies_add | clear; set_solver | exact Hr2 |].
    pose proof (gr_nodes _ _ (proj1 M1)) as Hle. intros x. rewrite !elem_of_union, elem_of_singleton, elem_of_unused.
    intros [-> | ?]; [right; simpl; lia | by left].
Qed.

End rep.
