(* ===== verification/TrieDeleteSpec.v ===== *)
(** * Deletion from the sparse trie

    Deleting a key from the arrays that represent a canonical trie yields arrays
    that represent the canonical trie without it; a key that is not in the trie
    and a node that is not loaded are reported, and change nothing but marks. *)

From S2P Require Import Prelude SparseTrie TrieModel TrieRep TrieSplit TrieInsertSpec TrieMerge.

Lemma walk_back_app p1 p2 t r :
  walk_back (p1 ++ p2) t r = let! (t', r') := walk_back p1 t r in walk_back p2 t' r'.
Proof.
  revert t r. induction p1 as [| [node nib] p1 IH]; intros t r; simpl; [done |].
  destruct (walk_back_step t r node nib) as [[t' r'] |]; [apply IH | done].
Qed.

Lemma push_walk_modifies a i x : modifies ∅ a (push_walk a i x).
Proof. split; [by split | intros [|]; by simpl]. Qed.

Section deletion.
Context `{TrieCodec} (remotes : list bytes).
Abbreviation rep := (rep remotes).
Abbreviation branch_hole := (branch_hole remotes).

(** The node below [i] after the way back through it. *)
Definition delete_post (a a' : Trie) (i : nat) (T : tree) (F : propset cell) (n : nat) (path : nibbles)
    (res : NodeDeletionResult) : Prop :=
  match res with
  | NodeDeleted => a' = a /\ exists w, T = TLeaf path w
  | NodeUpdated => exists T' F', rep a' (Local i) T' F' /\ F' ⊆ F ∪ unused a /\ canon n T'
      /\ (is_branch T -> is_branch T') /\ updates n path None T T'
  | BranchBelowRemovedWithOneChild nib p =>
      exists j m c G, p = Local j /\ n = S m /\ nibble nib /\ rep a' (Local j) c G /\ G ⊆ F /\ inl i ∉ G
      /\ canon m c /\ is_branch T /\ updates n path None T (mk_ext [nib] c)
  end.

#[local] Instance delete_post_proper a a' i T :
  Proper ((≡) ==> (=) ==> (=) ==> (=) ==> (↔)) (delete_post a a' i T).
Proof.
  intros F F' E n ? <- path ? <- res ? <-. destruct res as [| | nib p]; simpl; [done | |]; by setoid_rewrite E.
Qed.

#[local] Instance modifies_proper : Proper ((≡) ==> (=) ==> (=) ==> (↔)) modifies.
Proof. intros F F' E a ? <- a' ? <-. unfold modifies. by setoid_rewrite E. Qed.

(** What the way down from node [i] finds, and the way back does. *)
Definition delete_result (a a' : Trie) (i : nat) (T : tree) (F : propset cell) (n : nat) (path : nibbles)
    (r : result Range DeletionError) : Prop :=
  match r with
  | Err Del_KeyNotFound => tget T path = None
  | Err (Del_NodeNotFound _) => remotes <> []
  | Ok old => tget T path = slice (values a') old /\ is_Some (tget T path)
      /\ exists seg a2 res, walk_path a' = walk_path a ++ seg
      /\ walk_back (rev seg) a' NodeDeleted = Some (a2, res) /\ modifies F a' a2
      /\ delete_post a' a2 i T F n path res
  end.

Abbreviation delete_ok fuel := (forall a i pw key T F n,
  arrays_ok a -> rep a (Local i) T F -> canon_root n T -> key_of n (drop pw key) -> (n < fuel)%nat ->
  exists a' r, delete_walk fuel a i pw key = Some (a', r) /\ modifies F a a' /\ rep a' (Local i) T F
    /\ (hashed_nodes a' !! i = Some false) /\ delete_result a a' i T F n (drop pw key) r).

(** ** The branch whose child was deleted *)
Lemma hole_shape a i b ptrs cs n R G : branch_hole a i b ptrs cs n R ->
  rep_opt remotes a (child ptrs n) (child cs n) G ->
  forall m, is_Some (child ptrs m) <-> is_Some (child cs m).
Proof.
  intros (Fs & _ & _ & _ & _ & Hr & _) Hn m. destruct (decide (m = n)) as [-> | Hm].
  - unfold rep_opt in Hn. destruct (child ptrs n), (child cs n); done.
  - specialize (Hr m Hm). unfold rep_opt in Hr. destruct (child ptrs m), (child cs m); done.
Qed.

Lemma hole_child a i b ptrs cs n R m p : branch_hole a i b ptrs cs n R -> m <> n -> child ptrs m = Some p ->
  exists c G, child cs m = Some c /\ rep a p c G /\ G ⊆ R /\ inl i ∉ G.
Proof.
  intros (Fs & _ & _ & _ & _ & Hr & Hi & _ & E) Hm Hp. specialize (Hr m Hm). unfold rep_opt in Hr.
  rewrite Hp in Hr. destruct (child cs m) as [c |]; [| done]. exists c, (Fs m). split_and!; [done | done | | by apply Hi].
  intros x Hx. apply E. right; right. eauto.
Qed.

(** Removing the leaf below from a branch of several. *)
Lemma updates_remove m x key w cs : nibble x -> length cs = 16%nat ->
  child cs (Z.to_nat x) = Some (TLeaf key w) ->
  updates (S m) (x :: key) None (TBranch cs) (TBranch (<[Z.to_nat x := None]> cs)).
Proof.
  intros Hx Hl Hc. apply updates_branch; [done | done |]. intros k Hk. rewrite Hc. simpl.
  case_decide; [done |]. by rewrite decide_False.
Qed.

Lemma updates_orphan m x key w cs i c : nibble x -> length cs = 16%nat ->
  child cs (Z.to_nat x) = Some (TLeaf key w) -> i <> Z.to_nat x -> child cs i = Some c ->
  (forall j, j <> Z.to_nat x -> is_Some (child cs j) -> j = i) ->
  updates (S m) (x :: key) None (TBranch cs) (mk_ext [Z.of_nat i] c).
Proof.
  intros Hx Hl Hc Hi Hci Huniq [| y k] Hk; [by destruct Hk |]. apply key_of_cons in Hk as [Hy Hk].
  rewrite tget_mk_ext, tget_branch. unfold starts_with, nibble in *. simpl. rewrite take_0, drop_0.
  destruct (decide (y = Z.of_nat i)) as [-> | Hyi].
  - rewrite bool_decide_true, Nat2Z.id, Hci by done. rewrite decide_False; [done |]. intros [= Ex _]. lia.
  - rewrite bool_decide_false by congruence. destruct (decide (y = x)) as [-> | Hyx].
    + rewrite Hc. simpl. case_decide; [done |]. rewrite decide_False; [done | congruence].
    + rewrite decide_False by congruence. destruct (child cs (Z.to_nat y)) as [c' |] eqn:Ey; [| done].
      assert (Z.to_nat y = i); [| lia]. apply Huniq; [lia | by eexists].
Qed.

(** The way back through a branch whose child, a leaf, was deleted.  With two
    children the other one must be loaded. *)
Lemma remove_child_spec a i b ptrs cs x R G key w m :
  branch_hole a i b ptrs cs (Z.to_nat x) R -> rep_opt remotes a (child ptrs (Z.to_nat x)) (Some (TLeaf key w)) G ->
  child cs (Z.to_nat x) = Some (TLeaf key w) -> nibble x -> canon (S m) (TBranch cs) ->
  (count_children ptrs = 2%nat -> forall j r, j <> Z.to_nat x -> child ptrs j <> Some (Remote r)) ->
  exists a' res, remove_child a i x = Some (a', res) /\ modifies (G ∪ R) a a'
    /\ delete_post a a' i (TBranch cs) (G ∪ R) (S m) (x :: key) res.
Proof.
  intros Hh Hopt Hcx Hx Hc Hloc. unfold remove_child.
  assert (nodes a !! i = Some (Branch b) /\ branch_node_children a !! b = Some ptrs) as [-> Ht]
    by (by destruct Hh as (Fs & ? & _ & ? & _)).
  rewrite Ht. rewrite <- Hcx in Hopt. pose proof (hole_shape _ _ _ _ _ _ _ _ Hh Hopt) as Hshape.
  inversion Hc as [| | m' cs' i1 i2 Hl Hi12 Hi1 Hi2 Hcs]; subst. rewrite <- Hshape in Hi1, Hi2.
  assert (2 <= count_children ptrs)%nat as Hcnt by (apply count_ge_2; eauto 10).
  destruct (hole_set _ _ _ _ _ _ _ _ None Hh) as (a' & E & M & Hh'); [unfold nibble in *; lia |].
  rewrite Z2Nat.id in E by (unfold nibble in *; lia).
  assert (match count_children ptrs with 0%nat | 1%nat => None | _ => set_child a b x None end = Some a') as ->
    by (destruct (count_children ptrs) as [| [|]]; [lia | lia | done]).
  pose proof (hole_cells _ _ _ _ _ _ _ _ Hh) as [HiR HbR].
  assert (modifies (G ∪ R) a a') as M' by (eapply modifies_weaken; [done | clear - HbR; set_solver]).
  assert (branch_node_children a' !! b = Some (<[Z.to_nat x := None]> ptrs)) as Ht'
    by (by destruct Hh' as (Fs & _ & _ & ? & _)).
  destruct (proj2 (Hshape (Z.to_nat x))) as [px Hpx]; [by rewrite Hcx; eexists |].
  case_decide as E2.
  - rewrite Ht'. assert (exists j p, j <> Z.to_nat x /\ child ptrs j = Some p) as (j0 & p0 & Hj0 & Hp0).
    { destruct (decide (i1 = Z.to_nat x)) as [-> | Hne]; [exists i2 | exists i1].
      - destruct Hi2 as [p Hp]. by exists p.
      - destruct Hi1 as [p Hp]. by exists p. }
    destruct (find_child_is_Some (fun _ => true) 0 (<[Z.to_nat x := None]> ptrs) j0 p0) as [[j p] Ef];
      [by apply child_remove | done |]. rewrite Ef.
    apply find_child_Some in Ef as (_ & Ej & _). rewrite Nat.sub_0_r in Ej. apply child_remove in Ej as [Hj Ej].
    destruct p as [j' | r]; [| by destruct (Hloc E2 j r Hj)]. simpl is_remote. cbv iota.
    exists a'. eexists. split; [done |]. split; [done |].
    destruct (hole_child _ _ _ _ _ _ _ j (Local j') Hh' Hj) as (c & Gj & Hcj & Hrj & HGj & HiG).
    { by rewrite child_insert, decide_False by (done || destruct Hh as (_ & _ & _ & _ & -> & _); unfold nibble in *; lia). }
    exists j', m, c, Gj. split_and!; try done.
    + apply child_lt in Hcj. unfold nibble. lia.
    + clear - HGj. set_solver.
    + by eapply Hcs.
    + eapply updates_orphan; [done | done | done | done | done |]. intros j1 Hj1 Hs.
      rewrite <- Hshape in Hs. eapply (count_2_unique ptrs (Z.to_nat x)); [done | by eexists | done | done | done | by eexists].
  - exists a', NodeUpdated. split; [done |]. split; [done |].
    exists (TBranch (<[Z.to_nat x := None]> cs)), (∅ ∪ R).
    split_and!; [eapply hole_close; [done | | | unfold nibble in *; lia] | | | done | by eapply updates_remove].
    + rewrite child_insert, decide_True by (done || destruct Hh as (_ & _ & _ & _ & -> & _); unfold nibble in *; lia).
      done.
    + clear; set_solver.
    + clear; set_solver.
    + assert (2 <= count_children (<[Z.to_nat x := None]> ptrs))%nat as Hc2 by (rewrite (count_remove _ _ _ Hpx) in *; lia).
      apply count_ge_2 in Hc2 as (j1 & j2 & Hne & [p1 Hp1] & [p2 Hp2]).
      apply child_remove in Hp1 as [Hn1 Hp1], Hp2 as [Hn2 Hp2].
      apply (canon_branch m _ j1 j2); [by rewrite length_insert | done | | |].
      * rewrite child_insert, decide_False by (done || unfold nibble in *; lia). apply Hshape. by eexists.
      * rewrite child_insert, decide_False by (done || unfold nibble in *; lia). apply Hshape. by eexists.
      * intros j c [_ Hj]%child_remove. by eapply Hcs.
Qed.

(** ** The way down and back through each kind of node *)

(** A branch whose child was changed or merged. *)
Lemma branch_back a i b ptrs cs x R G c i' key m a2 res :
  arrays_ok a -> branch_hole a i b ptrs cs (Z.to_nat x) R -> rep_opt remotes a (Some (Local i')) (Some c) G ->
  child ptrs (Z.to_nat x) = Some (Local i') -> child cs (Z.to_nat x) = Some c -> G ## R -> nibble x ->
  canon (S m) (TBranch cs) ->
  (count_children ptrs = 2%nat -> forall j r, j <> Z.to_nat x -> child ptrs j <> Some (Remote r)) ->
  modifies G a a2 -> delete_post a a2 i' c G m key res ->
  exists a3 res', walk_back_step a2 res i x = Some (a3, res') /\ modifies (G ∪ R) a a3
    /\ delete_post a a3 i (TBranch cs) (G ∪ R) (S m) (x :: key) res'.
Proof.
  intros Ha Hh Hopt Hp Hc HG Hx Hcn Hloc M P.
  assert (length cs = 16%nat) as Hl by by inversion Hcn.
  assert (Z.to_nat x < length cs)%nat as Hlt by (unfold nibble in *; lia).
  assert (branch_hole a2 i b ptrs cs (Z.to_nat x) R) as Hh2 by by eapply hole_frame.
  assert (modifies (G ∪ R) a a2) as M1 by (eapply modifies_weaken; [done | clear; set_solver]).
  destruct res as [| | nib p]; simpl in P; unfold walk_back_step.
  - destruct P as [-> [w ->]]. eapply remove_child_spec; [done | by rewrite Hp | done..].
  - destruct P as (T' & F' & Hr' & HF' & Hc' & Hb & Hu).
    destruct (hole_update _ _ _ _ _ _ _ _ _ _ _ _ _ Hh M HG Hp Hr' HF' Hlt) as [Hr2 HF2].
    exists a2, NodeUpdated. split_and!; [done | done |].
    eexists _, _. split_and!; [done | done | apply canon_branch_set; [done | lia | done] | done |].
    apply updates_branch; [done | done |]. intros k Hk. rewrite Hc. by apply Hu.
  - destruct P as (j & m' & c' & G' & -> & -> & Hnib & Hr' & HG' & HiG & Hc' & Hb & Hu).
    destruct (adopt_branch remotes a2 i j b ptrs cs (Z.to_nat x) R nib c' G' m') as (a3 & E & M3 & F' & Hr3 & HF3);
      [by eapply modifies_arrays | done | done | clear - HG' HG; set_solver | done | done |].
    rewrite Z2Nat.id in E by (unfold nibble in *; lia). rewrite E. exists a3, NodeUpdated. split; [done |]. split.
    + eapply modifies_trans; [done | done | clear - HG'; set_solver].
    + exists (TBranch (<[Z.to_nat x := Some (absorb [nib] c')]> cs)), F'. split_and!; [done | | | done |].
      * pose proof (unused_grows _ _ (proj1 M)) as Hun. clear - HF3 HG' Hun. set_solver.
      * apply canon_branch_set; [done | lia |]. apply (canon_absorb m' [nib]); [done | by constructor | done].
      * apply updates_branch; [done | done |]. intros k Hk. rewrite Hc. simpl. rewrite tget_absorb by done. by apply Hu.
Qed.

Lemma delete_leaf fuel a i pw key kr vr k w F n : arrays_ok a -> rep a (Local i) (TLeaf k w) F ->
  nodes a !! i = Some (Leaf kr vr) -> slice (keys a) kr = Some k -> slice (values a) vr = Some w ->
  exists a' r, delete_walk (S fuel) a i pw key = Some (a', r) /\ modifies F a a'
    /\ rep a' (Local i) (TLeaf k w) F /\ hashed_nodes a' !! i = Some false
    /\ delete_result a a' i (TLeaf k w) F n (drop pw key) r.
Proof.
  intros Ha Hr Hn Hk Hw. pose proof (rep_local _ _ _ _ _ Hr) as Hi. simpl.
  rewrite Hn, (set_hashed_false _ _ _ _ _ Ha Hr). simpl. rewrite Hk.
  assert (modifies F a (unhash a i)) as M
    by (eapply modifies_weaken; [apply unhash_modifies | clear - Hi; set_solver]).
  pose proof (rep_unhash _ _ _ _ _ Ha Hr) as Hr1. pose proof (unhash_hashed _ _ _ _ _ Ha Hr) as Hf.
  case_decide as E.
  - eexists _, _. split; [done |]. split_and!; [by eapply modifies_add, push_walk_modifies | | done |].
    + eapply rep_modifies; [apply push_walk_modifies | clear; set_solver | done].
    + simpl. rewrite decide_True by done. rewrite Hw. split_and!; [done | by eexists |].
      exists [(i, 0%Z)], (push_walk (unhash a i) i 0%Z), NodeDeleted. split; [done |]. simpl.
      unfold remove_child. simpl. rewrite Hn. split_and!; [done | apply modifies_refl | done | exists w; by rewrite E].
  - eexists _, _. split; [done |]. split_and!; [done | done | done |]. simpl. by rewrite decide_False.
Qed.

(** The result of a step below, one node up. *)
Lemma walk_back_snoc seg i x a a2 res a3 res' : walk_back (rev seg) a NodeDeleted = Some (a2, res) ->
  walk_back_step a2 res i x = Some (a3, res') ->
  walk_back (rev ((i, x) :: seg)) a NodeDeleted = Some (a3, res').
Proof. intros E1 E2. simpl. rewrite walk_back_app, E1. simpl. by rewrite E2. Qed.

(** The way back through an extension. *)
Lemma ext_back a i kr k cs G i' key m a2 res : arrays_ok a -> valid a (inl i) ->
  nodes a !! i = Some (Extension kr (Local i')) -> slice (keys a) kr = Some k ->
  hashed_nodes a !! i = Some false -> inl i ∉ G -> Forall nibble k -> k <> [] ->
  canon m (TBranch cs) -> modifies G a a2 -> delete_post a a2 i' (TBranch cs) G m key res ->
  exists a3 res', walk_back_step a2 res i 0%Z = Some (a3, res') /\ modifies ({[inl i]} ∪ G) a a3
    /\ delete_post a a3 i (TExt k (TBranch cs)) ({[inl i]} ∪ G) (length k + m) (k ++ key) res'.
Proof.
  intros Ha Hv Hn Hk Hf HiG Hkn Hkne Hc M P. destruct (proj2 M _ Hv HiG) as (En & Eh & _).
  rewrite Hn in En. rewrite Hf in Eh.
  assert (slice (keys a2) kr = Some k) as Hk2 by (eapply slice_prefix; [done | apply M]).
  assert (modifies ({[inl i]} ∪ G) a a2) as M1 by (eapply modifies_weaken; [done | clear; set_solver]).
  destruct res as [| | nib p]; simpl in P; unfold walk_back_step.
  - by destruct P as [_ [w ?]].
  - destruct P as (T' & F' & Hr' & HF' & Hc' & Hb & Hu). exists a2, NodeUpdated. split_and!; [done | done |].
    assert (inl i ∉ F') as HiF by (intros [?|?]%HF'%elem_of_union; [done | by eapply valid_unused]).
    destruct T' as [| | | cs']; try (by destruct Hb).
    exists (TExt k (TBranch cs')), ({[inl i]} ∪ F'). split_and!; [| clear - HF'; set_solver | | done | by apply updates_ext].
    + eapply rep_ext; [done | done | done | done | done | by apply hash_ok_false].
    + by eapply canon_ext.
  - destruct P as (j & m' & c & G' & -> & -> & Hnib & Hr' & HG' & _ & Hc' & _ & Hu).
    destruct (merge_into remotes a2 i j nib c G' m') with (kr := kr) (k := k) as (orphan & Ho & P);
      [by eapply valid_grows; [apply M |] | done | done | clear - HG' HiG; set_solver | done | done |].
    unfold adopt_orphan. simpl as_local. cbv iota. rewrite En, Ho.
    assert (exists a', (match orphan with
      | Leaf orphan_key value => let! (t, new_key) := merge_keys a2 kr nib orphan_key in set_node t i (Leaf new_key value)
      | Extension orphan_key next => let! (t, new_key) := merge_keys a2 kr nib orphan_key in set_node t i (Extension new_key next)
      | Branch _ => let! (t, new_key) := merge_keys a2 kr nib empty_range in set_node t i (Extension new_key (Local j))
      | Null => None end) = Some a' /\ absorbed remotes a2 a' i (k ++ [nib]) c G') as (a' & E & M' & F' & Hr2 & HF).
    { destruct orphan; [exact P | exact P | exact (proj1 P) | done]. }
    exists a', NodeUpdated. split; [| split].
    + destruct orphan; cbv beta iota in E |- *; [by rewrite E.. | done].
    + eapply modifies_trans; [done | done | clear; set_solver].
    + exists (absorb (k ++ [nib]) c), F'. split_and!; [done | clear - HF HG'; set_solver | | done |].
      * replace (length k + S m')%nat with (length (k ++ [nib]) + m')%nat by (rewrite length_app; simpl; lia).
        apply canon_absorb; [done | apply Forall_app; split; [done | by constructor] | by destruct k].
      * intros k' Hk'. rewrite tget_absorb by (by destruct k). rewrite tget_mk_ext_mk_ext.
        rewrite <- (updates_ext _ k key None _ _ Hu k' Hk'). by destruct k.
Qed.

Lemma delete_ext fuel a i pw key kr p k cs G F n m : delete_ok fuel -> arrays_ok a ->
  rep a (Local i) (TExt k (TBranch cs)) F -> nodes a !! i = Some (Extension kr p) ->
  slice (keys a) kr = Some k -> rep a p (TBranch cs) G -> inl i ∉ G -> F ≡ {[inl i]} ∪ G ->
  Forall nibble k -> k <> [] -> canon m (TBranch cs) -> n = (length k + m)%nat ->
  key_of n (drop pw key) -> (n < S fuel)%nat ->
  exists a' r, delete_walk (S fuel) a i pw key = Some (a', r) /\ modifies F a a'
    /\ rep a' (Local i) (TExt k (TBranch cs)) F /\ hashed_nodes a' !! i = Some false
    /\ delete_result a a' i (TExt k (TBranch cs)) F n (drop pw key) r.
Proof.
  intros IH Ha Hr Hn Hk Hp HiG EF Hkn Hkne Hc Hm Hkey Hfuel.
  pose proof (rep_local _ _ _ _ _ Hr) as Hi. pose proof (rep_valid _ _ _ _ _ Hr _ Hi) as Hv.
  pose proof (slice_Some _ _ _ Hk) as (_ & _ & Hkl).
  simpl. rewrite Hn, (set_hashed_false _ _ _ _ _ Ha Hr). simpl. rewrite Hk.
  assert (modifies F a (unhash a i)) as M0
    by (eapply modifies_weaken; [apply unhash_modifies | clear - Hi; set_solver]).
  pose proof (rep_unhash _ _ _ _ _ Ha Hr) as Hr1. pose proof (unhash_hashed _ _ _ _ _ Ha Hr) as Hf.
  destruct (starts_with (drop pw key) k) eqn:Es.
  2: { eexists _, _. split; [done |]. split_and!; [done | done | done |]. simpl. by rewrite Es. }
  apply starts_with_spec in Es as [rest Es]. set (a1 := push_walk (unhash a i) i 0%Z).
  assert (modifies {[inl i]} a a1) as M1 by (eapply modifies_add; [apply unhash_modifies | apply push_walk_modifies]).
  assert (modifies F a a1) as M1F by (eapply modifies_weaken; [done | clear - Hi; set_solver]).
  assert (rep a1 (Local i) (TExt k (TBranch cs)) F) as Hr1'
    by (eapply rep_modifies; [apply push_walk_modifies | clear; set_solver | done]).
  destruct p as [i' | r].
  2: { eexists _, _. split; [done |]. split_and!; [done | done | done |]. simpl. inversion Hp; subst. by intros ->. }
  assert (drop (pw + range_len kr) key = rest) as Er by (by rewrite <- drop_drop, Es, <- Hkl, drop_app_length).
  assert (rep a1 (Local i') (TBranch cs) G) as Hp1
    by (eapply (rep_modifies remotes a _ _ _ _ {[inl i]}); [done | clear - HiG; set_solver | done]).
  rewrite Es, Hm, key_of_app in Hkey by done. destruct Hkey as [_ Hrest].
  destruct (IH a1 i' (pw + range_len kr)%nat key (TBranch cs) G m) as (a' & r & -> & M & Hr' & _ & P); try done.
  { by eapply modifies_arrays. } { by right. } { by rewrite Er. } { destruct k; [done | simpl in *; lia]. }
  rewrite Er in P. destruct (proj2 M (inl i) Hv HiG) as (En & Eh & _).
  assert (rep a' (Local i) (TExt k (TBranch cs)) F) as Hri.
  { eapply rep_ext; [by rewrite En | eapply slice_prefix; [| apply M]; done | done | done | done |].
    apply hash_ok_false. by rewrite Eh. }
  exists a', r. split; [done |]. split_and!; [| done | by rewrite Eh |].
  { eapply modifies_trans; [done | done | rewrite EF; clear; set_solver]. }
  rewrite Es. destruct r as [old | [e |]]; simpl in P |- *; [| done |].
  - destruct P as (Hold & Hsome & seg & a2 & res & Hw & Hback & M2 & Hpost).
    rewrite starts_with_app, drop_app_length. split_and!; [done | done |].
    destruct (ext_back a' i kr k cs G i' rest m a2 res) as (a3 & res' & E3 & M3 & P3); try done.
    { by eapply modifies_arrays; [| eapply modifies_arrays]. }
    { by eapply valid_grows; [apply M |]. } { by rewrite En. }
    { eapply slice_prefix; [| apply M]. done. } { by rewrite Eh. }
    exists ((i, 0%Z) :: seg), a3, res'. split_and!.
    + rewrite Hw. simpl. by rewrite <- app_assoc.
    + by eapply walk_back_snoc.
    + by rewrite EF.
    + rewrite Hm. by rewrite EF.
  - by rewrite starts_with_app, drop_app_length.
Qed.


(** The descent into a child of a branch whose other child, if there is only
    one, is loaded. *)
Lemma delete_descend fuel a a1 i pw key x b ptrs cs i' c R G F m : delete_ok fuel -> arrays_ok a1 ->
  modifies F a a1 -> walk_path a1 = walk_path a ++ [(i, x)] -> drop pw key = x :: drop (S pw) key ->
  branch_hole a1 i b ptrs cs (Z.to_nat x) R -> rep a1 (Local i') c G -> G ## R -> F ≡ G ∪ R ->
  child ptrs (Z.to_nat x) = Some (Local i') -> child cs (Z.to_nat x) = Some c -> nibble x ->
  canon (S m) (TBranch cs) -> key_of m (drop (S pw) key) -> (m < fuel)%nat ->
  (count_children ptrs = 2%nat -> forall j r, j <> Z.to_nat x -> child ptrs j <> Some (Remote r)) ->
  exists a' r, delete_walk fuel a1 i' (S pw) key = Some (a', r) /\ modifies F a a'
    /\ rep a' (Local i) (TBranch cs) F /\ hashed_nodes a' !! i = Some false
    /\ delete_result a a' i (TBranch cs) F (S m) (drop pw key) r.
Proof.
  intros IH Ha M1 Hw1 Ed Hh Hr HG EF Hp Hc Hx Hcn Hk Hfuel Hloc.
  inversion Hcn as [| | m' cs' i1 i2 Hl _ _ _ Hcs]; subst.
  destruct (IH a1 i' (S pw) key c G m) as (a' & r & -> & M & Hr' & _ & P); try done.
  { right. by eapply Hcs. }
  assert (branch_hole a' i b ptrs cs (Z.to_nat x) R) as Hh' by by eapply hole_frame.
  assert (modifies F a a') as MF by (eapply modifies_trans; [done | done | rewrite EF; clear; set_solver]).
  assert (rep a' (Local i) (TBranch cs) F) as HrT.
  { rewrite EF. rewrite <- (list_insert_id cs (Z.to_nat x) (Some c)) at 1 by by apply child_Some.
    eapply hole_close; [done | by rewrite Hp | done | unfold nibble in *; lia]. }
  exists a', r. split_and!; [done | done | done | by destruct Hh' as (Fs & _ & ? & _) |]. rewrite Ed.
  destruct r as [old | [e |]]; [| done |].
  - destruct P as (Hold & Hsome & seg & a2 & res & Hw & Hback & M2 & Hpost).
    unfold delete_result. rewrite tget_branch, Hc. split_and!; [done | done |].
    destruct (branch_back a' i b ptrs cs x R G c i' (drop (S pw) key) m a2 res) as (a3 & res' & E3 & M3 & P3); try done.
    { exact (modifies_arrays _ _ _ M Ha). }
    exists ((i, x) :: seg), a3, res'. split_and!; [| by eapply walk_back_snoc | by rewrite EF | by rewrite EF].
    rewrite Hw, Hw1. by rewrite <- app_assoc.
  - unfold delete_result. by rewrite tget_branch, Hc.
Qed.

Lemma delete_branch fuel a i pw key b cs F m : delete_ok fuel -> arrays_ok a ->
  rep a (Local i) (TBranch cs) F -> nodes a !! i = Some (Branch b) -> canon (S m) (TBranch cs) ->
  key_of (S m) (drop pw key) -> (S m < S fuel)%nat ->
  exists a' r, delete_walk (S fuel) a i pw key = Some (a', r) /\ modifies F a a'
    /\ rep a' (Local i) (TBranch cs) F /\ hashed_nodes a' !! i = Some false
    /\ delete_result a a' i (TBranch cs) F (S m) (drop pw key) r.
Proof.
  intros IH Ha Hr Hn Hc Hkey Hfuel. pose proof (rep_local _ _ _ _ _ Hr) as Hi.
  cbn [delete_walk]. rewrite Hn, (set_hashed_false _ _ _ _ _ Ha Hr).
  destruct (key_of_drop _ _ _ Hkey) as (x & Hkx & Hx & Ed & Hk'). rewrite decide_False.
  2: { apply lookup_lt_Some in Hkx. lia. }
  rewrite Hkx. set (a1 := push_walk (unhash a i) i x). cbv zeta.
  assert (modifies {[inl i]} a a1) as M1 by (eapply modifies_add; [apply unhash_modifies | apply push_walk_modifies]).
  assert (modifies F a a1) as M1F by (eapply modifies_weaken; [done | clear - Hi; set_solver]).
  assert (rep a1 (Local i) (TBranch cs) F) as Hr1.
  { eapply rep_modifies; [apply push_walk_modifies | clear; set_solver | by apply rep_unhash]. }
  assert (hashed_nodes a1 !! i = Some false) as Hf by by eapply (unhash_hashed remotes).
  assert (arrays_ok a1) as Ha1 by by eapply modifies_arrays.
  destruct (hole_open _ _ _ _ _ (Z.to_nat x) Hr1 Hf) as (b' & ptrs & R & G & Hn' & Ht & Hh & Hopt & EF & Hd).
  assert (b' = b) as -> by (change (nodes a !! i = Some (Branch b')) in Hn'; congruence).
  inversion Hc as [| | m' cs' i1 i2 Hl Hi12 Hi1 Hi2 Hcs]; subst.
  assert (length ptrs = 16%nat) as Hlp by (destruct Hh as (_ & _ & _ & _ & -> & _); done).
  pose proof (hole_shape _ _ _ _ _ _ _ _ Hh Hopt) as Hshape.
  unfold get_child. rewrite Ht, (child_lookup ptrs) by (unfold nibble in *; lia).
  unfold rep_opt in Hopt. destruct (child ptrs (Z.to_nat x)) as [p |] eqn:Ep,
    (child cs (Z.to_nat x)) as [c |] eqn:Ec; try done.
  2: { eexists a1, _. split; [done |]. split_and!; [done | done | done |]. rewrite Ed.
       unfold delete_result. by rewrite tget_branch, Ec. }
  destruct p as [i' | r].
  2: { eexists a1, _. split; [done |]. split_and!; [done | done | done |]. simpl. inversion Hopt; subst. by intros ->. }
  case_decide as E2.
  - assert (exists j q, j <> Z.to_nat x /\ child ptrs j = Some q) as (j0 & q0 & Hj0 & Hq0).
    { rewrite <- Hshape in Hi1, Hi2. destruct (decide (i1 = Z.to_nat x)) as [-> | Hne]; [exists i2 | exists i1].
      - destruct Hi2 as [q Hq]. by exists q.
      - destruct Hi1 as [q Hq]. by exists q. }
    destruct (find_child_is_Some (fun nib => negb (Z.of_nat nib =? x)%Z) 0 ptrs j0 q0 Hq0) as [[j q] Ef].
    { simpl. apply negb_true_iff, Z.eqb_neq. lia. }
    rewrite Ef. apply find_child_Some in Ef as (_ & Ej & Hjx). rewrite Nat.sub_0_r in Ej.
    apply negb_true_iff, Z.eqb_neq in Hjx. assert (j <> Z.to_nat x) as Hj by (unfold nibble in *; lia).
    destruct q as [j' | r]; simpl is_remote; cbv iota.
    + eapply delete_descend; try done; [lia |]. intros _ j1 r Hj1 Er.
      assert (j1 = j) as -> by (eapply (count_2_unique ptrs (Z.to_nat x)); [done | by eexists | done | done | by eexists | by eexists]).
      congruence.
    + eexists a1, _. split; [done |]. split_and!; [done | done | done |]. simpl.
      destruct (hole_child _ _ _ _ _ _ _ j (Remote r) Hh Hj Ej) as (c' & G' & _ & Hr' & _).
      inversion Hr'; subst. by intros ->.
  - eapply delete_descend; try done. lia.
Qed.

Lemma delete_walk_spec fuel : delete_ok fuel.
Proof.
  induction fuel as [| fuel IH]; intros a i pw key T F n Ha Hr Hc Hkey Hfuel; [lia |].
  pose proof (rep_local _ _ _ _ _ Hr) as Hi.
  inversion Hr as [| i' F' Hn | | |]; subst.
  - exists (unhash a i), (Err Del_KeyNotFound). cbn [delete_walk].
    rewrite Hn, (set_hashed_false _ _ _ _ _ Ha Hr). split; [done |]. split_and!; [| by apply rep_unhash | by eapply (unhash_hashed remotes) | done].
    eapply modifies_weaken; [apply unhash_modifies | clear - Hi; set_solver].
  - by eapply delete_leaf.
  - destruct Hc as [| Hc]; [done |]. inversion Hc; subst. by eapply delete_ext.
  - destruct Hc as [| Hc]; [done |]. inversion Hc; subst. by eapply delete_branch.
Qed.

End deletion.
