(* ===== verification/TrieHashSpec.v ===== *)
(** * Hashing the sparse trie and reading proofs from it

    Only nodes that are not marked as hashed are encoded again, in any order of
    independent children; the root hash is that of the full trie, and a proof
    holds the encodings of the full trie along the path. *)

From S2P Require Import Prelude SparseTrie TrieModel TrieRep TrieSplit TrieInsertSpec.

(** ** How many nodes a set of cells has *)
Definition at_most (k : nat) (F : propset cell) : Prop :=
  forall l : list nat, NoDup l -> (forall j, j ∈ l -> inl j ∈ F) -> (length l <= k)%nat.

Lemma at_most_valid a F : (forall x, x ∈ F -> valid a x) -> at_most (length (nodes a)) F.
Proof.
  intros Hv l Hnd Hl. rewrite <- (length_seq (length (nodes a)) 0). apply submseteq_length, NoDup_submseteq; [done |].
  intros j Hj. apply elem_of_seq. specialize (Hv _ (Hl j Hj)). simpl in Hv. lia.
Qed.

Lemma at_most_below k i F G : at_most (S k) F -> inl i ∈ F -> inl i ∉ G -> G ⊆ F -> at_most k G.
Proof.
  intros Hk Hi HiG HG l Hnd Hl. enough (length (i :: l) <= S k)%nat by (simpl in *; lia). apply Hk.
  - constructor; [| done]. intros Hil. by apply HiG, Hl.
  - intros j [-> | Hj]%elem_of_cons; [done |]. by apply HG, Hl.
Qed.

Lemma at_most_0 i F : at_most 0 F -> inl i ∈ F -> False.
Proof.
  intros H0 Hi. enough (length [i] <= 0)%nat by (simpl in *; lia). apply H0; [apply NoDup_singleton |].
  by intros j ->%list_elem_of_singleton.
Qed.

(** Hashing changes marks and pointers only. *)
Definition same_shape (a a' : Trie) : Prop :=
  nodes a' = nodes a /\ branch_node_children a' = branch_node_children a /\ keys a' = keys a
  /\ values a' = values a.

Definition all_hashed (a : Trie) (F : propset cell) : Prop :=
  forall j, inl j ∈ F -> hashed_nodes a !! j = Some true.

Lemma all_hashed_modifies a a' F G : arrays_ok a -> modifies G a a' -> G ## F -> all_hashed a F -> all_hashed a' F.
Proof.
  intros [Ha _] M HGF Hh j Hj. pose proof (Hh _ Hj) as E. apply lookup_lt_Some in E as Hlt. rewrite Ha in Hlt.
  destruct (proj2 M (inl j) Hlt) as (_ & -> & _); [clear - HGF Hj; set_solver | done].
Qed.

Section hash.
Context `{TrieCodec} (ps : ProofStore).
Abbreviation rep := (rep (ps_rlp_ptrs ps)).

Lemma rep_remote_empty a r c F : rep a (Remote r) c F -> F ≡ ∅.
Proof. by inversion 1. Qed.

Lemma rep_pointer a p c F : rep a p c F -> all_hashed a F -> child_rlp_ptr a ps p = Some (tptr c).
Proof.
  intros Hr Hall. destruct p as [i | r]; simpl.
  - pose proof (rep_local _ _ _ _ _ Hr) as Hi. specialize (Hall _ Hi).
    inversion Hr as [| ? ? ? ? Hh | ? ? ? ? ? ? ? ? ? ? Hh | ? ? ? ? ? ? ? ? ? ? ? ? Hh | ? ? ? ? ? ? ? ? ? ? ? ? ? ? ? Hh];
      subst; by apply Hh.
  - by inversion Hr.
Qed.

Lemma encode_children a ptrs cs Fs : length ptrs = length cs ->
  (forall n, child ptrs n = None <-> child cs n = None) ->
  (forall n p c, child ptrs n = Some p -> child cs n = Some c -> rep a p c (Fs n) /\ all_hashed a (Fs n)) ->
  children_rlp_ptrs a ps ptrs = Some ((fun c : option tree => tptr <$> c) <$> cs).
Proof.
  intros Hl Hd Hr. apply mapM_Some_2, Forall2_same_length_lookup_2; [by rewrite length_fmap |].
  intros n op oc Hp Hc. rewrite list_lookup_fmap in Hc. destruct (cs !! n) as [c |] eqn:Ec; [| done].
  simpl in Hc. injection Hc as <-.
  assert (child ptrs n = op) as Ep by (unfold child; by rewrite Hp).
  assert (child cs n = c) as Ecn by (unfold child; by rewrite Ec).
  destruct op as [p |], c as [c |]; simpl.
  - destruct (Hr n p c Ep Ecn) as [Hr' Hh]. by rewrite (rep_pointer _ _ _ _ Hr' Hh).
  - apply Hd in Ecn. congruence.
  - apply Hd in Ep. congruence.
  - done.
Qed.

(** What a node below which all is hashed is encoded to. *)
Lemma rlp_encode_spec a i T F : rep a (Local i) T F ->
  (forall j, inl j ∈ F -> j <> i -> hashed_nodes a !! j = Some true) ->
  rlp_encode_node a ps i = Some (tenc T).
Proof.
  intros Hr Hall. unfold rlp_encode_node.
  inversion Hr as [| i' F' Hn | i' kr vr k v F' Hn Hk Hv | i' kr p k T' F' G Hn Hk Hp Hi EF |
    i' b ptrs cs Fs F' Hn Ht Hl Hd He Hc Hi Hdisj EF]; subst; rewrite Hn.
  - done.
  - by rewrite Hk, Hv.
  - rewrite Hk, (rep_pointer a p T' G Hp); [done |]. intros j Hj. apply Hall; [set_solver | by intros ->].
  - rewrite Ht, (encode_children a ptrs cs Fs Hl Hd); [done |]. intros n p c Ep Ec. split; [by apply Hc |].
    intros j Hj. apply Hall.
    + apply EF. right; right. by exists n.
    + intros ->. by destruct (Hi n).
Qed.

Lemma set_pointer_modifies a i ptr : modifies {[inl i]} a (set_pointer a i ptr).
Proof.
  split; [split; try done; unfold arrays_ok; simpl; by rewrite !length_insert |].
  intros [j | b] _ Hx; simpl; [| done]. rewrite !list_lookup_insert_ne by set_solver. done.
Qed.

(** The node itself is hashed last. *)
Lemma calculate_spec a i T F : arrays_ok a -> rep a (Local i) T F ->
  (forall j, inl j ∈ F -> j <> i -> hashed_nodes a !! j = Some true) ->
  exists a', calculate_rlp_pointer_node a ps i = Some a' /\ modifies F a a' /\ same_shape a a'
    /\ rep a' (Local i) T F /\ all_hashed a' F.
Proof.
  intros [Ha1 Ha2] Hr Hall. unfold calculate_rlp_pointer_node.
  rewrite (rlp_encode_spec _ _ _ _ Hr Hall), rlp_pointer_fits. eexists. split; [done |].
  set (a' := set_pointer a i _). pose proof (rep_local _ _ _ _ _ Hr) as Hi.
  pose proof (rep_valid _ _ _ _ _ Hr _ Hi) as Hv. simpl in Hv.
  pose proof (set_pointer_modifies a i (rlp_pointer (tenc T))) as M.
  assert (all_hashed a' F) as Hall'.
  { intros j Hj. simpl. destruct (decide (j = i)) as [-> | Hne]; [apply list_lookup_insert_eq; lia |].
    rewrite list_lookup_insert_ne by done. auto. }
  assert (hash_ok a' i T F) as Hok by (intros _; split; [simpl; apply list_lookup_insert_eq; lia | done]).
  split_and!; [eapply modifies_weaken; [done | clear - Hi; set_solver] | done | | done].
  inversion Hr as [| i' F' Hn EF | i' kr vr k v F' Hn Hk Hvr EF | i' kr p k T' F' G Hn Hk Hp HiG EF |
    i' b ptrs cs Fs F' Hn Ht Hl Hd He Hc HiFs Hdisj EF]; subst.
  - by constructor.
  - by econstructor.
  - econstructor; [done | done | | done | done | done]. eapply rep_modifies; [done | clear - HiG; set_solver | done].
  - econstructor; [done | done | done | done | done | | done | done | done | done].
    intros n p c Ep Ec. eapply rep_modifies; [done | | by apply Hc]. specialize (HiFs n). clear - HiFs. set_solver.
Qed.

Lemma same_shape_trans a b c : same_shape a b -> same_shape b c -> same_shape a c.
Proof. intros (? & ? & ? & ?) (? & ? & ? & ?). split_and!; by etrans. Qed.

Context (schedule : list nat -> list nat) (parallel : bool).
Hypothesis Hschedule : forall l, schedule l ≡ₚ l.

Lemma hashing_order_perm l : hashing_order schedule parallel l ≡ₚ l.
Proof. unfold hashing_order. by destruct (_ || _). Qed.

Abbreviation hash_node := (root_hash_node schedule parallel ps).
Abbreviation hash_ok_at fuel := (forall a i T F, arrays_ok a -> rep a (Local i) T F -> at_most fuel F ->
  exists a', hash_node fuel a i = Some a' /\ modifies F a a' /\ same_shape a a'
    /\ rep a' (Local i) T F /\ all_hashed a' F).

(** Children in any order: each leaves those already hashed alone. *)
Lemma hash_children fuel ptrs cs Fs l : hash_ok_at fuel ->
  (forall n m, n <> m -> Fs n ## Fs m) -> (forall n, at_most fuel (Fs n)) ->
  (forall j, j ∈ l -> exists n, child ptrs n = Some (Local j)) ->
  (forall n, child ptrs n = None <-> child cs n = None) ->
  forall a, arrays_ok a -> (forall n p c, child ptrs n = Some p -> child cs n = Some c -> rep a p c (Fs n)) ->
  exists a', foldl (fun o j => let! t := o in hash_node fuel t j) (Some a) l = Some a'
    /\ modifies {[ x | exists n, x ∈ Fs n ]} a a' /\ same_shape a a'
    /\ (forall n p c, child ptrs n = Some p -> child cs n = Some c -> rep a' p c (Fs n))
    /\ (forall n, all_hashed a (Fs n) -> all_hashed a' (Fs n))
    /\ (forall n j, j ∈ l -> child ptrs n = Some (Local j) -> all_hashed a' (Fs n)).
Proof.
  intros IH Hdisj Hmost Hl Hd. induction l as [| j l IHl]; intros a Ha Hr.
  - exists a. split_and!; try done; [apply modifies_refl |]. by intros n j ?%elem_of_nil.
  - destruct (Hl j) as [n Hn]; [by left |]. destruct (child cs n) as [c |] eqn:Ec; [| apply Hd in Ec; congruence].
    destruct (IH a j c (Fs n) Ha (Hr _ _ _ Hn Ec) (Hmost n)) as (a1 & E1 & M1 & S1 & Hr1 & H1).
    assert (forall n' p c', child ptrs n' = Some p -> child cs n' = Some c' -> rep a1 p c' (Fs n')) as Hr'.
    { intros n' p c' Hp Hc'. destruct (decide (n' = n)) as [-> | Hne]; [congruence |].
      eapply rep_modifies; [done | by apply Hdisj | by apply Hr]. }
    destruct (IHl ltac:(intros j' Hj'; apply Hl; by right) a1 (modifies_arrays _ _ _ M1 Ha) Hr')
      as (a' & E' & M' & S' & Hr2 & Hmono & Hdone).
    simpl. rewrite E1. exists a'. split; [done |]. split_and!; [| by eapply same_shape_trans | done | |].
    + eapply modifies_trans; [eapply modifies_weaken; [done |] | done | clear; set_solver].
      intros x Hx. apply elem_of_PropSet. by exists n.
    + intros n' Hh. apply Hmono. destruct (decide (n' = n)) as [-> | Hne]; [done |].
      eapply all_hashed_modifies; [done | done | by apply Hdisj | done].
    + intros n' j' [-> | Hj']%elem_of_cons Hn'; [| by eapply Hdone].
      destruct (decide (n' = n)) as [-> | Hne]; [by apply Hmono |].
      destruct (child cs n') as [c' |] eqn:Ec'; [| apply Hd in Ec'; congruence].
      pose proof (rep_local _ _ _ _ _ (Hr _ _ _ Hn Ec)) as X1.
      pose proof (rep_local _ _ _ _ _ (Hr _ _ _ Hn' Ec')) as X2. by destruct (Hdisj n' n Hne (inl j)).
Qed.

Lemma local_children_elem ptrs j : j ∈ local_children ptrs <-> exists n, child ptrs n = Some (Local j).
Proof.
  unfold local_children. rewrite list_elem_of_omap. split.
  - intros (o & [n Hn]%list_elem_of_lookup & Ho). exists n. unfold child. rewrite Hn.
    destruct o as [[i | r] |]; by simplify_eq/=.
  - intros [n Hn]. apply child_Some in Hn. exists (Some (Local j)). split; [by eapply list_elem_of_lookup_2 | done].
Qed.

Lemma rep_same_shape a a' i : same_shape a a' -> nodes a' !! i = nodes a !! i.
Proof. by intros (-> & _). Qed.

(** Rebuilding a node whose children were hashed; it is not hashed itself. *)
Lemma root_hash_node_spec fuel : hash_ok_at fuel.
Proof.
  induction fuel as [| fuel IH]; intros a i T F Ha Hr Hmost.
  { destruct (at_most_0 i F Hmost). by eapply rep_local. }
  pose proof (rep_local _ _ _ _ _ Hr) as Hi. pose proof (rep_valid _ _ _ _ _ Hr _ Hi) as Hv. simpl in Hv. simpl.
  destruct (lookup_lt_is_Some_2 (hashed_nodes a) i) as [h Hh]; [destruct Ha; lia |]. rewrite Hh.
  destruct h.
  { exists a. split_and!; [done | apply modifies_refl | done | done |]. intros j Hj.
    inversion Hr as [| ? ? ? ? Ho | ? ? ? ? ? ? ? ? ? ? Ho | ? ? ? ? ? ? ? ? ? ? ? ? Ho | ? ? ? ? ? ? ? ? ? ? ? ? ? ? ? Ho];
      subst; by apply Ho. }
  inversion Hr as [| i' F' Hn EF | i' kr vr k v F' Hn Hk Hvr EF | i' kr p k T' F' G Hn Hk Hp HiG EF |
    i' b ptrs cs Fs F' Hn Ht Hl Hd He Hc HiFs Hdisj EF]; subst; rewrite Hn.
  - apply calculate_spec; [done | done |]. intros j Hj Hne. clear - EF Hj Hne. set_solver.
  - apply calculate_spec; [done | done |]. intros j Hj Hne. clear - EF Hj Hne. set_solver.
  - assert (exists a1, (match p with Local child => hash_node fuel a child | Remote _ => Some a end) = Some a1
      /\ modifies G a a1 /\ same_shape a a1 /\ rep a1 p T' G /\ all_hashed a1 G) as (a1 & E1 & M1 & S1 & Hp1 & H1).
    { destruct p as [c | r].
      - apply IH; [done | done |]. eapply (at_most_below fuel i F G); [done | done | done | rewrite EF; clear; set_solver].
      - exists a. split_and!; [done | apply modifies_refl | done | done |]. intros j Hj.
        by apply (rep_remote_empty _ _ _ _ Hp) in Hj. }
    assert (rep a1 (Local i) (TExt k T') F) as Hr1.
    { destruct (proj2 M1 _ (rep_valid _ _ _ _ _ Hr _ Hi) HiG) as (En & Eh & _).
      eapply rep_ext; [by rewrite En | eapply slice_prefix; [done | apply M1] | done | done | done |].
      apply hash_ok_false. by rewrite Eh. }
    destruct (calculate_spec a1 i _ _ (modifies_arrays _ _ _ M1 Ha) Hr1) as (a' & E' & M' & S' & Hr' & H').
    { intros j Hj Hne. apply H1. clear - EF Hj Hne. set_solver. }
    exists a'. split_and!; [| | by eapply same_shape_trans | done | done].
    + destruct p as [c | r]; [by rewrite E1 | by injection E1 as ->].
    + eapply modifies_trans; [eapply modifies_weaken; [done | rewrite EF; clear; set_solver] | done | clear; set_solver].
  - rewrite Ht.
    destruct (hash_children fuel ptrs cs Fs (hashing_order schedule parallel (local_children ptrs)) IH Hdisj)
      with (a := a) as (a1 & -> & M1 & S1 & Hr1 & _ & Hdone); try done.
    { intros n. eapply at_most_below; [done | done | by apply HiFs |]. intros x Hx. apply EF. right; right. eauto. }
    { intros j. rewrite hashing_order_perm. apply local_children_elem. }
    assert (rep a1 (Local i) (TBranch cs) F) as Hri.
    { destruct (proj2 M1 _ (rep_valid _ _ _ _ _ Hr _ Hi)) as (En & Eh & _).
      { intros [n Hx]%elem_of_PropSet. by destruct (HiFs n). }
      destruct S1 as (_ & Et & _).
      eapply rep_branch; [by rewrite En | by rewrite Et | done | done | done | done | done | done | done |].
      apply hash_ok_false. by rewrite Eh. }
    destruct (calculate_spec a1 i _ _ (modifies_arrays _ _ _ M1 Ha) Hri) as (a' & E' & M' & S' & Hr' & H').
    { intros j Hj Hne. apply EF in Hj as [? | [? | [n Hj]]]; [congruence | done |].
      destruct (child ptrs n) as [p |] eqn:Ep; [| by apply He in Hj].
      destruct (child cs n) as [c |] eqn:Ec; [| apply Hd in Ec; congruence].
      destruct p as [i' | r].
      - eapply (Hdone n i'); [| done | done]. rewrite hashing_order_perm. apply local_children_elem. eauto.
      - by apply (rep_remote_empty _ _ _ _ (Hc n _ _ Ep Ec)) in Hj. }
    exists a'. split_and!; [done | | by eapply same_shape_trans | done | done].
    eapply modifies_trans; [eapply modifies_weaken; [done |] | done | clear; set_solver].
    intros x [n Hx]%elem_of_PropSet. apply EF. right; right. eauto.
Qed.

End hash.
