(* ===== verification/TrieSpec.v ===== *)
(** * The sparse trie implements a map with a root hash

    [trie_of remotes n a T]: the arrays [a], with pointers [remotes] for what is
    not loaded, represent the full trie [T] with keys of [n] nibbles. *)

From S2P Require Import Prelude SparseTrie TrieModel TrieRep TrieSplit TriePaths TrieInsertSpec TrieMerge TrieDeleteSpec TrieHashSpec.

Section spec.
Context `{TrieCodec}.

Definition trie_of (remotes : list bytes) (n : nat) (a : Trie) (T : tree) : Prop :=
  arrays_ok a /\ canon_root n T /\ exists F, rep remotes a (Local 0) T F.

Lemma new_empty_trie n : trie_of [] n new_empty TNull.
Proof.
  split; [done |]. split; [by left |]. exists {[inl 0%nat]}. apply rep_null; [done | done |]. intros E. done.
Qed.

Lemma insert_nibble_key_spec remotes n a T key v bs :
  trie_of remotes n a T -> key_of n key -> value_of a v = Some bs ->
  exists a' r, insert_nibble_key a key v = Some (a', r)
  /\ match r with
     | Ok old => exists T', trie_of remotes n a' T' /\ updates n key (Some bs) T T'
                   /\ old_value_ok a old (tget T key)
     | Err e => trie_of remotes n a' T /\ e = node_not_found key /\ ~ loaded a (Local 0) T key
     end.
Proof.
  intros (Ha & Hc & F & Hr) Hk Hv. unfold insert_nibble_key.
  destruct (insert_loop_spec remotes (S (length key)) a 0 0 key v T F n bs) as (a' & r & E & M & T' & F' & Hr' & _ & P);
    try done. { destruct Hk. lia. }
  exists a', r. split; [done |]. pose proof (modifies_arrays _ _ _ M Ha) as Ha'. destruct r as [old | e].
  - destruct P as (Hc' & _ & Hu & Ho). exists T'. split_and!; [split_and!; [done | by right | by exists F'] | done | done].
  - destruct P as (-> & -> & Hre). split_and!; [split_and!; [done | done | by exists F'] | done | done].
Qed.

(** The deletion reached the head. *)
Lemma delete_head_spec remotes a a2 T F n key res : arrays_ok a2 -> valid a2 (inl 0%nat) ->
  delete_post remotes a a2 0 T F n key res ->
  exists a' T', delete_head a2 res = Some a' /\ grows a2 a' /\ trie_of remotes n a' T' /\ updates n key None T T'.
Proof.
  intros Ha Hv P. destruct res as [| | nib p]; simpl in P.
  - destruct P as [-> [w ->]]. unfold delete_head.
    destruct (rewrite_node a 0 Null Ha Hv) as (a2 & a3 & -> & -> & M & Hn & Hf & _).
    exists a3, TNull. split_and!; [done | apply M | split_and!; [by eapply modifies_arrays | by left |] |].
    + exists {[inl 0%nat]}. by apply rep_null; [| | apply hash_ok_false].
    + intros k Hk. simpl. case_decide; [done |]. by rewrite decide_False.
  - destruct P as (T' & F' & Hr' & _ & Hc & _ & Hu). exists a2, T'.
    split_and!; [done | apply grows_refl | split_and!; [done | by right | by exists F'] | done].
  - destruct P as (j & m & c & G & -> & -> & Hnib & Hr & _ & HiG & Hc & _ & Hu).
    unfold delete_head. simpl as_local. cbv iota.
    assert (set_hashed a2 0 false = Some (unhash a2 0)) as ->.
    { unfold set_hashed. rewrite decide_True; [done |]. destruct Ha as [-> _]. done. }
    assert (rep remotes (unhash a2 0) (Local j) c G) as Hr1.
    { eapply rep_modifies; [apply unhash_modifies | clear - HiG; set_solver | done]. }
    assert (hashed_nodes (unhash a2 0) !! 0%nat = Some false) as Hf.
    { simpl. apply list_lookup_insert_eq. destruct Ha as [-> _]. done. }
    destruct (merge_into remotes (unhash a2 0) 0 j nib c G m Hv Hf Hr1 HiG Hc empty_range [] (slice_empty _))
      as (orphan & -> & P).
    assert (exists a', (match orphan with
      | Leaf orphan_key value => let! (t, new_key) := merge_keys (unhash a2 0) empty_range nib orphan_key in set_node t 0 (Leaf new_key value)
      | Extension orphan_key next => let! (t, new_key) := merge_keys (unhash a2 0) empty_range nib orphan_key in set_node t 0 (Extension new_key next)
      | Branch _ => let '(t, new_key) := insert_key (unhash a2 0) [nib] in set_node t 0 (Extension new_key (Local j))
      | Null => None end) = Some a' /\ absorbed remotes (unhash a2 0) a' 0 ([] ++ [nib]) c G) as (a' & E & M & F' & Hr' & _).
    { destruct orphan; [exact P | exact P | by apply (proj2 P) | done]. }
    exists a', (absorb [nib] c). split_and!; [done | | split_and! |].
    + eapply grows_trans; [apply (unhash_modifies a2 0) | apply M].
    + eapply modifies_arrays; [done |]. eapply modifies_arrays; [apply unhash_modifies | done].
    + right. apply (canon_absorb m [nib]); [done | by constructor | done].
    + by exists F'.
    + intros k Hk. rewrite tget_absorb by done. by apply Hu.
Qed.

Lemma delete_nibbles_key_spec remotes n a T key :
  trie_of remotes n a T -> key_of n key ->
  exists a' r, delete_nibbles_key a key = Some (a', r)
  /\ match r with
     | Ok old => exists T', trie_of remotes n a' T' /\ updates n key None T T'
                   /\ tget T key = slice (values a') old /\ is_Some (tget T key)
     | Err Del_KeyNotFound => trie_of remotes n a' T /\ tget T key = None
     | Err (Del_NodeNotFound _) => trie_of remotes n a' T /\ remotes <> []
     end.
Proof.
  intros (Ha & Hc & F & Hr) Hk. unfold delete_nibbles_key. set (a0 := with_walk_path a []).
  assert (modifies ∅ a a0) as M0 by (split; [by split | intros [|]; by simpl]).
  destruct (delete_walk_spec remotes (S (length key)) a0 0 0 key T F n) as (a1 & r & -> & M & Hr1 & _ & P);
    [done | eapply rep_modifies; [done | clear; set_solver | done] | done | done | destruct Hk; lia |].
  pose proof (modifies_arrays _ _ _ M Ha) as Ha1. destruct r as [old | [e |]].
  - destruct P as (Hold & Hsome & seg & a2 & res & Hw & Hback & M2 & Hpost). simpl in Hw. rewrite Hw, Hback.
    pose proof (rep_valid _ _ _ _ _ Hr1 _ (rep_local _ _ _ _ _ Hr1)) as Hv.
    destruct (delete_head_spec remotes a1 a2 T F n key res) as (a' & T' & -> & Hg & HT' & Hu);
      [by eapply modifies_arrays | by eapply valid_grows; [apply M2 |] | done |].
    eexists a', _. split; [done |]. exists T'. split_and!; [done | done | | done].
    destruct Hsome as [bs Hbs]. rewrite drop_0 in Hold, Hbs. rewrite Hbs in *. symmetry.
    eapply slice_prefix; [by rewrite <- Hold |]. etrans; [apply M2 | apply Hg].
  - eexists a1, _. split; [done |]. simpl. split; [split_and!; [done | done | by exists F] | exact P].
  - eexists a1, _. split; [done |]. simpl. split; [split_and!; [done | done | by exists F] |]. by rewrite drop_0 in P.
Qed.

Lemma root_hash_spec ps schedule parallel n a T :
  (forall l, schedule l ≡ₚ l) -> trie_of (ps_rlp_ptrs ps) n a T ->
  exists a', root_hash schedule parallel ps a = Some (a', Ok (troot T))
  /\ trie_of (ps_rlp_ptrs ps) n a' T /\ same_shape a a' /\ hashed_nodes a' !! 0%nat = Some true.
Proof.
  intros Hs (Ha & Hc & F & Hr). unfold root_hash. pose proof (rep_local _ _ _ _ _ Hr) as Hi.
  rewrite bool_decide_false.
  2: { intros E. pose proof (rep_valid _ _ _ _ _ Hr _ Hi) as Hv. simpl in Hv. rewrite E in Hv. simpl in Hv. lia. }
  destruct (root_hash_node_spec ps schedule parallel Hs (length (nodes a)) a 0 T F Ha Hr) as (a' & -> & M & Hsh & Hr' & Hall).
  { apply at_most_valid. by eapply rep_valid. }
  rewrite (rlp_encode_spec ps a' 0 T F Hr') by auto. exists a'.
  split_and!; [done | split_and!; [by eapply modifies_arrays | done | by exists F] | done | by apply Hall].
Qed.

(** ** Operations on a full trie *)

(** Without pointers to what is not loaded, everything is. *)
Lemma full_local a p T F : rep [] a p T F ->
  forall path T', tsub T path = Some T' -> local_at a p T path.
Proof.
  induction 1 as [r T F Hr | i F Hn | i kr vr k v F Hn | i kr p k T F G Hn Hk _ IH |
    i b ptrs cs Fs F Hn Ht Hl Hd He _ IH Hi Hdisj EF Hh]; intros path T' Hs; [done | ..];
    (destruct path as [| x path]; [apply local_here |]); [done | done | |].
  - simpl in Hs. destruct (starts_with (x :: path) k) eqn:Es; [| done].
    apply starts_with_spec in Es as [rest Es]. rewrite Es in *. rewrite drop_app_length in Hs.
    eapply local_ext; [done | by eapply IH].
  - rewrite tsub_branch in Hs. destruct (child cs (Z.to_nat x)) as [c |] eqn:Ec; [| done].
    destruct (child ptrs (Z.to_nat x)) as [p |] eqn:Ep; [| apply Hd in Ep; congruence].
    eapply local_branch; [done | done | done | done | by eapply IH].
Qed.

Lemma full_loaded n a T key : trie_of [] n a T -> key_of n key -> loaded a (Local 0) T key.
Proof.
  intros (_ & Hc & F & Hr) Hk. eapply Forall_impl; [by eapply tnodes_subtrees |].
  intros e [_ He]. by eapply full_local.
Qed.

Inductive trie_op :=
| Op_insert (key : nibbles) (value : bytes)
| Op_delete (key : nibbles)
| Op_root_hash (parallel : bool).

Definition op_key_ok (n : nat) (op : trie_op) : Prop :=
  match op with Op_insert key _ | Op_delete key => key_of n key | Op_root_hash _ => True end.

Definition empty_store : ProofStore :=
  {| ps_keys := []; ps_values := []; ps_rlp_ptrs := []; ps_proofs := ∅ |}.

(** A panic or an error other than a missing key is [None]. *)
Definition run_op (schedule : list nat -> list nat) (a : Trie) (op : trie_op) : option Trie :=
  match op with
  | Op_insert key value =>
      match insert_nibble_key a key (Value value) with Some (a, Ok _) => Some a | _ => None end
  | Op_delete key =>
      match delete_nibbles_key a key with
      | Some (a, Ok _) | Some (a, Err Del_KeyNotFound) => Some a
      | _ => None
      end
  | Op_root_hash parallel =>
      match root_hash schedule parallel empty_store a with Some (a, Ok _) => Some a | _ => None end
  end.

Fixpoint run_ops (schedule : list nat -> list nat) (a : Trie) (ops : list trie_op) : option Trie :=
  match ops with
  | [] => Some a
  | op :: ops => let! a := run_op schedule a op in run_ops schedule a ops
  end.

(** The specification: a map. *)
Definition map_op (m : gmap nibbles bytes) (op : trie_op) : gmap nibbles bytes :=
  match op with
  | Op_insert key value => <[key := value]> m
  | Op_delete key => base.delete key m
  | Op_root_hash _ => m
  end.

Definition content (n : nat) (T : tree) (m : gmap nibbles bytes) : Prop :=
  forall k, key_of n k -> tget T k = m !! k.

Lemma run_op_spec schedule n a T m op : (forall l, schedule l ≡ₚ l) -> op_key_ok n op ->
  trie_of [] n a T -> content n T m ->
  exists a' T', run_op schedule a op = Some a' /\ trie_of [] n a' T' /\ content n T' (map_op m op).
Proof.
  intros Hs Hop HT Hm. destruct op as [key value | key | parallel]; simpl in *.
  - destruct (insert_nibble_key_spec [] n a T key (Value value) value HT Hop eq_refl) as (a' & r & -> & P).
    destruct r as [old | e]; [| by destruct P as (_ & _ & []); apply (full_loaded n)]. destruct P as (T' & HT' & Hu & _).
    exists a', T'. split_and!; [done | done |]. intros k Hk. rewrite (Hu k Hk).
    case_decide; [subst; by rewrite lookup_insert_eq | rewrite lookup_insert_ne by done; by apply Hm].
  - destruct (delete_nibbles_key_spec [] n a T key HT Hop) as (a' & r & -> & P).
    destruct r as [old | [e |]]; [| by destruct P |].
    + destruct P as (T' & HT' & Hu & _). exists a', T'. split_and!; [done | done |]. intros k Hk.
      rewrite (Hu k Hk). case_decide; [subst; by rewrite lookup_delete_eq | rewrite lookup_delete_ne by done; by apply Hm].
    + destruct P as (HT' & Hnone). exists a', T. split_and!; [done | done |]. intros k Hk.
      rewrite delete_id; [by apply Hm |]. by rewrite <- (Hm key Hop).
  - destruct (root_hash_spec empty_store schedule parallel n a T Hs HT) as (a' & -> & HT' & _).
    by exists a', T.
Qed.

Lemma run_ops_spec schedule n ops : (forall l, schedule l ≡ₚ l) -> Forall (op_key_ok n) ops ->
  forall a T m, trie_of [] n a T -> content n T m ->
  exists a' T', run_ops schedule a ops = Some a' /\ trie_of [] n a' T' /\ content n T' (foldl map_op m ops).
Proof.
  intros Hs. induction 1 as [| op ops Hop _ IH]; intros a T m HT Hm; simpl; [by eauto |].
  destruct (run_op_spec schedule n a T m op Hs Hop HT Hm) as (a1 & T1 & -> & HT1 & Hm1). by eapply IH.
Qed.

(** ** Keys of bytes *)
Definition byte_key (n : nat) (key : bytes) : Prop := length key = n /\ Forall (fun b => 0 <= b < 256)%Z key.

Lemma unpack_key n key : byte_key n key -> key_of (2 * n) (unpack key).
Proof.
  intros [<- Hb]. unfold key_of, nibble, unpack. induction Hb as [| b key Hb _ [IHl IHn]]; [done |]. csimpl.
  split; [lia |].
  constructor; [| constructor; [| done]]; [split; [apply Z.div_pos; lia | apply Z.div_lt_upper_bound; lia] |].
  apply Z.mod_pos_bound. lia.
Qed.

Lemma unpack_inj key1 key2 : unpack key1 = unpack key2 -> key1 = key2.
Proof.
  unfold unpack. revert key2. induction key1 as [| b1 key1 IH]; intros [| b2 key2]; csimpl; try done.
  intros [= Ed Em Er]. f_equal; [| by apply IH].
  rewrite (Z.div_mod b1 16), (Z.div_mod b2 16), Ed, Em by lia. done.
Qed.

(** C5. Inserting a key of the right length into arrays that represent a canonical
    trie does not panic and ends: either the arrays then represent the
    canonical trie in which exactly this key has the new value, and the old
    value is reported, or a node along the key is not loaded, the key is
    reported and the trie is what it was. *)
Theorem sparse_trie_insert remotes n a T key value :
  trie_of remotes (2 * n) a T -> byte_key n key ->
  exists a' r, SparseTrie.insert a key value = Some (a', r)
  /\ match r with
     | Ok old => exists T', trie_of remotes (2 * n) a' T' /\ old_value_ok a old (tget T (unpack key))
                   /\ forall k, byte_key n k ->
                        tget T' (unpack k) = if decide (k = key) then Some value else tget T (unpack k)
     | Err e => trie_of remotes (2 * n) a' T /\ e = node_not_found (unpack key)
                  /\ ~ loaded a (Local 0) T (unpack key)
     end.
Proof.
  intros HT Hk. destruct (insert_nibble_key_spec remotes (2 * n) a T (unpack key) (Value value) value HT
    (unpack_key _ _ Hk) eq_refl) as (a' & r & E & P). exists a', r. split; [exact E |].
  destruct r as [old | e]; [| exact P]. destruct P as (T' & HT' & Hu & Ho). exists T'. split_and!; [done | done |].
  intros k Hk'. rewrite (Hu _ (unpack_key _ _ Hk')). apply decide_ext. split; [apply unpack_inj | by intros ->].
Qed.

(** C6. Deleting a key of the right length from arrays that represent a canonical
    trie reaches none of the unreachable branches: a key that is present is
    removed, its value reported and the trie is canonical again (branches
    with one child are merged into their parent); an absent key is reported
    as not found; otherwise a node is not loaded, and the trie is what it
    was. *)
Theorem sparse_trie_delete remotes n a T key :
  trie_of remotes (2 * n) a T -> byte_key n key ->
  exists a' r, SparseTrie.delete a key = Some (a', r)
  /\ match r with
     | Ok old => exists T', trie_of remotes (2 * n) a' T'
                   /\ tget T (unpack key) = slice (values a') old /\ is_Some (tget T (unpack key))
                   /\ forall k, byte_key n k ->
                        tget T' (unpack k) = if decide (k = key) then None else tget T (unpack k)
     | Err Del_KeyNotFound => trie_of remotes (2 * n) a' T /\ tget T (unpack key) = None
     | Err (Del_NodeNotFound _) => trie_of remotes (2 * n) a' T /\ remotes <> []
     end.
Proof.
  intros HT Hk. destruct (delete_nibbles_key_spec remotes (2 * n) a T (unpack key) HT (unpack_key _ _ Hk))
    as (a' & r & E & P). exists a', r. split; [exact E |].
  destruct r as [old | e]; [| exact P]. destruct P as (T' & HT' & Hu & Ho & Hs). exists T'. split_and!; [done.. |].
  intros k Hk'. rewrite (Hu _ (unpack_key _ _ Hk')). apply decide_ext. split; [apply unpack_inj | by intros ->].
Qed.

(** The root hash of a sparse trie is a function of its content: two tries that
    stand for the same map, however they were built, whatever parts of them
    are loaded or already hashed, and in whatever order independent nodes
    are hashed, have the same root hash, that of the full canonical trie;
    hashing does not panic and changes neither content nor structure. *)
Theorem root_hash_of_content ps1 ps2 schedule1 schedule2 parallel1 parallel2 n a1 a2 T1 T2 :
  (forall l, schedule1 l ≡ₚ l) -> (forall l, schedule2 l ≡ₚ l) ->
  trie_of (ps_rlp_ptrs ps1) n a1 T1 -> trie_of (ps_rlp_ptrs ps2) n a2 T2 -> same_content n T1 T2 ->
  exists a1' a2' h, root_hash schedule1 parallel1 ps1 a1 = Some (a1', Ok h)
    /\ root_hash schedule2 parallel2 ps2 a2 = Some (a2', Ok h)
    /\ trie_of (ps_rlp_ptrs ps1) n a1' T1 /\ trie_of (ps_rlp_ptrs ps2) n a2' T2.
Proof.
  intros Hs1 Hs2 H1 H2 Hsame.
  destruct (root_hash_spec ps1 schedule1 parallel1 n a1 T1 Hs1 H1) as (a1' & E1 & H1' & _).
  destruct (root_hash_spec ps2 schedule2 parallel2 n a2 T2 Hs2 H2) as (a2' & E2 & H2' & _).
  assert (T1 = T2) as -> by (eapply canon_root_ext_eq; [apply H1 | apply H2 | done]).
  by exists a1', a2', (troot T2).
Qed.

(** C7. Every sequence of inserts, deletes and hashings (with keys of one length) of
    a trie that starts empty runs without panic or error; in the end the
    arrays represent a canonical trie whose content is the map that the same
    operations on an empty map give, the root hash is the Merkle root of
    that trie, and every other sequence that gives the same map, with any
    order of hashing, ends in the same trie and root hash. *)
Theorem root_hash_history_independent schedule n ops :
  (forall l, schedule l ≡ₚ l) -> Forall (op_key_ok n) ops ->
  exists a T, run_ops schedule new_empty ops = Some a
  /\ trie_of [] n a T /\ content n T (foldl map_op ∅ ops)
  /\ (forall parallel, exists a', root_hash schedule parallel empty_store a = Some (a', Ok (troot T)) /\ trie_of [] n a' T)
  /\ forall schedule' ops', (forall l, schedule' l ≡ₚ l) -> Forall (op_key_ok n) ops' ->
       foldl map_op ∅ ops' = foldl map_op ∅ ops ->
       exists a2, run_ops schedule' new_empty ops' = Some a2 /\ trie_of [] n a2 T
       /\ forall parallel, exists a2', root_hash schedule' parallel empty_store a2 = Some (a2', Ok (troot T)).
Proof.
  intros Hs H1. assert (content n TNull ∅) as H0 by (intros k _; by rewrite lookup_empty).
  destruct (run_ops_spec schedule n ops Hs H1 _ _ _ (new_empty_trie n) H0) as (a1 & T1 & E1 & HT1 & Hm1).
  exists a1, T1. split_and!; [done | done | done | |].
  { intros parallel. destruct (root_hash_spec empty_store schedule parallel n a1 T1 Hs HT1) as (a' & R & HT' & _). eauto. }
  intros schedule' ops' Hs' H2 Hm.
  destruct (run_ops_spec schedule' n ops' Hs' H2 _ _ _ (new_empty_trie n) H0) as (a2 & T2 & E2 & HT2 & Hm2).
  assert (T2 = T1) as ->.
  { eapply canon_root_ext_eq; [apply HT2 | apply HT1 |]. intros k Hk. by rewrite (Hm1 k Hk), (Hm2 k Hk), Hm. }
  exists a2. split_and!; [done | done |]. intros parallel.
  destruct (root_hash_spec empty_store schedule' parallel n a2 T1 Hs' HT2) as (a2' & R2 & _). eauto.
Qed.

End spec.
