(* ===== verification/TrieAddSpec.v ===== *)
(** * Nodes of proofs added to the sparse trie *)

From S2P Require Import Prelude SparseTrie TrieModel TrieRep TrieSplit TrieInsertSpec TrieMerge TrieHashSpec TriePaths TrieSpec.

Section adding_nodes.
Context `{TrieCodec}.

(** A node of a proof that describes a subtree, its children by their pointers. *)
Definition describes (ps : ProofStore) (node : ProofNode) (S : tree) : Prop :=
  match node, S with
  | PLeaf key value, TLeaf k v => ps_keys ps !! key = Some k /\ ps_values ps !! value = Some v
  | PExtension key next, TExt k c => ps_keys ps !! key = Some k /\ ps_rlp_ptrs ps !! next = Some (tptr c)
  | PBranch children, TBranch cs => length children = length cs
      /\ forall n, match child children n, child cs n with
                   | Some r, Some c => ps_rlp_ptrs ps !! r = Some (tptr c)
                   | None, None => True
                   | _, _ => False
                   end
  | PEmpty, TNull => True
  | _, _ => False
  end.

Section adding.
Context (ps : ProofStore).
Abbreviation rep := (rep (ps_rlp_ptrs ps)).

Lemma copy_value_modifies a v : modifies ∅ a (copy_value a v).1.
Proof. apply (insert_value_modifies a (Value v)). Qed.

Lemma push_proof_node_spec a node S : arrays_ok a -> describes ps node S ->
  exists a' G, push_proof_node a ps node = Some (a', Local (length (nodes a))) /\ modifies ∅ a a'
    /\ rep a' (Local (length (nodes a))) S G /\ G ⊆ unused a.
Proof.
  intros Ha Hd. destruct node as [ki vi | ki ci | children |], S as [| k v | k c | cs]; simpl in Hd; try done.
  - destruct Hd as [Hk Hv]. unfold push_proof_node. rewrite Hk, Hv.
    destruct (push_leaf_rep (ps_rlp_ptrs ps) a k (Value v) v Ha eq_refl) as (a' & E & M & Hr).
    exists a', {[inl (length (nodes a))]}. split_and!; [| done | done |].
    + unfold push_leaf in E. simpl in E |- *. by rewrite <- E.
    + intros x ->%elem_of_singleton. rewrite elem_of_unused. simpl. lia.
  - destruct Hd as [Hk Hp]. unfold push_proof_node. rewrite Hk.
    pose proof (insert_key_modifies a k) as M1. pose proof (insert_key_slice a k) as Hs.
    destruct (insert_key a k) as [a1 kr] eqn:E1. simpl in M1, Hs.
    assert (length (nodes a1) = length (nodes a)) as El by (injection E1 as <- <-; done).
    destruct (push_ext_rep (ps_rlp_ptrs ps) a1 kr k (Remote ci) c ∅ (modifies_arrays _ _ _ M1 Ha) Hs) as [M2 Hr];
      [by constructor |]. rewrite El in Hr.
    eexists _, _. split_and!; [unfold push_node at 1; rewrite El; done | by eapply modifies_add | exact Hr |].
    intros x. rewrite elem_of_union, elem_of_singleton, elem_of_unused. intros [-> |]; [simpl; lia | set_solver].
  - destruct Hd as [Hl Hd]. unfold push_proof_node. cbv zeta.
    set (a1 := with_tables a _). set (b := length (branch_node_children a)).
    assert (modifies ∅ a a1) as M1.
    { split; [split; simpl; try done; rewrite length_app; lia |].
      intros [i | b'] Hv _; simpl in *; [done |]. by rewrite lookup_app_l. }
    pose proof (modifies_arrays _ _ _ M1 Ha) as Ha1. pose proof (push_node_modifies a1 (Branch b) Ha1) as M2.
    pose proof (push_node_cell a1 (Branch b) Ha1) as [Hn Hf].
    eexists _, {[inl (length (nodes a)); inr b]}. split_and!; [done | by eapply modifies_add | |].
    + apply (rep_branch _ _ _ b ((fun c : option nat => Remote <$> c) <$> children) cs (fun _ => ∅)); try done.
      * simpl. by apply list_lookup_middle.
      * by rewrite length_fmap.
      * intros n. rewrite child_fmap. specialize (Hd n). by destruct (child children n), (child cs n).
      * intros n p c. rewrite child_fmap. specialize (Hd n). intros Hp Hc. rewrite Hc in Hd.
        destruct (child children n) as [r |]; [| done]. injection Hp as <-. by constructor.
      * clear; set_solver.
      * clear; set_solver.
      * clear; set_solver.
      * by apply hash_ok_false.
    + intros x. rewrite elem_of_union, !elem_of_singleton, elem_of_unused. intros [-> | ->]; simpl; unfold b; lia.
  - pose proof (push_node_modifies a Null Ha) as M. pose proof (push_node_cell a Null Ha) as [Hn Hf].
    eexists _, {[inl (length (nodes a))]}. split_and!; [done | done | |].
    + apply rep_null; [done | done | by apply hash_ok_false].
    + intros x ->%elem_of_singleton. rewrite elem_of_unused. simpl. lia.
Qed.

(** What a place is good for: a new local node for the subtree can be put there.
    A place is missing only if the parent is. *)
Definition place_ok (a : Trie) (i : nat) (T : tree) (F : propset cell) (S : tree) (path : nibbles)
    (place : ProofPlace) : Prop :=
  match place with
  | Place cur (Some (Remote _)) nib =>
      forall a1 j G, modifies ∅ a a1 -> arrays_ok a1 -> rep a1 (Local j) S G -> G ⊆ unused a ->
      exists a2 F2, give_to_parent a1 cur nib (Local j) = Some a2 /\ modifies F a1 a2
        /\ rep a2 (Local i) T F2 /\ F2 ⊆ F ∪ G /\ local_at a2 (Local i) T path
  | Place _ (Some (Local _)) _ => local_at a (Local i) T path
  | PlaceMissing _ => forall q step, path = q ++ step -> one_step T q step -> local_at a (Local i) T q -> False
  | Place _ None _ | NoPlace => False
  end.

(** A place below a child of a branch is a place below the branch. *)
Lemma place_ok_branch a a' i b ptrs cs x l R G i' c S place :
  branch_hole (ps_rlp_ptrs ps) a i b ptrs cs (Z.to_nat x) R ->
  child ptrs (Z.to_nat x) = Some (Local i') -> child cs (Z.to_nat x) = Some c -> G ## R -> modifies G a a' ->
  l <> [] -> place_ok a' i' c G S l place -> place_ok a' i (TBranch cs) (G ∪ R) S (x :: l) place.
Proof.
  intros Hh Hp Hc Hd M Hl Hpl.
  assert (branch_hole (ps_rlp_ptrs ps) a' i b ptrs cs (Z.to_nat x) R) as Hh' by by eapply hole_frame.
  assert (forall a2, branch_hole (ps_rlp_ptrs ps) a2 i b ptrs cs (Z.to_nat x) R -> local_at a2 (Local i') c l ->
    local_at a2 (Local i) (TBranch cs) (x :: l)) as Hup.
  { intros a2 (Fs & Hn & _ & Ht & _) Hlo. by eapply local_branch. }
  destruct place as [cur [[j | r] |] nib | | e]; simpl in *; [by apply Hup | | done | done |].
  - intros a1 j G1 M1 Ha1 Hr HG1. destruct (Hpl a1 j G1 M1 Ha1 Hr HG1) as (a2 & F2 & E & M2 & Hr2 & HF2 & Hlo).
    assert (branch_hole (ps_rlp_ptrs ps) a2 i b ptrs cs (Z.to_nat x) R) as Hh2.
    { eapply hole_frame; [| done | done]. eapply hole_frame; [done | done | clear; set_solver]. }
    exists a2, (F2 ∪ R). split_and!; [done | eapply modifies_weaken; [done | clear; set_solver] |
      | clear - HF2; set_solver | by apply Hup].
    rewrite <- (list_insert_id cs (Z.to_nat x) (Some c)) by by apply child_Some.
    eapply hole_close; [done | by rewrite Hp | | by eapply child_lt].
    intros y [Hy | Hy]%HF2%elem_of_union HyR; [by eapply Hd |].
    apply HG1 in Hy. eapply (valid_unused a'); [| done]. by eapply hole_valid.
  - intros [| y q] step Eq Hstep Hlo; simpl in Eq.
    + destruct Hstep as [z ->]. injection Eq as ->. done.
    + injection Eq as <- Eq. rewrite (one_step_branch _ _ _ _ _ Hc) in Hstep. eapply Hpl; [done | done |].
      destruct Hh' as (Fs & Hn & _ & Ht & _). inversion Hlo as [| | i1 b1 ptrs1 p1 cs1 c1 x1 path1 Hn1 Ht1 Hp1 Hc1 Hlo1]; subst.
      simplify_eq. done.
Qed.

(** The same for an extension. *)
Lemma place_ok_ext a a' i kr k rest G i' c S place : nodes a !! i = Some (Extension kr (Local i')) ->
  hashed_nodes a !! i = Some false -> slice (keys a) kr = Some k -> valid a (inl i) -> inl i ∉ G ->
  k <> [] -> rest <> [] -> modifies G a a' -> place_ok a' i' c G S rest place ->
  place_ok a' i (TExt k c) ({[inl i]} ∪ G) S (k ++ rest) place.
Proof.
  intros Hn Hf Hk Hv HiG Hkne Hrest M Hpl.
  assert (valid a' (inl i)) as Hv' by (eapply (valid_grows a); [apply M | done]).
  destruct (proj2 M (inl i) Hv HiG) as (En & Eh & _).
  destruct place as [cur [[j | r] |] nib | | e]; simpl in *; [| | done | done |].
  - eapply local_ext; [by rewrite En | done].
  - intros a2 j Gj M2 Ha2 Hrj HGj. destruct (Hpl a2 j Gj M2 Ha2 Hrj HGj) as (a3 & F3 & E3 & M3 & Hr3 & HF3 & Hlo).
    assert (valid a2 (inl i)) as Hv2 by (eapply (valid_grows a'); [apply M2 | done]).
    destruct (proj2 M2 (inl i) Hv') as (En2 & Eh2 & _); [clear; set_solver |].
    destruct (proj2 M3 (inl i) Hv2 HiG) as (En3 & Eh3 & _).
    assert (nodes a3 !! i = Some (Extension kr (Local i'))) as Hn3 by by rewrite En3, En2, En.
    exists a3, ({[inl i]} ∪ F3). split_and!; [done | eapply modifies_weaken; [done | clear; set_solver] |
      | clear - HF3; set_solver | by eapply local_ext].
    eapply rep_ext; [done | | done | | done | apply hash_ok_false; by rewrite Eh3, Eh2, Eh].
    + eapply slice_prefix; [done |]. etrans; [apply M |]. etrans; [apply M2 | apply M3].
    + intros [? | Hx]%HF3%elem_of_union; [done |]. apply HGj in Hx. by eapply (valid_unused a' (inl i)).
  - intros q step Eq Hstep Hlo.
    inversion Hlo as [| i1 kr1 p1 k1 c1 q1 Hn1 Hlo1 |]; subst.
    + unfold one_step in Hstep. simpl in Hstep. subst step. simpl in Eq.
      rewrite <- (app_nil_r k) in Eq at 2. by apply (inj (app k)) in Eq.
    + rewrite one_step_ext in Hstep by done. rewrite <- app_assoc in Eq. apply (inj (app k)) in Eq.
      eapply Hpl; [done | done |]. unfold local_at. rewrite En, Hn in Hn1. by injection Hn1 as <- <-.
Qed.

#[local] Instance place_ok_proper a i T : Proper ((≡) ==> (=) ==> (=) ==> (=) ==> (↔)) (place_ok a i T).
Proof.
  intros F F' E S ? <- path ? <- place ? <-. destruct place as [cur [[l | r] |] nib | |]; simpl; try done.
  unfold modifies. by setoid_rewrite E.
Qed.

Abbreviation find_ok fuel := (forall a i pw path T F n S, arrays_ok a -> rep a (Local i) T F -> canon_root n T ->
  Forall nibble path -> drop pw path <> [] -> tsub T (drop pw path) = Some S ->
  (length (drop pw path) < fuel)%nat ->
  exists a' place, find_place fuel a i pw path = Some (a', place) /\ modifies F a a'
    /\ rep a' (Local i) T F /\ hashed_nodes a' !! i = Some false /\ same_shape a a' /\ place_ok a' i T F S (drop pw path) place).

Lemma set_node_lookup a i n a' : set_node a i n = Some a' -> nodes a' !! i = Some n.
Proof. unfold set_node. case_decide; [| done]. intros [= <-]. simpl. by apply list_lookup_insert_eq. Qed.

Lemma set_child_lookup a b n op a' : set_child a b n op = Some a' ->
  nodes a' = nodes a /\ exists ptrs, branch_node_children a' !! b = Some ptrs /\ child ptrs (Z.to_nat n) = op.
Proof.
  unfold set_child. destruct (branch_node_children a !! b) as [ptrs |] eqn:E; [| done].
  case_decide as Hlt; [| done]. intros [= <-]. split; [done |]. eexists. simpl.
  rewrite list_lookup_insert_eq by by eapply lookup_lt_Some. split; [done |].
  by rewrite child_insert, decide_True.
Qed.

(** One round of the search, at a node that is not hashed. *)
Section round.
Context (fuel : nat) (IH : find_ok fuel) (a : Trie) (i pw : nat) (path : nibbles) (F : propset cell) (S : tree).
Hypothesis Ha : arrays_ok a.
Hypothesis Hf : hashed_nodes a !! i = Some false.
Hypothesis Hnib : Forall nibble path.
Hypothesis Hne : drop pw path <> [].
Hypothesis Hfuel : (length (drop pw path) < Datatypes.S fuel)%nat.

Lemma find_place_ext kr p k cs G m : rep a (Local i) (TExt k (TBranch cs)) F ->
  nodes a !! i = Some (Extension kr p) -> slice (keys a) kr = Some k -> rep a p (TBranch cs) G ->
  inl i ∉ G -> F ≡ {[inl i]} ∪ G -> k <> [] -> canon m (TBranch cs) ->
  tsub (TExt k (TBranch cs)) (drop pw path) = Some S ->
  exists a' place,
    (if starts_with (drop pw path) k then
       if decide (drop (pw + range_len kr) path = []) then Some (a, Place i (Some p) 0)
       else match p with
            | Local j => find_place fuel a j (pw + range_len kr) path
            | Remote _ => Some (a, PlaceMissing (node_not_found (take (pw + range_len kr) path)))
            end
     else Some (a, Place i None 0)) = Some (a', place)
    /\ modifies F a a' /\ rep a' (Local i) (TExt k (TBranch cs)) F
    /\ hashed_nodes a' !! i = Some false /\ same_shape a a'
    /\ place_ok a' i (TExt k (TBranch cs)) F S (drop pw path) place.
Proof.
  intros Hr Hn Hk Hp HiG EF Hkne Hcc Hsub. pose proof (rep_local _ _ _ _ _ Hr) as Hi.
  pose proof (rep_valid _ _ _ _ _ Hr _ Hi) as Hv. pose proof (slice_Some _ _ _ Hk) as (_ & _ & Hkl).
  assert (starts_with (drop pw path) k = true) as Es.
  { destruct (drop pw path) as [| y l]; [done |]. simpl in Hsub. by destruct (starts_with (y :: l) k). }
  rewrite Es. apply starts_with_spec in Es as [rest Es].
  assert (drop (pw + range_len kr) path = rest) as Er by (by rewrite <- drop_drop, Es, <- Hkl, drop_app_length).
  assert (tsub (TBranch cs) rest = Some S) as Hsub'.
  { rewrite Es in Hsub. destruct (k ++ rest) as [| y l] eqn:Ekr; [by destruct k |].
    simpl in Hsub. rewrite <- Ekr, starts_with_app, drop_app_length in Hsub. done. }
  rewrite Er. destruct (decide (rest = [])) as [-> | Hrest].
  - eexists a, _. split_and!; [done | apply modifies_refl | done | done | done |]. rewrite Es.
    destruct p as [l | r]; [eapply local_ext; [done | apply local_here] |].
    rewrite tsub_nil in Hsub'. injection Hsub' as <-. intros a2 j Gj M2 Ha2 Hrj HGj. unfold give_to_parent.
    destruct (proj2 M2 (inl i) Hv) as (-> & Eh & _); [clear; set_solver |]. rewrite Hn.
    destruct (set_ext_spec (ps_rlp_ptrs ps) a2 i kr (Local j) k (TBranch cs) Gj) as (a3 & E3 & M3 & Hr3).
    + by eapply valid_grows; [apply M2 |].
    + by rewrite Eh.
    + eapply slice_prefix; [done | apply M2].
    + done.
    + intros Hx%HGj. by eapply (valid_unused a).
    + exists a3, ({[inl i]} ∪ Gj). split_and!; [done | | done | clear - Hi; set_solver |].
      * eapply modifies_weaken; [done | clear - Hi; set_solver].
      * eapply local_ext; [by eapply set_node_lookup | apply local_here].
  - destruct p as [l | r].
    2: { eexists a, _. split_and!; [done | apply modifies_refl | done | done | done |]. rewrite Es.
         intros q step Eq Hstep Hlo. inversion Hlo as [| i1 kr1 p1 k1 c1 q1 Hn1 Hlo1 |]; subst.
         - unfold one_step in Hstep. simpl in Hstep. subst step. simpl in Eq.
           rewrite <- (app_nil_r k) in Eq at 2. by apply (inj (app k)) in Eq.
         - rewrite Hn in Hn1. injection Hn1 as <- <-. inversion Hlo1. }
    destruct (IH a l (pw + range_len kr)%nat path (TBranch cs) G m S) as (a' & place & -> & M & Hr' & _ & Hsh & Hpl);
      [done | done | by right | done | by rewrite Er | by rewrite Er | |].
    { rewrite Er. rewrite Es, length_app in Hfuel. destruct k; [done |]. simpl in Hfuel. lia. }
    destruct (proj2 M (inl i) Hv HiG) as (En & Eh & _).
    eexists a', place. split_and!; [done | | | by rewrite Eh | done |].
    + eapply modifies_weaken; [done | rewrite EF; clear; set_solver].
    + eapply rep_ext; [by rewrite En | eapply slice_prefix; [done | apply M] | done | done | done |].
      apply hash_ok_false. by rewrite Eh.
    + rewrite EF, Es. rewrite Er in Hpl. by eapply place_ok_ext.
Qed.

Lemma find_place_branch b cs m : rep a (Local i) (TBranch cs) F -> nodes a !! i = Some (Branch b) ->
  canon (Datatypes.S m) (TBranch cs) -> tsub (TBranch cs) (drop pw path) = Some S ->
  exists a' place,
    (let! n := path !! pw in
     let! c := get_child a b n in
     if decide (drop (Datatypes.S pw) path = []) then Some (a, Place i c n)
     else match c with
          | Some (Local j) => find_place fuel a j (Datatypes.S pw) path
          | _ => Some (a, PlaceMissing (node_not_found (take (Datatypes.S pw) path)))
          end) = Some (a', place)
    /\ modifies F a a' /\ rep a' (Local i) (TBranch cs) F
    /\ hashed_nodes a' !! i = Some false /\ same_shape a a'
    /\ place_ok a' i (TBranch cs) F S (drop pw path) place.
Proof.
  intros Hr Hn Hc Hsub. inversion Hc as [| | m' cs' i1 i2 Hlc Hi12 Hi1 Hi2 Hcc]; subst.
  pose proof (rep_valid _ _ _ _ _ Hr _ (rep_local _ _ _ _ _ Hr)) as Hv.
  destruct (drop pw path) as [| x l] eqn:Ed; [done |].
  assert (path !! pw = Some x) as Hx by (rewrite <- (Nat.add_0_r pw), <- lookup_drop, Ed; done).
  rewrite (drop_S _ _ _ Hx) in Ed. injection Ed as Ed. rewrite Hx, Ed.
  assert (nibble x) as Hnx by (by eapply (Forall_lookup_1 _ _ _ _ Hnib)).
  destruct (hole_open _ _ _ _ _ (Z.to_nat x) Hr Hf) as (b' & ptrs & R & G & Hn' & Ht & Hh & Hopt & EF & Hd).
  assert (b' = b) as -> by congruence.
  assert (length ptrs = 16%nat) as Hlp by (destruct Hh as (_ & _ & _ & _ & -> & _); done).
  unfold get_child. rewrite Ht, (child_lookup ptrs) by (unfold nibble in *; lia).
  rewrite tsub_branch in Hsub. destruct (child cs (Z.to_nat x)) as [c |] eqn:Ec; [| done]. simpl in Hsub.
  unfold rep_opt in Hopt. destruct (child ptrs (Z.to_nat x)) as [p |] eqn:Ep; [| done].
  pose proof (hole_cells _ _ _ _ _ _ _ _ Hh) as [_ HbR].
  destruct (decide (l = [])) as [-> | Hl0].
  - eexists a, _. split_and!; [done | apply modifies_refl | done | done | done |].
    destruct p as [l | r]; [eapply local_branch; [done | done | done | done | apply local_here] |].
    rewrite tsub_nil in Hsub. injection Hsub as <-. intros a2 j Gj M2 Ha2 Hrj HGj. unfold give_to_parent.
    destruct (proj2 M2 (inl i) Hv) as (-> & _ & _); [clear; set_solver |]. rewrite Hn.
    destruct (hole_fill _ _ _ _ _ _ _ _ (Local j) c Gj (hole_frame _ _ _ _ _ _ _ _ _ _ Hh M2 ltac:(clear; set_solver)))
      as (a3 & E3 & M3 & Hr3); [by eapply child_lt | done | |].
    { intros y Hy%HGj HyR. eapply valid_unused; [| done]. by eapply hole_valid. }
    rewrite Z2Nat.id in E3 by (unfold nibble in *; lia). rewrite list_insert_id in Hr3 by by apply child_Some.
    exists a3, (Gj ∪ R). split_and!; [done | | done | rewrite EF; clear; set_solver |].
    + eapply modifies_weaken; [done | rewrite EF; clear - HbR; set_solver].
    + destruct (set_child_lookup _ _ _ _ _ E3) as (En3 & ptrs3 & Ht3 & Hp3).
      eapply local_branch; [rewrite En3; by destruct (proj2 M2 (inl i) Hv ltac:(clear; set_solver)) as (-> & _) |
        done | done | done | apply local_here].
  - destruct p as [j | r].
    2: { eexists a, _. split_and!; [done | apply modifies_refl | done | done | done |].
         intros [| y q] step Eq Hstep Hlo; simpl in Eq.
         - destruct Hstep as [z ->]. by injection Eq as ->.
         - injection Eq as <- Eq. inversion Hlo as [| | i3 b3 ptrs3 p3 cs3 c3 x3 path3 Hn3 Ht3 Hp3 Hc3 Hlo3]; subst.
           simplify_eq. inversion Hlo3. }
    destruct (IH a j (Datatypes.S pw) path c G m S) as (a' & place & -> & M & Hr' & _ & Hsh & Hpl);
      [done | done | right; by eapply Hcc | done | by rewrite Ed | by rewrite Ed | rewrite Ed; simpl in Hfuel; lia |].
    assert (branch_hole (ps_rlp_ptrs ps) a' i b ptrs cs (Z.to_nat x) R) as Hh' by by eapply hole_frame.
    eexists a', place. split_and!; [done | | | by destruct Hh' as (? & _ & ? & _) | done |].
    + eapply modifies_weaken; [done | rewrite EF; clear; set_solver].
    + rewrite EF. rewrite <- (list_insert_id cs (Z.to_nat x) (Some c)) at 1 by by apply child_Some.
      eapply hole_close; [done | by rewrite Ep | done | by eapply child_lt].
    + rewrite EF. rewrite Ed in Hpl. by eapply (place_ok_branch a).
Qed.

End round.

Lemma find_place_spec fuel : find_ok fuel.
Proof.
  induction fuel as [| fuel IH]; intros a i pw path T F n S Ha Hr Hc Hnib Hne Hsub Hfuel; [lia |].
  pose proof (rep_local _ _ _ _ _ Hr) as Hi. cbn [find_place].
  pose proof (rep_unhash _ _ _ _ _ Ha Hr) as Hr1. pose proof (unhash_hashed _ _ _ _ _ Ha Hr) as Hf.
  assert (modifies F a (unhash a i)) as M0
    by (eapply modifies_weaken; [apply unhash_modifies | clear - Hi; set_solver]).
  pose proof (modifies_arrays _ _ _ M0 Ha) as Ha1.
  assert (forall o : option (Trie * ProofPlace), (exists a' place, o = Some (a', place) /\ modifies F (unhash a i) a'
      /\ rep a' (Local i) T F /\ hashed_nodes a' !! i = Some false
      /\ same_shape (unhash a i) a' /\ place_ok a' i T F S (drop pw path) place) ->
    exists a' place, o = Some (a', place) /\ modifies F a a'
      /\ rep a' (Local i) T F /\ hashed_nodes a' !! i = Some false
      /\ same_shape a a' /\ place_ok a' i T F S (drop pw path) place) as Hstep.
  { intros o (a' & place & E & M & Rest). exists a', place. split_and!; [done | | apply Rest..].
    eapply modifies_trans; [done | done | clear; set_solver]. }
  inversion Hr1 as [| i' F' Hn EF | i' kr vr k v F' Hn Hk Hvr EF | i' kr p k T' F' G Hn Hk Hp HiG EF |
    i' b ptrs cs Fs F' Hn Ht Hl Hd He Hcs HiFs Hdisj EF]; subst;
    change (nodes (unhash a i) !! i) with (nodes a !! i) in Hn; rewrite Hn, (set_hashed_false _ _ _ _ _ Ha Hr).
  - by destruct (drop pw path).
  - by destruct (drop pw path).
  - rewrite Hk. destruct Hc as [| Hc]; [done |]. inversion Hc; subst. apply Hstep. cbv zeta. by eapply find_place_ext.
  - destruct Hc as [| Hc]; [done |]. inversion Hc; subst. apply Hstep. by eapply find_place_branch.
Qed.

(** Adding a node that describes the subtree at its path: the trie still stands
    for the same full trie, and has the node if it has its parent. *)
Lemma add_node_spec n a T path node S : trie_of (ps_rlp_ptrs ps) n a T -> Forall nibble path ->
  tsub T path = Some S -> describes ps node S ->
  exists a' r, add_node_from_proof a ps path node = Some (a', r) /\ trie_of (ps_rlp_ptrs ps) n a' T
  /\ forall q step, path = q ++ step -> path = [] \/ one_step T q step -> local_at a (Local 0) T q ->
       r = Ok tt /\ local_at a' (Local 0) T path.
Proof.
  intros (Ha & Hc & F & Hr) Hnib Hsub Hd. unfold add_node_from_proof.
  pose proof (rep_valid _ _ _ _ _ Hr _ (rep_local _ _ _ _ _ Hr)) as Hv.
  rewrite (bool_decide_false (nodes a = [])) by (intros E; simpl in Hv; rewrite E in Hv; simpl in Hv; lia).
  case_bool_decide as Ep; cbn [andb negb].
  { eexists a, _. split; [done |]. split; [split_and!; [done | done | by exists F] |].
    intros _ _ _ _ _. rewrite Ep. split; [done | apply local_here]. }
  destruct (find_place_spec (Datatypes.S (length path)) a 0 0 path T F n S) as (a1 & place & -> & M & Hr1 & _ & Hsh & Hpl);
    [done | done | done | done | by rewrite drop_0 | by rewrite drop_0 | rewrite drop_0; lia |]. rewrite drop_0 in Hpl.
  pose proof (modifies_arrays _ _ _ M Ha) as Ha1.
  assert (trie_of (ps_rlp_ptrs ps) n a1 T) as HT1 by (split_and!; [done | done | by exists F]).
  destruct place as [cur [[l | r] |] nib | | e]; [by eexists a1, _ | | by destruct Hpl | by destruct Hpl |].
  - destruct (push_proof_node_spec a1 node S Ha1 Hd) as (a2 & G & E2 & M2 & Hr2 & HG).
    destruct (Hpl a2 _ G M2 (modifies_arrays _ _ _ M2 Ha1) Hr2 HG) as (a3 & F3 & E3 & M3 & Hr3 & _ & Hlo).
    assert (node <> PEmpty) as Hempty.
    { intros ->. destruct S; try done. destruct Hc as [-> | Hc]; [by destruct path |].
      by destruct (tsub_canon _ _ _ _ Hc Hsub) as [m Hm%not_canon_null]. }
    exists a3, (Ok tt). split; [by destruct node; rewrite ?E2, ?E3 |]. split; [| done].
    split_and!; [| done | by exists F3]. eapply modifies_arrays; [done |]. by eapply modifies_arrays.
  - eexists a1, _. split; [done |]. split; [done |]. intros q step Eq [? | Hstep] Hlo; [done |].
    destruct (Hpl q step Eq Hstep). destruct Hsh as (En & Et & _). unfold local_at in *. by rewrite En, Et.
Qed.

(** The first node of a proof makes the root. *)
Lemma add_root_spec n T node a : canon_root n T -> arrays_ok a -> nodes a = [] -> describes ps node T ->
  exists a', add_node_from_proof a ps [] node = Some (a', Ok tt) /\ trie_of (ps_rlp_ptrs ps) n a' T.
Proof.
  intros Hc Ha Hn Hd. unfold add_node_from_proof. rewrite !(bool_decide_true (nodes a = [])) by done.
  rewrite bool_decide_true by done. cbn [andb negb].
  destruct (push_proof_node_spec a node T Ha Hd) as (a' & G & -> & M & Hr & _). rewrite Hn in Hr.
  exists a'. split; [done |]. split_and!; [by eapply modifies_arrays | done | by exists G].
Qed.

Definition describes_entry (p : nibbles * ProofNode) (e : nibbles * tree) : Prop :=
  p.1 = e.1 /\ describes ps p.2 e.2.

Lemma add_chain n T proof l : Forall2 describes_entry proof l -> forall a q,
  trie_of (ps_rlp_ptrs ps) n a T -> local_at a (Local 0) T q -> chain T q l ->
  exists a', add_proof_nodes a ps proof = Some (a', Ok tt) /\ trie_of (ps_rlp_ptrs ps) n a' T
    /\ local_at a' (Local 0) T (last_path q l).
Proof.
  induction 1 as [| [path node] [path' S] proof l [Ep Hd] _ IH]; intros a q HT Hlo Hch; [by exists a |].
  simpl in Ep, Hd. subst path'. destruct Hch as (Hq & Hnib & Hsub & Hch).
  destruct (add_node_spec n a T path node S HT Hnib Hsub Hd) as (a1 & r & E & HT1 & Hnext). simpl. rewrite E.
  assert (r = Ok tt /\ local_at a1 (Local 0) T path) as [-> Hlo1].
  { destruct Hq as (step & -> & Hstep). by apply (Hnext q step); [| right |]. }
  rewrite last_path_cons. by apply IH.
Qed.

End adding.
End adding_nodes.
