(* ===== verification/TrieStoreSpec.v ===== *)
(** * Proofs read from the sparse trie *)

From S2P Require Import Prelude SparseTrie TrieModel TrieRep TrieSplit TriePaths TrieInsertSpec TrieHashSpec TrieSpec TrieAddSpec.

Section proofs.
Context `{TrieCodec}.

(** The encodings of the nodes along a key. *)
Definition at_path (pre : nibbles) (e : nibbles * tree) : nibbles * bytes := (pre ++ e.1, tenc e.2).
Definition tproof (T : tree) (key : nibbles) : list (nibbles * bytes) := at_path [] <$> tnodes T key.

Lemma at_path_nil pre T : at_path pre ([], T) = (pre, tenc T).
Proof. unfold at_path. simpl. by rewrite app_nil_r. Qed.

Section reading.
Context (ps : ProofStore).
Abbreviation rep := (rep (ps_rlp_ptrs ps)).

Lemma get_proof_loop_spec fuel : forall a i pw key proof T F n,
  rep a (Local i) T F -> all_hashed a F -> canon_root n T -> key_of n (drop pw key) -> (n < fuel)%nat ->
  exists r, get_proof_loop fuel a ps i pw key proof = Some r
  /\ match r with
     | Ok pv => pv_value pv = tget T (drop pw key)
                /\ pv_proof pv = proof ++ (at_path (take pw key) <$> tnodes T (drop pw key))
     | Err Proof_TrieIsDirty => False
     | Err (Proof_NodeNotFound e) => e = node_not_found key /\ ~ loaded a (Local i) T (drop pw key)
     end.
Proof.
  induction fuel as [| fuel IH]; intros a i pw key proof T F n Hr Hall Hc Hkey Hfuel; [lia |].
  pose proof (rep_local _ _ _ _ _ Hr) as Hi. cbn [get_proof_loop].
  assert (exists node, nodes a !! i = Some node) as [node Hnode].
  { pose proof (rep_valid _ _ _ _ _ Hr _ Hi) as Hv. by apply lookup_lt_is_Some_2 in Hv. }
  rewrite Hnode, (Hall _ Hi), (rlp_encode_spec ps a i T F Hr) by auto. cbn [negb]. cbv zeta.
  inversion Hr as [| i' F' Hn EF | i' kr vr k v F' Hn Hk Hvr EF | i' kr p k T' F' G Hn Hk Hp HiG EF |
    i' b ptrs cs Fs F' Hn Ht Hl Hd He Hcs HiFs Hdisj EF]; subst; simplify_eq.
  - eexists. split; [done |]. simpl. by rewrite at_path_nil.
  - rewrite Hk. destruct (decide (k = drop pw key)) as [E | E].
    + rewrite Hvr. eexists. split; [done |]. simpl. by rewrite decide_True, at_path_nil.
    + eexists. split; [done |]. simpl. by rewrite decide_False, at_path_nil.
  - rewrite Hk. pose proof (slice_Some _ _ _ Hk) as (_ & _ & Hkl). destruct Hc as [| Hc]; [done |].
    inversion Hc as [| n' m k' cs Hkn Hkne Hcc Hm |]; subst.
    destruct (starts_with (drop pw key) k) eqn:Es.
    2: { eexists. split; [done |]. simpl. by rewrite Es, at_path_nil. }
    destruct p as [j | r].
    2: { apply starts_with_spec in Es as [rest ->]. eexists. split; [done |]. split; [done |].
         intros Hlo. eapply loaded_ext in Hlo; [| done | done]. by eapply loaded_remote. }
    apply starts_with_spec in Es as [rest Es].
    assert (drop (pw + range_len kr) key = rest) as Er by (by rewrite <- drop_drop, Es, <- Hkl, drop_app_length).
    assert (take (pw + range_len kr) key = take pw key ++ k) as Et.
    { by rewrite <- Hkl, <- take_take_drop, Es, take_app_length. }
    destruct (IH a j (pw + range_len kr)%nat key (proof ++ [(take pw key, tenc (TExt k (TBranch cs)))]) (TBranch cs) G m)
      as (r & E & P); [done | | by right | | |].
    + intros x Hx. apply Hall. rewrite EF. clear - Hx. set_solver.
    + rewrite Er. rewrite Es, key_of_app in Hkey by done. apply Hkey.
    + destruct k; [done | simpl in *; lia].
    + exists r. split; [exact E |]. rewrite Er, Et in P. rewrite Es. destruct r as [pv | [e |]]; [| | exact P].
      * rewrite tget_ext_app, tnodes_ext_app. destruct P as [-> ->]. split; [done |].
        rewrite <- app_assoc. rewrite fmap_cons, at_path_nil. cbn [app]. do 2 f_equal.
        rewrite <- list_fmap_compose. apply list_fmap_ext. intros _ e _. unfold at_path. simpl. by rewrite app_assoc.
      * destruct P as [-> Hn']. split; [done |]. intros Hlo. apply Hn'. by eapply loaded_ext.
  - destruct Hc as [| Hc]; [done |]. inversion Hc as [| | m cs' i1 i2 Hlc Hi12 Hi1 Hi2 Hcc]; subst.
    destruct (key_of_drop _ _ _ Hkey) as (x & Hkx & Hx & Ed & Hk'). rewrite decide_False.
    2: { apply lookup_lt_Some in Hkx. lia. }
    rewrite Hkx. unfold get_child. rewrite Ht, (child_lookup ptrs) by (unfold nibble in *; lia). rewrite Ed.
    rewrite tget_branch, tnodes_branch.
    destruct (child ptrs (Z.to_nat x)) as [p |] eqn:Ep.
    2: { rewrite (proj1 (Hd _) Ep). eexists. split; [done |]. simpl. by rewrite at_path_nil. }
    destruct (child cs (Z.to_nat x)) as [c |] eqn:Ec; [| apply Hd in Ec; congruence].
    pose proof (Hcs _ _ _ Ep Ec) as Hrc. destruct p as [j | r].
    2: { eexists. split; [done |]. split; [done |].
         intros Hlo. eapply loaded_branch in Hlo; [| done..]. by eapply loaded_remote. }
    assert (take (S pw) key = take pw key ++ [x]) as Et by by apply take_S_r.
    destruct (IH a j (S pw) key (proof ++ [(take pw key, tenc (TBranch cs))]) c (Fs (Z.to_nat x)) m)
      as (r & E & P); [done | | by right; eapply Hcc | done | lia |].
    + intros y Hy. apply Hall. apply EF. right; right. eauto.
    + exists r. split; [exact E |]. destruct r as [pv | [e |]]; [| | exact P].
      * destruct P as [-> ->]. split; [done |]. rewrite <- app_assoc, Et. rewrite fmap_cons, at_path_nil. cbn [app]. do 2 f_equal.
        rewrite <- list_fmap_compose. apply list_fmap_ext. intros _ e _. unfold at_path. simpl. by rewrite <- app_assoc.
      * destruct P as [-> Hn']. split; [done |]. intros Hlo. apply Hn'. by eapply loaded_branch.
Qed.

Lemma hashed_root a i T F : rep a (Local i) T F -> hashed_nodes a !! i = Some true -> all_hashed a F.
Proof.
  intros Hr Hh. inversion Hr as [| ? ? ? ? Ho | ? ? ? ? ? ? ? ? ? ? Ho | ? ? ? ? ? ? ? ? ? ? ? ? Ho |
    ? ? ? ? ? ? ? ? ? ? ? ? ? ? ? Ho]; subst; destruct (Ho Hh); done.
Qed.

(** A trie that is not hashed gives no proof; after hashing, the proof of a key
    holds the encodings of the nodes of the full trie along the key, the
    first hashing to the root, and the value is that of the key; only a node
    that is not loaded is an error. *)
Theorem proof_of_hashed_trie schedule parallel n a T key : (forall l, schedule l ≡ₚ l) ->
  trie_of (ps_rlp_ptrs ps) (2 * n) a T -> byte_key n key ->
  (hashed_nodes a !! 0%nat = Some false -> get_proof a ps key = Some (Err Proof_TrieIsDirty))
  /\ exists a' h r, root_hash schedule parallel ps a = Some (a', Ok h) /\ get_proof a' ps key = Some r
  /\ match r with
     | Ok pv => pv_value pv = tget T (unpack key) /\ pv_proof pv = tproof T (unpack key)
                /\ exists root rest, pv_proof pv = ([], root) :: rest /\ keccak256 root = h
     | Err Proof_TrieIsDirty => False
     | Err (Proof_NodeNotFound e) => e = node_not_found (unpack key) /\ ~ loaded a' (Local 0) T (unpack key)
     end.
Proof.
  intros Hs HT Hk. split.
  - intros Hf. destruct HT as (Ha & _ & F & Hr). unfold get_proof, get_proof_nibbles_key. simpl.
    pose proof (rep_valid _ _ _ _ _ Hr _ (rep_local _ _ _ _ _ Hr)) as Hv.
    apply lookup_lt_is_Some_2 in Hv as [node ->]. by rewrite Hf.
  - destruct (root_hash_spec ps schedule parallel (2 * n) a T Hs HT) as (a' & E & HT' & _ & Hh).
    destruct HT' as (Ha' & Hc & F & Hr'). pose proof (unpack_key _ _ Hk) as Hk'.
    destruct (get_proof_loop_spec (S (length (unpack key))) a' 0 0 (unpack key) [] T F (2 * n)) as (r & Er & P);
      [done | by eapply hashed_root | done | done | destruct Hk'; lia |].
    exists a', (troot T), r. split_and!; [done | exact Er |]. destruct r as [pv | e]; [| exact P].
    rewrite drop_0 in P. destruct P as [Hval Hproof]. split_and!; [done | done |]. rewrite Hproof.
    destruct (tnodes_head T (unpack key)) as [l ->]. by eexists _, _.
Qed.

End reading.

End proofs.

(** * From a proof to a sparse trie

    The nodes of a proof are decoded into a proof store and added to an empty
    trie, which then stands for the full trie, has its root hash and yields the
    proof again. *)

(** ** Growing proof stores *)
Record store_grows (ps ps' : ProofStore) : Prop := {
  sg_keys : ps_keys ps `prefix_of` ps_keys ps';
  sg_values : ps_values ps `prefix_of` ps_values ps';
  sg_ptrs : ps_rlp_ptrs ps `prefix_of` ps_rlp_ptrs ps';
}.

Lemma store_grows_refl ps : store_grows ps ps.
Proof. by split. Qed.

Lemma store_grows_trans ps1 ps2 ps3 : store_grows ps1 ps2 -> store_grows ps2 ps3 -> store_grows ps1 ps3.
Proof. intros [] []. split; by etrans. Qed.

(** A branch mask has a bit for each child. *)
Fixpoint child_mask (cs : list (option tree)) : Z :=
  match cs with [] => 0 | o :: cs => (if o then 1 else 0) + 2 * child_mask cs end.

Lemma child_mask_bit cs i : Z.testbit (child_mask cs) (Z.of_nat i) = bool_decide (is_Some (child cs i)).
Proof.
  revert i. induction cs as [| o cs IH]; intros i.
  - rewrite Z.testbit_0_l. rewrite bool_decide_false; [done |]. unfold child. by intros [? ?].
  - cbn [child_mask]. rewrite Z.add_comm. replace (if o then 1 else 0)%Z with (Z.b2z (if o then true else false)) by by destruct o.
    destruct i as [| i].
    + rewrite Z.testbit_0_r. destruct o; [by rewrite bool_decide_true by by eexists |].
      rewrite bool_decide_false; [done |]. by intros [? ?].
    + rewrite Nat2Z.inj_succ, Z.testbit_succ_r by lia. apply IH.
Qed.

Section store.
Context `{TrieCodec}.

(** What a node is encoded from. *)
Definition alloy_of (T : tree) : AlloyTrieNode :=
  match T with
  | TNull => AEmptyRoot
  | TLeaf k v => ALeaf k v
  | TExt k c => AExtension k (tptr c)
  | TBranch cs => ABranch (omap (fun c : option tree => tptr <$> c) cs) (child_mask cs)
  end.

Lemma describes_grows ps ps' node T : store_grows ps ps' -> describes ps node T -> describes ps' node T.
Proof.
  intros [Hk Hv Hp] Hd. destruct node as [ki vi | ki ci | children |], T as [| k v | k c | cs]; simpl in *; try done.
  - destruct Hd as [H1 H2]. split; by eapply prefix_lookup_Some.
  - destruct Hd as [H1 H2]. split; by eapply prefix_lookup_Some.
  - destruct Hd as [Hl Hd]. split; [done |]. intros n. specialize (Hd n).
    destruct (child children n), (child cs n); try done. by eapply prefix_lookup_Some.
Qed.

Lemma add_branch_children_spec cs : forall index ps mask,
  (forall i, (i < length cs)%nat ->
     Z.testbit mask (Z.of_nat (index + i)) = bool_decide (is_Some (child cs i))) ->
  exists ps' children,
    add_branch_children (length cs) index ps (omap (fun c : option tree => tptr <$> c) cs) mask = Some (ps', children)
    /\ store_grows ps ps' /\ ps_proofs ps' = ps_proofs ps /\ describes ps' (PBranch children) (TBranch cs).
Proof.
  induction cs as [| o cs IH]; intros index ps mask Hm.
  - exists ps, []. split_and!; [done | apply store_grows_refl | done |]. simpl. split; [done |].
    intros n. by destruct n.
  - pose proof (Hm 0%nat ltac:(simpl; lia)) as H0. rewrite Nat.add_0_r in H0. cbn [length add_branch_children]. rewrite H0.
    assert (forall i, (i < length cs)%nat ->
      Z.testbit mask (Z.of_nat (S index + i)) = bool_decide (is_Some (child cs i))) as Hm'.
    { intros i Hi. specialize (Hm (S i) ltac:(simpl; lia)). rewrite <- plus_n_Sm in Hm. exact Hm. }
    destruct o as [c |].
    + rewrite bool_decide_true by by eexists. cbn [omap list_omap fmap option_fmap option_map].
      unfold tptr at 1. rewrite rlp_pointer_fits. cbn [add_rlp_ptr].
      set (ps1 := {| ps_keys := _ |}).
      destruct (IH (S index) ps1 mask Hm') as (ps' & children & -> & Hg & Hpr & Hl & Hd).
      exists ps', (Some (length (ps_rlp_ptrs ps)) :: children). split_and!; [done | | done | split; [simpl; lia |]].
      * eapply store_grows_trans; [| done]. split; simpl; [done | done | by apply prefix_app_r].
      * intros [| n]; [| exact (Hd n)]. simpl. eapply prefix_lookup_Some; [| apply Hg].
        simpl. by apply list_lookup_middle.
    + rewrite bool_decide_false by (by intros [? ?]). cbn [omap list_omap fmap option_fmap option_map].
      destruct (IH (S index) ps mask Hm') as (ps' & children & -> & Hg & Hpr & Hl & Hd).
      exists ps', (None :: children). split_and!; [done | done | done | split; [simpl; lia |]].
      intros [| n]; [done | exact (Hd n)].
Qed.

Lemma store_node_spec n ps T : canon_root n T ->
  exists ps' node, store_node ps (alloy_of T) = Some (ps', node) /\ store_grows ps ps'
    /\ ps_proofs ps' = ps_proofs ps /\ describes ps' node T.
Proof.
  intros Hc. destruct T as [| k v | k c | cs]; cbn [store_node alloy_of].
  - eexists _, _. split; [done |]. split_and!; [apply store_grows_refl | done | done].
  - eexists _, (PLeaf _ _). split; [reflexivity |].
    split_and!; [split; [by apply prefix_app_r | by apply prefix_app_r | done] | done |].
    split; by apply list_lookup_middle.
  - unfold tptr at 1. rewrite rlp_pointer_fits. eexists _, (PExtension _ _). split; [reflexivity |].
    split_and!; [split; [by apply prefix_app_r | done | by apply prefix_app_r] | done |].
    split; by apply list_lookup_middle.
  - destruct Hc as [| Hc]; [done |].
    destruct (add_branch_children_spec cs 0 ps (child_mask cs)) as (ps' & children & E & Hg & Hpr & Hd).
    { intros i _. apply child_mask_bit. }
    assert (length cs = 16%nat) as Hl by by inversion Hc. rewrite Hl in E. rewrite E. by exists ps', (PBranch children).
Qed.

Context (decode : bytes -> option AlloyTrieNode).

Lemma store_nodes_spec l : forall ps,
  Forall (fun e : nibbles * tree => (exists n, canon_root n e.2) /\ decode (tenc e.2) = Some (alloy_of e.2)) l ->
  exists ps' parsed, store_nodes decode ps (at_path [] <$> l) = Some (ps', Some parsed) /\ store_grows ps ps'
    /\ ps_proofs ps' = ps_proofs ps /\ Forall2 (describes_entry ps') parsed l.
Proof.
  induction l as [| [path T] l IH]; intros ps Hl.
  - exists ps, []. split_and!; [done | apply store_grows_refl | done | constructor].
  - apply Forall_cons in Hl as [[[n Hc] Hdec] Hl]. rewrite fmap_cons. cbn [store_nodes at_path fst snd app].
    simpl in Hc, Hdec. rewrite Hdec. destruct (store_node_spec n ps T Hc) as (ps1 & node & -> & Hg1 & Hp1 & Hd).
    destruct (IH ps1 Hl) as (ps' & parsed & -> & Hg & Hp & Hall). exists ps', ((path, node) :: parsed).
    split_and!; [done | by eapply store_grows_trans | by rewrite Hp |]. constructor; [| done].
    split; [done |]. by eapply describes_grows.
Qed.

Lemma loaded_same_shape a a' p T key : same_shape a a' -> loaded a p T key -> loaded a' p T key.
Proof. intros (En & Et & _) Hl. unfold loaded, local_at. by rewrite En, Et. Qed.

(** C8. A proof of a key, stored and added to an empty trie, gives a trie that
    stands for the full trie: all its nodes find their place, the root hash
    is that of the full trie, the proof read from it is the proof that was
    stored, with the value of the key, and the key can be inserted without
    further nodes. *)
Theorem proof_roundtrip ps n T key schedule parallel :
  canon_root n T -> key_of n key -> (forall l, schedule l ≡ₚ l) ->
  (forall path T', tsub T path = Some T' -> decode (tenc T') = Some (alloy_of T')) ->
  ps_proofs ps !! key = None ->
  exists ps' a a', add_proof decode ps key (tproof T key) = Some (ps', Ok tt)
    /\ try_add_proof_from_proof_store default_trie ps' key = Some (a, Ok true)
    /\ trie_of (ps_rlp_ptrs ps') n a T /\ loaded a (Local 0) T key
    /\ root_hash schedule parallel ps' a = Some (a', Ok (troot T))
    /\ get_proof_nibbles_key a' ps' key = Some (Ok {| pv_proof := tproof T key; pv_value := tget T key |})
    /\ forall bs, exists a2 old, insert_nibble_key a key (Value bs) = Some (a2, Ok old).
Proof.
  intros Hc Hk Hs Hdec Hnone. pose proof (tnodes_subtrees n T key Hc Hk) as Hnodes.
  destruct (store_nodes_spec (tnodes T key) ps) as (ps1 & parsed & E1 & _ & _ & Hpar).
  { eapply Forall_impl; [exact Hnodes |]. intros e [He Hsub]. split; [done | by eapply Hdec]. }
  unfold add_proof, has_proof. rewrite bool_decide_false by (rewrite Hnone; by intros [? ?]).
  unfold tproof. rewrite E1. set (ps' := {| ps_keys := _ |}).
  assert (Forall2 (describes_entry ps') parsed (tnodes T key)) as Hpar'.
  { eapply Forall2_impl; [exact Hpar |]. intros p e [Hp Hd]. split; [done |].
    eapply (describes_grows ps1); [by split | done]. }
  destruct (tnodes_root n T key Hc Hk) as (l & El & Hch). rewrite El in Hpar'.
  apply Forall2_cons_inv_r in Hpar' as ([path node] & parsed' & [Ep Hd] & Hrest & Eparsed). simpl in Ep, Hd. subst path.
  destruct (add_root_spec ps' n T node default_trie Hc ltac:(done) eq_refl Hd) as (a1 & Ea1 & HT1).
  destruct (add_chain ps' n T parsed' l Hrest a1 [] HT1 ltac:(apply local_here) Hch) as (a & Ea & HT & Hlast).
  destruct (chain_local a (Local 0) T [] l Hch Hlast) as [Hall _]; [rewrite tsub_nil; by eexists |].
  assert (loaded a (Local 0) T key) as Hload.
  { unfold loaded. rewrite El. constructor; [apply local_here | done]. }
  destruct (root_hash_spec ps' schedule parallel n a T Hs HT) as (a' & Eh & HT' & Hsh & Hh).
  exists ps', a, a'. split_and!; [done | | done | done | done | |].
  - unfold try_add_proof_from_proof_store. assert (ps_proofs ps' !! key = Some parsed) as -> by apply lookup_insert_eq.
    rewrite Eparsed. cbn [add_proof_nodes]. by rewrite Ea1, Ea.
  - destruct HT' as (_ & _ & F & Hr'). unfold get_proof_nibbles_key.
    destruct (get_proof_loop_spec ps' (S (length key)) a' 0 0 key [] T F n Hr') as (r & -> & P);
      [by eapply hashed_root | done | done | destruct Hk; lia |].
    destruct r as [[pr v] | [e |]]; [| | done].
    + destruct P as [Ev Epr]. simpl in Ev, Epr. rewrite drop_0, take_0 in *. by rewrite Ev, Epr.
    + destruct P as [_ []]. rewrite drop_0. by eapply loaded_same_shape.
  - intros bs. destruct (insert_nibble_key_spec _ n a T key (Value bs) bs HT Hk eq_refl) as (a2 & r & -> & P).
    destruct r as [old | e]; [eauto | by destruct P as (_ & _ & [])].
Qed.

End store.
