(* ===== verification/TrieWitnesses.v ===== *)
(** * Sample tries for the theorems about the sparse trie *)

From S2P Require Import Prelude SparseTrie TrieModel TrieRep TrieSplit TriePaths TrieInsertSpec TrieHashSpec TrieSpec TrieStoreSpec TrieAddSpec.

(** A codec in the style of RLP, with a checksum for the hash. *)
Definition checksum (b : bytes) : Z := foldl (fun h x => (31 * h + x + 1) mod 256)%Z 7%Z b.

Definition tagged (tag : Z) (l1 l2 : list Z) : bytes := tag :: Z.of_nat (length l1) :: l1 ++ l2.

#[export] Instance sample_codec : TrieCodec := {|
  keccak256 b := (fun i => (checksum b + Z.of_nat i) mod 256)%Z <$> seq 0 32;
  leaf_rlp k v := tagged 1 k v;
  extension_rlp k p := tagged 2 k p;
  list_header n := [192; Z.of_nat n]%Z;
  keccak256_length b := eq_refl;
|}.

Definition in_order (l : list nat) : list nat := l.

Lemma in_order_perm l : in_order l ≡ₚ l.
Proof. done. Qed.

(** Three keys of one byte, and another way to the same content. *)
Definition sample_ops : list trie_op :=
  [Op_insert (unpack [18]) [1; 2]; Op_insert (unpack [19]) [3]; Op_root_hash true; Op_insert (unpack [33]) [4]]%Z.
Definition other_ops : list trie_op :=
  [Op_insert (unpack [33]) [4]; Op_insert (unpack [20]) [9]; Op_insert (unpack [19]) [5];
   Op_insert (unpack [18]) [1; 2]; Op_root_hash false; Op_delete (unpack [20]); Op_delete (unpack [21]);
   Op_insert (unpack [19]) [3]]%Z.

Definition built (ops : list trie_op) : Trie := default new_empty (run_ops in_order new_empty ops).
Definition sample_trie : Trie := built sample_ops.
Definition other_trie : Trie := built other_ops.

Lemma byte_key_1 b : (0 <= b < 256)%Z -> byte_key 1 [b].
Proof. intros Hb. split; [done |]. constructor; [exact Hb | constructor]. Defined.

Lemma sample_keys_ok : Forall (op_key_ok 2) sample_ops /\ Forall (op_key_ok 2) other_ops.
Proof.
  assert (forall b, (0 <= b < 256)%Z -> key_of 2 (unpack [b])) as Hk
    by (intros b Hb; by apply (unpack_key 1), byte_key_1).
  split; unfold sample_ops, other_ops; repeat (apply Forall_cons; split); try (apply Hk; lia); constructor.
Defined.

Lemma built_trie ops : Forall (op_key_ok 2) ops -> exists T, trie_of [] 2 (built ops) T /\ content 2 T (foldl map_op ∅ ops).
Proof.
  intros Hops. destruct (run_ops_spec in_order 2 ops in_order_perm Hops new_empty TNull ∅ (new_empty_trie 2)) as (a & T & E & HT & Hm).
  { intros k _. by rewrite lookup_empty. }
  exists T. unfold built. by rewrite E.
Qed.

Lemma sample_trie_ok : exists T, trie_of [] 2 sample_trie T /\ content 2 T (foldl map_op ∅ sample_ops).
Proof. exact (built_trie sample_ops (proj1 sample_keys_ok)). Qed.

Lemma other_trie_ok : exists T, trie_of [] 2 other_trie T /\ content 2 T (foldl map_op ∅ other_ops).
Proof. exact (built_trie other_ops (proj2 sample_keys_ok)). Qed.

#[local] Opaque sample_trie other_trie sample_codec.

(** A key with a common first nibble splits a leaf. *)
Lemma sparse_trie_insert_witness : exists T, trie_of [] (2 * 1) sample_trie T
  /\ byte_key 1 [20%Z]
  /\ exists a' r, SparseTrie.insert sample_trie [20%Z] [6%Z] = Some (a', r) /\ r = Ok None
  /\ exists T', trie_of [] (2 * 1) a' T' /\ tget T' (unpack [20%Z]) = Some [6%Z].
Proof.
  destruct sample_trie_ok as (T & HT & Hm). exists T.
  assert (byte_key 1 [20%Z]) as Hk by (apply byte_key_1; lia).
  split; [exact HT |]. split; [exact Hk |].
  destruct (sparse_trie_insert [] 1 sample_trie T [20%Z] [6%Z] HT Hk) as (a' & r & E & P).
  exists a', r. split; [exact E |]. assert (r = Ok None) as -> by (vm_compute in E; congruence).
  split; [reflexivity |]. destruct P as (T' & HT' & _ & Hu). exists T'. split; [exact HT' |]. rewrite (Hu _ Hk).
  by rewrite decide_True.
Defined.

(** Deleting merges the branch that is left with one leaf into its parent. *)
Lemma sparse_trie_delete_witness : exists T, trie_of [] (2 * 1) sample_trie T
  /\ byte_key 1 [18%Z]
  /\ exists a' old, SparseTrie.delete sample_trie [18%Z] = Some (a', Ok old)
  /\ exists T', trie_of [] (2 * 1) a' T' /\ tget T' (unpack [18%Z]) = None
       /\ tget T (unpack [18%Z]) = Some [1; 2]%Z.
Proof.
  destruct sample_trie_ok as (T & HT & Hm). exists T.
  assert (byte_key 1 [18%Z]) as Hk by (apply byte_key_1; lia).
  split; [exact HT |]. split; [exact Hk |].
  destruct (sparse_trie_delete [] 1 sample_trie T [18%Z] HT Hk) as (a' & r & E & P). exists a'.
  assert (tget T (unpack [18%Z]) = Some [1; 2]%Z) as Hget.
  { rewrite (Hm (unpack [18%Z])) by (by apply (unpack_key 1)). vm_compute. reflexivity. }
  destruct r as [old | [e |]]; [| by vm_compute in E | by vm_compute in E]. exists old. split; [exact E |].
  destruct P as (T' & HT' & _ & _ & Hu). exists T'. split; [exact HT' |]. split; [| exact Hget]. rewrite (Hu _ Hk).
  by rewrite decide_True.
Defined.

Lemma root_hash_of_content_witness : exists T1 T2, trie_of [] 2 sample_trie T1 /\ trie_of [] 2 other_trie T2
  /\ same_content 2 T1 T2
  /\ exists a1 a2 h, root_hash in_order true empty_store sample_trie = Some (a1, Ok h)
       /\ root_hash in_order false empty_store other_trie = Some (a2, Ok h).
Proof.
  destruct sample_trie_ok as (T1 & HT1 & Hm1).
  destruct other_trie_ok as (T2 & HT2 & Hm2).
  assert (same_content 2 T1 T2) as Hsame.
  { assert (foldl map_op ∅ sample_ops = foldl map_op ∅ other_ops) as Hm by (vm_compute; reflexivity).
    intros k Hk. by rewrite (Hm1 k Hk), (Hm2 k Hk), Hm. }
  exists T1, T2. split; [exact HT1 |]. split; [exact HT2 |]. split; [exact Hsame |].
  destruct (root_hash_of_content empty_store empty_store in_order in_order true false 2 sample_trie other_trie T1 T2
    in_order_perm in_order_perm HT1 HT2 Hsame) as (a1 & a2 & h & E1 & E2 & _).
  exists a1, a2, h. split; [exact E1 | exact E2].
Defined.

Lemma root_hash_history_independent_witness :
  Forall (op_key_ok 2) sample_ops /\ Forall (op_key_ok 2) other_ops
  /\ foldl map_op ∅ sample_ops = foldl map_op ∅ other_ops
  /\ exists a1 a2 T, run_ops in_order new_empty sample_ops = Some a1 /\ run_ops in_order new_empty other_ops = Some a2
  /\ content 2 T (foldl map_op ∅ sample_ops)
  /\ exists a1' a2', root_hash in_order false empty_store a1 = Some (a1', Ok (troot T))
       /\ root_hash in_order true empty_store a2 = Some (a2', Ok (troot T)).
Proof.
  split; [apply sample_keys_ok |]. split; [apply sample_keys_ok |].
  assert (foldl map_op ∅ sample_ops = foldl map_op ∅ other_ops) as Hm by (vm_compute; reflexivity).
  split; [exact Hm |].
  destruct (root_hash_history_independent in_order 2 sample_ops in_order_perm (proj1 sample_keys_ok))
    as (a1 & T & E1 & HT & Hc & Hh & Hother).
  destruct (Hother in_order other_ops in_order_perm (proj2 sample_keys_ok) (eq_sym Hm)) as (a2 & E2 & HT2 & Hh2).
  destruct (Hh false) as (a1' & R1 & HT1'). destruct (Hh2 true) as (a2' & R2).
  exists a1, a2, T. split; [exact E1 |]. split; [exact E2 |]. split; [exact Hc |].
  exists a1', a2'. split; [exact R1 | exact R2].
Defined.

Lemma proof_of_hashed_trie_witness : exists T, trie_of (ps_rlp_ptrs empty_store) (2 * 1) sample_trie T
  /\ byte_key 1 [19%Z] /\ get_proof sample_trie empty_store [19%Z] = Some (Err Proof_TrieIsDirty)
  /\ exists a' h pv, root_hash in_order true empty_store sample_trie = Some (a', Ok h)
       /\ get_proof a' empty_store [19%Z] = Some (Ok pv) /\ pv_value pv = Some [3%Z]
       /\ pv_proof pv = tproof T (unpack [19%Z]).
Proof.
  destruct sample_trie_ok as (T & HT & Hm). exists T.
  assert (byte_key 1 [19%Z]) as Hk by (apply byte_key_1; lia).
  destruct (proof_of_hashed_trie empty_store in_order true 1 sample_trie T [19%Z] in_order_perm HT Hk)
    as [Hdirty (a' & h & r & Eh & Er & P)]. split; [exact HT |]. split; [exact Hk |]. split; [apply Hdirty; vm_compute; reflexivity |].
  assert (tget T (unpack [19%Z]) = Some [3%Z]) as Hget.
  { rewrite (Hm (unpack [19%Z])) by (by apply (unpack_key 1)). vm_compute. reflexivity. }
  destruct r as [pv | [e |]]; [| | destruct P].
  - destruct P as (Hv & Hp & _). exists a', h, pv. split; [exact Eh |]. split; [exact Er |]. split; [by rewrite Hv | exact Hp].
  - destruct P as [_ []]. destruct (root_hash_spec empty_store in_order true 2 sample_trie T in_order_perm HT) as (a2 & E2 & HT2 & _).
    assert (a2 = a') as -> by congruence. apply (full_loaded 2); [done | by apply (unpack_key 1)].
Defined.

#[local] Transparent sample_codec.

(** ** A proof of a trie with two leaves *)
Definition two_leaves : tree := two_children 1 2 (TLeaf [3%Z] [7%Z]) (TLeaf [4%Z] [8; 9]%Z).

Definition sample_decode (b : bytes) : option AlloyTrieNode :=
  match filter (fun T => tenc T = b) [two_leaves; TLeaf [3%Z] [7%Z]; TLeaf [4%Z] [8; 9]%Z] with
  | T :: _ => Some (alloy_of T)
  | [] => None
  end.

Lemma two_leaves_canon : canon_root 2 two_leaves.
Proof. right. apply canon_two; [done | done | done | by repeat constructor | by repeat constructor]. Defined.

Lemma two_leaves_sub path T' : tsub two_leaves path = Some T' ->
  T' = two_leaves \/ T' = TLeaf [3%Z] [7%Z] \/ T' = TLeaf [4%Z] [8; 9]%Z.
Proof.
  destruct path as [| x path]; [rewrite tsub_nil; intros [= <-]; by left |].
  unfold two_leaves, two_children. rewrite tsub_branch, child_two by done.
  repeat case_decide; simpl; try done; destruct path; simpl; intros [= <-]; auto.
Defined.

Lemma sample_decode_ok path T' : tsub two_leaves path = Some T' -> sample_decode (tenc T') = Some (alloy_of T').
Proof. intros [-> | [-> | ->]]%two_leaves_sub; vm_compute; reflexivity. Defined.

Lemma proof_roundtrip_witness : exists ps' a a', add_proof sample_decode empty_store [2; 4]%Z (tproof two_leaves [2; 4]%Z) = Some (ps', Ok tt)
    /\ try_add_proof_from_proof_store default_trie ps' [2; 4]%Z = Some (a, Ok true)
    /\ root_hash in_order false ps' a = Some (a', Ok (troot two_leaves))
    /\ get_proof_nibbles_key a' ps' [2; 4]%Z = Some (Ok {| pv_proof := tproof two_leaves [2; 4]%Z; pv_value := Some [8; 9]%Z |})
    /\ length (ps_rlp_ptrs ps') = 2%nat.
Proof.
  destruct (proof_roundtrip sample_decode empty_store 2 two_leaves [2; 4]%Z in_order false two_leaves_canon)
    as (ps' & a & a' & E1 & E2 & _ & _ & E3 & E4 & _).
  - split; [done |]. by repeat constructor.
  - apply in_order_perm.
  - apply sample_decode_ok.
  - done.
  - exists ps', a, a'. split_and!; [exact E1 | exact E2 | exact E3 | exact E4 |].
    vm_compute in E1. by injection E1 as <-.
Defined.
