(* ===== verification/OrderingBuilder.v ===== *)
(** * The ordering builder (building/builders/ordering_builder.rs, builders/mod.rs,
      live_builder/building/built_block_cache.rs)

    Orders arrive in batches and are kept in a prioritized store; for each batch
    a block is built from a copy of the store: the best order is tried, kept if
    it is worth what was expected, tried again with its new value if not, and
    given up after some attempts.  A second stage tries the orders that worked
    for other builders. *)

From S2P Require Import Prelude Transactions Bundles Orders SimTypes OrderSinks OrderPriority BlockOrders World CommitMonad OrderCommit PartialBlock SimTree ConstraintPool BlockHelper.

(** ** Blocks of other builders *)
Definition BuiltBlockInfo := gset OrderId.

Definition contains_order (i : BuiltBlockInfo) (o : Order) : bool := bool_decide (Order_id o ∈ i).

(** By the name of the builder. *)
Definition BuiltBlockCache := gmap string BuiltBlockInfo.

Definition update_from_new_unfinished_block (c : BuiltBlockCache) (builder_name : string)
    (trace : BuiltBlockTrace) : BuiltBlockCache :=
  <[builder_name := list_to_set ((fun r => Order_id (er_order r)) <$> bt_included_orders trace)]> c.

Definition get_block_infos (c : BuiltBlockCache) (filter_out_builder_name : string)
  : list BuiltBlockInfo :=
  snd <$> filter (fun p => p.1 <> filter_out_builder_name) (map_to_list c).

(** ** Filling a block *)
Record OrderingBuilderConfig := {
  oc_discard_txs : bool;
  oc_sorting : Sorting;
  oc_failed_order_retries : nat;
  oc_drop_failed_orders : bool;
  oc_build_duration_deadline_ms : option Z;
  oc_pre_filtered_build_duration_deadline_ms : option Z;
  oc_ignore_mempool_profit_on_bundles : bool;
}.

(** What filling changes: the helper, the orders left, the scratchpads of the
    builder, and the number of times the clock was read. *)
Record Filling (W C Q : Type) := {
  fl_helper : BlockBuildingHelper W C;
  fl_orders : PrioritizedOrderStore Q;
  fl_failed_orders : gset OrderId;
  fl_order_attempts : gmap OrderId nat;
  fl_clock : nat;
}.
Arguments fl_helper {_ _ _} _.
Arguments fl_orders {_ _ _} _.
Arguments fl_failed_orders {_ _ _} _.
Arguments fl_order_attempts {_ _ _} _.
Arguments fl_clock {_ _ _} _.
Arguments Build_Filling {_ _ _}.

(** One iteration of the loop goes on, leaves it, or fails. *)
Inductive FillStep (F : Type) :=
| Fill_Continue (f : F)
| Fill_Break (f : F)
| Fill_Critical (f : F) (e : CriticalCommitOrderError)
| Fill_Panic (f : F).
Arguments Fill_Continue {_} f.
Arguments Fill_Break {_} f.
Arguments Fill_Critical {_} f e.
Arguments Fill_Panic {_} f.

Section builder.
Context {W Diff C : Type} `{ChainState W Diff} `{!TxCache W Diff C} `{PayoutSigner}.
Context `{!HashOrder Address} `{!HashOrder nat} `{ConstraintCodec}.
Context {P Q : Type} `{!OrderPriority P} `{!PriorityQueue P Q} `{!HashOrder OrderId}.
Context (ctx : BlockBuildingContext).
(** The n-th reading of the time since the build started. *)
Context (elapsed : nat -> Z).
Abbreviation Helper := (BlockBuildingHelper W C).
Abbreviation Fill := (Filling W C Q).

Definition simulation_too_low (original_sim_result new_sim_result : SimValue)
  : result unit ExecutionError :=
  if prio_simulation_too_low (P := P) original_sim_result new_sim_result
  then Err (LowerInsertedValue original_sim_result new_sim_result) else Ok tt.

(** The filter passed to [commit_order]: system transactions are always kept. *)
Definition value_filter (sim_order : SimulatedOrder) (sim_result : SimValue)
  : result unit ExecutionError :=
  if negb (is_system (Order_metadata (so_order sim_order)))
  then simulation_too_low (so_sim_value sim_order) sim_result else Ok tt.

Definition with_sim_value (o : SimulatedOrder) (v : SimValue) : SimulatedOrder :=
  {| so_order := so_order o; so_sim_value := v; so_used_state_trace := so_used_state_trace o |}.

Definition mark_failed (f : Fill) (id : OrderId) (attempts : gmap OrderId nat) : Fill :=
  Build_Filling (fl_helper f) (fl_orders f) ({[id]} ∪ fl_failed_orders f) attempts (fl_clock f).

(** A failed order whose value was too low is inserted again with the value it
    had, while it has attempts left. *)
Definition handle_failure (retries : nat) (f : Fill) (sim_order : SimulatedOrder)
    (err : ExecutionError) : Fill :=
  let id := so_id sim_order in
  match err with
  | LowerInsertedValue _ inplace =>
      let attempts := default O (fl_order_attempts f !! id) in
      if (attempts <? retries)%nat
      then Build_Filling (fl_helper f)
             (po_insert_order (fl_orders f) (with_sim_value sim_order inplace))
             (fl_failed_orders f) (<[id := S attempts]> (fl_order_attempts f)) (fl_clock f)
      else mark_failed f id (<[id := attempts]> (fl_order_attempts f))
  | _ => mark_failed f id (fl_order_attempts f)
  end.

Definition account_nonces (l : list (Address * U64)) : list AccountNonce :=
  (fun p => {| an_account := p.1; an_nonce := p.2 |}) <$> l.

(** [commit_order] for the popped order and what follows it. *)
Definition try_order (retries : nat) (f : Fill) (sim_order : SimulatedOrder) : FillStep Fill :=
  let '(h, r) := helper_commit_order ctx sim_order (value_filter sim_order) (fl_helper f) in
  let f := Build_Filling h (fl_orders f) (fl_failed_orders f) (fl_order_attempts f) (fl_clock f) in
  match r with
  | Panic => Fill_Panic f
  | Critical e => Fill_Critical f e
  | Done (Ok res) =>
      match update_onchain_nonces (fl_orders f) (account_nonces (er_nonces_updated res)) with
      | None => Fill_Panic f
      | Some s =>
          Fill_Continue (Build_Filling h s (fl_failed_orders f) (fl_order_attempts f) (fl_clock f))
      end
  | Done (Err err) => Fill_Continue (handle_failure retries f sim_order err)
  end.

(** One iteration.  The order is popped before the deadline is checked. *)
Definition fill_step (retries : nat) (order_filter : SimulatedOrder -> bool) (deadline : option Z)
    (f : Fill) : FillStep Fill :=
  match pop_order (fl_orders f) with
  | None => Fill_Panic f
  | Some (s, None) =>
      Fill_Break (Build_Filling (fl_helper f) s (fl_failed_orders f) (fl_order_attempts f) (fl_clock f))
  | Some (s, Some sim_order) =>
      let f := Build_Filling (fl_helper f) s (fl_failed_orders f) (fl_order_attempts f) (fl_clock f) in
      if bool_decide (sim_gas_used (so_sim_value sim_order) = 0) || negb (order_filter sim_order)
      then Fill_Continue f
      else
        match deadline with
        | Some d =>
            let f' := Build_Filling (fl_helper f) s (fl_failed_orders f) (fl_order_attempts f)
                        (S (fl_clock f)) in
            if decide (elapsed (fl_clock f) > d) then Fill_Break f' else try_order retries f' sim_order
        | None => try_order retries f sim_order
        end
  end.

(** The loop; the outer [None] is that the fuel ran out. *)
Fixpoint fill_orders (fuel : nat) (retries : nat) (order_filter : SimulatedOrder -> bool)
    (deadline : option Z) (f : Fill) : option (Fill * outcome unit) :=
  match fuel with
  | O => None
  | S fuel =>
      match fill_step retries order_filter deadline f with
      | Fill_Continue f => fill_orders fuel retries order_filter deadline f
      | Fill_Break f => Some (f, Done tt)
      | Fill_Critical f e => Some (f, Critical e)
      | Fill_Panic f => Some (f, Panic)
      end
  end.

(** ** Building a block *)
Definition on_helper_trace (f : Fill) (g : BuiltBlockTrace -> BuiltBlockTrace) : Fill :=
  Build_Filling ((update_trace g (fl_helper f)).1) (fl_orders f) (fl_failed_orders f)
    (fl_order_attempts f) (fl_clock f).

(** The second stage, with the orders that are in blocks of other builders. *)
Definition fill_filtered (fuel : nat) (config : OrderingBuilderConfig)
    (block_infos : list BuiltBlockInfo) (f : Fill) : option (Fill * outcome unit) :=
  let base := hp_trace (fl_helper f) in
  let '(f, deadline) :=
    match oc_pre_filtered_build_duration_deadline_ms config with
    | Some d => (Build_Filling (fl_helper f) (fl_orders f) (fl_failed_orders f)
                   (fl_order_attempts f) (S (fl_clock f)), Some (elapsed (fl_clock f) + d))
    | None => (f, None)
    end in
  let! (f, r) := fill_orders fuel (oc_failed_order_retries config)
                   (fun o => existsb (fun i => contains_order i (so_order o)) block_infos) deadline f in
  match r with
  | Done _ =>
      Some (on_helper_trace f (fun t => set_filtered_build_statistics t
              (OrderStatistics_minus (bt_considered_orders_statistics t)
                 (bt_considered_orders_statistics base))
              (OrderStatistics_minus (bt_failed_orders_statistics t)
                 (bt_failed_orders_statistics base))), Done tt)
  | r => Some (f, r)
  end.

(** [build_block_with_execution_tracer] for a helper that was created; the
    scratchpads start empty. *)
Definition fill_block (fuel : nat) (config : OrderingBuilderConfig)
    (block_infos : list BuiltBlockInfo) (h : Helper) (block_orders : PrioritizedOrderStore Q)
  : option (Fill * outcome unit) :=
  let f := Build_Filling h block_orders ∅ ∅ 0 in
  let! (f, r) := fill_orders fuel (oc_failed_order_retries config) (fun _ => true)
                   (oc_build_duration_deadline_ms config) f in
  match r with
  | Done _ =>
      if bool_decide (oc_pre_filtered_build_duration_deadline_ms config <> Some 0)
         && negb (bool_decide (block_infos = []))
      then fill_filtered fuel config block_infos f
      else Some (f, Done tt)
  | r => Some (f, r)
  end.

(** The orders that failed, kept also after an error, and the block. *)
Definition build_block_with_execution_tracer (fuel : nat) (config : OrderingBuilderConfig)
    (healthy : bool) (w : W) (c : C) (withdrawals_length : Z)
    (system_calls : W -> result Diff unit) (block_infos : list BuiltBlockInfo)
    (block_orders : PrioritizedOrderStore Q)
  : option (gset OrderId * outcome (result Helper BlockBuildingHelperError)) :=
  match new_with_execution_tracer ctx healthy w c (oc_discard_txs config) withdrawals_length
          system_calls (orders_statistics block_orders) with
  | Err e => Some (∅, Done (Err e))
  | Ok h =>
      let! (f, r) := fill_block fuel config block_infos h block_orders in
      Some (fl_failed_orders f,
            match r with
            | Done _ => Done (Ok (fl_helper f))
            | Critical e => Critical e
            | Panic => Panic
            end)
  end.

End builder.

(** ** Intake of orders (builders/mod.rs)

    What a channel yields; when nothing is left, it is closed. *)
Inductive ChannelEvent :=
| Received (c : SimulatedOrderCommand)
| Lagged
| Empty
| Closed.

(** Up to [n] messages that are there already; [true] unless the channel is closed. *)
Fixpoint try_recv_all (n : nat) (events : list ChannelEvent) (new_commands : list SimulatedOrderCommand)
  : list ChannelEvent * list SimulatedOrderCommand * bool :=
  match n with
  | O => (events, new_commands, true)
  | S n =>
      match events with
      | [] => ([], new_commands, false)
      | Received c :: events => try_recv_all n events (new_commands ++ [c])
      | Empty :: events | Lagged :: events => (events, new_commands, true)
      | Closed :: events => (events, new_commands, false)
      end
  end.

(** The first message is waited for: a channel that is only empty is no event. *)
Fixpoint blocking_consume_next_commands (events : list ChannelEvent)
    (new_commands : list SimulatedOrderCommand)
  : list ChannelEvent * list SimulatedOrderCommand * bool :=
  match events with
  | [] => ([], new_commands, false)
  | Empty :: events => blocking_consume_next_commands events new_commands
  | Closed :: events => (events, new_commands, false)
  | Received c :: events => try_recv_all 1024 events (new_commands ++ [c])
  | Lagged :: events => try_recv_all 1024 events new_commands
  end.

Record OrderIntakeConsumer (Q : Type) := {
  in_nonces : NonceCache;
  in_block_orders : PrioritizedOrderStore Q;
  in_onchain_nonces_updated : gset Address;
  in_new_commands : list SimulatedOrderCommand;
}.
Arguments in_nonces {_} _.
Arguments in_block_orders {_} _.
Arguments in_onchain_nonces_updated {_} _.
Arguments in_new_commands {_} _.
Arguments Build_OrderIntakeConsumer {_}.

Section intake.
Context {P Q : Type} `{!OrderPriority P} `{!PriorityQueue P Q} `{!HashOrder OrderId}.
Context `{NonceProvider}.

Definition OrderIntakeConsumer_new (nonces : NonceCache) : OrderIntakeConsumer Q :=
  Build_OrderIntakeConsumer nonces (PrioritizedOrderStore_new []) ∅ [].

Definition new_order_nonces (cs : list SimulatedOrderCommand) : list Nonce :=
  cs ≫= fun c => match c with Simulation o => Order_nonces (so_order o) | Cancellation _ => [] end.

(** The loops of [update_onchain_nonces]: an account is marked as updated when
    its nonce was read, before it reaches the store. *)
Fixpoint read_new_nonces (c : NonceCache) (updated : gset Address) (ns : list Nonce)
    (nonces : list AccountNonce) : NonceCache * gset Address * result (list AccountNonce) unit :=
  match ns with
  | [] => (c, updated, Ok nonces)
  | n :: ns =>
      if decide (nonce_address n ∈ updated) then read_new_nonces c updated ns nonces
      else
        match cached_nonce c (nonce_address n) with
        | (c, Err e) => (c, updated, Err e)
        | (c, Ok onchain_nonce) =>
            read_new_nonces c ({[nonce_address n]} ∪ updated) ns
              (nonces ++ [{| an_account := nonce_address n; an_nonce := onchain_nonce |}])
        end
  end.

(** [None] is a panic of the store. *)
Definition intake_update_onchain_nonces (i : OrderIntakeConsumer Q)
  : option (OrderIntakeConsumer Q * result bool unit) :=
  let '(c, updated, r) := read_new_nonces (in_nonces i) (in_onchain_nonces_updated i)
                            (new_order_nonces (in_new_commands i)) [] in
  match r with
  | Err e => Some (Build_OrderIntakeConsumer c (in_block_orders i) updated (in_new_commands i), Err e)
  | Ok nonces =>
      let! s := update_onchain_nonces (in_block_orders i) nonces in
      Some (Build_OrderIntakeConsumer c s updated (in_new_commands i), Ok true)
  end.

Definition apply_new_commands (i : OrderIntakeConsumer Q) : OrderIntakeConsumer Q :=
  Build_OrderIntakeConsumer (in_nonces i)
    (foldl (fun s c => simulated_order_command_to_sink c s) (in_block_orders i) (in_new_commands i))
    (in_onchain_nonces_updated i) [].

Definition blocking_consume_next_batch (i : OrderIntakeConsumer Q) (events : list ChannelEvent)
  : option (OrderIntakeConsumer Q * list ChannelEvent * result bool unit) :=
  let '(events, cs, open) := blocking_consume_next_commands events (in_new_commands i) in
  let i := Build_OrderIntakeConsumer (in_nonces i) (in_block_orders i)
             (in_onchain_nonces_updated i) cs in
  if open then
    let! (i, r) := intake_update_onchain_nonces i in
    match r with
    | Err e => Some (i, events, Err e)
    | Ok _ => Some (apply_new_commands i, events, Ok true)
    end
  else Some (i, events, Ok false).

Definition intake_remove_orders (i : OrderIntakeConsumer Q) (ids : list OrderId)
  : OrderIntakeConsumer Q * list SimulatedOrder :=
  let '(s, removed) := sim_remove_orders (in_block_orders i) ids in
  (Build_OrderIntakeConsumer (in_nonces i) s (in_onchain_nonces_updated i) (in_new_commands i), removed).

End intake.
