(* ===== verification/BlockOutput.v ===== *)
(** * From unfinished blocks to submissions (live_builder/block_output)

    Building algorithms hand in unfinished blocks; the best of their last blocks is
    prefinalized and announced to the bidder; a bid seals it, for each set of relays by
    a thread of its own.  The threads share memory under locks: the model is a
    transition system whose steps are the stretches of code between two accesses to
    shared state, and an action says which thread moves. *)

From S2P Require Import Prelude Transactions Bundles Orders SimTypes World CommitMonad OrderCommit PartialBlock ConstraintPool BlockHelper OrderingBuilder.

(** ** Bidding (bidding_service_interface.rs)

    Without the times that are only reported. *)
Abbreviation BuiltBlockId := Z (only parsing).
Abbreviation MevBoostRelayID := string (only parsing).

Definition relay_le (a b : MevBoostRelayID) : Prop := String.leb a b = true.
#[export] Instance relay_le_dec : RelDecision relay_le.
Proof. intros a b. unfold relay_le. apply _. Defined.

Record RelaySet := mk_RelaySet { relays : list MevBoostRelayID }.
#[export] Instance RelaySet_eq_dec : EqDecision RelaySet.
Proof. solve_decision. Defined.
#[export] Instance RelaySet_countable : Countable RelaySet.
Proof. by apply (inj_countable' relays mk_RelaySet); intros []. Defined.

(** Sorted, so that equal sets are equal. *)
Definition RelaySet_new (l : list MevBoostRelayID) : RelaySet := mk_RelaySet (merge_sort relay_le l).

Record BuiltBlockDescriptorForSlotBidder := { bd_true_block_value : U256; bd_id : BuiltBlockId }.

Record PayoutInfo := { pi_relays : RelaySet; pi_payout_tx_value : U256; pi_subsidy : Z }.

Record SlotBidderSealBidCommand := {
  sb_block_id : BuiltBlockId;
  sb_seen_competition_bid : option U256;
  sb_payout_info : list PayoutInfo;
}.

(** ** Bidding the true value (true_value_bidding_service.rs) *)
Section bidder.
Context `{!HashOrder string} `{!HashOrder RelaySet}.

Record NewTrueBlockValueBiddingService := {
  nt_slot_delta_to_start_bidding : Z;
  nt_relay_sets_subsidies : gmap RelaySet U256;
}.

(** The loop over the overrides, in the iteration order of their hash map. *)
Definition take_override (subsidy_overrides : gmap MevBoostRelayID U256)
    (acc : gset MevBoostRelayID * gmap RelaySet U256) (relay : MevBoostRelayID)
  : gset MevBoostRelayID * gmap RelaySet U256 :=
  match subsidy_overrides !! relay with
  | Some subsidy => (acc.1 ∖ {[relay]}, <[RelaySet_new [relay] := subsidy]> acc.2)
  | None => acc
  end.

Definition NewTrueBlockValueBiddingService_new (subsidy : U256) (subsidy_overrides : gmap MevBoostRelayID U256)
    (slot_delta_to_start_bidding : Z) (all_relays : RelaySet) : NewTrueBlockValueBiddingService :=
  let '(default_relay_set, relay_sets_subsidies) :=
    foldl (take_override subsidy_overrides) (list_to_set (relays all_relays), ∅) (hash_order (dom subsidy_overrides)) in
  {| nt_slot_delta_to_start_bidding := slot_delta_to_start_bidding;
     nt_relay_sets_subsidies :=
       if decide (default_relay_set = ∅) then relay_sets_subsidies
       else <[RelaySet_new (hash_order default_relay_set) := subsidy]> relay_sets_subsidies |}.

Definition service_relay_sets (s : NewTrueBlockValueBiddingService) : list RelaySet :=
  hash_order (dom (nt_relay_sets_subsidies s)).

Record NewTrueBlockValueSlotBidder := {
  nb_bid_start_time : Z;
  nb_relay_sets_subsidies : gmap RelaySet U256;
}.

Definition create_slot_bidder (s : NewTrueBlockValueBiddingService) (slot_timestamp : Z) : NewTrueBlockValueSlotBidder :=
  {| nb_bid_start_time := slot_timestamp + nt_slot_delta_to_start_bidding s;
     nb_relay_sets_subsidies := nt_relay_sets_subsidies s |}.

(** [None] is a panic of [unwrap]; the inner [None] that it is too early to bid. *)
Definition notify_new_built_block (s : NewTrueBlockValueSlotBidder) (now : Z)
    (block_descriptor : BuiltBlockDescriptorForSlotBidder) : option (option SlotBidderSealBidCommand) :=
  if decide (now < nb_bid_start_time s) then Some None
  else
    let! payout_info := mapM (fun relay_set =>
      let! subsidy := nb_relay_sets_subsidies s !! relay_set in
      let! signed := i256_try_from subsidy in
      Some {| pi_relays := relay_set;
              pi_payout_tx_value := u256_add (bd_true_block_value block_descriptor) subsidy;
              pi_subsidy := signed |}) (hash_order (dom (nb_relay_sets_subsidies s))) in
    Some (Some {| sb_block_id := bd_id block_descriptor; sb_seen_competition_bid := None;
                  sb_payout_info := payout_info |}).
End bidder.

(** ** Block building helpers

    The trait as the pipeline uses it; a helper is a value, [box_clone] copies it.
    Finalizing and adjusting change the helper and the context of the thread; [None]
    is a panic. *)
Class BlockHelper (H Ctx B : Type) := {
  bh_built_block_trace : H -> BuiltBlockTrace;
  bh_id : H -> BuiltBlockId;
  bh_builder_name : H -> string;
  bh_transactions_hash : H -> U64;
  bh_true_block_value : H -> result U256 BlockBuildingHelperError;
  bh_finalize_block : H -> Ctx -> U256 -> Z -> option U256 ->
    H * Ctx * option (result B BlockBuildingHelperError);
  bh_adjust_finalized_block : H -> Ctx -> U256 -> Z -> option U256 ->
    H * Ctx * option (result B BlockBuildingHelperError);
  local_ctx_default : Ctx;
}.

Section output.
Context {H Ctx B : Type} `{BlockHelper H Ctx B}.
Context `{!HashOrder string} `{!HashOrder RelaySet}.

Record BiddableUnfinishedBlock := { bu_block : H; bu_true_block_value : U256 }.

Definition BiddableUnfinishedBlock_new (block : H) : result BiddableUnfinishedBlock BlockBuildingHelperError :=
  let? true_block_value := bh_true_block_value block in
  Ok {| bu_block := block; bu_true_block_value := true_block_value |}.

Definition descriptor (block_id : BuiltBlockId) (block : BiddableUnfinishedBlock) : BuiltBlockDescriptorForSlotBidder :=
  {| bd_true_block_value := bu_true_block_value block; bd_id := block_id |}.

(** ** The best of the last blocks (best_block_from_algorithms.rs) *)
Record BestBlockFromAlgorithms := {
  last_block_by_algorithm : gmap string BiddableUnfinishedBlock;
  last_best_block_hash : U64;
}.

Definition BestBlockFromAlgorithms_default : BestBlockFromAlgorithms :=
  {| last_block_by_algorithm := ∅; last_best_block_hash := 0 |}.

(** The last of the greatest elements, as [max_by_key] has it. *)
Definition max_by_value (l : list BiddableUnfinishedBlock) : option BiddableUnfinishedBlock :=
  foldl (fun best b =>
    match best with
    | Some m => if decide (bu_true_block_value m <= bu_true_block_value b) then Some b else Some m
    | None => Some b
    end) None l.

(** In the iteration order of the hash map; [None] is a panic of [unwrap]. *)
Definition last_blocks (s : BestBlockFromAlgorithms) : list BiddableUnfinishedBlock :=
  omap (fun name => last_block_by_algorithm s !! name) (hash_order (dom (last_block_by_algorithm s))).

Definition update_with_new_block (s : BestBlockFromAlgorithms) (block : BiddableUnfinishedBlock)
  : option (BestBlockFromAlgorithms * option BiddableUnfinishedBlock) :=
  let s := {| last_block_by_algorithm := <[bh_builder_name (bu_block block) := block]> (last_block_by_algorithm s);
              last_best_block_hash := last_best_block_hash s |} in
  let! last_best_block := max_by_value (last_blocks s) in
  let best_block_hash := bh_transactions_hash (bu_block last_best_block) in
  if decide (last_best_block_hash s = best_block_hash) then Some (s, None)
  else Some ({| last_block_by_algorithm := last_block_by_algorithm s; last_best_block_hash := best_block_hash |},
             Some last_best_block).

(** ** Watches (utils/sync.rs)

    A cell that keeps the last value; a consumer that waits takes it. *)
Definition Watch (T : Type) : Type := option T.
Definition Watch_new {T} : Watch T := None.
Definition watch_set {T} (w : Watch T) (data : T) : Watch T := Some data.
Definition wait_for_data {T} (w : Watch T) : option T * Watch T := (w, None).

(** ** Shared state (unfinished_block_processing.rs)

    A [PrefinalizedBlockInner] is shared: it is a cell, named by its position. *)
Record PrefinalizedBlockInner := { in_helper : H; in_local_ctx : option Ctx }.

Record PrefinalizedBlock := { pf_block_id : BuiltBlockId; pf_inner : nat }.

Record FinalizeCommand := {
  fc_prefinalized_block : PrefinalizedBlock;
  fc_value : U256;
  fc_subsidy : Z;
  fc_seen_competition_bid : option U256;
}.

(** [finalize_input] is the watch of the set of relays that is the key. *)
Record MultiPrefinalizedBlock := {
  mp_block_id : BuiltBlockId;
  mp_by_relay_set : gmap RelaySet PrefinalizedBlock;
}.

Record UnfinishedBuiltBlocksInput := {
  ui_built_block_cache : BuiltBlockCache;
  ui_best_block_from_algorithms : BestBlockFromAlgorithms;
  ui_last_unfinalized_block : Watch BiddableUnfinishedBlock;
  ui_unused_prefinalized_block_inners : list nat;
  ui_pre_finalized_multi_blocks : list MultiPrefinalizedBlock;
  ui_last_finalize_commands : gmap RelaySet (Watch FinalizeCommand);
  ui_cancelled : bool;
  ui_adjust_finalized_blocks : bool;
  ui_inners : list PrefinalizedBlockInner;
}.

Definition UnfinishedBuiltBlocksInput_new (cache : BuiltBlockCache) (adjust_finalized_blocks : bool)
    (relay_sets : list RelaySet) : UnfinishedBuiltBlocksInput :=
  {| ui_built_block_cache := cache; ui_best_block_from_algorithms := BestBlockFromAlgorithms_default;
     ui_last_unfinalized_block := Watch_new; ui_unused_prefinalized_block_inners := [];
     ui_pre_finalized_multi_blocks := [];
     ui_last_finalize_commands := list_to_map ((fun relay_set => (relay_set, Watch_new)) <$> relay_sets);
     ui_cancelled := false; ui_adjust_finalized_blocks := adjust_finalized_blocks; ui_inners := [] |}.

(** Updates of one field. *)
Definition set_best (s : UnfinishedBuiltBlocksInput) cache best : UnfinishedBuiltBlocksInput :=
  {| ui_built_block_cache := cache; ui_best_block_from_algorithms := best;
     ui_last_unfinalized_block := ui_last_unfinalized_block s;
     ui_unused_prefinalized_block_inners := ui_unused_prefinalized_block_inners s;
     ui_pre_finalized_multi_blocks := ui_pre_finalized_multi_blocks s;
     ui_last_finalize_commands := ui_last_finalize_commands s; ui_cancelled := ui_cancelled s;
     ui_adjust_finalized_blocks := ui_adjust_finalized_blocks s; ui_inners := ui_inners s |}.
Definition set_unfinalized (s : UnfinishedBuiltBlocksInput) w : UnfinishedBuiltBlocksInput :=
  {| ui_built_block_cache := ui_built_block_cache s; ui_best_block_from_algorithms := ui_best_block_from_algorithms s;
     ui_last_unfinalized_block := w;
     ui_unused_prefinalized_block_inners := ui_unused_prefinalized_block_inners s;
     ui_pre_finalized_multi_blocks := ui_pre_finalized_multi_blocks s;
     ui_last_finalize_commands := ui_last_finalize_commands s; ui_cancelled := ui_cancelled s;
     ui_adjust_finalized_blocks := ui_adjust_finalized_blocks s; ui_inners := ui_inners s |}.
Definition set_unused (s : UnfinishedBuiltBlocksInput) l : UnfinishedBuiltBlocksInput :=
  {| ui_built_block_cache := ui_built_block_cache s; ui_best_block_from_algorithms := ui_best_block_from_algorithms s;
     ui_last_unfinalized_block := ui_last_unfinalized_block s; ui_unused_prefinalized_block_inners := l;
     ui_pre_finalized_multi_blocks := ui_pre_finalized_multi_blocks s;
     ui_last_finalize_commands := ui_last_finalize_commands s; ui_cancelled := ui_cancelled s;
     ui_adjust_finalized_blocks := ui_adjust_finalized_blocks s; ui_inners := ui_inners s |}.
Definition set_pre_finalized (s : UnfinishedBuiltBlocksInput) l : UnfinishedBuiltBlocksInput :=
  {| ui_built_block_cache := ui_built_block_cache s; ui_best_block_from_algorithms := ui_best_block_from_algorithms s;
     ui_last_unfinalized_block := ui_last_unfinalized_block s;
     ui_unused_prefinalized_block_inners := ui_unused_prefinalized_block_inners s;
     ui_pre_finalized_multi_blocks := l;
     ui_last_finalize_commands := ui_last_finalize_commands s; ui_cancelled := ui_cancelled s;
     ui_adjust_finalized_blocks := ui_adjust_finalized_blocks s; ui_inners := ui_inners s |}.
Definition set_commands (s : UnfinishedBuiltBlocksInput) m : UnfinishedBuiltBlocksInput :=
  {| ui_built_block_cache := ui_built_block_cache s; ui_best_block_from_algorithms := ui_best_block_from_algorithms s;
     ui_last_unfinalized_block := ui_last_unfinalized_block s;
     ui_unused_prefinalized_block_inners := ui_unused_prefinalized_block_inners s;
     ui_pre_finalized_multi_blocks := ui_pre_finalized_multi_blocks s;
     ui_last_finalize_commands := m; ui_cancelled := ui_cancelled s;
     ui_adjust_finalized_blocks := ui_adjust_finalized_blocks s; ui_inners := ui_inners s |}.
Definition set_inners (s : UnfinishedBuiltBlocksInput) l : UnfinishedBuiltBlocksInput :=
  {| ui_built_block_cache := ui_built_block_cache s; ui_best_block_from_algorithms := ui_best_block_from_algorithms s;
     ui_last_unfinalized_block := ui_last_unfinalized_block s;
     ui_unused_prefinalized_block_inners := ui_unused_prefinalized_block_inners s;
     ui_pre_finalized_multi_blocks := ui_pre_finalized_multi_blocks s;
     ui_last_finalize_commands := ui_last_finalize_commands s; ui_cancelled := ui_cancelled s;
     ui_adjust_finalized_blocks := ui_adjust_finalized_blocks s; ui_inners := l |}.
Definition set_cancelled (s : UnfinishedBuiltBlocksInput) : UnfinishedBuiltBlocksInput :=
  {| ui_built_block_cache := ui_built_block_cache s; ui_best_block_from_algorithms := ui_best_block_from_algorithms s;
     ui_last_unfinalized_block := ui_last_unfinalized_block s;
     ui_unused_prefinalized_block_inners := ui_unused_prefinalized_block_inners s;
     ui_pre_finalized_multi_blocks := ui_pre_finalized_multi_blocks s;
     ui_last_finalize_commands := ui_last_finalize_commands s; ui_cancelled := true;
     ui_adjust_finalized_blocks := ui_adjust_finalized_blocks s; ui_inners := ui_inners s |}.

(** ** Threads

    Calls into the pipeline, by the algorithms and the bidder, between two of their
    accesses to shared state. *)
Inductive Call :=
| Call_new_block (block : BiddableUnfinishedBlock)
| Call_set_unfinalized (block : BiddableUnfinishedBlock)
| Call_seal (bid : SlotBidderSealBidCommand)
| Call_recycle (unused : list MultiPrefinalizedBlock) (found : option MultiPrefinalizedBlock)
    (bid : SlotBidderSealBidCommand)
| Call_command (found : MultiPrefinalizedBlock) (seen_competition_bid : option U256) (payout_info : list PayoutInfo).

(** The prefinalizing thread; while it is at [Pre_popped] it holds the lock of the
    unused blocks and waits for that of the block. *)
Inductive PrefinalizeThread :=
| Pre_waiting
| Pre_got (block : BiddableUnfinishedBlock)
| Pre_popped (block : BiddableUnfinishedBlock) (inner : nat)
| Pre_ready (block : BiddableUnfinishedBlock) (local_ctx : Ctx)
| Pre_notify (desc : BuiltBlockDescriptorForSlotBidder)
| Pre_ended.

(** A finalizing thread; at [Fin_locked] and [Fin_failed] it holds the lock of the
    block of its command. *)
Inductive FinalizeThread :=
| Fin_waiting
| Fin_got (command : FinalizeCommand)
| Fin_locked (command : FinalizeCommand)
| Fin_failed (command : FinalizeCommand)
| Fin_ended.

Record System := {
  sy_input : UnfinishedBuiltBlocksInput;
  sy_calls : list Call;
  sy_prefinalize : PrefinalizeThread;
  sy_finalize : gmap RelaySet FinalizeThread;
}.

(** What happens, in order. *)
Inductive Event :=
| Ev_chosen (block : BiddableUnfinishedBlock)
| Ev_notified (desc : BuiltBlockDescriptorForSlotBidder)
| Ev_bid (bid : SlotBidderSealBidCommand)
| Ev_submitted (relay_set : RelaySet) (block : B)
| Ev_discarded (relay_set : RelaySet) (command : FinalizeCommand)
| Ev_panicked.

(** [create_sink] starts one thread that prefinalizes and one that finalizes for each
    set of relays. *)
Definition create_sink (cache : BuiltBlockCache) (adjust_finalized_blocks : bool) (relay_sets : list RelaySet)
  : System :=
  let input := UnfinishedBuiltBlocksInput_new cache adjust_finalized_blocks relay_sets in
  {| sy_input := input; sy_calls := []; sy_prefinalize := Pre_waiting;
     sy_finalize := (fun _ => Fin_waiting) <$> ui_last_finalize_commands input |}.

(** ** Operations on the shared state *)
Definition map_ok {A A' E} (f : A -> A') (r : result A E) : result A' E :=
  match r with Ok a => Ok (f a) | Err e => Err e end.

Definition inner_finalize_block (inner : PrefinalizedBlockInner) (value : U256) (subsidy : Z)
    (seen_competition_bid : option U256) (adjust_finalized_blocks : bool)
  : PrefinalizedBlockInner * option (result (option B) BlockBuildingHelperError) :=
  match in_local_ctx inner with
  | Some local_ctx =>
      if adjust_finalized_blocks then
        let '(h, local_ctx, r) :=
          bh_adjust_finalized_block (in_helper inner) local_ctx value subsidy seen_competition_bid in
        ({| in_helper := h; in_local_ctx := Some local_ctx |}, map_ok Some <$> r)
      else
        let '(_, local_ctx, r) := bh_finalize_block (in_helper inner) local_ctx value subsidy seen_competition_bid in
        ({| in_helper := in_helper inner; in_local_ctx := Some local_ctx |}, map_ok Some <$> r)
  | None => (inner, Some (Ok None))
  end.

(** A cell for each set of relays; the last one gets the original, which is equal. *)
Definition MultiPrefinalizedBlock_new (block_id : BuiltBlockId) (relay_sets : gset RelaySet) (helper : H)
    (local_ctx : Ctx) (inners : list PrefinalizedBlockInner)
  : MultiPrefinalizedBlock * list PrefinalizedBlockInner :=
  let order := hash_order relay_sets in
  ({| mp_block_id := block_id;
      mp_by_relay_set := list_to_map (imap (fun i relay_set =>
        (relay_set, {| pf_block_id := block_id; pf_inner := (length inners + i)%nat |})) order) |},
   inners ++ replicate (length order) {| in_helper := helper; in_local_ctx := Some local_ctx |}).

(** The loop of [do_seal_command]: what is removed, what is left, what is found. *)
Fixpoint scan_blocks (block_id : BuiltBlockId) (l : list MultiPrefinalizedBlock)
  : list MultiPrefinalizedBlock * list MultiPrefinalizedBlock * option MultiPrefinalizedBlock :=
  match l with
  | [] => ([], [], None)
  | m :: l =>
      if decide (mp_block_id m < block_id) then
        let '(unused, kept, found) := scan_blocks block_id l in (m :: unused, kept, found)
      else if decide (mp_block_id m = block_id) then ([], m :: l, Some m)
      else let '(unused, kept, found) := scan_blocks block_id l in (unused, m :: kept, found)
  end.

(** The cell of the first entry of the hash map. *)
Definition first_inner (m : MultiPrefinalizedBlock) : option nat :=
  let! relay_set := head (hash_order (dom (mp_by_relay_set m))) in
  pf_inner <$> mp_by_relay_set m !! relay_set.

(** What the prefinalizing thread does by itself: [None] is a panic, the inner [None]
    that the block is dropped. *)
Definition prefinalize_block (adjust_finalized_blocks : bool) (h : H) (local_ctx : Ctx) : option (option (H * Ctx)) :=
  if adjust_finalized_blocks then
    match bh_true_block_value h with
    | Ok value =>
        let '(h, local_ctx, r) := bh_finalize_block h local_ctx value 0 None in
        match r with
        | Some (Ok _) => Some (Some (h, local_ctx))
        | Some (Err _) => Some None
        | None => None
        end
    | Err _ => Some None
    end
  else Some (Some (h, local_ctx)).

(** Whether a finalizing thread holds the lock of a cell. *)
Definition holds (inner : nat) (t : FinalizeThread) : bool :=
  match t with
  | Fin_locked c | Fin_failed c => bool_decide (pf_inner (fc_prefinalized_block c) = inner)
  | _ => false
  end.
Definition inner_locked (s : System) (inner : nat) : bool :=
  existsb (fun p => holds inner p.2) (map_to_list (sy_finalize s)).
Definition unused_locked (s : System) : bool :=
  match sy_prefinalize s with Pre_popped _ _ => true | _ => false end.

(** ** Steps *)
Definition with_input (s : System) (i : UnfinishedBuiltBlocksInput) : System :=
  {| sy_input := i; sy_calls := sy_calls s; sy_prefinalize := sy_prefinalize s; sy_finalize := sy_finalize s |}.
Definition with_calls (s : System) (l : list Call) : System :=
  {| sy_input := sy_input s; sy_calls := l; sy_prefinalize := sy_prefinalize s; sy_finalize := sy_finalize s |}.
Definition with_prefinalize (s : System) (t : PrefinalizeThread) : System :=
  {| sy_input := sy_input s; sy_calls := sy_calls s; sy_prefinalize := t; sy_finalize := sy_finalize s |}.
Definition with_finalize (s : System) (relay_set : RelaySet) (t : FinalizeThread) : System :=
  {| sy_input := sy_input s; sy_calls := sy_calls s; sy_prefinalize := sy_prefinalize s;
     sy_finalize := <[relay_set := t]> (sy_finalize s) |}.

(** A call; [None] is that it has to wait.  A call that panics ends. *)
Definition call_step (s : System) (k : nat) (c : Call) : option (System * list Event) :=
  let i := sy_input s in
  let ends s := with_calls s (delete k (sy_calls s)) in
  let goes s c := with_calls s (<[k := c]> (sy_calls s)) in
  match c with
  | Call_new_block block =>
      let cache := update_from_new_unfinished_block (ui_built_block_cache i) (bh_builder_name (bu_block block))
                     (bh_built_block_trace (bu_block block)) in
      match update_with_new_block (ui_best_block_from_algorithms i) block with
      | None => Some (ends s, [Ev_panicked])
      | Some (best, None) => Some (ends (with_input s (set_best i cache best)), [])
      | Some (best, Some block) =>
          Some (goes (with_input s (set_best i cache best)) (Call_set_unfinalized block), [Ev_chosen block])
      end
  | Call_set_unfinalized block =>
      Some (ends (with_input s (set_unfinalized i (watch_set (ui_last_unfinalized_block i) block))), [])
  | Call_seal bid =>
      let '(unused, kept, found) := scan_blocks (sb_block_id bid) (ui_pre_finalized_multi_blocks i) in
      Some (goes (with_input s (set_pre_finalized i kept)) (Call_recycle unused found bid), [])
  | Call_recycle unused found bid =>
      if unused_locked s then None
      else
        let s := with_input s (set_unused i (ui_unused_prefinalized_block_inners i ++ omap first_inner unused)) in
        match found with
        | Some m => Some (goes s (Call_command m (sb_seen_competition_bid bid) (sb_payout_info bid)), [])
        | None => Some (ends s, [])
        end
  | Call_command m seen [] => Some (ends s, [])
  | Call_command m seen (p :: payout_info) =>
      match mp_by_relay_set m !! pi_relays p with
      | Some block =>
          let command := {| fc_prefinalized_block := block; fc_value := pi_payout_tx_value p;
                            fc_subsidy := pi_subsidy p; fc_seen_competition_bid := seen |} in
          let w := default Watch_new (ui_last_finalize_commands i !! pi_relays p) in
          let i := set_commands i (<[pi_relays p := watch_set w command]> (ui_last_finalize_commands i)) in
          let m := {| mp_block_id := mp_block_id m; mp_by_relay_set := delete (pi_relays p) (mp_by_relay_set m) |} in
          Some (goes (with_input s i) (Call_command m seen payout_info), [])
      | None => Some (goes s (Call_command m seen payout_info), [])
      end
  end.

(** [run_prefinalize_thread], with [local_ctx]. *)
Definition prefinalize_step (s : System) : option (System * list Event) :=
  let i := sy_input s in
  match sy_prefinalize s with
  | Pre_waiting =>
      let '(data, w) := wait_for_data (ui_last_unfinalized_block i) in
      let! block := data in
      Some (with_prefinalize (with_input s (set_unfinalized i w)) (Pre_got block), [])
  | Pre_got block =>
      match last (ui_unused_prefinalized_block_inners i) with
      | Some inner =>
          let rest := removelast (ui_unused_prefinalized_block_inners i) in
          Some (with_prefinalize (with_input s (set_unused i rest)) (Pre_popped block inner), [])
      | None => Some (with_prefinalize s (Pre_ready block local_ctx_default), [])
      end
  | Pre_popped block inner =>
      if inner_locked s inner then None
      else
        let! cell := ui_inners i !! inner in
        let cell' := {| in_helper := in_helper cell; in_local_ctx := None |} in
        Some (with_prefinalize (with_input s (set_inners i (<[inner := cell']> (ui_inners i))))
                (Pre_ready block (default local_ctx_default (in_local_ctx cell))), [])
  | Pre_ready block local_ctx =>
      match prefinalize_block (ui_adjust_finalized_blocks i) (bu_block block) local_ctx with
      | None => Some (with_prefinalize s Pre_ended, [Ev_panicked])
      | Some None => Some (with_prefinalize s Pre_waiting, [])
      | Some (Some (h, local_ctx)) =>
          let block_id := bh_id (bu_block block) in
          let '(m, inners) := MultiPrefinalizedBlock_new block_id (dom (ui_last_finalize_commands i)) h local_ctx
                                (ui_inners i) in
          let i := set_pre_finalized (set_inners i inners) (ui_pre_finalized_multi_blocks i ++ [m]) in
          Some (with_prefinalize (with_input s i) (Pre_notify (descriptor block_id block)), [])
      end
  | Pre_notify desc => Some (with_prefinalize s Pre_waiting, [Ev_notified desc])
  | Pre_ended => None
  end.

(** [run_finalize_thread]. *)
Definition finalize_step (s : System) (relay_set : RelaySet) (t : FinalizeThread) : option (System * list Event) :=
  let i := sy_input s in
  match t with
  | Fin_waiting =>
      let! w := ui_last_finalize_commands i !! relay_set in
      let '(data, w) := wait_for_data w in
      let! command := data in
      Some (with_finalize (with_input s (set_commands i (<[relay_set := w]> (ui_last_finalize_commands i))))
              relay_set (Fin_got command), [])
  | Fin_got command =>
      if inner_locked s (pf_inner (fc_prefinalized_block command)) then None
      else Some (with_finalize s relay_set (Fin_locked command), [])
  | Fin_locked command =>
      let inner := pf_inner (fc_prefinalized_block command) in
      let! cell := ui_inners i !! inner in
      let '(cell, r) := inner_finalize_block cell (fc_value command) (fc_subsidy command)
                          (fc_seen_competition_bid command) (ui_adjust_finalized_blocks i) in
      let s := with_input s (set_inners i (<[inner := cell]> (ui_inners i))) in
      match r with
      | Some (Ok (Some block)) => Some (with_finalize s relay_set Fin_waiting, [Ev_submitted relay_set block])
      | Some (Ok None) => Some (with_finalize s relay_set Fin_waiting, [Ev_discarded relay_set command])
      | Some (Err _) => Some (with_finalize s relay_set (Fin_failed command), [])
      | None => Some (with_finalize s relay_set Fin_ended, [Ev_panicked])
      end
  | Fin_failed command =>
      let id := pf_block_id (fc_prefinalized_block command) in
      let l := filter (fun m => mp_block_id m <> id) (ui_pre_finalized_multi_blocks i) in
      Some (with_finalize (with_input s (set_pre_finalized i l)) relay_set Fin_waiting, [])
  | Fin_ended => None
  end.

(** ** Runs

    Inputs come from the algorithms, the bidder and the end of the slot; the other
    actions say which thread moves. *)
Inductive Action :=
| Act_new_block (block : BiddableUnfinishedBlock)
| Act_bid (bid : SlotBidderSealBidCommand)
| Act_cancel
| Act_call (k : nat)
| Act_prefinalize
| Act_finalize (relay_set : RelaySet)
| Act_end_prefinalize
| Act_end_finalize (relay_set : RelaySet).

Definition step (s : System) (a : Action) : option (System * list Event) :=
  match a with
  | Act_new_block block => Some (with_calls s (sy_calls s ++ [Call_new_block block]), [])
  | Act_bid bid => Some (with_calls s (sy_calls s ++ [Call_seal bid]), [Ev_bid bid])
  | Act_cancel => Some (with_input s (set_cancelled (sy_input s)), [])
  | Act_call k => let! c := sy_calls s !! k in call_step s k c
  | Act_prefinalize => prefinalize_step s
  | Act_finalize relay_set => let! t := sy_finalize s !! relay_set in finalize_step s relay_set t
  | Act_end_prefinalize =>
      match sy_prefinalize s with
      | Pre_waiting => if ui_cancelled (sy_input s) then Some (with_prefinalize s Pre_ended, []) else None
      | _ => None
      end
  | Act_end_finalize relay_set =>
      match sy_finalize s !! relay_set with
      | Some Fin_waiting => if ui_cancelled (sy_input s) then Some (with_finalize s relay_set Fin_ended, []) else None
      | _ => None
      end
  end.

Fixpoint run_actions (s : System) (l : list Action) : option (System * list Event) :=
  match l with
  | [] => Some (s, [])
  | a :: l =>
      let! (s, events) := step s a in
      let! (s, rest) := run_actions s l in
      Some (s, events ++ rest)
  end.
End output.
