(* ===== verification/BlockOutputSpec.v ===== *)
(** * The pipeline of unfinished blocks

    Where submitted blocks come from, that the threads always get idle, which block is
    the best one, and what the bidder of true values pays. *)

From S2P Require Import Prelude Transactions Bundles Orders SimTypes World CommitMonad OrderCommit PartialBlock PartialBlockInv Finalize ConstraintPool BlockHelper BlockHelperSpec OrderingBuilder BlockOutput.

Section provenance.
Context {H Ctx B : Type} `{BlockHelper H Ctx B}.
Context `{!HashOrder string} `{!HashOrder RelaySet} (adjust : bool) (sets : gset RelaySet).
Notation Biddable := (BiddableUnfinishedBlock (H:=H)).
Notation Events := (list (Event (H:=H) (B:=B))).
Notation Inners := (list (PrefinalizedBlockInner (H:=H) (Ctx:=Ctx))).
Notation System := (System (H:=H) (Ctx:=Ctx)).

(** The helper of a chosen block when it is sealed: as it was built, or finalized with
    its true value and then adjusted any number of times. *)
Inductive prepared (b : Biddable) : bool -> H -> Prop :=
| prepared_as_built : prepared b false (bu_block b)
| prepared_finalized value ctx h ctx' blk : bh_true_block_value (bu_block b) = Ok value ->
    bh_finalize_block (bu_block b) ctx value 0 None = (h, ctx', Some (Ok blk)) -> prepared b true h
| prepared_adjusted h ctx value subsidy seen h' ctx' r : prepared b true h ->
    bh_adjust_finalized_block h ctx value subsidy seen = (h', ctx', r) -> prepared b true h'.

(** The block that sealing a helper with some values gives. *)
Definition seals (h : H) (ctx : Ctx) (value : U256) (subsidy : Z) (seen : option U256) (blk : B) : Prop :=
  ((if adjust then bh_adjust_finalized_block else bh_finalize_block) h ctx value subsidy seen).2 = Some (Ok blk).

(** A submission to a set of relays: a chosen block, sealed with what some bid on it
    offers these relays. *)
Definition justified (E : Events) (rs : RelaySet) (blk : B) : Prop :=
  rs ∈ sets /\ exists (b : Biddable) (bid : SlotBidderSealBidCommand) (p : PayoutInfo) (h : H) (ctx : Ctx), Ev_chosen b ∈ E /\ Ev_bid bid ∈ E /\ sb_block_id bid = bh_id (bu_block b) /\
    p ∈ sb_payout_info bid /\ pi_relays p = rs /\ prepared b adjust h /\
    seals h ctx (pi_payout_tx_value p) (pi_subsidy p) (sb_seen_competition_bid bid) blk.

(** A notification describes a chosen block. *)
Definition notified_ok (E : Events) (desc : BuiltBlockDescriptorForSlotBidder) : Prop :=
  exists b : Biddable, Ev_chosen b ∈ E /\ desc = descriptor (bh_id (bu_block b)) b.

Definition event_ok (E : Events) (e : Event (H:=H) (B:=B)) : Prop :=
  match e with
  | Ev_submitted rs blk => justified E rs blk
  | Ev_notified desc => notified_ok E desc
  | _ => True
  end.

(** ** The invariant

    What the parts of the system refer to, after the events [E] and with the cells
    [I]. *)
Definition cell_ok (E : Events) (I : Inners) (pf : PrefinalizedBlock) : Prop :=
  exists b cell, I !! pf_inner pf = Some cell /\ Ev_chosen b ∈ E /\ pf_block_id pf = bh_id (bu_block b) /\
    prepared b adjust (in_helper cell).

Definition multi_ok (E : Events) (I : Inners) (m : MultiPrefinalizedBlock) : Prop :=
  map_Forall (fun rs pf => rs ∈ sets /\ pf_block_id pf = mp_block_id m /\ cell_ok E I pf) (mp_by_relay_set m).

Definition bid_ok (E : Events) (id : BuiltBlockId) (seen : option U256) (p : PayoutInfo) : Prop :=
  exists bid, Ev_bid bid ∈ E /\ sb_block_id bid = id /\ sb_seen_competition_bid bid = seen /\ p ∈ sb_payout_info bid.

Definition command_ok (E : Events) (I : Inners) (rs : RelaySet) (c : FinalizeCommand) : Prop :=
  cell_ok E I (fc_prefinalized_block c) /\
  exists p, bid_ok E (pf_block_id (fc_prefinalized_block c)) (fc_seen_competition_bid c) p /\ pi_relays p = rs /\
    fc_value c = pi_payout_tx_value p /\ fc_subsidy c = pi_subsidy p.

Definition call_ok (E : Events) (I : Inners) (c : Call) : Prop :=
  match c with
  | Call_new_block _ => True
  | Call_set_unfinalized b => Ev_chosen b ∈ E
  | Call_seal bid => Ev_bid bid ∈ E
  | Call_recycle unused found bid =>
      Ev_bid bid ∈ E /\ Forall (multi_ok E I) unused /\
      forall m, found = Some m -> multi_ok E I m /\ mp_block_id m = sb_block_id bid
  | Call_command m seen payouts => multi_ok E I m /\ forall p, p ∈ payouts -> bid_ok E (mp_block_id m) seen p
  end.

Definition prefinalize_ok (E : Events) (I : Inners) (t : PrefinalizeThread (H:=H) (Ctx:=Ctx)) : Prop :=
  match t with
  | Pre_got b | Pre_ready b _ => Ev_chosen b ∈ E
  | Pre_popped b inner => Ev_chosen b ∈ E /\ is_Some (I !! inner)
  | Pre_notify desc => notified_ok E desc
  | Pre_waiting | Pre_ended => True
  end.

Definition finalize_ok (E : Events) (I : Inners) (rs : RelaySet) (t : FinalizeThread) : Prop :=
  match t with
  | Fin_got c | Fin_locked c | Fin_failed c => command_ok E I rs c
  | Fin_waiting | Fin_ended => True
  end.

Record parts_ok (E : Events) (I : Inners) (s : System) : Prop := {
  po_unfinalized : forall b, ui_last_unfinalized_block (sy_input s) = Some b -> Ev_chosen b ∈ E;
  po_unused : Forall (fun l => is_Some (I !! l)) (ui_unused_prefinalized_block_inners (sy_input s));
  po_multis : Forall (multi_ok E I) (ui_pre_finalized_multi_blocks (sy_input s));
  po_commands : forall rs c, ui_last_finalize_commands (sy_input s) !! rs = Some (Some c) -> command_ok E I rs c;
  po_calls : Forall (call_ok E I) (sy_calls s);
  po_prefinalize : prefinalize_ok E I (sy_prefinalize s);
  po_finalize : map_Forall (finalize_ok E I) (sy_finalize s);
  po_events : forall e, e ∈ E -> event_ok E e;
}.

Record system_ok (E : Events) (s : System) : Prop := {
  so_parts : parts_ok E (ui_inners (sy_input s)) s;
  so_adjust : ui_adjust_finalized_blocks (sy_input s) = adjust;
  so_commands : dom (ui_last_finalize_commands (sy_input s)) = sets;
  so_threads : dom (sy_finalize s) = sets;
}.

(** ** Monotonicity

    Events are added, cells are added, and the helper of a cell changes only as
    [prepared] says. *)
Record extends (E E' : Events) (I I' : Inners) : Prop := {
  ex_events : E ⊆ E';
  ex_cells : forall l cell, I !! l = Some cell -> exists cell', I' !! l = Some cell' /\
    forall b, prepared b adjust (in_helper cell) -> prepared b adjust (in_helper cell');
}.

Section mono.
Context {E E' : Events} {I I' : Inners} (Hex : extends E E' I I').

Lemma cell_ok_mono pf : cell_ok E I pf -> cell_ok E' I' pf.
Proof.
  intros (b & cell & Hc & Hb & Hid & Hp). destruct (ex_cells _ _ _ _ Hex _ _ Hc) as (cell' & Hc' & Hp').
  exists b, cell'. split_and!; [done | by apply (ex_events _ _ _ _ Hex) | done | by apply Hp'].
Qed.

Lemma multi_ok_mono m : multi_ok E I m -> multi_ok E' I' m.
Proof. intros Hm rs pf Hl. destruct (Hm rs pf Hl) as (? & ? & ?). split_and!; [done | done | by apply cell_ok_mono]. Qed.

Lemma bid_ok_mono id seen p : bid_ok E id seen p -> bid_ok E' id seen p.
Proof. intros (bid & Hb & ?). exists bid. split; [by apply (ex_events _ _ _ _ Hex) | done]. Qed.

Lemma command_ok_mono rs c : command_ok E I rs c -> command_ok E' I' rs c.
Proof.
  intros (Hc & p & Hb & ?). split; [by apply cell_ok_mono |]. exists p. split; [by apply bid_ok_mono | done].
Qed.

Lemma inner_mono l : is_Some (I !! l) -> is_Some (I' !! l).
Proof. intros [cell Hc]. destruct (ex_cells _ _ _ _ Hex _ _ Hc) as (cell' & -> & _). done. Qed.

Lemma call_ok_mono c : call_ok E I c -> call_ok E' I' c.
Proof.
  pose proof (ex_events _ _ _ _ Hex) as HE. destruct c; cbn [call_ok]; [done | apply HE | apply HE | |].
  - intros (Hb & Hu & Hf). split_and!; [by apply HE | |].
    + eapply Forall_impl; [exact Hu | apply multi_ok_mono].
    + intros m Hm. destruct (Hf m Hm). split; [by apply multi_ok_mono | done].
  - intros [Hm Hp]. split; [by apply multi_ok_mono |]. intros p Hin. by apply bid_ok_mono, Hp.
Qed.

Lemma justified_mono rs blk : justified E rs blk -> justified E' rs blk.
Proof.
  pose proof (ex_events _ _ _ _ Hex) as HE. intros (Hrs & b & bid & p & h & ctx & Hb & Hbid & Hrest). split; [done |].
  exists b, bid, p, h, ctx. split; [by apply HE |]. split; [by apply HE | done].
Qed.

Lemma notified_ok_mono desc : notified_ok E desc -> notified_ok E' desc.
Proof. intros (b & Hb & ->). exists b. split; [by apply (ex_events _ _ _ _ Hex) | done]. Qed.

Lemma event_ok_mono e : event_ok E e -> event_ok E' e.
Proof. destruct e; cbn; [done | apply notified_ok_mono | done | apply justified_mono | done | done]. Qed.

(** Everything but what the new events claim. *)
Lemma parts_ok_mono s : parts_ok E I s ->
  (forall e, e ∈ E' -> e ∈ E \/ event_ok E' e) -> parts_ok E' I' s.
Proof.
  pose proof (ex_events _ _ _ _ Hex) as HE. intros [P1 P2 P3 P4 P5 P6 P7 P8] Hnew. split.
  - intros b Hb. by apply HE, P1.
  - eapply Forall_impl; [exact P2 | apply inner_mono].
  - eapply Forall_impl; [exact P3 | apply multi_ok_mono].
  - intros rs c Hc. by apply command_ok_mono, P4.
  - eapply Forall_impl; [exact P5 | apply call_ok_mono].
  - destruct (sy_prefinalize s); cbn [prefinalize_ok] in *; try done; [by apply HE | | by apply HE | by apply notified_ok_mono].
    destruct P6. split; [by apply HE | by apply inner_mono].
  - intros rs t Ht. specialize (P7 rs t Ht). destruct t; cbn [finalize_ok] in *; try done; by apply command_ok_mono.
  - intros e [Hold | ?]%Hnew; [| done]. by apply event_ok_mono, P8.
Qed.
End mono.

(** ** Every step keeps the invariant *)
Lemma extends_events E E' (I : Inners) : E ⊆ E' -> extends E E' I I.
Proof. intros HE. split; [done |]. eauto. Qed.

Lemma extends_insert E E' (I : Inners) l cell cell' : E ⊆ E' -> I !! l = Some cell ->
  (forall b, prepared b adjust (in_helper cell) -> prepared b adjust (in_helper cell')) ->
  extends E E' I (<[l := cell']> I).
Proof.
  intros HE Hl Hp. split; [done |]. intros l' c Hc. destruct (decide (l = l')) as [<- | Hne].
  - rewrite list_lookup_insert_eq by by eapply lookup_lt_Some. simplify_eq. eauto.
  - rewrite list_lookup_insert_ne by done. eauto.
Qed.

Lemma extends_app E E' (I J : Inners) : E ⊆ E' -> extends E E' I (I ++ J).
Proof. intros HE. split; [done |]. intros l c Hc. exists c. split; [by apply lookup_app_l_Some | done]. Qed.

Lemma scan_blocks_ok (P : MultiPrefinalizedBlock -> Prop) id l unused kept found : Forall P l ->
  scan_blocks id l = (unused, kept, found) ->
  Forall P unused /\ Forall P kept /\ forall m, found = Some m -> P m /\ mp_block_id m = id.
Proof.
  intros Hl. revert unused kept found. induction Hl as [| m l Hm Hl IH]; intros unused kept found; cbn [scan_blocks].
  { by intros [= <- <- <-]. }
  destruct (scan_blocks id l) as [[u k] f]. destruct (IH u k f eq_refl) as (Hu & Hk & Hf).
  repeat case_decide; intros [= <- <- <-]; split_and!; eauto. by intros ? [= <-].
Qed.

Lemma multi_new_ok `{!HashOrderOk RelaySet} E (I : Inners) id h ctx m I' b :
  MultiPrefinalizedBlock_new id sets h ctx I = (m, I') -> Ev_chosen b ∈ E -> id = bh_id (bu_block b) ->
  prepared b adjust h -> multi_ok E I' m /\ extends E E I I'.
Proof.
  unfold MultiPrefinalizedBlock_new. intros [= <- <-] Hb Hid Hp. split; [| by apply extends_app].
  intros rs pf Hpf. cbn [mp_by_relay_set mp_block_id] in *. apply elem_of_list_to_map_2 in Hpf.
  apply elem_of_lookup_imap in Hpf as (i & rs' & [= -> ->] & Hi).
  split; [| split; [done |]].
  { apply list_elem_of_lookup_2 in Hi. by rewrite hash_order_perm, elem_of_elements in Hi. }
  exists b, {| in_helper := h; in_local_ctx := Some ctx |}. cbn [pf_inner pf_block_id]. split_and!; try done.
  rewrite lookup_app_r by lia. apply lookup_replicate. split; [done |]. apply lookup_lt_Some in Hi. lia.
Qed.

(** A step that keeps the cells: the parts hold after its events, and what it changes
    is shown separately. *)
Lemma parts_extended E ev I' s : system_ok E s -> extends E (E ++ ev) (ui_inners (sy_input s)) I' ->
  (forall e, e ∈ ev -> event_ok (E ++ ev) e) -> parts_ok (E ++ ev) I' s.
Proof.
  intros [HP _ _ _] Hex Hev. eapply parts_ok_mono; [exact Hex | exact HP |].
  intros e [? | ?]%elem_of_app; [by left | right; by apply Hev].
Qed.

Lemma parts_after E s ev : system_ok E s -> (forall e, e ∈ ev -> event_ok (E ++ ev) e) ->
  parts_ok (E ++ ev) (ui_inners (sy_input s)) s.
Proof. intros Hs Hev. eapply parts_extended; [done | apply extends_events; set_solver | done]. Qed.

Ltac no_submission :=
  let e := fresh in let He := fresh in intros e He;
  repeat (apply elem_of_cons in He as [-> | He]; [exact I |]); by apply elem_of_nil in He.
Ltac system := split; [split | done | done | done]; cbn; try done.

Lemma call_step_ok E s k c s' ev : system_ok E s -> sy_calls s !! k = Some c -> call_step s k c = Some (s', ev) ->
  system_ok (E ++ ev) s'.
Proof.
  intros Hs Hk Hstep. pose proof (so_adjust _ _ Hs) as Ha. pose proof (so_commands _ _ Hs) as Hd. pose proof (so_threads _ _ Hs) as Ht.
  assert (Hc : call_ok E (ui_inners (sy_input s)) c).
  { eapply Forall_lookup_1; [apply (po_calls _ _ _ (so_parts _ _ Hs)) | done]. }
  destruct c as [b | b | bid | unused found bid | m seen [| p payouts]]; cbn [call_step] in Hstep; cbn [call_ok] in Hc.
  - destruct (update_with_new_block _ b) as [[best [b' |]] |]; injection Hstep as <- <-.
    + destruct (parts_after E s [Ev_chosen b'] Hs ltac:(no_submission)) as [P1 P2 P3 P4 P5 P6 P7 P8].
      system. apply Forall_insert; [done |]. cbn. set_solver.
    + destruct (parts_after E s [] Hs ltac:(no_submission)) as [P1 P2 P3 P4 P5 P6 P7 P8].
      system. by apply Forall_delete.
    + destruct (parts_after E s [Ev_panicked] Hs ltac:(no_submission)) as [P1 P2 P3 P4 P5 P6 P7 P8].
      system. by apply Forall_delete.
  - injection Hstep as <- <-. destruct (parts_after E s [] Hs ltac:(no_submission)) as [P1 P2 P3 P4 P5 P6 P7 P8].
    system; [intros b' [= <-]; set_solver | by apply Forall_delete].
  - destruct (scan_blocks _ _) as [[unused kept] found] eqn:Escan. injection Hstep as <- <-.
    destruct (parts_after E s [] Hs ltac:(no_submission)) as [P1 P2 P3 P4 P5 P6 P7 P8].
    destruct (scan_blocks_ok _ _ _ _ _ _ P3 Escan) as (Hu & Hkept & Hf).
    system. apply Forall_insert; [done |]. cbn. split_and!; [set_solver | done | done].
  - destruct (unused_locked s); [done |]. destruct Hc as (Hb & Hu & Hf).
    assert (Hin : Forall (fun l => is_Some (ui_inners (sy_input s) !! l)) (omap first_inner unused)).
    { apply Forall_forall. intros l (m & Hm & Hl)%list_elem_of_omap.
      rewrite Forall_forall in Hu. unfold first_inner in Hl.
      destruct (head _) as [rs |]; [| done]. cbn in Hl. apply fmap_Some in Hl as (pf & Hpf & ->).
      destruct (Hu m Hm rs pf Hpf) as (_ & _ & b & cell & -> & _). done. }
    destruct found as [m |]; injection Hstep as <- <-;
      destruct (parts_after E s [] Hs ltac:(no_submission)) as [P1 P2 P3 P4 P5 P6 P7 P8]; system.
    + by apply Forall_app.
    + apply Forall_insert; [done |]. rewrite app_nil_r. cbn. destruct (Hf m eq_refl) as [Hm Hid]. split; [done |].
      intros p Hp. exists bid. by rewrite Hid.
    + by apply Forall_app.
    + by apply Forall_delete.
  - injection Hstep as <- <-. destruct (parts_after E s [] Hs ltac:(no_submission)) as [P1 P2 P3 P4 P5 P6 P7 P8].
    system. by apply Forall_delete.
  - destruct Hc as [Hm Hp]. destruct (mp_by_relay_set m !! pi_relays p) as [pf |] eqn:Epf; injection Hstep as <- <-;
      destruct (parts_after E s [] Hs ltac:(no_submission)) as [P1 P2 P3 P4 P5 P6 P7 P8].
    + split; [split | done | | done]; cbn; try done.
      * intros rs c. rewrite lookup_insert_Some. intros [[<- [= <-]] | [_ Hl]]; [| by apply P4].
        rewrite app_nil_r. destruct (Hm _ _ Epf) as (_ & Hid & Hcell). split; [done |]. exists p. cbn. rewrite Hid.
        split; [apply Hp; left | done].
      * apply Forall_insert; [done |]. rewrite app_nil_r. cbn. split.
        -- intros rs pf' Hl. cbn in Hl. apply lookup_delete_Some in Hl as [_ Hl]. by apply (Hm rs).
        -- intros p' Hp'. apply Hp. by right.
      * rewrite dom_insert_L, Hd. destruct (Hm _ _ Epf) as [Hset _]. set_solver.
    + system. apply Forall_insert; [done |]. rewrite app_nil_r. cbn. split; [done |]. intros p' Hp'. apply Hp. by right.
Qed.

Lemma prefinalize_block_prepared (b : Biddable) ctx h ctx' :
  prefinalize_block adjust (bu_block b) ctx = Some (Some (h, ctx')) -> prepared b adjust h.
Proof.
  unfold prefinalize_block. destruct adjust; [| intros [= <- <-]; constructor].
  destruct (bh_true_block_value (bu_block b)) as [value |] eqn:Ev; [| done].
  destruct (bh_finalize_block _ _ _ _ _) as [[h1 ctx1] [[blk | e] |]] eqn:Ef; [| done | done].
  intros [= <- <-]. by eapply prepared_finalized.
Qed.

Lemma prefinalize_step_ok `{!HashOrderOk RelaySet} E s s' ev : system_ok E s -> prefinalize_step s = Some (s', ev) ->
  system_ok (E ++ ev) s'.
Proof.
  intros Hs Hstep. pose proof (so_adjust _ _ Hs) as Ha. pose proof (so_commands _ _ Hs) as Hd.
  pose proof (so_threads _ _ Hs) as Ht. pose proof (po_prefinalize _ _ _ (so_parts _ _ Hs)) as Hpre.
  unfold prefinalize_step in Hstep.
  destruct (sy_prefinalize s) as [| b | b inner | b ctx | desc |] eqn:Epre; cbn [prefinalize_ok] in Hpre; [| | | | |done].
  - destruct (ui_last_unfinalized_block (sy_input s)) as [b |] eqn:Eb; [| done]. injection Hstep as <- <-.
    destruct (parts_after E s [] Hs ltac:(no_submission)) as [P1 P2 P3 P4 P5 P6 P7 P8]. system. by apply P1.
  - destruct (parts_after E s [] Hs ltac:(no_submission)) as [P1 P2 P3 P4 P5 P6 P7 P8].
    destruct (last _) as [inner |] eqn:El; injection Hstep as <- <-.
    + apply last_Some in El as [l' El]. rewrite El in *. apply Forall_app in P2 as [P2 Pl]. apply Forall_cons in Pl as [Pl _].
      rewrite app_nil_r in *. system. by rewrite removelast_last.
    + system. by rewrite app_nil_r.
  - destruct (inner_locked s inner); [done |]. destruct (ui_inners (sy_input s) !! inner) as [cell |] eqn:Ecell; [| done].
    injection Hstep as <- <-. destruct (parts_extended E [] (<[inner := {| in_helper := in_helper cell; in_local_ctx := None |}]>
      (ui_inners (sy_input s))) s Hs) as [P1 P2 P3 P4 P5 P6 P7 P8].
    { eapply extends_insert; [set_solver | done | done]. }
    { no_submission. }
    system. rewrite app_nil_r. by destruct Hpre.
  - rewrite Ha, Hd in Hstep. destruct (prefinalize_block _ _ _) as [[[h ctx'] |] |] eqn:Ep.
    + destruct (MultiPrefinalizedBlock_new _ _ _ _ _) as [m I'] eqn:Em. injection Hstep as <- <-.
      destruct (multi_new_ok (E ++ []) _ _ _ _ _ _ b Em) as [Hm Hex];
        [set_solver | done | by eapply prefinalize_block_prepared |].
      destruct (parts_extended E [] I' s Hs) as [P1 P2 P3 P4 P5 P6 P7 P8]; [by rewrite app_nil_r in * | no_submission |].
      system; [| exists b; split; [set_solver | done]]. apply Forall_app. split; [done |]. by apply Forall_singleton.
    + injection Hstep as <- <-. destruct (parts_after E s [] Hs ltac:(no_submission)) as [P1 P2 P3 P4 P5 P6 P7 P8]. system.
    + injection Hstep as <- <-.
      destruct (parts_after E s [Ev_panicked] Hs ltac:(no_submission)) as [P1 P2 P3 P4 P5 P6 P7 P8]. system.
  - injection Hstep as <- <-.
    destruct (parts_after E s [Ev_notified desc] Hs) as [P1 P2 P3 P4 P5 P6 P7 P8]; [| system].
    intros e ->%list_elem_of_singleton. destruct Hpre as (b & Hb & ->). exists b. split; [set_solver | done].
Qed.

(** Sealing a cell: its helper stays prepared, and a block it gives is sealed. *)
Lemma inner_finalize_spec cell value subsidy seen cell' r :
  inner_finalize_block (H:=H) (Ctx:=Ctx) cell value subsidy seen adjust = (cell', r) ->
  (forall b, prepared b adjust (in_helper cell) -> prepared b adjust (in_helper cell')) /\
  forall blk, r = Some (Ok (Some blk)) -> exists ctx, seals (in_helper cell) ctx value subsidy seen blk.
Proof.
  unfold inner_finalize_block, seals. destruct (in_local_ctx cell) as [ctx |]; [| intros [= <- <-]; split; [done | by intros ? [=]]].
  destruct adjust.
  - destruct (bh_adjust_finalized_block _ _ _ _ _) as [[h ctx'] r'] eqn:E. intros [= <- <-]. split.
    + intros b Hb. by eapply prepared_adjusted.
    + intros blk Hr. exists ctx. rewrite E. by destruct r' as [[? |] |]; simplify_eq/=.
  - destruct (bh_finalize_block _ _ _ _ _) as [[h ctx'] r'] eqn:E. intros [= <- <-]. split; [done |].
    intros blk Hr. exists ctx. rewrite E. by destruct r' as [[? |] |]; simplify_eq/=.
Qed.

Lemma command_justified E ev (I : Inners) rs c cell ctx blk : rs ∈ sets -> command_ok E I rs c ->
  I !! pf_inner (fc_prefinalized_block c) = Some cell ->
  seals (in_helper cell) ctx (fc_value c) (fc_subsidy c) (fc_seen_competition_bid c) blk -> justified (E ++ ev) rs blk.
Proof.
  intros Hset ((b & cell' & Hcell' & Hb & Hid & Hp) & p & (bid & Hbid & Hbid_id & Hseen & Hin) & Hrs & Hval & Hsub) Hcell Hseal.
  assert (cell' = cell) as -> by congruence. split; [done |]. exists b, bid, p, (in_helper cell), ctx. rewrite <- Hval, <- Hsub.
  rewrite Hseen. split_and!; try done; [set_solver | set_solver | congruence].
Qed.

Lemma finalize_step_ok E s rs t s' ev : system_ok E s -> sy_finalize s !! rs = Some t ->
  finalize_step s rs t = Some (s', ev) -> system_ok (E ++ ev) s'.
Proof.
  intros Hs Hrs Hstep. pose proof (so_adjust _ _ Hs) as Ha. pose proof (so_commands _ _ Hs) as Hd.
  pose proof (so_threads _ _ Hs) as Ht. pose proof (po_finalize _ _ _ (so_parts _ _ Hs) rs t Hrs) as Hfin.
  assert (Hdom : forall t', dom (<[rs := t']> (sy_finalize s)) = sets).
  { intros t'. apply (elem_of_dom_2 (D:=gset RelaySet)) in Hrs. rewrite dom_insert_L. set_solver. }
  assert (Hset : rs ∈ sets) by (rewrite <- Ht; by eapply elem_of_dom_2).
  assert (Hmap : forall P t', map_Forall P (sy_finalize s) -> P rs t' -> map_Forall P (<[rs := t']> (sy_finalize s)))
    by (intros; by apply map_Forall_insert_2).
  destruct t as [| c | c | c |]; cbn [finalize_step finalize_ok] in Hstep, Hfin; [| | | | done].
  - destruct (ui_last_finalize_commands (sy_input s) !! rs) as [[c |] |] eqn:Ec; [| done | done].
    injection Hstep as <- <-. destruct (parts_after E s [] Hs ltac:(no_submission)) as [P1 P2 P3 P4 P5 P6 P7 P8].
    split; [split | done | | apply Hdom]; cbn; try done.
    + intros rs' c'. rewrite lookup_insert_Some. intros [[_ ?] | [_ ?]]; [done | by apply P4].
    + apply Hmap; [done |]. by apply P4.
    + rewrite dom_insert_L. set_solver.
  - destruct (inner_locked s _); [done |]. injection Hstep as <- <-.
    destruct (parts_after E s [] Hs ltac:(no_submission)) as [P1 P2 P3 P4 P5 P6 P7 P8].
    split; [split | done | done | apply Hdom]; cbn; try done. apply Hmap; [done |]. cbn. by rewrite app_nil_r.
  - rewrite Ha in Hstep. destruct (ui_inners (sy_input s) !! _) as [cell |] eqn:Ecell; [| done]. cbn in Hstep.
    destruct (inner_finalize_block _ _ _ _ _) as [cell' r] eqn:Ef.
    destruct (inner_finalize_spec _ _ _ _ _ _ Ef) as [Hprep Hseal].
    assert (Hex : forall ev, extends E (E ++ ev) (ui_inners (sy_input s))
                    (<[pf_inner (fc_prefinalized_block c) := cell']> (ui_inners (sy_input s)))).
    { intros ev'. eapply extends_insert; [set_solver | done | done]. }
    assert (Hok : forall t' ev', finalize_ok (E ++ ev') (<[pf_inner (fc_prefinalized_block c) := cell']> (ui_inners (sy_input s))) rs t' ->
              (forall e, e ∈ ev' -> event_ok (E ++ ev') e) ->
              system_ok (E ++ ev') (with_finalize (with_input s (set_inners (sy_input s)
                (<[pf_inner (fc_prefinalized_block c) := cell']> (ui_inners (sy_input s))))) rs t')).
    { intros t' ev' Hf Hj. destruct (parts_extended E ev' _ s Hs (Hex ev') Hj) as [P1 P2 P3 P4 P5 P6 P7 P8].
      split; [split | done | done | apply Hdom]; cbn; try done. by apply Hmap. }
    destruct r as [[[blk |] | e] |]; injection Hstep as <- <-; apply Hok; try done; try no_submission.
    + intros e ->%list_elem_of_singleton. destruct (Hseal blk eq_refl) as [ctx Hs'].
      by eapply command_justified.
    + cbn. by eapply command_ok_mono.
  - injection Hstep as <- <-. destruct (parts_after E s [] Hs ltac:(no_submission)) as [P1 P2 P3 P4 P5 P6 P7 P8].
    split; [split | done | done | apply Hdom]; cbn; try done.
    + apply Forall_forall. intros m [_ Hm]%list_elem_of_filter. by eapply Forall_forall in P3.
    + by apply Hmap.
Qed.

Lemma step_ok `{!HashOrderOk RelaySet} E s a s' ev : system_ok E s -> step s a = Some (s', ev) -> system_ok (E ++ ev) s'.
Proof.
  intros Hs Hstep. pose proof (so_adjust _ _ Hs) as Ha. pose proof (so_commands _ _ Hs) as Hd.
  pose proof (so_threads _ _ Hs) as Ht.
  destruct a as [b | bid | | k | | rs | | rs]; cbn [step] in Hstep.
  - injection Hstep as <- <-. destruct (parts_after E s [] Hs ltac:(no_submission)) as [P1 P2 P3 P4 P5 P6 P7 P8].
    system. apply Forall_app. split; [done |]. by apply Forall_singleton.
  - injection Hstep as <- <-. destruct (parts_after E s [Ev_bid bid] Hs ltac:(no_submission)) as [P1 P2 P3 P4 P5 P6 P7 P8].
    system. apply Forall_app. split; [done |]. apply Forall_singleton. cbn. set_solver.
  - injection Hstep as <- <-. destruct (parts_after E s [] Hs ltac:(no_submission)) as [P1 P2 P3 P4 P5 P6 P7 P8]. system.
  - destruct (sy_calls s !! k) as [c |] eqn:Ec; [| done]. by eapply call_step_ok.
  - by apply prefinalize_step_ok with s.
  - destruct (sy_finalize s !! rs) as [t |] eqn:Et; [| done]. by eapply finalize_step_ok.
  - destruct (sy_prefinalize s); try done. destruct (ui_cancelled _); [| done]. injection Hstep as <- <-.
    destruct (parts_after E s [] Hs ltac:(no_submission)) as [P1 P2 P3 P4 P5 P6 P7 P8]. system.
  - destruct (sy_finalize s !! rs) as [[] |] eqn:Et; try done. destruct (ui_cancelled _); [| done]. injection Hstep as <- <-.
    destruct (parts_after E s [] Hs ltac:(no_submission)) as [P1 P2 P3 P4 P5 P6 P7 P8].
    split; [split | done | done |]; cbn; try done; [by apply map_Forall_insert_2 |].
    apply (elem_of_dom_2 (D:=gset RelaySet)) in Et. rewrite dom_insert_L. set_solver.
Qed.

Lemma run_actions_ok `{!HashOrderOk RelaySet} l E s s' ev : system_ok E s -> run_actions s l = Some (s', ev) ->
  system_ok (E ++ ev) s'.
Proof.
  revert E s s' ev. induction l as [| a l IH]; intros E s s' ev Hs; cbn [run_actions].
  { intros [= <- <-]. by rewrite app_nil_r. }
  destruct (step s a) as [[s1 ev1] |] eqn:Es; [| done]. cbn.
  destruct (run_actions s1 l) as [[s2 ev2] |] eqn:Er; [| done]. intros [= <- <-]. rewrite app_assoc.
  eapply IH; [| done]. by eapply step_ok.
Qed.
End provenance.

(** ** The best block *)
Section best.
Context {H Ctx B : Type} `{BlockHelper H Ctx B}.
Context `{!HashOrder string} `{!HashOrderOk string}.
Notation Biddable := (BiddableUnfinishedBlock (H:=H)).
Notation Best := (BestBlockFromAlgorithms (H:=H)).

Lemma max_by_value_spec (l : list Biddable) : l <> [] -> exists b, max_by_value l = Some b /\ b ∈ l /\
  forall b', b' ∈ l -> bu_true_block_value b' <= bu_true_block_value b.
Proof.
  unfold max_by_value. induction l as [| x l IH] using rev_ind; [done |]. intros _. rewrite foldl_snoc.
  destruct l as [| y l].
  { exists x. cbn. split; [done |]. split; [left |]. by intros b' ->%list_elem_of_singleton. }
  destruct IH as (b & -> & Hb & Hmax); [done |]. case_decide as Hle.
  - exists x. split; [done |]. split; [set_solver |]. intros b' [Hb' | ->%list_elem_of_singleton]%elem_of_app; [| lia].
    specialize (Hmax b' Hb'). lia.
  - exists b. split; [done |]. split; [set_solver |]. intros b' [Hb' | ->%list_elem_of_singleton]%elem_of_app; [| lia].
    by apply Hmax.
Qed.

Lemma elem_of_last_blocks (s : Best) b : b ∈ last_blocks s <-> exists name, last_block_by_algorithm s !! name = Some b.
Proof.
  unfold last_blocks. rewrite list_elem_of_omap. split; [intros (name & _ & ?); by exists name |].
  intros [name Hl]. exists name. split; [| done]. rewrite hash_order_perm, elem_of_elements. by eapply elem_of_dom_2.
Qed.

(** One of the last blocks of the algorithms, worth as much as any of them. *)
Definition is_best (s : Best) (b : Biddable) : Prop :=
  (exists name, last_block_by_algorithm s !! name = Some b) /\
  forall name b', last_block_by_algorithm s !! name = Some b' -> bu_true_block_value b' <= bu_true_block_value b.

Lemma update_with_new_block_spec (s : Best) block : exists s' out best,
  update_with_new_block s block = Some (s', out) /\
  last_block_by_algorithm s' = <[bh_builder_name (bu_block block) := block]> (last_block_by_algorithm s) /\
  is_best s' best /\ last_best_block_hash s' = bh_transactions_hash (bu_block best) /\
  (out = Some best \/ out = None /\ last_best_block_hash s = last_best_block_hash s').
Proof.
  unfold update_with_new_block. set (s1 := {| last_block_by_algorithm := _; last_best_block_hash := _ |}).
  assert (Hin : block ∈ last_blocks s1).
  { apply elem_of_last_blocks. eexists. cbn. apply lookup_insert_eq. }
  destruct (max_by_value_spec (last_blocks s1)) as (b & -> & Hb & Hmax); [intros E; rewrite E in Hin; set_solver |].
  assert (Hbest : is_best s1 b).
  { split; [by apply elem_of_last_blocks |]. intros name b' Hl. apply Hmax, elem_of_last_blocks. eauto. }
  cbn [mbind option_bind]. case_decide as Hd; do 3 eexists; (split; [done |]); (split; [done |]);
    (split; [exact Hbest |]); (split; [done |]); [right | left]; done.
Qed.

(** Calls of [new_block] one after another: what is handed on, last. *)
Fixpoint feed (s : Best) (handed : option Biddable) (l : list Biddable) : option (Best * option Biddable) :=
  match l with
  | [] => Some (s, handed)
  | block :: l => let! (s, out) := update_with_new_block s block in feed s (if out then out else handed) l
  end.

Definition tracked (s : Best) : Prop :=
  exists best, is_best s best /\ last_best_block_hash s = bh_transactions_hash (bu_block best).

Lemma feed_spec l : forall s handed,
  (forall b, handed = Some b -> last_best_block_hash s = bh_transactions_hash (bu_block b)) ->
  (handed = None -> last_best_block_hash s = 0) ->
  exists s' handed', feed s handed l = Some (s', handed') /\ (tracked s \/ l <> [] -> tracked s') /\
    (forall b, handed' = Some b -> last_best_block_hash s' = bh_transactions_hash (bu_block b)) /\
    (handed' = None -> last_best_block_hash s' = 0).
Proof.
  induction l as [| block l IH]; intros s handed Hs Hn; cbn [feed].
  { exists s, handed. split_and!; [done | by intros [] | done | done]. }
  destruct (update_with_new_block_spec s block) as (s1 & out & best & -> & _ & Hbest & Hhash & Hout). cbn [mbind option_bind].
  destruct (IH s1 (if out then out else handed)) as (s' & handed' & -> & Hl & Hs' & Hn').
  - destruct Hout as [-> | [-> Heq]]; [by intros b [= <-] |]. by rewrite <- Heq.
  - destruct Hout as [-> | [-> Heq]]; [done |]. by rewrite <- Heq.
  - exists s', handed'. split_and!; [done | | done | done]. intros _. apply Hl. left. by exists best.
Qed.

(** The last blocks were handed in. *)
Lemma feed_blocks l : forall s handed s' handed' name b, feed s handed l = Some (s', handed') ->
  last_block_by_algorithm s' !! name = Some b -> last_block_by_algorithm s !! name = Some b \/ b ∈ l.
Proof.
  induction l as [| block l IH]; intros s handed s' handed' name b; cbn [feed]; [intros [= <- _] ?; by left |].
  destruct (update_with_new_block_spec s block) as (s1 & out & best & -> & Hmap & _). cbn [mbind option_bind].
  intros Hf Hb. destruct (IH _ _ _ _ _ _ Hf Hb) as [Hl | Hl]; [| right; by right].
  rewrite Hmap in Hl. apply lookup_insert_Some in Hl as [[_ <-] | [_ Hl]]; [right; left | by left].
Qed.

(** When the algorithms do not overlap in [new_block], the block handed on last has the
    transactions of the best of their last blocks. *)
Theorem best_block_handed_on (l : list Biddable) : l <> [] ->
  (forall b, b ∈ l -> bh_transactions_hash (bu_block b) <> 0) ->
  exists s b best, feed BestBlockFromAlgorithms_default None l = Some (s, Some b) /\ is_best s best /\
    bh_transactions_hash (bu_block b) = bh_transactions_hash (bu_block best).
Proof.
  intros Hl Hne. destruct (feed_spec l BestBlockFromAlgorithms_default None) as (s & handed & Hfeed & Ht & Hs & Hn); [done | done |].
  destruct (Ht (or_intror Hl)) as (best & Hbest & Hhash). destruct handed as [b |].
  - exists s, b, best. split_and!; [done | done |]. rewrite <- Hhash. symmetry. by apply Hs.
  - exfalso. destruct Hbest as [[name Hname] _]. apply (Hne best); [| rewrite <- Hhash; by apply Hn].
    by destruct (feed_blocks _ _ _ _ _ _ _ Hfeed Hname).
Qed.
End best.

(** ** The threads get idle *)

(** Sums over lists and maps. *)
Section sums.
Context {K A : Type} `{Countable K} (w : A -> nat).

Definition list_weight (l : list A) : nat := list_sum (w <$> l).
Definition map_weight (m : gmap K A) : nat := list_weight (map_to_list m).*2.

Lemma list_weight_cons c l : list_weight (c :: l) = (w c + list_weight l)%nat.
Proof. done. Qed.

Lemma list_weight_app l l' : list_weight (l ++ l') = (list_weight l + list_weight l')%nat.
Proof. unfold list_weight. by rewrite fmap_app, list_sum_app. Qed.

Lemma list_weight_delete l k c : l !! k = Some c -> (list_weight (delete k l) + w c = list_weight l)%nat.
Proof.
  intros Hk. rewrite <- (take_drop_middle l k c Hk) at 2. rewrite delete_take_drop, !list_weight_app, list_weight_cons. lia.
Qed.

Lemma list_weight_insert l k c c' : l !! k = Some c -> (list_weight (<[k := c']> l) + w c = list_weight l + w c')%nat.
Proof.
  intros Hk. rewrite <- (take_drop_middle l k c Hk) at 2.
  rewrite insert_take_drop by by eapply lookup_lt_Some. rewrite !list_weight_app, !list_weight_cons. lia.
Qed.

Lemma map_weight_insert_new m k y : m !! k = None -> (map_weight (<[k := y]> m) = w y + map_weight m)%nat.
Proof.
  intros Hk. unfold map_weight. rewrite <- list_weight_cons. unfold list_weight. apply Permutation_list_sum.
  by rewrite (map_to_list_insert m k y Hk).
Qed.

Lemma map_weight_insert m k x y : m !! k = Some x -> (map_weight (<[k := y]> m) + w x = map_weight m + w y)%nat.
Proof.
  intros Hk. rewrite <- (insert_delete_id m k x Hk) at 2. rewrite <- insert_delete_eq.
  rewrite !map_weight_insert_new by apply lookup_delete_eq. lia.
Qed.
End sums.
Arguments list_weight : simpl never.
Arguments map_weight : simpl never.

Section idle.
Context {H Ctx B : Type} `{BlockHelper H Ctx B}.
Context `{!HashOrder string} `{!HashOrder RelaySet}.
Notation System := (System (H:=H) (Ctx:=Ctx)).

(** More than the number of steps that a call, a value in a watch or the state of a
    thread can cause. *)
Definition call_weight (c : Call (H:=H)) : nat :=
  match c with
  | Call_new_block _ => 8
  | Call_set_unfinalized _ => 7
  | Call_seal bid => 3 + 6 * length (sb_payout_info bid)
  | Call_recycle _ _ bid => 2 + 6 * length (sb_payout_info bid)
  | Call_command _ _ payouts => 1 + 6 * length payouts
  end.

Definition watch_weight {T} (n : nat) (w : Watch T) : nat := match w with Some _ => n | None => 0 end.

Definition prefinalize_weight (t : PrefinalizeThread (H:=H) (Ctx:=Ctx)) : nat :=
  match t with Pre_got _ => 5 | Pre_popped _ _ => 4 | Pre_ready _ _ => 3 | Pre_notify _ => 1 | _ => 0 end.

Definition finalize_weight (t : FinalizeThread) : nat :=
  match t with Fin_got _ => 3 | Fin_locked _ => 2 | Fin_failed _ => 1 | _ => 0 end.

Definition weight (s : System) : nat :=
  list_weight call_weight (sy_calls s) + watch_weight 6 (ui_last_unfinalized_block (sy_input s)) +
  prefinalize_weight (sy_prefinalize s) + map_weight (watch_weight 4) (ui_last_finalize_commands (sy_input s)) +
  map_weight finalize_weight (sy_finalize s).

(** The moves of the threads and of the calls in progress. *)
Definition internal (a : Action (H:=H)) : bool :=
  match a with Act_call _ | Act_prefinalize | Act_finalize _ => true | _ => false end.

Lemma call_step_weight s k c s' ev : sy_calls s !! k = Some c -> call_step s k c = Some (s', ev) ->
  (weight s' < weight s)%nat.
Proof.
  intros Hk Hstep. pose proof (list_weight_delete call_weight _ _ _ Hk) as Hdel.
  assert (Hins : forall c', (list_weight call_weight (<[k := c']> (sy_calls s)) + call_weight c
                  = list_weight call_weight (sy_calls s) + call_weight c')%nat) by (intros; by apply list_weight_insert).
  destruct c as [b | b | bid | unused found bid | m seen [| p payouts]]; cbn [call_step] in Hstep; cbn in Hdel, Hins.
  - destruct (update_with_new_block _ b) as [[best [b' |]] |]; injection Hstep as <- <-; unfold weight; cbn in *; try lia.
    specialize (Hins (Call_set_unfinalized b')). cbn in Hins. lia.
  - injection Hstep as <- <-. unfold weight; cbn. destruct (ui_last_unfinalized_block _); cbn; lia.
  - destruct (scan_blocks _ _) as [[u kept] f]. injection Hstep as <- <-. unfold weight; cbn.
    specialize (Hins (Call_recycle u f bid)). cbn in Hins. lia.
  - destruct (unused_locked s); [done |]. destruct found as [m |]; injection Hstep as <- <-; unfold weight; cbn.
    + specialize (Hins (Call_command m (sb_seen_competition_bid bid) (sb_payout_info bid))). cbn in Hins. lia.
    + lia.
  - injection Hstep as <- <-. unfold weight; cbn. lia.
  - destruct (mp_by_relay_set m !! pi_relays p) as [pf |]; injection Hstep as <- <-; unfold weight; cbn.
    + match goal with |- context [<[k := ?c']> (sy_calls s)] => specialize (Hins c') end. cbn in Hins.
      match goal with |- context [<[pi_relays p := ?x]> ?m] => set (y := x); set (cs := m) end.
      assert (map_weight (watch_weight 4) (<[pi_relays p := y]> cs) <= map_weight (watch_weight 4) cs + 4)%nat as Hw.
      { destruct (cs !! pi_relays p) as [x |] eqn:Ex.
        - pose proof (map_weight_insert (watch_weight 4) _ _ _ y Ex). cbn in *. lia.
        - rewrite map_weight_insert_new by done. cbn. lia. }
      lia.
    + specialize (Hins (Call_command m seen payouts)). cbn in Hins. lia.
Qed.

Lemma prefinalize_step_weight s s' ev : prefinalize_step s = Some (s', ev) -> (weight s' < weight s)%nat.
Proof.
  unfold prefinalize_step. destruct (sy_prefinalize s) as [| b | b inner | b ctx | desc |] eqn:Ep; [| | | | | done].
  - destruct (ui_last_unfinalized_block _) as [b |] eqn:Eb; [| done]. intros [= <- <-].
    unfold weight; cbn. rewrite Ep, Eb. cbn. lia.
  - destruct (last _); intros [= <- <-]; unfold weight; cbn; rewrite Ep; cbn; lia.
  - destruct (inner_locked _ _); [done |]. destruct (ui_inners _ !! _); [| done]. intros [= <- <-].
    unfold weight; cbn. rewrite Ep. cbn. lia.
  - destruct (prefinalize_block _ _ _) as [[[h ctx'] |] |].
    + destruct (MultiPrefinalizedBlock_new _ _ _ _ _). intros [= <- <-]. unfold weight; cbn. rewrite Ep. cbn. lia.
    + intros [= <- <-]. unfold weight; cbn. rewrite Ep. cbn. lia.
    + intros [= <- <-]. unfold weight; cbn. rewrite Ep. cbn. lia.
  - intros [= <- <-]. unfold weight; cbn. rewrite Ep. cbn. lia.
Qed.

Lemma finalize_step_weight s rs t s' ev : sy_finalize s !! rs = Some t -> finalize_step s rs t = Some (s', ev) ->
  (weight s' < weight s)%nat.
Proof.
  intros Hrs. assert (Hins : forall t', (map_weight finalize_weight (<[rs := t']> (sy_finalize s)) + finalize_weight t
    = map_weight finalize_weight (sy_finalize s) + finalize_weight t')%nat) by (intros; by apply map_weight_insert).
  destruct t as [| c | c | c |]; cbn [finalize_step]; [| | | | done].
  - destruct (ui_last_finalize_commands _ !! rs) as [[c |] |] eqn:Ec; [| done | done]. intros [= <- <-].
    pose proof (map_weight_insert (watch_weight 4) _ _ _ None Ec) as Hw. unfold weight; cbn in *.
    specialize (Hins (Fin_got c)). cbn in Hins. lia.
  - destruct (inner_locked _ _); [done |]. intros [= <- <-]. unfold weight; cbn.
    specialize (Hins (Fin_locked c)). cbn in Hins. lia.
  - destruct (ui_inners _ !! _) as [cell |]; [| done]. cbn. destruct (inner_finalize_block _ _ _ _ _) as [cell' r].
    destruct r as [[[blk |] | e] |]; intros [= <- <-]; unfold weight; cbn;
      [specialize (Hins Fin_waiting) | specialize (Hins Fin_waiting) | specialize (Hins (Fin_failed c)) |
       specialize (Hins Fin_ended)]; cbn in Hins; lia.
  - intros [= <- <-]. unfold weight; cbn. specialize (Hins Fin_waiting). cbn in Hins. lia.
Qed.

Lemma internal_bounded l s r : Forall (fun a => internal a = true) l -> run_actions s l = Some r ->
  (length l <= weight s)%nat.
Proof.
  intros Hl. revert s r. induction Hl as [| a l Ha Hl IH]; intros s r; cbn [run_actions length]; [lia |].
  destruct (step s a) as [[s1 ev1] |] eqn:Es; [| done]. cbn.
  destruct (run_actions s1 l) as [[s2 ev2] |] eqn:Er; [| done]. intros _. specialize (IH _ _ Er).
  assert (weight s1 < weight s)%nat; [| lia].
  destruct a as [| | | k | | rs | |]; try done; cbn [step] in Es.
  - destruct (sy_calls s !! k) as [c |] eqn:Ec; [| done]. by eapply call_step_weight.
  - by eapply prefinalize_step_weight.
  - destruct (sy_finalize s !! rs) as [t |] eqn:Et; [| done]. by eapply finalize_step_weight.
Qed.

(** Nothing in progress, nothing waiting to be taken. *)
Definition quiescent (s : System) : Prop :=
  sy_calls s = [] /\
  (sy_prefinalize s = Pre_ended \/ sy_prefinalize s = Pre_waiting /\ ui_last_unfinalized_block (sy_input s) = None) /\
  forall rs t, sy_finalize s !! rs = Some t ->
    t = Fin_ended \/ t = Fin_waiting /\ ui_last_finalize_commands (sy_input s) !! rs = Some None.

Definition stuck (s : System) : Prop := forall a, internal a = true -> step s a = None.

(** A thread that holds the lock of a cell can move. *)
Lemma stuck_unlocked adjust sets (E : list (Event (H:=H) (B:=B))) s : system_ok adjust sets E s -> stuck s ->
  forall inner, inner_locked s inner = false.
Proof.
  intros Hs Hstuck inner. apply not_true_iff_false. unfold inner_locked. rewrite existsb_exists.
  intros ([rs t] & Hin & Hh). apply list_elem_of_In, elem_of_map_to_list in Hin.
  pose proof (Hstuck (Act_finalize rs) eq_refl) as Hst. cbn [step] in Hst. rewrite Hin in Hst. cbn in Hst.
  pose proof (po_finalize _ _ _ _ _ (so_parts _ _ _ _ Hs) rs t Hin) as Hfin.
  destruct t as [| c | c | c |]; cbn in Hh, Hst, Hfin; try done.
  destruct Hfin as [(b & cell & Hcell & _) _]. rewrite Hcell in Hst. cbn in Hst.
  destruct (inner_finalize_block _ _ _ _ _) as [cell' [[[] |] |]]; done.
Qed.

Lemma stuck_quiescent adjust sets (E : list (Event (H:=H) (B:=B))) s : system_ok adjust sets E s -> stuck s -> quiescent s.
Proof.
  intros Hs Hstuck. pose proof (stuck_unlocked _ _ _ _ Hs Hstuck) as Hlock.
  assert (Hpre : sy_prefinalize s = Pre_ended \/ sy_prefinalize s = Pre_waiting /\ ui_last_unfinalized_block (sy_input s) = None).
  { pose proof (Hstuck Act_prefinalize eq_refl) as Hst. cbn [step] in Hst. unfold prefinalize_step in Hst.
    pose proof (po_prefinalize _ _ _ _ _ (so_parts _ _ _ _ Hs)) as Hok.
    destruct (sy_prefinalize s) as [| b | b inner | b ctx | desc |]; [| | | | done | by left]; cbn in Hok.
    - right. by destruct (ui_last_unfinalized_block _).
    - by destruct (last _).
    - rewrite Hlock in Hst. destruct Hok as [_ [cell Hcell]]. by rewrite Hcell in Hst.
    - destruct (prefinalize_block _ _ _) as [[[h ctx'] |] |]; [| done | done].
      by destruct (MultiPrefinalizedBlock_new _ _ _ _ _). }
  split_and!; [| done |].
  - destruct (sy_calls s) as [| c l] eqn:Ec; [done |]. exfalso.
    pose proof (Hstuck (Act_call 0) eq_refl) as Hst. cbn [step] in Hst. rewrite Ec in Hst. cbn in Hst.
    assert (Hun : unused_locked s = false) by (unfold unused_locked; by destruct Hpre as [-> | [-> _]]).
    destruct c as [b | b | bid | unused found bid | m seen [| p payouts]]; cbn [call_step] in Hst; try done.
    + destruct (update_with_new_block _ _) as [[? []] |]; done.
    + by destruct (scan_blocks _ _) as [[] ].
    + rewrite Hun in Hst. by destruct found.
    + by destruct (mp_by_relay_set m !! pi_relays p).
  - intros rs t Ht. pose proof (Hstuck (Act_finalize rs) eq_refl) as Hst. cbn [step] in Hst. rewrite Ht in Hst. cbn in Hst.
    pose proof (po_finalize _ _ _ _ _ (so_parts _ _ _ _ Hs) rs t Ht) as Hfin.
    destruct t as [| c | c | c |]; cbn in Hst, Hfin; [right | | | done | by left].
    + split; [done |]. apply (elem_of_dom_2 (D:=gset RelaySet)) in Ht.
      rewrite (so_threads _ _ _ _ Hs), <- (so_commands _ _ _ _ Hs), elem_of_dom in Ht. destruct Ht as [[c |] Hc]; [| done].
      by rewrite Hc in Hst.
    + by rewrite Hlock in Hst.
    + destruct Hfin as [(b & cell & Hcell & _) _]. rewrite Hcell in Hst. cbn in Hst.
      destruct (inner_finalize_block _ _ _ _ _) as [cell' [[[] |] |]]; done.
Qed.

(** ** Panics *)
Definition helpers_do_not_panic : Prop := forall (h : H) (ctx : Ctx) value subsidy seen,
  (bh_finalize_block h ctx value subsidy seen).2 <> None /\
  (bh_adjust_finalized_block h ctx value subsidy seen).2 <> None.

Lemma call_no_panic `{!HashOrderOk string} s k c s' ev : call_step s k c = Some (s', ev) -> Ev_panicked ∉ ev.
Proof.
  destruct c as [b | b | bid | unused found bid | m seen [| p payouts]]; cbn [call_step].
  - destruct (update_with_new_block_spec (ui_best_block_from_algorithms (sy_input s)) b) as (best & out & b' & -> & _).
    destruct out; intros [= <- <-]; set_solver.
  - intros [= <- <-]. set_solver.
  - destruct (scan_blocks _ _) as [[] ]. intros [= <- <-]. set_solver.
  - destruct (unused_locked s); [done |]. destruct found; intros [= <- <-]; set_solver.
  - intros [= <- <-]. set_solver.
  - destruct (mp_by_relay_set m !! pi_relays p); intros [= <- <-]; set_solver.
Qed.

Lemma prefinalize_no_panic s s' ev : helpers_do_not_panic -> prefinalize_step s = Some (s', ev) -> Ev_panicked ∉ ev.
Proof.
  intros Hnp. unfold prefinalize_step. destruct (sy_prefinalize s) as [| b | b inner | b ctx | desc |]; [| | | | | done].
  - destruct (ui_last_unfinalized_block _); [| done]. intros [= <- <-]. set_solver.
  - destruct (last _); intros [= <- <-]; set_solver.
  - destruct (inner_locked _ _); [done |]. destruct (ui_inners _ !! _); [| done]. intros [= <- <-]. set_solver.
  - unfold prefinalize_block. destruct (ui_adjust_finalized_blocks _).
    + destruct (bh_true_block_value _) as [v |]; [| intros [= <- <-]; set_solver].
      destruct (Hnp (bu_block b) ctx v 0 None) as [Hf _]. destruct (bh_finalize_block _ _ _ _ _) as [[h c] [[] |]]; [| | done].
      * destruct (MultiPrefinalizedBlock_new _ _ _ _ _). intros [= <- <-]. set_solver.
      * intros [= <- <-]. set_solver.
    + destruct (MultiPrefinalizedBlock_new _ _ _ _ _). intros [= <- <-]. set_solver.
  - intros [= <- <-]. set_solver.
Qed.

Lemma finalize_no_panic s rs t s' ev : helpers_do_not_panic -> finalize_step s rs t = Some (s', ev) -> Ev_panicked ∉ ev.
Proof.
  intros Hnp. destruct t as [| c | c | c |]; cbn [finalize_step]; [| | | | done].
  - destruct (ui_last_finalize_commands _ !! rs) as [[c |] |]; [| done | done]. intros [= <- <-]. set_solver.
  - destruct (inner_locked _ _); [done |]. intros [= <- <-]. set_solver.
  - destruct (ui_inners _ !! _) as [cell |]; [| done]. cbn. unfold inner_finalize_block.
    destruct (in_local_ctx cell) as [ctx |]; [| intros [= <- <-]; set_solver].
    destruct (Hnp (in_helper cell) ctx (fc_value c) (fc_subsidy c) (fc_seen_competition_bid c)) as [Hf Ha].
    destruct (ui_adjust_finalized_blocks _).
    + destruct (bh_adjust_finalized_block _ _ _ _ _) as [[h c'] [[] |]]; [| | done]; intros [= <- <-]; set_solver.
    + destruct (bh_finalize_block _ _ _ _ _) as [[h c'] [[] |]]; [| | done]; intros [= <- <-]; set_solver.
  - intros [= <- <-]. set_solver.
Qed.

Lemma step_no_panic `{!HashOrderOk string} s a s' ev : helpers_do_not_panic -> step s a = Some (s', ev) -> Ev_panicked ∉ ev.
Proof.
  intros Hnp. destruct a as [b | bid | | k | | rs | | rs]; cbn [step].
  1-3: intros [= <- <-]; set_solver.
  - destruct (sy_calls s !! k) as [c |]; [| done]. apply call_no_panic.
  - by apply prefinalize_no_panic.
  - destruct (sy_finalize s !! rs) as [t |]; [| done]. by apply finalize_no_panic.
  - destruct (sy_prefinalize s); try done. destruct (ui_cancelled _); [| done]. intros [= <- <-]. set_solver.
  - destruct (sy_finalize s !! rs) as [[] |]; try done. destruct (ui_cancelled _); [| done]. intros [= <- <-]. set_solver.
Qed.

Lemma run_no_panic `{!HashOrderOk string} l s s' ev : helpers_do_not_panic -> run_actions s l = Some (s', ev) -> Ev_panicked ∉ ev.
Proof.
  intros Hnp. revert s s' ev. induction l as [| a l IH]; intros s s' ev; cbn [run_actions]; [intros [= <- <-]; set_solver |].
  destruct (step s a) as [[s1 ev1] |] eqn:Es; [| done]. cbn.
  destruct (run_actions s1 l) as [[s2 ev2] |] eqn:Er; [| done]. intros [= <- <-].
  apply not_elem_of_app. split; [by eapply step_no_panic | by eapply IH].
Qed.
End idle.

(** ** What the pipeline does *)
Section pipeline.
Context {H Ctx B : Type} `{BlockHelper H Ctx B}.
Context `{!HashOrder string} `{!HashOrderOk string} `{!HashOrder RelaySet} `{!HashOrderOk RelaySet}.
Notation Events := (list (Event (H:=H) (B:=B))).

Lemma create_sink_ok cache adjust relay_sets :
  system_ok adjust (list_to_set relay_sets) ([] : Events) (create_sink cache adjust relay_sets).
Proof.
  assert (Hdom : dom (list_to_map ((fun rs => (rs, Watch_new)) <$> relay_sets) : gmap RelaySet (Watch FinalizeCommand))
                 = list_to_set relay_sets).
  { rewrite dom_list_to_map_L. f_equal. rewrite <- list_fmap_compose. apply list_fmap_id. }
  split; [split | done | exact Hdom |]; cbn; try done.
  - intros rs c Hl. apply elem_of_list_to_map_2, list_elem_of_fmap in Hl as (rs' & [= _ ?] & _).
  - intros rs t. rewrite lookup_fmap. intros (w & _ & ->)%fmap_Some. done.
  - intros e He. by apply elem_of_nil in He.
  - by rewrite dom_fmap_L.
Qed.

Lemma pipeline_ok cache adjust relay_sets schedule s (E : Events) :
  run_actions (create_sink cache adjust relay_sets) schedule = Some (s, E) ->
  system_ok adjust (list_to_set relay_sets) E s.
Proof. intros Hrun. apply (run_actions_ok _ _ schedule [] _ _ _ (create_sink_ok cache adjust relay_sets) Hrun). Qed.

(** C16. However the threads of the block pipeline interleave, a block is submitted
    only to a configured set of relays, and it is a block that was chosen as
    the best, sealed with the value, the subsidy and the seen bid that some
    bid on this block offers these relays: as built when blocks are sealed
    from scratch, finalized with its true value and adjusted otherwise. When
    helpers do not panic, no thread does. *)
Theorem submissions_justified cache adjust relay_sets schedule s (E : Events) :
  run_actions (create_sink cache adjust relay_sets) schedule = Some (s, E) ->
  (forall rs blk, Ev_submitted rs blk ∈ E -> justified adjust (list_to_set relay_sets) E rs blk) /\
  (helpers_do_not_panic (H:=H) (Ctx:=Ctx) (B:=B) -> Ev_panicked ∉ E).
Proof.
  intros Hrun. split.
  - intros rs blk Hin. apply (po_events _ _ _ _ _ (so_parts _ _ _ _ (pipeline_ok _ _ _ _ _ _ Hrun)) _ Hin).
  - intros Hnp. by eapply run_no_panic.
Qed.

(** C17. From every state the block pipeline reaches, its threads and the calls in
    progress make a bounded number of steps without new input, and where
    none of them can move every call has returned and every living thread
    waits with an empty watch: the locks of the unused blocks and of the
    prefinalized blocks never deadlock. *)
Theorem pipeline_drains cache adjust relay_sets schedule s (E : Events) :
  run_actions (create_sink cache adjust relay_sets) schedule = Some (s, E) ->
  (forall l r, Forall (fun a => internal a = true) l -> run_actions s l = Some r -> (length l <= weight s)%nat) /\
  (stuck s -> quiescent s).
Proof.
  intros Hrun. split; [intros l r; apply internal_bounded |].
  intros Hst. by apply (stuck_quiescent _ _ _ _ (pipeline_ok _ _ _ _ _ _ Hrun)).
Qed.

(** ** Adjusting finalized blocks

    What the pipeline needs of helpers: a finalized helper can be adjusted, until an
    adjustment fails. *)
Class HelperProtocol := {
  bh_adjustable : H -> Prop;
  finalize_adjustable : forall h (ctx : Ctx) value subsidy seen h' ctx' blk,
    bh_finalize_block h ctx value subsidy seen = (h', ctx', Some (Ok blk)) -> bh_adjustable h';
  adjust_adjustable : forall h (ctx : Ctx) value subsidy seen h' ctx' blk,
    bh_adjust_finalized_block h ctx value subsidy seen = (h', ctx', Some (Ok blk)) -> bh_adjustable h /\ bh_adjustable h';
  adjust_fails : forall h (ctx : Ctx) value subsidy seen h' ctx' e,
    bh_adjust_finalized_block h ctx value subsidy seen = (h', ctx', Some (Err e)) -> ~ bh_adjustable h';
}.

(** Finalized with its true value, and then adjusted without a failure. *)
Inductive settled (b : BiddableUnfinishedBlock (H:=H)) : H -> Prop :=
| settled_finalized value (ctx : Ctx) h ctx' blk : bh_true_block_value (bu_block b) = Ok value ->
    bh_finalize_block (bu_block b) ctx value 0 None = (h, ctx', Some (Ok blk)) -> settled b h
| settled_adjusted h (ctx : Ctx) value subsidy seen h' ctx' blk : settled b h ->
    bh_adjust_finalized_block h ctx value subsidy seen = (h', ctx', Some (Ok blk)) -> settled b h'.

Lemma prepared_settled `{!HelperProtocol} b adjust h : helpers_do_not_panic (H:=H) (Ctx:=Ctx) (B:=B) ->
  prepared b adjust h -> adjust = true -> bh_adjustable h -> settled b h.
Proof.
  intros Hnp Hp. induction Hp as [| value ctx h ctx' blk Hv Hf | h ctx value subsidy seen h' ctx' r Hp IH Ha]; [done | |].
  - intros _ _. by eapply settled_finalized.
  - intros Ht Hadj. destruct (Hnp h ctx value subsidy seen) as [_ Hr]. rewrite Ha in Hr.
    destruct r as [[blk | e] |]; [| | done].
    + eapply settled_adjusted; [| exact Ha]. apply IH; [done |]. apply (adjust_adjustable _ _ _ _ _ _ _ _ Ha).
    + by destruct (adjust_fails _ _ _ _ _ _ _ _ Ha).
Qed.

(** C18. When finalized blocks are adjusted and helpers keep their protocol without
    panics, every submitted block comes from a helper that was finalized
    with the true value of the chosen block and for which every adjustment,
    the last included, succeeded: a block that failed once is never
    submitted, although commands for it may be pending when it is removed. *)
Theorem adjusted_blocks_settled `{!HelperProtocol} cache relay_sets schedule s (E : Events) rs blk :
  run_actions (create_sink cache true relay_sets) schedule = Some (s, E) ->
  helpers_do_not_panic (H:=H) (Ctx:=Ctx) (B:=B) -> Ev_submitted rs blk ∈ E ->
  exists b bid p h ctx h' ctx', Ev_chosen b ∈ E /\ Ev_bid bid ∈ E /\ sb_block_id bid = bh_id (bu_block b) /\
    p ∈ sb_payout_info bid /\ pi_relays p = rs /\ settled b h /\ settled b h' /\
    bh_adjust_finalized_block h ctx (pi_payout_tx_value p) (pi_subsidy p) (sb_seen_competition_bid bid)
    = (h', ctx', Some (Ok blk)).
Proof.
  intros Hrun Hnp Hin. destruct (po_events _ _ _ _ _ (so_parts _ _ _ _ (pipeline_ok _ _ _ _ _ _ Hrun)) _ Hin)
    as (_ & b & bid & p & h & ctx & Hb & Hbid & Hid & Hp & Hrs & Hprep & Hseal). unfold seals in Hseal.
  destruct (bh_adjust_finalized_block _ _ _ _ _) as [[h' ctx'] r] eqn:Ea. cbn in Hseal. subst r.
  destruct (adjust_adjustable _ _ _ _ _ _ _ _ Ea) as [Hadj _].
  assert (Hset : settled b h) by by eapply prepared_settled.
  exists b, bid, p, h, ctx, h', ctx'. split_and!; try done. by eapply settled_adjusted.
Qed.

(** ** Bids of the true value *)
Lemma notify_bid_spec sb now desc bid : notify_new_built_block sb now desc = Some (Some bid) ->
  nb_bid_start_time sb <= now /\ sb_block_id bid = bd_id desc /\ sb_seen_competition_bid bid = None /\
  forall p, p ∈ sb_payout_info bid -> exists subsidy, nb_relay_sets_subsidies sb !! pi_relays p = Some subsidy /\
    pi_payout_tx_value p = u256_add (bd_true_block_value desc) subsidy /\ pi_subsidy p = subsidy.
Proof.
  unfold notify_new_built_block. case_decide as Hnow; [done |]. destruct (mapM _ _) as [l |] eqn:El; [| done].
  intros [= <-]. cbn. split_and!; [lia | done | done |]. intros p Hp. apply mapM_Some in El.
  apply list_elem_of_lookup in Hp as [i Hi]. destruct (Forall2_lookup_r _ _ _ _ _ El Hi) as (rs & _ & Hrs).
  destruct (nb_relay_sets_subsidies sb !! rs) as [subsidy |] eqn:Es; [| done]. cbn in Hrs.
  unfold i256_try_from in Hrs. case_decide; [| done]. injection Hrs as <-. by exists subsidy.
Qed.

(** When bids come from the bidder of true values only, in answer to
    notifications, and chosen blocks have ids of their own, every block
    submitted to a set of relays pays the true value of the chosen block
    plus the subsidy of that set (modulo 2^256), and reports that subsidy. *)
Theorem true_value_bids sb cache adjust relay_sets schedule s (E : Events) rs blk :
  run_actions (create_sink cache adjust relay_sets) schedule = Some (s, E) ->
  (forall bid, Ev_bid bid ∈ E -> exists now desc, Ev_notified desc ∈ E /\
     notify_new_built_block sb now desc = Some (Some bid)) ->
  (forall b b', Ev_chosen b ∈ E -> Ev_chosen b' ∈ E -> bh_id (bu_block b) = bh_id (bu_block b') -> b = b') ->
  Ev_submitted rs blk ∈ E ->
  exists b subsidy h ctx, Ev_chosen b ∈ E /\ nb_relay_sets_subsidies sb !! rs = Some subsidy /\ prepared b adjust h /\
    seals adjust h ctx (u256_add (bu_true_block_value b) subsidy) subsidy None blk.
Proof.
  intros Hrun Hbids Hids Hin. pose proof (po_events _ _ _ _ _ (so_parts _ _ _ _ (pipeline_ok _ _ _ _ _ _ Hrun))) as Hev.
  destruct (Hev _ Hin) as (_ & b & bid & p & h & ctx & Hb & Hbid & Hid & Hp & Hrs & Hprep & Hseal).
  destruct (Hbids bid Hbid) as (now & desc & Hdesc & Hnotify).
  destruct (Hev _ Hdesc) as (b' & Hb' & ->). destruct (notify_bid_spec _ _ _ _ Hnotify) as (_ & Hid' & Hseen & Hpay).
  destruct (Hpay p Hp) as (subsidy & Hsub & Hval & Hps). cbn in Hid', Hval.
  assert (b' = b) as -> by (apply Hids; [done | done | congruence]). rewrite Hseen, Hval, Hps, Hrs in *.
  by exists b, subsidy, h, ctx.
Qed.

(** ** Calls that overlap

    [new_block] chooses under a lock and hands on after it: of two algorithms, the one
    with the worse block can hand on last. *)
Lemma choose_better (s : BestBlockFromAlgorithms (H:=H)) b :
  (forall name b', last_block_by_algorithm s !! name = Some b' -> name <> bh_builder_name (bu_block b) ->
     bu_true_block_value b' < bu_true_block_value b) ->
  bh_transactions_hash (bu_block b) <> last_best_block_hash s ->
  exists s', update_with_new_block s b = Some (s', Some b) /\ is_best s' b /\
    last_block_by_algorithm s' = <[bh_builder_name (bu_block b) := b]> (last_block_by_algorithm s) /\
    last_best_block_hash s' = bh_transactions_hash (bu_block b).
Proof.
  intros Hless Hhash. destruct (update_with_new_block_spec s b) as (s' & out & best & Hup & Hmap & Hbest & Hh & Hout).
  assert (best = b) as ->.
  { destruct Hbest as [[name Hname] Hmax]. rewrite Hmap in Hname, Hmax.
    apply lookup_insert_Some in Hname as [[_ <-] | [Hne Hname]]; [done |].
    specialize (Hless name best Hname (not_eq_sym Hne)).
    specialize (Hmax _ b (lookup_insert_eq _ _ _)). lia. }
  exists s'. destruct Hout as [-> | [-> Heq]]; [done |]. congruence.
Qed.

(** C39. When two algorithms hand in blocks at the same time, the worse block can be
    handed on last although the better one is chosen: choosing is done under
    a lock and handing on after it, so the watch may hold the worse block
    while no call is in progress. *)
Theorem worse_block_handed_on_last cache adjust relay_sets (worse better : BiddableUnfinishedBlock (H:=H)) :
  bh_builder_name (bu_block worse) <> bh_builder_name (bu_block better) ->
  bu_true_block_value worse < bu_true_block_value better ->
  bh_transactions_hash (bu_block worse) <> bh_transactions_hash (bu_block better) ->
  bh_transactions_hash (bu_block worse) <> 0 ->
  exists schedule s (E : Events), run_actions (create_sink cache adjust relay_sets) schedule = Some (s, E) /\
    sy_calls s = [] /\ is_best (ui_best_block_from_algorithms (sy_input s)) better /\
    ui_last_unfinalized_block (sy_input s) = Some worse.
Proof.
  intros Hname Hval Hhash Hzero.
  destruct (choose_better BestBlockFromAlgorithms_default worse) as (s1 & Hup1 & _ & Hmap1 & Hh1); [done | done |].
  destruct (choose_better s1 better) as (s2 & Hup2 & Hbest2 & _ & _).
  { intros name b'. rewrite Hmap1, lookup_insert_Some. intros [[_ <-] | [_ ?]]; done. }
  { by rewrite Hh1. }
  exists [Act_new_block worse; Act_new_block better; Act_call 0; Act_call 1; Act_call 1; Act_call 0].
  cbn [run_actions step create_sink sy_calls app lookup list_lookup mbind option_bind with_calls call_step
       ui_best_block_from_algorithms sy_input UnfinishedBuiltBlocksInput_new].
  rewrite Hup1. cbn. rewrite Hup2. cbn. do 2 eexists. split; [reflexivity |]. by split_and!.
Qed.
End pipeline.

(** ** Which relays get which bid *)
Section relay_sets.
Context `{!HashOrder string} `{!HashOrderOk string} `{!HashOrder RelaySet} (overrides : gmap string U256).

Lemma take_overrides_spec (all : gset string) l : Forall (fun r => is_Some (overrides !! r)) l ->
  let acc := foldl (take_override overrides) (all, ∅) l in
  acc.1 = all ∖ list_to_set l /\
  forall rs s, acc.2 !! rs = Some s <-> exists r, r ∈ l /\ overrides !! r = Some s /\ rs = mk_RelaySet [r].
Proof.
  induction l as [| r l IH] using rev_ind; intros Hl; cbv zeta.
  { cbn. split; [set_solver |]. intros rs s. rewrite lookup_empty. set_solver. }
  apply Forall_app in Hl as [Hl Hr]. apply Forall_cons in Hr as [[s0 Hs0] _]. specialize (IH Hl). cbv zeta in IH.
  rewrite foldl_snoc. destruct (foldl _ _ l) as [d m]. cbn [fst snd] in IH. destruct IH as [-> Hm].
  unfold take_override. rewrite Hs0. cbn [fst snd]. split; [set_solver |].
  intros rs s. change (RelaySet_new [r]) with (mk_RelaySet [r]). rewrite lookup_insert_Some, Hm. split.
  - intros [[<- <-] | (_ & r' & ? & ? & ?)]; [exists r | exists r']; set_solver.
  - intros (r' & [Hin | ->%list_elem_of_singleton]%elem_of_app & Ho & ->).
    + destruct (decide (r' = r)) as [-> | Hne]; [left; split; [done | congruence] |].
      right. split; [congruence |]. by exists r'.
    + left. split; [done | congruence].
Qed.

(** Every relay is in exactly one set, with its own subsidy or the default one. *)
Theorem relay_gets_one_bid subsidy delta all r : r ∈ relays all \/ is_Some (overrides !! r) ->
  exists rs, nt_relay_sets_subsidies (NewTrueBlockValueBiddingService_new subsidy overrides delta all) !! rs
      = Some (default subsidy (overrides !! r)) /\ r ∈ relays rs /\
    forall rs' s, nt_relay_sets_subsidies (NewTrueBlockValueBiddingService_new subsidy overrides delta all) !! rs' = Some s ->
      r ∈ relays rs' -> rs' = rs.
Proof.
  intros Hr. unfold NewTrueBlockValueBiddingService_new.
  pose proof (take_overrides_spec (list_to_set (relays all)) (hash_order (dom overrides))) as Hfold.
  destruct (foldl _ _ _) as [d m]. cbn [fst snd] in Hfold.
  assert (Hdom : forall x, x ∈ hash_order (dom overrides) <-> is_Some (overrides !! x))
    by (intros x; by rewrite hash_order_perm, elem_of_elements, elem_of_dom).
  destruct Hfold as [Hd Hm]; [by apply Forall_forall; intros x; rewrite Hdom |]. cbn [nt_relay_sets_subsidies].
  assert (Hdef : forall x, x ∈ relays (RelaySet_new (hash_order d)) <-> x ∈ d).
  { intros x. unfold RelaySet_new. cbn [relays]. by rewrite merge_sort_Permutation, hash_order_perm, elem_of_elements. }
  assert (Hin : forall x, x ∈ d <-> x ∈ relays all /\ ~ is_Some (overrides !! x)).
  { intros x. rewrite Hd, elem_of_difference, !elem_of_list_to_set, Hdom. done. }
  assert (Hm' : forall rs s, m !! rs = Some s -> r ∈ relays rs -> overrides !! r = Some s /\ rs = mk_RelaySet [r]).
  { intros rs s (x & _ & Hx & ->)%Hm ->%list_elem_of_singleton. done. }
  destruct (overrides !! r) as [s |] eqn:Es; cbn [default].
  - exists (mk_RelaySet [r]). assert (Hms : m !! mk_RelaySet [r] = Some s) by (apply Hm; exists r; by rewrite Hdom, Es).
    assert (Hrd : ~ r ∈ d) by (rewrite Hin, Es; intros [_ Hn]; by apply Hn).
    case_decide as He.
    + split_and!; [done | set_solver |]. intros rs' s' Hl Hr'. by destruct (Hm' _ _ Hl Hr').
    + assert (Hne : RelaySet_new (hash_order d) <> mk_RelaySet [r]).
      { intros Heq. apply Hrd, Hdef. rewrite Heq. set_solver. }
      split_and!; [by rewrite lookup_insert_ne | set_solver |].
      intros rs' s'. rewrite lookup_insert_Some. intros [[<- _] | [_ Hl]] Hr'; [by apply Hdef in Hr' | by destruct (Hm' _ _ Hl Hr')].
  - assert (Hrd : r ∈ d) by (apply Hin; rewrite Es; destruct Hr as [? | []]; [split; [done | by intros []] | done]).
    exists (RelaySet_new (hash_order d)). rewrite decide_False by set_solver.
    split_and!; [apply lookup_insert_eq | by apply Hdef |].
    intros rs' s'. rewrite lookup_insert_Some. intros [[<- _] | [_ Hl]] Hr'; [done | by destruct (Hm' _ _ Hl Hr')].
Qed.
End relay_sets.

(** ** The helper of BlockHelper.v implements the interface *)
Section provider.
Context {W Diff C : Type} `{ChainState W Diff} `{!ChainStateOk W Diff} `{!TxCache W Diff C}.
Context `{PayoutSigner} `{!PayoutSignerOk}.
Context `{!HashOrder Address} `{!HashOrder nat} `{ConstraintCodec}.
Context (ctx : BlockBuildingContext) (constraints : list Constraints) (db_view : FinalizeError -> bool).
Context (finalize_block_fn : bool -> FinalizeAdjustmentState ->
         M (Building W C) (result (SealedBlock * FinalizeAdjustmentState) FinalizeError)).
(** The hash function of [transactions_hash]. *)
Context (hash_of : list TxHash -> U64).

Record ProviderHelper := { ph_id : BuiltBlockId; ph_builder_name : string; ph_helper : BlockBuildingHelper W C }.

Definition transactions_hash (t : BuiltBlockTrace) : U64 :=
  hash_of (bt_included_orders t ≫= fun r => (fun i => tx_hash (ti_tx i)) <$> er_tx_infos r).

(** The context of the thread holds caches only, and is left out. *)
Definition run_helper {A} (m : M (BlockBuildingHelper W C) (result A BlockBuildingHelperError)) (h : ProviderHelper)
  : ProviderHelper * unit * option (result A BlockBuildingHelperError) :=
  let '(hp, o) := m (ph_helper h) in
  ({| ph_id := ph_id h; ph_builder_name := ph_builder_name h; ph_helper := hp |}, tt,
   match o with Done r => Some r | _ => None end).

#[local] Instance provider_helper : BlockHelper ProviderHelper unit (SealedBlock * BuiltBlockTrace) := {|
  bh_built_block_trace := fun h => hp_trace (ph_helper h);
  bh_id := ph_id;
  bh_builder_name := ph_builder_name;
  bh_transactions_hash := fun h => transactions_hash (hp_trace (ph_helper h));
  bh_true_block_value := fun h => true_block_value ctx (ph_helper h);
  bh_finalize_block := fun h _ value subsidy seen =>
    run_helper (helper_finalize_block ctx constraints db_view finalize_block_fn value subsidy seen) h;
  bh_adjust_finalized_block := fun h _ value subsidy seen =>
    run_helper (helper_adjust_finalized_block ctx constraints db_view finalize_block_fn value subsidy seen) h;
  local_ctx_default := tt;
|}.

#[local] Instance provider_protocol : HelperProtocol (H:=ProviderHelper) (Ctx:=unit) (B:=SealedBlock * BuiltBlockTrace).
Proof.
  refine {| bh_adjustable := fun h => is_Some (hp_adjustment (ph_helper h)) |};
    intros [id name h] [] value subsidy seen h' ctx' r; cbn; unfold run_helper; cbn [ph_helper].
  - destruct (helper_finalize_block _ _ _ _ _ _ _ h) as [hp o] eqn:Ef. intros [= <- <- Eo].
    destruct o as [r' | |]; [| done | done]. injection Eo as ->. apply finalize_then_adjust in Ef. cbn.
    destruct (Bool.eqb _ _); [destruct Ef as [Hok _]; by eapply Hok | by destruct Ef as [_ [=]]].
  - destruct (helper_adjust_finalized_block _ _ _ _ _ _ _ h) as [hp o] eqn:Ef. intros [= <- <- Eo].
    destruct o as [r' | |]; [| done | done]. injection Eo as ->. apply finalize_then_adjust in Ef. cbn.
    destruct (bool_decide (is_Some (hp_adjustment h))) eqn:Ea; cbn in Ef.
    + apply bool_decide_eq_true in Ea. split; [done |]. destruct Ef as [Hok _]. by eapply Hok.
    + by destruct Ef as [_ [=]].
  - destruct (helper_adjust_finalized_block _ _ _ _ _ _ _ h) as [hp o] eqn:Ef. intros [= <- <- Eo].
    destruct o as [r' | |]; [| done | done]. injection Eo as ->. apply finalize_then_adjust in Ef. cbn.
    destruct (bool_decide (is_Some (hp_adjustment h))) eqn:Ea; cbn in Ef.
    + destruct Ef as [_ He]. rewrite (He _ eq_refl). by intros [? [=]].
    + destruct Ef as [-> _]. by apply bool_decide_eq_false in Ea.
Defined.
End provider.

(** ** A small pipeline *)
Section sample.
#[local] Instance sample_names : HashOrder string := elements_order.
#[local] Instance sample_sets : HashOrder RelaySet := elements_order.
#[local] Instance sample_names_ok : HashOrderOk string.
Proof. intros s. reflexivity. Qed.
#[local] Instance sample_sets_ok : HashOrderOk RelaySet.
Proof. intros s. reflexivity. Qed.

(** A helper with an id, the name of its algorithm, its value, and what it pays once it
    is finalized; paying more than 1000 fails. *)
Record ToyHelper := { th_id : Z; th_name : string; th_value : U256; th_paid : option U256 }.

Definition toy_pay (h : ToyHelper) (value : U256) : ToyHelper * unit * option (result (Z * U256) BlockBuildingHelperError) :=
  let pays paid := {| th_id := th_id h; th_name := th_name h; th_value := th_value h; th_paid := paid |} in
  if decide (value <= 1000) then (pays (Some value), tt, Some (Ok (th_id h, value)))
  else (pays None, tt, Some (Err Helper_ProviderError)).

#[local] Instance toy_helper : BlockHelper ToyHelper unit (Z * U256) := {|
  bh_built_block_trace := fun _ => BuiltBlockTrace_new;
  bh_id := th_id;
  bh_builder_name := th_name;
  bh_transactions_hash := th_id;
  bh_true_block_value := fun h => Ok (th_value h);
  bh_finalize_block := fun h _ value _ _ =>
    if th_paid h then (h, tt, Some (Err Helper_BlockFinalizedIncorrectly)) else toy_pay h value;
  bh_adjust_finalized_block := fun h _ value _ _ =>
    if th_paid h then toy_pay h value else (h, tt, Some (Err Helper_BlockFinalizedIncorrectly));
  local_ctx_default := tt;
|}.

Lemma toy_no_panic : helpers_do_not_panic (H:=ToyHelper) (Ctx:=unit) (B:=Z * U256).
Proof. intros h ctx value subsidy seen. cbn. unfold toy_pay. destruct (th_paid h); case_decide; by split. Qed.

#[local] Instance toy_protocol : HelperProtocol (H:=ToyHelper) (Ctx:=unit) (B:=Z * U256).
Proof.
  refine {| bh_adjustable := fun h => is_Some (th_paid h) |}; intros h ctx value subsidy seen h' ctx' r; cbn; unfold toy_pay;
    destruct (th_paid h) eqn:Ep; try case_decide; intros [= <- <- _]; cbn; rewrite ?Ep; try done; by eauto.
Defined.

Definition toy (id : Z) (name : string) (value : U256) : BiddableUnfinishedBlock (H:=ToyHelper) :=
  {| bu_block := {| th_id := id; th_name := name; th_value := value; th_paid := None |}; bu_true_block_value := value |}.

Definition some_relays : RelaySet := RelaySet_new ["b"; "a"]%string.
Definition own_relay : RelaySet := RelaySet_new ["c"]%string.

Definition sample_service : NewTrueBlockValueBiddingService :=
  NewTrueBlockValueBiddingService_new 5 {[ "c"%string := 7 ]} 0 (RelaySet_new ["c"; "b"; "a"]%string).
Definition sample_bidder : NewTrueBlockValueSlotBidder := create_slot_bidder sample_service 0.

Definition sample_bid : SlotBidderSealBidCommand :=
  {| sb_block_id := 1; sb_seen_competition_bid := None;
     sb_payout_info := [{| pi_relays := own_relay; pi_payout_tx_value := 107; pi_subsidy := 7 |};
                        {| pi_relays := some_relays; pi_payout_tx_value := 105; pi_subsidy := 5 |}] |}.

(** The bid is the one of the service. *)
Example sample_bid_of_service :
  notify_new_built_block sample_bidder 0 (descriptor 1 (toy 1 "x" 100)) = Some (Some sample_bid) /\
  service_relay_sets sample_service = [own_relay; some_relays].
Proof. split; vm_compute; reflexivity. Qed.

Definition sample_sink : System (H:=ToyHelper) (Ctx:=unit) := create_sink ∅ true [some_relays; own_relay].

(** One block is handed in, prefinalized and announced; the bid seals it for both sets. *)
Definition sample_schedule : list (Action (H:=ToyHelper)) :=
  [Act_new_block (toy 1 "x" 100); Act_call 0; Act_call 0;
   Act_prefinalize; Act_prefinalize; Act_prefinalize; Act_prefinalize;
   Act_bid sample_bid; Act_call 0; Act_call 0; Act_call 0; Act_call 0; Act_call 0;
   Act_finalize own_relay; Act_finalize some_relays; Act_finalize some_relays; Act_finalize own_relay;
   Act_finalize own_relay; Act_finalize some_relays].

Definition sample_events : list (Event (H:=ToyHelper) (B:=Z * U256)) :=
  [Ev_chosen (toy 1 "x" 100); Ev_notified {| bd_true_block_value := 100; bd_id := 1 |}; Ev_bid sample_bid;
   Ev_submitted own_relay (1, 107); Ev_submitted some_relays (1, 105)].

Example sample_run : snd <$> run_actions sample_sink sample_schedule = Some sample_events.
Proof. vm_compute. reflexivity. Qed.

Definition sample_end : System (H:=ToyHelper) (Ctx:=unit) :=
  default sample_sink (fst <$> run_actions (B:=Z * U256) sample_sink sample_schedule).

Lemma sample_run_ends : run_actions sample_sink sample_schedule = Some (sample_end, sample_events).
Proof. vm_compute. reflexivity. Qed.

Lemma submissions_justified_witness :
  justified true (list_to_set [some_relays; own_relay]) sample_events own_relay (1, 107) /\ Ev_panicked ∉ sample_events.
Proof.
  destruct (submissions_justified ∅ true [some_relays; own_relay] sample_schedule sample_end sample_events sample_run_ends)
    as [Hj Hp].
  split; [apply Hj; unfold sample_events; set_solver | apply Hp, toy_no_panic].
Defined.

Lemma pipeline_drains_witness : weight sample_end = 0%nat /\ (stuck (B:=Z * U256) sample_end -> quiescent sample_end).
Proof.
  split; [reflexivity |].
  apply (pipeline_drains ∅ true [some_relays; own_relay] sample_schedule sample_end sample_events sample_run_ends).
Defined.

Lemma adjusted_blocks_settled_witness : exists b h,
  Ev_chosen b ∈ sample_events /\ settled (B:=Z * U256) (Ctx:=unit) b h.
Proof.
  destruct (adjusted_blocks_settled ∅ [some_relays; own_relay] sample_schedule sample_end sample_events own_relay (1, 107)
    sample_run_ends toy_no_panic) as (b & bid & p & h & ctx & h' & ctx' & Hb & _ & _ & _ & _ & Hs & _).
  { unfold sample_events. set_solver. }
  exists b, h. split; [exact Hb | exact Hs].
Defined.

Lemma true_value_bids_witness : exists b subsidy h ctx, Ev_chosen b ∈ sample_events /\
  nb_relay_sets_subsidies sample_bidder !! own_relay = Some subsidy /\ prepared (B:=Z * U256) (Ctx:=unit) b true h /\
  seals (Ctx:=unit) true h ctx (u256_add (bu_true_block_value b) subsidy) subsidy None (1, 107).
Proof.
  apply (true_value_bids sample_bidder ∅ true [some_relays; own_relay] sample_schedule sample_end sample_events
    own_relay (1, 107) sample_run_ends).
  - intros bid Hbid. unfold sample_events in Hbid. rewrite !elem_of_cons, elem_of_nil in Hbid.
    destruct_or! Hbid; simplify_eq. exists 0, {| bd_true_block_value := 100; bd_id := 1 |}.
    split; [unfold sample_events; set_solver | vm_compute; reflexivity].
  - intros b b' Hb Hb'. unfold sample_events in Hb, Hb'. rewrite !elem_of_cons, elem_of_nil in Hb, Hb'.
    destruct_or! Hb; destruct_or! Hb'; simplify_eq; done.
  - unfold sample_events. set_solver.
Defined.

Lemma worse_block_handed_on_last_witness :
  exists schedule s (E : list (Event (H:=ToyHelper) (B:=Z * U256))),
    run_actions sample_sink schedule = Some (s, E) /\ sy_calls s = [] /\
    is_best (ui_best_block_from_algorithms (sy_input s)) (toy 2 "y" 100) /\
    ui_last_unfinalized_block (sy_input s) = Some (toy 1 "x" 10).
Proof. apply (worse_block_handed_on_last ∅ true [some_relays; own_relay] (toy 1 "x" 10) (toy 2 "y" 100)); cbn; [done | lia | lia | lia]. Defined.

Definition bid_for (id : Z) (rs : RelaySet) : SlotBidderSealBidCommand :=
  {| sb_block_id := id; sb_seen_competition_bid := None;
     sb_payout_info := [{| pi_relays := rs; pi_payout_tx_value := 50; pi_subsidy := 0 |}] |}.

(** A bid on a later block, for other relays, makes the pipeline recycle the context of
    an earlier block whose bid is still to be sealed: that bid is dropped, and its relays
    get nothing. *)
Example pending_bid_discarded :
  snd <$> run_actions sample_sink
    ([Act_new_block (toy 1 "x" 100); Act_call 0; Act_call 0; Act_prefinalize; Act_prefinalize; Act_prefinalize; Act_prefinalize;
      Act_new_block (toy 2 "x" 110); Act_call 0; Act_call 0; Act_prefinalize; Act_prefinalize; Act_prefinalize; Act_prefinalize;
      Act_bid (bid_for 1 own_relay); Act_call 0; Act_call 0; Act_call 0; Act_call 0;
      Act_bid (bid_for 2 some_relays); Act_call 0; Act_call 0; Act_call 0; Act_call 0;
      Act_new_block (toy 3 "x" 120); Act_call 0; Act_call 0; Act_prefinalize; Act_prefinalize; Act_prefinalize;
      Act_finalize own_relay; Act_finalize own_relay; Act_finalize own_relay])
  = Some [Ev_chosen (toy 1 "x" 100); Ev_notified {| bd_true_block_value := 100; bd_id := 1 |};
          Ev_chosen (toy 2 "x" 110); Ev_notified {| bd_true_block_value := 110; bd_id := 2 |};
          Ev_bid (bid_for 1 own_relay); Ev_bid (bid_for 2 some_relays); Ev_chosen (toy 3 "x" 120);
          Ev_discarded own_relay
            {| fc_prefinalized_block := {| pf_block_id := 1; pf_inner := 0 |}; fc_value := 50; fc_subsidy := 0;
               fc_seen_competition_bid := None |}].
Proof. vm_compute. reflexivity. Qed.
End sample.
