(* ===== verification/OrderingBuilderSpec.v ===== *)
(** * Properties of the ordering builder (building/builders/ordering_builder.rs)

    Filling a block ends: every order is tried a bounded number of times.  No
    order is included twice, and none is both included and given up. *)

From S2P Require Import Prelude Transactions Bundles Orders SimTypes OrderSinks OrderPriority BlockOrders BlockOrdersInv World CommitMonad OrderCommit OrderCommitSafe OrderCommitSpec PartialBlock PartialBlockInv SimTree ConstraintPool BlockHelper BlockHelperSpec OrderingBuilder.

(** ** Which orders a store may hold *)
Section held.
Context {P Q : Type} `{!OrderPriority P} `{!PriorityQueue P Q} `{!PriorityQueueOk P Q}.
Context `{!HashOrder OrderId} `{!HashOrderOk OrderId}.
Implicit Types s : PrioritizedOrderStore Q.
Context (allowed : SimulatedOrder -> Prop).

(** Every order is an allowed one, stored under its id, and the ids are in [V]. *)
Definition held_map (V : gset OrderId) (m : gmap OrderId SimulatedOrder) : Prop :=
  forall id o, m !! id = Some o -> (so_id o = id /\ id ∈ V) /\ allowed o.
Definition held (V : gset OrderId) s : Prop := held_map V (po_orders s).

Lemma held_weaken V V' s : V ⊆ V' -> held V s -> held V' s.
Proof. intros HV Hh id o Ho. destruct (Hh id o Ho) as [[? ?] ?]. split; [split |]; [done | set_solver | done]. Qed.

Lemma held_inv s : store_inv s -> map_Forall (fun _ => allowed) (po_orders s) -> held (dom (po_orders s)) s.
Proof.
  intros Hi Ha id o Ho. split; [split; [| by apply elem_of_dom_2 in Ho] | by eapply Ha].
  apply (inv_id _ _ _ Hi). by rewrite (left_id_L ∅ _).
Qed.

Lemma held_remove V s id s' r :
  held V s -> remove_from_orders s id = (s', r) ->
  held (V ∖ {[id]}) s' /\ (forall o, r = Some o -> (so_id o = id /\ id ∈ V) /\ allowed o).
Proof.
  intros Hh [= <- <-]. split.
  - intros i o Hio. simpl in Hio. apply lookup_delete_Some in Hio as [Hne Ho].
    destruct (Hh i o Ho) as [[? ?] ?]. split; [split |]; [done | set_solver | done].
  - apply Hh.
Qed.

Lemma held_remove_poped V s id s' r :
  held V s -> remove_poped_order s id = (s', r) ->
  held (V ∖ {[id]}) s' /\ (forall o, r = Some o -> (so_id o = id /\ id ∈ V) /\ allowed o).
Proof.
  intros Hh. unfold remove_poped_order. destruct (remove_from_orders s id) as [s1 [o |]] eqn:Hr;
    apply (held_remove V) in Hr as [Hh1 Hid]; try done; by intros [= <- <-].
Qed.

(** Orders only leave the map or are inserted again, so that what holds of all
    stored orders is kept. *)
Section stored.
Context (Pr : OrderId -> SimulatedOrder -> Prop) (Pr_id : forall id o, Pr id o -> Pr (so_id o) o).
Definition stored s : Prop := forall id o, po_orders s !! id = Some o -> Pr id o.

Lemma stored_remove s id s' r :
  stored s -> remove_from_orders s id = (s', r) -> stored s' /\ (forall o, r = Some o -> Pr id o).
Proof.
  intros Hh [= <- <-]. split; [| by apply Hh].
  intros i o Hio. simpl in Hio. apply lookup_delete_Some in Hio as [_ Ho]. by apply Hh.
Qed.

Lemma stored_remove_poped s id s' r :
  stored s -> remove_poped_order s id = (s', r) -> stored s' /\ (forall o, r = Some o -> Pr id o).
Proof.
  intros Hh. unfold remove_poped_order. destruct (remove_from_orders s id) as [s1 [o |]] eqn:Hr;
    apply stored_remove in Hr as [Hh1 Hid]; try done; by intros [= <- <-].
Qed.

Lemma stored_insert s o : stored s -> Pr (so_id o) o -> stored (po_insert_order s o).
Proof.
  intros Hh Ho. unfold po_insert_order. destruct (po_orders s !! so_id o); [done |].
  destruct (pending_nonces s _) as [l |]; [| done].
  assert (forall i o', <[so_id o := o]> (po_orders s) !! i = Some o' -> Pr i o') as Hm.
  { intros i o' [[<- <-] | [_ Hi]]%lookup_insert_Some; [done | by apply Hh]. }
  by destruct l.
Qed.

Lemma stored_insert_all os s :
  stored s -> Forall (fun o => Pr (so_id o) o) os -> stored (foldl po_insert_order s os).
Proof.
  revert s. induction os as [| o os IH]; intros s Hh Hos; [done |].
  apply Forall_cons in Hos as [Ho Hos]. apply IH; [by apply stored_insert | done].
Qed.

Lemma stored_remove_pending ids s s' os :
  stored s -> remove_pending_ids s ids = (s', os) ->
  stored s' /\ Forall (fun o => Pr (so_id o) o) os.
Proof.
  revert s s' os. induction ids as [| id ids IH]; intros s s' os Hh; simpl; [by intros [= <- <-] |].
  destruct (remove_from_orders s id) as [s1 r] eqn:Hr.
  pose proof Hr as Hr'. apply stored_remove in Hr' as [Hh1 Hid]; [| done].
  unfold remove_from_orders in Hr. injection Hr as Hr1 Hr2. rewrite Hr1, Hr2.
  destruct (remove_pending_ids s1 ids) as [s2 os2] eqn:Hr3. intros [= <- <-].
  destruct (IH s1 s2 os2) as [Hh2 Hos]; [done.. |]. split; [done |].
  destruct r as [o |]; [| done]. constructor; [| done]. by eapply Pr_id, Hid.
Qed.

Lemma stored_wake s n : stored s -> stored (wake_pending s n).
Proof.
  intros Hh. unfold wake_pending. destruct (pending_orders s !! n) as [l |]; [| done].
  destruct (remove_pending_ids _ _) as [s1 os] eqn:Hr.
  apply stored_remove_pending in Hr as [Hh1 Hos]; [| done]. by apply stored_insert_all.
Qed.

Lemma stored_revalidate l s s' :
  stored s -> foldl revalidate_order (Some s) l = Some s' -> stored s'.
Proof.
  revert s. induction l as [| id l IH]; intros s Hh; [by intros [= <-] |]. cbn [foldl].
  assert (foldl revalidate_order None l = None) as Hnone by (clear; by induction l).
  destruct (revalidate_order (Some s) id) as [s1 |] eqn:Hr; [| by rewrite Hnone].
  apply IH. revert Hr. unfold revalidate_order.
  destruct (remove_poped_order _ id) as [s2 [o |]] eqn:Hp; [| done].
  apply stored_remove_poped in Hp as [Hh2 Hid]; [| done].
  destruct (check_nonces _ _ _) as [v k]. destruct (v && _); intros [= <-]; [| done].
  apply stored_insert; [done |]. by eapply Pr_id, Hid.
Qed.

Lemma stored_update s ns s' : stored s -> update_onchain_nonces s ns = Some s' -> stored s'.
Proof.
  intros Hh. unfold update_onchain_nonces.
  assert (forall X s, stored s -> stored (foldl collect_invalidated (s, X) ns).1) as Hc.
  { clear. induction ns as [| n ns IH]; intros X s Hh; [done |]. by apply IH. }
  specialize (Hc ∅ s Hh). destruct (foldl collect_invalidated (s, ∅) ns) as [s1 X]. simpl in Hc.
  destruct (foldl revalidate_order _ _) as [s2 |] eqn:Hr; [| done]. intros [= <-].
  apply stored_revalidate in Hr; [| done]. clear Hc. revert s2 Hr.
  induction ns as [| n ns IH]; intros s2 Hr; [done |]. by apply IH, stored_wake.
Qed.

Lemma stored_remove_order s id : stored s -> stored (po_remove_order s id).1.
Proof.
  intros Hh. unfold po_remove_order. destruct (pq_remove (main_queue s) id) as [q r].
  destruct (remove_from_orders _ id) as [s1 r1] eqn:Hr. simpl.
  apply stored_remove in Hr as [? _]; [done |]. destruct r; [| done].
  destruct (remove_poped_order _ id) as [s2 r2] eqn:Hr2. by apply stored_remove_poped in Hr2 as [? _].
Qed.

End stored.

Lemma held_insert V s o : held V s -> so_id o ∈ V -> allowed o -> held V (po_insert_order s o).
Proof. intros Hh Ho Ha. by apply (stored_insert (fun id o => (so_id o = id /\ id ∈ V) /\ allowed o)). Qed.

Lemma held_update V s ns s' : held V s -> update_onchain_nonces s ns = Some s' -> held V s'.
Proof. apply (stored_update (fun id o => (so_id o = id /\ id ∈ V) /\ allowed o)). by intros id o [[-> ?] ?]. Qed.

Lemma held_pop V s :
  store_inv s -> held V s ->
  (exists s', pop_order s = Some (s', None) /\ store_inv s' /\ held V s'
     /\ pq_content (main_queue s') = ∅)
  \/ (exists s' o, pop_order s = Some (s', Some o) /\ store_inv s' /\ held (V ∖ {[so_id o]}) s'
     /\ so_id o ∈ V /\ allowed o).
Proof.
  intros Hi Hh. unfold pop_order. destruct (pq_pop (main_queue s)) as [[[id p] q] |] eqn:Hpop.
  - right. apply pq_pop_Some in Hpop as (Hp & Hc & _).
    destruct (store_inv_queued _ _ _ Hi Hp) as (o & Ho & _ & _).
    destruct (remove_poped_inv ∅ ∅ s q id o Hi Hc Ho) as (s' & Hr & Hs' & _); [by exists p |].
    rewrite Hr. apply (held_remove_poped V) in Hr as [Hh' Hid]; [| done].
    destruct (Hid o eq_refl) as [[Hoid HV] Ha]. exists s', o. rewrite Hoid. split_and!; try done.
    by eapply store_inv_diff.
  - left. exists s. split; [done |]. split; [done |]. split; [done |]. by apply pq_pop_None.
Qed.

Lemma insert_store_inv s o : store_inv s -> store_inv (po_insert_order s o).
Proof.
  intros Hi. unfold store_inv. rewrite <- (delete_empty (so_id o) (A := SimulatedOrder)).
  apply insert_order_inv; [done | set_solver | right; apply lookup_empty].
Qed.

End held.

Section fill.
Context {W Diff C : Type} `{ChainState W Diff} `{!ChainStateOk W Diff} `{!TxCache W Diff C}.
Context `{PayoutSigner} `{!PayoutSignerOk}.
Context `{!HashOrder Address} `{!HashOrder nat} `{ConstraintCodec}.
Context {P Q : Type} `{!OrderPriority P} `{!PriorityQueue P Q} `{!PriorityQueueOk P Q}.
Context `{!HashOrder OrderId} `{!HashOrderOk OrderId}.
Context (ctx : BlockBuildingContext).
Context `{TxHashing} `{!SignerHashOk} `{!TxCacheOk W Diff C} `{!ExecutionOk ctx} (Hsane : sane_limits ctx).
Context (elapsed : nat -> Z).
Abbreviation Helper := (BlockBuildingHelper W C).
Abbreviation Fill := (Filling W C Q).

Definition included (h : Helper) : list ExecutionResult := bt_included_orders (hp_trace h).
Definition included_ids (l : list ExecutionResult) : list OrderId := (fun r => Order_id (er_order r)) <$> l.

(** ** One commit *)
Lemma pb_commit_order_result order fl (s s' : Building W C) er :
  pb_commit_order ctx order fl s = (s', Done (Ok er)) ->
  er_order er = so_order order /\ fl (er_inplace_sim er) = Ok tt.
Proof.
  unfold pb_commit_order. destruct (pb_commit_order_inner _ _ _ _) as [s1 r1] eqn:Hc. intros [= _ ->].
  apply bind_Done in Hc as (b & s2 & [= <- <-] & Hc).
  apply bind_Done in Hc as ([[ok sim] | e] & s3 & Hrun & Hc); [| done].
  apply bind_Done in Hc as (u & s4 & _ & [= _ <-]). simpl. split; [done |].
  apply run_fork_result in Hrun as (f' & Hf & _).
  apply bind_Done in Hf as (point & f1 & [= <- <-] & Hf).
  apply bind_Done in Hf as ([ok' | e] & f2 & _ & Hf); [| done]. cbv zeta in Hf.
  destruct (fl _) as [[] | e] eqn:Hfl; [| by apply bind_Done in Hf as (? & ? & _ & ?)].
  by injection Hf as _ _ <-.
Qed.

(** The block invariant holds, the trace names what is in the block, and the cache of
    executions is sound. *)
Definition helper_ok (start R0 : BlockSpace) (h : Helper) : Prop :=
  block_inv ctx start R0 (bl_block (hp_building h)) /\ trace_ok ctx h
  /\ cache_sound ctx (bl_cache (hp_building h)).

Lemma helper_commit_order_spec order fl h h' r start R0 :
  helper_ok start R0 h -> proper_sim order -> helper_commit_order ctx order fl h = (h', r) ->
  r <> Panic /\ helper_ok start R0 h'
  /\ match r with
     | Done (Ok res) => included h' = included h ++ [res] /\ er_order res = so_order order
                        /\ fl (er_inplace_sim res) = Ok tt
     | _ => included h' = included h
     end.
Proof.
  intros (Hb & Ht & Hca) Hpo Hc. pose proof (helper_commit_order_trace ctx _ _ _ _ _ Ht Hc) as Ht'. revert Hc.
  unfold helper_commit_order, bind, update_trace, modify, on_block. cbn [hp_building].
  destruct (pb_commit_order _ _ _ _) as [s1 r1] eqn:Hp.
  pose proof (pb_commit_order_spec ctx Hsane _ _ _ _ _ _ _ Hpo Hca Hb Hp) as (Hpanic & Hinv & Hcs & _).
  destruct r1 as [[res | e] | e |]; [| | | done]; intros [= <- <-]; (split; [done |]); (split; [done |]).
  2, 3: done.
  apply pb_commit_order_result in Hp. by split.
Qed.

(** ** What filling keeps

    Relative to the ids [V] that the store held, the orders included before and
    the ones given up before: what was included and given up since, and the ids
    [R] that the store may still hold. *)
Record fill_inv (start R0 : BlockSpace) (V : gset OrderId) (inc0 : list ExecutionResult)
    (failed0 : gset OrderId) (retries : nat) (new : list ExecutionResult) (F R : gset OrderId)
    (f : Fill) : Prop := {
  fi_helper : helper_ok start R0 (fl_helper f);
  fi_store : store_inv (fl_orders f);
  fi_included : included (fl_helper f) = inc0 ++ new;
  fi_failed : fl_failed_orders f = failed0 ∪ F;
  fi_nodup : NoDup (included_ids new);
  fi_new : list_to_set (included_ids new) ⊆ V;
  fi_F : F ⊆ V ∖ list_to_set (included_ids new);
  fi_R : R ⊆ V ∖ list_to_set (included_ids new) ∖ F;
  fi_held : held proper_sim R (fl_orders f);
  fi_attempts : forall id n, fl_order_attempts f !! id = Some n -> (n <= retries)%nat;
}.

(** The attempts that are left for the orders in the store. *)
Definition attempts_left (retries : nat) (attempts : gmap OrderId nat) (id : OrderId) : nat :=
  S (retries - default O (attempts !! id)).
Definition work (retries : nat) (V : gset OrderId) (attempts : gmap OrderId nat) : nat :=
  sum_list_with (attempts_left retries attempts) (elements V).

Lemma sum_list_with_perm {A} (g : A -> nat) l l' : l ≡ₚ l' -> sum_list_with g l = sum_list_with g l'.
Proof. induction 1; simpl; lia. Qed.

Lemma sum_list_with_ext {A} (g g' : A -> nat) l :
  (forall x, x ∈ l -> g x = g' x) -> sum_list_with g l = sum_list_with g' l.
Proof.
  induction l as [| x l IH]; intros Hg; [done |]. simpl. rewrite (Hg x), IH; [done | | left].
  intros y Hy. apply Hg. by right.
Qed.

Lemma work_remove retries V attempts id :
  id ∈ V -> work retries V attempts
  = (attempts_left retries attempts id + work retries (V ∖ {[id]}) attempts)%nat.
Proof.
  intros Hid. unfold work. rewrite (union_difference_singleton_L id V) at 1 by done.
  rewrite (sum_list_with_perm _ _ (id :: elements (V ∖ {[id]}))); [done |].
  apply elements_union_singleton. set_solver.
Qed.

Lemma work_other retries V attempts id n :
  id ∉ V -> work retries V (<[id := n]> attempts) = work retries V attempts.
Proof.
  intros Hid. apply sum_list_with_ext. intros x Hx%elem_of_elements. unfold attempts_left.
  rewrite lookup_insert_ne; [done | by intros ->].
Qed.

Section steps.
Context (start R0 : BlockSpace) (V : gset OrderId) (inc0 : list ExecutionResult)
  (failed0 : gset OrderId) (retries : nat).
Abbreviation filled := (fill_inv start R0 V inc0 failed0 retries).

(** A step goes on with less work left. *)
Definition step_ok (deadline : option Z) (bound : nat) (r : FillStep Fill) : Prop :=
  match r with
  | Fill_Continue f => exists new F R, filled new F R f
      /\ (work retries R (fl_order_attempts f) < bound)%nat
  | Fill_Break f => exists new F R, filled new F R f
      /\ (work retries R (fl_order_attempts f) <= bound)%nat
      /\ (deadline = None -> pq_content (main_queue (fl_orders f)) = ∅)
  | Fill_Critical f _ => exists new F R, filled new F R f
  | Fill_Panic _ => False
  end.

(** An order out of the store may be given up, or inserted again. *)
Lemma mark_failed_inv new F R f id att :
  filled new F R f -> id ∈ V ∖ list_to_set (included_ids new) ∖ F -> id ∉ R ->
  (forall i n, att !! i = Some n -> (n <= retries)%nat) ->
  filled new ({[id]} ∪ F) R (mark_failed f id att).
Proof.
  intros [] Hid HR Hatt. split; try done; simpl.
  - rewrite fi_failed0. set_solver.
  - set_solver.
  - set_solver.
Qed.

Lemma reinsert_inv new F R f o att :
  filled new F R f -> so_id o ∈ V ∖ list_to_set (included_ids new) ∖ F -> proper_sim o ->
  (forall i n, att !! i = Some n -> (n <= retries)%nat) ->
  filled new F ({[so_id o]} ∪ R)
    (Build_Filling (fl_helper f) (po_insert_order (fl_orders f) o) (fl_failed_orders f) att (fl_clock f)).
Proof.
  intros [] Hid Hpo Hatt. split; try done; simpl.
  - by apply insert_store_inv.
  - set_solver.
  - apply held_insert; [| set_solver | done]. eapply held_weaken; [| exact fi_held0]. set_solver.
Qed.

Lemma attempts_insert (att : gmap OrderId nat) id n :
  (forall i k, att !! i = Some k -> (k <= retries)%nat) -> (n <= retries)%nat ->
  forall i k, <[id := n]> att !! i = Some k -> (k <= retries)%nat.
Proof. intros Ha Hn i k [[<- <-] | [_ Hi]]%lookup_insert_Some; [done | by eapply Ha]. Qed.

Lemma handle_failure_spec deadline new F R f o err :
  filled new F R f -> so_id o ∈ V ∖ list_to_set (included_ids new) ∖ F -> so_id o ∉ R -> proper_sim o ->
  step_ok deadline (attempts_left retries (fl_order_attempts f) (so_id o)
                    + work retries R (fl_order_attempts f))
    (Fill_Continue (handle_failure retries f o err)).
Proof.
  intros Hf Hid HR Hpo. pose proof (fi_attempts _ _ _ _ _ _ _ _ _ _ Hf) as Ha.
  assert (forall att, (forall i n, att !! i = Some n -> (n <= retries)%nat) ->
    work retries R att = work retries R (fl_order_attempts f) ->
    step_ok deadline (attempts_left retries (fl_order_attempts f) (so_id o)
                      + work retries R (fl_order_attempts f)) (Fill_Continue (mark_failed f (so_id o) att)))
    as Hgive.
  { intros att Hatt Hw. exists new, ({[so_id o]} ∪ F), R. split; [by apply mark_failed_inv |]. simpl.
    unfold attempts_left. lia. }
  unfold handle_failure. destruct err as [e | before inplace]; [by apply Hgive |].
  set (n := default O (fl_order_attempts f !! so_id o)).
  assert (n <= retries)%nat as Hn.
  { unfold n. destruct (fl_order_attempts f !! so_id o) as [k |] eqn:Hk; simpl; [by eapply Ha | lia]. }
  destruct (Nat.ltb_spec n retries) as [Hlt | Hge].
  - exists new, F, ({[so_id o]} ∪ R). split.
    + apply (reinsert_inv new F R f (with_sim_value o inplace)); [done.. |].
      by apply attempts_insert.
    + cbn [fl_order_attempts]. rewrite (work_remove _ _ _ (so_id o)) by set_solver.
      replace (({[so_id o]} ∪ R) ∖ {[so_id o]}) with R by set_solver.
      rewrite work_other by done. unfold attempts_left. rewrite lookup_insert_eq. fold n. simpl. lia.
  - apply Hgive; [by apply attempts_insert | by apply work_other].
Qed.

Lemma try_order_spec deadline new F R f o :
  filled new F R f -> so_id o ∈ V ∖ list_to_set (included_ids new) ∖ F -> so_id o ∉ R -> proper_sim o ->
  step_ok deadline (attempts_left retries (fl_order_attempts f) (so_id o)
                    + work retries R (fl_order_attempts f)) (try_order ctx retries f o).
Proof.
  intros Hf Hid HR Hpo. unfold try_order.
  destruct (helper_commit_order _ _ _ _) as [h r] eqn:Hc.
  destruct (helper_commit_order_spec _ _ _ _ _ _ _ (fi_helper _ _ _ _ _ _ _ _ _ _ Hf) Hpo Hc)
    as (Hp & Hh & Hinc). cbn [fl_orders fl_failed_orders fl_order_attempts fl_clock].
  assert (included h = included (fl_helper f) ->
    filled new F R (Build_Filling h (fl_orders f) (fl_failed_orders f) (fl_order_attempts f) (fl_clock f)))
    as Hsame by (intros Heq; destruct Hf; split; try done; simpl; by rewrite Heq).
  destruct r as [[res | err] | e |]; [| | by exists new, F, R; apply Hsame | done].
  2: exact (handle_failure_spec deadline new F R _ o err (Hsame Hinc) Hid HR Hpo).
  destruct Hinc as (Hinc & Heo & _). destruct Hf.
  destruct (update_onchain_nonces_inv (fl_orders f) (account_nonces (er_nonces_updated res)) fi_store0)
    as (s' & Hu & Hs'). rewrite Hu. apply (held_update _ _ _ _ _ fi_held0) in Hu.
  assert (included_ids (new ++ [res]) = included_ids new ++ [so_id o]) as Hids.
  { unfold included_ids. rewrite fmap_app. simpl. by rewrite Heo. }
  exists (new ++ [res]), F, R. split; [| unfold attempts_left; simpl; lia].
  split; try done; simpl; rewrite ?Hids, ?list_to_set_app_L, ?list_to_set_singleton.
  - rewrite Hinc, fi_included0. by rewrite app_assoc.
  - apply NoDup_app. split; [done |]. split; [| apply NoDup_singleton]. set_solver.
  - set_solver.
  - set_solver.
  - set_solver.
Qed.

Lemma fill_step_spec order_filter deadline new F R f :
  filled new F R f ->
  step_ok deadline (work retries R (fl_order_attempts f)) (fill_step ctx elapsed retries order_filter deadline f).
Proof.
  intros Hf. unfold fill_step.
  assert (forall s k, store_inv s -> held proper_sim R s ->
    filled new F R (Build_Filling (fl_helper f) s (fl_failed_orders f) (fl_order_attempts f) k)) as Hset
    by (intros s k Hs Hh; destruct Hf; by split).
  destruct (held_pop proper_sim R (fl_orders f)) as [(s & -> & Hs & Hh & Hempty) | (s & o & -> & Hs & Hh & Hid & Hpo)];
    [by destruct Hf.. | |].
  { exists new, F, R. split; [by apply Hset | by split]. }
  set (R' := R ∖ {[so_id o]}) in *.
  assert (forall k, filled new F R' (Build_Filling (fl_helper f) s (fl_failed_orders f) (fl_order_attempts f) k))
    as Hpop.
  { intros k. destruct Hf. split; try done. set_solver. }
  assert (so_id o ∈ V ∖ list_to_set (included_ids new) ∖ F) as HidV by (destruct Hf; set_solver).
  assert (so_id o ∉ R') as HidR by set_solver.
  rewrite (work_remove _ _ _ (so_id o)) by done. fold R'.
  destruct (bool_decide _ || _).
  { exists new, F, R'. split; [by apply Hpop |]. simpl. unfold attempts_left. lia. }
  destruct deadline as [d |].
  - case_decide; [| by apply (try_order_spec _ new F R' (Build_Filling _ _ _ _ _))].
    exists new, F, R'. split; [by apply Hpop |]. simpl. split; [unfold attempts_left; lia | done].
  - by apply (try_order_spec _ new F R' (Build_Filling _ _ _ _ _)).
Qed.

Lemma fill_orders_spec fuel order_filter deadline new F R f :
  filled new F R f -> (work retries R (fl_order_attempts f) < fuel)%nat ->
  exists f' r new' F' R', fill_orders ctx elapsed fuel retries order_filter deadline f = Some (f', r)
    /\ r <> Panic /\ filled new' F' R' f'
    /\ (r = Done tt -> (work retries R' (fl_order_attempts f') <= work retries R (fl_order_attempts f))%nat)
    /\ (r = Done tt -> deadline = None -> pq_content (main_queue (fl_orders f')) = ∅).
Proof.
  revert new F R f. induction fuel as [| fuel IH]; intros new F R f Hf Hw; [lia |]. cbn [fill_orders].
  pose proof (fill_step_spec order_filter deadline new F R f Hf) as Hs.
  destruct (fill_step _ _ _ _ _ _) as [f1 | f1 | f1 e |].
  - destruct Hs as (new1 & F1 & R1 & Hf1 & Hlt).
    destruct (IH new1 F1 R1 f1) as (f2 & r & new2 & F2 & R2 & He & Hp & Hf2 & Hw2 & Hq); [done | lia |].
    exists f2, r, new2, F2, R2. split; [done |]. split; [done |]. split; [done |]. split; [| done].
    intros Hr. specialize (Hw2 Hr). lia.
  - destruct Hs as (new1 & F1 & R1 & Hf1 & Hw1 & Hq). by exists f1, (Done tt), new1, F1, R1.
  - destruct Hs as (new1 & F1 & R1 & Hf1). by exists f1, (Critical e), new1, F1, R1.
  - done.
Qed.

(** Nothing happens when the queue is empty. *)
Lemma fill_orders_empty fuel order_filter deadline f :
  pq_content (main_queue (fl_orders f)) = ∅ ->
  fill_orders ctx elapsed (S fuel) retries order_filter deadline f
  = Some (Build_Filling (fl_helper f) (fl_orders f) (fl_failed_orders f) (fl_order_attempts f) (fl_clock f),
          Done tt).
Proof.
  intros Hq%pq_pop_None. cbn [fill_orders]. unfold fill_step, pop_order. by rewrite Hq.
Qed.

End steps.

Lemma work_initial retries V : work retries V ∅ = (S retries * size V)%nat.
Proof.
  unfold work, size, set_size. simpl. induction (elements V) as [| id l IH]; simpl; [lia |].
  rewrite IH. unfold attempts_left. rewrite lookup_empty. simpl. lia.
Qed.

Lemma fill_inv_trace start R0 V inc0 failed0 retries new F R f g :
  (forall t, bt_included_orders (g t) = bt_included_orders t) ->
  fill_inv start R0 V inc0 failed0 retries new F R f ->
  fill_inv start R0 V inc0 failed0 retries new F R (on_helper_trace f g).
Proof.
  intros Hg []. split; try done; unfold on_helper_trace; simpl.
  - destruct fi_helper0 as (Hb & Ht & Hca). split; [done |]. split; [| done]. unfold trace_ok in *. simpl. by rewrite Hg.
  - unfold included in *. simpl. by rewrite Hg.
Qed.

(** A block filled from the orders [V]: no order is in it twice or was given up
    too, none was tried more often than allowed, and the block and its trace are
    consistent. *)
Record filled_block (start R0 : BlockSpace) (V : gset OrderId) (retries : nat) (f : Fill) : Prop := {
  fb_nodup : NoDup (included_ids (included (fl_helper f)));
  fb_included : list_to_set (included_ids (included (fl_helper f))) ⊆ V;
  fb_failed : fl_failed_orders f ## list_to_set (included_ids (included (fl_helper f)));
  fb_attempts : forall id n, fl_order_attempts f !! id = Some n -> (n <= retries)%nat;
  fb_helper : helper_ok start R0 (fl_helper f);
}.

Lemma fill_inv_filled start R0 V retries new F R f :
  fill_inv start R0 V [] ∅ retries new F R f -> filled_block start R0 V retries f.
Proof. intros []. split; rewrite ?fi_included0, ?fi_failed0; simpl; try done. set_solver. Qed.

Lemma fill_inv_clock start R0 V inc0 failed0 retries new F R f k :
  fill_inv start R0 V inc0 failed0 retries new F R f ->
  fill_inv start R0 V inc0 failed0 retries new F R
    (Build_Filling (fl_helper f) (fl_orders f) (fl_failed_orders f) (fl_order_attempts f) k).
Proof. intros []. by split. Qed.

(** The second stage keeps an empty queue empty. *)
Lemma fill_filtered_spec start R0 V config new F R fuel infos f :
  fill_inv start R0 V [] ∅ (oc_failed_order_retries config) new F R f ->
  (work (oc_failed_order_retries config) R (fl_order_attempts f) < fuel)%nat ->
  exists f' r, fill_filtered ctx elapsed fuel config infos f = Some (f', r)
  /\ r <> Panic /\ filled_block start R0 V (oc_failed_order_retries config) f'
  /\ (pq_content (main_queue (fl_orders f)) = ∅ -> pq_content (main_queue (fl_orders f')) = ∅).
Proof.
  intros Hf Hw. unfold fill_filtered.
  assert (exists k d, match oc_pre_filtered_build_duration_deadline_ms config with
    | Some d => (Build_Filling (fl_helper f) (fl_orders f) (fl_failed_orders f)
                   (fl_order_attempts f) (S (fl_clock f)), Some (elapsed (fl_clock f) + d))
    | None => (f, None)
    end = (Build_Filling (fl_helper f) (fl_orders f) (fl_failed_orders f) (fl_order_attempts f) k, d))
    as (k & d & ->).
  { destruct (oc_pre_filtered_build_duration_deadline_ms config); [by eexists _, _ |].
    exists (fl_clock f), None. by destruct f. }
  destruct (fill_orders_spec start R0 V [] ∅ _ fuel
    (fun o => existsb (fun i => contains_order i (so_order o)) infos) d new F R _
    (fill_inv_clock _ _ _ _ _ _ _ _ _ _ k Hf) Hw)
    as (f2 & r & new2 & F2 & R2 & He & Hp & Hf2 & _ & _).
  assert (pq_content (main_queue (fl_orders f)) = ∅ -> pq_content (main_queue (fl_orders f2)) = ∅) as Hq.
  { intros Hq. destruct fuel as [| fuel]; [lia |]. rewrite fill_orders_empty in He by done.
    by injection He as <- _. }
  rewrite He. destruct r as [[] | e |]; [| | done].
  - eexists _, (Done tt). split; [done |]. split; [done |]. split; [| done].
    eapply fill_inv_filled, fill_inv_trace; [done | exact Hf2].
  - exists f2, (Critical e). split; [done |]. split; [done |]. split; [by eapply fill_inv_filled | done].
Qed.

Lemma fill_inv_start start R0 (h : Helper) (s : PrioritizedOrderStore Q) retries :
  store_inv s -> map_Forall (fun _ => proper_sim) (po_orders s) -> helper_ok start R0 h -> included h = [] ->
  fill_inv start R0 (dom (po_orders s)) [] ∅ retries [] ∅ (dom (po_orders s)) (Build_Filling h s ∅ ∅ 0).
Proof.
  intros Hs Hpo Hh Hinc. split; simpl; try done; try (by apply held_inv); try set_solver.
  apply NoDup_nil_2.
Qed.

(** C32. Filling a block without orders, which satisfies the block invariant, from a
    consistent store ends, within one try per stored order and allowed
    retry, and does not panic: no order is included twice, none is both
    included and reported as failed, no order is tried again more often than
    configured, the block invariant holds, the trace names what is in the
    block and the cache of executions stays sound; without a deadline the
    queue is empty afterwards. Conditions: the limits of the block are far
    below 2^64, transactions are identified by their hashes with encodings
    and blobs far below 2^64, the interpreter uses at most the gas limit of
    a transaction, which is within that of the block, and the cache of
    executions, which may answer, is sound: what it holds was reported by
    executing the transaction with that hash. *)
Theorem ordering_builder_fills fuel config infos (h : Helper) (s : PrioritizedOrderStore Q) start R0 :
  store_inv s -> map_Forall (fun _ => proper_sim) (po_orders s) -> helper_ok start R0 h -> included h = [] ->
  (S (oc_failed_order_retries config) * size (dom (po_orders s)) < fuel)%nat ->
  exists f r, fill_block ctx elapsed fuel config infos h s = Some (f, r)
  /\ r <> Panic /\ filled_block start R0 (dom (po_orders s)) (oc_failed_order_retries config) f
  /\ (r = Done tt -> oc_build_duration_deadline_ms config = None ->
       pq_content (main_queue (fl_orders f)) = ∅).
Proof.
  intros Hs Hpo Hh Hinc Hfuel. unfold fill_block.
  pose proof (fill_inv_start start R0 h s (oc_failed_order_retries config) Hs Hpo Hh Hinc) as Hstart.
  destruct (fill_orders_spec _ _ _ _ _ _ fuel (fun _ => true) (oc_build_duration_deadline_ms config)
    _ _ _ _ Hstart) as (f1 & r1 & new1 & F1 & R1 & -> & Hp1 & Hf1 & Hw1 & Hq1).
  { cbn [fl_order_attempts]. by rewrite work_initial. }
  pose proof (fill_inv_filled _ _ _ _ _ _ _ _ Hf1) as Hfb.
  destruct r1 as [[] | e |]; [| by exists f1, (Critical e) | done].
  specialize (Hw1 eq_refl). specialize (Hq1 eq_refl). cbn [fl_order_attempts] in Hw1.
  rewrite work_initial in Hw1. destruct (bool_decide _ && _); [| by exists f1, (Done tt)].
  destruct (fill_filtered_spec _ _ _ config _ _ _ fuel infos f1 Hf1) as (f2 & r2 & -> & Hp2 & Hf2 & Hq2);
    [lia |]. exists f2, r2. split; [done |]. split; [done |]. split; [done |].
  intros _ Hd. by apply Hq2, Hq1.
Qed.

End fill.
