(* ===== verification/OrderIntakeSpec.v ===== *)
(** * Properties of the intake of orders (building/builders/mod.rs)

    While no read of a nonce fails, the store knows the nonce on chain of every
    account of its orders.  After a failed read it does not: accounts read before
    the failure are marked as known although the store was not told. *)

From S2P Require Import Prelude Transactions Bundles Orders SimTypes OrderPriority BlockOrders BlockOrdersInv World SimTree SimTreeInv OrderingBuilder OrderingBuilderSpec.

Section intake.
Context {P Q : Type} `{!OrderPriority P} `{!PriorityQueue P Q} `{!PriorityQueueOk P Q}.
Context `{!HashOrder OrderId} `{!HashOrderOk OrderId} `{NonceProvider}.
Implicit Types s : PrioritizedOrderStore Q.
Abbreviation Intake := (OrderIntakeConsumer Q).

(** ** The nonces the store knows *)
Lemma insert_order_onchain s o : onchain_nonces (po_insert_order s o) = onchain_nonces s.
Proof.
  unfold po_insert_order. destruct (po_orders s !! so_id o); [done |].
  by destruct (pending_nonces s _) as [[| ? ?] |].
Qed.

Lemma insert_all_onchain os s : onchain_nonces (foldl po_insert_order s os) = onchain_nonces s.
Proof.
  revert s. induction os as [| o os IH]; intros s; [done |]. cbn [foldl].
  by rewrite IH, insert_order_onchain.
Qed.

Lemma remove_poped_onchain s id : onchain_nonces (remove_poped_order s id).1 = onchain_nonces s.
Proof. unfold remove_poped_order, remove_from_orders. by destruct (po_orders s !! id). Qed.

Lemma remove_order_onchain s id : onchain_nonces (po_remove_order s id).1 = onchain_nonces s.
Proof.
  unfold po_remove_order. destruct (pq_remove (main_queue s) id) as [q [p |]]; [| done].
  unfold remove_from_orders at 1. simpl. by rewrite remove_poped_onchain.
Qed.

Lemma revalidate_onchain l s s' :
  foldl revalidate_order (Some s) l = Some s' -> onchain_nonces s' = onchain_nonces s.
Proof.
  revert s. induction l as [| id l IH]; intros s; [by intros [= <-] |]. cbn [foldl].
  assert (foldl revalidate_order None l = None) as Hnone by (clear; by induction l).
  destruct (revalidate_order (Some s) id) as [s1 |] eqn:Hr; [| by rewrite Hnone].
  intros ->%IH. revert Hr. unfold revalidate_order. set (s0 := Build_PrioritizedOrderStore _ _ _ _ _ _).
  pose proof (remove_poped_onchain s0 id) as Ho. destruct (remove_poped_order s0 id) as [s2 [o |]]; [| done].
  destruct (check_nonces _ _ _) as [v k]. destruct (v && _); intros [= <-]; [| done].
  by rewrite insert_order_onchain.
Qed.

Lemma wake_onchain s n : onchain_nonces (wake_pending s n) = onchain_nonces s.
Proof.
  unfold wake_pending. destruct (pending_orders s !! n) as [l |]; [| done].
  destruct (remove_pending_ids _ _) as [s1 os] eqn:Hr.
  apply remove_pending_ids_spec in Hr as (_ & Hr & _). by rewrite insert_all_onchain.
Qed.

Definition insert_nonces (m : gmap Address U64) (ns : list AccountNonce) : gmap Address U64 :=
  foldl (fun m n => <[an_account n := an_nonce n]> m) m ns.

Lemma update_onchain_nonces_onchain s ns s' :
  update_onchain_nonces s ns = Some s' -> onchain_nonces s' = insert_nonces (onchain_nonces s) ns.
Proof.
  unfold update_onchain_nonces.
  assert (forall X s, onchain_nonces (foldl collect_invalidated (s, X) ns).1
    = insert_nonces (onchain_nonces s) ns) as Hc.
  { clear. induction ns as [| n ns IH]; intros X s; [done |]. simpl. by rewrite IH. }
  specialize (Hc ∅ s). destruct (foldl collect_invalidated (s, ∅) ns) as [s1 X]. simpl in Hc.
  destruct (foldl revalidate_order _ _) as [s2 |] eqn:Hr; [| done]. intros [= <-].
  rewrite <- Hc, <- (revalidate_onchain _ _ _ Hr). clear. revert s2.
  induction ns as [| n ns IH]; intros s2; [done |]. cbn [foldl]. by rewrite IH, wake_onchain.
Qed.

(** Nonces that agree with a cache. *)
Lemma insert_nonces_lookup (c : gmap Address U64) ns m a :
  Forall (fun n => c !! an_account n = Some (an_nonce n)) ns ->
  insert_nonces m ns !! a = if decide (a ∈ an_account <$> ns) then c !! a else m !! a.
Proof.
  revert m. induction ns as [| n ns IH]; intros m Hns; [done |].
  apply Forall_cons in Hns as [Hn Hns]. unfold insert_nonces. cbn [foldl].
  fold (insert_nonces (<[an_account n := an_nonce n]> m) ns). rewrite (IH _ Hns). csimpl.
  destruct (decide (a ∈ an_account <$> ns)); [rewrite decide_True by (by right); done |].
  destruct (decide (a = an_account n)) as [-> | Hne].
  - rewrite lookup_insert_eq, decide_True by left. done.
  - rewrite lookup_insert_ne, decide_False by set_solver. done.
Qed.

(** ** Reading the nonces of a batch *)
Lemma read_new_nonces_spec c u ns acc c' u' r :
  read_new_nonces c u ns acc = (c', u', r) ->
  nc_cache c ⊆ nc_cache c' /\ u ⊆ u'
  /\ (forall l, r = Ok l -> exists l', l = acc ++ l'
       /\ Forall (fun n => nc_cache c' !! an_account n = Some (an_nonce n)) l'
       /\ u' = u ∪ list_to_set (an_account <$> l')
       /\ (forall a, a ∈ an_account <$> l' -> a ∉ u)
       /\ (forall n, n ∈ ns -> nonce_address n ∈ u')).
Proof.
  revert c u acc. induction ns as [| n ns IH]; intros c u acc; simpl.
  { intros [= <- <- <-]. split_and!; [done.. |]. intros l [= <-]. exists [].
    rewrite app_nil_r. split_and!; set_solver. }
  case_decide as Hin.
  - intros (Hc & Hu & Hl)%IH. split_and!; [done.. |]. intros l Hr.
    destruct (Hl l Hr) as (l' & ? & ? & ? & ? & Hns). exists l'. split_and!; try done.
    intros m [-> | Hm]%elem_of_cons; [set_solver | by apply Hns].
  - destruct (cached_nonce c (nonce_address n)) as [c1 [v | e]] eqn:Hcn;
      apply cached_nonce_grows in Hcn as [Hc1 Hget].
    2: { intros [= <- <- <-]. by split_and!. }
    intros (Hc & Hu & Hl)%IH. split; [by etrans |]. split; [set_solver |]. intros l Hr.
    destruct (Hl l Hr) as (l' & -> & Hall & Hu' & Hdis & Hns).
    exists ({| an_account := nonce_address n; an_nonce := v |} :: l'). split_and!.
    + by rewrite <- app_assoc.
    + constructor; [| done]. simpl. eapply lookup_weaken; [by apply Hget | done].
    + rewrite Hu'. csimpl. set_solver.
    + csimpl. intros a [-> | Ha]%elem_of_cons; [done | specialize (Hdis a Ha); set_solver].
    + intros m [-> | Hm]%elem_of_cons; [set_solver | by apply Hns].
Qed.

(** ** Batches *)
Definition nonces_in (U : gset Address) (o : SimulatedOrder) : Prop :=
  forall n, n ∈ so_nonces o -> nonce_address n ∈ U.

Record intake_inv (i : Intake) : Prop := {
  ii_known a : a ∈ in_onchain_nonces_updated i ->
    exists v, nc_cache (in_nonces i) !! a = Some v /\ onchain_nonces (in_block_orders i) !! a = Some v;
  ii_orders : stored (fun _ => nonces_in (in_onchain_nonces_updated i)) (in_block_orders i);
}.

(** Applying commands whose orders have known nonces. *)
Lemma apply_commands_spec U cs s :
  stored (fun _ => nonces_in U) s ->
  (forall o, Simulation o ∈ cs -> nonces_in U o) ->
  stored (fun _ => nonces_in U) (foldl (fun s c => simulated_order_command_to_sink c s) s cs)
  /\ onchain_nonces (foldl (fun s c => simulated_order_command_to_sink c s) s cs) = onchain_nonces s.
Proof.
  revert s. induction cs as [| c cs IH]; intros s Hs Hcs; [done |]. cbn [foldl].
  destruct (IH (simulated_order_command_to_sink c s)) as [IH1 IH2].
  - destruct c as [o | id]; simpl.
    + apply stored_insert; [done |]. apply Hcs. left.
    + by apply stored_remove_order.
  - intros o Ho. apply Hcs. by right.
  - split; [done |]. rewrite IH2. destruct c; simpl; [apply insert_order_onchain | apply remove_order_onchain].
Qed.

Lemma new_order_nonces_elem cs o n :
  Simulation o ∈ cs -> n ∈ so_nonces o -> n ∈ new_order_nonces cs.
Proof.
  intros Hc Hn. unfold new_order_nonces. apply list_elem_of_bind. by exists (Simulation o).
Qed.

(** One batch: without a failed read the store learns the new nonces. *)
Lemma batch_inv i ev i' ev' b :
  intake_inv i -> blocking_consume_next_batch i ev = Some (i', ev', Ok b) -> intake_inv i'.
Proof.
  intros [Hk Ho]. unfold blocking_consume_next_batch.
  destruct (blocking_consume_next_commands ev (in_new_commands i)) as [[ev1 cs] open].
  destruct open; [| intros [= <- _ _]; by split].
  unfold intake_update_onchain_nonces. simpl.
  destruct (read_new_nonces _ _ _ _) as [[c u] [l | e]] eqn:Hr; [| done].
  apply read_new_nonces_spec in Hr as (Hc & Hu & Hl).
  destruct (Hl l eq_refl) as (l' & -> & Hall & Hu' & Hdis & Hns). simpl.
  destruct (update_onchain_nonces (in_block_orders i) l') as [s1 |] eqn:Hup; [| done].
  intros [= <- _ _]. pose proof (update_onchain_nonces_onchain _ _ _ Hup) as Hon.
  apply (stored_update (fun _ => nonces_in (in_onchain_nonces_updated i))) in Hup; [| done..].
  destruct (apply_commands_spec u cs s1) as [Hst Hon1].
  { intros id o Hio n Hn. by apply Hu, (Hup id o). }
  { intros o Hin n Hn. apply Hns. by eapply new_order_nonces_elem. }
  split; [| exact Hst]. simpl. intros a Ha. rewrite Hon1, Hon, (insert_nonces_lookup (nc_cache c)) by done.
  case_decide as Hin.
  - apply list_elem_of_fmap in Hin as (n & -> & Hn). rewrite Forall_forall in Hall.
    exists (an_nonce n). split; exact (Hall n Hn).
  - destruct (Hk a) as (v & Hv & Hov); [set_solver |]. exists v. split; [| done].
    exact (lookup_weaken _ _ _ _ Hv Hc).
Qed.

Lemma remove_orders_inv ids i : intake_inv i -> intake_inv (intake_remove_orders i ids).1.
Proof.
  intros [Hk Ho]. unfold intake_remove_orders.
  assert (stored (fun _ => nonces_in (in_onchain_nonces_updated i)) (sim_remove_orders (in_block_orders i) ids).1
    /\ onchain_nonces (sim_remove_orders (in_block_orders i) ids).1 = onchain_nonces (in_block_orders i))
    as [Hs Hon].
  { generalize (in_block_orders i), Ho. clear. induction ids as [| id ids IH]; intros s Hs; [done |].
    cbn [sim_remove_orders]. change (sim_remove_order s id) with (po_remove_order s id).
    pose proof (stored_remove_order _ s id Hs) as Hs1. pose proof (remove_order_onchain s id) as Hon1.
    destruct (po_remove_order s id) as [s1 r]. simpl in Hs1, Hon1. destruct (IH s1 Hs1) as [IH1 IH2].
    destruct (sim_remove_orders s1 ids) as [s2 l2]. simpl in IH1, IH2 |- *.
    split; [exact IH1 | by rewrite IH2]. }
  destruct (sim_remove_orders _ ids) as [s1 l1]. simpl in *. split; simpl; [by rewrite Hon | done].
Qed.

(** Everything that happens to an intake while no read of a nonce fails. *)
Inductive intake_reachable (c : NonceCache) : Intake -> Prop :=
| ir_new : intake_reachable c (OrderIntakeConsumer_new c)
| ir_batch i ev i' ev' b : intake_reachable c i ->
    blocking_consume_next_batch i ev = Some (i', ev', Ok b) -> intake_reachable c i'
| ir_remove i ids : intake_reachable c i -> intake_reachable c (intake_remove_orders i ids).1.

(** In every state of the order intake that is reached without error, the
    accounts of all stored orders have an on-chain nonce in the store, the
    one that the nonce cache reports: no order waits for a nonce that was
    never asked for. *)
Theorem intake_knows_nonces c i id o n :
  intake_reachable c i -> po_orders (in_block_orders i) !! id = Some o -> n ∈ so_nonces o ->
  exists v, nc_cache (in_nonces i) !! nonce_address n = Some v
    /\ onchain_nonces (in_block_orders i) !! nonce_address n = Some v.
Proof.
  intros Hr Ho Hn.
  assert (intake_inv i) as [Hk Hs].
  { clear Ho Hn. induction Hr as [| i ev i' ev' b _ IH Hb | i ids _ IH].
    - split; simpl; [set_solver |]. intros i o'. simpl. by rewrite lookup_empty.
    - by eapply batch_inv.
    - by apply remove_orders_inv. }
  apply Hk. by apply (Hs id o Ho).
Qed.

(** ** After a failed read *)
Definition intake_step (i i' : Intake) : Prop :=
  exists ev ev' r, blocking_consume_next_batch i ev = Some (i', ev', r).

(** The store is never told again of an account that is marked. *)
Lemma marked_nonce_kept i i' a :
  intake_step i i' -> a ∈ in_onchain_nonces_updated i ->
  a ∈ in_onchain_nonces_updated i'
  /\ onchain_nonces (in_block_orders i') !! a = onchain_nonces (in_block_orders i) !! a.
Proof.
  intros (ev & ev' & r & Hb) Ha. revert Hb. unfold blocking_consume_next_batch.
  destruct (blocking_consume_next_commands ev (in_new_commands i)) as [[ev1 cs] open].
  destruct open; [| by intros [= <- _ _]].
  unfold intake_update_onchain_nonces. simpl.
  destruct (read_new_nonces _ _ _ _) as [[c u] [l | e]] eqn:Hr;
    apply read_new_nonces_spec in Hr as (_ & Hu & Hl); [| intros [= <- _ _]; simpl; set_solver].
  destruct (Hl l eq_refl) as (l' & -> & Hall & _ & Hdis & _). simpl.
  destruct (update_onchain_nonces (in_block_orders i) l') as [s1 |] eqn:Hup; [| done].
  intros [= <- _ _]. split; [by apply Hu |]. simpl.
  assert (forall cs s, onchain_nonces (foldl (fun s c => simulated_order_command_to_sink c s) s cs)
    = onchain_nonces s) as Hon.
  { clear. induction cs as [| c cs IH]; intros s; [done |]. cbn [foldl]. rewrite IH.
    destruct c; simpl; [apply insert_order_onchain | apply remove_order_onchain]. }
  rewrite Hon, (update_onchain_nonces_onchain _ _ _ Hup), (insert_nonces_lookup (nc_cache c)) by done.
  rewrite decide_False; [done |]. intros Hin. by apply (Hdis a).
Qed.

(** If reading a nonce fails, the nonces read before it in the same batch never
    reach the store: whatever batches follow, the store keeps for these
    accounts what it had before. *)
Theorem intake_error_loses_nonce i ev i1 ev1 e i2 a :
  blocking_consume_next_batch i ev = Some (i1, ev1, Err e) ->
  a ∈ in_onchain_nonces_updated i1 -> rtc intake_step i1 i2 ->
  onchain_nonces (in_block_orders i2) !! a = onchain_nonces (in_block_orders i) !! a.
Proof.
  intros Hb Ha Hrtc.
  assert (in_block_orders i1 = in_block_orders i) as Hsame.
  { revert Hb. unfold blocking_consume_next_batch, intake_update_onchain_nonces.
    destruct (blocking_consume_next_commands ev _) as [[ev2 cs] [|]]; [| done]. simpl.
    destruct (read_new_nonces _ _ _ _) as [[c u] [l | e']]; [| by intros [= <- _ _]].
    by destruct (update_onchain_nonces _ l). }
  rewrite <- Hsame. clear Hb Hsame. induction Hrtc as [| i1 i3 i2 Hstep _ IH]; [done |].
  destruct (marked_nonce_kept _ _ _ Hstep Ha) as [Ha3 <-]. by apply IH.
Qed.

End intake.
