(* ===== verification/BuilderWitnesses.v ===== *)
(** * Simulations on the small chain

    Two transactions of one account: the second waits for the first, and is then
    requested with it as its parent. *)

From S2P Require Import Prelude Transactions Bundles Orders SimTypes Samples OrderSinks OrderPriority BlockOrders BlockOrdersInv World SampleChain CommitMonad OrderCommit OrderCommitSafe OrderCommitSpec CommitWitnesses PartialBlock SimTree SimTreeInv SimTreeSpec SimulateSpec PartialBlockInv ConstraintPool BlockHelper BlockHelperSpec HelperWitnesses OrderingBuilder OrderingBuilderSpec OrderIntakeSpec.

#[export] Instance zero_nonces : NonceProvider := fun _ _ => Ok (Some 0).
#[export] Instance counted_ids : RandomIds := Z.of_nat.

Definition nonce_tx (hash nonce : Z) : Order :=
  Order_Tx {| tx_with_blobs :=
    {| txb_tx := {| ts_hash := hash; ts_ty := 2; ts_nonce := nonce; ts_to := Some 9; ts_value := 10;
                    ts_gas_limit := 50000; ts_max_fee_per_gas := 10; ts_length := 100; ts_size := 200;
                    ts_blob_versioned_hashes := None |};
       txb_signer := 3; blobs_sidecar := default_blob_sidecar; txb_metadata := Metadata_new 0 |} |}.

Definition first_tx : Order := nonce_tx 90 0.
Definition second_tx : Order := nonce_tx 91 1.

Definition pushed (t : SimTree) (o : Order) : SimTree :=
  match push_order t o with Some (t, _) => t | None => t end.
Definition processed (t : SimTree) (r : SimulatedResult) : SimTree :=
  match process_simulation_task_result t r with Some (t, _) => t | None => t end.

(** The second transaction arrives first and is pending. *)
Definition two_pushed : SimTree := pushed (pushed (SimTree_new NonceCache_new) second_tx) first_tx.
Definition one_popped : SimTree := (pop_simulation_tasks two_pushed 10).1.

Definition first_result : SimulatedResult :=
  {| sm_id := 0;
     sm_simulated_order := {| so_order := first_tx; so_sim_value := SimValue_new 5 5 BlockSpace_ZERO [];
                              so_used_state_trace := None |};
     sm_previous_orders := []; sm_nonces_after := [{| nk_address := 3; nk_nonce := 1 |}];
     sm_simulation_time := 0 |}.
Definition second_ready : SimTree := processed one_popped first_result.

Lemma reach_pushed acc handed results t o :
  tree_reach acc handed results t -> order_fits o -> is_Some (push_order t o) ->
  tree_reach (acc ++ (if accepts t o then [o] else [])) handed results (pushed t o).
Proof.
  intros Hr Hf [[t' r] Hp]. unfold pushed. rewrite Hp. by eapply reach_push.
Qed.

Lemma reach_two_pushed : tree_reach [second_tx; first_tx] [] [] two_pushed.
Proof.
  pose proof (reach_pushed [] [] [] (SimTree_new NonceCache_new) second_tx) as H1.
  assert (accepts (SimTree_new NonceCache_new) second_tx = true) as Ha by (vm_compute; reflexivity).
  rewrite Ha in H1. apply (reach_pushed _ _ _ _ first_tx) in H1.
  - assert (accepts (pushed (SimTree_new NonceCache_new) second_tx) first_tx = true) as Hb
      by (vm_compute; reflexivity). rewrite Hb in H1. exact H1.
  - apply reach_new.
  - done.
  - vm_compute. by eexists.
  - done.
  - vm_compute. by eexists.
Qed.

Lemma reach_second_ready :
  tree_reach [second_tx; first_tx] [{| rq_id := 0; rq_order := first_tx; rq_parents := [] |}]
    [first_result] second_ready.
Proof.
  assert (process_simulation_task_result one_popped first_result = Some (second_ready, Ok tt)) as Hp
    by (vm_compute; reflexivity).
  refine (reach_result _ _ [] one_popped first_result _ _ _ Hp).
  assert ((pop_simulation_tasks two_pushed 10).2
    = [{| rq_id := 0; rq_order := first_tx; rq_parents := [] |}]) as <- by (vm_compute; reflexivity).
  exact (reach_pop _ [] [] two_pushed 10 reach_two_pushed).
Qed.

Lemma sim_tree_never_bugs_witness :
  exists t', process_simulation_task_result two_pushed first_result = Some (t', Ok tt).
Proof.
  destruct (sim_tree_never_bugs _ _ _ _ reach_two_pushed) as (_ & _ & Hp). exact (Hp first_result).
Defined.

Lemma sim_tree_keeps_orders_witness :
  [second_tx; first_tx] ≡ₚ pend_orders (st_pending_orders two_pushed)
     ++ (rq_order <$> [] ++ st_ready_orders two_pushed)
  /\ exists n, n ∈ Order_nonces second_tx /\ nonce_nonce n = 1.
Proof.
  destruct (sim_tree_keeps_orders _ _ _ _ reach_two_pushed) as [Hp Hw]. split; [exact Hp |].
  destruct (Hw second_tx) as (n & oc & Hn & _); [vm_compute; left |]. exists n. split; [exact Hn |].
  apply list_elem_of_singleton in Hn as ->. reflexivity.
Defined.

(** The second transaction is requested on top of the first. *)
Lemma sim_tree_requests_witness :
  exists q rs, st_ready_orders second_ready = [q] /\ rq_order q = second_tx
    /\ rq_parents q = [first_tx] /\ rq_parents q = rs ≫= sim_chain /\ rs ⊆ [first_result].
Proof.
  destruct (sim_tree_requests _ _ _ _ {| rq_id := 1; rq_order := second_tx; rq_parents := [first_tx] |}
              reach_second_ready) as (rs & Hp & Hs & _).
  - apply NoDup_singleton.
  - right. vm_compute. left.
  - eexists _, rs. split; [vm_compute; reflexivity |]. split; [reflexivity |].
    split; [reflexivity |]. split; [exact Hp | exact Hs].
Defined.

Lemma sim_tree_best_parent_witness :
  exists r, st_sims second_ready !! 0 = Some r
    /\ reaches [first_result] {| nk_address := 3; nk_nonce := 1 |} r.
Proof.
  destruct (sim_tree_best_parent _ _ _ _ {| nk_address := 3; nk_nonce := 1 |} 0 reach_second_ready)
    as (r & Hs & Hr & _).
  - apply NoDup_singleton.
  - vm_compute. reflexivity.
  - exists r. split; [exact Hs | exact Hr].
Defined.

(** ** Executions *)
Definition sim_small (parents : list Order) (o : Order) := simulate_order small_ctx parents o small_world tt.

Lemma simulate_order_restores_witness :
  (sim_small [first_tx] second_tx).2 <> Panic /\ (sim_small [first_tx] second_tx).1.1 ≡ small_world.
Proof.
  assert (sim_small [first_tx] second_tx = ((sim_small [first_tx] second_tx).1.1,
    (sim_small [first_tx] second_tx).1.2, (sim_small [first_tx] second_tx).2)) as Hs
    by (by destruct (sim_small [first_tx] second_tx) as [[] ?]).
  destruct (simulate_order_restores small_ctx _ _ _ _ _ _ _ Hs) as (Hp & Hw & _).
  split; [exact Hp | exact Hw].
Defined.

Lemma simulate_all_terminates_witness :
  exists out, simulate_all_orders_with_sim_tree small_ctx (fun _ => 0) 5 small_world tt
                [second_tx; first_tx] false = Some out /\ out <> Panic.
Proof.
  apply (simulate_all_terminates small_ctx (fun _ => 0) 5 small_world tt [second_tx; first_tx] false).
  - repeat constructor.
  - vm_compute. lia.
Defined.

(** Both are simulated, the second with the first before it. *)
Example simulate_two :
  match simulate_all_orders_with_sim_tree small_ctx (fun _ => 0) 5 small_world tt
          [second_tx; first_tx] false with
  | Some (Done (sims, errors)) => (Order_id <$> (so_order <$> sims), errors)
  | _ => ([], [])
  end = ([Id_Tx 91; Id_Tx 90], []).
Proof. vm_compute. reflexivity. Qed.

(** * The ordering builder on the small chain *)

#[local] Existing Instance map_queue_instance.
#[local] Existing Instance map_queue_ok.
#[local] Instance id_order : HashOrder OrderId := elements_order.
#[local] Instance id_order_ok : HashOrderOk OrderId.
Proof. by intros s. Qed.

Abbreviation max_profit := (Priority OrderMaxProfitPriority FullProfitInfoGetter) (only parsing).

Definition small_config : OrderingBuilderConfig :=
  {| oc_discard_txs := true; oc_sorting := MaxProfit; oc_failed_order_retries := 1;
     oc_drop_failed_orders := false; oc_build_duration_deadline_ms := None;
     oc_pre_filtered_build_duration_deadline_ms := Some 0;
     oc_ignore_mempool_profit_on_bundles := false |}.

(** A bundle that is worth what was expected, and a later transaction of its first
    account that is worth less. *)
Definition cheap_sim : SimulatedOrder := sample_sim second_tx 1000000 21000.

Definition fill_store : PrioritizedOrderStore (gmap OrderId max_profit) :=
  foldl po_insert_order (PrioritizedOrderStore_new []) [small_sim; cheap_sim].

(** A helper whose executions are cached. *)
Definition keeping_helper : BlockBuildingHelper SmallChain KeepingCache :=
  {| hp_fee_recipient_balance_start := 0; hp_building := keeping_building ∅; hp_payout_tx_gas := 21000;
     hp_trace := BuiltBlockTrace_new; hp_cancelled := false; hp_adjustment := None |}.

Definition small_fill :=
  fill_block (P := max_profit) small_ctx (fun _ => 0) 10 small_config [] keeping_helper fill_store.

#[local] Instance builder_hashing : TxHashing :=
  small_hashing ([small_tx 70 3 9 10; small_tx 71 4 13 10] ++ (Order_list_txs second_tx).*1).

Lemma fill_store_inv : store_inv fill_store.
Proof.
  unfold fill_store. cbn [foldl]. apply insert_store_inv, insert_store_inv, new_inv.
Qed.

Lemma fill_store_proper : map_Forall (fun _ => proper_sim) (po_orders fill_store).
Proof.
  apply (stored_insert_all (fun _ => proper_sim)); [by intros id o |].
  repeat constructor; vm_compute; try reflexivity; discriminate.
Qed.

Lemma keeping_helper_ok : helper_ok small_ctx BlockSpace_ZERO small_reserved keeping_helper.
Proof. split; [apply small_block_inv |]. split; [constructor | apply new_cache_sound]. Qed.

Lemma ordering_builder_fills_witness :
  exists f r, small_fill = Some (f, r) /\ r <> Panic
    /\ filled_block small_ctx BlockSpace_ZERO small_reserved (dom (po_orders fill_store)) 1 f.
Proof.
  destruct (ordering_builder_fills small_ctx small_sane (fun _ => 0) 10 small_config [] keeping_helper
    fill_store BlockSpace_ZERO small_reserved fill_store_inv fill_store_proper keeping_helper_ok eq_refl)
    as (f & r & Hf & Hp & Hb & _); [vm_compute; lia |].
  exists f, r. split; [exact Hf |]. split; [exact Hp | exact Hb].
Defined.

(** The transaction waits for the bundle, is tried twice, the second time from the cache,
    and is accepted with the value it had the first time. *)
Example small_fill_run :
  match small_fill with
  | Some (f, Done _) => (included_ids (included (fl_helper f)), map_to_list (fl_order_attempts f),
                         elements (fl_failed_orders f),
                         bool_decide (is_Some (bl_cache (hp_building (fl_helper f)) !! (91, small_coinbase))))
  | _ => ([], [], [], false)
  end = ([Id_Bundle 1; Id_Tx 91], [(Id_Tx 91, 1%nat)], [], true).
Proof. vm_compute. reflexivity. Qed.

(** ** Intake *)

(** Every account is at nonce 5; the second read fails. *)
Definition failing_nonces : NonceProvider :=
  fun k _ => if decide (k = 1%nat) then Err tt else Ok (Some 5).

Definition new_intake : OrderIntakeConsumer (gmap OrderId max_profit) :=
  OrderIntakeConsumer_new NonceCache_new.

Definition two_orders : list ChannelEvent := [Received (Simulation sample_tx_a); Received (Simulation sample_tx_b)].

Definition batch (pr : NonceProvider) (i : OrderIntakeConsumer (gmap OrderId max_profit)) ev :=
  match blocking_consume_next_batch (P := max_profit) (H := pr) i ev with
  | Some (i, _, _) => i
  | None => i
  end.

Definition after_failure := batch failing_nonces new_intake (two_orders ++ [Empty]).
Definition after_retry := batch failing_nonces after_failure [Lagged; Empty].

Lemma intake_knows_nonces_witness :
  exists v, onchain_nonces (in_block_orders (batch zero_nonces new_intake (two_orders ++ [Empty]))) !! 22 = Some v.
Proof.
  destruct (intake_knows_nonces (P := max_profit) (H := zero_nonces) NonceCache_new
    (batch zero_nonces new_intake (two_orders ++ [Empty])) (Id_Tx 2) sample_tx_b
    {| nonce_nonce := 0; nonce_address := 22; nonce_optional := false |}) as (v & _ & Hv).
  - eapply (ir_batch _ new_intake (two_orders ++ [Empty]) _ [] true); [apply ir_new |].
    vm_compute. reflexivity.
  - vm_compute. reflexivity.
  - left.
  - exists v. exact Hv.
Defined.

(** Account 11 was read before the failure: the store never learns its nonce. *)
Lemma intake_error_loses_nonce_witness :
  onchain_nonces (in_block_orders after_retry) !! 11 = None
  /\ onchain_nonces (in_block_orders after_retry) !! 22 = Some 5.
Proof.
  split; [| vm_compute; reflexivity].
  apply (intake_error_loses_nonce (P := max_profit) (H := failing_nonces) new_intake
           (two_orders ++ [Empty]) after_failure [] tt after_retry 11).
  - vm_compute. reflexivity.
  - vm_compute. reflexivity.
  - eapply rtc_l; [| apply rtc_refl]. exists [Lagged; Empty], [], (Ok true). vm_compute. reflexivity.
Defined.
