(* ===== verification/ConflictGroups.v ===== *)
(** * Groups of conflicting orders (builders/parallel_builder/groups.rs)

    The parallel builder works on groups of orders that touch the same state.
    The finder keeps, for every slot, balance and contract, the groups that read
    or write it; a new order is merged with the groups it conflicts with. *)

From S2P Require Import Prelude Transactions Bundles Orders SimTypes.

(** The profit of an order of a group, by its position in the group. *)
Record ResolutionResult := {
  rr_total_profit : U256;
  rr_sequence_of_orders : list (nat * U256);
}.

Record ConflictGroup := {
  cg_id : nat;
  cg_orders : list SimulatedOrder;
  cg_conflicting_group_ids : gset nat;
}.

Record GroupData := {
  gd_orders : list SimulatedOrder;
  gd_reads : list SlotKey;
  gd_writes : list SlotKey;
  gd_balance_reads : list Address;
  gd_balance_writes : list Address;
  gd_code_writes : list Address;
  gd_conflicting_group_ids : gset nat;
}.

(** The derived order of slot keys: by address, then by key. *)
Definition slot_key_le (a b : SlotKey) : Prop :=
  sk_address a < sk_address b \/ sk_address a = sk_address b /\ sk_key a <= sk_key b.
#[export] Instance slot_key_le_dec : RelDecision slot_key_le.
Proof. intros a b. unfold slot_key_le. apply _. Defined.

Definition combine_groups (groups : list GroupData) (removed_group_ids : list nat) : GroupData :=
  {| gd_orders := groups ≫= gd_orders;
     gd_reads := sort_dedup slot_key_le (groups ≫= gd_reads);
     gd_writes := sort_dedup slot_key_le (groups ≫= gd_writes);
     gd_balance_reads := sort_dedup Z.le (groups ≫= gd_balance_reads);
     gd_balance_writes := sort_dedup Z.le (groups ≫= gd_balance_writes);
     gd_code_writes := sort_dedup Z.le (groups ≫= gd_code_writes);
     gd_conflicting_group_ids :=
       list_to_set removed_group_ids ∪ ⋃ (gd_conflicting_group_ids <$> groups) |}.

(** ** Lists of groups by key *)

(** [Vec::swap_remove]: the last element takes the place of the removed one. *)
Definition swap_remove (l : list nat) (idx : nat) : list nat :=
  match last l with
  | Some x => take (length l - 1) (<[idx := x]> l)
  | None => l
  end.

Definition push_group (group_id : nat) (is_new_id : bool) (groups : list nat) : list nat :=
  if is_new_id || negb (bool_decide (group_id ∈ groups)) then groups ++ [group_id] else groups.

Definition drop_group (group_id : nat) (groups : list nat) : list nat :=
  match list_find (fun el => el = group_id) groups with
  | Some (idx, _) => swap_remove groups idx
  | None => groups
  end.

Definition add_group_key_to_map {K} `{Countable K} (group_id : nat) (is_new_id : bool)
    (map : gmap K (list nat)) (key : K) : gmap K (list nat) :=
  <[key := push_group group_id is_new_id (default [] (map !! key))]> map.

Definition add_group_to_map {K} `{Countable K} (group_id : nat) (is_new_id : bool)
    (group_keys : list K) (map : gmap K (list nat)) : gmap K (list nat) :=
  foldl (add_group_key_to_map group_id is_new_id) map group_keys.

Definition remove_group_key_from_map {K} `{Countable K} (group_id : nat)
    (map : gmap K (list nat)) (key : K) : gmap K (list nat) :=
  <[key := drop_group group_id (default [] (map !! key))]> map.

Definition remove_group_from_map {K} `{Countable K} (group_id : nat)
    (group_keys : list K) (map : gmap K (list nat)) : gmap K (list nat) :=
  foldl (remove_group_key_from_map group_id) map group_keys.

(** Slots are indexed by address and then by key. *)
Abbreviation SlotIndex := (gmap Address (gmap B256 (list nat))).

Definition add_slot_group (group_id : nat) (is_new_id : bool) (m : SlotIndex) (k : SlotKey)
  : SlotIndex :=
  <[sk_address k :=
      add_group_key_to_map group_id is_new_id (default ∅ (m !! sk_address k)) (sk_key k)]> m.

Definition remove_slot_group (group_id : nat) (m : SlotIndex) (k : SlotKey) : SlotIndex :=
  <[sk_address k :=
      remove_group_key_from_map group_id (default ∅ (m !! sk_address k)) (sk_key k)]> m.

(** ** The finder *)
Record ConflictFinder := {
  group_counter : nat;
  group_reads : SlotIndex;
  group_writes : SlotIndex;
  group_balance_reads : gmap Address (list nat);
  group_balance_writes : gmap Address (list nat);
  group_code_writes : gmap Address (list nat);
  cf_groups : gmap nat GroupData;
  cf_orders : gset OrderId;
}.

Definition ConflictFinder_new : ConflictFinder :=
  {| group_counter := 0; group_reads := ∅; group_writes := ∅; group_balance_reads := ∅;
     group_balance_writes := ∅; group_code_writes := ∅; cf_groups := ∅; cf_orders := ∅ |}.

Definition add_group_to_index (cf : ConflictFinder) (group_id : nat) (is_new_id : bool)
    (group_data : GroupData) : ConflictFinder :=
  {| group_counter := group_counter cf;
     group_reads := foldl (add_slot_group group_id is_new_id) (group_reads cf) (gd_reads group_data);
     group_writes :=
       foldl (add_slot_group group_id is_new_id) (group_writes cf) (gd_writes group_data);
     group_balance_reads :=
       add_group_to_map group_id is_new_id (gd_balance_reads group_data) (group_balance_reads cf);
     group_balance_writes :=
       add_group_to_map group_id is_new_id (gd_balance_writes group_data) (group_balance_writes cf);
     group_code_writes :=
       add_group_to_map group_id is_new_id (gd_code_writes group_data) (group_code_writes cf);
     cf_groups := cf_groups cf; cf_orders := cf_orders cf |}.

Definition remove_group_from_index (cf : ConflictFinder) (group_id : nat) (group_data : GroupData)
  : ConflictFinder :=
  {| group_counter := group_counter cf;
     group_reads := foldl (remove_slot_group group_id) (group_reads cf) (gd_reads group_data);
     group_writes := foldl (remove_slot_group group_id) (group_writes cf) (gd_writes group_data);
     group_balance_reads :=
       remove_group_from_map group_id (gd_balance_reads group_data) (group_balance_reads cf);
     group_balance_writes :=
       remove_group_from_map group_id (gd_balance_writes group_data) (group_balance_writes cf);
     group_code_writes :=
       remove_group_from_map group_id (gd_code_writes group_data) (group_code_writes cf);
     cf_groups := cf_groups cf; cf_orders := cf_orders cf |}.

Definition with_groups (cf : ConflictFinder) (groups : gmap nat GroupData) : ConflictFinder :=
  {| group_counter := group_counter cf; group_reads := group_reads cf;
     group_writes := group_writes cf; group_balance_reads := group_balance_reads cf;
     group_balance_writes := group_balance_writes cf; group_code_writes := group_code_writes cf;
     cf_groups := groups; cf_orders := cf_orders cf |}.

Definition next_group_id (cf : ConflictFinder) : ConflictFinder :=
  {| group_counter := S (group_counter cf); group_reads := group_reads cf;
     group_writes := group_writes cf; group_balance_reads := group_balance_reads cf;
     group_balance_writes := group_balance_writes cf; group_code_writes := group_code_writes cf;
     cf_groups := cf_groups cf; cf_orders := cf_orders cf |}.

Definition mark_order (cf : ConflictFinder) (id : OrderId) : ConflictFinder :=
  {| group_counter := group_counter cf; group_reads := group_reads cf;
     group_writes := group_writes cf; group_balance_reads := group_balance_reads cf;
     group_balance_writes := group_balance_writes cf; group_code_writes := group_code_writes cf;
     cf_groups := cf_groups cf; cf_orders := {[id]} ∪ cf_orders cf |}.

(** ** Finding conflicts *)
Definition slot_groups (m : SlotIndex) (k : SlotKey) : list nat :=
  match m !! sk_address k with
  | Some inner_mapping => default [] (inner_mapping !! sk_key k)
  | None => []
  end.

Definition address_groups (m : gmap Address (list nat)) (a : Address) : list nat :=
  default [] (m !! a).

(** The groups of every slot of a contract, in any order. *)
Definition contract_groups (m : SlotIndex) (a : Address) : list nat :=
  match m !! a with
  | Some inner_mapping => map_to_list inner_mapping ≫= snd
  | None => []
  end.

Section finder.
Context `{!HashOrder Address} `{!HashOrder SlotKey}.

Definition keys_of {K V} `{HashOrder K} (m : gmap K V) : list K := hash_order (dom m).

Definition all_groups_in_conflict (cf : ConflictFinder) (used_state : UsedStateTrace) : list nat :=
  sort_dedup le (
    (keys_of (read_slot_values used_state) ≫= fun read_key =>
       slot_groups (group_writes cf) read_key ++
       address_groups (group_code_writes cf) (sk_address read_key)) ++
    (keys_of (written_slot_values used_state) ≫= fun write_key =>
       slot_groups (group_reads cf) write_key ++
       address_groups (group_code_writes cf) (sk_address write_key)) ++
    ((keys_of (received_amount used_state) ++ keys_of (sent_amount used_state)) ≫=
       address_groups (group_balance_reads cf)) ++
    (keys_of (read_balances used_state) ≫= address_groups (group_balance_writes cf)) ++
    ((destructed_contracts used_state ++ created_contracts used_state) ≫= fun contract_addr =>
       address_groups (group_code_writes cf) contract_addr ++
       contract_groups (group_reads cf) contract_addr ++
       contract_groups (group_writes cf) contract_addr)).

Definition new_order_group (order : SimulatedOrder) (used_state : UsedStateTrace) : GroupData :=
  {| gd_orders := [order];
     gd_reads := keys_of (read_slot_values used_state);
     gd_writes := keys_of (written_slot_values used_state);
     gd_balance_reads := keys_of (read_balances used_state);
     gd_balance_writes :=
       sort_dedup Z.le (keys_of (sent_amount used_state) ++ keys_of (received_amount used_state));
     gd_code_writes :=
       sort_dedup Z.le (created_contracts used_state ++ destructed_contracts used_state);
     gd_conflicting_group_ids := ∅ |}.

(** [groups.remove(&id).unwrap()] for each id: [None] is the panic. *)
Fixpoint remove_groups (groups : gmap nat GroupData) (ids : list nat)
  : option (gmap nat GroupData * list (nat * GroupData)) :=
  match ids with
  | [] => Some (groups, [])
  | id :: ids =>
      let! g := groups !! id in
      let! (groups, gs) := remove_groups (delete id groups) ids in
      Some (groups, (id, g) :: gs)
  end.

Definition place_group (cf : ConflictFinder) (group : GroupData) (conflicts : list nat)
  : option ConflictFinder :=
  match conflicts with
  | [] =>
      let group_id := group_counter cf in
      let cf := add_group_to_index (next_group_id cf) group_id true group in
      Some (with_groups cf (<[group_id := group]> (cf_groups cf)))
  | [group_id] =>
      let! other_group := cf_groups cf !! group_id in
      let cf := with_groups cf (delete group_id (cf_groups cf)) in
      let combined_group := combine_groups [group; other_group] [] in
      let cf := add_group_to_index cf group_id false combined_group in
      Some (with_groups cf (<[group_id := combined_group]> (cf_groups cf)))
  | _ =>
      let! (groups, conflicting_groups) := remove_groups (cf_groups cf) conflicts in
      let cf := with_groups cf groups in
      let cf := foldl (fun cf p => remove_group_from_index cf p.1 p.2) cf conflicting_groups in
      let group_id := group_counter cf in
      let cf := next_group_id cf in
      let combined_group :=
        combine_groups ((snd <$> conflicting_groups) ++ [group]) (fst <$> conflicting_groups) in
      let cf := add_group_to_index cf group_id true combined_group in
      Some (with_groups cf (<[group_id := combined_group]> (cf_groups cf)))
  end.

(** An iteration of [add_orders]; an order without a trace is only marked. *)
Definition add_order (cf : ConflictFinder) (order : SimulatedOrder) : option ConflictFinder :=
  if decide (so_id order ∈ cf_orders cf) then Some cf
  else
    let cf := mark_order cf (so_id order) in
    match so_used_state_trace order with
    | None => Some cf
    | Some used_state =>
        place_group cf (new_order_group order used_state) (all_groups_in_conflict cf used_state)
    end.

Fixpoint add_orders (cf : ConflictFinder) (orders : list SimulatedOrder) : option ConflictFinder :=
  match orders with
  | [] => Some cf
  | order :: orders => let! cf := add_order cf order in add_orders cf orders
  end.
End finder.

Definition group_id_le (a b : nat * GroupData) : Prop := (a.1 <= b.1)%nat.
#[export] Instance group_id_le_dec : RelDecision group_id_le.
Proof. intros a b. unfold group_id_le. apply _. Defined.

Definition get_order_groups (cf : ConflictFinder) : list ConflictGroup :=
  (fun p => {| cg_id := p.1; cg_orders := gd_orders p.2;
               cg_conflicting_group_ids := gd_conflicting_group_ids p.2 |}) <$>
  merge_sort group_id_le (map_to_list (cf_groups cf)).
