(* ===== verification/ConflictIndex.v ===== *)
(** * The index of conflict groups

    The lists that the finder keeps for every slot, balance and contract hold
    exactly the groups whose data names the key, each once. *)

From S2P Require Import Prelude Transactions Bundles Orders SimTypes ConflictGroups.

#[export] Instance slot_key_le_total : Total slot_key_le.
Proof. intros a b. unfold slot_key_le. lia. Qed.
#[export] Instance slot_key_le_trans : Transitive slot_key_le.
Proof. intros a b c. unfold slot_key_le. lia. Qed.
#[export] Instance slot_key_le_antisymm : AntiSymm eq slot_key_le.
Proof. intros [a k] [a' k']. unfold slot_key_le. simpl. intros ??. f_equal; lia. Qed.

(** ** One list of groups *)
Lemma swap_remove_perm l i x : l !! i = Some x -> l ≡ₚ x :: swap_remove l i.
Proof.
  intros Hi. unfold swap_remove.
  destruct l as [| y l _] using rev_ind; [done |]. rewrite last_snoc, length_app. simpl.
  replace (length l + 1 - 1)%nat with (length l) by lia.
  apply lookup_snoc_Some in Hi as [Hi | [-> ->]].
  - rewrite insert_app_l, take_app_length' by (rewrite ?length_insert; eauto using lookup_lt_Some).
    rewrite <- (take_drop_middle l i x) at 1 by done.
    rewrite insert_take_drop by eauto using lookup_lt_Some.
    rewrite <- app_assoc. simpl. rewrite <- (Permutation_middle _ _ x). constructor.
    rewrite app_assoc, (Permutation_app_comm _ [y]). by apply (Permutation_middle (take i l)).
  - rewrite list_insert_id; [| rewrite lookup_app_r, Nat.sub_diag by lia; done].
    rewrite take_app_length. by rewrite Permutation_app_comm.
Qed.

Lemma push_group_spec id new l :
  NoDup l -> (new = true -> id ∉ l) ->
  NoDup (push_group id new l) /\ forall x, x ∈ push_group id new l <-> x ∈ l \/ x = id.
Proof.
  intros Hnd Hnew. unfold push_group. case_bool_decide as Hin.
  - destruct new; [by destruct Hnew |]. simpl. split; [done |]. naive_solver.
  - rewrite orb_true_r. split; [| intros x; by rewrite elem_of_app, list_elem_of_singleton].
    apply NoDup_app. split; [done |]. split; [| apply NoDup_singleton].
    intros x Hx ->%list_elem_of_singleton. done.
Qed.

Lemma drop_group_spec id l :
  NoDup l ->
  NoDup (drop_group id l) /\ forall x, x ∈ drop_group id l <-> x ∈ l /\ x <> id.
Proof.
  intros Hnd. unfold drop_group. destruct (list_find _ l) as [[i y] |] eqn:Hf.
  - apply list_find_Some in Hf as (Hi & -> & _). apply swap_remove_perm in Hi as Hp.
    rewrite Hp in Hnd. apply NoDup_cons in Hnd as [Hnin Hnd]. split; [done |].
    intros x. assert (x ∈ l <-> x = id \/ x ∈ swap_remove l i) as -> by (by rewrite Hp at 1; rewrite elem_of_cons).
    naive_solver.
  - apply list_find_None in Hf. rewrite Forall_forall in Hf. split; [done |]. naive_solver.
Qed.

(** ** An index over keys *)

(** [get m k] are exactly the groups that have the key, each once. *)
Definition index_ok {K} (get : K -> list nat) (has : nat -> K -> Prop) : Prop :=
  forall k, NoDup (get k) /\ forall id, id ∈ get k <-> has id k.

Section index.
Context {M K : Type} `{EqDecision K} (get : M -> K -> list nat).
Context (sel : GroupData -> list K).

Definition holds (G : gmap nat GroupData) (id : nat) (k : K) : Prop :=
  exists gd, G !! id = Some gd /\ k ∈ sel gd.

Definition updates (upd : M -> K -> M) (f : list nat -> list nat) : Prop :=
  forall m k k', get (upd m k) k' = if decide (k = k') then f (get m k) else get m k'.

Lemma get_fold upd f ks m k :
  updates upd f -> NoDup ks ->
  get (foldl upd m ks) k = if decide (k ∈ ks) then f (get m k) else get m k.
Proof.
  intros Hupd Hnd. revert m. induction Hnd as [| k0 ks Hk0 Hnd IH]; intros m; simpl; [done |].
  rewrite IH, Hupd. repeat case_decide; subst; set_solver.
Qed.

Lemma index_add upd m G id new gd :
  updates upd (push_group id new) -> NoDup (sel gd) ->
  (new = true -> G !! id = None) ->
  (forall gd0, G !! id = Some gd0 -> sel gd0 ⊆ sel gd) ->
  index_ok (get m) (holds G) -> index_ok (get (foldl upd m (sel gd))) (holds (<[id := gd]> G)).
Proof.
  intros Hupd Hnd Hnew Hsub Hok k. destruct (Hok k) as [Hk Hin]. rewrite (get_fold _ _ _ _ _ Hupd Hnd).
  assert (Hholds : forall i, holds (<[id := gd]> G) i k <-> holds G i k /\ i <> id \/ i = id /\ k ∈ sel gd).
  { intros i. unfold holds. setoid_rewrite lookup_insert_Some. destruct (decide (i = id)); naive_solver. }
  setoid_rewrite Hholds. case_decide as Hsel.
  - destruct (push_group_spec id new (get m k)) as [Hnd' Hin']; [done | |].
    { intros Ht. rewrite Hin. intros (gd0 & Hgd0 & _). by rewrite Hnew in Hgd0. }
    split; [done |]. intros i. rewrite Hin', Hin. destruct (decide (i = id)); naive_solver.
  - split; [done |]. intros i. rewrite Hin. split; [| naive_solver].
    intros Hh. left. split; [done |]. intros ->. destruct Hh as (gd0 & Hgd0 & Hk0).
    by apply Hsel, (Hsub gd0).
Qed.

Lemma index_remove upd m G id gd :
  updates upd (drop_group id) -> NoDup (sel gd) -> G !! id = Some gd ->
  index_ok (get m) (holds G) -> index_ok (get (foldl upd m (sel gd))) (holds (delete id G)).
Proof.
  intros Hupd Hnd Hgd Hok k. destruct (Hok k) as [Hk Hin]. rewrite (get_fold _ _ _ _ _ Hupd Hnd).
  assert (Hholds : forall i, holds (delete id G) i k <-> holds G i k /\ i <> id).
  { intros i. unfold holds. setoid_rewrite lookup_delete_Some. naive_solver. }
  setoid_rewrite Hholds. case_decide as Hsel.
  - destruct (drop_group_spec id (get m k) Hk) as [Hnd' Hin']. split; [done |].
    intros i. by rewrite Hin', Hin.
  - split; [done |]. intros i. rewrite Hin. split; [| naive_solver].
    intros Hh. split; [done |]. intros ->. destruct Hh as (gd0 & Hgd0 & Hk0). by simplify_eq.
Qed.
End index.

(** ** The two kinds of maps *)
Lemma map_updates f :
  updates address_groups (fun m k => <[k := f (default [] (m !! k))]> m) f.
Proof.
  intros m k k'. unfold address_groups. case_decide as Hk; [subst; by rewrite lookup_insert_eq |].
  by rewrite lookup_insert_ne.
Qed.

Lemma slot_updates f :
  updates slot_groups
    (fun m k => <[sk_address k :=
       <[sk_key k := f (default [] (default ∅ (m !! sk_address k) !! sk_key k))]>
         (default ∅ (m !! sk_address k))]> m) f.
Proof.
  intros m [a key] [a' key']. unfold slot_groups. simpl.
  destruct (decide (a = a')) as [<- | Ha].
  - rewrite lookup_insert_eq. case_decide as Hk.
    + simplify_eq. rewrite lookup_insert_eq. simpl. by destruct (m !! a).
    + rewrite lookup_insert_ne by congruence. by destruct (m !! a).
  - rewrite lookup_insert_ne by done. case_decide; [by simplify_eq | done].
Qed.

(** ** The index of the finder *)
Definition nodup_keys (gd : GroupData) : Prop :=
  NoDup (gd_reads gd) /\ NoDup (gd_writes gd) /\ NoDup (gd_balance_reads gd) /\
  NoDup (gd_balance_writes gd) /\ NoDup (gd_code_writes gd).

Definition sub_keys (gd gd' : GroupData) : Prop :=
  gd_reads gd ⊆ gd_reads gd' /\ gd_writes gd ⊆ gd_writes gd' /\
  gd_balance_reads gd ⊆ gd_balance_reads gd' /\ gd_balance_writes gd ⊆ gd_balance_writes gd' /\
  gd_code_writes gd ⊆ gd_code_writes gd'.

Record finder_index (cf : ConflictFinder) (G : gmap nat GroupData) : Prop := {
  ix_reads : index_ok (slot_groups (group_reads cf)) (holds gd_reads G);
  ix_writes : index_ok (slot_groups (group_writes cf)) (holds gd_writes G);
  ix_balance_reads : index_ok (address_groups (group_balance_reads cf)) (holds gd_balance_reads G);
  ix_balance_writes :
    index_ok (address_groups (group_balance_writes cf)) (holds gd_balance_writes G);
  ix_code_writes : index_ok (address_groups (group_code_writes cf)) (holds gd_code_writes G);
}.

Lemma finder_index_add cf G id new gd :
  finder_index cf G -> nodup_keys gd -> (new = true -> G !! id = None) ->
  (forall gd0, G !! id = Some gd0 -> sub_keys gd0 gd) ->
  finder_index (add_group_to_index cf id new gd) (<[id := gd]> G).
Proof.
  intros [H1 H2 H3 H4 H5] (? & ? & ? & ? & ?) Hnew Hsub.
  split; (eapply index_add; [apply slot_updates || apply map_updates | done | done | | done]);
    intros gd0 Hgd0; apply Hsub in Hgd0; unfold sub_keys in Hgd0; tauto.
Qed.

Lemma finder_index_remove cf G id gd :
  finder_index cf G -> nodup_keys gd -> G !! id = Some gd ->
  finder_index (remove_group_from_index cf id gd) (delete id G).
Proof.
  intros [H1 H2 H3 H4 H5] (? & ? & ? & ? & ?) Hgd.
  split; (eapply index_remove; [apply slot_updates || apply map_updates | done | done | done]).
Qed.

Lemma nodup_keys_combine gs ids : nodup_keys (combine_groups gs ids).
Proof. repeat split; apply NoDup_sort_dedup; apply _. Qed.

(** The groups of a contract are those of its slots. *)
Lemma elem_of_contract_groups m a id :
  id ∈ contract_groups m a <-> exists k, sk_address k = a /\ id ∈ slot_groups m k.
Proof.
  unfold contract_groups, slot_groups. split.
  - destruct (m !! a) as [inner |] eqn:Hm; [| by intros ?%elem_of_nil].
    intros ([key l] & Hid & Hin)%list_elem_of_bind. apply elem_of_map_to_list in Hin.
    exists {| sk_address := a; sk_key := key |}. simpl. by rewrite Hm, Hin.
  - intros (k & <- & Hin). destruct (m !! sk_address k) as [inner |] eqn:Hm; [| done].
    destruct (inner !! sk_key k) as [l |] eqn:Hl; [| by apply elem_of_nil in Hin].
    apply list_elem_of_bind. exists (sk_key k, l). split; [done |]. by apply elem_of_map_to_list.
Qed.
