(* ===== verification/ConflictGroupsSpec.v ===== *)
(** * Groups are the components of the conflict relation

    Whatever order the orders are added in, the groups partition them, orders
    of different groups do not conflict, and orders of one group are linked by
    a chain of conflicts. *)

From S2P Require Import Prelude Transactions Bundles Orders SimTypes ConflictGroups ConflictIndex.

(** ** When two orders conflict *)
Section footprint.
Implicit Types o : SimulatedOrder.

Definition order_trace o : UsedStateTrace := default UsedStateTrace_default (so_used_state_trace o).
Definition o_reads o : gset SlotKey := dom (read_slot_values (order_trace o)).
Definition o_writes o : gset SlotKey := dom (written_slot_values (order_trace o)).
Definition o_balance_reads o : gset Address := dom (read_balances (order_trace o)).
Definition o_balance_writes o : gset Address :=
  dom (received_amount (order_trace o)) ∪ dom (sent_amount (order_trace o)).
Definition o_code_writes o : gset Address :=
  list_to_set (created_contracts (order_trace o) ++ destructed_contracts (order_trace o)).
End footprint.

Lemma o_code_writes_spec o x :
  x ∈ o_code_writes o <->
  x ∈ destructed_contracts (order_trace o) \/ x ∈ created_contracts (order_trace o).
Proof. unfold o_code_writes. set_solver. Qed.

(** What the first order reads or uses, the second writes, creates or destroys. *)
Definition affected_by (a b : SimulatedOrder) : Prop :=
  (exists k, k ∈ o_reads a /\ k ∈ o_writes b) \/
  (exists x, x ∈ o_balance_reads a /\ x ∈ o_balance_writes b) \/
  (exists k, (k ∈ o_reads a \/ k ∈ o_writes a) /\ sk_address k ∈ o_code_writes b).

Definition conflicting (a b : SimulatedOrder) : Prop :=
  affected_by a b \/ affected_by b a \/ exists x, x ∈ o_code_writes a /\ x ∈ o_code_writes b.

#[export] Instance conflicting_sym : Symmetric conflicting.
Proof. unfold conflicting. intros a b. naive_solver. Qed.

(** Conflicts between orders of a list, and chains of them. *)
Definition linked (l : list SimulatedOrder) (a b : SimulatedOrder) : Prop :=
  a ∈ l /\ b ∈ l /\ conflicting a b.

#[export] Instance linked_sym l : Symmetric (linked l).
Proof. intros a b (? & ? & ?). repeat split; [done.. | by symmetry]. Qed.

Definition connected (l : list SimulatedOrder) : Prop :=
  forall a b, a ∈ l -> b ∈ l -> rtc (linked l) a b.

Lemma linked_mono l l' a b : l ⊆ l' -> rtc (linked l) a b -> rtc (linked l') a b.
Proof. intros Hl. apply rtc_subrel. intros x y (? & ? & ?). split; auto. Qed.

Lemma connected_star l o : (forall a, a ∈ l -> rtc (linked l) a o) -> connected l.
Proof.
  intros Hstar a b Ha Hb. etrans; [by apply Hstar |]. symmetry. by apply Hstar.
Qed.

Lemma connected_perm l l' : l ≡ₚ l' -> connected l -> connected l'.
Proof.
  intros Hp Hc a b Ha Hb. rewrite <- Hp in Ha, Hb.
  eapply linked_mono; [| by apply Hc]. intros x. by rewrite Hp.
Qed.

(** An order that conflicts with a member of every part connects them. *)
Lemma connected_join o (ls : list (list SimulatedOrder)) :
  (forall l, l ∈ ls -> connected l /\ exists c, c ∈ l /\ conflicting c o) ->
  connected (o :: mjoin ls).
Proof.
  intros Hls. apply (connected_star _ o). intros a [-> | Ha]%elem_of_cons; [done |].
  apply list_elem_of_join in Ha as (l & Ha & Hl). destruct (Hls l Hl) as [Hc (c & Hcl & Hco)].
  assert (Hsub : l ⊆ o :: mjoin ls).
  { intros x Hx. right. apply list_elem_of_join. eauto. }
  eapply rtc_r; [eapply linked_mono, Hc; eauto |]. split; [by apply Hsub |]. split; [left | done].
Qed.

(** ** The data of a group is that of its orders *)
Definition covers_key {K} `{Countable K} (keys : list K) (orders : list SimulatedOrder)
    (sel : SimulatedOrder -> gset K) : Prop :=
  forall k, k ∈ keys <-> exists o, o ∈ orders /\ k ∈ sel o.

Record covers (gd : GroupData) : Prop := {
  cov_reads : covers_key (gd_reads gd) (gd_orders gd) o_reads;
  cov_writes : covers_key (gd_writes gd) (gd_orders gd) o_writes;
  cov_balance_reads : covers_key (gd_balance_reads gd) (gd_orders gd) o_balance_reads;
  cov_balance_writes : covers_key (gd_balance_writes gd) (gd_orders gd) o_balance_writes;
  cov_code_writes : covers_key (gd_code_writes gd) (gd_orders gd) o_code_writes;
}.

Lemma covers_key_combine {K} `{Countable K} (R : relation K) `{!RelDecision R}
    (keys : GroupData -> list K) sel gs :
  (forall g, g ∈ gs -> covers_key (keys g) (gd_orders g) sel) ->
  covers_key (sort_dedup R (gs ≫= keys)) (gs ≫= gd_orders) sel.
Proof.
  intros Hgs k. rewrite elem_of_sort_dedup, list_elem_of_bind. setoid_rewrite list_elem_of_bind.
  split.
  - intros (g & Hk & Hg). apply Hgs in Hk as (o & ? & ?); [| done]. eauto.
  - intros (o & (g & Ho & Hg) & Hk). exists g. split; [| done]. apply Hgs; eauto.
Qed.

Lemma covers_combine gs ids : (forall g, g ∈ gs -> covers g) -> covers (combine_groups gs ids).
Proof. intros Hgs. split; apply covers_key_combine; intros g Hg; by apply Hgs. Qed.

(** A group that is merged into another gives it its keys. *)
Lemma sub_keys_combine g gs ids : g ∈ gs -> sub_keys g (combine_groups gs ids).
Proof.
  intros Hg. repeat split; intros k Hk; apply elem_of_sort_dedup, list_elem_of_bind; eauto.
Qed.

Section finder.
Context `{!HashOrder Address} `{!HashOrder SlotKey} `{!HashOrderOk Address} `{!HashOrderOk SlotKey}.

Lemma elem_of_keys_of {K V} `{Countable K} `{!HashOrder K} `{!HashOrderOk K} (m : gmap K V) k :
  k ∈ keys_of m <-> k ∈ dom m.
Proof. unfold keys_of. by rewrite hash_order_perm, elem_of_elements. Qed.

Lemma NoDup_keys_of {K V} `{Countable K} `{!HashOrder K} `{!HashOrderOk K} (m : gmap K V) :
  NoDup (keys_of m).
Proof. unfold keys_of. rewrite hash_order_perm. apply NoDup_elements. Qed.

Lemma new_group_keys o tr : nodup_keys (new_order_group o tr).
Proof.
  repeat split; simpl; solve [apply NoDup_keys_of | apply NoDup_sort_dedup; apply _].
Qed.

Lemma new_group_covers o tr :
  so_used_state_trace o = Some tr -> covers (new_order_group o tr).
Proof.
  intros Htr. assert (order_trace o = tr) as Ho by (unfold order_trace; by rewrite Htr).
  split; intros k; simpl; setoid_rewrite list_elem_of_singleton;
    rewrite ?elem_of_sort_dedup, ?elem_of_app, ?elem_of_keys_of;
    unfold o_reads, o_writes, o_balance_reads, o_balance_writes, o_code_writes;
    (split; [intros Hk; exists o; rewrite Ho; set_solver | intros (? & -> & Hk); rewrite Ho in Hk; set_solver]).
Qed.

(** ** The conflicts found are the conflicts there are *)
Lemma index_orders {K} `{Countable K} (get : K -> list nat) keys sel G k id :
  index_ok get (holds keys G) ->
  (forall i gd, G !! i = Some gd -> covers_key (keys gd) (gd_orders gd) sel) ->
  id ∈ get k <-> exists gd c, G !! id = Some gd /\ c ∈ gd_orders gd /\ k ∈ sel c.
Proof.
  intros Hix Hcov. rewrite (proj2 (Hix k)). unfold holds. split.
  - intros (gd & Hgd & Hk). apply (Hcov _ _ Hgd) in Hk as (c & ? & ?). eauto.
  - intros (gd & c & Hgd & Hc & Hk). exists gd. split; [done |]. apply (Hcov _ _ Hgd). eauto.
Qed.

Lemma groups_in_conflict_spec cf G o tr id :
  finder_index cf G -> (forall i gd, G !! i = Some gd -> covers gd) ->
  so_used_state_trace o = Some tr ->
  id ∈ all_groups_in_conflict cf tr <->
  exists gd, G !! id = Some gd /\ exists c, c ∈ gd_orders gd /\ conflicting c o.
Proof.
  intros [Hr Hw Hbr Hbw Hcw] Hcov Htr.
  assert (order_trace o = tr) as Ho by (unfold order_trace; by rewrite Htr).
  pose proof (fun k => index_orders _ _ _ _ k id Hr (fun i gd H => cov_reads _ (Hcov i gd H))) as Er.
  pose proof (fun k => index_orders _ _ _ _ k id Hw (fun i gd H => cov_writes _ (Hcov i gd H))) as Ew.
  pose proof (fun k => index_orders _ _ _ _ k id Hbr
                (fun i gd H => cov_balance_reads _ (Hcov i gd H))) as Ebr.
  pose proof (fun k => index_orders _ _ _ _ k id Hbw
                (fun i gd H => cov_balance_writes _ (Hcov i gd H))) as Ebw.
  pose proof (fun k => index_orders _ _ _ _ k id Hcw
                (fun i gd H => cov_code_writes _ (Hcov i gd H))) as Ecw.
  clear Hr Hw Hbr Hbw Hcw Hcov. unfold all_groups_in_conflict.
  rewrite elem_of_sort_dedup, !elem_of_app, !list_elem_of_bind.
  setoid_rewrite elem_of_app. setoid_rewrite elem_of_app. setoid_rewrite elem_of_contract_groups.
  setoid_rewrite elem_of_keys_of. setoid_rewrite Er. setoid_rewrite Ew. setoid_rewrite Ebr.
  setoid_rewrite Ebw. setoid_rewrite Ecw. clear Er Ew Ebr Ebw Ecw.
  subst tr. setoid_rewrite <- elem_of_union. setoid_rewrite <- (o_code_writes_spec o).
  fold (o_reads o) (o_writes o) (o_balance_reads o) (o_balance_writes o).
  unfold conflicting, affected_by. split; naive_solver.
Qed.

End finder.

(** ** The invariant of the finder *)
Record finder_inv (cf : ConflictFinder) : Prop := {
  fi_index : finder_index cf (cf_groups cf);
  fi_fresh i gd : cf_groups cf !! i = Some gd -> (i < group_counter cf)%nat;
  fi_keys i gd : cf_groups cf !! i = Some gd -> nodup_keys gd;
  fi_covers i gd : cf_groups cf !! i = Some gd -> covers gd;
  fi_nonempty i gd : cf_groups cf !! i = Some gd -> gd_orders gd <> [];
  fi_connected i gd : cf_groups cf !! i = Some gd -> connected (gd_orders gd);
  fi_absorbed i gd j : cf_groups cf !! i = Some gd -> j ∈ gd_conflicting_group_ids gd ->
    (j < group_counter cf)%nat /\ cf_groups cf !! j = None;
  fi_lost j : (j < group_counter cf)%nat -> cf_groups cf !! j = None ->
    exists i gd, cf_groups cf !! i = Some gd /\ j ∈ gd_conflicting_group_ids gd;
  fi_apart i j gi gj a b : cf_groups cf !! i = Some gi -> cf_groups cf !! j = Some gj ->
    i <> j -> a ∈ gd_orders gi -> b ∈ gd_orders gj -> ~ conflicting a b;
}.

Lemma finder_inv_new : finder_inv ConflictFinder_new.
Proof.
  split; try done; [| simpl; lia]. split; intros k; (split; [constructor |]); unfold holds; set_solver.
Qed.

Lemma finder_inv_mark cf id : finder_inv cf -> finder_inv (mark_order cf id).
Proof. intros [[] ? ? ? ? ? ? ? ?]. by split. Qed.

Lemma index_with_groups cf g G : finder_index cf G -> finder_index (with_groups cf g) G.
Proof. by intros []. Qed.
Lemma index_next_group cf G : finder_index cf G -> finder_index (next_group_id cf) G.
Proof. by intros []. Qed.

(** The orders of all groups. *)
Definition grouped (G : gmap nat GroupData) : list SimulatedOrder :=
  map_to_list G ≫= fun p => gd_orders p.2.

Definition without (G : gmap nat GroupData) (ids : list nat) : gmap nat GroupData :=
  foldl (fun G id => delete id G) G ids.

Lemma lookup_without G ids i gd :
  without G ids !! i = Some gd <-> i ∉ ids /\ G !! i = Some gd.
Proof.
  revert G. induction ids as [| id ids IH]; intros G; simpl; [set_solver |].
  rewrite IH, lookup_delete_Some. set_solver.
Qed.

Lemma lookup_without_None G ids i : without G ids !! i = None <-> i ∈ ids \/ G !! i = None.
Proof.
  rewrite !eq_None_not_Some. unfold is_Some. setoid_rewrite lookup_without.
  destruct (decide (i ∈ ids)); naive_solver.
Qed.

Lemma grouped_insert G i gd :
  G !! i = None -> grouped (<[i := gd]> G) ≡ₚ gd_orders gd ++ grouped G.
Proof. intros Hi. unfold grouped. by rewrite map_to_list_insert. Qed.

Lemma grouped_delete G i gd :
  G !! i = Some gd -> grouped G ≡ₚ gd_orders gd ++ grouped (delete i G).
Proof.
  intros Hi. rewrite <- (insert_delete_id G i gd) at 1 by done.
  apply grouped_insert, lookup_delete_eq.
Qed.

Lemma elem_of_grouped G o :
  o ∈ grouped G <-> exists i gd, G !! i = Some gd /\ o ∈ gd_orders gd.
Proof.
  unfold grouped. rewrite list_elem_of_bind. split.
  - intros ([i gd] & Ho & Hi%elem_of_map_to_list). eauto.
  - intros (i & gd & Hi & Ho). exists (i, gd). split; [done |]. by apply elem_of_map_to_list.
Qed.

(** ** Removing the groups that are merged *)
Definition entries (G : gmap nat GroupData) (ids : list nat) (gs : list (nat * GroupData)) : Prop :=
  gs.*1 = ids /\ Forall (fun p => G !! p.1 = Some p.2) gs.

Lemma entries_cons G id ids gs g :
  id ∉ ids -> G !! id = Some g -> entries (delete id G) ids gs -> entries G (id :: ids) ((id, g) :: gs).
Proof.
  intros Hid Hg [<- Hgs]. split; [done |]. constructor; [done |].
  eapply Forall_impl; [exact Hgs |]. simpl. intros p Hp. by apply lookup_delete_Some in Hp as [_ ?].
Qed.

Lemma entries_uncons G id ids g gs :
  id ∉ ids -> entries G (id :: ids) ((id, g) :: gs) ->
  G !! id = Some g /\ entries (delete id G) ids gs.
Proof.
  intros Hid [[= Hfst] [Hg Hgs]%Forall_cons]. split; [done |]. split; [done |].
  rewrite Forall_forall in Hgs |- *. intros p Hp. rewrite lookup_delete_ne; [by apply Hgs |].
  intros ->. apply Hid. rewrite <- Hfst. by apply list_elem_of_fmap_2.
Qed.

Lemma remove_groups_spec G ids :
  NoDup ids -> (forall id, id ∈ ids -> is_Some (G !! id)) ->
  exists gs, remove_groups G ids = Some (without G ids, gs) /\ entries G ids gs.
Proof.
  intros Hnd. revert G. induction Hnd as [| id ids Hid Hnd IH]; intros G HG; simpl.
  { eexists. split; [done |]. by split. }
  destruct (HG id) as [g Hg]; [left |]. rewrite Hg. destruct (IH (delete id G)) as (gs & -> & Hgs).
  { intros i Hi. rewrite lookup_delete_ne by (by intros ->). apply HG. by right. }
  eexists. split; [done |]. by apply entries_cons.
Qed.

Lemma grouped_without G ids gs :
  NoDup ids -> entries G ids gs ->
  grouped G ≡ₚ (gs ≫= fun p => gd_orders p.2) ++ grouped (without G ids).
Proof.
  intros Hnd. revert G gs. induction Hnd as [| id ids Hid Hnd IH]; intros G gs Hgs.
  { by destruct Hgs as [->%fmap_nil_inv _]. }
  destruct gs as [| [i g] gs]; [by destruct Hgs |]. assert (i = id) as -> by by destruct Hgs as [[= ->] _].
  apply entries_uncons in Hgs as [Hg Hgs]; [| done]. simpl.
  rewrite (grouped_delete _ _ _ Hg), (IH _ _ Hgs). by rewrite app_assoc.
Qed.

Lemma remove_from_index_fold cf gs :
  let cf' := foldl (fun cf p => remove_group_from_index cf p.1 p.2) cf gs in
  group_counter cf' = group_counter cf /\ cf_groups cf' = cf_groups cf /\
  cf_orders cf' = cf_orders cf.
Proof.
  revert cf. induction gs as [| p gs IH]; intros cf; simpl; [done |].
  apply (IH (remove_group_from_index cf p.1 p.2)).
Qed.

Lemma finder_index_without cf G ids gs :
  NoDup ids -> entries G ids gs -> finder_index cf G ->
  (forall i gd, G !! i = Some gd -> nodup_keys gd) ->
  finder_index (foldl (fun cf p => remove_group_from_index cf p.1 p.2) cf gs) (without G ids).
Proof.
  intros Hnd. revert cf G gs. induction Hnd as [| id ids Hid Hnd IH]; intros cf G gs Hgs Hix Hkeys.
  { by destruct Hgs as [->%fmap_nil_inv _]. }
  destruct gs as [| [i g] gs]; [by destruct Hgs |]. assert (i = id) as -> by by destruct Hgs as [[= ->] _].
  apply entries_uncons in Hgs as [Hg Hgs]; [| done]. simpl. apply IH; [done | |].
  - eapply finder_index_remove; eauto.
  - intros i gd [_ Hi]%lookup_delete_Some. eauto.
Qed.

(** ** Placing a new group

    In each of the three cases the groups in conflict are replaced by one group
    that has their orders and the new one. *)
Record merged (cf cf' : ConflictFinder) (o : SimulatedOrder) (ids : list nat) (gid : nat)
    (gd : GroupData) (gs : list (nat * GroupData)) : Prop := {
  mg_entries : entries (cf_groups cf) ids gs;
  mg_groups : cf_groups cf' = <[gid := gd]> (without (cf_groups cf) ids);
  mg_fresh : without (cf_groups cf) ids !! gid = None;
  mg_gid : gid = group_counter cf \/ is_Some (cf_groups cf !! gid);
  mg_counter : (group_counter cf <= group_counter cf')%nat /\ (gid < group_counter cf')%nat;
  mg_index : finder_index cf' (cf_groups cf');
  mg_keys : nodup_keys gd;
  mg_covers : covers gd;
  mg_orders : gd_orders gd ≡ₚ o :: (gs ≫= fun p => gd_orders p.2);
  mg_absorbed j : j ∈ gd_conflicting_group_ids gd ->
    (j < group_counter cf')%nat /\ j <> gid /\ without (cf_groups cf) ids !! j = None;
  mg_lost j : j ∈ ids -> j = gid \/ j ∈ gd_conflicting_group_ids gd;
  mg_inherited p : p ∈ gs -> gd_conflicting_group_ids p.2 ⊆ gd_conflicting_group_ids gd;
  mg_next j : (j < group_counter cf')%nat -> (j < group_counter cf)%nat \/ j = gid;
}.

Lemma merged_grouped cf cf' o ids gid gd gs :
  NoDup ids -> merged cf cf' o ids gid gd gs ->
  grouped (cf_groups cf') ≡ₚ o :: grouped (cf_groups cf).
Proof.
  intros Hnd [Hent -> Hfresh _ _ _ _ _ Hord _ _ _ _].
  rewrite grouped_insert by done. rewrite Hord. rewrite (grouped_without _ _ _ Hnd Hent). done.
Qed.

Lemma merged_connected cf cf' o ids gid gd gs :
  finder_inv cf -> merged cf cf' o ids gid gd gs ->
  (forall id g, id ∈ ids -> cf_groups cf !! id = Some g ->
     exists c, c ∈ gd_orders g /\ conflicting c o) ->
  connected (gd_orders gd).
Proof.
  intros Hinv [[Hfst Hent] _ _ _ _ _ _ _ Hord _ _ _ _] Hids. symmetry in Hord.
  eapply connected_perm; [exact Hord |].
  replace (gs ≫= fun p => gd_orders p.2) with (mjoin ((fun p => gd_orders p.2) <$> gs)).
  2: { clear. induction gs; simpl; [done | by f_equal]. }
  apply connected_join. intros l (p & -> & Hp)%list_elem_of_fmap.
  rewrite Forall_forall in Hent. apply Hent in Hp as Hg.
  split; [by eapply fi_connected |]. eapply Hids; [| done]. subst ids. by apply list_elem_of_fmap_2.
Qed.

Lemma merged_inv cf cf' o ids gid gd gs :
  finder_inv cf -> merged cf cf' o ids gid gd gs ->
  (forall id, id ∈ ids <->
     exists g, cf_groups cf !! id = Some g /\ exists c, c ∈ gd_orders g /\ conflicting c o) ->
  finder_inv cf'.
Proof.
  intros Hinv Hm Hids.
  assert (Hcon : connected (gd_orders gd)).
  { eapply merged_connected; [done.. |]. intros id g Hid Hg. apply Hids in Hid as (g' & Hg' & ?). by simplify_eq. }
  destruct Hm as [[Hfst Hent] Hgr Hfresh Hgid [Hle Hlt] Hix Hkeys Hcov Hord Habs Hlost Hinh Hnext].
  assert (Hlook : forall i g, cf_groups cf' !! i = Some g <->
            i = gid /\ g = gd \/ i <> gid /\ i ∉ ids /\ cf_groups cf !! i = Some g).
  { intros i g. rewrite Hgr, lookup_insert_Some, lookup_without. naive_solver. }
  assert (Hnone : forall j, cf_groups cf' !! j = None <-> j <> gid /\ without (cf_groups cf) ids !! j = None).
  { intros j. rewrite Hgr, lookup_insert_None. naive_solver. }
  (* members of the new group and of an old one do not conflict *)
  assert (Hapart : forall j gj a b, j <> gid -> j ∉ ids -> cf_groups cf !! j = Some gj ->
            a ∈ gd_orders gd -> b ∈ gd_orders gj -> ~ conflicting a b).
  { intros j gj a b Hj Hjids Hgj Ha Hb Hab. rewrite Hord in Ha. apply elem_of_cons in Ha as [-> | Ha].
    - apply Hjids, Hids. exists gj. split; [done |]. exists b. split; [done | by symmetry].
    - apply list_elem_of_bind in Ha as ([i g] & Ha & Hi). rewrite Forall_forall in Hent.
      apply Hent in Hi as Hg. simpl in *. assert (i ∈ ids) by (subst ids; by apply (list_elem_of_fmap_2 fst _ _ Hi)).
      eapply (fi_apart _ Hinv i j); eauto. by intros ->. }
  split; [done | | | | | | | |].
  - intros i g [[-> ->] | (_ & _ & Hg)]%Hlook; [done |]. apply (fi_fresh _ Hinv) in Hg. lia.
  - intros i g [[-> ->] | (_ & _ & Hg)]%Hlook; [done |]. by eapply fi_keys.
  - intros i g [[-> ->] | (_ & _ & Hg)]%Hlook; [done |]. by eapply fi_covers.
  - intros i g [[-> ->] | (_ & _ & Hg)]%Hlook; [| by eapply fi_nonempty].
    intros Hnil. rewrite Hnil in Hord. by apply Permutation_nil_cons in Hord.
  - intros i g [[-> ->] | (_ & _ & Hg)]%Hlook; [done |]. by eapply fi_connected.
  - intros i g j [[-> ->] | (_ & _ & Hg)]%Hlook Hj; rewrite Hnone.
    + apply Habs in Hj as (? & ? & ?). done.
    + destruct (fi_absorbed _ Hinv _ _ _ Hg Hj) as [? Hno]. split; [lia |].
      rewrite lookup_without_None. split; [| by right]. intros ->.
      destruct Hgid as [-> | [? ?]]; [lia | congruence].
  - intros j Hj [Hjg Hno]%Hnone. apply Hnext in Hj as [Hj | ->]; [| done].
    apply lookup_without_None in Hno as [Hin | Hno].
    { exists gid, gd. rewrite Hlook. split; [by left |]. by destruct (Hlost j Hin). }
    destruct (fi_lost _ Hinv j Hj Hno) as (i & g & Hg & Hjin). destruct (decide (i ∈ ids)) as [Hi | Hi].
    + exists gid, gd. rewrite Hlook. split; [by left |].
      rewrite <- Hfst in Hi. apply list_elem_of_fmap in Hi as (p & -> & Hp). apply (Hinh p Hp).
      rewrite Forall_forall in Hent. apply Hent in Hp. congruence.
    + exists i, g. rewrite Hlook. split; [| done]. right. split; [| done]. intros ->.
      apply lookup_without_None in Hfresh as [? | ?]; [done | congruence].
  - intros i j gi gj a b [[-> ->] | (? & ? & Hgi)]%Hlook [[-> ->] | (? & ? & Hgj)]%Hlook Hij Ha Hb.
    + done.
    + by apply (Hapart j gj).
    + intros Hab. symmetry in Hab. by apply (Hapart i gi) in Hab.
    + by apply (fi_apart _ Hinv i j gi gj).
Qed.

(** ** Groups only grow

    A group that keeps its id keeps its orders, and an id that is given up is
    not used again. *)
Record grows (cf cf' : ConflictFinder) : Prop := {
  gr_counter : (group_counter cf <= group_counter cf')%nat;
  gr_live i gd' : cf_groups cf' !! i = Some gd' -> (i < group_counter cf)%nat ->
    exists gd, cf_groups cf !! i = Some gd /\ gd_orders gd ⊆+ gd_orders gd';
}.

#[export] Instance grows_preorder : PreOrder grows.
Proof.
  split.
  - intros cf. split; [done |]. eauto.
  - intros cf1 cf2 cf3 [Hc12 Hl12] [Hc23 Hl23]. split; [lia |]. intros i gd' Hi Hlt.
    destruct (Hl23 i gd' Hi) as (gd2 & Hi2 & ?); [lia |].
    destruct (Hl12 i gd2 Hi2 Hlt) as (gd & ? & ?). exists gd. split; [done |]. by etrans.
Qed.

Lemma merged_grows cf cf' o ids gid gd gs : merged cf cf' o ids gid gd gs -> grows cf cf'.
Proof.
  intros [[Hfst Hent] Hgr Hfresh Hgid [Hle _] _ _ _ Hord _ _ _ _]. split; [done |].
  intros i gd'. rewrite Hgr, lookup_insert_Some, lookup_without.
  intros [[<- <-] | (_ & _ & Hi)] Hlt; [| eauto].
  destruct Hgid as [-> | [g Hg]]; [lia |]. exists g. split; [done |]. rewrite Hord.
  apply lookup_without_None in Hfresh as [Hin | ?]; [| congruence]. rewrite <- Hfst in Hin.
  apply list_elem_of_fmap in Hin as ([i g'] & -> & Hp). simpl in *.
  rewrite Forall_forall in Hent. apply Hent in Hp as Hg'. simplify_eq/=.
  apply submseteq_cons. apply list_elem_of_split in Hp as (l1 & l2 & ->).
  rewrite bind_app. simpl. apply submseteq_inserts_l, submseteq_inserts_r. done.
Qed.

Section adding.
Context `{!HashOrder Address} `{!HashOrder SlotKey} `{!HashOrderOk Address} `{!HashOrderOk SlotKey}.

Lemma place_alone cf o tr :
  finder_inv cf -> so_used_state_trace o = Some tr ->
  exists cf' gid gd gs, place_group cf (new_order_group o tr) [] = Some cf' /\
    merged cf cf' o [] gid gd gs /\ cf_orders cf' = cf_orders cf.
Proof.
  intros Hinv Htr. do 4 eexists. split; [done |]. split; [| done].
  assert (Hfresh : cf_groups cf !! group_counter cf = None).
  { apply eq_None_not_Some. intros [g Hg]. apply (fi_fresh _ Hinv) in Hg. lia. }
  split with (gid := group_counter cf) (gs := []) (gd := new_order_group o tr); simpl; try done.
  - by left.
  - lia.
  - apply index_with_groups, finder_index_add; [| apply new_group_keys | done | congruence].
    apply index_next_group, Hinv.
  - apply new_group_keys.
  - by apply new_group_covers.
  - set_solver.
  - set_solver.
  - lia.
Qed.

Lemma place_single cf o tr id :
  finder_inv cf -> so_used_state_trace o = Some tr -> is_Some (cf_groups cf !! id) ->
  exists cf' gid gd gs, place_group cf (new_order_group o tr) [id] = Some cf' /\
    merged cf cf' o [id] gid gd gs /\ cf_orders cf' = cf_orders cf.
Proof.
  intros Hinv Htr [g Hg]. unfold place_group. rewrite Hg. do 4 eexists. split; [done |]. split; [| done].
  set (c := combine_groups [new_order_group o tr; g] []).
  split with (gid := id) (gs := [(id, g)]) (gd := c); simpl.
  - split; [done |]. by constructor.
  - done.
  - apply lookup_delete_eq.
  - right. by eexists.
  - split; [done |]. by apply (fi_fresh _ Hinv) in Hg.
  - rewrite insert_delete_eq. apply index_with_groups, finder_index_add.
    + apply index_with_groups, Hinv.
    + apply nodup_keys_combine.
    + done.
    + intros g' Hg'. simplify_eq. apply sub_keys_combine. set_solver.
  - apply nodup_keys_combine.
  - apply covers_combine. intros g' [-> | ->%list_elem_of_singleton]%elem_of_cons; [by apply new_group_covers | by eapply fi_covers].
  - by rewrite app_nil_r.
  - intros j. rewrite !union_empty_l_L, union_empty_r_L. intros Hj.
    destruct (fi_absorbed _ Hinv _ _ _ Hg Hj) as [? Hno]. split; [done |]. split; [congruence |].
    rewrite lookup_delete_None. by right.
  - intros j ->%list_elem_of_singleton. by left.
  - intros p ->%list_elem_of_singleton. simpl. set_solver.
  - by left.
Qed.

Lemma place_many cf o tr ids :
  finder_inv cf -> so_used_state_trace o = Some tr -> NoDup ids -> (2 <= length ids)%nat ->
  (forall id, id ∈ ids -> is_Some (cf_groups cf !! id)) ->
  exists cf' gid gd gs, place_group cf (new_order_group o tr) ids = Some cf' /\
    merged cf cf' o ids gid gd gs /\ cf_orders cf' = cf_orders cf.
Proof.
  intros Hinv Htr Hnd Hlen Hids. destruct (remove_groups_spec _ _ Hnd Hids) as (gs & Hrem & Hent).
  unfold place_group. rewrite Hrem. destruct ids as [| i1 [| i2 ids]]; simpl in Hlen; [lia.. |].
  set (ids' := i1 :: i2 :: ids) in *. clearbody ids'.
  set (cf1 := with_groups cf (without (cf_groups cf) ids')).
  pose proof (remove_from_index_fold cf1 gs) as (Hcnt & Hgr & Hord). cbv zeta in Hcnt, Hgr, Hord.
  assert (Hix : finder_index (foldl (fun cf p => remove_group_from_index cf p.1 p.2) cf1 gs)
                  (without (cf_groups cf) ids')).
  { apply finder_index_without; [done.. | apply index_with_groups, Hinv | by apply (fi_keys _ Hinv)]. }
  set (cf2 := foldl _ cf1 gs) in *. clearbody cf2.
  do 4 eexists. split; [done |]. split; [| simpl; by rewrite Hord].
  set (c := combine_groups (gs.*2 ++ [new_order_group o tr]) gs.*1).
  assert (Hfresh : cf_groups cf !! group_counter cf = None).
  { apply eq_None_not_Some. intros [g Hg]. apply (fi_fresh _ Hinv) in Hg. lia. }
  assert (Hwithout : without (cf_groups cf) ids' !! group_counter cf = None).
  { apply lookup_without_None. by right. }
  rewrite Hcnt. simpl. destruct Hent as [Hfst Hent].
  assert (Hgs : forall g, g ∈ gs.*2 -> exists i, i ∈ ids' /\ cf_groups cf !! i = Some g).
  { intros g (p & -> & Hp)%list_elem_of_fmap. rewrite Forall_forall in Hent. exists p.1.
    split; [| by apply Hent]. subst ids'. by apply list_elem_of_fmap_2. }
  split with (gid := group_counter cf) (gs := gs) (gd := c); simpl.
  - by split.
  - by rewrite Hgr.
  - done.
  - by left.
  - rewrite Hcnt. simpl. lia.
  - rewrite Hgr. simpl. apply index_with_groups, finder_index_add.
    + by apply index_next_group.
    + apply nodup_keys_combine.
    + done.
    + congruence.
  - apply nodup_keys_combine.
  - apply covers_combine. intros g [Hg | ->%list_elem_of_singleton]%elem_of_app; [| by apply new_group_covers].
    apply Hgs in Hg as (i & _ & Hg). by eapply fi_covers.
  - rewrite bind_app, list_fmap_bind. simpl. rewrite app_nil_r || idtac. by rewrite Permutation_app_comm.
  - intros j Hj. rewrite Hcnt. simpl. rewrite lookup_without_None.
    apply elem_of_union in Hj as [Hj | Hj].
    + rewrite elem_of_list_to_set, Hfst in Hj. destruct (Hids j Hj) as [g Hg].
      apply (fi_fresh _ Hinv) in Hg. repeat split; [lia | lia |]. by left.
    + rewrite fmap_app, union_list_app_L in Hj. simpl in Hj. rewrite !union_empty_r_L in Hj.
      apply elem_of_union_list in Hj as (S & (g & -> & Hg)%list_elem_of_fmap & Hj).
      apply Hgs in Hg as (i & _ & Hg). destruct (fi_absorbed _ Hinv _ _ _ Hg Hj) as [? ?].
      repeat split; [lia | lia |]. by right.
  - intros j Hj. right. rewrite Hfst. set_solver.
  - intros p Hp j Hj. apply elem_of_union. right. apply elem_of_union_list.
    exists (gd_conflicting_group_ids p.2). split; [| done]. apply list_elem_of_fmap_2, elem_of_app.
    left. by apply list_elem_of_fmap_2.
  - rewrite Hcnt. simpl. lia.
Qed.
Lemma place_group_spec cf o tr :
  finder_inv cf -> so_used_state_trace o = Some tr ->
  exists cf', place_group cf (new_order_group o tr) (all_groups_in_conflict cf tr) = Some cf' /\
    finder_inv cf' /\ grows cf cf' /\
    grouped (cf_groups cf') ≡ₚ o :: grouped (cf_groups cf) /\ cf_orders cf' = cf_orders cf.
Proof.
  intros Hinv Htr.
  assert (Hnd : NoDup (all_groups_in_conflict cf tr)) by (apply NoDup_sort_dedup; apply _).
  pose proof (fun id => groups_in_conflict_spec cf _ o tr id (fi_index _ Hinv) (fi_covers _ Hinv) Htr) as Hids.
  set (ids := all_groups_in_conflict cf tr) in *. clearbody ids.
  assert (Hsome : forall id, id ∈ ids -> is_Some (cf_groups cf !! id)).
  { intros id (g & ? & _)%Hids. by eexists. }
  assert (exists cf' gid gd gs, place_group cf (new_order_group o tr) ids = Some cf' /\
            merged cf cf' o ids gid gd gs /\ cf_orders cf' = cf_orders cf)
    as (cf' & gid & gd & gs & Hp & Hm & Ho).
  { destruct ids as [| id [| id2 ids]]; [by apply place_alone | |].
    - apply place_single; [done.. |]. apply Hsome. left.
    - apply place_many; [done.. | simpl; lia | done]. }
  exists cf'. split; [done |]. split; [by eapply merged_inv |]. split; [by eapply merged_grows |].
  split; [by eapply merged_grouped | done].
Qed.

(** The orders that are grouped: the first with each id, unless it has no trace. *)
Fixpoint accepted (seen : gset OrderId) (os : list SimulatedOrder) : list SimulatedOrder :=
  match os with
  | [] => []
  | o :: os =>
      if decide (so_id o ∈ seen) then accepted seen os
      else match so_used_state_trace o with
           | Some _ => o :: accepted ({[so_id o]} ∪ seen) os
           | None => accepted ({[so_id o]} ∪ seen) os
           end
  end.

Lemma add_orders_spec cf os :
  finder_inv cf ->
  exists cf', add_orders cf os = Some cf' /\ finder_inv cf' /\ grows cf cf' /\
    grouped (cf_groups cf') ≡ₚ accepted (cf_orders cf) os ++ grouped (cf_groups cf).
Proof.
  revert cf. induction os as [| o os IH]; intros cf Hinv; simpl; [by eexists |].
  unfold add_order. case_decide as Hseen; [by apply IH |].
  assert (Hmark : grows cf (mark_order cf (so_id o))) by (split; [done | eauto]).
  apply (finder_inv_mark _ (so_id o)) in Hinv. destruct (so_used_state_trace o) as [tr |] eqn:Htr.
  - destruct (place_group_spec _ o tr Hinv Htr) as (cf1 & -> & Hinv1 & Hg1 & Hgr1 & Ho1).
    destruct (IH _ Hinv1) as (cf' & -> & Hinv' & Hg' & Hgr'). exists cf'. split; [done |].
    split; [done |]. split; [by etrans; [| etrans] |].
    rewrite Hgr', Hgr1, Ho1. simpl. by rewrite Permutation_middle.
  - destruct (IH _ Hinv) as (cf' & -> & Hinv' & Hg' & Hgr'). exists cf'.
    split; [done |]. split; [done |]. split; [by etrans | done].
Qed.
End adding.

(** Only orders that were added are marked. *)
Lemma add_order_ids `{!HashOrder Address} `{!HashOrder SlotKey} cf o cf' :
  add_order cf o = Some cf' -> cf_orders cf' = {[so_id o]} ∪ cf_orders cf.
Proof.
  unfold add_order. case_decide as Hin; [intros [= <-]; set_solver |].
  destruct (so_used_state_trace o) as [tr |]; [| by intros [= <-]]. unfold place_group.
  destruct (all_groups_in_conflict _ tr) as [| i [| j ids]]; [by intros [= <-] | |].
  - destruct (cf_groups _ !! i); [by intros [= <-] | done].
  - destruct (remove_groups _ _) as [[G gs] |]; [| done]. intros [= <-]. simpl.
    by destruct (remove_from_index_fold (with_groups (mark_order cf (so_id o)) G) gs) as (_ & _ & ->).
Qed.

Lemma add_orders_ids `{!HashOrder Address} `{!HashOrder SlotKey} os cf cf' :
  add_orders cf os = Some cf' -> cf_orders cf' = list_to_set (so_id <$> os) ∪ cf_orders cf.
Proof.
  revert cf. induction os as [| o os IH]; intros cf; simpl; [intros [= <-]; set_solver |].
  destruct (add_order cf o) as [cf1 |] eqn:Ho; [| done]. intros ->%IH.
  rewrite (add_order_ids _ _ _ Ho). set_solver.
Qed.

Lemma accepted_subset seen os o : o ∈ accepted seen os -> o ∈ os.
Proof.
  revert seen. induction os as [| o' os IH]; intros seen; simpl; [done |].
  case_decide; [intros Hin; right; by eapply IH |].
  destruct (so_used_state_trace o'); [| intros Hin; right; by eapply IH].
  intros [-> | Hin]%elem_of_cons; [left | right; by eapply IH].
Qed.

Lemma elem_of_order_groups cf g :
  g ∈ get_order_groups cf <->
  exists i gd, cf_groups cf !! i = Some gd /\
    g = {| cg_id := i; cg_orders := gd_orders gd; cg_conflicting_group_ids := gd_conflicting_group_ids gd |}.
Proof.
  unfold get_order_groups. rewrite list_elem_of_fmap. setoid_rewrite (merge_sort_Permutation group_id_le).
  split.
  - intros ([i gd] & -> & Hi%elem_of_map_to_list). eauto.
  - intros (i & gd & Hi & ->). exists (i, gd). split; [done |]. by apply elem_of_map_to_list.
Qed.

Lemma order_groups_grouped cf : get_order_groups cf ≫= cg_orders ≡ₚ grouped (cf_groups cf).
Proof.
  unfold get_order_groups, grouped. rewrite list_fmap_bind. unfold compose. simpl.
  by rewrite (merge_sort_Permutation group_id_le).
Qed.

(** Chains of conflicts do not leave a group. *)
Lemma component_closed cf i gd a b :
  finder_inv cf -> cf_groups cf !! i = Some gd -> a ∈ gd_orders gd ->
  rtc (linked (grouped (cf_groups cf))) a b -> b ∈ gd_orders gd.
Proof.
  intros Hinv Hi Ha Hrtc. induction Hrtc as [a | a c b (_ & Hc & Hac) _ IH]; [done |].
  apply IH. apply elem_of_grouped in Hc as (j & gj & Hj & Hc).
  destruct (decide (i = j)) as [<- | Hij]; [by simplify_eq |].
  by destruct (fi_apart _ Hinv i j gd gj a c).
Qed.

(** C9. Whatever orders are added to a conflict finder, it does not panic, and its
    groups partition the accepted orders (those with a used state trace and
    a new id) into the connected components of the conflict relation: two
    orders share a group exactly when a chain of conflicting orders links
    them. No current group is listed as absorbed by another one. *)
Theorem conflict_groups_are_components `{!HashOrder Address} `{!HashOrder SlotKey}
    `{!HashOrderOk Address} `{!HashOrderOk SlotKey} (os : list SimulatedOrder) :
  exists cf, add_orders ConflictFinder_new os = Some cf /\
    get_order_groups cf ≫= cg_orders ≡ₚ accepted ∅ os /\
    (forall g, g ∈ get_order_groups cf -> cg_orders g <> [] /\
       forall g', g' ∈ get_order_groups cf -> cg_id g' ∉ cg_conflicting_group_ids g) /\
    forall a b, a ∈ accepted ∅ os -> b ∈ accepted ∅ os ->
      (exists g, g ∈ get_order_groups cf /\ a ∈ cg_orders g /\ b ∈ cg_orders g) <->
      rtc (linked (accepted ∅ os)) a b.
Proof.
  destruct (add_orders_spec ConflictFinder_new os finder_inv_new) as (cf & Hadd & Hinv & _ & Hgr).
  simpl in Hgr. rewrite app_nil_r in Hgr. exists cf. split; [done |].
  split; [by rewrite order_groups_grouped |]. split.
  { intros g (i & gd & Hi & ->)%elem_of_order_groups. split; [by eapply fi_nonempty |].
    intros g' (j & gd' & Hj & ->)%elem_of_order_groups. simpl. intros Hin.
    destruct (fi_absorbed _ Hinv _ _ _ Hi Hin). congruence. }
  intros a b Ha Hb. split.
  - intros (g & (i & gd & Hi & ->)%elem_of_order_groups & Ha' & Hb'). simpl in *.
    eapply linked_mono, fi_connected; eauto. intros x Hx. rewrite <- Hgr. apply elem_of_grouped. eauto.
  - intros Hrtc. rewrite <- Hgr in Ha. apply elem_of_grouped in Ha as (i & gd & Hi & Ha).
    eexists. split; [apply elem_of_order_groups; eauto |]. simpl. split; [done |].
    eapply component_closed; [done.. |]. eapply linked_mono; [| done]. intros x. by rewrite Hgr.
Qed.
