(* ===== verification/ConflictTasks.v ===== *)
(** * Tasks for conflict groups and their results (parallel_builder/task.rs,
      conflict_task_generator.rs, results_aggregator.rs)

    The generator turns the groups of the finder into tasks in a queue that
    worker threads empty; the aggregator keeps the best result of each group. *)

From S2P Require Import Prelude Transactions Bundles Orders SimTypes ConflictGroups.

(** ** Tasks *)
Inductive TaskPriority := Low | Medium | High.
#[export] Instance TaskPriority_eq_dec : EqDecision TaskPriority.
Proof. solve_decision. Defined.

Definition TaskPriority_display (p : TaskPriority) : string :=
  match p with Low => "Low" | Medium => "Medium" | High => "High" end.

Inductive Algorithm :=
| Greedy
| ReverseGreedy
| Length
| AllPermutations
| Random (seed : U64) (count : nat).

Record ConflictTask := {
  ct_group_idx : nat;
  ct_algorithm : Algorithm;
  ct_priority : TaskPriority;
  ct_group : ConflictGroup;
  ct_created_at : Z;
}.

Definition priority_rank (p : TaskPriority) : Z :=
  match p with Low => 0 | Medium => 1 | High => 2 end.

(** [Ord]: the higher priority first, then the earlier task. *)
Definition ConflictTask_cmp (a b : ConflictTask) : comparison :=
  match priority_rank (ct_priority b) ?= priority_rank (ct_priority a) with
  | Eq => ct_created_at a ?= ct_created_at b
  | c => c
  end.

Definition MAX_LENGTH_FOR_ALL_PERMUTATIONS : nat := 3.
Definition NUMBER_OF_RANDOM_TASKS : nat := 50.
Definition THRESHOLD_FOR_SIGNIFICANT_CHANGE : Z := 20.
Definition NUMBER_OF_TOP_ORDERS_TO_CONSIDER_FOR_SIGNIFICANT_CHANGE : nat := 10.

Definition get_tasks_for_group (group : ConflictGroup) (priority : TaskPriority)
    (safe_sorting_only : bool) (created_at : Z) : list ConflictTask :=
  let task algorithm priority :=
    {| ct_group_idx := cg_id group; ct_algorithm := algorithm; ct_priority := priority;
       ct_group := group; ct_created_at := created_at |} in
  [task Greedy priority] ++
  if (length (cg_orders group) <=? MAX_LENGTH_FOR_ALL_PERMUTATIONS)%nat && negb safe_sorting_only
  then [task AllPermutations priority]
  else
    (if negb safe_sorting_only
     then [task (Random (wrap 64 (Z.of_nat (cg_id group))) NUMBER_OF_RANDOM_TASKS) Low] else []) ++
    [task Length Low] ++
    (if negb safe_sorting_only then [task ReverseGreedy Low] else []).

(** ** The generator *)
Abbreviation ConflictResolutionResultPerGroup := (nat * (ResolutionResult * ConflictGroup))%type.

(** The queue is first in, first out; [tg_sent] is what was sent to the aggregator. *)
Record ConflictTaskGenerator := {
  tg_existing_groups : gmap nat ConflictGroup;
  tg_task_queue : list ConflictTask;
  tg_sent : list ConflictResolutionResultPerGroup;
  tg_safe_sorting_only : bool;
}.

Definition ConflictTaskGenerator_new (safe_sorting_only : bool) : ConflictTaskGenerator :=
  {| tg_existing_groups := ∅; tg_task_queue := []; tg_sent := [];
     tg_safe_sorting_only := safe_sorting_only |}.

Definition set_existing (g : ConflictTaskGenerator) (groups : gmap nat ConflictGroup)
  : ConflictTaskGenerator :=
  {| tg_existing_groups := groups; tg_task_queue := tg_task_queue g; tg_sent := tg_sent g;
     tg_safe_sorting_only := tg_safe_sorting_only g |}.
Definition set_queue (g : ConflictTaskGenerator) (queue : list ConflictTask) : ConflictTaskGenerator :=
  {| tg_existing_groups := tg_existing_groups g; tg_task_queue := queue; tg_sent := tg_sent g;
     tg_safe_sorting_only := tg_safe_sorting_only g |}.

(** Tasks of other groups are put aside and back, in the order they were. *)
Definition cancel_tasks_for_group (g : ConflictTaskGenerator) (group_id : nat)
  : ConflictTaskGenerator :=
  set_queue g (filter (fun t => ct_group_idx t <> group_id) (tg_task_queue g)).

Definition create_new_tasks (now : Z) (g : ConflictTaskGenerator) (new_group : ConflictGroup)
    (priority : TaskPriority) : ConflictTaskGenerator :=
  set_queue g (tg_task_queue g ++
    get_tasks_for_group new_group priority (tg_safe_sorting_only g) now).

Definition update_tasks (now : Z) (g : ConflictTaskGenerator) (group_id : nat)
    (new_group : ConflictGroup) (priority : TaskPriority) : ConflictTaskGenerator :=
  create_new_tasks now (cancel_tasks_for_group g group_id) new_group priority.

Definition order_profit (o : SimulatedOrder) : U256 :=
  coinbase_profit (full_profit_info (so_sim_value o)).

Definition sum_top_n_profits (orders : list SimulatedOrder) (n : nat) : U256 :=
  foldl u256_add 0 (take n (merge_sort Z.ge (order_profit <$> orders))).

Definition has_significant_changes (new_group existing_group : ConflictGroup) : bool :=
  let n := NUMBER_OF_TOP_ORDERS_TO_CONSIDER_FOR_SIGNIFICANT_CHANGE in
  let new_top_profit := sum_top_n_profits (cg_orders new_group) n in
  let existing_top_profit := sum_top_n_profits (cg_orders existing_group) n in
  if decide (new_top_profit = existing_top_profit) then false
  else if decide (new_top_profit > existing_top_profit) then
    let threshold := u256_mul existing_top_profit THRESHOLD_FOR_SIGNIFICANT_CHANGE `div` 100 in
    bool_decide (u256_sub new_top_profit existing_top_profit > threshold)
  else false.

Definition group_has_changed (new_group existing_group : ConflictGroup) : bool :=
  negb (length (cg_orders new_group) =? length (cg_orders existing_group))%nat
  || existsb (fun p => negb (sim_order_eqb p.1 p.2))
       (zip (cg_orders new_group) (cg_orders existing_group)).

Definition process_multi_order_group (now : Z) (g : ConflictTaskGenerator) (group_id : nat)
    (new_group : ConflictGroup) : ConflictTaskGenerator :=
  let priority :=
    match tg_existing_groups g !! group_id with
    | Some existing_group =>
        if has_significant_changes new_group existing_group then High else Medium
    | None => High
    end in
  if bool_decide (group_id ∈ dom (tg_existing_groups g))
  then update_tasks now g group_id new_group priority
  else create_new_tasks now g new_group priority.

(** The order of a group of one needs no task; [None] is the index out of range. *)
Definition process_single_order_group (g : ConflictTaskGenerator) (group_id : nat)
    (group : ConflictGroup) : option ConflictTaskGenerator :=
  let! order := head (cg_orders group) in
  let sequence_of_orders :=
    {| rr_total_profit := order_profit order; rr_sequence_of_orders := [(O, order_profit order)] |} in
  Some {| tg_existing_groups := tg_existing_groups g; tg_task_queue := tg_task_queue g;
          tg_sent := tg_sent g ++ [(group_id, (sequence_of_orders, group))];
          tg_safe_sorting_only := tg_safe_sorting_only g |}.

Definition process_single_group (now : Z) (g : ConflictTaskGenerator) (new_group : ConflictGroup)
  : option ConflictTaskGenerator :=
  let group_id := cg_id new_group in
  let should_process :=
    match tg_existing_groups g !! group_id with
    | Some existing_group => group_has_changed new_group existing_group
    | None => true
    end in
  if should_process then
    let! g := if decide (length (cg_orders new_group) = 1%nat)
              then process_single_order_group g group_id new_group
              else Some (process_multi_order_group now g group_id new_group) in
    Some (set_existing g (<[group_id := new_group]> (tg_existing_groups g)))
  else Some g.

(** The known groups that a group has absorbed, in any order. *)
Definition subset_ids (g : ConflictTaskGenerator) (group : ConflictGroup) : list nat :=
  elements (dom (tg_existing_groups g) ∩ cg_conflicting_group_ids group).

Definition add_processed_groups (g : ConflictTaskGenerator) (new_group : ConflictGroup)
    (processed_groups : gset nat) : gset nat :=
  {[cg_id new_group]} ∪ (list_to_set (subset_ids g new_group) ∪ processed_groups).

Definition remove_conflicting_subset_groups (g : ConflictTaskGenerator)
    (superset_group : ConflictGroup) : ConflictTaskGenerator :=
  foldl (fun g id =>
           cancel_tasks_for_group (set_existing g (delete id (tg_existing_groups g))) id)
    g (subset_ids g superset_group).

(** The clock is read once per created batch of tasks; it is an argument. *)
Fixpoint process_sorted_groups (now : Z) (g : ConflictTaskGenerator) (processed_groups : gset nat)
    (groups : list ConflictGroup) : option ConflictTaskGenerator :=
  match groups with
  | [] => Some g
  | new_group :: groups =>
      if bool_decide (cg_id new_group ∈ processed_groups)
      then process_sorted_groups now g processed_groups groups
      else
        let! g := process_single_group now g new_group in
        let processed_groups := add_processed_groups g new_group processed_groups in
        let g := if bool_decide (cg_conflicting_group_ids new_group <> ∅)
                 then remove_conflicting_subset_groups g new_group else g in
        process_sorted_groups now g processed_groups groups
  end.

(** By the number of orders, the largest first. *)
Definition group_size_ge (a b : ConflictGroup) : Prop :=
  (length (cg_orders b) <= length (cg_orders a))%nat.
#[export] Instance group_size_ge_dec : RelDecision group_size_ge.
Proof. intros a b. unfold group_size_ge. apply _. Defined.

Definition process_groups (now : Z) (g : ConflictTaskGenerator) (new_groups : list ConflictGroup)
  : option ConflictTaskGenerator :=
  process_sorted_groups now g ∅ (merge_sort group_size_ge new_groups).

(** ** The best results *)
Record BestResults := {
  bs_data : gmap nat (ResolutionResult * ConflictGroup);
  bs_version : U64;
}.

Definition BestResults_new : BestResults := {| bs_data := ∅; bs_version := 0 |}.

Definition increment_version (b : BestResults) : BestResults :=
  {| bs_data := bs_data b; bs_version := u64_add (bs_version b) 1 |}.

Definition get_number_of_orders (b : BestResults) : nat :=
  sum_list ((fun p => length (cg_orders (p.2).2)) <$> map_to_list (bs_data b)).

Section aggregator.
Context `{!HashOrder nat}.

Definition get_results_and_version (b : BestResults) : list (ResolutionResult * ConflictGroup) * U64 :=
  (omap (fun id => bs_data b !! id) (hash_order (dom (bs_data b))), bs_version b).

(** The conflicting groups that the new result beats; [None] when it does not
    beat one that has a result. *)
Fixpoint conflicting_groups_to_remove (data : gmap nat (ResolutionResult * ConflictGroup))
    (profit : U256) (ids : list nat) (to_remove : list nat) : option (list nat) :=
  match ids with
  | [] => Some to_remove
  | id :: ids =>
      match data !! id with
      | Some (existing, _) =>
          if decide (profit > rr_total_profit existing)
          then conflicting_groups_to_remove data profit ids (to_remove ++ [id]) else None
      | None => conflicting_groups_to_remove data profit ids to_remove
      end
  end.

(** The new results, whether the result was taken, and the profit it replaced. *)
Definition update_best_result (b : BestResults) (group_id : nat)
    (sequence_of_orders : ResolutionResult) (order_group : ConflictGroup)
  : BestResults * (bool * U256) :=
  match conflicting_groups_to_remove (bs_data b) (rr_total_profit sequence_of_orders)
          (hash_order (cg_conflicting_group_ids order_group)) [] with
  | None => (b, (false, 0))
  | Some to_remove =>
      let '(data, updated, old_profit) :=
        match bs_data b !! group_id with
        | None => (<[group_id := (sequence_of_orders, order_group)]> (bs_data b), true, 0)
        | Some (existing, _) =>
            if decide (rr_total_profit sequence_of_orders > rr_total_profit existing)
            then (<[group_id := (sequence_of_orders, order_group)]> (bs_data b), true,
                  rr_total_profit existing)
            else (bs_data b, false, 0)
        end in
      let data := foldl (fun d id => delete id d) data to_remove in
      let b := {| bs_data := data; bs_version := bs_version b |} in
      (if updated || negb (bool_decide (to_remove = [])) then increment_version b else b,
       (updated, old_profit))
  end.

(** The messages of the channel, in the order of arrival. *)
Definition process_updates (b : BestResults) (messages : list ConflictResolutionResultPerGroup)
  : BestResults :=
  foldl (fun b m => (update_best_result b m.1 (m.2).1 (m.2).2).1) b messages.
End aggregator.
