(* ===== verification/ConflictTasksSpec.v ===== *)
(** * The task generator follows the finder

    After every intake the generator knows exactly the groups of the finder, a
    task in the queue is for the present version of its group, and every group
    that is new or changed has been scheduled. *)

From S2P Require Import Prelude Transactions Bundles Orders SimTypes ConflictGroups ConflictIndex ConflictGroupsSpec ConflictTasks.

(** ** The tasks of a group *)
Lemma tasks_of_group g p safe now t :
  t ∈ get_tasks_for_group g p safe now -> ct_group_idx t = cg_id g /\ ct_group t = g.
Proof.
  unfold get_tasks_for_group. destruct (_ && _), safe; simpl; rewrite ?elem_of_cons;
    intros H; repeat (destruct H as [-> | H]; [done |]); by apply elem_of_nil in H.
Qed.

Lemma greedy_task g p safe now :
  exists t, t ∈ get_tasks_for_group g p safe now /\ ct_group_idx t = cg_id g /\ ct_group t = g /\
    ct_algorithm t = Greedy.
Proof. eexists. split; [left |]. done. Qed.

(** ** What holds while groups are processed *)
Definition task_ok (g : ConflictTaskGenerator) (t : ConflictTask) : Prop :=
  tg_existing_groups g !! ct_group_idx t = Some (ct_group t) /\
  (2 <= length (cg_orders (ct_group t)))%nat.

Definition tasks_ok (g : ConflictTaskGenerator) : Prop := forall t, t ∈ tg_task_queue g -> task_ok g t.

(** A group of the new list, seen before with no more orders than it has now. *)
Definition seen_smaller (g : ConflictTaskGenerator) (n : ConflictGroup) : Prop :=
  forall eg, tg_existing_groups g !! cg_id n = Some eg ->
    (length (cg_orders eg) <= length (cg_orders n))%nat.

(** It is known as it is now. *)
Definition known (g : ConflictTaskGenerator) (n : ConflictGroup) : Prop :=
  exists eg, tg_existing_groups g !! cg_id n = Some eg /\ group_has_changed n eg = false.

(** It was not known to [g0] as it is now, and [g] has it scheduled. *)
Definition scheduled (g0 g : ConflictTaskGenerator) (n : ConflictGroup) : Prop :=
  known g0 n \/
  if decide (length (cg_orders n) = 1%nat)
  then exists r, (cg_id n, (r, n)) ∈ tg_sent g
  else exists t, t ∈ tg_task_queue g /\ ct_group_idx t = cg_id n /\ ct_group t = n /\
         ct_algorithm t = Greedy.

Lemma group_unchanged n : (forall o, sim_order_eqb o o = true) -> group_has_changed n n = false.
Proof.
  intros Hrefl. unfold group_has_changed. rewrite Nat.eqb_refl. simpl.
  induction (cg_orders n) as [| o l IH]; simpl; [done |]. by rewrite Hrefl, IH.
Qed.

(** ** Equality of orders is reflexive *)
Lemma list_eqb_refl {A} (eqb : A -> A -> bool) l :
  Forall (fun x => eqb x x = true) l -> list_eqb eqb l l = true.
Proof. induction 1 as [| x l Hx _ IH]; simpl; [done |]. by rewrite Hx. Qed.

Lemma tx_eqb_refl t : tx_eqb t t = true.
Proof. unfold tx_eqb. by rewrite !bool_decide_eq_true_2. Qed.
Lemma bundle_eqb_refl b : bundle_eqb b b = true.
Proof.
  unfold bundle_eqb. rewrite !bool_decide_eq_true_2 by done.
  rewrite list_eqb_refl; [done |]. apply Forall_true. apply tx_eqb_refl.
Qed.

Lemma inner_eqb_refl : forall b, inner_eqb b b = true.
Proof.
  fix IH 1. intros [body refund config skip orig]. simpl.
  rewrite !bool_decide_eq_true_2, !andb_true_r by done.
  induction body as [| [t | i] body IHb]; simpl; [done | |]; rewrite IHb, andb_true_r.
  - unfold sbundle_tx_eqb. by rewrite tx_eqb_refl, bool_decide_eq_true_2.
  - apply IH.
Qed.

Lemma order_eqb_refl : forall o, order_eqb o o = true.
Proof.
  fix IH 1. intros [b | t | [hash block max inner len signer data originals meta]]; simpl.
  - apply bundle_eqb_refl.
  - apply tx_eqb_refl.
  - rewrite !bool_decide_eq_true_2, inner_eqb_refl by done. simpl.
    induction originals as [| o os IHo]; simpl; [done |]. by rewrite IHo, IH.
Qed.

Lemma sim_order_eqb_refl o : sim_order_eqb o o = true.
Proof. unfold sim_order_eqb. by rewrite order_eqb_refl, !bool_decide_eq_true_2. Qed.

(** ** One group *)
Lemma single_order_spec g n :
  cg_orders n <> [] -> exists g', process_single_order_group g (cg_id n) n = Some g' /\
    tg_existing_groups g' = tg_existing_groups g /\ tg_task_queue g' = tg_task_queue g /\
    exists r, tg_sent g' = tg_sent g ++ [(cg_id n, (r, n))].
Proof.
  intros Hn. unfold process_single_order_group. destruct (cg_orders n) as [| o os]; [done |]. simpl.
  eexists. split; [done |]. simpl. eauto.
Qed.

Lemma multi_order_spec now g n :
  let g' := process_multi_order_group now g (cg_id n) n in
  tg_existing_groups g' = tg_existing_groups g /\ tg_sent g' = tg_sent g /\
  (forall t, t ∈ tg_task_queue g' ->
     t ∈ tg_task_queue g /\ (ct_group_idx t <> cg_id n \/ tg_existing_groups g !! cg_id n = None) \/
     ct_group_idx t = cg_id n /\ ct_group t = n) /\
  (forall t, t ∈ tg_task_queue g -> ct_group_idx t <> cg_id n -> t ∈ tg_task_queue g') /\
  (exists t, t ∈ tg_task_queue g' /\ ct_group_idx t = cg_id n /\ ct_group t = n /\
     ct_algorithm t = Greedy).
Proof.
  unfold process_multi_order_group. set (p := match _ with Some _ => _ | None => _ end).
  destruct (greedy_task n p (tg_safe_sorting_only g) now) as (t0 & Ht0 & Hg0).
  case_bool_decide as Hin; simpl; (split; [done |]); (split; [done |]);
    setoid_rewrite elem_of_app; [setoid_rewrite list_elem_of_filter |].
  - split; [| split; [tauto |]]; [| by exists t0; split; [right |]].
    intros t [[? ?] | Ht]; [by left; split; [| left] |]. right. by eapply tasks_of_group.
  - apply not_elem_of_dom in Hin. split; [| split; [tauto |]]; [| by exists t0; split; [right |]].
    intros t [? | Ht]; [by left; split; [| right] |]. right. by eapply tasks_of_group.
Qed.

(** What processing one group leaves alone. *)
Record only_group (g g' : ConflictTaskGenerator) (id : nat) : Prop := {
  og_existing i : i <> id -> tg_existing_groups g' !! i = tg_existing_groups g !! i;
  og_tasks t : t ∈ tg_task_queue g -> ct_group_idx t <> id -> t ∈ tg_task_queue g';
  og_sent m : m ∈ tg_sent g -> m ∈ tg_sent g';
}.

Lemma process_single_group_spec now g n :
  tasks_ok g -> seen_smaller g n -> cg_orders n <> [] ->
  exists g', process_single_group now g n = Some g' /\ tasks_ok g' /\ known g' n /\
    scheduled g g' n /\ only_group g g' (cg_id n).
Proof.
  intros Hok Hsmall Hne. unfold process_single_group.
  destruct (match tg_existing_groups g !! cg_id n with Some eg => _ | None => _ end) eqn:Hch.
  2: { exists g. split; [done |]. split; [done |].
       assert (known g n) by (unfold known; destruct (tg_existing_groups g !! cg_id n); [eauto | done]).
       split; [done |]. split; [by left | by split]. }
  assert (Hknown : forall g', tg_existing_groups g' !! cg_id n = Some n -> known g' n).
  { intros g' Hg'. exists n. split; [done | apply group_unchanged, sim_order_eqb_refl]. }
  destruct (decide (length (cg_orders n) = 1%nat)) as [H1 | H1].
  - destruct (single_order_spec g n Hne) as (g1 & -> & Hex & Hq & r & Hs). eexists. split; [done |].
    unfold set_existing. rewrite Hex, Hq, Hs.
    split; [| split; [| split]].
    + intros t Ht. simpl in Ht. destruct (Hok t Ht) as [Hgt Hlen]. split; [| done]. simpl.
      rewrite lookup_insert_ne; [done |]. intros Heq. rewrite <- Heq in Hgt.
      apply Hsmall in Hgt. lia.
    + apply Hknown. apply lookup_insert_eq.
    + right. rewrite decide_True by done. exists r. simpl. set_solver.
    + split; simpl; intros; [by rewrite lookup_insert_ne | done | set_solver].
  - assert (H2 : (2 <= length (cg_orders n))%nat).
    { destruct (cg_orders n) as [| ? [| ? ?]]; simpl in *; [done.. | lia]. }
    destruct (multi_order_spec now g n) as (Hex & Hs & Hq & Hq' & Hg).
    set (g1 := process_multi_order_group now g (cg_id n) n) in *. clearbody g1.
    eexists. split; [done |]. split; [| split; [| split]].
    + intros t Ht. simpl in Ht. unfold task_ok. simpl. rewrite Hex.
      apply Hq in Ht as [[Ht Hid] | [-> ->]]; [| by rewrite lookup_insert_eq].
      destruct (Hok t Ht) as [Hgt ?]. split; [| done]. rewrite lookup_insert_ne; [done |].
      intros Heq. rewrite Heq in Hid. destruct Hid; congruence.
    + apply Hknown. apply lookup_insert_eq.
    + right. by rewrite decide_False by done.
    + split; simpl; intros; [by rewrite Hex, lookup_insert_ne | by apply Hq' | by rewrite Hs].
Qed.

(** ** Absorbed groups *)
Lemma remove_subsets_fold ids g :
  let g' := foldl (fun g id =>
              cancel_tasks_for_group (set_existing g (delete id (tg_existing_groups g))) id) g ids in
  tg_sent g' = tg_sent g /\
  (forall i, tg_existing_groups g' !! i = if decide (i ∈ ids) then None else tg_existing_groups g !! i) /\
  (forall t, t ∈ tg_task_queue g' <-> t ∈ tg_task_queue g /\ ct_group_idx t ∉ ids).
Proof.
  revert g. induction ids as [| id ids IH]; intros g; simpl.
  { split; [done |]. split; [done |]. intros t. rewrite elem_of_nil. tauto. }
  destruct (IH (cancel_tasks_for_group (set_existing g (delete id (tg_existing_groups g))) id))
    as (Hs & Hex & Hq). split; [by rewrite Hs |]. split.
  - intros i. rewrite Hex. simpl. destruct (decide (i = id)) as [-> | Hne].
    + rewrite lookup_delete_eq. case_decide; case_decide as H2; try done; rewrite elem_of_cons in H2; tauto.
    + rewrite lookup_delete_ne by done.
      case_decide as H1; case_decide as H2; try done; rewrite elem_of_cons in H2; tauto.
  - intros t. rewrite Hq. simpl. rewrite list_elem_of_filter, not_elem_of_cons. tauto.
Qed.

Lemma remove_subsets_spec g n :
  let g' := remove_conflicting_subset_groups g n in
  tg_sent g' = tg_sent g /\
  (forall i, i ∈ cg_conflicting_group_ids n -> tg_existing_groups g' !! i = None) /\
  (forall i, i ∉ cg_conflicting_group_ids n -> tg_existing_groups g' !! i = tg_existing_groups g !! i) /\
  (forall t, t ∈ tg_task_queue g' -> t ∈ tg_task_queue g /\
     tg_existing_groups g' !! ct_group_idx t = tg_existing_groups g !! ct_group_idx t) /\
  (forall t, t ∈ tg_task_queue g -> ct_group_idx t ∉ cg_conflicting_group_ids n -> t ∈ tg_task_queue g').
Proof.
  unfold remove_conflicting_subset_groups.
  destruct (remove_subsets_fold (subset_ids g n) g) as (Hs & Hex & Hq). cbv zeta.
  set (g' := foldl _ g _) in *. clearbody g'.
  assert (Hsub : forall i, i ∈ subset_ids g n <->
            is_Some (tg_existing_groups g !! i) /\ i ∈ cg_conflicting_group_ids n).
  { intros i. unfold subset_ids. by rewrite elem_of_elements, elem_of_intersection, elem_of_dom. }
  split; [done |]. split; [| split; [| split]].
  - intros i Hi. rewrite Hex. case_decide as Hd; [done |]. rewrite Hsub in Hd.
    destruct (tg_existing_groups g !! i) eqn:He; [| done]. destruct Hd. by split; [eexists |].
  - intros i Hi. rewrite Hex. rewrite decide_False; [done |]. rewrite Hsub. tauto.
  - intros t [Ht Hn]%Hq. split; [done |]. by rewrite Hex, decide_False.
  - intros t Ht Hn. apply Hq. split; [done |]. rewrite Hsub. tauto.
Qed.

Lemma remove_if_any_spec g n :
  let g' := if bool_decide (cg_conflicting_group_ids n <> ∅)
            then remove_conflicting_subset_groups g n else g in
  tg_sent g' = tg_sent g /\
  (forall i, i ∈ cg_conflicting_group_ids n -> tg_existing_groups g' !! i = None) /\
  (forall i, i ∉ cg_conflicting_group_ids n -> tg_existing_groups g' !! i = tg_existing_groups g !! i) /\
  (forall t, t ∈ tg_task_queue g' -> t ∈ tg_task_queue g /\
     tg_existing_groups g' !! ct_group_idx t = tg_existing_groups g !! ct_group_idx t) /\
  (forall t, t ∈ tg_task_queue g -> ct_group_idx t ∉ cg_conflicting_group_ids n -> t ∈ tg_task_queue g').
Proof.
  case_bool_decide as He; [apply remove_subsets_spec |]. rewrite He.
  by repeat split.
Qed.

(** ** All groups *)
Definition groups_ok (l : list ConflictGroup) : Prop :=
  NoDup (cg_id <$> l) /\ forall p, p ∈ l -> cg_orders p <> [] /\
    forall q, q ∈ l -> cg_id q ∉ cg_conflicting_group_ids p.

Record progress (g0 g : ConflictTaskGenerator) (done : list ConflictGroup) (processed : gset nat)
  : Prop := {
  pr_tasks : tasks_ok g;
  pr_known p : p ∈ done -> known g p;
  pr_scheduled p : p ∈ done -> scheduled g0 g p;
  pr_gone p j : p ∈ done -> j ∈ cg_conflicting_group_ids p -> tg_existing_groups g !! j = None;
  pr_other i eg : i ∉ cg_id <$> done -> tg_existing_groups g !! i = Some eg ->
    tg_existing_groups g0 !! i = Some eg;
  pr_processed i : i ∈ processed ->
    exists p, p ∈ done /\ (i = cg_id p \/ i ∈ cg_conflicting_group_ids p);
}.

Lemma known_same g g' p :
  tg_existing_groups g' !! cg_id p = tg_existing_groups g !! cg_id p -> known g p -> known g' p.
Proof. unfold known. by intros ->. Qed.

Lemma scheduled_mono g0 g g' p :
  (forall m, m ∈ tg_sent g -> m ∈ tg_sent g') ->
  (forall t, t ∈ tg_task_queue g -> ct_group_idx t = cg_id p -> t ∈ tg_task_queue g') ->
  scheduled g0 g p -> scheduled g0 g' p.
Proof.
  intros Hs Hq [? | H]; [by left |]. right. case_decide.
  - destruct H as (r & Hr). eauto.
  - destruct H as (t & ? & ? & ?). eauto.
Qed.

Lemma process_step now g0 g P n l processed :
  groups_ok (P ++ n :: l) -> seen_smaller g0 n -> progress g0 g P processed ->
  exists g1, process_single_group now g n = Some g1 /\ cg_id n ∉ processed /\
    progress g0 (if bool_decide (cg_conflicting_group_ids n <> ∅)
                 then remove_conflicting_subset_groups g1 n else g1)
      (P ++ [n]) (add_processed_groups g1 n processed).
Proof.
  intros [Hnd Hgood] Hsmall [Htasks Hknown Hsched Hgone Hother Hproc].
  rewrite fmap_app, NoDup_app in Hnd. destruct Hnd as (_ & Hnd & _). simpl in Hnd.
  assert (HnP : cg_id n ∉ cg_id <$> P) by (intros Hin; by apply Hnd in Hin; destruct Hin; left).
  assert (Hn : n ∈ P ++ n :: l) by set_solver.
  assert (HP : forall p, p ∈ P -> cg_id p <> cg_id n /\ cg_id p ∉ cg_conflicting_group_ids n /\
                 cg_id n ∉ cg_conflicting_group_ids p).
  { intros p Hp. assert (Hpin : p ∈ P ++ n :: l) by set_solver. split; [| split; by apply Hgood].
    intros Heq. apply HnP. rewrite <- Heq. by apply list_elem_of_fmap_2. }
  destruct (process_single_group_spec now g n) as (g1 & Hrun & Hok1 & Hkn1 & Hsc1 & [Hex1 Hq1 Hs1]);
    [done | | by apply Hgood |].
  { intros eg Heg. apply Hsmall. by apply Hother. }
  exists g1. split; [done |]. split.
  { intros Hin. apply Hproc in Hin as (p & Hp & [Heq | Hin]); [by apply HP in Hp as [? _] | by apply HP in Hp as (_ & _ & ?)]. }
  destruct (remove_if_any_spec g1 n) as (Hs2 & Hno2 & Hex2 & Hq2 & Hq2'). cbv zeta in *.
  set (g2 := if bool_decide _ then _ else g1) in *. clearbody g2.
  assert (Hself : cg_id n ∉ cg_conflicting_group_ids n) by (by apply Hgood).
  split.
  - intros t Ht. apply Hq2 in Ht as [Ht Heq]. unfold task_ok. rewrite Heq. by apply Hok1.
  - intros p [Hp | ->%list_elem_of_singleton]%elem_of_app.
    + destruct (HP p Hp) as (? & ? & ?). eapply known_same; [| by apply Hknown].
      by rewrite Hex2, Hex1.
    + eapply known_same; [| done]. by apply Hex2.
  - intros p [Hp | ->%list_elem_of_singleton]%elem_of_app.
    + destruct (HP p Hp) as (? & ? & ?). eapply scheduled_mono; [| | by apply Hsched].
      * intros m Hm. rewrite Hs2. by apply Hs1.
      * intros t Ht Hid. apply Hq2'; [apply Hq1; [done |] |]; by rewrite Hid.
    + destruct Hsc1 as [Hk | Hsc]; [left | eapply (scheduled_mono g0 g1); [by rewrite Hs2 | | by right]].
      * destruct Hk as (eg & Heg & ?). exists eg. split; [by apply Hother | done].
      * intros t Ht Hid. apply Hq2'; [done | by rewrite Hid].
  - intros p j [Hp | ->%list_elem_of_singleton]%elem_of_app Hj; [| by apply Hno2].
    destruct (decide (j ∈ cg_conflicting_group_ids n)); [by apply Hno2 |].
    rewrite Hex2, Hex1 by (done || intros ->; by apply HP in Hp as (_ & _ & ?)). by eapply Hgone.
  - intros i eg Hi. rewrite fmap_app, not_elem_of_app in Hi. destruct Hi as [Hi Hin].
    apply not_elem_of_cons in Hin as [Hin _].
    destruct (decide (i ∈ cg_conflicting_group_ids n)); [by rewrite Hno2 |].
    rewrite Hex2, Hex1 by done. by apply Hother.
  - intros i. unfold add_processed_groups, subset_ids.
    rewrite !elem_of_union, elem_of_singleton, elem_of_list_to_set, elem_of_elements, elem_of_intersection.
    setoid_rewrite elem_of_app. intros [-> | [[_ Hi] | Hi]].
    + exists n. split; [right; left | by left].
    + exists n. split; [right; left | by right].
    + apply Hproc in Hi as (p & ? & ?). exists p. split; [by left | done].
Qed.

Lemma process_sorted_spec now g0 l : forall P g processed,
  groups_ok (P ++ l) -> (forall n, n ∈ l -> seen_smaller g0 n) -> progress g0 g P processed ->
  exists g' processed', process_sorted_groups now g processed l = Some g' /\
    progress g0 g' (P ++ l) processed'.
Proof.
  induction l as [| n l IH]; intros P g processed Hok Hsmall Hpr; simpl.
  { exists g, processed. by rewrite app_nil_r. }
  destruct (process_step now g0 g P n l processed) as (g1 & Hrun & Hnew & Hpr1); [done | apply Hsmall; left | done |].
  rewrite bool_decide_eq_false_2, Hrun by done. rewrite cons_middle, app_assoc in Hok |- *.
  apply IH; [done | | done]. intros m Hm. apply Hsmall. by right.
Qed.

(** ** The generator and the finder *)
Record tracks (cf : ConflictFinder) (g : ConflictTaskGenerator) : Prop := {
  tr_finder : finder_inv cf;
  tr_tasks : tasks_ok g;
  tr_known n : n ∈ get_order_groups cf -> known g n;
  tr_live i : is_Some (tg_existing_groups g !! i) -> is_Some (cf_groups cf !! i);
}.

Lemma tracks_new safe : tracks ConflictFinder_new (ConflictTaskGenerator_new safe).
Proof.
  split; [apply finder_inv_new | | |].
  - intros t Ht. by apply elem_of_nil in Ht.
  - intros n (i & gd & Hi & _)%elem_of_order_groups. done.
  - by intros i [].
Qed.

Lemma tracks_pop cf g t q : tracks cf g -> tg_task_queue g = t :: q -> tracks cf (set_queue g q).
Proof.
  intros [Hinv Htasks Hknown Hlive] Hq. split; [done | | done | done].
  intros t' Ht'. apply (Htasks t'). rewrite Hq. by right.
Qed.

Lemma order_groups_ok cf : finder_inv cf -> groups_ok (merge_sort group_size_ge (get_order_groups cf)).
Proof.
  intros Hinv. split.
  - rewrite (merge_sort_Permutation group_size_ge). unfold get_order_groups.
    rewrite <- list_fmap_compose. unfold compose. simpl.
    rewrite (merge_sort_Permutation group_id_le). apply NoDup_fst_map_to_list.
  - intros p. rewrite (merge_sort_Permutation group_size_ge).
    intros (i & gd & Hi & ->)%elem_of_order_groups. split; [by eapply fi_nonempty |].
    intros q. rewrite (merge_sort_Permutation group_size_ge).
    intros (j & gd' & Hj & ->)%elem_of_order_groups. simpl. intros Hin.
    destruct (fi_absorbed _ Hinv _ _ _ Hi Hin). congruence.
Qed.

Lemma unchanged_length n eg :
  group_has_changed n eg = false -> length (cg_orders n) = length (cg_orders eg).
Proof.
  unfold group_has_changed. intros [H _]%orb_false_iff.
  by apply negb_false_iff, Nat.eqb_eq in H.
Qed.

(** A group that was known before the orders were added has not shrunk. *)
Lemma tracks_seen_smaller cf cf' g n :
  tracks cf g -> grows cf cf' -> n ∈ get_order_groups cf' -> seen_smaller g n.
Proof.
  intros [Hinv _ Hknown Hlive] [_ Hgrow] (i & gd' & Hi & ->)%elem_of_order_groups eg Heg. simpl in *.
  destruct (Hlive i) as [gd Hgd]; [by eexists |].
  destruct (Hgrow i gd' Hi) as (gd0 & Hgd0 & Hsub); [by eapply fi_fresh |]. simplify_eq.
  destruct (Hknown {| cg_id := i; cg_orders := gd_orders gd;
                      cg_conflicting_group_ids := gd_conflicting_group_ids gd |}) as (eg' & Heg' & Hun).
  { apply elem_of_order_groups. eauto. }
  simpl in Heg'. simplify_eq. apply unchanged_length in Hun. simpl in Hun.
  apply submseteq_length in Hsub. lia.
Qed.

Lemma tracks_process now cf cf' g :
  tracks cf g -> finder_inv cf' -> grows cf cf' ->
  exists g', process_groups now g (get_order_groups cf') = Some g' /\ tracks cf' g' /\
    forall n, n ∈ get_order_groups cf' -> scheduled g g' n.
Proof.
  intros Htr Hinv' Hgrow. unfold process_groups.
  assert (Hsort : forall n, n ∈ merge_sort group_size_ge (get_order_groups cf') <-> n ∈ get_order_groups cf').
  { intros n. by rewrite (merge_sort_Permutation group_size_ge). }
  destruct (process_sorted_spec now g (merge_sort group_size_ge (get_order_groups cf')) [] g ∅)
    as (g' & processed & Hrun & [Htasks Hknown Hsched Hgone Hother _]).
  - by apply order_groups_ok.
  - intros n Hn%Hsort. by eapply tracks_seen_smaller.
  - split; [by destruct Htr | ..]; set_solver.
  - simpl in *. exists g'. split; [done |]. split; [| intros n Hn; by apply Hsched, Hsort].
    split; [done.. | intros n Hn; by apply Hknown, Hsort |].
    intros i [eg Heg]. destruct (cf_groups cf' !! i) as [gd |] eqn:Hi; [by eexists |]. exfalso.
    assert (Hg : tg_existing_groups g !! i = Some eg).
    { apply Hother; [| done]. intros (n & -> & (j & gd & Hj & ->)%Hsort%elem_of_order_groups)%list_elem_of_fmap.
      simpl in Hi. congruence. }
    destruct (tr_live _ _ Htr i) as [gd Hgd]; [by eexists |].
    destruct (fi_lost _ Hinv' i) as (j & gd' & Hj & Hij); [| done |].
    { apply (fi_fresh _ (tr_finder _ _ Htr)) in Hgd. destruct Hgrow. lia. }
    rewrite (Hgone {| cg_id := j; cg_orders := gd_orders gd';
                      cg_conflicting_group_ids := gd_conflicting_group_ids gd' |} i) in Heg; [done | | done].
    apply Hsort, elem_of_order_groups. eauto.
Qed.

(** * The best results of the groups

    What a result that arrives changes: it has to beat the results of the
    groups that its group absorbed, which it then replaces, and the earlier
    result of its own group; the version tells whether anything changed. *)

Abbreviation Results := (gmap nat (ResolutionResult * ConflictGroup)).

Definition beats (data : Results) (profit : U256) (id : nat) : Prop :=
  forall e g, data !! id = Some (e, g) -> rr_total_profit e < profit.

#[export] Instance beats_dec data profit id : Decision (beats data profit id).
Proof.
  unfold beats. destruct (data !! id) as [[e g] |].
  - destruct (decide (rr_total_profit e < profit)); [left | right]; naive_solver.
  - left. naive_solver.
Defined.

Lemma to_remove_spec data profit ids acc :
  conflicting_groups_to_remove data profit ids acc =
  if decide (Forall (beats data profit) ids)
  then Some (acc ++ filter (fun id => is_Some (data !! id)) ids) else None.
Proof.
  revert acc. induction ids as [| id ids IH]; intros acc; simpl conflicting_groups_to_remove.
  { rewrite decide_True by constructor. by rewrite app_nil_r. }
  destruct (data !! id) as [[e g] |] eqn:He.
  - destruct (decide (profit > rr_total_profit e)) as [Hp | Hp].
    + rewrite IH, filter_cons_True by eauto. rewrite <- app_assoc.
      assert (beats data profit id) by (intros ? ? ?; simplify_eq; lia).
      apply decide_ext. rewrite Forall_cons. tauto.
    + rewrite decide_False; [done |]. rewrite Forall_cons. intros [Hb _]. apply Hb in He. lia.
  - rewrite IH, filter_cons_False by (rewrite He; by intros []).
    assert (beats data profit id) by (intros ? ? ?; congruence).
    apply decide_ext. rewrite Forall_cons. tauto.
Qed.

Lemma delete_all_lookup (data : Results) ids i :
  foldl (fun d id => delete id d) data ids !! i = if decide (i ∈ ids) then None else data !! i.
Proof.
  revert data. induction ids as [| id ids IH]; intros data; simpl; [done |]. rewrite IH.
  destruct (decide (i = id)) as [-> | Hne].
  - rewrite lookup_delete_eq. rewrite (decide_True (P := id ∈ id :: ids)) by left. by case_decide.
  - rewrite lookup_delete_ne by done. apply decide_ext. rewrite elem_of_cons. tauto.
Qed.

Lemma u64_add_1_ne v : is_u64 v -> u64_add v 1 <> v.
Proof.
  unfold is_uint, u64_add, wrap. intros Hv. destruct (decide (v + 1 = 2 ^ 64)) as [Heq | Hne].
  - rewrite Heq, Z.mod_same; lia.
  - rewrite Z.mod_small by lia. lia.
Qed.

(** ** The decision on one result *)
Definition own_update (data : Results) (id : nat) (r : ResolutionResult) (g : ConflictGroup)
  : Results * bool * U256 :=
  if decide (beats data (rr_total_profit r) id)
  then (<[id := (r, g)]> data, true, from_option (fun e => rr_total_profit e.1) 0 (data !! id))
  else (data, false, 0).

Section results.
Context `{!HashOrder nat} `{!HashOrderOk nat}.

(** What is removed when no conflicting group is as good. *)
Definition removals (data : Results) (g : ConflictGroup) : list nat :=
  filter (fun id => is_Some (data !! id)) (hash_order (cg_conflicting_group_ids g)).

Lemma elem_of_removals data g c :
  c ∈ removals data g <-> is_Some (data !! c) /\ c ∈ cg_conflicting_group_ids g.
Proof. unfold removals. by rewrite list_elem_of_filter, hash_order_perm, elem_of_elements. Qed.

Lemma update_best_result_eq b id r g :
  update_best_result b id r g =
  if decide (set_Forall (beats (bs_data b) (rr_total_profit r)) (cg_conflicting_group_ids g))
  then
    let '(data, updated, old_profit) := own_update (bs_data b) id r g in
    let b' := {| bs_data := foldl (fun d id => delete id d) data (removals (bs_data b) g);
                 bs_version := bs_version b |} in
    (if updated || negb (bool_decide (removals (bs_data b) g = [])) then increment_version b' else b',
     (updated, old_profit))
  else (b, (false, 0)).
Proof.
  unfold update_best_result. rewrite to_remove_spec. fold (removals (bs_data b) g). simpl.
  set (ifb := decide (set_Forall _ _)). destruct (decide (Forall _ _)) as [Ha | Ha].
  - destruct ifb as [_ | Hn].
    2: { destruct Hn. intros c Hc. rewrite Forall_forall in Ha. apply Ha.
         by rewrite hash_order_perm, elem_of_elements. }
    unfold own_update. destruct (bs_data b !! id) as [[e ge] |] eqn:He.
    + case_decide as H1; case_decide as H2; try done.
      * destruct H2. intros e' g' Heq. simplify_eq. lia.
      * apply H2 in He. lia.
    + rewrite decide_True; [done |]. intros e' g' Heq. congruence.
  - destruct ifb as [Hb | _]; [| done]. destruct Ha. apply Forall_forall. intros c.
    rewrite hash_order_perm, elem_of_elements. apply Hb.
Qed.

(** Every conflicting group is gone, the others are as before. *)
Lemma removals_lookup (data d : Results) g id j :
  id ∉ cg_conflicting_group_ids g -> (forall j, j <> id -> d !! j = data !! j) ->
  foldl (fun d id => delete id d) d (removals data g) !! j =
  if decide (j ∈ cg_conflicting_group_ids g) then None else d !! j.
Proof.
  intros Hid Hd. rewrite delete_all_lookup.
  destruct (decide (j ∈ cg_conflicting_group_ids g)) as [Hj | Hj].
  - case_decide as Hin; [done |]. rewrite elem_of_removals in Hin. rewrite Hd by congruence.
    destruct (data !! j) eqn:Heq; [| done]. destruct Hin. by split; [eexists |].
  - rewrite decide_False; [done |]. rewrite elem_of_removals. tauto.
Qed.

Lemma no_removals data g : removals data g = [] <-> forall c, c ∈ cg_conflicting_group_ids g -> data !! c = None.
Proof.
  split.
  - intros Hnil c Hc. apply eq_None_not_Some. intros Hs.
    assert (c ∈ removals data g) as Hin by (by apply elem_of_removals). rewrite Hnil in Hin. by apply elem_of_nil in Hin.
  - intros Hno. destruct (removals data g) as [| c l] eqn:Hr; [done |].
    destruct (proj1 (elem_of_removals data g c)) as [[e He] Hc]; [rewrite Hr; left |].
    apply Hno in Hc. congruence.
Qed.

(** A new result of a group replaces the results of its absorbed groups and its
    own earlier one exactly when it beats them all; results of other groups
    stay, the version changes exactly when the results do, and the old
    profit that is reported is that of the result it replaced. *)
Theorem best_results_update (b : BestResults) (id : nat) (r : ResolutionResult) (g : ConflictGroup) :
  is_u64 (bs_version b) -> id ∉ cg_conflicting_group_ids g ->
  let '(b', (updated, old_profit)) := update_best_result b id r g in
  ((exists c, c ∈ cg_conflicting_group_ids g /\ ~ beats (bs_data b) (rr_total_profit r) c) ->
     b' = b /\ updated = false) /\
  ((forall c, c ∈ cg_conflicting_group_ids g -> beats (bs_data b) (rr_total_profit r) c) ->
     (updated = true <-> beats (bs_data b) (rr_total_profit r) id) /\
     forall j, bs_data b' !! j =
       if decide (j ∈ cg_conflicting_group_ids g) then None
       else if updated && bool_decide (j = id) then Some (r, g) else bs_data b !! j) /\
  (bs_version b' = bs_version b <-> bs_data b' = bs_data b) /\
  (updated = true -> old_profit = from_option (fun e => rr_total_profit e.1) 0 (bs_data b !! id)).
Proof.
  intros Hv Hid. rewrite update_best_result_eq.
  destruct (decide (set_Forall _ _)) as [Hb | Hn]; [| done].
  pose proof (fun d => removals_lookup (bs_data b) d g id) as Hlook.
  pose proof (u64_add_1_ne _ Hv) as Hver. pose proof (no_removals (bs_data b) g) as Hnil.
  unfold own_update. destruct (decide (beats _ _ id)) as [Hbid | Hbid]; simpl;
    (split; [naive_solver |]); (split; [intros _; split; [done |] |]).
  - intros j. rewrite Hlook; [| done | intros; by rewrite lookup_insert_ne].
    case_decide; [done |]. case_bool_decide as Hj; [subst; apply lookup_insert_eq | by apply lookup_insert_ne].
  - split; [| done]. split; [done |]. intros Heq. exfalso.
    assert (Hl : bs_data b !! id = Some (r, g)); [| apply Hbid in Hl; lia].
    rewrite <- Heq, Hlook, decide_False; [apply lookup_insert_eq | done.. |]. intros; by rewrite lookup_insert_ne.
  - intros j. case_bool_decide; simpl; by rewrite Hlook.
  - split; [| done]. case_bool_decide as Hr; simpl; [by rewrite Hr |].
    split; [done |]. intros Heq. exfalso. apply Hr, Hnil. intros c Hc.
    by rewrite <- Heq, Hlook, decide_True.
Qed.
End results.
