(* ===== verification/ConflictResolver.v ===== *)
(** * Resolution of a conflict group (parallel_builder/conflict_resolvers.rs,
      simulation_cache.rs)

    A task executes the orders of its group in several sequences and reports the
    most profitable one.  Results are cached by the ids of the sequence. *)

From S2P Require Import Prelude Transactions Bundles Orders SimTypes OrderSinks World CommitMonad OrderCommit PartialBlock ConstraintPool BlockHelper ConflictGroups ConflictTasks.

(** ** The cache of simulations *)
Record CachedSimulationState (W : Type) := {
  cs_bundle_state : W;
  cs_total_profit : U256;
  cs_per_order_profits : list (OrderId * U256);
}.
Arguments cs_bundle_state {_} _.
Arguments cs_total_profit {_} _.
Arguments cs_per_order_profits {_} _.
Arguments Build_CachedSimulationState {_}.

Record SharedSimulationCache (W : Type) := {
  inner_cache : gmap (list OrderId) (CachedSimulationState W);
  cache_requests : nat;
  full_hits : nat;
  partial_hits : nat;
  number_of_order_simulations_saved : nat;
  number_of_order_simulations_requested : nat;
}.
Arguments inner_cache {_} _.
Arguments cache_requests {_} _.
Arguments full_hits {_} _.
Arguments partial_hits {_} _.
Arguments number_of_order_simulations_saved {_} _.
Arguments number_of_order_simulations_requested {_} _.
Arguments Build_SharedSimulationCache {_}.

Definition SharedSimulationCache_new {W} : SharedSimulationCache W :=
  {| inner_cache := ∅; cache_requests := 0; full_hits := 0; partial_hits := 0;
     number_of_order_simulations_saved := 0; number_of_order_simulations_requested := 0 |}.

(** The loop over shorter and shorter keys; the empty key is not looked up. *)
Fixpoint longest_cached {W} (cache : gmap (list OrderId) (CachedSimulationState W)) (n : nat)
    (ordering : list OrderId) : option (CachedSimulationState W) * nat :=
  match n with
  | O => (None, O)
  | S n' =>
      match cache !! take n ordering with
      | Some cached_result => (Some cached_result, n)
      | None => longest_cached cache n' ordering
      end
  end.

Definition get_cached_state {W} (c : SharedSimulationCache W) (ordering : list OrderId)
  : SharedSimulationCache W * (option (CachedSimulationState W) * nat) :=
  let total_requested := length ordering in
  let '(state, last_cached_index) := longest_cached (inner_cache c) total_requested ordering in
  let hit := if state then true else false in
  let full := hit && (last_cached_index =? total_requested)%nat in
  ({| inner_cache := inner_cache c; cache_requests := S (cache_requests c);
      full_hits := full_hits c + (if full then 1 else 0);
      partial_hits := partial_hits c + (if hit && negb full then 1 else 0);
      number_of_order_simulations_saved := number_of_order_simulations_saved c + last_cached_index;
      number_of_order_simulations_requested :=
        number_of_order_simulations_requested c + total_requested |},
   (state, last_cached_index)).

Definition store_cached_state {W} (c : SharedSimulationCache W) (ordering : list OrderId)
    (state : CachedSimulationState W) : SharedSimulationCache W :=
  {| inner_cache := <[ordering := state]> (inner_cache c); cache_requests := cache_requests c;
     full_hits := full_hits c; partial_hits := partial_hits c;
     number_of_order_simulations_saved := number_of_order_simulations_saved c;
     number_of_order_simulations_requested := number_of_order_simulations_requested c |}.

(** ** The sequences to try

    The random number generator and its [shuffle] are library code. *)
Class SmallRng := {
  rng : Type;
  seed_from_u64 : U64 -> rng;
  shuffle : rng -> list nat -> rng * list nat;
}.
Class SmallRngOk `{SmallRng} : Prop := shuffle_perm r l : (shuffle r l).2 ≡ₚ l.

Section sequences.
Context `{SmallRng}.

Definition indexes (group : ConflictGroup) : list nat := seq 0 (length (cg_orders group)).

Fixpoint shuffles (count : nat) (r : rng) (l : list nat) : list (list nat) :=
  match count with
  | O => []
  | S count => let '(r, l) := shuffle r l in l :: shuffles count r l
  end.

Definition generate_random_permutations (group : ConflictGroup) (seed : U64) (count : nat)
  : list (list nat) :=
  shuffles count (seed_from_u64 seed) (indexes group).

(** All permutations in the lexicographic order of positions. *)
Fixpoint permutations_of (n : nat) (l : list nat) : list (list nat) :=
  match n with
  | O => [[]]
  | S n => seq 0 (length l) ≫= fun i =>
             match l !! i with
             | Some x => cons x <$> permutations_of n (delete i l)
             | None => []
             end
  end.

Definition generate_all_permutations (group : ConflictGroup) : list (list nat) :=
  permutations_of (length (cg_orders group)) (indexes group).

(** Positions with their values, sorted by the value; equal values keep their order. *)
Definition value_ge (a b : nat * U256) : Prop := b.2 <= a.2.
Definition value_le (a b : nat * U256) : Prop := a.2 <= b.2.
#[export] Instance value_ge_dec : RelDecision value_ge.
Proof. intros a b. unfold value_ge. apply _. Defined.
#[export] Instance value_le_dec : RelDecision value_le.
Proof. intros a b. unfold value_le. apply _. Defined.

Definition create_sequence (group : ConflictGroup) (reverse : bool)
    (value_extractor : SimulatedOrder -> U256) : list nat :=
  let ids_and_value := imap (fun idx o => (idx, value_extractor o)) (cg_orders group) in
  fst <$> (if reverse then merge_sort value_le ids_and_value else merge_sort value_ge ids_and_value).

Definition order_mev_gas_price (o : SimulatedOrder) : U256 :=
  mev_gas_price (full_profit_info (so_sim_value o)).

Definition generate_greedy_sequence (group : ConflictGroup) (reverse : bool) : list (list nat) :=
  [create_sequence group reverse order_profit; create_sequence group reverse order_mev_gas_price].

(** Longer orders first, then the more profitable ones. *)
Definition length_ge (a b : nat * nat * U256) : Prop :=
  (b.1.2 < a.1.2)%nat \/ b.1.2 = a.1.2 /\ b.2 <= a.2.
#[export] Instance length_ge_dec : RelDecision length_ge.
Proof. intros a b. unfold length_ge. apply _. Defined.

Definition generate_length_based_sequence (group : ConflictGroup) : list (list nat) :=
  let order_data :=
    imap (fun idx o => (idx, length (Order_list_txs (so_order o)), order_profit o)) (cg_orders group) in
  [(fun d => d.1.1) <$> merge_sort length_ge order_data].

Definition generate_sequences_of_orders_to_try (task : ConflictTask) : list (list nat) :=
  match ct_algorithm task with
  | Greedy => generate_greedy_sequence (ct_group task) false
  | ReverseGreedy => generate_greedy_sequence (ct_group task) true
  | Length => generate_length_based_sequence (ct_group task)
  | AllPermutations => generate_all_permutations (ct_group task)
  | Random seed count => generate_random_permutations (ct_group task) seed count
  end.
End sequences.

(** ** Executing a sequence *)
Inductive ResolverError :=
| Resolver_Cancelled
| Resolver_PreBlockCall
| Resolver_Critical (e : CriticalCommitOrderError).

Inductive Resolved (A : Type) :=
| Resolved_Ok (a : A)
| Resolved_Err (e : ResolverError)
| Resolved_Panic.
Arguments Resolved_Ok {_} a.
Arguments Resolved_Err {_} e.
Arguments Resolved_Panic {_}.

(** The variables of the loop; the head of [rs_remaining_orders] is popped next. *)
Record Resolving (W C : Type) := {
  rs_building : Building W C;
  rs_pending_orders : gmap (Address * U64) nat;
  rs_remaining_orders : list nat;
  rs_sequenced_order_result : list (nat * U256);
  rs_total_profit : U256;
  rs_per_order_profits : list (OrderId * U256);
}.
Arguments rs_building {_ _} _.
Arguments rs_pending_orders {_ _} _.
Arguments rs_remaining_orders {_ _} _.
Arguments rs_sequenced_order_result {_ _} _.
Arguments rs_total_profit {_ _} _.
Arguments rs_per_order_profits {_ _} _.
Arguments Build_Resolving {_ _}.

(** Orders that waited for a nonce the executed order has set. *)
Fixpoint wake_orders (nonces_updated : list (Address * U64)) (pending : gmap (Address * U64) nat)
    (remaining : list nat) : gmap (Address * U64) nat * list nat :=
  match nonces_updated with
  | [] => (pending, remaining)
  | n :: nonces_updated =>
      match pending !! n with
      | Some order => wake_orders nonces_updated (delete n pending) (order :: remaining)
      | None => wake_orders nonces_updated pending remaining
      end
  end.

Section resolver.
Context {W Diff C : Type} `{ChainState W Diff} `{!TxCache W Diff C} `{PayoutSigner}.
Context `{!HashOrder Address} `{!HashOrder nat} `{ConstraintCodec}.
Context (ctx : BlockBuildingContext) (state : W) (default_cache : C).
Context (withdrawals_length : Z) (system_calls : W -> result Diff unit).
(** The n-th time the cancellation token is read. *)
Context (cancelled : nat -> bool).
Abbreviation Resolve := (Resolving W C).

Definition handle_successful_commit (s : Resolve) (res : ExecutionResult) (id : OrderId)
    (order_idx : nat) : Resolve :=
  let '(pending, remaining) :=
    wake_orders (er_nonces_updated res) (rs_pending_orders s) (rs_remaining_orders s) in
  Build_Resolving (rs_building s) pending remaining
    (rs_sequenced_order_result s ++ [(order_idx, er_coinbase_profit res)])
    (u256_add (rs_total_profit s) (er_coinbase_profit res))
    (rs_per_order_profits s ++ [(id, er_coinbase_profit res)]).

Definition handle_err (s : Resolve) (err : ExecutionError) (order : Order) (order_idx : nat) : Resolve :=
  match try_get_tx_too_high_error err order with
  | Some key =>
      Build_Resolving (rs_building s) (<[key := order_idx]> (rs_pending_orders s))
        (rs_remaining_orders s) (rs_sequenced_order_result s) (rs_total_profit s)
        (rs_per_order_profits s)
  | None => s
  end.

(** An iteration for the order that was popped. *)
Definition resolve_order (s : Resolve) (order_idx : nat) (sim_order : SimulatedOrder) : Resolved Resolve :=
  let '(b, r) := pb_commit_order ctx sim_order (fun _ => Ok tt) (rs_building s) in
  let s := Build_Resolving b (rs_pending_orders s) (rs_remaining_orders s)
             (rs_sequenced_order_result s) (rs_total_profit s) (rs_per_order_profits s) in
  match r with
  | Panic => Resolved_Panic
  | Critical e => Resolved_Err (Resolver_Critical e)
  | Done (Ok res) => Resolved_Ok (handle_successful_commit s res (so_id sim_order) order_idx)
  | Done (Err err) => Resolved_Ok (handle_err s err (so_order sim_order) order_idx)
  end.

(** The loop; the outer [None] is that the fuel ran out. *)
Fixpoint resolve_loop (fuel : nat) (orders : list SimulatedOrder) (n : nat) (s : Resolve)
  : option (nat * Resolved Resolve) :=
  match fuel with
  | O => None
  | S fuel =>
      match rs_remaining_orders s with
      | [] => Some (n, Resolved_Ok s)
      | order_idx :: remaining =>
          let s := Build_Resolving (rs_building s) (rs_pending_orders s) remaining
                     (rs_sequenced_order_result s) (rs_total_profit s) (rs_per_order_profits s) in
          if cancelled n then Some (S n, Resolved_Err Resolver_Cancelled)
          else
            match orders !! order_idx with
            | None => Some (S n, Resolved_Panic)
            | Some sim_order =>
                match resolve_order s order_idx sim_order with
                | Resolved_Ok s => resolve_loop fuel orders (S n) s
                | r => Some (S n, r)
                end
            end
      end
  end.

Definition initialize_order_id_to_index_map (orders : list SimulatedOrder) : gmap OrderId nat :=
  foldl (fun m p => <[p.1 := p.2]> m) ∅ (imap (fun idx o => (so_id o, idx)) orders).

Definition initialize_full_order_ids_vec (sequence_of_orders : list nat)
    (orders : list SimulatedOrder) : option (list OrderId) :=
  mapM (fun idx => so_id <$> orders !! idx) sequence_of_orders.

Definition initialize_result_order_sequence (cached : option (CachedSimulationState W))
    (order_id_to_index : gmap OrderId nat) : list (nat * U256) :=
  match cached with
  | Some cached_state =>
      omap (fun p => (fun idx => (idx, p.2)) <$> order_id_to_index !! p.1)
        (cs_per_order_profits cached_state)
  | None => []
  end.

(** The block starts on the state of the parent, also when a part of the
    sequence is cached. *)
Definition initial_block : result (Building W C) unit :=
  pre_block_call withdrawals_length system_calls
    (Build_Building (PartialBlock_new true) state default_cache).

Definition start_sequence (b : Building W C) (cached : option (CachedSimulationState W))
    (cached_up_to_index : nat) (orders : list SimulatedOrder) (sequence_of_orders : list nat) : Resolve :=
  Build_Resolving b ∅ (drop cached_up_to_index sequence_of_orders)
    (initialize_result_order_sequence cached (initialize_order_id_to_index_map orders))
    (from_option cs_total_profit 0 cached) (from_option cs_per_order_profits [] cached).

Definition process_sequence_of_orders (fuel : nat) (cache : SharedSimulationCache W) (n : nat)
    (orders : list SimulatedOrder) (sequence_of_orders : list nat)
  : option (SharedSimulationCache W * nat * Resolved ResolutionResult) :=
  match initialize_full_order_ids_vec sequence_of_orders orders with
  | None => Some (cache, n, Resolved_Panic)
  | Some full_sequence_of_orders =>
      let '(cache, (cached, cached_up_to_index)) := get_cached_state cache full_sequence_of_orders in
      match initial_block with
      | Err _ => Some (cache, n, Resolved_Err Resolver_PreBlockCall)
      | Ok b =>
          let! (n, r) := resolve_loop fuel orders n
                           (start_sequence b cached cached_up_to_index orders sequence_of_orders) in
          Some match r with
               | Resolved_Ok s =>
                   (store_cached_state cache full_sequence_of_orders
                      (Build_CachedSimulationState (bl_world (rs_building s)) (rs_total_profit s)
                         (rs_per_order_profits s)), n,
                    Resolved_Ok {| rr_total_profit := rs_total_profit s;
                                   rr_sequence_of_orders := rs_sequenced_order_result s |})
               | Resolved_Err e => (cache, n, Resolved_Err e)
               | Resolved_Panic => (cache, n, Resolved_Panic)
               end
      end
  end.

Definition best_resolution (best new_result : ResolutionResult) : ResolutionResult :=
  if decide (rr_total_profit best < rr_total_profit new_result) then new_result else best.

Fixpoint run_sequences (fuel : nat) (cache : SharedSimulationCache W) (n : nat)
    (orders : list SimulatedOrder) (best : ResolutionResult) (sequences : list (list nat))
  : option (SharedSimulationCache W * nat * Resolved ResolutionResult) :=
  match sequences with
  | [] => Some (cache, n, Resolved_Ok best)
  | sequence_of_orders :: sequences =>
      let! (cache, n, r) := process_sequence_of_orders fuel cache n orders sequence_of_orders in
      match r with
      | Resolved_Ok result => run_sequences fuel cache n orders (best_resolution best result) sequences
      | r => Some (cache, n, r)
      end
  end.

Definition run_conflict_task `{SmallRng} (fuel : nat) (cache : SharedSimulationCache W) (n : nat)
    (task : ConflictTask) : option (SharedSimulationCache W * nat * Resolved ResolutionResult) :=
  run_sequences fuel cache n (cg_orders (ct_group task))
    {| rr_total_profit := 0; rr_sequence_of_orders := [] |}
    (generate_sequences_of_orders_to_try task).
End resolver.
