(* ===== verification/ConflictResolverSpec.v ===== *)
(** * Sequences of orders and their execution

    Every algorithm tries permutations of the group; the execution of a sequence
    ends, executes each order at most once, and reports the profit of the block
    it built, unless a part of the sequence was cached. *)

From S2P Require Import Prelude Transactions Bundles Orders SimTypes OrderSinks World CommitMonad OrderCommit OrderCommitSafe OrderCommitSpec PartialBlock PartialBlockInv ConstraintPool BlockHelper ConflictGroups ConflictTasks ConflictResolver.

(** ** The sequences are permutations *)
#[export] Instance value_ge_total : Total value_ge.
Proof. intros a b. unfold value_ge. lia. Qed.
#[export] Instance value_ge_trans : Transitive value_ge.
Proof. intros a b c. unfold value_ge. lia. Qed.

Lemma sorted_lookup {A} (R : relation A) l k1 k2 x y :
  StronglySorted R l -> (k1 < k2)%nat -> l !! k1 = Some x -> l !! k2 = Some y -> R x y.
Proof.
  intros Hs Hk Hx Hy. rewrite <- (take_drop k2 l) in Hs.
  apply (StronglySorted_app_1_elem_of _ _ _ _ _ Hs).
  - apply list_elem_of_lookup. exists k1. by rewrite lookup_take_lt.
  - apply list_elem_of_lookup. exists O. by rewrite lookup_drop, Nat.add_0_r.
Qed.

Lemma fst_imap {A B} (f : A -> B) (l : list A) (n : nat) :
  fst <$> imap (fun i o => ((n + i)%nat, f o)) l = seq n (length l).
Proof.
  revert n. induction l as [| o l IH]; intros n; simpl; [done |]. f_equal; [lia |].
  rewrite <- (IH (S n)). f_equal. apply imap_ext. intros i x _. simpl. f_equal. lia.
Qed.

Lemma permutations_of_spec n l :
  length l = n -> forall k, k ∈ permutations_of n l <-> k ≡ₚ l.
Proof.
  revert l. induction n as [| n IH]; intros l Hlen k.
  { apply nil_length_inv in Hlen as ->. simpl. rewrite list_elem_of_singleton.
    split; [by intros -> | apply Permutation_nil_r]. }
  cbn [permutations_of]. rewrite list_elem_of_bind. split.
  - intros (i & Hk & Hi). destruct (l !! i) as [x |] eqn:Hx; [| by apply elem_of_nil in Hk].
    apply list_elem_of_fmap in Hk as (k' & -> & Hk').
    apply IH in Hk'; [| rewrite length_delete; [lia | by eexists]].
    rewrite Hk'. symmetry. by apply delete_Permutation.
  - intros Hp. destruct k as [| x k]; [by apply Permutation_nil_l in Hp; subst |].
    assert (Hx : x ∈ l) by (rewrite <- Hp; left). apply list_elem_of_lookup in Hx as (i & Hi).
    exists i. rewrite Hi. split.
    + apply list_elem_of_fmap. exists k. split; [done |].
      apply IH; [rewrite length_delete; [lia | by eexists] |].
      apply delete_Permutation in Hi. rewrite Hi in Hp. by apply Permutation_cons_inv in Hp.
    + apply elem_of_seq. apply lookup_lt_Some in Hi. lia.
Qed.

Section sequences.
Context `{SmallRng} `{!SmallRngOk}.

Lemma shuffles_perm count r l k : k ∈ shuffles count r l -> k ≡ₚ l.
Proof.
  revert r l. induction count as [| count IH]; intros r l; simpl; [by intros ?%elem_of_nil |].
  pose proof (shuffle_perm r l) as Hp. destruct (shuffle r l) as [r' l']. simpl in Hp.
  intros [-> | Hk]%elem_of_cons; [done |]. by rewrite (IH _ _ Hk).
Qed.

Lemma create_sequence_perm group reverse f : create_sequence group reverse f ≡ₚ indexes group.
Proof.
  unfold create_sequence, indexes. rewrite <- (fst_imap f (cg_orders group) 0).
  destruct reverse; [rewrite (merge_sort_Permutation value_le) | rewrite (merge_sort_Permutation value_ge)]; done.
Qed.

(** A sequence of positions by falling values. *)
Definition descending (group : ConflictGroup) (f : SimulatedOrder -> U256) (s : list nat) : Prop :=
  forall k1 k2 i j o1 o2, (k1 < k2)%nat -> s !! k1 = Some i -> s !! k2 = Some j ->
    cg_orders group !! i = Some o1 -> cg_orders group !! j = Some o2 -> f o2 <= f o1.

Lemma create_sequence_descending group f : descending group f (create_sequence group false f).
Proof.
  intros k1 k2 i j o1 o2 Hk. unfold create_sequence. rewrite !list_lookup_fmap.
  set (l := imap _ _).
  assert (Hl : forall i v o, (i, v) ∈ l -> cg_orders group !! i = Some o -> v = f o).
  { intros i' v o (k & Hin)%list_elem_of_lookup Ho. subst l. rewrite list_lookup_imap in Hin.
    destruct (cg_orders group !! k) as [o' |] eqn:Hk'; simplify_eq/=. congruence. }
  assert (Hs : StronglySorted value_ge (merge_sort value_ge l)).
  { apply (StronglySorted_merge_sort value_ge). }
  assert (Hp : merge_sort value_ge l ≡ₚ l) by apply merge_sort_Permutation.
  destruct (merge_sort value_ge l !! k1) as [[i' v1] |] eqn:H1; simpl; [intros [= ->] | done].
  destruct (merge_sort value_ge l !! k2) as [[j' v2] |] eqn:H2; simpl; [intros [= ->] | done].
  intros Ho1 Ho2.
  assert (Hv1 : v1 = f o1) by (eapply Hl; [rewrite <- Hp; by eapply list_elem_of_lookup_2 | done]).
  assert (Hv2 : v2 = f o2) by (eapply Hl; [rewrite <- Hp; by eapply list_elem_of_lookup_2 | done]).
  subst. exact (sorted_lookup value_ge _ _ _ _ _ Hs Hk H1 H2).
Qed.

Lemma sequences_perm task k :
  k ∈ generate_sequences_of_orders_to_try task -> k ≡ₚ indexes (ct_group task).
Proof.
  unfold generate_sequences_of_orders_to_try.
  destruct (ct_algorithm task); unfold generate_greedy_sequence, generate_length_based_sequence;
    rewrite ?elem_of_cons, ?elem_of_nil.
  - intros [-> | [-> | []]]; apply create_sequence_perm.
  - intros [-> | [-> | []]]; apply create_sequence_perm.
  - intros [-> | []]. rewrite (merge_sort_Permutation length_ge). unfold indexes.
    rewrite <- (fst_imap (fun o => o) (cg_orders (ct_group task)) 0), !fmap_imap. done.
  - intros Hk. apply permutations_of_spec in Hk; [done |]. apply length_seq.
  - apply shuffles_perm.
Qed.

(** Every sequence tried is a permutation of the orders of the group; the task for
    all permutations tries each, the greedy one the two descending orders. *)
Theorem sequences_are_permutations (task : ConflictTask) :
  (forall k, k ∈ generate_sequences_of_orders_to_try task -> k ≡ₚ indexes (ct_group task)) /\
  (ct_algorithm task = AllPermutations ->
   forall k, k ≡ₚ indexes (ct_group task) -> k ∈ generate_sequences_of_orders_to_try task) /\
  (ct_algorithm task = Greedy ->
   exists by_profit by_price, generate_sequences_of_orders_to_try task = [by_profit; by_price] /\
     descending (ct_group task) order_profit by_profit /\
     descending (ct_group task) order_mev_gas_price by_price).
Proof.
  split; [apply sequences_perm |]. unfold generate_sequences_of_orders_to_try. split.
  - intros -> k Hk. apply permutations_of_spec; [apply length_seq | done].
  - intros ->. do 2 eexists. split; [done |]. split; apply create_sequence_descending.
Qed.
End sequences.

Lemma Forall_submseteq {A} (P : A -> Prop) l l' : l ⊆+ l' -> Forall P l' -> Forall P l.
Proof. rewrite !Forall_forall. eauto using elem_of_submseteq. Qed.

(** ** Orders that wait *)
Definition waiting (m : gmap (Address * U64) nat) : list nat := (map_to_list m).*2.

Lemma waiting_delete m k i : m !! k = Some i -> waiting m ≡ₚ i :: waiting (delete k m).
Proof. intros Hk. unfold waiting. by rewrite <- (map_to_list_delete m k i). Qed.

Lemma waiting_insert m k i : waiting (<[k := i]> m) ⊆+ i :: waiting m.
Proof.
  rewrite <- insert_delete_eq. unfold waiting at 1.
  rewrite map_to_list_insert by apply lookup_delete_eq. simpl. apply submseteq_skip.
  destruct (m !! k) as [j |] eqn:Hk.
  - rewrite (waiting_delete m k j Hk). by apply submseteq_cons.
  - by rewrite delete_id.
Qed.

Lemma wake_orders_perm ns pending remaining pending' remaining' :
  wake_orders ns pending remaining = (pending', remaining') ->
  remaining' ++ waiting pending' ≡ₚ remaining ++ waiting pending.
Proof.
  revert pending remaining. induction ns as [| n ns IH]; intros pending remaining; simpl;
    [by intros [= <- <-] |].
  destruct (pending !! n) as [i |] eqn:Hn; [| apply IH].
  intros Hw. rewrite (IH _ _ Hw), (waiting_delete _ _ _ Hn). simpl. by rewrite Permutation_middle.
Qed.

(** ** Execution of the orders of a group

    A run tries orders of the group one after the other; those that succeed are
    listed with their profits, the others leave the block and its state as they were. *)
Section runs.
Context {W Diff C : Type} `{ChainState W Diff} `{!TxCache W Diff C} `{PayoutSigner}.
Context `{!HashOrder Address} `{!HashOrder nat} (ctx : BlockBuildingContext).

Inductive run_of (orders : list SimulatedOrder) (b : Building W C)
  : list (nat * U256) -> Building W C -> Prop :=
| run_start : run_of orders b [] b
| run_success l b1 b2 i o res :
    run_of orders b l b1 -> orders !! i = Some o ->
    pb_commit_order ctx o (fun _ => Ok tt) b1 = (b2, Done (Ok res)) ->
    run_of orders b (l ++ [(i, er_coinbase_profit res)]) b2
| run_failure l b1 b2 i o err :
    run_of orders b l b1 -> orders !! i = Some o ->
    pb_commit_order ctx o (fun _ => Ok tt) b1 = (b2, Done (Err err)) ->
    same_block (bl_block b1) (bl_block b2) -> bl_world b2 ≡ bl_world b1 ->
    run_of orders b l b2.
End runs.

Section loop.
Context {W Diff C : Type} `{ChainState W Diff} `{!ChainStateOk W Diff} `{!TxCache W Diff C}.
Context `{PayoutSigner} `{!PayoutSignerOk}.
Context `{!HashOrder Address} `{!HashOrder nat} `{ConstraintCodec}.
Context (ctx : BlockBuildingContext).
Context `{TxHashing} `{!SignerHashOk} `{!TxCacheOk W Diff C} `{!ExecutionOk ctx} (Hsane : sane_limits ctx).
Context (cancelled : nat -> bool) (orders : list SimulatedOrder) (seq0 : list nat).
Context (start R0 : BlockSpace) (b0 : Building W C) (Hproper : Forall proper_sim orders).
Abbreviation Resolve := (Resolving W C).

(** What was executed, what is left and what waits are parts of the sequence; the
    profits are those of the block. *)
Record resolve_inv (s : Resolve) : Prop := {
  rv_block : block_inv ctx start R0 (bl_block (rs_building s));
  rv_cache : cache_sound ctx (bl_cache (rs_building s));
  rv_parts : (rs_sequenced_order_result s).*1 ++ rs_remaining_orders s
               ++ waiting (rs_pending_orders s) ⊆+ seq0;
  rv_total : rs_total_profit s = foldl u256_add 0 (rs_sequenced_order_result s).*2;
  rv_profit : pb_coinbase_profit (bl_block (rs_building s)) = rs_total_profit s;
  rv_run : run_of ctx orders b0 (rs_sequenced_order_result s) (rs_building s);
  rv_per_order : Forall2 (fun p q => exists o, orders !! p.1 = Some o /\ q = (so_id o, p.2))
                   (rs_sequenced_order_result s) (rs_per_order_profits s);
}.

(** Executing an order leaves fewer to try, putting it aside leaves fewer to try now. *)
Definition unresolved (s : Resolve) : nat :=
  let todo := (length (rs_remaining_orders s) + size (rs_pending_orders s))%nat in
  (todo * S (length seq0) + length (rs_remaining_orders s))%nat.

(** An invariant that is kept by each order and under which orders are found. *)
Lemma loop_invariant (I : Resolve -> Prop) fuel n s :
  (forall s i rest, I s -> rs_remaining_orders s = i :: rest -> exists o, orders !! i = Some o /\
     match resolve_order ctx (Build_Resolving (rs_building s) (rs_pending_orders s) rest
             (rs_sequenced_order_result s) (rs_total_profit s) (rs_per_order_profits s)) i o with
     | Resolved_Ok s' => I s' /\ (unresolved s' < unresolved s)%nat
     | Resolved_Err _ => True
     | Resolved_Panic => False
     end) ->
  I s -> (unresolved s < fuel)%nat ->
  exists n' r, resolve_loop ctx cancelled fuel orders n s = Some (n', r) /\
    match r with
    | Resolved_Ok s' => I s'
    | Resolved_Err _ => True
    | Resolved_Panic => False
    end.
Proof.
  intros Hstep. revert n s. induction fuel as [| fuel IH]; intros n s Hs Hf; [lia |]. simpl.
  destruct (rs_remaining_orders s) as [| i rest] eqn:Hrem; [by eexists _, _ |].
  destruct (cancelled n); [by eexists _, _ |].
  destruct (Hstep s i rest Hs Hrem) as (o & -> & Hr).
  destruct (resolve_order _ _ _ _) as [s' | e |]; [| by eexists _, _ | done].
  destruct Hr as [Hs' Hlt]. apply IH; [done | lia].
Qed.

Lemma length_waiting m : length (waiting m) = size m.
Proof. unfold waiting. by rewrite length_fmap, length_map_to_list. Qed.

Lemma remaining_bound s : resolve_inv s ->
  (length (rs_remaining_orders s) + size (rs_pending_orders s) <= length seq0)%nat.
Proof.
  intros Hs. pose proof (submseteq_length _ _ (rv_parts s Hs)) as Hl.
  rewrite !length_app, length_waiting in Hl. lia.
Qed.

Lemma resolve_order_spec s i rest o :
  resolve_inv s -> rs_remaining_orders s = i :: rest -> orders !! i = Some o ->
  match resolve_order ctx (Build_Resolving (rs_building s) (rs_pending_orders s) rest
          (rs_sequenced_order_result s) (rs_total_profit s) (rs_per_order_profits s)) i o with
  | Resolved_Ok s' => resolve_inv s' /\ (unresolved s' < unresolved s)%nat
  | Resolved_Err _ => True
  | Resolved_Panic => False
  end.
Proof.
  intros Hs Hrem Ho. pose proof (remaining_bound s Hs) as Hbound.
  pose proof (proj1 (Forall_lookup _ _) Hproper i o Ho) as Hpo.
  destruct Hs as [Hb Hca Hparts Htotal Hprofit Hrun Hper]. rewrite Hrem in Hparts, Hbound.
  unfold resolve_order. cbn [rs_building rs_pending_orders rs_remaining_orders
    rs_sequenced_order_result rs_total_profit rs_per_order_profits].
  destruct (pb_commit_order ctx o _ (rs_building s)) as [b r] eqn:Hc.
  pose proof (pb_commit_order_spec ctx Hsane _ _ _ _ _ start R0 Hpo Hca Hb Hc) as (Hp & Hb' & Hca' & Herr & Hok).
  destruct r as [[res | err] | e |]; [| | done | done].
  - destruct (Hok res eq_refl) as (_ & Hprofit' & _). unfold handle_successful_commit.
    cbn [rs_building rs_pending_orders rs_remaining_orders rs_sequenced_order_result rs_total_profit
      rs_per_order_profits].
    destruct (wake_orders _ _ _) as [pending' rest'] eqn:Hw. apply wake_orders_perm in Hw.
    split; [split; simpl | ].
    + done.
    + done.
    + rewrite fmap_app. simpl. rewrite <- app_assoc, Hw. exact Hparts.
    + by rewrite fmap_app, foldl_app, <- Htotal.
    + by rewrite Hprofit', Hprofit.
    + by eapply run_success.
    + apply Forall2_app; [done |]. constructor; [| constructor]. simpl. eauto.
    + apply Permutation_length in Hw. rewrite !length_app, !length_waiting in Hw.
      unfold unresolved. rewrite Hrem. simpl in *. nia.
  - destruct (Herr err eq_refl) as [Hsame Hworld].
    assert (Hprofit' : pb_coinbase_profit (bl_block b) = rs_total_profit s) by (by destruct Hsame as [? ? -> ? ? ?]).
    unfold handle_err. destruct (try_get_tx_too_high_error err (so_order o)) as [key |].
    + pose proof (waiting_insert (rs_pending_orders s) key i) as Hins.
      split; [split; simpl; try done; [| by eapply run_failure] |].
      * etrans; [| exact Hparts]. apply submseteq_app; [done |].
        etrans; [apply submseteq_app; [done | exact Hins] |]. by rewrite <- Permutation_middle.
      * apply submseteq_length in Hins. simpl in Hins. rewrite !length_waiting in Hins.
        unfold unresolved. rewrite Hrem. simpl in *. nia.
    + split; [split; simpl; try done; [| by eapply run_failure] |].
      * etrans; [| exact Hparts]. apply submseteq_app; [done |]. simpl. by apply submseteq_cons.
      * unfold unresolved. rewrite Hrem. simpl in *. nia.
Qed.

Lemma resolve_loop_spec fuel n s :
  resolve_inv s -> (forall i, i ∈ seq0 -> is_Some (orders !! i)) -> (unresolved s < fuel)%nat ->
  exists n' r, resolve_loop ctx cancelled fuel orders n s = Some (n', r) /\
    match r with
    | Resolved_Ok s' => resolve_inv s'
    | Resolved_Err _ => True
    | Resolved_Panic => False
    end.
Proof.
  intros Hs Hin. apply loop_invariant; [| done]. clear n s Hs fuel. intros s i rest Hs Hrem.
  destruct (Hin i) as [o Ho].
  { eapply elem_of_submseteq; [| exact (rv_parts s Hs)]. rewrite Hrem. set_solver. }
  exists o. split; [done |]. by apply resolve_order_spec.
Qed.

(** ** Also with a cached prefix the execution ends and does not panic *)
Record resolve_safe (s : Resolve) : Prop := {
  rw_block : block_inv ctx start R0 (bl_block (rs_building s));
  rw_cache : cache_sound ctx (bl_cache (rs_building s));
  rw_valid : Forall (fun i => is_Some (orders !! i))
               ((rs_sequenced_order_result s).*1 ++ rs_remaining_orders s
                  ++ waiting (rs_pending_orders s));
  rw_bound : (length (rs_remaining_orders s) + size (rs_pending_orders s) <= length seq0)%nat;
}.

Lemma resolve_order_safe s i rest o :
  resolve_safe s -> rs_remaining_orders s = i :: rest -> orders !! i = Some o ->
  match resolve_order ctx (Build_Resolving (rs_building s) (rs_pending_orders s) rest
          (rs_sequenced_order_result s) (rs_total_profit s) (rs_per_order_profits s)) i o with
  | Resolved_Ok s' => resolve_safe s' /\ (unresolved s' < unresolved s)%nat
  | Resolved_Err _ => True
  | Resolved_Panic => False
  end.
Proof.
  intros [Hb Hca Hvalid Hbound] Hrem Ho. pose proof (proj1 (Forall_lookup _ _) Hproper i o Ho) as Hpo. rewrite Hrem in Hvalid, Hbound.
  unfold resolve_order. cbn [rs_building rs_pending_orders rs_remaining_orders
    rs_sequenced_order_result rs_total_profit rs_per_order_profits].
  destruct (pb_commit_order ctx o _ (rs_building s)) as [b r] eqn:Hc.
  pose proof (pb_commit_order_spec ctx Hsane _ _ _ _ _ start R0 Hpo Hca Hb Hc) as (Hp & Hb' & Hca' & _).
  destruct r as [[res | err] | e |]; [| | done | done].
  - unfold handle_successful_commit. cbn [rs_building rs_pending_orders rs_remaining_orders
      rs_sequenced_order_result rs_total_profit rs_per_order_profits].
    destruct (wake_orders _ _ _) as [pending' rest'] eqn:Hw. apply wake_orders_perm in Hw.
    pose proof (Permutation_length Hw) as Hlen. rewrite !length_app, !length_waiting in Hlen.
    split; [split; simpl; [done | done | | simpl in *; lia] |].
    + rewrite fmap_app. simpl. by rewrite <- app_assoc, Hw.
    + unfold unresolved. rewrite Hrem. simpl in *. nia.
  - unfold handle_err. destruct (try_get_tx_too_high_error err (so_order o)) as [key |].
    + pose proof (waiting_insert (rs_pending_orders s) key i) as Hins.
      pose proof (submseteq_length _ _ Hins) as Hlen. simpl in Hlen. rewrite !length_waiting in Hlen.
      split; [split; simpl; [done | done | | simpl in *; lia] | unfold unresolved; rewrite Hrem; simpl in *; nia].
      eapply Forall_submseteq; [| exact Hvalid]. apply submseteq_app; [done |].
      etrans; [apply submseteq_app; [done | exact Hins] |]. by rewrite <- Permutation_middle.
    + split; [split; simpl; [done | done | | simpl in *; lia] | unfold unresolved; rewrite Hrem; simpl in *; nia].
      eapply Forall_submseteq; [| exact Hvalid]. apply submseteq_app; [done |]. simpl. by apply submseteq_cons.
Qed.

Lemma resolve_loop_safe fuel n s :
  resolve_safe s -> (unresolved s < fuel)%nat ->
  exists n' r, resolve_loop ctx cancelled fuel orders n s = Some (n', r) /\
    match r with
    | Resolved_Ok s' => resolve_safe s'
    | Resolved_Err _ => True
    | Resolved_Panic => False
    end.
Proof.
  intros Hs. apply loop_invariant; [| done]. clear n s Hs fuel. intros s i rest Hs Hrem.
  destruct (proj1 (Forall_app _ _ _) (rw_valid s Hs)) as [_ Hv]. rewrite Hrem in Hv. apply Forall_cons in Hv as [[o Ho] _].
  exists o. split; [done |]. by apply resolve_order_safe.
Qed.
End loop.

(** ** The cache *)
Definition no_prefix_cached {W} (c : SharedSimulationCache W) (ids : list OrderId) : Prop :=
  forall n, (0 < n <= length ids)%nat -> inner_cache c !! take n ids = None.

Lemma longest_cached_none {W} (c : SharedSimulationCache W) ids :
  no_prefix_cached c ids -> longest_cached (inner_cache c) (length ids) ids = (None, O).
Proof.
  intros Hno.
  assert (Hn : forall n, (n <= length ids)%nat -> longest_cached (inner_cache c) n ids = (None, O)).
  { induction n as [| n IH]; intros Hle; [done |]. cbn [longest_cached].
    rewrite Hno by lia. apply IH. lia. }
  by apply Hn.
Qed.

Lemma longest_cached_full {W} (c : gmap (list OrderId) (CachedSimulationState W)) ids cs :
  ids <> [] -> c !! ids = Some cs -> longest_cached c (length ids) ids = (Some cs, length ids).
Proof.
  intros Hne Hc. destruct ids as [| id ids]; [done |]. cbn [length longest_cached].
  rewrite take_ge by (simpl; lia). by rewrite Hc.
Qed.

(** Positions by id. *)
Lemma foldl_insert_lookup (l : list (OrderId * nat)) (m : gmap OrderId nat) k v :
  NoDup l.*1 -> (k, v) ∈ l -> foldl (fun m p => <[p.1 := p.2]> m) m l !! k = Some v.
Proof.
  intros Hnd. revert m. induction l as [| [k0 v0] l IH]; intros m; [by intros ?%elem_of_nil |].
  simpl in *. apply NoDup_cons in Hnd as [Hk0 Hnd]. intros [[= -> ->] | Hin]%elem_of_cons; [| by apply IH].
  clear IH Hnd. assert (Hm : <[k0 := v0]> m !! k0 = Some v0) by apply lookup_insert_eq.
  revert Hm. generalize (<[k0 := v0]> m) as m'. induction l as [| [k1 v1] l IH]; intros m' Hm; simpl in *; [done |].
  apply not_elem_of_cons in Hk0 as [? ?]. apply IH; [done |]. by rewrite lookup_insert_ne.
Qed.

Lemma order_index_lookup orders i o :
  NoDup (so_id <$> orders) -> orders !! i = Some o ->
  initialize_order_id_to_index_map orders !! so_id o = Some i.
Proof.
  intros Hnd Ho. apply foldl_insert_lookup.
  - rewrite fmap_imap. erewrite imap_ext, (imap_const so_id); [done |]. done.
  - apply list_elem_of_lookup. exists i. by rewrite list_lookup_imap, Ho.
Qed.

Lemma order_index_valid orders id i :
  initialize_order_id_to_index_map orders !! id = Some i -> is_Some (orders !! i).
Proof.
  unfold initialize_order_id_to_index_map.
  assert (H : forall (l : list (OrderId * nat)) (m : gmap OrderId nat),
            foldl (fun m p => <[p.1 := p.2]> m) m l !! id = Some i -> m !! id = Some i \/ (id, i) ∈ l).
  { induction l as [| [k v] l IH]; intros m Hl; simpl in *; [by left |].
    apply IH in Hl as [Hl | Hl]; [| right; by right].
    apply lookup_insert_Some in Hl as [[-> ->] | [_ Hl]]; [right; left | by left]. }
  intros [? | Hin]%H; [done |]. apply list_elem_of_lookup in Hin as (k & Hk).
  rewrite list_lookup_imap in Hk. destruct (orders !! k) as [o |] eqn:Ho; simplify_eq/=. by eexists.
Qed.

Lemma cached_positions orders (seq : list (nat * U256)) (per : list (OrderId * U256)) :
  NoDup (so_id <$> orders) ->
  Forall2 (fun p q => exists o, orders !! p.1 = Some o /\ q = (so_id o, p.2)) seq per ->
  omap (fun p => (fun idx => (idx, p.2)) <$> initialize_order_id_to_index_map orders !! p.1) per = seq.
Proof.
  intros Hnd. induction 1 as [| [i v] q seq per (o & Ho & ->) _ IH]; [done |]. simpl in *.
  rewrite (order_index_lookup _ i o) by done. simpl. f_equal. exact IH.
Qed.

Section process.
Context {W Diff C : Type} `{ChainState W Diff} `{!ChainStateOk W Diff} `{!TxCache W Diff C}.
Context `{PayoutSigner} `{!PayoutSignerOk}.
Context `{!HashOrder Address} `{!HashOrder nat} `{ConstraintCodec}.
Context (ctx : BlockBuildingContext) (state : W) (default_cache : C).
Context `{TxHashing} `{!SignerHashOk} `{!TxCacheOk W Diff C} `{!ExecutionOk ctx} (Hsane : sane_limits ctx).
Context (withdrawals_length : Z) (system_calls : W -> result Diff unit) (cancelled : nat -> bool).
Context (start R0 : BlockSpace) (Hcache : cache_sound ctx default_cache).

Lemma initial_block_profit b :
  initial_block state default_cache withdrawals_length system_calls = Ok b ->
  pb_coinbase_profit (bl_block b) = 0 /\ bl_cache b = default_cache.
Proof.
  unfold initial_block, pre_block_call. simpl. destruct (system_calls state); [by intros [= <-] | done].
Qed.

Lemma start_inv (b : Building W C) orders seq :
  block_inv ctx start R0 (bl_block b) -> cache_sound ctx (bl_cache b) -> pb_coinbase_profit (bl_block b) = 0 ->
  resolve_inv ctx orders seq start R0 b (start_sequence (W := W) b None 0 orders seq).
Proof. intros Hb Hca Hp. split; simpl; try done; [by rewrite app_nil_r | constructor]. Qed.

Lemma cached_again fuel cache n orders seq ids b cs rseq :
  initial_block state default_cache withdrawals_length system_calls = Ok b ->
  initialize_full_order_ids_vec seq orders = Some ids -> inner_cache cache !! ids = Some cs ->
  seq <> [] -> (0 < fuel)%nat -> NoDup (so_id <$> orders) ->
  Forall2 (fun p q => exists o, orders !! p.1 = Some o /\ q = (so_id o, p.2)) rseq
    (cs_per_order_profits cs) ->
  exists cache', process_sequence_of_orders ctx state default_cache withdrawals_length system_calls
      cancelled fuel cache n orders seq =
    Some (cache', n, Resolved_Ok {| rr_total_profit := cs_total_profit cs; rr_sequence_of_orders := rseq |}).
Proof.
  intros Hb Hids Hc Hne Hf Hnd Hper. unfold process_sequence_of_orders. rewrite Hids, Hb.
  assert (Hlen : length ids = length seq) by (symmetry; by eapply length_mapM).
  unfold get_cached_state. rewrite (longest_cached_full _ _ cs); [| by intros ->; destruct seq | done].
  rewrite Hlen. unfold start_sequence. rewrite drop_all. destruct fuel as [| fuel]; [lia |]. simpl.
  rewrite (cached_positions _ rseq) by done. eexists. done.
Qed.

(** C10. Resolving a sequence of orders of which no prefix is in the cache of the
    resolver, on an initial block that satisfies the block invariant, ends
    within the fuel and does not panic. A result names a part of the
    sequence, the total is the sum of the profits, and it is that of a run
    from the initial block, which tries orders of the group one after
    another: the commits that succeed are exactly those of the result, in
    its order and with its profits, those that fail leave the block and its
    state as they were, and the block in the end satisfies the invariant
    with the total as its profit. When the ids of the group are distinct,
    the same (nonempty) sequence resolved again with the cache it left has
    the same result without executing anything. Conditions: the limits of
    the block are far below 2^64, transactions are identified by their
    hashes with encodings and blobs far below 2^64, the interpreter uses at
    most the gas limit of a transaction, which is within that of the block,
    and the cache of executions, which may answer, is sound: what it holds
    was reported by executing the transaction with that hash. *)
Theorem resolver_executes_sequence fuel cache n orders seq ids b :
  initial_block state default_cache withdrawals_length system_calls = Ok b ->
  block_inv ctx start R0 (bl_block b) -> Forall proper_sim orders ->
  initialize_full_order_ids_vec seq orders = Some ids -> no_prefix_cached cache ids ->
  (length seq * S (length seq) + length seq < fuel)%nat ->
  exists cache' n' r, process_sequence_of_orders ctx state default_cache withdrawals_length system_calls
      cancelled fuel cache n orders seq = Some (cache', n', r) /\ r <> Resolved_Panic /\
    forall res, r = Resolved_Ok res ->
      (rr_sequence_of_orders res).*1 ⊆+ seq /\
      rr_total_profit res = foldl u256_add 0 (rr_sequence_of_orders res).*2 /\
      (exists b' : Building W C, run_of ctx orders b (rr_sequence_of_orders res) b' /\
         block_inv ctx start R0 (bl_block b') /\
         pb_coinbase_profit (bl_block b') = rr_total_profit res) /\
      (seq <> [] -> NoDup (so_id <$> orders) -> forall m, exists cache'',
         process_sequence_of_orders ctx state default_cache withdrawals_length system_calls
           cancelled fuel cache' m orders seq = Some (cache'', m, Resolved_Ok res)).
Proof.
  intros Hb Hinv Hproper Hids Hno Hf. destruct (initial_block_profit b Hb) as [Hz Hdc]. unfold process_sequence_of_orders at 1. rewrite Hids.
  unfold get_cached_state. rewrite longest_cached_none, Hb by done.
  assert (Hin : forall i, i ∈ seq -> is_Some (orders !! i)).
  { intros i Hi. apply mapM_Some in Hids. rewrite Forall2_lookup in Hids.
    apply list_elem_of_lookup in Hi as (k & Hk). specialize (Hids k). rewrite Hk in Hids.
    inversion Hids as [? ? Ho |]. by destruct (orders !! i). }
  destruct (resolve_loop_spec ctx Hsane cancelled orders seq start R0 b Hproper fuel n
    (start_sequence b None 0 orders seq)) as (n' & r & Hrun & Hr).
  { apply start_inv; [done | by rewrite Hdc | done]. }
  { done. }
  { unfold unresolved, start_sequence. cbn [rs_remaining_orders rs_pending_orders].
    by rewrite map_size_empty, drop_0, Nat.add_0_r. }
  rewrite Hrun. destruct r as [s | e |]; [| | done].
  2: { do 3 eexists. split; [done |]. split; [done |]. by intros ? [=]. }
  do 3 eexists. split; [done |]. split; [done |]. intros res [= <-]. destruct Hr as [Hblock Hca Hparts Htotal Hprofit Hex Hper].
  simpl. split; [etrans; [| exact Hparts]; by apply submseteq_inserts_r |]. split; [done |].
  split; [by exists (rs_building s) |]. intros Hne Hnd m.
  eapply (cached_again fuel _ m orders seq ids b (Build_CachedSimulationState (bl_world (rs_building s)) (rs_total_profit s) (rs_per_order_profits s)));
    [done.. | apply lookup_insert_eq | done | lia | done | done].
Qed.

(** ** Tasks *)
Definition valid_positions (orders : list SimulatedOrder) (r : ResolutionResult) : Prop :=
  Forall (fun i => is_Some (orders !! i)) (rr_sequence_of_orders r).*1.

Definition safe_result (orders : list SimulatedOrder) (r : Resolved ResolutionResult) : Prop :=
  match r with
  | Resolved_Ok res => valid_positions orders res
  | Resolved_Err _ => True
  | Resolved_Panic => False
  end.

Context (Hblock : forall b, initial_block state default_cache withdrawals_length system_calls = Ok b ->
                  block_inv ctx start R0 (bl_block b)).

Lemma start_safe (b : Building W C) cached k orders seq :
  block_inv ctx start R0 (bl_block b) -> cache_sound ctx (bl_cache b) ->
  Forall (fun i => is_Some (orders !! i)) seq ->
  resolve_safe ctx orders seq start R0 (start_sequence b cached k orders seq).
Proof.
  intros Hb Hca Hseq. split; simpl; [done | done | |].
  - rewrite app_nil_r, Forall_app. split; [| by apply Forall_drop].
    destruct cached as [cs |]; simpl; [| constructor]. apply Forall_fmap, Forall_forall. simpl.
    intros [i v] (p & _ & Hp)%list_elem_of_omap. destruct (_ !! p.1) as [j |] eqn:Hj; simplify_eq/=.
    by eapply order_index_valid.
  - rewrite map_size_empty, length_drop. lia.
Qed.

Lemma process_sequence_safe fuel cache n orders seq :
  Forall proper_sim orders ->
  Forall (fun i => is_Some (orders !! i)) seq ->
  (length seq * S (length seq) + length seq < fuel)%nat ->
  exists cache' n' r, process_sequence_of_orders ctx state default_cache withdrawals_length system_calls
      cancelled fuel cache n orders seq = Some (cache', n', r) /\ safe_result orders r.
Proof.
  intros Hproper Hseq Hf. unfold process_sequence_of_orders.
  destruct (initialize_full_order_ids_vec seq orders) as [ids |] eqn:Hids.
  2: { exfalso. apply mapM_None_1 in Hids. rewrite Forall_forall in Hseq.
       apply Exists_exists in Hids as (i & Hi & Hno). destruct (Hseq i Hi) as [o Ho]. by rewrite Ho in Hno. }
  destruct (get_cached_state cache ids) as [cache1 [cached k]].
  destruct (initial_block _ _ _ _) as [b | e] eqn:Hb; [| by do 3 eexists].
  destruct (resolve_loop_safe ctx Hsane cancelled orders seq start R0 Hproper fuel n
    (start_sequence b cached k orders seq)) as (n' & r & Hrun & Hr).
  { apply start_safe; [by apply Hblock | by rewrite (proj2 (initial_block_profit b Hb)) | done]. }
  { unfold unresolved, start_sequence. cbn [rs_remaining_orders rs_pending_orders].
    rewrite map_size_empty, Nat.add_0_r, length_drop. nia. }
  rewrite Hrun. destruct r as [s | e |]; [| by do 3 eexists | done].
  do 3 eexists. split; [done |]. simpl. unfold valid_positions. simpl.
  by destruct (proj1 (Forall_app _ _ _) (rw_valid _ _ _ _ _ _ Hr)) as [? _].
Qed.

Lemma run_sequences_safe fuel seqs : forall cache n orders best,
  Forall proper_sim orders ->
  Forall (fun seq => Forall (fun i => is_Some (orders !! i)) seq /\
            (length seq * S (length seq) + length seq < fuel)%nat) seqs ->
  valid_positions orders best ->
  exists cache' n' r, run_sequences ctx state default_cache withdrawals_length system_calls cancelled
      fuel cache n orders best seqs = Some (cache', n', r) /\ safe_result orders r.
Proof.
  induction seqs as [| seq seqs IH]; intros cache n orders best Hproper Hall Hbest; simpl; [by do 3 eexists |].
  apply Forall_cons in Hall as [[Hseq Hf] Hall].
  destruct (process_sequence_safe fuel cache n orders seq Hproper Hseq Hf) as (cache1 & n1 & r & -> & Hr).
  destruct r as [res | e |]; [| by do 3 eexists | done]. apply IH; [done | done |].
  unfold best_resolution. by case_decide.
Qed.

Lemma run_conflict_task_safe `{SmallRng} `{!SmallRngOk} fuel cache n task :
  Forall proper_sim (cg_orders (ct_group task)) ->
  let k := length (cg_orders (ct_group task)) in (k * S k + k < fuel)%nat ->
  exists cache' n' r, run_conflict_task ctx state default_cache withdrawals_length system_calls cancelled
      fuel cache n task = Some (cache', n', r) /\ safe_result (cg_orders (ct_group task)) r.
Proof.
  intros Hproper k Hf. apply run_sequences_safe; [done | | constructor]. apply Forall_forall. intros seq Hseq.
  apply sequences_perm in Hseq. split.
  - rewrite Hseq. apply Forall_forall. intros i [_ Hi]%elem_of_seq. by apply lookup_lt_is_Some_2.
  - apply Permutation_length in Hseq. unfold indexes in Hseq. rewrite length_seq in Hseq. by rewrite Hseq.
Qed.
End process.
