(* ===== verification/ParallelBuilder.v ===== *)
(** * The parallel builder (parallel_builder/mod.rs, order_intake_store.rs,
      conflict_resolving_pool.rs, block_building_result_assembler.rs)

    New orders reach the finder in batches, the groups are turned into tasks,
    and blocks are assembled from the best result of each group. *)

From S2P Require Import Prelude Transactions Bundles Orders SimTypes OrderSinks OrderPriority BlockOrders World CommitMonad OrderCommit PartialBlock SimTree ConstraintPool BlockHelper OrderingBuilder ConflictGroups ConflictTasks ConflictResolver.

(** ** Intake *)
Record OrderIntakeStore := {
  is_new_commands : list SimulatedOrderCommand;
  is_order_sink : SimulatedOrderStore;
}.

Definition OrderIntakeStore_new : OrderIntakeStore :=
  {| is_new_commands := []; is_order_sink := SimulatedOrderStore_new |}.

(** Whether the channel is closed is not reported: the result is always [Ok(true)]. *)
Definition consume_next_batch (s : OrderIntakeStore) (events : list ChannelEvent)
  : list ChannelEvent * OrderIntakeStore * bool :=
  let '(events, cs, _) := blocking_consume_next_commands events (is_new_commands s) in
  (events,
   {| is_new_commands := [];
      is_order_sink := foldl (fun s c => simulated_order_command_to_sink c s) (is_order_sink s) cs |},
   true).

Definition try_drain_new_orders_if_no_cancellations (s : OrderIntakeStore)
  : OrderIntakeStore * option (list SimulatedOrder) :=
  let '(sink, orders) := drain_new_orders (is_order_sink s) in
  ({| is_new_commands := is_new_commands s; is_order_sink := sink |}, orders).

(** What the intake loop works on. *)
Record ParallelIntake := {
  pi_store : OrderIntakeStore;
  pi_finder : ConflictFinder;
  pi_generator : ConflictTaskGenerator;
}.

Definition ParallelIntake_new (safe_sorting_only : bool) : ParallelIntake :=
  {| pi_store := OrderIntakeStore_new; pi_finder := ConflictFinder_new;
     pi_generator := ConflictTaskGenerator_new safe_sorting_only |}.

Section intake.
Context `{!HashOrder Address} `{!HashOrder SlotKey}.

(** The new orders of a batch, when it has no cancellations. *)
Definition take_new_orders (now : Z) (p : ParallelIntake) (new_orders : list SimulatedOrder)
  : option ParallelIntake :=
  match new_orders with
  | [] => Some p
  | _ =>
      let! finder := add_orders (pi_finder p) new_orders in
      let! generator := process_groups now (pi_generator p) (get_order_groups finder) in
      Some {| pi_store := pi_store p; pi_finder := finder; pi_generator := generator |}
  end.

(** An iteration of [run_order_intake] that is not cancelled; [None] is a panic,
    [Some None] that the loop is left. *)
Definition order_intake_step (now : Z) (p : ParallelIntake) (events : list ChannelEvent)
  : option (option (list ChannelEvent * ParallelIntake)) :=
  let '(events, store, ok) := consume_next_batch (pi_store p) events in
  if (ok : bool) then
    let '(store, new_orders) := try_drain_new_orders_if_no_cancellations store in
    let p := {| pi_store := store; pi_finder := pi_finder p; pi_generator := pi_generator p |} in
    let! p := match new_orders with
              | Some new_orders => take_new_orders now p new_orders
              | None => Some p
              end in
    Some (Some (events, p))
  else Some None.
End intake.

(** ** Assembling a block *)
Abbreviation Ordering := (ResolutionResult * ConflictGroup)%type.

Definition profit_ge (a b : Ordering) : Prop := rr_total_profit b.1 <= rr_total_profit a.1.
#[export] Instance profit_ge_dec : RelDecision profit_ge.
Proof. intros a b. unfold profit_ge. apply _. Defined.

(** The first group that has orders left gives its next one. *)
Fixpoint next_order (groups : list Ordering) : option (nat * ConflictGroup * list Ordering) :=
  match groups with
  | [] => None
  | (r, g) :: groups =>
      match rr_sequence_of_orders r with
      | (order_idx, _) :: rest =>
          Some (order_idx, g,
                ({| rr_total_profit := rr_total_profit r; rr_sequence_of_orders := rest |}, g) :: groups)
      | [] => let! (order_idx, g', groups) := next_order groups in Some (order_idx, g', (r, g) :: groups)
      end
  end.

Section assembler.
Context {W Diff C : Type} `{ChainState W Diff} `{!TxCache W Diff C} `{PayoutSigner}.
Context `{!HashOrder Address} `{!HashOrder nat} `{ConstraintCodec}.
Context (ctx : BlockBuildingContext).
Abbreviation Helper := (BlockBuildingHelper W C).

(** Commits one order; a failed order is only logged. *)
Definition assemble_order (group : ConflictGroup) (order_idx : nat) : M Helper unit :=
  match cg_orders group !! order_idx with
  | None => panic
  | Some sim_order => let* _ := helper_commit_order ctx sim_order (fun _ => Ok tt) in ret tt
  end.

(** The loop of [build_new_block]; the outer [None] is that the fuel ran out. *)
Fixpoint assemble_loop (cancelled : nat -> bool) (fuel : nat) (n : nat) (groups : list Ordering)
    (h : Helper) : option (Helper * outcome unit) :=
  match fuel with
  | O => None
  | S fuel =>
      if cancelled n then Some (h, Done tt)
      else
        match next_order groups with
        | None => Some (h, Done tt)
        | Some (order_idx, group, groups) =>
            match assemble_order group order_idx h with
            | (h, Done _) => assemble_loop cancelled fuel (S n) groups h
            | (h, r) => Some (h, r)
            end
        end
  end.

Definition build_new_block (cancelled : nat -> bool) (fuel : nat) (h : Helper) (groups : list Ordering)
  : option (Helper * outcome unit) :=
  assemble_loop cancelled fuel 0 (merge_sort profit_ge groups) h.

(** The nested loops of [build_backtest_block]. *)
Fixpoint assemble_sequence (group : ConflictGroup) (sequence_of_orders : list (nat * U256))
  : M Helper unit :=
  match sequence_of_orders with
  | [] => ret tt
  | (order_idx, _) :: rest => let* _ := assemble_order group order_idx in assemble_sequence group rest
  end.

Fixpoint assemble_groups (groups : list Ordering) : M Helper unit :=
  match groups with
  | [] => ret tt
  | (r, g) :: groups =>
      let* _ := assemble_sequence g (rr_sequence_of_orders r) in assemble_groups groups
  end.

Definition build_backtest_block (best_results : gmap nat Ordering) : M Helper unit :=
  assemble_groups (merge_sort profit_ge
    (omap (fun id => best_results !! id) (hash_order (dom best_results)))).

(** ** Backtesting *)
Context (state : W) (default_cache : C).
Context (withdrawals_length : Z) (system_calls : W -> result Diff unit).
Context `{SmallRng} `{!HashOrder SlotKey}.

(** The number of iterations that a sequence of the group can take. *)
Definition sequence_fuel (group : ConflictGroup) : nat :=
  let n := length (cg_orders group) in S (n * S n + n).

(** [process_task] with a token that is never cancelled; [None] is a panic. *)
Definition process_task (cache : SharedSimulationCache W) (task : ConflictTask)
  : option (SharedSimulationCache W * option ConflictResolutionResultPerGroup) :=
  let! (cache, _, r) := run_conflict_task ctx state default_cache withdrawals_length system_calls
                          (fun _ => false) (sequence_fuel (ct_group task)) cache 0 task in
  match r with
  | Resolved_Ok sequence_of_orders =>
      Some (cache, Some (ct_group_idx task, (sequence_of_orders, ct_group task)))
  | Resolved_Err _ => Some (cache, None)
  | Resolved_Panic => None
  end.

Fixpoint process_tasks (cache : SharedSimulationCache W) (tasks : list ConflictTask)
    (results : list ConflictResolutionResultPerGroup)
  : option (SharedSimulationCache W * list ConflictResolutionResultPerGroup) :=
  match tasks with
  | [] => Some (cache, results)
  | task :: tasks =>
      let! (cache, r) := process_task cache task in
      process_tasks cache tasks (results ++ match r with Some result => [result] | None => [] end)
  end.

Definition process_groups_backtest (safe_sorting_only : bool) (now : Z)
    (cache : SharedSimulationCache W) (new_groups : list ConflictGroup)
  : option (SharedSimulationCache W * list ConflictResolutionResultPerGroup) :=
  process_tasks cache
    (new_groups ≫= fun g => get_tasks_for_group g High safe_sorting_only now) [].

(** The first result of each group, the most profitable ones first. *)
Definition result_ge (a b : ConflictResolutionResultPerGroup) : Prop :=
  rr_total_profit (b.2).1 <= rr_total_profit (a.2).1.
#[export] Instance result_ge_dec : RelDecision result_ge.
Proof. intros a b. unfold result_ge. apply _. Defined.

Definition collect_best_results (results : list ConflictResolutionResultPerGroup) : gmap nat Ordering :=
  foldl (fun m r => match m !! r.1 with Some _ => m | None => <[r.1 := r.2]> m end) ∅
    (merge_sort result_ge results).

Definition order_id_le (a b : SimulatedOrder) : Prop := OrderIDCmp a b <> Gt.
#[export] Instance order_id_le_dec : RelDecision order_id_le.
Proof. intros a b. unfold order_id_le. apply _. Defined.

(** The orders that go into the block of a backtest, and the block before it is
    finalized. *)
Definition parallel_build_backtest (safe_sorting_only : bool) (now : Z)
    (sim_orders : list SimulatedOrder) (h : Helper) : option (Helper * outcome unit) :=
  let! finder := add_orders ConflictFinder_new (merge_sort order_id_le sim_orders) in
  let! (_, results) := process_groups_backtest safe_sorting_only now SharedSimulationCache_new
                         (get_order_groups finder) in
  Some (build_backtest_block (collect_best_results results) h).
End assembler.
