(* ===== verification/ParallelBuilderSpec.v ===== *)
(** * The parallel builder: intake, assembly and backtests

    The generator follows the finder through every batch and however the workers
    take tasks; live blocks and backtest blocks are assembled alike; a backtest
    ends, does not panic, and builds a block of the given orders. *)

From S2P Require Import Prelude Transactions Bundles Orders SimTypes OrderSinks OrderPriority BlockOrders World CommitMonad OrderCommit OrderCommitSafe OrderCommitSpec PartialBlock PartialBlockInv SimTree ConstraintPool BlockHelper BlockHelperSpec OrderingBuilder OrderingBuilderSpec ConflictGroups ConflictIndex ConflictGroupsSpec ConflictTasks ConflictTasksSpec ConflictResolver ConflictResolverSpec ParallelBuilder.

(** ** Intake *)
Definition with_generator (p : ParallelIntake) (g : ConflictTaskGenerator) : ParallelIntake :=
  {| pi_store := pi_store p; pi_finder := pi_finder p; pi_generator := g |}.

(** The commands of the next batch. *)
Definition batch_of (p : ParallelIntake) (events : list ChannelEvent) : list SimulatedOrderCommand :=
  (blocking_consume_next_commands events (is_new_commands (pi_store p))).1.2.

Definition batch_orders (cs : list SimulatedOrderCommand) : list SimulatedOrder :=
  omap (fun c => match c with Simulation o => Some o | Cancellation _ => None end) cs.

Definition is_cancellation (c : SimulatedOrderCommand) : bool :=
  match c with Simulation _ => false | Cancellation _ => true end.

(** New orders are kept until the first removal. *)
Lemma new_orders_fold cs s :
  sos_new_orders (foldl (fun s c => simulated_order_command_to_sink c s) s cs) =
  if existsb is_cancellation cs then None
  else (fun l => l ++ batch_orders cs) <$> sos_new_orders s.
Proof.
  revert s. induction cs as [| c cs IH]; intros s; simpl.
  { destruct (sos_new_orders s); simpl; [by rewrite app_nil_r | done]. }
  rewrite IH. destruct c as [o | id]; simpl.
  - destruct (existsb is_cancellation cs); [done |]. destruct (sos_new_orders s); simpl; [| done].
    by rewrite <- app_assoc.
  - by destruct (existsb is_cancellation cs).
Qed.

Section intake.
Context `{!HashOrder Address} `{!HashOrder SlotKey} `{!HashOrderOk Address} `{!HashOrderOk SlotKey}.

Inductive parallel_reachable : ParallelIntake -> Prop :=
| reachable_start safe : parallel_reachable (ParallelIntake_new safe)
| reachable_batch now p events events' p' :
    parallel_reachable p -> order_intake_step now p events = Some (Some (events', p')) ->
    parallel_reachable p'
| reachable_pop p t q :
    parallel_reachable p -> tg_task_queue (pi_generator p) = t :: q ->
    parallel_reachable (with_generator p (set_queue (pi_generator p) q)).

(** The store is drained after each batch. *)
Definition drained (p : ParallelIntake) : Prop :=
  is_new_commands (pi_store p) = [] /\ sos_new_orders (is_order_sink (pi_store p)) = Some [].

Lemma intake_step_eq now p events :
  drained p ->
  exists events' store', order_intake_step now p events =
    (let p1 := {| pi_store := store'; pi_finder := pi_finder p; pi_generator := pi_generator p |} in
     let! p' := if existsb is_cancellation (batch_of p events) then Some p1
                else take_new_orders now p1 (batch_orders (batch_of p events)) in
     Some (Some (events', p'))) /\
    is_new_commands store' = [] /\ sos_new_orders (is_order_sink store') = Some [].
Proof.
  intros [Hcmd Hnew]. unfold order_intake_step, consume_next_batch, batch_of.
  destruct (blocking_consume_next_commands events _) as [[events' cs] open] eqn:Hc. simpl.
  pose proof (new_orders_fold cs (is_order_sink (pi_store p))) as Hfold. rewrite Hnew in Hfold.
  set (sink := foldl _ _ cs) in *. exists events', {| is_new_commands := [];
    is_order_sink := {| sos_orders := sos_orders sink; sos_new_orders := Some [] |} |}.
  rewrite Hfold. split; [| done]. by destruct (existsb is_cancellation cs).
Qed.

Lemma take_new_orders_spec now p os :
  tracks (pi_finder p) (pi_generator p) ->
  exists p', take_new_orders now p os = Some p' /\ tracks (pi_finder p') (pi_generator p') /\
    pi_store p' = pi_store p /\
    forall n, n ∈ get_order_groups (pi_finder p') -> scheduled (pi_generator p) (pi_generator p') n.
Proof.
  intros Htr. unfold take_new_orders. destruct os as [| o os].
  { exists p. split; [done |]. split; [done |]. split; [done |].
    intros n Hn. left. by apply (tr_known _ _ Htr). }
  destruct (add_orders_spec (pi_finder p) (o :: os) (tr_finder _ _ Htr)) as (cf & -> & Hinv & Hgrow & _).
  destruct (tracks_process now _ cf _ Htr Hinv Hgrow) as (g & -> & Htr' & Hsched).
  eexists. split; [done |]. done.
Qed.

Lemma intake_step_spec now p events :
  drained p -> tracks (pi_finder p) (pi_generator p) ->
  exists events' p', order_intake_step now p events = Some (Some (events', p')) /\
    drained p' /\ tracks (pi_finder p') (pi_generator p') /\
    forall n, n ∈ get_order_groups (pi_finder p') -> scheduled (pi_generator p) (pi_generator p') n.
Proof.
  intros Hd Htr. destruct (intake_step_eq now p events Hd) as (events' & store' & -> & Hd').
  destruct (existsb is_cancellation (batch_of p events)).
  - do 2 eexists. split; [done |]. split; [done |]. split; [done |].
    intros n Hn. left. by apply (tr_known _ _ Htr).
  - cbv zeta. destruct (take_new_orders_spec now
      {| pi_store := store'; pi_finder := pi_finder p; pi_generator := pi_generator p |}
      (batch_orders (batch_of p events)) Htr) as (p' & -> & Htr' & Hst & Hsched).
    exists events', p'. split; [done |]. split; [| done]. unfold drained. by rewrite Hst.
Qed.

Lemma reachable_tracks p :
  parallel_reachable p -> drained p /\ tracks (pi_finder p) (pi_generator p).
Proof.
  induction 1 as [safe | now p events events' p' _ [Hd Htr] Hstep | p t q _ [Hd Htr] Hq].
  - split; [done | apply tracks_new].
  - destruct (intake_step_spec now p events Hd Htr) as (ev & p1 & Heq & Hd' & Htr' & _). by simplify_eq.
  - split; [done |]. by eapply tracks_pop.
Qed.

(** C11. In every state the order intake of the parallel builder reaches, the task
    generator knows exactly the groups of the conflict finder, every queued
    task is for the current version of its group, and an iteration neither
    fails nor panics and leaves every current group scheduled: with a task
    of its own, with a result when it has one order, or unchanged. *)
Theorem parallel_intake_tracks_groups p :
  parallel_reachable p ->
  (forall t, t ∈ tg_task_queue (pi_generator p) ->
     tg_existing_groups (pi_generator p) !! ct_group_idx t = Some (ct_group t)) /\
  (forall i, is_Some (tg_existing_groups (pi_generator p) !! i) <->
     exists n, n ∈ get_order_groups (pi_finder p) /\ cg_id n = i) /\
  (forall n, n ∈ get_order_groups (pi_finder p) -> known (pi_generator p) n) /\
  (forall now events, exists events' p', order_intake_step now p events = Some (Some (events', p')) /\
     forall n, n ∈ get_order_groups (pi_finder p') -> scheduled (pi_generator p) (pi_generator p') n).
Proof.
  intros Hp. destruct (reachable_tracks p Hp) as [Hd Htr].
  split; [| split; [| split]].
  - intros t Ht. by destruct (tr_tasks _ _ Htr t Ht).
  - intros i. split.
    + intros Hi. apply (tr_live _ _ Htr) in Hi as [gd Hgd].
      eexists. split; [apply elem_of_order_groups; eauto | done].
    + intros (n & Hn & <-). apply (tr_known _ _ Htr) in Hn as (eg & Heg & _). by eexists.
  - apply (tr_known _ _ Htr).
  - intros now events. destruct (intake_step_spec now p events Hd Htr) as (events' & p' & Hs & _ & _ & ?). eauto.
Qed.

(** A later batch that does not bring an order with the id again. *)
Definition later_without (id : OrderId) (p p' : ParallelIntake) : Prop :=
  exists now events events', order_intake_step now p events = Some (Some (events', p')) /\
    id ∉ so_id <$> batch_orders (batch_of p events).

Lemma step_ids now p events events' p' :
  drained p -> order_intake_step now p events = Some (Some (events', p')) ->
  drained p' /\
  if existsb is_cancellation (batch_of p events)
  then pi_finder p' = pi_finder p /\ pi_generator p' = pi_generator p
  else cf_orders (pi_finder p') = list_to_set (so_id <$> batch_orders (batch_of p events))
                                    ∪ cf_orders (pi_finder p).
Proof.
  intros Hd. destruct (intake_step_eq now p events Hd) as (ev & store' & -> & Hd').
  destruct (existsb is_cancellation (batch_of p events)); [by intros [= <- <-] |]. cbv zeta.
  unfold take_new_orders. destruct (batch_orders (batch_of p events)) as [| o os].
  { intros [= <- <-]. split; [done |]. simpl. set_solver. }
  destruct (add_orders (pi_finder _) (o :: os)) as [cf |] eqn:Ha; [| done].
  destruct (process_groups now _ _); [| done]. intros [= <- <-]. split; [done |]. simpl.
  by apply add_orders_ids in Ha.
Qed.

(** When a batch of the parallel intake holds a cancellation, the iteration
    changes neither the groups nor the tasks, and a new order of that batch
    is never grouped afterwards unless it is sent again. *)
Theorem cancellation_drops_batch now p events events' p' o :
  parallel_reachable p -> order_intake_step now p events = Some (Some (events', p')) ->
  existsb is_cancellation (batch_of p events) = true -> o ∈ batch_orders (batch_of p events) ->
  so_id o ∉ cf_orders (pi_finder p) ->
  pi_finder p' = pi_finder p /\ pi_generator p' = pi_generator p /\
  forall p2, rtc (later_without (so_id o)) p' p2 -> so_id o ∉ cf_orders (pi_finder p2).
Proof.
  intros Hp Hstep Hcancel Ho Hnew. destruct (reachable_tracks p Hp) as [Hd _].
  destruct (step_ids _ _ _ _ _ Hd Hstep) as [Hd' Hsame]. rewrite Hcancel in Hsame.
  destruct Hsame as [Hf Hg]. split; [done |]. split; [done |]. rewrite <- Hf in Hnew. clear Hf Hg.
  clear Hstep. intros p2 Hrtc. revert Hd' Hnew.
  induction Hrtc as [p' | p1 p2 p3 (now' & ev & ev' & Hs & Hno) _ IH]; [done |]. intros Hd' Hnew.
  destruct (step_ids _ _ _ _ _ Hd' Hs) as [Hd2 Hids]. apply IH; [done |].
  destruct (existsb is_cancellation (batch_of p1 ev)); [by destruct Hids as [-> _] |].
  rewrite Hids. set_solver.
Qed.
End intake.

(** ** Assembly *)
Definition orders_left (groups : list Ordering) : nat :=
  sum_list_with (fun p => length (rr_sequence_of_orders p.1)) groups.

(** The orders of the groups in the order in which they are committed. *)
Definition group_sequence (g : ConflictGroup) (s : list (nat * U256)) : list SimulatedOrder :=
  omap (fun i => cg_orders g !! i) s.*1.
Definition assembled (groups : list Ordering) : list SimulatedOrder :=
  groups ≫= fun p => group_sequence p.2 (rr_sequence_of_orders p.1).

Definition ordering_valid (p : Ordering) : Prop := valid_positions (cg_orders p.2) p.1.

Section assembly.
Context {W Diff C : Type} `{ChainState W Diff} `{!ChainStateOk W Diff} `{!TxCache W Diff C}.
Context `{PayoutSigner} `{!PayoutSignerOk}.
Context `{!HashOrder Address} `{!HashOrder nat} `{ConstraintCodec}.
Context (ctx : BlockBuildingContext).
Abbreviation Helper := (BlockBuildingHelper W C).

Lemma next_order_None groups (h : Helper) :
  next_order groups = None -> assemble_groups ctx groups h = (h, Done tt).
Proof.
  induction groups as [| [r g] groups IH]; [done |]. simpl.
  destruct (rr_sequence_of_orders r) as [| [i v] rest]; [| done].
  destruct (next_order groups) as [[[i g'] gs] |]; [done |]. intros _. by apply IH.
Qed.

Lemma next_order_Some groups i g groups' (h : Helper) :
  next_order groups = Some (i, g, groups') ->
  assemble_groups ctx groups h =
    (let* _ := assemble_order ctx g i in assemble_groups ctx groups') h /\
  orders_left groups = S (orders_left groups').
Proof.
  revert groups'. induction groups as [| [r g0] groups IH]; intros groups'; [done |]. simpl.
  destruct (rr_sequence_of_orders r) as [| [i0 v] rest] eqn:Hr.
  - destruct (next_order groups) as [[[i1 g1] gs] |]; [| done]. intros [= -> -> <-].
    destruct (IH gs eq_refl) as [Hrun Hleft]. split; [| unfold orders_left in *; simpl; by rewrite Hr, Hleft].
    transitivity (assemble_groups ctx groups h); [done |]. rewrite Hrun. unfold bind.
    destruct (assemble_order ctx g i h) as [h1 [[] | |]]; [| done..]. simpl. by rewrite Hr.
  - intros [= -> -> <-]. simpl. split; [| done]. unfold bind. destruct (assemble_order ctx g i h) as [h1 [[] | |]]; done.
Qed.

Lemma assemble_loop_eq fuel n groups (h : Helper) :
  (orders_left groups < fuel)%nat ->
  assemble_loop ctx (fun _ => false) fuel n groups h = Some (assemble_groups ctx groups h).
Proof.
  revert n groups h. induction fuel as [| fuel IH]; intros n groups h Hf; [lia |]. simpl.
  destruct (next_order groups) as [[[i g] groups'] |] eqn:Hn; [| by rewrite next_order_None].
  destruct (next_order_Some _ _ _ _ h Hn) as [-> Hleft]. unfold bind.
  destruct (assemble_order ctx g i h) as [h1 [[] | |]]; [| done..]. apply IH. lia.
Qed.

(** C12. Assembling a block from the best orderings of the groups while it runs live,
    which picks the next order from the group with the most profit, and
    assembling it for a backtest, which walks the groups one after another,
    give the same block when nothing is cancelled. *)
Theorem live_and_backtest_assembly_agree fuel (best_results : gmap nat Ordering) (h : Helper) :
  let groups := omap (fun id => best_results !! id) (hash_order (dom best_results)) in
  (orders_left groups < fuel)%nat ->
  build_new_block ctx (fun _ => false) fuel h groups = Some (build_backtest_block ctx best_results h).
Proof.
  intros groups Hf. apply assemble_loop_eq. unfold orders_left in *.
  by rewrite (sum_list_with_perm _ _ _ (merge_sort_Permutation profit_ge groups)).
Qed.

Context `{TxHashing} `{!SignerHashOk} `{!TxCacheOk W Diff C} `{!ExecutionOk ctx} (Hsane : sane_limits ctx) (start R0 : BlockSpace).

(** What assembling from [h] gives: a sound block with orders of the list added. *)
Definition assembles (os : list SimulatedOrder) (m : M Helper unit) : Prop :=
  forall h h' r, helper_ok ctx start R0 h -> m h = (h', r) ->
    r <> Panic /\ helper_ok ctx start R0 h' /\
    exists new, included h' = included h ++ new /\ er_order <$> new `sublist_of` so_order <$> os.

Lemma assembles_bind os1 os2 m k :
  assembles os1 m -> assembles os2 k -> assembles (os1 ++ os2) (let* _ := m in k).
Proof.
  intros Hm Hk h h' r Hh. unfold bind. destruct (m h) as [h1 r1] eqn:Hm1.
  destruct (Hm _ _ _ Hh Hm1) as (Hp & Hh1 & new1 & Hinc1 & Hsub1).
  assert (Hstop : so_order <$> os1 `sublist_of` so_order <$> os1 ++ os2).
  { rewrite fmap_app. by apply sublist_inserts_r. }
  destruct r1 as [[] | e |]; [| | done].
  - intros Hr. destruct (Hk _ _ _ Hh1 Hr) as (Hp2 & Hh2 & new2 & Hinc2 & Hsub2).
    split; [done |]. split; [done |]. exists (new1 ++ new2). rewrite Hinc2, Hinc1, app_assoc.
    split; [done |]. rewrite !fmap_app. by apply sublist_app.
  - intros [= <- <-]. split; [done |]. split; [done |]. exists new1. split; [done |]. by etrans.
Qed.

Lemma assembles_ret : assembles [] (ret tt).
Proof.
  intros h h' r Hh [= <- <-]. split; [done |]. split; [done |]. exists []. by rewrite app_nil_r.
Qed.

Lemma assemble_order_spec g i o : cg_orders g !! i = Some o -> proper_sim o -> assembles [o] (assemble_order ctx g i).
Proof.
  intros Ho Hpo h h' r Hh. unfold assemble_order. rewrite Ho. unfold bind.
  destruct (helper_commit_order ctx o _ h) as [h1 r1] eqn:Hc.
  destruct (helper_commit_order_spec ctx Hsane _ _ _ _ _ start R0 Hh Hpo Hc) as (Hp & Hh1 & Hinc).
  destruct r1 as [[res | e] | e |]; [| | | done]; intros [= <- <-]; (split; [done |]); (split; [done |]).
  - destruct Hinc as (Hinc & Hord & _). exists [res]. split; [done |]. simpl. by rewrite Hord.
  - exists []. rewrite app_nil_r. split; [done |]. apply sublist_nil_l.
  - exists []. rewrite app_nil_r. split; [done |]. apply sublist_nil_l.
Qed.

Lemma assemble_groups_spec groups :
  Forall ordering_valid groups -> Forall (fun p => Forall proper_sim (cg_orders p.2)) groups ->
  assembles (assembled groups) (assemble_groups ctx groups).
Proof.
  induction 1 as [| [r g] groups Hv _ IH]; [intros; apply assembles_ret |].
  intros [Hpo Hall]%Forall_cons. specialize (IH Hall). simpl in Hpo. cbn [assemble_groups].
  apply (assembles_bind (group_sequence g (rr_sequence_of_orders r)) (assembled groups)); [| done].
  unfold ordering_valid, valid_positions in Hv. simpl in Hv. unfold group_sequence.
  induction (rr_sequence_of_orders r) as [| [i v] rest IHr]; [apply assembles_ret |]. simpl in *.
  apply Forall_cons in Hv as [[o Ho] Hv]. rewrite Ho.
  apply (assembles_bind [o]); [| by apply IHr].
  apply assemble_order_spec; [done |]. by eapply Forall_lookup_1.
Qed.
End assembly.

(** ** The backtest *)
Section backtest.
Context {W Diff C : Type} `{ChainState W Diff} `{!ChainStateOk W Diff} `{!TxCache W Diff C}.
Context `{PayoutSigner} `{!PayoutSignerOk}.
Context `{!HashOrder Address} `{!HashOrder nat} `{!HashOrder SlotKey} `{ConstraintCodec}.
Context `{!HashOrderOk Address} `{!HashOrderOk SlotKey} `{SmallRng} `{!SmallRngOk}.
Context (ctx : BlockBuildingContext) (state : W) (default_cache : C).
Context `{TxHashing} `{!SignerHashOk} `{!TxCacheOk W Diff C} `{!ExecutionOk ctx} (Hsane : sane_limits ctx).
Context (Hcache : cache_sound ctx default_cache).
Context (withdrawals_length : Z) (system_calls : W -> result Diff unit).
Context (start R0 start1 R1 : BlockSpace).
Context (Hblock : forall b, initial_block state default_cache withdrawals_length system_calls = Ok b ->
                  block_inv ctx start1 R1 (bl_block b)).
Abbreviation Helper := (BlockBuildingHelper W C).

Lemma process_task_safe cache task :
  Forall proper_sim (cg_orders (ct_group task)) ->
  exists cache' r, process_task ctx state default_cache withdrawals_length system_calls cache task =
      Some (cache', r) /\
    forall res, r = Some res -> ordering_valid res.2 /\ (res.2).2 = ct_group task.
Proof.
  intros Hpo. unfold process_task.
  destruct (run_conflict_task_safe ctx state default_cache Hsane withdrawals_length system_calls
    (fun _ => false) start1 R1 Hcache Hblock (sequence_fuel (ct_group task)) cache 0 task) as (cache' & n & r & -> & Hr).
  { done. }
  { unfold sequence_fuel. lia. }
  destruct r as [res | e |]; [| by do 2 eexists | done]. do 2 eexists. split; [done |].
  by intros ? [= <-].
Qed.

Lemma process_tasks_safe tasks : forall cache results,
  Forall (fun t => Forall proper_sim (cg_orders (ct_group t))) tasks ->
  (forall r, r ∈ results -> ordering_valid r.2) ->
  exists cache' results', process_tasks ctx state default_cache withdrawals_length system_calls cache
      tasks results = Some (cache', results') /\
    forall r, r ∈ results' ->
      ordering_valid r.2 /\ (r ∈ results \/ exists t, t ∈ tasks /\ (r.2).2 = ct_group t).
Proof.
  induction tasks as [| t tasks IH]; intros cache results Hpo Hv; simpl; [eauto 10 |].
  apply Forall_cons in Hpo as [Hpt Hpo].
  destruct (process_task_safe cache t Hpt) as (cache1 & r & -> & Hr).
  set (results1 := results ++ _).
  assert (Hstep : forall x, x ∈ results1 -> ordering_valid x.2 /\ (x ∈ results \/ (x.2).2 = ct_group t)).
  { intros x [Hx | Hx]%elem_of_app; [auto |]. destruct r as [res |]; [| by apply elem_of_nil in Hx].
    apply list_elem_of_singleton in Hx as ->. destruct (Hr res eq_refl). auto. }
  destruct (IH cache1 results1) as (cache' & results' & -> & Hres); [done | intros x Hx; by apply Hstep |].
  do 2 eexists. split; [done |]. intros x Hx. destruct (Hres x Hx) as [? [Hin | (t' & ? & ?)]].
  - split; [done |]. destruct (Hstep x Hin) as [_ [? | ?]]; [by left |]. right. exists t. split; [left | done].
  - split; [done |]. right. exists t'. split; [by right | done].
Qed.

Lemma collect_best_elem results id p :
  collect_best_results results !! id = Some p -> (id, p) ∈ results.
Proof.
  unfold collect_best_results. pose proof (merge_sort_Permutation result_ge results) as Hperm.
  assert (Hgen : forall l (m : gmap nat Ordering),
    foldl (fun m r => match m !! r.1 with Some _ => m | None => <[r.1 := r.2]> m end) m l !! id = Some p ->
    m !! id = Some p \/ (id, p) ∈ l).
  { induction l as [| [i q] l IH]; intros m; simpl; [by left |]. intros [Hm | Hl]%IH; [| right; by right].
    destruct (m !! i) eqn:Hi; [by left |].
    apply lookup_insert_Some in Hm as [[-> ->] | [_ Hm]]; [right; left | by left]. }
  intros [? | Hin]%Hgen; [done |]. by rewrite Hperm in Hin.
Qed.

(** The backtest of the parallel builder ends without panic on any simulated
    orders: grouping, scheduling, resolving and assembling run through, the
    helper invariant holds in the end, and the block grew only by orders
    that were given. *)
Theorem parallel_backtest_block safe now sim_orders (h : Helper) :
  helper_ok ctx start R0 h -> Forall proper_sim sim_orders ->
  exists h' r, parallel_build_backtest ctx state default_cache withdrawals_length system_calls safe now
      sim_orders h = Some (h', r) /\ r <> Panic /\ helper_ok ctx start R0 h' /\
    exists new, included h' = included h ++ new /\
      forall er, er ∈ new -> exists o, o ∈ sim_orders /\ er_order er = so_order o.
Proof.
  intros Hh Hproper. unfold parallel_build_backtest.
  destruct (add_orders_spec ConflictFinder_new (merge_sort order_id_le sim_orders) finder_inv_new)
    as (cf & -> & Hinv & _ & Hgr). simpl in Hgr. rewrite app_nil_r in Hgr.
  unfold process_groups_backtest. set (tasks := get_order_groups cf ≫= _).
  assert (Hgiven : forall t o, t ∈ tasks -> o ∈ cg_orders (ct_group t) -> o ∈ sim_orders).
  { intros t o (g & Ht & Hgin)%list_elem_of_bind Ho. apply tasks_of_group in Ht as [_ Htg].
    rewrite <- (merge_sort_Permutation order_id_le sim_orders). eapply (accepted_subset ∅).
    rewrite <- Hgr, <- order_groups_grouped. apply list_elem_of_bind. exists g. by rewrite Htg in Ho. }
  assert (Hproper' : forall t, t ∈ tasks -> Forall proper_sim (cg_orders (ct_group t))).
  { intros t Ht. apply Forall_forall. intros o Ho. rewrite Forall_forall in Hproper. eauto. }
  destruct (process_tasks_safe tasks SharedSimulationCache_new []) as (cache & results & -> & Hres);
    [by apply Forall_forall | by intros r ?%elem_of_nil |].
  set (best := collect_best_results results). unfold build_backtest_block.
  set (groups := merge_sort profit_ge _).
  assert (Hbest : forall p, p ∈ groups -> exists id, (id, p) ∈ results).
  { intros p. subst groups. rewrite (merge_sort_Permutation profit_ge).
    intros (id & _ & Hp)%list_elem_of_omap. exists id. by apply collect_best_elem. }
  assert (Hvalid : Forall ordering_valid groups).
  { apply Forall_forall. intros p (id & Hp)%Hbest. by apply Hres in Hp as [? _]. }
  assert (Hgroups : Forall (fun p => Forall proper_sim (cg_orders p.2)) groups).
  { apply Forall_forall. intros p (id & [_ [?%elem_of_nil | (t & Ht & Hg)]]%Hres)%Hbest; [done |].
    simpl in Hg. rewrite Hg. auto. }
  destruct (assemble_groups ctx groups h) as [h' r] eqn:Hrun.
  destruct (assemble_groups_spec ctx Hsane start R0 groups Hvalid Hgroups h h' r Hh Hrun) as (Hp & Hh' & new & Hinc & Hsub).
  exists h', r. split; [done |]. split; [done |]. split; [done |]. exists new. split; [done |].
  intros er Her. assert (Hin : er_order er ∈ so_order <$> assembled groups).
  { eapply elem_of_submseteq; [by apply list_elem_of_fmap_2 | by apply sublist_submseteq]. }
  apply list_elem_of_fmap in Hin as (o & -> & Ho). exists o. split; [| done].
  apply list_elem_of_bind in Ho as (p & Ho & (id & Hp')%Hbest).
  apply list_elem_of_omap in Ho as (i & _ & Ho). apply Hres in Hp' as (_ & [?%elem_of_nil | (t & Ht & Hg)]); [done |].
  apply (Hgiven t o Ht). rewrite <- Hg. by eapply list_elem_of_lookup_2.
Qed.
End backtest.
