(* ===== verification/ShareBundleMerger.v ===== *)
(** * Merging of share bundles (building/block_orders/share_bundle_merger.rs,
      multi_share_bundle_merger.rs, live_builder/building/mod.rs)

    Share bundles that backrun the same user transactions are replaced by one
    order that holds them all as skippable parts.  The source shares managers and
    sinks by [Rc<RefCell<_>>]: here a manager and a sink have an address in a
    [Memory], and a reference is its address.  The [Rc] of a merger has a single
    owner and is the merger itself. *)

From S2P Require Import Prelude Transactions Bundles Orders SimTypes BlockOrders.

(** ** [BTreeMap]: an association list in the order of its keys *)
Section btree.
Context {K V : Type} (cmp : K -> K -> comparison).

Fixpoint btree_insert (k : K) (v : V) (l : list (K * V)) : list (K * V) :=
  match l with
  | [] => [(k, v)]
  | (k', v') :: l' =>
      match cmp k k' with
      | Lt => (k, v) :: l
      | Eq => (k', v) :: l'
      | Gt => (k', v') :: btree_insert k v l'
      end
  end.

Fixpoint btree_remove (k : K) (l : list (K * V)) : list (K * V) * option V :=
  match l with
  | [] => ([], None)
  | (k', v') :: l' =>
      match cmp k k' with
      | Lt => (l, None)
      | Eq => (l', Some v')
      | Gt => let '(l'', r) := btree_remove k l' in ((k', v') :: l'', r)
      end
  end.
End btree.

(** ** A share bundle that can be merged *)
Record BrokenDownShareBundle := {
  bd_sim_order : SimulatedOrder;
  bd_user_bundle_hash : B256;
  bd_user_kickback : U256;
}.

Definition bd_sbundle (b : BrokenDownShareBundle) : option ShareBundle :=
  match so_order (bd_sim_order b) with Order_ShareBundle sb => Some sb | _ => None end.

Record BrokenDownShareBundleSortKey := { bk_order_id : OrderId; bk_user_kickback : U256 }.

Definition SortKey_new (b : BrokenDownShareBundle) : BrokenDownShareBundleSortKey :=
  {| bk_order_id := so_id (bd_sim_order b); bk_user_kickback := bd_user_kickback b |}.

(** The highest kickback first, then by id. *)
Definition SortKey_cmp (a b : BrokenDownShareBundleSortKey) : comparison :=
  match CompOpp (bk_user_kickback a ?= bk_user_kickback b) with
  | Eq => OrderId_cmp (bk_order_id a) (bk_order_id b)
  | res => res
  end.

(** ** The orders that backrun one user bundle *)
Record MultiBackrunManager := {
  last_multi_order_id : option OrderId;
  mb_user_bundle_hash : B256;
  sorted_orders : list (BrokenDownShareBundleSortKey * BrokenDownShareBundle);
  order_kickbacks : gmap OrderId U256;
  mb_order_sink : nat;
}.

Definition MultiBackrunManager_new (user_bundle_hash : B256) (order_sink : nat) : MultiBackrunManager :=
  {| last_multi_order_id := None; mb_user_bundle_hash := user_bundle_hash; sorted_orders := [];
     order_kickbacks := ∅; mb_order_sink := order_sink |}.

Definition Manager_clone_with_sink (m : MultiBackrunManager) (order_sink : nat) : MultiBackrunManager :=
  {| last_multi_order_id := last_multi_order_id m; mb_user_bundle_hash := mb_user_bundle_hash m;
     sorted_orders := sorted_orders m; order_kickbacks := order_kickbacks m;
     mb_order_sink := order_sink |}.

(** The part that an order becomes in the merged bundle. *)
Definition skippable (id : OrderId) (b : ShareBundleInner) : ShareBundleInner :=
  let '(mk_ShareBundleInner body refund config _ _) := b in
  mk_ShareBundleInner body refund config true (Some id).

Definition merged_part (b : BrokenDownShareBundle) : option (ShareBundleBody * Order) :=
  match bd_sbundle b with
  | Some sbundle =>
      Some (Body_Bundle (skippable (so_id (bd_sim_order b)) (sb_inner_bundle sbundle)),
            so_order (bd_sim_order b))
  | None => None
  end.

Definition merge_orders `{BundleHashing} (m : MultiBackrunManager) : option SimulatedOrder :=
  match sorted_orders m with
  | [] => None
  | (_, highest_payback_order) :: _ =>
      let! highest_payback_order_bundle := bd_sbundle highest_payback_order in
      let parts := omap merged_part (snd <$> sorted_orders m) in
      let inner_bundle := mk_ShareBundleInner parts.*1 [] [] false None in
      let sbundle := ShareBundle_new (sb_block highest_payback_order_bundle)
                       (sb_max_block highest_payback_order_bundle) inner_bundle
                       (sb_signer highest_payback_order_bundle) None parts.*2
                       (Order_metadata (so_order (bd_sim_order highest_payback_order))) in
      Some {| so_order := Order_ShareBundle sbundle;
              so_sim_value := so_sim_value (bd_sim_order highest_payback_order);
              so_used_state_trace := so_used_state_trace (bd_sim_order highest_payback_order) |}
  end.

Definition set_last (m : MultiBackrunManager) (id : option OrderId) : MultiBackrunManager :=
  {| last_multi_order_id := id; mb_user_bundle_hash := mb_user_bundle_hash m;
     sorted_orders := sorted_orders m; order_kickbacks := order_kickbacks m;
     mb_order_sink := mb_order_sink m |}.

Definition set_orders (m : MultiBackrunManager)
    (orders : list (BrokenDownShareBundleSortKey * BrokenDownShareBundle))
    (kickbacks : gmap OrderId U256) : MultiBackrunManager :=
  {| last_multi_order_id := last_multi_order_id m; mb_user_bundle_hash := mb_user_bundle_hash m;
     sorted_orders := orders; order_kickbacks := kickbacks; mb_order_sink := mb_order_sink m |}.

Section merger.
Context {S : Type} `{!SimulatedOrderSink S} `{!BundleHashing}.

Definition regenerate_multi_order (m : MultiBackrunManager) (s : S) : MultiBackrunManager * S :=
  let s := match last_multi_order_id m with
           | Some id => (sim_remove_order s id).1
           | None => s
           end in
  match sorted_orders m with
  | [] => (set_last m None, s)
  | _ =>
      match merge_orders m with
      | None => (m, s)
      | Some merged_order => (set_last m (Some (so_id merged_order)), sim_insert_order s merged_order)
      end
  end.

Definition Manager_insert_order (order : BrokenDownShareBundle) (m : MultiBackrunManager) (s : S)
  : MultiBackrunManager * S :=
  let id := so_id (bd_sim_order order) in
  match order_kickbacks m !! id with
  | Some _ => (m, s)
  | None =>
      regenerate_multi_order
        (set_orders m (btree_insert SortKey_cmp (SortKey_new order) order (sorted_orders m))
           (<[id := bd_user_kickback order]> (order_kickbacks m))) s
  end.

Definition Manager_remove_order (id : OrderId) (m : MultiBackrunManager) (s : S)
  : MultiBackrunManager * S * option SimulatedOrder :=
  match order_kickbacks m !! id with
  | None => (m, s, None)
  | Some user_kickback =>
      let key := {| bk_order_id := id; bk_user_kickback := user_kickback |} in
      let '(orders, order) := btree_remove SortKey_cmp key (sorted_orders m) in
      let m := set_orders m orders (delete id (order_kickbacks m)) in
      match order with
      | Some order => (regenerate_multi_order m s, Some (bd_sim_order order))
      | None => (m, s, None)
      end
  end.

(** ** What the references point to *)
Record Memory := { mem_managers : list MultiBackrunManager; mem_sinks : list S }.

(** A mutable borrow of the manager at an address, and of the sink it refers to. *)
Definition borrow_manager {R} (mem : Memory) (a : nat) (dangling : R)
    (f : MultiBackrunManager -> S -> MultiBackrunManager * S * R) : Memory * R :=
  match mem_managers mem !! a with
  | None => (mem, dangling)
  | Some m =>
      match mem_sinks mem !! mb_order_sink m with
      | None => (mem, dangling)
      | Some s =>
          let '(m', s', r) := f m s in
          ({| mem_managers := <[a := m']> (mem_managers mem);
              mem_sinks := <[mb_order_sink m := s']> (mem_sinks mem) |}, r)
      end
  end.

Definition borrow_sink {R} (mem : Memory) (a : nat) (dangling : R) (f : S -> S * R) : Memory * R :=
  match mem_sinks mem !! a with
  | None => (mem, dangling)
  | Some s =>
      let '(s', r) := f s in
      ({| mem_managers := mem_managers mem; mem_sinks := <[a := s']> (mem_sinks mem) |}, r)
  end.

(** [Rc::new(RefCell::new(manager))]. *)
Definition alloc_manager (mem : Memory) (m : MultiBackrunManager) : Memory * nat :=
  ({| mem_managers := mem_managers mem ++ [m]; mem_sinks := mem_sinks mem |},
   length (mem_managers mem)).

(** ** The merger of one signer *)
Record ShareBundleMerger := {
  multi_backrun_managers : gmap B256 nat;
  order_id_2_multi_backrun_managers : gmap OrderId nat;
  sbm_order_sink : nat;
}.

Definition ShareBundleMerger_new (order_sink : nat) : ShareBundleMerger :=
  {| multi_backrun_managers := ∅; order_id_2_multi_backrun_managers := ∅;
     sbm_order_sink := order_sink |}.

(** One manager is copied; the orders of it refer to the manager it was copied
    from, as in the source. *)
Definition clone_manager (g : ShareBundleMerger) (order_sink : nat)
    (acc : Memory * ShareBundleMerger) (user_hash : B256) : Memory * ShareBundleMerger :=
  let '(mem, g') := acc in
  match multi_backrun_managers g !! user_hash ≫= fun a => (a,.) <$> mem_managers mem !! a with
  | None => (mem, g')
  | Some (a, m) =>
      let '(mem, a') := alloc_manager mem (Manager_clone_with_sink m order_sink) in
      (mem,
       {| multi_backrun_managers := <[user_hash := a']> (multi_backrun_managers g');
          order_id_2_multi_backrun_managers :=
            foldl (fun ids (kv : _ * BrokenDownShareBundle) => <[bk_order_id kv.1 := a]> ids)
              (order_id_2_multi_backrun_managers g') (sorted_orders m);
          sbm_order_sink := sbm_order_sink g' |})
  end.

Definition clone_with_sink `{!HashOrder B256} (mem : Memory) (g : ShareBundleMerger)
    (order_sink : nat) : Memory * ShareBundleMerger :=
  foldl (clone_manager g order_sink) (mem, ShareBundleMerger_new order_sink)
    (hash_order (dom (multi_backrun_managers g))).

Definition USER_BUNDLE_INDEX : nat := 0.

Definition is_body_bundle (e : ShareBundleBody) : bool :=
  match e with Body_Bundle _ => true | Body_Tx _ => false end.

Definition break_down_user_tx_bundle (sbundle : ShareBundle) (sim_order : SimulatedOrder)
  : option BrokenDownShareBundle :=
  if existsb is_body_bundle (sbi_body (sb_inner_bundle sbundle)) then None
  else match sbi_refund (sb_inner_bundle sbundle) with
       | _ :: _ => None
       | [] => Some {| bd_sim_order := sim_order; bd_user_kickback := 0;
                       bd_user_bundle_hash := sb_hash sbundle |}
       end.

Definition check_and_get_user_bundle_hash_from_backrun (sbundle : ShareBundle) : option B256 :=
  match sbi_body (sb_inner_bundle sbundle) !! USER_BUNDLE_INDEX with
  | None => None
  | Some (Body_Bundle inner_bundle) =>
      match sbi_refund inner_bundle with
      | _ :: _ => None
      | [] => Some (Inner_hash_slow inner_bundle)
      end
  | Some (Body_Tx _) => None
  end.

Definition check_refunds_from_backrun_ok (sbundle : ShareBundle) : bool :=
  match sbi_refund (sb_inner_bundle sbundle) with
  | [r] => bool_decide (body_idx r = USER_BUNDLE_INDEX)
  | _ => false
  end.

Definition break_down_backrun_bundle (sbundle : ShareBundle) (sim_order : SimulatedOrder)
  : option BrokenDownShareBundle :=
  let! user_bundle_hash := check_and_get_user_bundle_hash_from_backrun sbundle in
  if negb (check_refunds_from_backrun_ok sbundle) then None
  else Some {| bd_sim_order := sim_order;
               bd_user_kickback := foldl (fun acc k => u256_add acc k.2) 0
                                     (paid_kickbacks (so_sim_value sim_order));
               bd_user_bundle_hash := user_bundle_hash |}.

Definition break_down_bundle (order : SimulatedOrder) : option BrokenDownShareBundle :=
  match so_order order with
  | Order_ShareBundle sbundle =>
      match sbi_body (sb_inner_bundle sbundle) with
      | [] => None
      | Body_Tx _ :: _ => break_down_user_tx_bundle sbundle order
      | Body_Bundle _ :: _ => break_down_backrun_bundle sbundle order
      end
  | _ => None
  end.

Definition sbm_insert_order (mem : Memory) (g : ShareBundleMerger) (order : SimulatedOrder)
  : Memory * ShareBundleMerger :=
  match break_down_bundle order with
  | Some b =>
      let '(mem, handler) :=
        match multi_backrun_managers g !! bd_user_bundle_hash b with
        | Some a => (mem, a)
        | None => alloc_manager mem
                    (MultiBackrunManager_new (bd_user_bundle_hash b) (sbm_order_sink g))
        end in
      let '(mem, _) := borrow_manager mem handler tt (fun m s => (Manager_insert_order b m s, tt)) in
      (mem,
       {| multi_backrun_managers := <[bd_user_bundle_hash b := handler]> (multi_backrun_managers g);
          order_id_2_multi_backrun_managers :=
            <[so_id order := handler]> (order_id_2_multi_backrun_managers g);
          sbm_order_sink := sbm_order_sink g |})
  | None =>
      let '(mem, _) := borrow_sink mem (sbm_order_sink g) tt (fun s => (sim_insert_order s order, tt)) in
      (mem, g)
  end.

Definition sbm_remove_order (mem : Memory) (g : ShareBundleMerger) (id : OrderId)
  : Memory * option SimulatedOrder :=
  match order_id_2_multi_backrun_managers g !! id with
  | Some handler => borrow_manager mem handler None (Manager_remove_order id)
  | None => borrow_sink mem (sbm_order_sink g) None (fun s => sim_remove_order s id)
  end.

(** ** A merger per configured signer *)
Record MultiShareBundleMerger := {
  signers_mergers : gmap Address ShareBundleMerger;
  fallback_merger : ShareBundleMerger;
  inserted_orders_signers : gmap OrderId (option Address);
}.

Definition MultiShareBundleMerger_new (signers : list Address) (order_sink : nat)
  : MultiShareBundleMerger :=
  {| signers_mergers := foldl (fun m signer => <[signer := ShareBundleMerger_new order_sink]> m)
                          ∅ signers;
     fallback_merger := ShareBundleMerger_new order_sink;
     inserted_orders_signers := ∅ |}.

(** The entry that [get_merger] borrows: that of a configured signer, else the
    fallback. *)
Definition merger_key (mm : MultiShareBundleMerger) (signer : option Address) : option Address :=
  match signer with
  | Some a => match signers_mergers mm !! a with Some _ => Some a | None => None end
  | None => None
  end.

Definition get_merger (mm : MultiShareBundleMerger) (signer : option Address) : ShareBundleMerger :=
  match signer with
  | Some a => default (fallback_merger mm) (signers_mergers mm !! a)
  | None => fallback_merger mm
  end.

Definition put_merger (mm : MultiShareBundleMerger) (signer : option Address)
    (g : ShareBundleMerger) : MultiShareBundleMerger :=
  match merger_key mm signer with
  | Some a => {| signers_mergers := <[a := g]> (signers_mergers mm);
                 fallback_merger := fallback_merger mm;
                 inserted_orders_signers := inserted_orders_signers mm |}
  | None => {| signers_mergers := signers_mergers mm; fallback_merger := g;
               inserted_orders_signers := inserted_orders_signers mm |}
  end.

Definition Multi_clone_with_sink `{!HashOrder B256} (mem : Memory) (mm : MultiShareBundleMerger)
    (order_sink : nat) : Memory * MultiShareBundleMerger :=
  let '(mem, mergers) :=
    foldl (fun (acc : Memory * gmap Address ShareBundleMerger) signer =>
             match signers_mergers mm !! signer with
             | Some g => let '(mem, g') := clone_with_sink acc.1 g order_sink in
                         (mem, <[signer := g']> acc.2)
             | None => acc
             end) (mem, ∅) (hash_order (dom (signers_mergers mm))) in
  let '(mem, fallback) := clone_with_sink mem (fallback_merger mm) order_sink in
  (mem, {| signers_mergers := mergers; fallback_merger := fallback;
           inserted_orders_signers := inserted_orders_signers mm |}).

(** The merger together with what it refers to is a sink itself. *)
Definition Merging : Type := Memory * MultiShareBundleMerger.

Definition multi_insert_order (st : Merging) (order : SimulatedOrder) : Merging :=
  let '(mem, mm) := st in
  let signer := Order_signer (so_order order) in
  let mm := {| signers_mergers := signers_mergers mm; fallback_merger := fallback_merger mm;
               inserted_orders_signers := <[so_id order := signer]> (inserted_orders_signers mm) |} in
  let '(mem, g) := sbm_insert_order mem (get_merger mm signer) order in
  (mem, put_merger mm signer g).

Definition multi_remove_order (st : Merging) (id : OrderId) : Merging * option SimulatedOrder :=
  let '(mem, mm) := st in
  match inserted_orders_signers mm !! id with
  | Some signer =>
      let '(mem, r) := sbm_remove_order mem (get_merger mm signer) id in
      (mem, mm, r)
  | None => (mem, mm, None)
  end.

#[export] Instance MultiShareBundleMerger_sink : SimulatedOrderSink Merging := {
  sim_insert_order := multi_insert_order;
  sim_remove_order := multi_remove_order;
}.

(** A new merger above a sink. *)
Definition merging_new (signers : list Address) (s : S) : Merging :=
  ({| mem_managers := []; mem_sinks := [s] |}, MultiShareBundleMerger_new signers 0).

End merger.
Arguments Memory : clear implicits.
Arguments Merging : clear implicits.

(** ** The live sink: everything is sent to a broadcast channel *)
Record SimulatedOrderSinkToChannel := {
  ch_sent : list SimulatedOrderCommand;
  ch_send_ok : nat -> bool;   (* whether the n-th message finds a receiver *)
  sender_returned_error : bool;
}.

Definition SimulatedOrderSinkToChannel_new (send_ok : nat -> bool) : SimulatedOrderSinkToChannel :=
  {| ch_sent := []; ch_send_ok := send_ok; sender_returned_error := false |}.

Definition channel_send (c : SimulatedOrderSinkToChannel) (msg : SimulatedOrderCommand)
  : SimulatedOrderSinkToChannel :=
  {| ch_sent := ch_sent c ++ [msg]; ch_send_ok := ch_send_ok c;
     sender_returned_error := sender_returned_error c || negb (ch_send_ok c (length (ch_sent c))) |}.

#[export] Instance SimulatedOrderSinkToChannel_sink : SimulatedOrderSink SimulatedOrderSinkToChannel := {
  sim_insert_order c order := channel_send c (Simulation order);
  sim_remove_order c id := (channel_send c (Cancellation id), None);
}.

(** The sink that a new merger was given has address 0. *)
Definition sink_of {S} (st : Merging S) : option S := mem_sinks st.1 !! 0%nat.

(** The loop of [merge_and_send]: it ends with its input, or when the channel has
    no receivers. *)
Fixpoint merge_loop `{!BundleHashing} (st : Merging SimulatedOrderSinkToChannel)
    (input : list SimulatedOrderCommand) : Merging SimulatedOrderSinkToChannel :=
  match input with
  | [] => st
  | command :: input =>
      let st := simulated_order_command_to_sink command st in
      if from_option sender_returned_error false (sink_of st) then st else merge_loop st input
  end.

Definition merge_and_send `{!BundleHashing} (send_ok : nat -> bool) (signers : list Address)
    (input : list SimulatedOrderCommand) : list SimulatedOrderCommand :=
  from_option ch_sent []
    (sink_of (merge_loop (merging_new signers (SimulatedOrderSinkToChannel_new send_ok)) input)).

Definition sos_get_orders `{!HashOrder OrderId} (s : SimulatedOrderStore) : list SimulatedOrder :=
  omap (fun id => sos_orders s !! id) (hash_order (dom (sos_orders s))).

(** The merging of [backtest_prepare_orders_from_building_context]: all simulated
    orders are inserted and the store read. *)
Definition backtest_merge_orders `{!BundleHashing} `{!HashOrder OrderId} (signers : list Address)
    (sim_orders : list SimulatedOrder) : list SimulatedOrder :=
  from_option sos_get_orders []
    (sink_of (foldl sim_insert_order (merging_new signers SimulatedOrderStore_new) sim_orders)).
