(* ===== verification/MergerGroups.v ===== *)
(** * The groups of share bundles that are merged

    The reference against which the mergers are proved: the live orders of a
    flow, the group of an order, the members of a group by kickback, and what the
    sink has to hold.  The sorted map of a manager is the list of the members. *)

From stdpp Require Import sorting.
From S2P Require Import Prelude Transactions Bundles Orders SimTypes OrderPriority BlockOrders ShareBundleMerger.

Section groups.
Context {hashing : BundleHashing}.
Context (signers : list Address).
Implicit Types (o : SimulatedOrder) (l : gmap OrderId SimulatedOrder).

(** ** Reference definitions *)

(** An order with its kickback; an order that is not merged has none. *)
Definition bd_of o : BrokenDownShareBundle :=
  default {| bd_sim_order := o; bd_user_bundle_hash := 0; bd_user_kickback := 0 |}
    (break_down_bundle o).

Definition sort_key o : BrokenDownShareBundleSortKey := SortKey_new (bd_of o).
Definition key_le o1 o2 : Prop := SortKey_cmp (sort_key o1) (sort_key o2) <> Gt.
#[export] Instance key_le_dec : RelDecision key_le.
Proof. intros o1 o2. unfold key_le. apply _. Defined.

(** The merger an order belongs to: that of its signer, when it is configured. *)
Definition configured (signer : option Address) : option Address :=
  match signer with
  | Some a => if decide (a ∈ signers) then Some a else None
  | None => None
  end.

(** The group of an order: its merger and the hash of the user bundle. *)
Definition order_group o : option (option Address * B256) :=
  (fun b => (configured (Order_signer (so_order o)), bd_user_bundle_hash b)) <$> break_down_bundle o.

Definition live_step l (c : SimulatedOrderCommand) : gmap OrderId SimulatedOrder :=
  match c with
  | Simulation o => <[so_id o := o]> l
  | Cancellation id => delete id l
  end.

Definition values l : list SimulatedOrder := snd <$> map_to_list l.

Definition group_members l (k : option Address * B256) : list SimulatedOrder :=
  merge_sort key_le (filter (fun o => order_group o = Some k) (values l)).

Definition sim_sbundle o : option ShareBundle :=
  match so_order o with Order_ShareBundle sb => Some sb | _ => None end.

(** One order for many: their bundles in sequence, each of them skippable; the rest
    is that of the first. *)
Definition merged_order (os : list SimulatedOrder) : option SimulatedOrder :=
  let! first := head os in
  let! sb := sim_sbundle first in
  Some {| so_order := Order_ShareBundle (ShareBundle_new (sb_block sb) (sb_max_block sb)
            (mk_ShareBundleInner
               (omap (fun o => (fun sb => Body_Bundle (skippable (so_id o) (sb_inner_bundle sb)))
                                 <$> sim_sbundle o) os) [] [] false None)
            (sb_signer sb) None (so_order <$> os) (sb_metadata sb));
          so_sim_value := so_sim_value first;
          so_used_state_trace := so_used_state_trace first |}.

Definition groups l : list (option Address * B256) := remove_dups (omap order_group (values l)).

Definition merged_orders l : list SimulatedOrder :=
  omap (fun k => merged_order (group_members l k)) (groups l).

Definition unmerged l : list SimulatedOrder := filter (fun o => order_group o = None) (values l).

(** ** The order by kickback *)
Lemma SortKey_cmp_ok : cmp_ok SortKey_cmp.
Proof.
  destruct (cmp_ok_then_with (fun a b => - bk_user_kickback a ?= - bk_user_kickback b)
    (fun a b => OrderId_cmp (bk_order_id a) (bk_order_id b))) as [H1 H2 H3].
  - apply cmp_ok_Zkey.
  - destruct OrderId_cmp_cmp_ok as [H1 H2 H3]. split; eauto.
  - assert (E : forall a b, SortKey_cmp a b
              = then_with (fun a b => - bk_user_kickback a ?= - bk_user_kickback b)
                  (fun a b => OrderId_cmp (bk_order_id a) (bk_order_id b)) a b).
    { intros a b. unfold SortKey_cmp, then_with.
      by rewrite Z.compare_opp, <- Z.compare_antisym. }
    split; intros *; rewrite !E; eauto.
Qed.

Lemma SortKey_cmp_eq a b : SortKey_cmp a b = Eq <-> a = b.
Proof.
  split; [| intros ->; apply SortKey_cmp_ok]. unfold SortKey_cmp. intros H.
  destruct (bk_user_kickback a ?= bk_user_kickback b) eqn:E; try done.
  apply Z.compare_eq in E. apply OrderId_cmp_eq in H. destruct a, b; simpl in *; congruence.
Qed.

Lemma break_down_sim_order o b : break_down_bundle o = Some b -> bd_sim_order b = o.
Proof.
  unfold break_down_bundle, break_down_user_tx_bundle, break_down_backrun_bundle.
  repeat case_match; simpl; intros; simplify_option_eq; done.
Qed.

Lemma break_down_sbundle o b : break_down_bundle o = Some b -> is_Some (sim_sbundle o).
Proof. unfold break_down_bundle, sim_sbundle. repeat case_match; done. Qed.

Lemma bd_of_order o : bd_sim_order (bd_of o) = o.
Proof.
  unfold bd_of. destruct (break_down_bundle o) eqn:E; [| done]. by apply break_down_sim_order.
Qed.

Lemma bd_of_sbundle o : bd_sbundle (bd_of o) = sim_sbundle o.
Proof. unfold bd_sbundle, sim_sbundle. by rewrite bd_of_order. Qed.

Lemma order_group_Some o k : order_group o = Some k ->
  exists b, break_down_bundle o = Some b /\ bd_of o = b /\
    k = (configured (Order_signer (so_order o)), bd_user_bundle_hash b).
Proof.
  unfold order_group, bd_of. destruct (break_down_bundle o) as [b |]; [| done].
  simpl. intros [= <-]. eauto.
Qed.

Lemma sort_key_id o : bk_order_id (sort_key o) = so_id o.
Proof. unfold sort_key. simpl. by rewrite bd_of_order. Qed.

Lemma sort_key_eta o id : so_id o = id ->
  {| bk_order_id := id; bk_user_kickback := bk_user_kickback (sort_key o) |} = sort_key o.
Proof. intros <-. rewrite <- sort_key_id. by destruct (sort_key o). Qed.

Lemma sort_key_eq o1 o2 : sort_key o1 = sort_key o2 -> so_id o1 = so_id o2.
Proof. intros H. by rewrite <- !sort_key_id, H. Qed.

#[export] Instance key_le_trans : Transitive key_le.
Proof. intros a b c. apply (cmp_trans _ SortKey_cmp_ok). Qed.

#[export] Instance key_le_total : Total key_le.
Proof.
  intros a b. unfold key_le. rewrite (cmp_antisym _ SortKey_cmp_ok (sort_key a) (sort_key b)).
  destruct (SortKey_cmp (sort_key a) (sort_key b)); [left | left | right]; done.
Qed.

(** ** Members *)

(** The orders of a map are stored under their ids. *)
Definition ids_ok l : Prop := forall id o, l !! id = Some o -> so_id o = id.

Lemma elem_of_values l o : o ∈ values l <-> exists id, l !! id = Some o.
Proof.
  unfold values. rewrite list_elem_of_fmap. split.
  - intros ([id o'] & -> & H). apply elem_of_map_to_list in H. eauto.
  - intros [id H]. exists (id, o). by rewrite elem_of_map_to_list.
Qed.

Lemma values_insert l o : l !! so_id o = None -> values (<[so_id o := o]> l) ≡ₚ o :: values l.
Proof. intros H. unfold values. by rewrite map_to_list_insert. Qed.

Lemma values_delete l id o : l !! id = Some o -> values l ≡ₚ o :: values (delete id l).
Proof. intros H. unfold values. by rewrite <- (map_to_list_delete l id o H). Qed.

Lemma group_members_perm l k :
  group_members l k ≡ₚ filter (fun o => order_group o = Some k) (values l).
Proof. apply merge_sort_Permutation. Qed.

Lemma group_members_sorted l k : StronglySorted key_le (group_members l k).
Proof. apply StronglySorted_merge_sort; apply _. Qed.

Lemma elem_of_group_members l k o :
  o ∈ group_members l k <-> order_group o = Some k /\ exists id, l !! id = Some o.
Proof. by rewrite group_members_perm, list_elem_of_filter, elem_of_values. Qed.

(** Members are determined by what they are and how they are sorted. *)
Lemma group_members_unique l k os : ids_ok l ->
  os ≡ₚ filter (fun o => order_group o = Some k) (values l) -> StronglySorted key_le os ->
  group_members l k = os.
Proof.
  intros Hids Hp Hs. eapply (StronglySorted_unique_strong key_le);
    [| apply group_members_sorted | done | by rewrite Hp, group_members_perm].
  intros o1 o2 H1 H2 L1 L2. rewrite Hp, <- group_members_perm in H2.
  apply elem_of_group_members in H1 as [_ [i Hi]], H2 as [_ [j Hj]].
  assert (so_id o1 = so_id o2) as E.
  { apply sort_key_eq, SortKey_cmp_eq. unfold key_le in *.
    rewrite (cmp_antisym _ SortKey_cmp_ok (sort_key o1)) in L2.
    by destruct (SortKey_cmp (sort_key o1) (sort_key o2)). }
  rewrite (Hids _ _ Hi), (Hids _ _ Hj) in E. congruence.
Qed.

Lemma group_members_other_insert l k o : ids_ok l ->
  l !! so_id o = None -> order_group o <> Some k ->
  group_members (<[so_id o := o]> l) k = group_members l k.
Proof.
  intros Hids Hn Hk. symmetry. apply group_members_unique; [done | | apply group_members_sorted].
  by rewrite group_members_perm, values_insert, filter_cons_False.
Qed.

Lemma group_members_other_delete l k id o : ids_ok l ->
  l !! id = Some o -> order_group o <> Some k ->
  group_members (delete id l) k = group_members l k.
Proof.
  intros Hids Hl Hk. symmetry. apply group_members_unique; [done | | apply group_members_sorted].
  by rewrite group_members_perm, (values_delete l id o Hl), filter_cons_False.
Qed.

(** ** The sorted map of a manager *)
Definition entries (os : list SimulatedOrder) : list (BrokenDownShareBundleSortKey * BrokenDownShareBundle) :=
  (fun o => (sort_key o, bd_of o)) <$> os.

Lemma btree_insert_entries o os : StronglySorted key_le os -> so_id o ∉ so_id <$> os ->
  exists os', btree_insert SortKey_cmp (sort_key o) (bd_of o) (entries os) = entries os' /\
    os' ≡ₚ o :: os /\ StronglySorted key_le os'.
Proof.
  induction os as [| x os IH]; intros Hs Hn; simpl.
  - exists [o]. split_and!; [done.. | repeat constructor].
  - apply StronglySorted_cons in Hs as [Hx Hs].
    rewrite fmap_cons, not_elem_of_cons in Hn. destruct Hn as [Hox Hn].
    destruct (SortKey_cmp (sort_key o) (sort_key x)) eqn:E.
    + by apply SortKey_cmp_eq, sort_key_eq in E.
    + exists (o :: x :: os). split_and!; [done.. |]. assert (key_le o x) as Hle by (unfold key_le; by rewrite E).
      repeat apply SSorted_cons; [done.. | constructor; [done |]].
      eapply Forall_impl; [done |]. intros y Hy. by trans x.
    + destruct IH as (os' & -> & Hp & Hs'); [done.. |].
      exists (x :: os'). split_and!; [done | rewrite Hp; by constructor |].
      apply SSorted_cons; [done |]. rewrite Hp. constructor; [| done].
      unfold key_le. by rewrite (cmp_antisym _ SortKey_cmp_ok (sort_key o)), E.
Qed.

Lemma btree_remove_entries o os : StronglySorted key_le os -> NoDup (so_id <$> os) -> o ∈ os ->
  exists os', btree_remove SortKey_cmp (sort_key o) (entries os) = (entries os', Some (bd_of o)) /\
    os ≡ₚ o :: os' /\ StronglySorted key_le os'.
Proof.
  induction os as [| x os IH]; intros Hs Hnd Ho; simpl; [set_solver |].
  apply StronglySorted_cons in Hs as [Hx Hs]. apply NoDup_cons in Hnd as [Hn Hnd].
  destruct (SortKey_cmp (sort_key o) (sort_key x)) eqn:E.
  - apply SortKey_cmp_eq, sort_key_eq in E. exists os. split_and!; [| | done].
    all: apply elem_of_cons in Ho as [-> | Ho]; [done |]; destruct Hn; rewrite <- E;
      by apply list_elem_of_fmap_2.
  - apply elem_of_cons in Ho as [-> | Ho]; [by rewrite (cmp_refl _ SortKey_cmp_ok) in E |].
    rewrite Forall_forall in Hx. specialize (Hx o Ho). unfold key_le in Hx.
    by rewrite (cmp_antisym _ SortKey_cmp_ok (sort_key o)), E in Hx.
  - apply elem_of_cons in Ho as [-> | Ho]; [by rewrite (cmp_refl _ SortKey_cmp_ok) in E |].
    destruct IH as (os' & -> & Hp & Hs'); [done.. |].
    exists (x :: os'). split_and!; [done | rewrite Hp; by constructor |].
    apply SSorted_cons; [done |]. rewrite Hp in Hx. by inversion Hx.
Qed.

Lemma NoDup_member_ids l k : ids_ok l -> NoDup (so_id <$> group_members l k).
Proof.
  intros Hids. rewrite group_members_perm. unfold values.
  assert (NoDup (so_id <$> (map_to_list l).*2)) as H.
  { replace (so_id <$> (map_to_list l).*2) with (map_to_list l).*1; [apply NoDup_fst_map_to_list |].
    rewrite <- list_fmap_compose. apply list_fmap_ext. intros i [id o] Hi. simpl. symmetry.
    apply Hids, elem_of_map_to_list. by eapply list_elem_of_lookup_2. }
  eapply sublist_NoDup; [done |]. apply fmap_sublist, sublist_filter.
Qed.

(** Inserting and removing in the sorted map is inserting and removing an order. *)
Lemma manager_insert_members l k o : ids_ok l -> l !! so_id o = None -> order_group o = Some k ->
  btree_insert SortKey_cmp (sort_key o) (bd_of o) (entries (group_members l k))
  = entries (group_members (<[so_id o := o]> l) k).
Proof.
  intros Hids Hn Hk. destruct (btree_insert_entries o (group_members l k)) as (os & -> & Hp & Hs).
  - apply group_members_sorted.
  - rewrite list_elem_of_fmap. intros (o' & He & [_ [id Hl]]%elem_of_group_members).
    rewrite He, (Hids _ _ Hl) in Hn. congruence.
  - f_equal. symmetry. apply group_members_unique; [| | done].
    + intros id o'. rewrite lookup_insert_Some. naive_solver.
    + by rewrite Hp, group_members_perm, values_insert, filter_cons_True.
Qed.

Lemma manager_remove_members l k id o : ids_ok l -> l !! id = Some o -> order_group o = Some k ->
  btree_remove SortKey_cmp (sort_key o) (entries (group_members l k))
  = (entries (group_members (delete id l) k), Some (bd_of o)).
Proof.
  intros Hids Hl Hk. destruct (btree_remove_entries o (group_members l k)) as (os & -> & Hp & Hs).
  - apply group_members_sorted.
  - by apply NoDup_member_ids.
  - apply elem_of_group_members. eauto.
  - do 2 f_equal. symmetry. apply group_members_unique; [| | done].
    + intros id' o'. rewrite lookup_delete_Some. intros [_ H]. by apply Hids.
    + rewrite group_members_perm, (values_delete l id o Hl), filter_cons_True in Hp by done.
      by apply Permutation_cons_inv in Hp.
Qed.

Lemma merged_parts os : Forall (fun o => is_Some (sim_sbundle o)) os ->
  (omap merged_part (bd_of <$> os)).*1
    = omap (fun o => (fun sb => Body_Bundle (skippable (so_id o) (sb_inner_bundle sb)))
                       <$> sim_sbundle o) os /\
  (omap merged_part (bd_of <$> os)).*2 = so_order <$> os.
Proof.
  induction 1 as [| o os [sb Hsb] _ [IH1 IH2]]; [done |].
  assert (merged_part (bd_of o)
          = Some (Body_Bundle (skippable (so_id o) (sb_inner_bundle sb)), so_order o)) as Hpart.
  { unfold merged_part. by rewrite bd_of_sbundle, Hsb, bd_of_order. }
  cbn. rewrite Hpart, Hsb. cbn. split; f_equal; [apply IH1 | apply IH2].
Qed.

(** [merge_orders] merges the orders of the sorted map. *)
Lemma merge_orders_entries m os : sorted_orders m = entries os ->
  Forall (fun o => is_Some (sim_sbundle o)) os -> merge_orders m = merged_order os.
Proof.
  intros Hm Hos. unfold merge_orders, merged_order. rewrite Hm. unfold entries.
  rewrite <- list_fmap_compose.
  change (snd ∘ (fun o => (sort_key o, bd_of o))) with bd_of.
  destruct (merged_parts os Hos) as [-> ->]. destruct os as [| o os]; [done |].
  cbn [fmap list_fmap head]. rewrite bd_of_sbundle, bd_of_order.
  apply Forall_cons in Hos as [[sb Hsb] _]. rewrite Hsb. simpl.
  unfold sim_sbundle in Hsb. destruct (so_order o); simplify_eq/=. done.
Qed.

Lemma group_members_sbundles l k : Forall (fun o => is_Some (sim_sbundle o)) (group_members l k).
Proof.
  apply Forall_forall. intros o [Hk _]%elem_of_group_members.
  apply order_group_Some in Hk as (b & Hb & _). by eapply break_down_sbundle.
Qed.

Lemma merged_order_None l k : merged_order (group_members l k) = None <-> group_members l k = [].
Proof.
  pose proof (group_members_sbundles l k) as Hf. unfold merged_order.
  destruct (group_members l k) as [| o os]; [done |]. simpl.
  apply Forall_cons in Hf as [[sb ->] _]. done.
Qed.

Lemma elem_of_merged_orders l m :
  m ∈ merged_orders l <-> exists k, merged_order (group_members l k) = Some m.
Proof.
  unfold merged_orders, groups. rewrite list_elem_of_omap. split; [naive_solver |].
  intros [k Hk]. exists k. split; [| done]. rewrite elem_of_remove_dups, list_elem_of_omap.
  destruct (group_members l k) as [| o os] eqn:E; [done |].
  assert (o ∈ group_members l k) as [Ho Hl]%elem_of_group_members by (rewrite E; left).
  exists o. by rewrite elem_of_values.
Qed.
End groups.
