(* ===== verification/MergerSpec.v ===== *)
(** * The mergers implement the groups

    For any flow of simulated orders and cancellations, what a merger has sent to
    its sink adds up to one merged order per group of live share bundles and the
    live orders that are not merged. *)

From S2P Require Import Prelude Transactions Bundles Orders SimTypes BlockOrders ShareBundleMerger MergerGroups.

(** ** Sinks whose content is known *)
Class SinkContent (S : Type) := sink_content : S -> gmap OrderId SimulatedOrder.

Class SinkContentOk (S : Type) `{SimulatedOrderSink S} `{SinkContent S} : Prop := {
  content_insert (s : S) o : sink_content (sim_insert_order s o) = <[so_id o := o]> (sink_content s);
  content_remove (s : S) id : sink_content (sim_remove_order s id).1 = delete id (sink_content s);
}.

#[export] Instance store_content : SinkContent SimulatedOrderStore := sos_orders.
#[export] Instance store_content_ok : SinkContentOk SimulatedOrderStore.
Proof. by split. Qed.

(** The receivers of the channel apply what was sent, in order. *)
#[export] Instance channel_content : SinkContent SimulatedOrderSinkToChannel :=
  fun c => foldl live_step ∅ (ch_sent c).
#[export] Instance channel_content_ok : SinkContentOk SimulatedOrderSinkToChannel.
Proof. split; intros; unfold sink_content, channel_content; simpl; by rewrite foldl_app. Qed.

(** ** What a sink holds, by group *)
Section holds.
Context {K : Type} `{EqDecision K}.
Implicit Types (D : gmap OrderId SimulatedOrder) (M : K -> option SimulatedOrder)
  (U : SimulatedOrder -> Prop).

Definition holds D M U : Prop := forall id o,
  D !! id = Some o <-> so_id o = id /\ ((exists k, M k = Some o) \/ U o).

(** No two orders for the sink share an id. *)
Definition apart M U : Prop :=
  (forall k1 k2 m1 m2, M k1 = Some m1 -> M k2 = Some m2 -> so_id m1 = so_id m2 -> k1 = k2) /\
  (forall k m o, M k = Some m -> U o -> so_id m <> so_id o).

Definition insert_option (m : option SimulatedOrder) D : gmap OrderId SimulatedOrder :=
  match m with Some m => <[so_id m := m]> D | None => D end.
Definition delete_option (id : option OrderId) D : gmap OrderId SimulatedOrder :=
  match id with Some id => delete id D | None => D end.

Lemma holds_delete D M U k : holds D M U -> apart M U ->
  holds (delete_option (so_id <$> M k) D) (fun k' => if decide (k' = k) then None else M k') U.
Proof.
  intros HD [HM HU] id o. destruct (M k) as [m |] eqn:E; simpl.
  - rewrite lookup_delete_Some, (HD id o). split.
    + intros (Hne & <- & [[k' Hk] | Ho]); [| by auto]. split; [done |]. left. exists k'.
      rewrite decide_False; [done | congruence].
    + intros [<- [[k' Hk] | Ho]]; [case_decide; [done |] |]; naive_solver.
  - rewrite (HD id o). split; intros [<- [[k' Hk] | Ho]]; [| by auto | | by auto].
    + split; [done |]. left. exists k'. rewrite decide_False; [done | congruence].
    + case_decide; [done |]. eauto.
Qed.

Lemma holds_insert D M U k m : holds D (fun k' => if decide (k' = k) then None else M k') U ->
  M k = m -> apart M U -> holds (insert_option m D) M U.
Proof.
  intros HD <- [HM HU] id o. destruct (M k) as [m |] eqn:E; simpl.
  - rewrite lookup_insert_Some, (HD id o). split.
    + intros [[<- <-] | (Hne & <- & [[k' Hk] | Ho])]; [by eauto | | by auto].
      case_decide; [done |]. eauto.
    + intros [<- [[k' Hk] | Ho]].
      * destruct (decide (k' = k)) as [-> | Hne]; [left; split; congruence |]. right.
        split; [intros He; by eapply Hne, HM | split; [done |]]. left. exists k'.
        by rewrite decide_False.
      * right. split; [by eapply HU | by auto].
  - rewrite (HD id o). split; intros [<- [[k' Hk] | Ho]]; [| by auto | | by auto].
    + case_decide; [done |]. eauto.
    + split; [done |]. left. exists k'. rewrite decide_False; [done | congruence].
Qed.

Lemma holds_regenerate D M M' U k : holds D M U -> apart M U -> apart M' U ->
  (forall k', k' <> k -> M' k' = M k') ->
  holds (insert_option (M' k) (delete_option (so_id <$> M k) D)) M' U.
Proof.
  intros HD HM HM' He. eapply holds_insert; [| done | done].
  pose proof (holds_delete D M U k HD HM) as H. intros id o. rewrite (H id o).
  split; intros [<- [[k' Hk] | Ho]]; [| by auto | | by auto]; split; [done | left | done | left];
    exists k'; case_decide; [done | by rewrite He | done | by rewrite <- He].
Qed.

Lemma holds_insert_unmerged D M U U' o : holds D M U ->
  (forall o', U' o' <-> U o' \/ o' = o) -> (forall o', U o' -> so_id o' <> so_id o) ->
  (forall k m, M k = Some m -> so_id m <> so_id o) -> holds (<[so_id o := o]> D) M U'.
Proof.
  intros HD HU Hn HM id o'. rewrite lookup_insert_Some, (HD id o'), HU. split.
  - intros [[<- <-] | (? & <- & ?)]; naive_solver.
  - intros [<- [[k Hk] | [Ho | ->]]]; [right | right | left]; naive_solver.
Qed.

Lemma holds_delete_unmerged D M U U' id : holds D M U ->
  (forall o', U' o' <-> U o' /\ so_id o' <> id) ->
  (forall k m, M k = Some m -> so_id m <> id) -> holds (delete id D) M U'.
Proof.
  intros HD HU HM id' o'. rewrite lookup_delete_Some, (HD id' o'), HU. naive_solver.
Qed.

Lemma holds_ext D M M' U U' : holds D M U -> (forall k, M k = M' k) -> (forall o, U o <-> U' o) ->
  holds D M' U'.
Proof.
  intros HD HM HU id o. rewrite (HD id o), (HU o). by setoid_rewrite HM.
Qed.
End holds.

(** ** The invariant of a merger above one sink *)
Section inv.
Context {S : Type} `{!SimulatedOrderSink S} `{!SinkContent S} `{!SinkContentOk S}.
Context {hashing : BundleHashing} (signers : list Address).
Implicit Types (o : SimulatedOrder) (l : gmap OrderId SimulatedOrder)
  (k : option Address * B256) (mm : MultiShareBundleMerger) (mem : Memory S) (s : S).

Notation order_group := (order_group signers).
Notation configured := (configured signers).
Notation group_members := (group_members signers).
Definition merged l k : option SimulatedOrder := merged_order (group_members l k).
Definition passed l o : Prop := order_group o = None /\ exists id, l !! id = Some o.

Record manager_ok l k (m : MultiBackrunManager) : Prop := {
  mo_sink : mb_order_sink m = 0%nat;
  mo_orders : sorted_orders m = entries (group_members l k);
  mo_kickbacks : forall id, order_kickbacks m !! id = l !! id ≫= fun o =>
    if decide (order_group o = Some k) then Some (bk_user_kickback (sort_key o)) else None;
  mo_last : last_multi_order_id m = so_id <$> merged l k;
}.

Definition manager_of mm k : option nat := multi_backrun_managers (get_merger mm k.1) !! k.2.
Definition route_of mm (sg : option Address) (id : OrderId) : option nat :=
  order_id_2_multi_backrun_managers (get_merger mm sg) !! id.
Definition key_ok k : Prop := configured k.1 = k.1.

Record merging_inv (seen : list SimulatedOrder) l mem mm s : Prop := {
  mi_ids : ids_ok l;
  mi_seen : forall id o, l !! id = Some o -> o ∈ seen;
  mi_stable : forall o1 o2, o1 ∈ seen -> o2 ∈ seen -> so_id o1 = so_id o2 ->
    order_group o1 = order_group o2;
  mi_signers : forall a, is_Some (signers_mergers mm !! a) <-> a ∈ signers;
  mi_sink : forall sg, sbm_order_sink (get_merger mm sg) = 0%nat;
  mi_mem : mem_sinks mem = [s];
  mi_managers : forall k a, key_ok k -> manager_of mm k = Some a ->
    exists m, mem_managers mem !! a = Some m /\ manager_ok l k m;
  mi_absent : forall k, key_ok k -> manager_of mm k = None -> group_members l k = [];
  mi_inj : forall k1 k2 a, key_ok k1 -> key_ok k2 -> manager_of mm k1 = Some a ->
    manager_of mm k2 = Some a -> k1 = k2;
  mi_routes : forall sg id a, configured sg = sg -> route_of mm sg id = Some a ->
    exists o h, o ∈ seen /\ so_id o = id /\ order_group o = Some (sg, h) /\
      manager_of mm (sg, h) = Some a;
  mi_inserted : forall id sg, inserted_orders_signers mm !! id = Some sg ->
    exists o, o ∈ seen /\ so_id o = id;
  mi_seen_routes : forall o, o ∈ seen -> exists sg,
    inserted_orders_signers mm !! so_id o = Some sg /\
    forall k, order_group o = Some k -> configured sg = k.1 /\
      exists a, manager_of mm k = Some a /\ route_of mm k.1 (so_id o) = Some a;
  mi_content : holds (sink_content s) (merged l) (passed l);
}.

Lemma configured_idemp sg : configured (configured sg) = configured sg.
Proof. unfold MergerGroups.configured. destruct sg; [| done]. repeat case_decide; done. Qed.

Lemma order_group_key_ok o k : order_group o = Some k -> key_ok k.
Proof.
  intros (b & _ & _ & ->)%order_group_Some. apply configured_idemp.
Qed.

Lemma merged_None l k : group_members l k = [] -> merged l k = None.
Proof. unfold merged. by intros ->. Qed.

Lemma merger_key_configured mm sg : (forall a, is_Some (signers_mergers mm !! a) <-> a ∈ signers) ->
  merger_key mm sg = configured sg.
Proof.
  intros Hs. unfold merger_key, MergerGroups.configured. destruct sg as [a |]; [| done].
  specialize (Hs a). case_decide as Ha; destruct (signers_mergers mm !! a) as [g |] eqn:E; try done.
  - apply Hs in Ha. by destruct Ha.
  - by destruct Ha; apply Hs.
Qed.

Lemma get_merger_configured mm sg : (forall a, is_Some (signers_mergers mm !! a) <-> a ∈ signers) ->
  get_merger mm (configured sg) = get_merger mm sg.
Proof.
  intros Hs. unfold get_merger, MergerGroups.configured. destruct sg as [a |]; [| done].
  specialize (Hs a). case_decide as Ha; [done |].
  destruct (signers_mergers mm !! a); [by destruct Ha; apply Hs | done].
Qed.

Lemma configured_Some sg a : configured sg = Some a <-> sg = Some a /\ a ∈ signers.
Proof.
  unfold MergerGroups.configured. destruct sg as [b |]; [case_decide |]; naive_solver.
Qed.

Lemma put_merger_signers mm sg g :
  (forall a, is_Some (signers_mergers mm !! a) <-> a ∈ signers) ->
  forall a, is_Some (signers_mergers (put_merger mm sg g) !! a) <-> a ∈ signers.
Proof.
  intros Hs a. unfold put_merger. rewrite (merger_key_configured mm sg Hs).
  destruct (configured sg) as [b |] eqn:E; simpl; [| done].
  rewrite lookup_insert_is_Some, Hs. apply configured_Some in E as [_ Hb].
  destruct (decide (b = a)); naive_solver.
Qed.

Lemma get_put_merger mm sg sg' g : (forall a, is_Some (signers_mergers mm !! a) <-> a ∈ signers) ->
  get_merger (put_merger mm sg g) sg'
  = if decide (configured sg' = configured sg) then g else get_merger mm sg'.
Proof.
  intros Hs. unfold put_merger. rewrite (merger_key_configured mm sg Hs).
  destruct (configured sg) as [a |] eqn:E.
  - apply configured_Some in E as [-> Ha]. unfold get_merger. simpl.
    destruct sg' as [b |]; [| done]. case_decide as Hd.
    + apply configured_Some in Hd as [[= ->] _]. by rewrite lookup_insert_eq.
    + rewrite lookup_insert_ne; [done |]. intros ->. destruct Hd. by apply configured_Some.
  - unfold get_merger. simpl. destruct sg' as [b |]; [| done]. specialize (Hs b).
    destruct (configured (Some b)) as [c |] eqn:Hd; [| case_decide; [| done]].
    + apply configured_Some in Hd as [[= ->] Hc]. rewrite decide_False by done.
      apply Hs in Hc as [g' ->]. done.
    + destruct (signers_mergers mm !! b) eqn:Hb; [| done].
      assert (configured (Some b) = Some b) by (apply configured_Some; split; [done | by apply Hs]).
      congruence.
Qed.

(** A manager of group [k] changed, and with it the orders of this group. *)
Lemma update_manager_inv seen l l' mem mm s s' k a m' :
  merging_inv seen l mem mm s -> key_ok k -> manager_of mm k = Some a ->
  ids_ok l' -> (forall id o, l' !! id = Some o -> o ∈ seen) ->
  (forall k', k' <> k -> group_members l' k' = group_members l k') ->
  (forall k' id, k' <> k ->
     (exists o, l' !! id = Some o /\ order_group o = Some k')
     \/ (exists o, l !! id = Some o /\ order_group o = Some k') -> l' !! id = l !! id) ->
  manager_ok l' k m' -> holds (sink_content s') (merged l') (passed l') ->
  merging_inv seen l' {| mem_managers := <[a := m']> (mem_managers mem); mem_sinks := [s'] |} mm s'.
Proof.
  intros [] Hk Ha Hids Hseen Hother Hsame Hm' Hcontent. split; try done.
  - intros k' a' Hk' Ha'. destruct (mi_managers0 k' a' Hk' Ha') as (m & Hm & [X1 X2 X3 X4]).
    destruct (decide (k' = k)) as [-> | Hne].
    + assert (a' = a) as -> by congruence. exists m'. split; [| done].
      apply list_lookup_insert_eq. by eapply lookup_lt_Some.
    + exists m. split.
      * simpl. rewrite list_lookup_insert_ne; [done |]. intros ->. by eapply Hne, mi_inj0.
      * split; [done | by rewrite Hother | | unfold merged; by rewrite Hother].
        intros id. rewrite X3. specialize (Hsame k' id Hne).
        destruct (l !! id) as [o |] eqn:E1, (l' !! id) as [o' |] eqn:E2; simpl; repeat case_decide;
          try done; naive_solver.
  - intros k' Hk' Hn. destruct (decide (k' = k)) as [-> | Hne]; [congruence |].
    rewrite Hother by done. by apply mi_absent0.
Qed.
(** Regenerating replaces the merged order of the group. *)
Lemma regenerate_spec l l' k m s m' s' :
  mb_order_sink m = 0%nat -> sorted_orders m = entries (group_members l' k) ->
  (forall id, order_kickbacks m !! id = l' !! id ≫= fun o =>
     if decide (order_group o = Some k) then Some (bk_user_kickback (sort_key o)) else None) ->
  last_multi_order_id m = so_id <$> merged l k -> regenerate_multi_order m s = (m', s') ->
  manager_ok l' k m' /\
  sink_content s' = insert_option (merged l' k)
                      (delete_option (so_id <$> merged l k) (sink_content s)).
Proof.
  intros Hsink Hs Hkick Hlast. unfold regenerate_multi_order.
  rewrite (merge_orders_entries m _ Hs (group_members_sbundles _ _ _)). rewrite Hs, Hlast.
  change (merged_order (group_members l' k)) with (merged l' k).
  set (s1 := match so_id <$> merged l k with Some id => (sim_remove_order s id).1 | None => s end).
  assert (sink_content s1 = delete_option (so_id <$> merged l k) (sink_content s)) as Hs1.
  { subst s1. destruct (merged l k); simpl; [apply content_remove | done]. }
  rewrite <- Hs1. clearbody s1. destruct (group_members l' k) as [| o os] eqn:E.
  - rewrite (merged_None _ _ E). intros [= <- <-]. split; [| done].
    split; simpl; [done | by rewrite Hs, E | done | by rewrite (merged_None _ _ E)].
  - destruct (merged l' k) as [mo |] eqn:Em; [| apply merged_order_None in Em; congruence].
    intros [= <- <-]. split; [| apply content_insert].
    split; simpl; [done | by rewrite Hs, E | done | by rewrite Em].
Qed.

Lemma sort_key_kickback o b : break_down_bundle o = Some b ->
  bk_user_kickback (sort_key o) = bd_user_kickback b.
Proof. unfold sort_key, bd_of. by intros ->. Qed.

(** Inserting an order that is not live into the manager of its group. *)
Lemma manager_insert_spec l k m s o m' s' :
  ids_ok l -> l !! so_id o = None -> order_group o = Some k -> manager_ok l k m ->
  Manager_insert_order (bd_of o) m s = (m', s') ->
  manager_ok (<[so_id o := o]> l) k m' /\
  sink_content s' = insert_option (merged (<[so_id o := o]> l) k)
                      (delete_option (so_id <$> merged l k) (sink_content s)).
Proof.
  intros Hids Hn Hk [M1 M2 M3 M4]. unfold Manager_insert_order. rewrite bd_of_order, M3, Hn.
  apply regenerate_spec; simpl; [done | | | done].
  - rewrite M2. by apply manager_insert_members.
  - intros id. destruct (decide (id = so_id o)) as [-> | Hne].
    + rewrite !lookup_insert_eq. simpl. by rewrite decide_True.
    + rewrite !lookup_insert_ne by done. apply M3.
Qed.

(** Removing from the manager of its group: an order that is live, or one that is
    not. *)
Lemma manager_remove_spec l k m s id :
  ids_ok l -> manager_ok l k m ->
  match l !! id with
  | Some o => order_group o = Some k ->
      exists m' s', Manager_remove_order id m s = (m', s', Some o) /\ manager_ok (delete id l) k m' /\
        sink_content s' = insert_option (merged (delete id l) k)
                            (delete_option (so_id <$> merged l k) (sink_content s))
  | None => Manager_remove_order id m s = (m, s, None)
  end.
Proof.
  intros Hids [M1 M2 M3 M4]. unfold Manager_remove_order. rewrite M3.
  destruct (l !! id) as [o |] eqn:E; cbn [mbind option_bind]; [| done].
  intros Hk. case_decide; [| done].
  rewrite (sort_key_eta o id (Hids id o E)).
  rewrite M2, (manager_remove_members signers l k id o Hids E Hk), bd_of_order.
  destruct (regenerate_multi_order _ s) as [m' s'] eqn:Er. exists m', s'. split; [done |].
  eapply regenerate_spec; [.. | exact Er]; simpl; [done.. | | done].
  intros id'. destruct (decide (id' = id)) as [-> | Hne].
  - by rewrite !lookup_delete_eq.
  - rewrite !lookup_delete_ne by done. apply M3.
Qed.
(** *** The parts of inserting *)
Definition note_signer mm (id : OrderId) (sg : option Address) : MultiShareBundleMerger :=
  {| signers_mergers := signers_mergers mm; fallback_merger := fallback_merger mm;
     inserted_orders_signers := <[id := sg]> (inserted_orders_signers mm) |}.

(** The manager of a group is found or made. *)
Definition find_manager mem (g : ShareBundleMerger) (h : B256) : Memory S * nat :=
  match multi_backrun_managers g !! h with
  | Some a => (mem, a)
  | None => alloc_manager mem (MultiBackrunManager_new h (sbm_order_sink g))
  end.

Definition add_route (g : ShareBundleMerger) (h : B256) (id : OrderId) (a : nat) : ShareBundleMerger :=
  {| multi_backrun_managers := <[h := a]> (multi_backrun_managers g);
     order_id_2_multi_backrun_managers := <[id := a]> (order_id_2_multi_backrun_managers g);
     sbm_order_sink := sbm_order_sink g |}.

(** A group whose manager was found or made. *)
Lemma find_manager_spec seen l mem mm s k mem' a : merging_inv seen l mem mm s -> key_ok k ->
  find_manager mem (get_merger mm k.1) k.2 = (mem', a) ->
  mem_sinks mem' = [s] /\
  (forall k' a', key_ok k' -> manager_of mm k' = Some a' ->
     exists m, mem_managers mem' !! a' = Some m /\ manager_ok l k' m) /\
  (exists m, mem_managers mem' !! a = Some m /\ manager_ok l k m) /\
  (forall k', key_ok k' -> manager_of mm k' = Some a -> k' = k) /\
  (forall a', manager_of mm k = Some a' -> a' = a).
Proof.
  intros [] Hk. unfold find_manager. fold (manager_of mm k).
  destruct (manager_of mm k) as [a0 |] eqn:E.
  - intros [= <- <-]. split_and!; [done | done | by apply mi_managers0 | | congruence].
    intros k' Hk' E'. by eapply mi_inj0.
  - unfold alloc_manager. intros [= <- <-]. simpl. split_and!; [done | | | | done].
    + intros k' a' Hk' E'. destruct (mi_managers0 k' a' Hk' E') as (m & Hm & Hok).
      exists m. split; [by apply lookup_app_l_Some | done].
    + eexists. split; [by apply list_lookup_middle |]. pose proof (mi_absent0 k Hk E) as Habs.
      split; simpl; [done | by rewrite Habs | | by rewrite (merged_None _ _ Habs)].
      intros id. rewrite lookup_empty. destruct (l !! id) as [o |] eqn:El; simpl; [| done].
      case_decide as Ho; [| done].
      assert (o ∈ group_members l k) as Hin by (apply elem_of_group_members; eauto).
      rewrite Habs in Hin. by apply not_elem_of_nil in Hin.
    + intros k' Hk' E'. destruct (mi_managers0 k' _ Hk' E') as (m & Hm & _).
      apply lookup_lt_Some in Hm. lia.
Qed.

(** What a merger looks like after an order and its route were noted. *)
Record touched mm mm' o k (sg : option Address) (a : nat) : Prop := {
  to_manager : forall k', key_ok k' ->
    manager_of mm' k' = if decide (k' = k) then Some a else manager_of mm k';
  to_route : forall sg' id, configured sg' = sg' -> route_of mm' sg' id
    = if decide (sg' = k.1 /\ id = so_id o) then Some a else route_of mm sg' id;
  to_inserted : inserted_orders_signers mm' = <[so_id o := sg]> (inserted_orders_signers mm);
}.

Lemma put_merger_inserted mm sg g :
  inserted_orders_signers (put_merger mm sg g) = inserted_orders_signers mm.
Proof. unfold put_merger. by case_match. Qed.

Lemma touched_intro mm o k sg a :
  (forall a, is_Some (signers_mergers mm !! a) <-> a ∈ signers) -> configured sg = k.1 ->
  touched mm (put_merger (note_signer mm (so_id o) sg) sg
                (add_route (get_merger mm k.1) k.2 (so_id o) a)) o k sg a.
Proof.
  intros Hs Hsg. set (mm' := put_merger _ _ _).
  assert (Hget : forall sg', configured sg' = sg' -> get_merger mm' sg'
            = if decide (sg' = k.1) then add_route (get_merger mm k.1) k.2 (so_id o) a
              else get_merger mm sg').
  { intros sg' Hs'. subst mm'. rewrite get_put_merger by done. by rewrite Hs', Hsg. }
  split.
  - intros k' Hk'. unfold manager_of. rewrite (Hget k'.1 Hk'). destruct k as [ks kh], k' as [ks' kh'].
    cbn [fst snd] in *. destruct (decide (ks' = ks)) as [-> | Hne].
    + simpl. destruct (decide (kh' = kh)) as [-> | Hh].
      * by rewrite lookup_insert_eq, decide_True.
      * rewrite lookup_insert_ne, decide_False by congruence. done.
    + by rewrite decide_False by congruence.
  - intros sg' id Hs'. unfold route_of. rewrite (Hget sg' Hs').
    destruct (decide (sg' = k.1)) as [-> | Hne]; [| by rewrite decide_False by naive_solver].
    simpl. destruct (decide (id = so_id o)) as [-> | Hid].
    + by rewrite lookup_insert_eq, decide_True.
    + rewrite lookup_insert_ne, decide_False by naive_solver. done.
  - subst mm'. by rewrite put_merger_inserted.
Qed.

(** Lemmas on the orders seen so far. *)
Lemma stable_cons seen o :
  (forall o1 o2, o1 ∈ seen -> o2 ∈ seen -> so_id o1 = so_id o2 -> order_group o1 = order_group o2) ->
  (forall o', o' ∈ seen -> so_id o' = so_id o -> order_group o' = order_group o) ->
  forall o1 o2, o1 ∈ o :: seen -> o2 ∈ o :: seen -> so_id o1 = so_id o2 ->
    order_group o1 = order_group o2.
Proof.
  intros Hst Ho o1 o2 H1 H2 He. rewrite elem_of_cons in H1, H2.
  destruct H1 as [-> | H1], H2 as [-> | H2]; [done | symmetry | |]; eauto.
Qed.

Lemma inserted_cons (seen : list SimulatedOrder) (ins : gmap OrderId (option Address)) o sg :
  (forall id sg', ins !! id = Some sg' -> exists o', o' ∈ seen /\ so_id o' = id) ->
  forall id sg', <[so_id o := sg]> ins !! id = Some sg' -> exists o', o' ∈ o :: seen /\ so_id o' = id.
Proof.
  intros Hins id sg'. rewrite lookup_insert_Some. intros [[<- _] | [_ Hs']].
  - exists o. split; [by left | done].
  - destruct (Hins id sg' Hs') as (o' & ? & ?). exists o'. split; [by right | done].
Qed.

(** Noting an order and its route changes nothing for the sink. *)
Lemma touch_inv seen l mem mm s o k mem' a sg : merging_inv seen l mem mm s ->
  order_group o = Some k -> configured sg = k.1 ->
  (forall o', o' ∈ seen -> so_id o' = so_id o -> order_group o' = order_group o) ->
  find_manager mem (get_merger mm k.1) k.2 = (mem', a) ->
  let mm' := put_merger (note_signer mm (so_id o) sg) sg
               (add_route (get_merger mm k.1) k.2 (so_id o) a) in
  merging_inv (o :: seen) l mem' mm' s /\ manager_of mm' k = Some a.
Proof.
  intros Hinv Ho Hsg Hstable Hfind mm'. pose proof (order_group_key_ok _ _ Ho) as Hk.
  destruct (find_manager_spec _ _ _ _ _ _ _ _ Hinv Hk Hfind) as (F1 & F2 & F3 & F4 & F5).
  destruct Hinv. destruct (touched_intro mm o k sg a mi_signers0 Hsg) as [Hman Hroute Hins].
  fold mm' in Hman, Hroute, Hins.
  assert (Hold : forall k' a', key_ok k' -> manager_of mm k' = Some a' -> manager_of mm' k' = Some a').
  { intros k' a' Hk' Ha'. rewrite Hman by done. case_decide as Hd; [| done]. f_equal. symmetry.
    apply F5. by rewrite <- Hd. }
  split; [| by rewrite Hman, decide_True]. split; try done.
  - intros id o' Hl. right. by eapply mi_seen0.
  - by apply stable_cons.
  - by apply put_merger_signers.
  - intros sg'. subst mm'. rewrite get_put_merger by done. case_decide; [apply mi_sink0 |].
    apply (mi_sink0 sg').
  - intros k' a' Hk' Ha'. rewrite Hman in Ha' by done. case_decide; [by simplify_eq | by apply F2].
  - intros k' Hk' Hn. rewrite Hman in Hn by done. case_decide; [done |]. by apply mi_absent0.
  - intros k1 k2 a' Hk1 Hk2. rewrite !Hman by done. repeat case_decide; naive_solver.
  - intros sg' id a' Hs'. rewrite Hroute by done. case_decide as Hd.
    + destruct Hd as [-> ->]. intros [= <-]. exists o, k.2. destruct k as [ks kh]. simpl in *.
      split_and!; [by left | done | done | by rewrite Hman, decide_True].
    + intros Hr. destruct (mi_routes0 sg' id a' Hs' Hr) as (o' & h & H1 & H2 & H3 & H4).
      exists o', h. split_and!; [by right | done | done | by apply Hold].
  - rewrite Hins. by apply inserted_cons.
  - intros o' Ho'. rewrite Hins. destruct (decide (so_id o' = so_id o)) as [He | Hne].
    + exists sg. rewrite He, lookup_insert_eq. split; [done |]. intros k' Hk'.
      assert (order_group o' = order_group o) as Hsame
        by (apply elem_of_cons in Ho' as [-> | ?]; [done | by apply Hstable]).
      assert (k' = k) as -> by congruence. split; [done |]. exists a.
      by rewrite Hman, Hroute, !decide_True.
    + apply elem_of_cons in Ho' as [-> | Ho']; [done |].
      destruct (mi_seen_routes0 o' Ho') as (sg' & H1 & H2). exists sg'.
      rewrite lookup_insert_ne by done. split; [done |]. intros k' Hk'.
      destruct (H2 k' Hk') as (H3 & a' & H4 & H5). pose proof (order_group_key_ok _ _ Hk') as Hok.
      split; [done |]. exists a'. rewrite Hroute, decide_False by naive_solver. auto.
Qed.

(** *** Steps *)
Lemma ids_ok_insert l o : ids_ok l -> ids_ok (<[so_id o := o]> l).
Proof. intros Hids id o'. rewrite lookup_insert_Some. naive_solver. Qed.

Lemma ids_ok_delete l id : ids_ok l -> ids_ok (delete id l).
Proof. intros Hids id' o'. rewrite lookup_delete_Some. intros [_ ?]. by apply Hids. Qed.

Lemma passed_insert l o o' : l !! so_id o = None ->
  passed (<[so_id o := o]> l) o' <-> passed l o' \/ (o' = o /\ order_group o = None).
Proof.
  intros Hn. unfold passed. setoid_rewrite lookup_insert_Some. split.
  - intros (Hg & id & [[<- <-] | [Hne Hl]]); [by right | left; eauto].
  - intros [[Hg [id Hl]] | [-> Hg]]; [| by eauto]. split; [done |]. exists id. right.
    split; [congruence | done].
Qed.

Lemma passed_delete l id o o' : ids_ok l -> l !! id = Some o ->
  passed (delete id l) o' <-> passed l o' /\ so_id o' <> id.
Proof.
  intros Hids Hl. unfold passed. setoid_rewrite lookup_delete_Some. split.
  - intros (Hg & id' & Hne & Hl'). split; [by eauto |]. by rewrite (Hids _ _ Hl').
  - intros ((Hg & id' & Hl') & Hne). split; [done |]. exists id'. split; [| done].
    rewrite (Hids _ _ Hl') in Hne. done.
Qed.

Lemma borrow_manager_eq {R} mem a m s (d : R) f m' s' r :
  mem_managers mem !! a = Some m -> mb_order_sink m = 0%nat -> mem_sinks mem = [s] ->
  f m s = (m', s', r) ->
  borrow_manager mem a d f
  = ({| mem_managers := <[a := m']> (mem_managers mem); mem_sinks := [s'] |}, r).
Proof. intros Hm Hs Hmem Hf. unfold borrow_manager. rewrite Hm, Hs, Hmem. simpl. by rewrite Hf. Qed.

(** An order of a group is inserted. *)
Lemma insert_merged_step seen l mem mm s o k : merging_inv seen l mem mm s ->
  order_group o = Some k -> l !! so_id o = None ->
  (forall o', o' ∈ seen -> so_id o' = so_id o -> order_group o' = order_group o) ->
  apart (merged l) (passed l) ->
  apart (merged (<[so_id o := o]> l)) (passed (<[so_id o := o]> l)) ->
  exists mem' mm' s', multi_insert_order (mem, mm) o = (mem', mm') /\
    merging_inv (o :: seen) (<[so_id o := o]> l) mem' mm' s'.
Proof.
  intros Hinv Ho Hn Hst Hap Hap'. pose proof (order_group_Some _ _ _ Ho) as (b & Hb & Hbo & ->).
  set (sg := Order_signer (so_order o)) in *. set (k := (configured sg, bd_user_bundle_hash b)) in *.
  destruct (find_manager mem (get_merger mm k.1) k.2) as [mem1 a] eqn:Hf.
  destruct (touch_inv _ _ _ _ _ _ _ _ _ sg Hinv Ho eq_refl Hst Hf) as [Hinv1 Ha].
  pose proof (order_group_key_ok _ _ Ho) as Hk.
  destruct (mi_managers _ _ _ _ _ Hinv1 k a Hk Ha) as (m & Hm & Hok).
  destruct (Manager_insert_order (bd_of o) m s) as [m' s'] eqn:Hi.
  pose proof (mi_ids _ _ _ _ _ Hinv) as Hids.
  destruct (manager_insert_spec _ _ _ _ _ _ _ Hids Hn Ho Hok Hi) as [Hok' Hs'].
  exists {| mem_managers := <[a := m']> (mem_managers mem1); mem_sinks := [s'] |}.
  exists (put_merger (note_signer mm (so_id o) sg) sg (add_route (get_merger mm k.1) k.2 (so_id o) a)), s'.
  split.
  - unfold multi_insert_order. fold sg. fold (note_signer mm (so_id o) sg).
    change (get_merger (note_signer mm (so_id o) sg) sg) with (get_merger mm sg).
    rewrite <- (get_merger_configured mm sg (mi_signers _ _ _ _ _ Hinv)).
    unfold sbm_insert_order. rewrite Hb. unfold find_manager in Hf. simpl in Hf. rewrite Hf.
    erewrite borrow_manager_eq; [done | done | apply Hok | apply Hinv1 |]. by rewrite <- Hbo, Hi.
  - eapply update_manager_inv; [exact Hinv1 | done | done | by apply ids_ok_insert | | | | done |].
    + intros id o'. rewrite lookup_insert_Some. intros [[_ <-] | [_ Hl]]; [by left |].
      right. by eapply mi_seen.
    + intros k' Hne. apply group_members_other_insert; [done.. | congruence].
    + intros k' id Hne. setoid_rewrite lookup_insert_Some. intros [(o' & [[_ <-] | [? _]] & Hg) | (o' & Hl & _)].
      * congruence.
      * by apply lookup_insert_ne.
      * apply lookup_insert_ne. congruence.
    + rewrite Hs'. apply holds_regenerate; [| | done |].
      * eapply holds_ext; [apply Hinv | done |]. intros o'. rewrite passed_insert by done.
        rewrite Ho. naive_solver.
      * destruct Hap as [Hap1 Hap2]. split; [done |]. intros k' mo o' Hmo.
        rewrite passed_insert, Ho by done. intros [Hp | [_ ?]]; [by eapply Hap2 | done].
      * intros k' Hne. unfold merged. rewrite group_members_other_insert; [done.. | congruence].
Qed.

(** An order that is not merged is forwarded. *)
Lemma insert_passed_step seen l mem mm s o : merging_inv seen l mem mm s ->
  order_group o = None -> l !! so_id o = None ->
  (forall o', o' ∈ seen -> so_id o' = so_id o -> order_group o' = order_group o) ->
  (forall k m, merged l k = Some m -> so_id m <> so_id o) ->
  exists mem' mm' s', multi_insert_order (mem, mm) o = (mem', mm') /\
    merging_inv (o :: seen) (<[so_id o := o]> l) mem' mm' s'.
Proof.
  intros Hinv Ho Hn Hst Hap. destruct Hinv. set (sg := Order_signer (so_order o)).
  assert (break_down_bundle o = None) as Hb.
  { unfold MergerGroups.order_group in Ho. by destruct (break_down_bundle o). }
  exists {| mem_managers := mem_managers mem; mem_sinks := [sim_insert_order s o] |}.
  exists (put_merger (note_signer mm (so_id o) sg) sg (get_merger mm sg)), (sim_insert_order s o).
  split.
  { unfold multi_insert_order. fold sg. fold (note_signer mm (so_id o) sg).
    change (get_merger (note_signer mm (so_id o) sg) sg) with (get_merger mm sg).
    unfold sbm_insert_order. rewrite Hb. unfold borrow_sink. by rewrite mi_sink0, mi_mem0. }
  assert (Hsame : forall k, group_members (<[so_id o := o]> l) k = group_members l k).
  { intros k. apply group_members_other_insert; [done.. | congruence]. }
  set (mm' := put_merger _ _ _).
  assert (Hget : forall sg', get_merger mm' sg' = get_merger mm sg').
  { intros sg'. subst mm'. rewrite get_put_merger by done. case_decide as Hd; [| done].
    by rewrite <- (get_merger_configured mm sg'), Hd, get_merger_configured. }
  assert (Hins : inserted_orders_signers mm' = <[so_id o := sg]> (inserted_orders_signers mm))
    by apply put_merger_inserted.
  split; try done.
  - by apply ids_ok_insert.
  - intros id o'. rewrite lookup_insert_Some. intros [[_ <-] | [_ Hl]]; [by left |]. right. eauto.
  - by apply stable_cons.
  - by apply put_merger_signers.
  - intros sg'. rewrite Hget. apply mi_sink0.
  - intros k a Hk. unfold manager_of. rewrite Hget. intros Ha.
    destruct (mi_managers0 k a Hk Ha) as (m & Hm & [X1 X2 X3 X4]). exists m. split; [done |].
    split; [done | by rewrite Hsame | | unfold merged; by rewrite Hsame].
    intros id. rewrite X3. destruct (decide (id = so_id o)) as [-> | Hne].
    + rewrite Hn, lookup_insert_eq. simpl. by rewrite Ho.
    + by rewrite lookup_insert_ne.
  - intros k Hk. unfold manager_of. rewrite Hget, Hsame. by apply mi_absent0.
  - intros k1 k2 a. unfold manager_of. rewrite !Hget. apply mi_inj0.
  - intros sg' id a Hs'. unfold route_of, manager_of. setoid_rewrite Hget. intros Hr.
    destruct (mi_routes0 sg' id a Hs' Hr) as (o' & h & ? & ? & ? & ?). exists o', h.
    split_and!; [by right | done..].
  - rewrite Hins. by apply inserted_cons.
  - intros o' Ho'. rewrite Hins. destruct (decide (so_id o' = so_id o)) as [He | Hne].
    + exists sg. rewrite He, lookup_insert_eq. split; [done |]. intros k' Hk'.
      assert (order_group o' = order_group o) as Hg
        by (apply elem_of_cons in Ho' as [-> | ?]; [done | by apply Hst]). congruence.
    + apply elem_of_cons in Ho' as [-> | Ho']; [done |].
      destruct (mi_seen_routes0 o' Ho') as (sg' & H1 & H2). exists sg'.
      rewrite lookup_insert_ne by done. split; [done |]. unfold manager_of, route_of.
      setoid_rewrite Hget. apply H2.
  - rewrite content_insert. eapply (holds_insert_unmerged _ _ (passed l)); [| | |].
    + eapply holds_ext; [done | | done]. intros k. unfold merged. by rewrite Hsame.
    + intros o'. rewrite passed_insert by done. naive_solver.
    + intros o' [_ [id Hl]] He. rewrite (mi_ids0 _ _ Hl) in He. congruence.
    + intros k m. unfold merged. rewrite Hsame. apply Hap.
Qed.

(** Whatever is live under an id that was seen belongs to the group of that id. *)
Lemma live_group seen l mem mm s o o' : merging_inv seen l mem mm s -> o ∈ seen ->
  l !! so_id o = Some o' -> order_group o' = order_group o.
Proof.
  intros Hinv Ho Hl. eapply mi_stable; [done | by eapply mi_seen | done | by eapply mi_ids].
Qed.

(** A live order leaves its group. *)
Lemma remove_member_inv seen l mem mm s k a m' s' o id : merging_inv seen l mem mm s ->
  manager_of mm k = Some a -> l !! id = Some o -> order_group o = Some k ->
  apart (merged l) (passed l) -> apart (merged (delete id l)) (passed (delete id l)) ->
  manager_ok (delete id l) k m' ->
  sink_content s' = insert_option (merged (delete id l) k)
                      (delete_option (so_id <$> merged l k) (sink_content s)) ->
  merging_inv seen (delete id l)
    {| mem_managers := <[a := m']> (mem_managers mem); mem_sinks := [s'] |} mm s'.
Proof.
  intros Hinv Ha El Hg Hap Hap' Hok' Hs'. pose proof (mi_ids _ _ _ _ _ Hinv) as Hids.
  assert (Hp : forall x, passed l x <-> passed (delete id l) x).
  { intros x. rewrite (passed_delete l _ _ _ Hids El). split; [| tauto].
    intros Hx. split; [done |]. intros He. destruct Hx as [Hx [i Hi]].
    rewrite (Hids _ _ Hi) in He. congruence. }
  eapply update_manager_inv;
    [done | by eapply order_group_key_ok | done | by apply ids_ok_delete | | | | done |].
  - intros id' o''. rewrite lookup_delete_Some. intros [_ ?]. by eapply mi_seen.
  - intros k' Hne. eapply group_members_other_delete; [done.. | congruence].
  - intros k' id' Hne Hex. apply lookup_delete_ne. intros <-.
    destruct Hex as [(? & Hd & _) | (? & ? & ?)]; [by rewrite lookup_delete_eq in Hd | congruence].
  - rewrite Hs'. apply holds_regenerate; [eapply holds_ext; [apply Hinv | done | done] | | done |].
    + destruct Hap as [H1 H2]. split; [done |]. intros k' mo x Hmo Hx. apply Hp in Hx. eauto.
    + intros k' Hne. unfold merged. erewrite group_members_other_delete; [done.. | congruence].
Qed.

(** An order that was not merged leaves the sink. *)
Lemma remove_passed_inv seen l mem mm s o : merging_inv seen l mem mm s ->
  o ∈ seen -> order_group o = None -> (forall k m, merged l k = Some m -> so_id m <> so_id o) ->
  let s' := (sim_remove_order s (so_id o)).1 in
  merging_inv seen (delete (so_id o) l)
    {| mem_managers := mem_managers mem; mem_sinks := [s'] |} mm s'.
Proof.
  intros Hinv Ho Hg Hpass s'. pose proof (fun o' => live_group _ _ _ _ _ _ o' Hinv Ho) as Hlive.
  pose proof (mi_ids _ _ _ _ _ Hinv) as Hids.
  assert (Hsame : forall k, group_members (delete (so_id o) l) k = group_members l k).
  { intros k. destruct (l !! so_id o) as [o' |] eqn:El; [| by rewrite delete_id].
    eapply group_members_other_delete; [done.. |]. by rewrite (Hlive o' eq_refl), Hg. }
  destruct Hinv. split; try done.
  - by apply ids_ok_delete.
  - intros id' o'. rewrite lookup_delete_Some. intros [_ ?]. eauto.
  - intros k a Hk Ha. destruct (mi_managers0 k a Hk Ha) as (m & Hm & [X1 X2 X3 X4]).
    exists m. split; [done |]. split; [done | by rewrite Hsame | | unfold merged; by rewrite Hsame].
    intros id. rewrite X3. destruct (decide (id = so_id o)) as [-> | Hne].
    + rewrite lookup_delete_eq. destruct (l !! so_id o) as [o' |] eqn:El; [| done]. simpl.
      by rewrite (Hlive o' eq_refl), Hg.
    + by rewrite lookup_delete_ne.
  - intros k Hk Hn. rewrite Hsame. by apply mi_absent0.
  - subst s'. rewrite content_remove. eapply (holds_delete_unmerged _ _ (passed l)).
    + eapply holds_ext; [done | | done]. intros k. unfold merged. by rewrite Hsame.
    + intros o'. destruct (l !! so_id o) as [o'' |] eqn:El; [by eapply passed_delete |].
      rewrite delete_id by done. split; [| tauto]. intros Hp. split; [done |]. intros He.
      destruct Hp as [_ [i Hi]]. rewrite (Hids _ _ Hi) in He. congruence.
    + intros k m. unfold merged. rewrite Hsame. by eapply Hpass.
Qed.

(** A cancellation: the order leaves its group or is forgotten; an id that is not
    live changes nothing. *)
Lemma remove_step seen l mem mm s id : merging_inv seen l mem mm s ->
  apart (merged l) (passed l) -> apart (merged (delete id l)) (passed (delete id l)) ->
  (forall o k m, o ∈ seen -> order_group o = None -> merged l k = Some m -> so_id m <> so_id o) ->
  exists mem' mm' s' r, multi_remove_order (mem, mm) id = (mem', mm', r) /\
    merging_inv seen (delete id l) mem' mm' s'.
Proof.
  intros Hinv Hap Hap' Hpass. pose proof (mi_ids _ _ _ _ _ Hinv) as Hids. unfold multi_remove_order.
  destruct (inserted_orders_signers mm !! id) as [sg |] eqn:Hsg.
  2: { exists mem, mm, s, None. split; [done |]. rewrite delete_id; [done |].
       destruct (l !! id) as [o |] eqn:El; [| done]. pose proof (mi_seen _ _ _ _ _ Hinv _ _ El) as Hseen.
       destruct (mi_seen_routes _ _ _ _ _ Hinv o Hseen) as (sg & Hsg' & _).
       rewrite (Hids _ _ El) in Hsg'. congruence. }
  destruct (mi_inserted _ _ _ _ _ Hinv id sg Hsg) as (o & Ho & <-).
  destruct (mi_seen_routes _ _ _ _ _ Hinv o Ho) as (sg0 & Hsg0 & Hroutes).
  assert (sg0 = sg) as -> by congruence. clear Hsg0.
  rewrite <- (get_merger_configured mm sg (mi_signers _ _ _ _ _ Hinv)).
  unfold sbm_remove_order. fold (route_of mm (configured sg) (so_id o)).
  destruct (order_group o) as [k |] eqn:Hg.
  - destruct (Hroutes k eq_refl) as (-> & a & Ha & ->). clear Hroutes.
    destruct (mi_managers _ _ _ _ _ Hinv k a (order_group_key_ok _ _ Hg) Ha) as (m & Hm & Hok).
    pose proof (manager_remove_spec l k m s (so_id o) Hids Hok) as Hspec.
    destruct (l !! so_id o) as [o' |] eqn:El.
    + pose proof (live_group _ _ _ _ _ _ _ Hinv Ho El) as Hlive. rewrite Hg in Hlive.
      destruct (Hspec Hlive) as (m' & s' & Hr & Hok' & Hs').
      erewrite borrow_manager_eq; [| done | apply Hok | apply Hinv | exact Hr].
      eexists _, _, s', _. split; [done |]. by eapply remove_member_inv.
    + erewrite borrow_manager_eq; [| done | apply Hok | apply Hinv | exact Hspec].
      eexists _, _, s, _. split; [done |]. rewrite delete_id by done.
      rewrite list_insert_id by done. pose proof (mi_mem _ _ _ _ _ Hinv) as Hmem.
      destruct mem as [ms ss]. simpl in *. by subst ss.
  - assert (route_of mm (configured sg) (so_id o) = None) as ->.
    { destruct (route_of mm (configured sg) (so_id o)) as [a |] eqn:Hr; [| done].
      destruct (mi_routes _ _ _ _ _ Hinv _ _ _ (configured_idemp sg) Hr) as (o' & h & H1 & H2 & H3 & _).
      pose proof (mi_stable _ _ _ _ _ Hinv o' o H1 Ho H2). congruence. }
    unfold borrow_sink. rewrite (mi_sink _ _ _ _ _ Hinv), (mi_mem _ _ _ _ _ Hinv). simpl.
    pose proof (remove_passed_inv _ _ _ _ _ o Hinv Ho Hg (fun k m => Hpass o k m Ho Hg)) as Hinv'.
    destruct (sim_remove_order s (so_id o)) as [s' r]. by eexists _, _, s', r.
Qed.
End inv.
