(* ===== verification/MergerRefine.v ===== *)
(** * Flows through the mergers

    The steps of MergerSpec.v over a whole flow: the live merger that sends to a
    channel, the merger of a backtest, and their agreement. *)

From S2P Require Import Prelude Transactions Bundles Orders SimTypes BlockOrders ShareBundleMerger MergerGroups MergerSpec.

(** ** Flows *)
Definition live (flow : list SimulatedOrderCommand) : gmap OrderId SimulatedOrder :=
  foldl live_step ∅ flow.

(** What a flow has to respect: an order is sent once until it is cancelled, an id
    belongs to one group, and the ids of merged orders, which are hashes, collide
    neither with each other nor with those of orders that are not merged. *)
Record flow_ok `{!BundleHashing} (signers : list Address) (flow : list SimulatedOrderCommand) : Prop := {
  fo_fresh : forall pre o post, flow = pre ++ Simulation o :: post -> live pre !! so_id o = None;
  fo_stable : forall o1 o2, Simulation o1 ∈ flow -> Simulation o2 ∈ flow -> so_id o1 = so_id o2 ->
    order_group signers o1 = order_group signers o2;
  fo_distinct : forall pre post, flow = pre ++ post -> NoDup (so_id <$> merged_orders signers (live pre));
  fo_apart : forall pre post o, flow = pre ++ post -> Simulation o ∈ flow ->
    order_group signers o = None -> so_id o ∉ so_id <$> merged_orders signers (live pre);
}.

Lemma omap_NoDup_inj {A B C} (f : A -> option B) (g : B -> C) (l : list A) x y a b :
  NoDup (g <$> omap f l) -> x ∈ l -> y ∈ l -> f x = Some a -> f y = Some b -> g a = g b -> x = y.
Proof.
  intros Hnd Hx Hy Ha Hb He. induction l as [| z l IH]; [by apply not_elem_of_nil in Hx |].
  assert (Hin : forall w c, w ∈ l -> f w = Some c -> g c ∈ g <$> omap f l).
  { intros w c Hw Hc. apply list_elem_of_fmap_2, list_elem_of_omap. eauto. }
  apply elem_of_cons in Hx as [-> | Hx], Hy as [-> | Hy]; [done | | |].
  - cbn in Hnd. rewrite Ha in Hnd. apply NoDup_cons in Hnd as [Hn _]. destruct Hn.
    rewrite He. by eapply Hin.
  - cbn in Hnd. rewrite Hb in Hnd. apply NoDup_cons in Hnd as [Hn _]. destruct Hn.
    rewrite <- He. by eapply Hin.
  - apply IH; [| done..]. cbn in Hnd. destruct (f z); [by apply NoDup_cons in Hnd as [_ ?] | done].
Qed.

Lemma lookup_foldl_insert {V} (v : V) (l : list Z) (m : gmap Z V) a :
  foldl (fun m k => <[k := v]> m) m l !! a = if decide (a ∈ l) then Some v else m !! a.
Proof.
  revert m. induction l as [| b l IH]; intros m; [done |]. cbn [foldl]. rewrite IH.
  destruct (decide (a ∈ l)); [by rewrite decide_True by by right |].
  destruct (decide (a = b)) as [-> | Hne].
  - rewrite lookup_insert_eq, decide_True; [done | by left].
  - rewrite lookup_insert_ne, decide_False; [done | | done]. by rewrite elem_of_cons; intros [|].
Qed.

Section refine.
Context {S : Type} `{!SimulatedOrderSink S} `{!SinkContent S} `{!SinkContentOk S}.
Context {hashing : BundleHashing} (signers : list Address).
Implicit Types (o : SimulatedOrder) (l : gmap OrderId SimulatedOrder) (s : S).

Lemma merged_in_groups l k m : merged signers l k = Some m -> k ∈ groups signers l.
Proof.
  unfold merged, groups. intros Hm. rewrite elem_of_remove_dups, list_elem_of_omap.
  destruct (group_members signers l k) as [| o os] eqn:E; [done |].
  assert (o ∈ group_members signers l k) as [Ho Hl]%elem_of_group_members by (rewrite E; left).
  exists o. by rewrite elem_of_values.
Qed.

Lemma apart_collisions l : NoDup (so_id <$> merged_orders signers l) ->
  (forall o, passed signers l o -> so_id o ∉ so_id <$> merged_orders signers l) ->
  apart (merged signers l) (passed signers l).
Proof.
  intros Hnd Hp. split.
  - intros k1 k2 m1 m2 H1 H2 He. eapply (omap_NoDup_inj _ so_id); [exact Hnd | | | exact H1 | exact H2 | done];
      by eapply merged_in_groups.
  - intros k m o Hm Ho He. apply (Hp o Ho). rewrite <- He. apply list_elem_of_fmap_2.
    apply elem_of_merged_orders. eauto.
Qed.

Lemma elem_of_unmerged l o : o ∈ unmerged signers l <-> passed signers l o.
Proof. unfold unmerged, passed. by rewrite list_elem_of_filter, elem_of_values. Qed.

(** The state of a new merger. *)
Lemma merging_new_inv s : sink_content s = ∅ ->
  merging_inv signers [] ∅ (merging_new signers s).1 (merging_new signers s).2 s.
Proof.
  intros Hs.
  assert (Hnew : forall sg, get_merger (MultiShareBundleMerger_new signers 0) sg = ShareBundleMerger_new 0).
  { intros [a |]; [| done]. unfold get_merger, MultiShareBundleMerger_new.
    cbn [signers_mergers fallback_merger]. rewrite lookup_foldl_insert. by case_decide. }
  assert (Hempty : forall k, group_members signers ∅ k = []).
  { intros k. apply Permutation_nil_r. by rewrite group_members_perm. }
  split; simpl; try done.
  - by intros o1 o2 ?%not_elem_of_nil.
  - intros a. rewrite lookup_foldl_insert. case_decide; [by eauto |].
    rewrite lookup_empty. split; [by intros [? ?] | done].
  - intros sg. by rewrite Hnew.
  - intros k a Hk. unfold manager_of. by rewrite Hnew.
  - intros k1 k2 a _ _. unfold manager_of. by rewrite Hnew.
  - intros sg id a _. unfold route_of. by rewrite Hnew.
  - by intros o ?%not_elem_of_nil.
  - intros id o. rewrite Hs, lookup_empty. split; [done |].
    intros [_ [[k Hk] | [_ [i Hi]]]]; [| done]. unfold merged in Hk. by rewrite Hempty in Hk.
Qed.
(** The state after a part of a flow. *)
Definition simulated (flow : list SimulatedOrderCommand) : list SimulatedOrder :=
  omap (fun c => match c with Simulation o => Some o | Cancellation _ => None end) flow.

Lemma elem_of_simulated flow o : o ∈ simulated flow <-> Simulation o ∈ flow.
Proof.
  unfold simulated. rewrite list_elem_of_omap. split; [| by exists (Simulation o)].
  intros ([] & Hc & He); by simplify_eq.
Qed.

Lemma passed_simulated flow pre post o : flow = pre ++ post -> passed signers (live pre) o ->
  Simulation o ∈ flow.
Proof.
  intros -> [_ [id Hl]]. apply elem_of_app. left. revert Hl.
  induction pre as [| c pre IH] using rev_ind; [done |].
  unfold live. rewrite foldl_app, elem_of_app, list_elem_of_singleton. fold (live pre).
  destruct c as [o' | id']; simpl.
  - rewrite lookup_insert_Some. intros [[_ <-] | [_ ?]]; [by right | left; auto].
  - rewrite lookup_delete_Some. intros [_ ?]. left. auto.
Qed.

Lemma flow_ok_apart flow pre post : flow_ok signers flow -> flow = pre ++ post ->
  apart (merged signers (live pre)) (passed signers (live pre)).
Proof.
  intros [F1 F2 F3 F4] Hflow. apply apart_collisions; [by eapply F3 |].
  intros o Ho. eapply F4; [done | by eapply passed_simulated | apply Ho].
Qed.

Lemma merged_id_apart flow pre post o k m : flow_ok signers flow -> flow = pre ++ post ->
  Simulation o ∈ flow -> order_group signers o = None -> merged signers (live pre) k = Some m ->
  so_id m <> so_id o.
Proof.
  intros Hok Hflow Ho Hg Hm He. eapply (fo_apart _ _ Hok pre post o); [done.. |].
  rewrite <- He. apply list_elem_of_fmap_2, elem_of_merged_orders. eauto.
Qed.

Definition run_merger (st : Merging S) (flow : list SimulatedOrderCommand) : Merging S :=
  foldl (fun st c => simulated_order_command_to_sink c st) st flow.

Lemma run_merger_inv s flow : sink_content s = ∅ -> flow_ok signers flow ->
  forall pre post, flow = pre ++ post -> exists mem mm s',
    run_merger (merging_new signers s) pre = (mem, mm) /\
    merging_inv signers (reverse (simulated pre)) (live pre) mem mm s'.
Proof.
  intros Hs Hok pre. induction pre as [| c pre IH] using rev_ind; intros post Hflow.
  { eexists _, _, s. split; [apply surjective_pairing | by apply merging_new_inv]. }
  rewrite <- app_assoc in Hflow. destruct (IH _ Hflow) as (mem & mm & s' & Hrun & Hinv).
  assert (Hflow' : flow = (pre ++ [c]) ++ post) by by rewrite <- app_assoc.
  pose proof (flow_ok_apart _ _ _ Hok Hflow) as Hap. pose proof (flow_ok_apart _ _ _ Hok Hflow') as Hap'.
  assert (Hseen : forall o, o ∈ reverse (simulated pre) -> Simulation o ∈ flow).
  { intros o. rewrite elem_of_reverse, elem_of_simulated, Hflow, elem_of_app. by left. }
  unfold run_merger, live, simulated in *.
  rewrite !foldl_app, omap_app, reverse_app, Hrun. cbn [foldl omap list_omap] in *.
  rewrite foldl_app in Hap'. cbn [foldl] in Hap'. fold (live pre) (simulated pre) in *.
  destruct c as [o | id]; cbn [simulated_order_command_to_sink live_step sim_insert_order
    sim_remove_order MultiShareBundleMerger_sink] in *.
  - assert (Simulation o ∈ flow) as Ho by (rewrite Hflow, elem_of_app; right; left).
    assert (live pre !! so_id o = None) as Hn by by eapply fo_fresh.
    assert (Hst : forall o', o' ∈ reverse (simulated pre) -> so_id o' = so_id o ->
              order_group signers o' = order_group signers o).
    { intros o' Ho' He. eapply fo_stable; [done | by apply Hseen | done | done]. }
    change (reverse [o] ++ reverse (simulated pre)) with (o :: reverse (simulated pre)).
    destruct (order_group signers o) as [k |] eqn:Hg.
    + destruct (insert_merged_step signers _ _ _ _ _ o k Hinv) as (mem' & mm' & s2 & Hi & Hinv');
        [by rewrite ?Hg.. |]. eauto.
    + destruct (insert_passed_step signers _ _ _ _ _ o Hinv) as (mem' & mm' & s2 & Hi & Hinv');
        [done | done | by rewrite Hg | | by eauto].
      intros k m Hm. exact (merged_id_apart _ _ _ _ _ _ Hok Hflow Ho Hg Hm).
  - destruct (remove_step signers _ _ _ _ _ id Hinv) as (mem' & mm' & s2 & r & Hr & Hinv'); [done.. | |].
    + intros o k m Ho Hg Hm. exact (merged_id_apart _ _ _ _ _ _ Hok Hflow (Hseen o Ho) Hg Hm).
    + rewrite Hr. cbn. by eauto.
Qed.

(** What the sink holds after a flow: the merged orders of the groups of live
    orders, and the live orders that are in no group. *)
Lemma run_merger_content s flow : sink_content s = ∅ -> flow_ok signers flow ->
  exists s', sink_of (run_merger (merging_new signers s) flow) = Some s' /\
    forall id o, sink_content s' !! id = Some o <->
      so_id o = id /\ o ∈ merged_orders signers (live flow) ++ unmerged signers (live flow).
Proof.
  intros Hs Hok. destruct (run_merger_inv s flow Hs Hok flow []) as (mem & mm & s' & Hrun & Hinv);
    [by rewrite app_nil_r |].
  exists s'. unfold sink_of. rewrite Hrun. cbn [fst]. rewrite (mi_mem _ _ _ _ _ _ Hinv).
  split; [done |]. intros id o. rewrite (mi_content _ _ _ _ _ _ Hinv id o).
  by rewrite elem_of_app, elem_of_unmerged, elem_of_merged_orders.
Qed.
End refine.

(** ** What holds for a sink at every step holds in the end *)
Section preserve.
Context {S : Type} `{!SimulatedOrderSink S} {hashing : BundleHashing}.
Context (P : S -> Prop) (Hins : forall s o, P s -> P (sim_insert_order s o))
  (Hrem : forall s id, P s -> P (sim_remove_order s id).1).

Lemma regenerate_preserves m s : P s -> P (regenerate_multi_order m s).2.
Proof. intros Hs. unfold regenerate_multi_order. repeat case_match; simpl; auto. Qed.

Lemma borrow_manager_preserves {R} (mem : Memory S) a (d : R) f :
  Forall P (mem_sinks mem) -> (forall m s, P s -> P (f m s).1.2) ->
  Forall P (mem_sinks (borrow_manager mem a d f).1).
Proof.
  intros Hmem Hf. unfold borrow_manager. destruct (mem_managers mem !! a) as [m |]; [| done].
  destruct (mem_sinks mem !! _) as [s |] eqn:Es; [| done].
  assert (P s) as Hs by by eapply Forall_lookup_1. specialize (Hf m s Hs).
  destruct (f m s) as [[m' s'] r]. by apply Forall_insert.
Qed.

Lemma borrow_sink_preserves {R} (mem : Memory S) a (d : R) f :
  Forall P (mem_sinks mem) -> (forall s, P s -> P (f s).1) ->
  Forall P (mem_sinks (borrow_sink mem a d f).1).
Proof.
  intros Hmem Hf. unfold borrow_sink. destruct (mem_sinks mem !! a) as [s |] eqn:Es; [| done].
  assert (P s) as Hs by by eapply Forall_lookup_1. specialize (Hf s Hs).
  destruct (f s) as [s' r]. by apply Forall_insert.
Qed.

Lemma manager_insert_preserves b m s : P s -> P (Manager_insert_order b m s).2.
Proof. intros Hs. unfold Manager_insert_order. case_match; [done |]. by apply regenerate_preserves. Qed.

Lemma manager_remove_preserves id m s : P s -> P (Manager_remove_order id m s).1.2.
Proof.
  intros Hs. unfold Manager_remove_order. repeat case_match; try done. by apply regenerate_preserves.
Qed.

Lemma command_preserves (c : SimulatedOrderCommand) (st : Merging S) : Forall P (mem_sinks st.1) ->
  Forall P (mem_sinks (simulated_order_command_to_sink c st).1).
Proof.
  destruct st as [mem mm]. intros Hmem. destruct c as [o | id]; cbn.
  - destruct (sbm_insert_order mem _ o) as [mem' g] eqn:E. cbn. revert E.
    unfold sbm_insert_order. destruct (break_down_bundle o) as [b |].
    + destruct (match multi_backrun_managers _ !! _ with Some a => (mem, a) | None => _ end)
        as [mem1 a] eqn:E1. assert (mem_sinks mem1 = mem_sinks mem) as Hm1
        by (revert E1; unfold alloc_manager; case_match; intros [= <- <-]; done).
      destruct (borrow_manager mem1 a tt _) as [mem2 u] eqn:E2. intros [= <- _].
      replace mem2 with (borrow_manager mem1 a tt (fun m s => (Manager_insert_order b m s, tt))).1
        by by rewrite E2.
      apply borrow_manager_preserves; [by rewrite Hm1 |]. intros m s Hs.
      by apply manager_insert_preserves.
    + destruct (borrow_sink mem _ tt _) as [mem2 u] eqn:E2. intros [= <- _].
      change mem2 with (mem2, u).1. rewrite <- E2. apply borrow_sink_preserves; [done |].
      intros s. apply Hins.
  - destruct (inserted_orders_signers mm !! id) as [sg |]; [| done].
    destruct (sbm_remove_order mem _ id) as [mem' r] eqn:E. cbn. change mem' with (mem', r).1.
    rewrite <- E. unfold sbm_remove_order. case_match.
    + apply borrow_manager_preserves; [done |]. intros m s. apply manager_remove_preserves.
    + apply borrow_sink_preserves; [done |]. intros s. apply Hrem.
Qed.
End preserve.

(** ** The channel *)
Definition open_channel (c : SimulatedOrderSinkToChannel) : Prop :=
  sender_returned_error c = false /\ forall n, ch_send_ok c n = true.

(** While every message finds a receiver, the loop runs through its input. *)
Lemma merge_loop_open {hashing : BundleHashing} st flow : Forall open_channel (mem_sinks st.1) ->
  merge_loop st flow = run_merger st flow.
Proof.
  revert st. induction flow as [| c flow IH]; intros st Hst; [done |]. cbn [merge_loop].
  assert (Forall open_channel (mem_sinks (simulated_order_command_to_sink c st).1)) as Hst'.
  { apply command_preserves; [| | done]; intros s x [H1 H2]; split; cbn; rewrite ?H1, ?H2; done. }
  unfold sink_of. destruct (mem_sinks _ !! 0%nat) as [s |] eqn:E; cbn [from_option].
  - destruct (Forall_lookup_1 _ _ _ _ Hst' E) as [-> _]. by apply IH.
  - by apply IH.
Qed.

Lemma merge_and_send_content {hashing : BundleHashing} signers flow : flow_ok signers flow ->
  forall id o, live (merge_and_send (fun _ => true) signers flow) !! id = Some o <->
    so_id o = id /\ o ∈ merged_orders signers (live flow) ++ unmerged signers (live flow).
Proof.
  intros Hok. unfold merge_and_send. rewrite merge_loop_open by (repeat constructor).
  destruct (run_merger_content signers (SimulatedOrderSinkToChannel_new (fun _ => true)) flow)
    as (s & -> & Hs); [done | done |]. exact Hs.
Qed.

Lemma elements_dom_keys (m : gmap OrderId SimulatedOrder) : elements (dom m) ≡ₚ (map_to_list m).*1.
Proof.
  apply NoDup_Permutation; [apply NoDup_elements | apply NoDup_fst_map_to_list |].
  intros id. rewrite elem_of_elements, elem_of_dom, list_elem_of_fmap. split.
  - intros [o Ho]. exists (id, o). by rewrite elem_of_map_to_list.
  - intros ([id' o] & -> & Ho%elem_of_map_to_list). by exists o.
Qed.

Lemma sos_get_orders_values `{!HashOrder OrderId} `{!HashOrderOk OrderId} s :
  sos_get_orders s ≡ₚ values (sos_orders s).
Proof.
  unfold sos_get_orders, values. rewrite hash_order_perm, elements_dom_keys.
  assert (forall l, (forall kv, kv ∈ l -> sos_orders s !! kv.1 = Some kv.2) ->
            omap (fun id => sos_orders s !! id) l.*1 = l.*2) as ->; [| done |].
  - induction l as [| [id o] l IH]; intros Hl; [done |]. cbn.
    assert (sos_orders s !! id = Some o) as -> by (apply (Hl (id, o)); left). cbn. f_equal. apply IH. intros kv Hkv. apply Hl. by right.
  - intros [id o] Hkv. by apply elem_of_map_to_list.
Qed.

(** C13. Whatever simulated orders and cancellations the merging job gets (an order
    once until it is cancelled, ids that do not collide), the receivers of
    its channel hold, for every signer and user bundle, one order that
    merges the live share bundles of that group by descending kickback, and
    the live orders that are in no group; every earlier merged order was
    removed. *)
Theorem merge_and_send_refines {hashing : BundleHashing} signers flow : flow_ok signers flow ->
  forall id o, live (merge_and_send (fun _ => true) signers flow) !! id = Some o <->
    so_id o = id /\ (o ∈ unmerged signers (live flow) \/
      exists k, merged_order (group_members signers (live flow) k) = Some o).
Proof.
  intros Hok id o. rewrite (merge_and_send_content signers flow Hok), elem_of_app, elem_of_merged_orders.
  tauto.
Qed.

(** ** The merging of a backtest *)

(** What the given orders become: one order per group that occurs among them, which
    merges the members by descending kickback, and the orders that are in no group. *)
Definition merged_list {hashing : BundleHashing} (signers : list Address) (os : list SimulatedOrder)
  : list SimulatedOrder :=
  omap (fun k => merged_order (merge_sort key_le (filter (fun o => order_group signers o = Some k) os)))
    (remove_dups (omap (order_group signers) os))
  ++ filter (fun o => order_group signers o = None) os.

Section backtest.
Context {hashing : BundleHashing} (signers : list Address).

Lemma NoDup_values_ids (l : gmap OrderId SimulatedOrder) : ids_ok l -> NoDup (so_id <$> values l).
Proof.
  intros Hids. unfold values. replace (so_id <$> (map_to_list l).*2) with (map_to_list l).*1;
    [apply NoDup_fst_map_to_list |].
  rewrite <- list_fmap_compose. apply list_fmap_ext. intros i [id o] Hi. simpl. symmetry.
  apply Hids, elem_of_map_to_list. by eapply list_elem_of_lookup_2.
Qed.

Lemma remove_dups_perm {A} `{EqDecision A} (l l' : list A) : l ≡ₚ l' -> remove_dups l ≡ₚ remove_dups l'.
Proof.
  intros Hl. apply NoDup_Permutation; [apply NoDup_remove_dups | apply NoDup_remove_dups |].
  intros x. by rewrite !elem_of_remove_dups, Hl.
Qed.

(** The live orders are the given ones. *)
Lemma live_inserted os : flow_ok signers (Simulation <$> os) ->
  ids_ok (live (Simulation <$> os)) /\ values (live (Simulation <$> os)) ≡ₚ os.
Proof.
  intros [Hfresh _ _ _]. induction os as [| o os IH] using rev_ind; [done |].
  rewrite fmap_app in *. cbn [fmap list_fmap] in *.
  assert (live (Simulation <$> os) !! so_id o = None) as Hn by (by eapply Hfresh).
  destruct IH as [Hids Hv].
  { intros pre o' post Hpre. apply (Hfresh pre o' (post ++ [Simulation o])). by rewrite Hpre, <- app_assoc. }
  unfold live. rewrite foldl_app. fold (live (Simulation <$> os)). cbn [foldl live_step]. split.
  - intros id o' [[<- <-] | [_ Hl]]%lookup_insert_Some; [done | by apply Hids].
  - rewrite values_insert by done. rewrite Hv. by rewrite Permutation_cons_append.
Qed.

Lemma merged_list_live os : flow_ok signers (Simulation <$> os) ->
  merged_orders signers (live (Simulation <$> os)) ++ unmerged signers (live (Simulation <$> os))
  ≡ₚ merged_list signers os.
Proof.
  intros Hok. destruct (live_inserted os Hok) as [Hids Hv]. unfold merged_list, merged_orders, unmerged, groups.
  apply Permutation_app; [| by rewrite Hv].
  rewrite (remove_dups_perm _ _ (omap_Permutation _ _ _ Hv)).
  erewrite list_omap_ext; [done |]. apply Forall_Forall2_diag, Forall_true. intros k. simpl. f_equal.
  apply group_members_unique; [done | by rewrite merge_sort_Permutation, Hv | apply StronglySorted_merge_sort; apply _].
Qed.

(** No two of the orders in the end share an id. *)
Lemma merged_list_NoDup os : flow_ok signers (Simulation <$> os) ->
  NoDup (merged_orders signers (live (Simulation <$> os)) ++ unmerged signers (live (Simulation <$> os))).
Proof.
  intros Hok. destruct (live_inserted os Hok) as [Hids Hv]. apply (NoDup_fmap_1 so_id). rewrite fmap_app.
  apply NoDup_app. split; [apply (fo_distinct _ _ Hok _ []); by rewrite app_nil_r |]. split.
  - intros id Hm (o & -> & Ho)%list_elem_of_fmap. unfold unmerged in Ho. apply list_elem_of_filter in Ho as [Hg Ho].
    rewrite Hv in Ho. refine (fo_apart _ _ Hok _ [] o _ _ Hg Hm); [by rewrite app_nil_r |].
    by apply list_elem_of_fmap_2.
  - eapply sublist_NoDup; [by apply (NoDup_values_ids _ Hids) |]. apply fmap_sublist, sublist_filter.
Qed.

Lemma run_merger_inserts {S} `{!SimulatedOrderSink S} (st : Merging S) os :
  run_merger st (Simulation <$> os) = foldl sim_insert_order st os.
Proof. revert st. induction os as [| o os IH]; intros st; [done |]. apply IH. Qed.
End backtest.

(** C14. Merging the simulated orders of a backtest yields, up to their order, for
    every group (signer and user bundle) that occurs among them exactly one
    order that merges all members of the group by descending kickback, and
    every order that is in no group unchanged; these are the orders that the
    receivers of the live channel hold after the same orders. Conditions:
    the ids of the given orders are distinct, and those of merged orders,
    which are hashes, collide neither with each other nor with those of
    orders that are not merged. *)
Theorem backtest_merges_as_live {hashing : BundleHashing} `{!HashOrder OrderId} `{!HashOrderOk OrderId}
    signers (os : list SimulatedOrder) : flow_ok signers (Simulation <$> os) ->
  backtest_merge_orders signers os ≡ₚ merged_list signers os
  /\ backtest_merge_orders signers os
     ≡ₚ values (live (merge_and_send (fun _ => true) signers (Simulation <$> os))).
Proof.
  intros Hok. pose proof (merge_and_send_content signers _ Hok) as Hlive.
  destruct (run_merger_content signers SimulatedOrderStore_new (Simulation <$> os))
    as (s & Hs & Hc); [done | done |].
  assert (sos_orders s = live (merge_and_send (fun _ => true) signers (Simulation <$> os))) as Heq.
  { apply map_eq. intros id. apply option_eq. intros o. by rewrite Hlive, <- Hc. }
  unfold backtest_merge_orders. rewrite <- run_merger_inserts, Hs, <- Heq. cbn [from_option]. rewrite !sos_get_orders_values.
  split; [| done]. rewrite <- merged_list_live by done. apply NoDup_Permutation.
  - apply (NoDup_fmap_1 so_id), NoDup_values_ids. intros id o Ho. by apply Hc in Ho as [? _].
  - by apply merged_list_NoDup.
  - intros o. rewrite elem_of_values. split; [by intros [id [_ ?]%Hc] | intros Ho; exists (so_id o); by apply Hc].
Qed.
