(* ===== verification/ParallelWitnesses.v ===== *)
(** * The parallel builder on the small chain *)

From S2P Require Import Prelude Transactions Bundles Orders SimTypes Samples OrderPriority BlockOrders World SampleChain CommitMonad OrderCommit OrderCommitSpec CommitWitnesses PartialBlock SimTree PartialBlockInv ConstraintPool BlockHelper BlockHelperSpec HelperWitnesses OrderingBuilder OrderingBuilderSpec BuilderWitnesses ConflictGroups ConflictIndex ConflictGroupsSpec ConflictTasks ConflictTasksSpec ConflictResolver ConflictResolverSpec ParallelBuilder ParallelBuilderSpec ShareBundleMerger MergerGroups MergerSpec MergerRefine.

#[local] Instance slot_order : HashOrder SlotKey := elements_order.
#[local] Instance slot_order_ok : HashOrderOk SlotKey.
Proof. by intros s. Qed.
#[local] Instance address_order_ok : HashOrderOk Z.
Proof. by intros s. Qed.
#[local] Instance nat_order_ok : HashOrderOk nat.
Proof. by intros s. Qed.

(** A generator that reverses. *)
#[local] Instance reversing_rng : SmallRng :=
  {| rng := unit; seed_from_u64 := fun _ => tt; shuffle := fun r l => (r, reverse l) |}.
#[local] Instance reversing_rng_ok : SmallRngOk.
Proof. intros r l. simpl. apply reverse_Permutation. Qed.

(** ** Orders that conflict: each writes the slot that the next one reads *)
Definition slot (n : Z) : SlotKey := {| sk_address := 9; sk_key := n |}.

Definition traced (o : Order) (profit : Z) (reads writes : list SlotKey) : SimulatedOrder :=
  {| so_order := o; so_sim_value := SimValue_new profit profit (BlockSpace_new 21000 0 0) [];
     so_used_state_trace := Some
       {| read_slot_values := list_to_map ((fun k => (k, 0)) <$> reads);
          written_slot_values := list_to_map ((fun k => (k, 1)) <$> writes);
          read_balances := ∅; received_amount := ∅; sent_amount := ∅;
          created_contracts := []; destructed_contracts := [] |} |}.

Definition first_sim : SimulatedOrder := traced first_tx 30000000 [] [slot 1].
Definition second_sim : SimulatedOrder := traced second_tx 20000000 [slot 1] [slot 2].
Definition third_sim : SimulatedOrder := traced (nonce_tx 92 2) 10000000 [slot 2] [].
Definition lonely_sim : SimulatedOrder := traced (sample_mempool 93 4 0) 40 [slot 7] [slot 8].

(** The second order joins the first and the third. *)
Lemma conflict_groups_are_components_witness :
  exists cf, add_orders ConflictFinder_new [first_sim; third_sim; lonely_sim; second_sim] = Some cf
    /\ length (get_order_groups cf) = 2%nat
    /\ exists g, g ∈ get_order_groups cf /\ first_sim ∈ cg_orders g /\ third_sim ∈ cg_orders g.
Proof.
  destruct (conflict_groups_are_components [first_sim; third_sim; lonely_sim; second_sim])
    as (cf & Hadd & _ & _ & Hsame).
  exists cf. split; [exact Hadd |]. split.
  - vm_compute in Hadd. injection Hadd as <-. vm_compute. reflexivity.
  - assert (accepted ∅ [first_sim; third_sim; lonely_sim; second_sim]
            = [first_sim; third_sim; lonely_sim; second_sim]) as Hacc by (vm_compute; reflexivity).
    rewrite Hacc in Hsame. apply Hsame; [repeat constructor.. |].
    apply (rtc_l _ _ second_sim); [| apply rtc_once]; (split; [repeat constructor |]);
      (split; [repeat constructor |]).
    + right. left. left. exists (slot 1). split; apply elem_of_dom; eexists; vm_compute; reflexivity.
    + right. left. left. exists (slot 2). split; apply elem_of_dom; eexists; vm_compute; reflexivity.
Defined.

(** ** Results *)
Definition result_of (profit : Z) : ResolutionResult :=
  {| rr_total_profit := profit; rr_sequence_of_orders := [(O, profit)] |}.
Definition group_of (id : nat) (absorbed : gset nat) : ConflictGroup :=
  {| cg_id := id; cg_orders := [first_sim]; cg_conflicting_group_ids := absorbed |}.

Definition two_results : BestResults :=
  process_updates BestResults_new
    [(0%nat, (result_of 10, group_of 0 ∅)); (1%nat, (result_of 20, group_of 1 ∅))].

(** A group that absorbed both and is worth more replaces them. *)
Lemma best_results_update_witness :
  bs_data (update_best_result two_results 2 (result_of 25) (group_of 2 {[0%nat; 1%nat]})).1
    = {[2%nat := (result_of 25, group_of 2 {[0%nat; 1%nat]})]}
  /\ bs_data (update_best_result two_results 2 (result_of 15) (group_of 2 {[0%nat; 1%nat]})).1
    = bs_data two_results.
Proof.
  split.
  - vm_compute. reflexivity.
  - pose proof (best_results_update two_results 2 (result_of 15) (group_of 2 {[0%nat; 1%nat]})) as Hu.
    assert (is_u64 (bs_version two_results)) as Hv by (vm_compute; split; [discriminate | reflexivity]).
    assert (2%nat ∉ cg_conflicting_group_ids (group_of 2 {[0%nat; 1%nat]})) as Hid by (simpl; set_solver).
    specialize (Hu Hv Hid). destruct (update_best_result _ _ _ _) as [b' [u o]].
    destruct Hu as [Hblocked _]. simpl. destruct Hblocked as [-> _]; [| reflexivity].
    exists 1%nat. split; [simpl; set_solver |]. intros Hb.
    specialize (Hb (result_of 20) (group_of 1 ∅)). simpl in Hb. assert (20 < 15); [| lia].
    apply Hb. vm_compute. reflexivity.
Defined.

(** ** Sequences *)
Definition chain_group : ConflictGroup :=
  {| cg_id := 0; cg_orders := [third_sim; second_sim; first_sim]; cg_conflicting_group_ids := ∅ |}.
Definition pair_group : ConflictGroup :=
  {| cg_id := 0; cg_orders := [second_sim; first_sim]; cg_conflicting_group_ids := ∅ |}.
Definition task_for (g : ConflictGroup) (a : Algorithm) : ConflictTask :=
  {| ct_group_idx := cg_id g; ct_algorithm := a; ct_priority := High; ct_group := g; ct_created_at := 0 |}.

Lemma sequences_are_permutations_witness :
  [1; 2; 0]%nat ∈ generate_sequences_of_orders_to_try (task_for chain_group AllPermutations).
Proof.
  apply (sequences_are_permutations (task_for chain_group AllPermutations)); [reflexivity |].
  exact (Permutation_app_comm [1; 2]%nat [0%nat]).
Defined.

Definition run_task (cache : SharedSimulationCache SmallChain) (g : ConflictGroup) :=
  run_conflict_task small_ctx small_world tt 1 small_system_calls (fun _ => false) 50 cache 0
    (task_for g Greedy).

Definition cache_of {A B} (r : option (SharedSimulationCache SmallChain * A * B))
  : SharedSimulationCache SmallChain :=
  match r with Some (c, _, _) => c | None => SharedSimulationCache_new end.
Definition resolution_of {A B} (r : option (A * B * Resolved ResolutionResult)) : ResolutionResult :=
  match r with Some (_, _, Resolved_Ok r) => r | _ => result_of 0 end.

(** Three chained transfers resolve to all three orders and their profits when
    nothing is cached; when a pair of them was resolved before, the same
    group resolves to two of them only: the orders of the cached prefix are
    skipped but not executed on the block that the others run on. *)
Theorem cached_prefix_not_executed :
  resolution_of (run_task SharedSimulationCache_new chain_group)
    = {| rr_total_profit := 63000;
         rr_sequence_of_orders := [(2%nat, 21000); (1%nat, 21000); (0%nat, 21000)] |}
  /\ resolution_of (run_task (cache_of (run_task SharedSimulationCache_new pair_group)) chain_group)
    = {| rr_total_profit := 42000; rr_sequence_of_orders := [(2%nat, 21000); (1%nat, 21000)] |}.
Proof. split; vm_compute; reflexivity. Qed.

#[local] Instance parallel_hashing : TxHashing :=
  small_hashing ([first_sim; second_sim; third_sim; lonely_sim] ≫= fun o => (Order_list_txs (so_order o)).*1).

Lemma sims_proper : Forall proper_sim [third_sim; second_sim; first_sim; lonely_sim].
Proof. repeat constructor; vm_compute; try reflexivity; discriminate. Qed.

Definition small_initial : Building SmallChain unit :=
  match initial_block small_world tt 1 small_system_calls with Ok b => b | Err _ => small_building end.

Definition header_space : BlockSpace := ss_space_used (pb_space_state (bl_block small_initial)).

Lemma small_initial_inv : block_inv small_ctx header_space BlockSpace_ZERO (bl_block small_initial).
Proof.
  split; [reflexivity | apply chain_nil | split; vm_compute; repeat split; discriminate | reflexivity].
Qed.

Definition small_process (cache : SharedSimulationCache SmallChain) (seq : list nat) :=
  process_sequence_of_orders small_ctx small_world tt 1 small_system_calls (fun _ => false) 50 cache 0
    (cg_orders chain_group) seq.

(** The waiting orders are executed when their nonce is reached, and a second run
    finds the whole sequence in the cache. *)
Lemma resolver_executes_sequence_witness :
  resolution_of (small_process SharedSimulationCache_new [0; 1; 2]%nat)
    = {| rr_total_profit := 63000;
         rr_sequence_of_orders := [(2%nat, 21000); (1%nat, 21000); (0%nat, 21000)] |}
  /\ (rr_sequence_of_orders (resolution_of (small_process SharedSimulationCache_new [0; 1; 2]%nat))).*1
       ⊆+ [0; 1; 2]%nat.
Proof.
  split; [vm_compute; reflexivity |].
  destruct (resolver_executes_sequence small_ctx small_world tt small_sane 1 small_system_calls
    (fun _ => false) header_space BlockSpace_ZERO small_cache_sound 50 SharedSimulationCache_new 0 (cg_orders chain_group)
    [0; 1; 2]%nat [Id_Tx 92; Id_Tx 91; Id_Tx 90] small_initial) as (cache' & n' & r & Hrun & _ & Hres).
  - vm_compute. reflexivity.
  - exact small_initial_inv.
  - exact (Forall_take _ 3 _ sims_proper).
  - vm_compute. reflexivity.
  - intros n _. reflexivity.
  - simpl. lia.
  - unfold small_process. rewrite Hrun. simpl. destruct r as [res | e |].
    + destruct (Hres res eq_refl) as [Hsub _]. exact Hsub.
    + vm_compute in Hrun. discriminate Hrun.
    + vm_compute in Hrun. discriminate Hrun.
Defined.

(** ** Intake *)
Definition after_batch (p : ParallelIntake) (events : list ChannelEvent) : ParallelIntake :=
  match order_intake_step 0 p events with Some (Some (_, p)) => p | _ => p end.

Definition intake0 : ParallelIntake := ParallelIntake_new true.
Definition both_orders : list ChannelEvent :=
  [Received (Simulation first_sim); Received (Simulation second_sim); Empty].
Definition intake1 : ParallelIntake := after_batch intake0 both_orders.

Lemma intake1_reachable : parallel_reachable intake1.
Proof.
  apply (reachable_batch 0 intake0 both_orders []); [apply reachable_start | vm_compute; reflexivity].
Qed.

Lemma parallel_intake_tracks_groups_witness :
  (ct_algorithm <$> tg_task_queue (pi_generator intake1)) = [Greedy; Length]
  /\ is_Some (tg_existing_groups (pi_generator intake1) !! 0%nat)
  /\ exists n, n ∈ get_order_groups (pi_finder intake1) /\ cg_id n = 0%nat.
Proof.
  split; [vm_compute; reflexivity |]. split; [vm_compute; eexists; reflexivity |].
  destruct (parallel_intake_tracks_groups intake1 intake1_reachable) as (_ & Hids & _ & _).
  apply Hids. vm_compute. eexists. reflexivity.
Defined.

(** The third order comes with a cancellation. *)
Definition with_cancellation : list ChannelEvent :=
  [Received (Cancellation (Id_Tx 93)); Received (Simulation third_sim); Empty].

Lemma cancellation_drops_batch_witness :
  let p' := after_batch intake1 with_cancellation in
  pi_finder p' = pi_finder intake1 /\ so_id third_sim ∉ cf_orders (pi_finder p').
Proof.
  intros p'.
  assert (order_intake_step 0 intake1 with_cancellation = Some (Some ([], p'))) as Hstep
    by (vm_compute; reflexivity).
  destruct (cancellation_drops_batch 0 intake1 with_cancellation [] p' third_sim intake1_reachable Hstep)
    as (Hf & _ & Hlater).
  - vm_compute. reflexivity.
  - vm_compute. left.
  - apply (bool_decide_unpack _). vm_compute. exact I.
  - split; [exact Hf |]. apply Hlater. apply rtc_refl.
Defined.

(** ** Assembly *)
Definition best_of_groups : gmap nat Ordering :=
  {[0%nat := ({| rr_total_profit := 42000;
                 rr_sequence_of_orders := [(1%nat, 21000); (0%nat, 21000)] |}, pair_group)]}.

Lemma live_and_backtest_assembly_agree_witness :
  build_new_block small_ctx (fun _ => false) 5 small_helper
    (omap (fun id => best_of_groups !! id) (hash_order (dom best_of_groups)))
  = Some (build_backtest_block small_ctx best_of_groups small_helper)
  /\ included_ids (included (build_backtest_block small_ctx best_of_groups small_helper).1)
     = [Id_Tx 90; Id_Tx 91].
Proof.
  split; [| vm_compute; reflexivity].
  apply (live_and_backtest_assembly_agree small_ctx 5 best_of_groups small_helper).
  vm_compute. lia.
Defined.

Definition small_backtest :=
  parallel_build_backtest small_ctx small_world tt 1 small_system_calls false 0
    [second_sim; lonely_sim; first_sim] small_helper.

Lemma parallel_backtest_block_witness :
  exists h' r, small_backtest = Some (h', r) /\ r <> Panic
    /\ helper_ok small_ctx BlockSpace_ZERO small_reserved h'
    /\ included_ids (included h') = [Id_Tx 90; Id_Tx 91; Id_Tx 93].
Proof.
  destruct (parallel_backtest_block small_ctx small_world tt small_sane small_cache_sound 1 small_system_calls
    BlockSpace_ZERO small_reserved header_space BlockSpace_ZERO) with
    (safe := false) (now := 0) (sim_orders := [second_sim; lonely_sim; first_sim]) (h := small_helper)
    as (h' & r & Hrun & Hp & Hh & _).
  - intros b Hb. vm_compute in Hb. injection Hb as <-. exact small_initial_inv.
  - split; [apply small_block_inv |]. split; [constructor | apply small_cache_sound].
  - pose proof sims_proper as Hps. rewrite !Forall_cons in Hps. rewrite !Forall_cons. split; [apply Hps |]. split; [apply Hps |]. split; [apply Hps | constructor].
  - exists h', r. split; [exact Hrun |]. split; [exact Hp |]. split; [exact Hh |].
    assert (included_ids (included (from_option fst small_helper small_backtest)) = [Id_Tx 90; Id_Tx 91; Id_Tx 93])
      as Hinc by (vm_compute; reflexivity).
    unfold small_backtest in Hinc. rewrite Hrun in Hinc. exact Hinc.
Defined.

(** A result of an absorbed group that arrives after that of its superset is kept
    beside it: both hold the same order. *)
Example stale_result_kept :
  dom (bs_data (process_updates BestResults_new
    [(2%nat, (result_of 25, group_of 2 {[0%nat; 1%nat]})); (0%nat, (result_of 10, group_of 0 ∅))]))
  = {[0%nat; 2%nat]}.
Proof. vm_compute. reflexivity. Qed.

(** * The mergers on concrete flows *)

(** A hash that tells different byte strings apart. *)
#[local] Instance telling_hashing : BundleHashing := {|
  keccak256 := foldl (fun acc b => acc * 257 + b + 1) 0;
  sha256 := fun l => l;
  from_sha1_bytes := fun l => Z.of_nat (length l);
  encode_var_u64 := fun a => be_bytes 8 a;
  encode_var_i64 := fun a => be_bytes 8 a;
|}.
#[local] Instance id_order : HashOrder OrderId := elements_order.
#[local] Instance id_order_ok : HashOrderOk OrderId.
Proof. intros s. reflexivity. Qed.
#[local] Instance hash_iteration : HashOrder B256 := elements_order.

(** A user transaction, and backruns of it that pay a kickback. *)
Definition user_bundle : ShareBundleInner :=
  mk_ShareBundleInner [Body_Tx {| sbt_tx := sample_tx 100 1 0 21000; revert_behavior := NotAllowed |}]
    [] [] false None.

Definition backrun_inner (hash signer : Z) (refunds : list Refund) : ShareBundleInner :=
  mk_ShareBundleInner
    [Body_Bundle user_bundle;
     Body_Tx {| sbt_tx := sample_tx hash signer 0 21000; revert_behavior := NotAllowed |}]
    refunds [] false None.

Definition backrun (hash signer kickback : Z) (refunds : list Refund) : SimulatedOrder :=
  {| so_order := Order_ShareBundle (ShareBundle_new 7 8 (backrun_inner hash signer refunds)
                   (Some 5) None [] (Metadata_new 0));
     so_sim_value := SimValue_new 10 10 (BlockSpace_new 42000 0 0) [(1, kickback)];
     so_used_state_trace := None |}.

Definition to_user : list Refund := [{| body_idx := 0; refund_percent := 90 |}].

Definition low : SimulatedOrder := backrun 201 2 30 to_user.
Definition high : SimulatedOrder := backrun 202 3 50 to_user.
Definition plain : SimulatedOrder := sample_sim (sample_mempool 300 4 0) 5 21000.

Definition sample_flow : list SimulatedOrderCommand :=
  [Simulation low; Simulation plain; Simulation high; Cancellation (so_id low)].

Example both_merged :
  (fun o => (Order_original_orders (so_order o)) ) <$> merged_orders [5] (live (take 3 sample_flow))
  = [[so_order high; so_order low]].
Proof. vm_compute. reflexivity. Qed.

(** The parts of a flow of known length. *)
Ltac split_flow :=
  repeat match goal with
  | H : _ :: _ = ?pre ++ _ |- _ => destruct pre; simpl in H; simplify_eq/=
  | H : [] = ?pre ++ _ |- _ => destruct pre; simpl in H; simplify_eq/=
  end.

Ltac split_simulated :=
  repeat match goal with
  | H : Simulation _ ∈ _ :: _ |- _ => apply elem_of_cons in H as [H | H]; simplify_eq
  | H : Simulation _ ∈ [] |- _ => by apply not_elem_of_nil in H
  end.

Ltac flow_checks flow :=
  split;
  [ intros pre o post H; unfold flow in H; simpl in H; split_flow; vm_compute; reflexivity
  | intros o1 o2 H1 H2; unfold flow in *; simpl in *; split_simulated;
    intros He; vm_compute in He; try discriminate He; vm_compute; reflexivity
  | intros pre post H; unfold flow in H; simpl in H;
    split_flow; apply (bool_decide_unpack _); vm_compute; exact I
  | intros pre post o H Ho; unfold flow in H, Ho; simpl in *; split_simulated;
    intros Hg; vm_compute in Hg; try discriminate Hg;
    split_flow; apply (bool_decide_unpack _); vm_compute; exact I ].

Lemma sample_flow_ok : flow_ok [5] sample_flow.
Proof. flow_checks sample_flow. Qed.

Definition inserts : list SimulatedOrderCommand := Simulation <$> [low; plain; high].
Lemma inserts_ok : flow_ok [5] inserts.
Proof. flow_checks inserts. Qed.

(** After the flow only the high backrun is left of the group. *)
Definition merged_high : SimulatedOrder := default high (merged_order [high]).

Lemma merge_and_send_refines_witness :
  live (merge_and_send (fun _ => true) [5] sample_flow) !! so_id merged_high = Some merged_high.
Proof.
  apply (merge_and_send_refines [5] sample_flow sample_flow_ok (so_id merged_high) merged_high).
  split; [reflexivity |]. right. exists (Some 5, 100). vm_compute. reflexivity.
Defined.

(** The two backruns become one order, the one with the higher kickback first. *)
Lemma backtest_merges_as_live_witness :
  backtest_merge_orders [5] [low; plain; high] ≡ₚ merged_list [5] [low; plain; high]
  /\ merged_list [5] [low; plain; high] = [default high (merged_order [high; low]); plain].
Proof.
  split; [| vm_compute; reflexivity].
  destruct (backtest_merges_as_live [5] [low; plain; high] inserts_ok) as [Hl _]. exact Hl.
Defined.

(** A replacement with the same transactions, and so the same id, whose refunds are
    not those of a backrun: it is forwarded, but its cancellation goes to the
    manager of the order it replaced and never reaches the sink. *)
Definition replaced : SimulatedOrder :=
  backrun 201 2 30 [{| body_idx := 0; refund_percent := 50 |}; {| body_idx := 0; refund_percent := 40 |}].

Example resubmitted_order_not_removed :
  let flow := [Simulation low; Cancellation (so_id low); Simulation replaced;
               Cancellation (so_id replaced)] in
  so_id replaced = so_id low /\ values (live flow) = [] /\
  values (live (merge_and_send (fun _ => true) [5] flow)) = [replaced].
Proof. split_and!; vm_compute; reflexivity. Qed.

(** Removing an order from a copy of a merger removes it from the sink of the
    original, and not from that of the copy. *)
Definition copied : Merging SimulatedOrderStore :=
  let '(mem, mm) := foldl sim_insert_order (merging_new [5] SimulatedOrderStore_new) [low; high] in
  Multi_clone_with_sink
    {| mem_managers := mem_managers mem; mem_sinks := mem_sinks mem ++ mem_sinks mem |} mm 1.

Definition originals_at (st : Merging SimulatedOrderStore) : list (list (list Order)) :=
  (fun s => (fun o => Order_original_orders (so_order o)) <$> values (sos_orders s)) <$> mem_sinks st.1.

Example copy_removes_from_original :
  originals_at copied = [[[so_order high; so_order low]]; [[so_order high; so_order low]]] /\
  originals_at (sim_remove_order copied (so_id low)).1
  = [[[so_order high]]; [[so_order high; so_order low]]].
Proof. split; vm_compute; reflexivity. Qed.
