(* ===== verification/SimulationJob.v ===== *)
(** * The simulation job (live_builder/simulation/simulation_job.rs, sim_worker.rs)

    For each block a job takes orders and cancellations from the pool, has the orders
    simulated by workers when their nonces are reached, and sends the simulated orders
    and the cancellations on to the builders.  It runs beside the workers, with channels
    between them. *)

From S2P Require Import Prelude Transactions Bundles Orders SimTypes OrderSinks BlockOrders World CommitMonad OrderCommit SimTree SimTreeInv SimTreeSpec SimulateSpec MergerGroups MergerRefine BuilderWitnesses.

(** ** State *)
Record OrderCounter := { oc_mempool_txs : U64; oc_bundles : U64; oc_share_bundles : U64 }.

Definition OrderCounter_default : OrderCounter := {| oc_mempool_txs := 0; oc_bundles := 0; oc_share_bundles := 0 |}.

Definition OrderCounter_accumulate (c : OrderCounter) (order : Order) : OrderCounter :=
  match order with
  | Order_Tx _ => {| oc_mempool_txs := u64_add (oc_mempool_txs c) 1; oc_bundles := oc_bundles c;
                     oc_share_bundles := oc_share_bundles c |}
  | Order_Bundle _ => {| oc_mempool_txs := oc_mempool_txs c; oc_bundles := u64_add (oc_bundles c) 1;
                         oc_share_bundles := oc_share_bundles c |}
  | Order_ShareBundle _ => {| oc_mempool_txs := oc_mempool_txs c; oc_bundles := oc_bundles c;
                              oc_share_bundles := u64_add (oc_share_bundles c) 1 |}
  end.

Definition OrderCounter_total (c : OrderCounter) : U64 :=
  u64_add (u64_add (oc_mempool_txs c) (oc_bundles c)) (oc_share_bundles c).

(** What is counted of the orders, received or simulated. *)
Record JobStats := {
  js_orders : OrderCounter;
  js_unique_replacement_keys : gset OrderReplacementKey;
  js_with_replacement_key : U64;
}.

Definition JobStats_new : JobStats :=
  {| js_orders := OrderCounter_default; js_unique_replacement_keys := ∅; js_with_replacement_key := 0 |}.

Definition count_order (s : JobStats) (order : Order) : JobStats :=
  let orders := OrderCounter_accumulate (js_orders s) order in
  match replacement_key order with
  | Some repl_key => {| js_orders := orders; js_unique_replacement_keys := {[repl_key]} ∪ js_unique_replacement_keys s;
                        js_with_replacement_key := u64_add (js_with_replacement_key s) 1 |}
  | None => {| js_orders := orders; js_unique_replacement_keys := js_unique_replacement_keys s;
               js_with_replacement_key := js_with_replacement_key s |}
  end.

(** The calls to the tracer. *)
Inductive SimulationTrace :=
| Traced_Simulation (sim_result : SimulatedResult)
| Traced_Cancellation (id : OrderId).

(** The job with the channels it sends to: the requests that wait for a worker, and
    whether the workers are gone; the commands sent on, and how many more the receiver
    takes before it is dropped ([None]: it stays). *)
Record SimulationJob := {
  j_sim_tree : SimTree;
  j_received : JobStats;
  j_simulated_ok : JobStats;
  j_in_flight_orders : gset OrderId;
  j_not_cancelled_sent : gset OrderId;
  j_requests : list SimulationRequest;
  j_requests_closed : bool;
  j_out : list SimulatedOrderCommand;
  j_out_left : option nat;
  j_traced : list SimulationTrace;
}.

Definition SimulationJob_new (sim_tree : SimTree) (out_left : option nat) : SimulationJob :=
  {| j_sim_tree := sim_tree; j_received := JobStats_new; j_simulated_ok := JobStats_new; j_in_flight_orders := ∅;
     j_not_cancelled_sent := ∅; j_requests := []; j_requests_closed := false; j_out := []; j_out_left := out_left;
     j_traced := [] |}.

Definition set_tree (j : SimulationJob) (t : SimTree) : SimulationJob :=
  {| j_sim_tree := t; j_received := j_received j; j_simulated_ok := j_simulated_ok j;
     j_in_flight_orders := j_in_flight_orders j; j_not_cancelled_sent := j_not_cancelled_sent j;
     j_requests := j_requests j; j_requests_closed := j_requests_closed j; j_out := j_out j;
     j_out_left := j_out_left j; j_traced := j_traced j |}.

Definition set_stats (j : SimulationJob) (received simulated_ok : JobStats) : SimulationJob :=
  {| j_sim_tree := j_sim_tree j; j_received := received; j_simulated_ok := simulated_ok;
     j_in_flight_orders := j_in_flight_orders j; j_not_cancelled_sent := j_not_cancelled_sent j;
     j_requests := j_requests j; j_requests_closed := j_requests_closed j; j_out := j_out j;
     j_out_left := j_out_left j; j_traced := j_traced j |}.

Definition set_order_sets (j : SimulationJob) (in_flight not_cancelled_sent : gset OrderId) : SimulationJob :=
  {| j_sim_tree := j_sim_tree j; j_received := j_received j; j_simulated_ok := j_simulated_ok j;
     j_in_flight_orders := in_flight; j_not_cancelled_sent := not_cancelled_sent;
     j_requests := j_requests j; j_requests_closed := j_requests_closed j; j_out := j_out j;
     j_out_left := j_out_left j; j_traced := j_traced j |}.

Definition set_requests (j : SimulationJob) (requests : list SimulationRequest) (closed : bool) : SimulationJob :=
  {| j_sim_tree := j_sim_tree j; j_received := j_received j; j_simulated_ok := j_simulated_ok j;
     j_in_flight_orders := j_in_flight_orders j; j_not_cancelled_sent := j_not_cancelled_sent j;
     j_requests := requests; j_requests_closed := closed; j_out := j_out j;
     j_out_left := j_out_left j; j_traced := j_traced j |}.

(** A send to the builders and, when it succeeds, the call to the tracer. *)
Definition send_out (j : SimulationJob) (c : SimulatedOrderCommand) (trace : SimulationTrace) : SimulationJob * bool :=
  let sent left :=
    {| j_sim_tree := j_sim_tree j; j_received := j_received j; j_simulated_ok := j_simulated_ok j;
       j_in_flight_orders := j_in_flight_orders j; j_not_cancelled_sent := j_not_cancelled_sent j;
       j_requests := j_requests j; j_requests_closed := j_requests_closed j; j_out := j_out j ++ [c];
       j_out_left := left; j_traced := j_traced j ++ [trace] |} in
  match j_out_left j with
  | Some 0%nat => (j, false)
  | Some (S n) => (sent (Some n), true)
  | None => (sent None, true)
  end.

(** ** Operations *)
Section job.
Context `{NonceProvider} `{RandomIds}.

Definition order_still_valid (j : SimulationJob) (order_id : OrderId) : bool :=
  bool_decide (order_id ∈ j_in_flight_orders j).

(** [try_send]: the channel of requests is unbounded, so that it is never full. *)
Definition send_request (j : SimulationJob) (sim_request : SimulationRequest) : SimulationJob :=
  if j_requests_closed j
  then set_order_sets j (j_in_flight_orders j ∖ {[Order_id (rq_order sim_request)]}) (j_not_cancelled_sent j)
  else set_requests j (j_requests j ++ [sim_request]) (j_requests_closed j).

Fixpoint send_new_tasks_loop (fuel : nat) (j : SimulationJob) : SimulationJob :=
  match fuel with
  | O => j
  | S fuel =>
      let '(t, new_sim_request) := pop_simulation_tasks (j_sim_tree j) 1024 in
      let j := set_tree j t in
      match new_sim_request with
      | [] => j
      | _ =>
          let new_sim_request := filter (fun s => order_still_valid j (Order_id (rq_order s)) = true) new_sim_request in
          send_new_tasks_loop fuel (foldl send_request j new_sim_request)
      end
  end.

(** Each round takes at least one request out of the tree. *)
Definition send_new_tasks_for_simulation (j : SimulationJob) : SimulationJob :=
  send_new_tasks_loop (S (length (st_ready_orders (j_sim_tree j)))) j.

(** The loop over the results, with those of orders that were not cancelled. *)
Fixpoint process_results_loop (j : SimulationJob) (results valid : list SimulatedResult)
  : SimulationJob * list SimulatedResult * bool :=
  match results with
  | [] => (j, valid, true)
  | sim_result :: results =>
      let order := sm_simulated_order sim_result in
      let j := set_stats j (j_received j) (count_order (j_simulated_ok j) (so_order order)) in
      if decide (so_id order ∈ j_in_flight_orders j) then
        let j := set_order_sets j (j_in_flight_orders j ∖ {[so_id order]}) (j_not_cancelled_sent j) in
        let valid := valid ++ [sim_result] in
        if decide (so_id order ∈ j_not_cancelled_sent j) then process_results_loop j results valid
        else
          let j := set_order_sets j (j_in_flight_orders j) ({[so_id order]} ∪ j_not_cancelled_sent j) in
          let '(j, ok) := send_out j (Simulation order) (Traced_Simulation sim_result) in
          if ok then process_results_loop j results valid else (j, valid, false)
      else process_results_loop j results valid
  end.

Definition process_new_simulations (j : SimulationJob) (new_sim_results : list SimulatedResult) : option (SimulationJob * bool) :=
  let '(j, valid_simulated_orders, ok) := process_results_loop j new_sim_results [] in
  if ok then
    let! (t, r) := submit_simulation_tasks_results (j_sim_tree j) valid_simulated_orders in
    Some (set_tree j t, match r with Ok _ => true | Err _ => false end)
  else Some (j, false).

Definition send_cancel (j : SimulationJob) (id : OrderId) : SimulationJob * bool :=
  if decide (id ∈ j_not_cancelled_sent j) then
    send_out (set_order_sets j (j_in_flight_orders j) (j_not_cancelled_sent j ∖ {[id]})) (Cancellation id) (Traced_Cancellation id)
  else (j, true).

Definition process_order_cancellation (j : SimulationJob) (cancellation_id : OrderId) : SimulationJob * bool :=
  if decide (cancellation_id ∈ j_in_flight_orders j)
  then (set_order_sets j (j_in_flight_orders j ∖ {[cancellation_id]}) (j_not_cancelled_sent j), true)
  else send_cancel j cancellation_id.

Definition process_new_order (j : SimulationJob) (order : Order) : option (SimulationJob * bool) :=
  let j := set_stats j (count_order (j_received j) order) (j_simulated_ok j) in
  let! (t, r) := push_orders (j_sim_tree j) [order] in
  let j := set_tree j t in
  match r with
  | Err _ => Some (j, false)
  | Ok _ => Some (set_order_sets j ({[Order_id order]} ∪ j_in_flight_orders j) (j_not_cancelled_sent j), true)
  end.

Fixpoint process_new_commands (j : SimulationJob) (new_commands : list OrderPoolCommand) : option (SimulationJob * bool) :=
  match new_commands with
  | [] => Some (j, true)
  | Cmd_Insert order :: new_commands =>
      let! (j, _) := process_new_order j order in process_new_commands j new_commands
  | Cmd_Remove order_id :: new_commands =>
      let '(j, ok) := process_order_cancellation j order_id in
      if ok then process_new_commands j new_commands else Some (j, false)
  end.

(** ** The loop

    What [select!] yields; an empty batch means that the channel is closed. *)
Inductive JobEvent :=
| Job_Commands (new_commands : list OrderPoolCommand)
| Job_Results (new_sim_results : list SimulatedResult)
| Job_Cancelled.

(** The loop of [run_no_trace] up to its [select!], where it waits. *)
Definition run_until_select (r : SimulationJob * bool) : SimulationJob * bool :=
  let '(j, ok) := r in if ok then (send_new_tasks_for_simulation j, true) else (j, false).

Definition run_start (j : SimulationJob) : SimulationJob := (run_until_select (j, true)).1.

(** One round, from one [select!] to the next; [false] is that it returned. *)
Definition job_round (j : SimulationJob) (e : JobEvent) : option (SimulationJob * bool) :=
  run_until_select <$>
    match e with
    | Job_Commands [] => Some (j, false)
    | Job_Commands new_commands => process_new_commands j new_commands
    | Job_Results [] => Some (j, true)
    | Job_Results new_sim_results => process_new_simulations j new_sim_results
    | Job_Cancelled => Some (j, false)
    end.

End job.

(** ** The workers (sim_worker.rs) *)
Inductive WorkerOutcome :=
| Worker_Result (result : SimulatedResult)
| Worker_Failed
| Worker_Leaves
| Worker_Panics.

Section worker.
Context {W Diff C : Type} `{ChainState W Diff} `{!TxCache W Diff C} `{PayoutSigner}.
Context `{!HashOrder Address} `{!HashOrder nat}.

(** One task, on the state [w] of the parent block and the worker's cache. *)
Definition sim_worker_task (ctx : BlockBuildingContext) (task : SimulationRequest) (elapsed : Z) (w : W) (c : C)
  : C * WorkerOutcome :=
  match simulate_order ctx (rq_parents task) (rq_order task) w c with
  | (_, c, Panic) => (c, Worker_Panics)
  | (_, c, Critical _) => (c, Worker_Leaves)
  | (_, c, Done sim_result) =>
      match sg_result sim_result with
      | Sim_Success simulated_order nonces_after =>
          (c, Worker_Result
             {| sm_id := rq_id task; sm_simulated_order := simulated_order; sm_previous_orders := rq_parents task;
                sm_nonces_after := (fun p => {| nk_address := p.1; nk_nonce := p.2 |}) <$> nonces_after;
                sm_simulation_time := elapsed |})
      | Sim_Failed _ => (c, Worker_Failed)
      end
  end.
End worker.

(** ** The job beside its workers

    A state of the whole: the job and whether it runs, the channels it reads, the
    requests that workers hold, and all commands that the job has read. *)
Record SimSystem := {
  sy_job : SimulationJob;
  sy_running : bool;
  sy_commands : list OrderPoolCommand;
  sy_results : list SimulatedResult;
  sy_busy : list SimulationRequest;
  sy_read : list OrderPoolCommand;
}.

Definition SimSystem_new (j : SimulationJob) : SimSystem :=
  {| sy_job := j; sy_running := true; sy_commands := []; sy_results := []; sy_busy := []; sy_read := [] |}.

(** The channel of results drops what does not fit. *)
Definition RESULTS_CAPACITY : nat := 1024.

Definition try_send_result (results : list SimulatedResult) (o : WorkerOutcome) : list SimulatedResult :=
  match o with
  | Worker_Result r => if (length results <? RESULTS_CAPACITY)%nat then results ++ [r] else results
  | _ => results
  end.

Section system.
Context `{NonceProvider} `{RandomIds}.
Context (worked : SimulationRequest -> WorkerOutcome -> Prop).

(** The steps of the pool, the workers and the job, in any order; the nonces of an order
    are a vector, so that there are fewer than 2^64. *)
Inductive sys_step : SimSystem -> SimSystem -> Prop :=
| sys_command s c : (forall o, c = Cmd_Insert o -> order_fits o) ->
    sys_step s {| sy_job := sy_job s; sy_running := sy_running s; sy_commands := sy_commands s ++ [c];
                  sy_results := sy_results s; sy_busy := sy_busy s; sy_read := sy_read s |}
| sys_take s q rest : j_requests (sy_job s) = q :: rest ->
    sys_step s {| sy_job := set_requests (sy_job s) rest (j_requests_closed (sy_job s)); sy_running := sy_running s;
                  sy_commands := sy_commands s; sy_results := sy_results s; sy_busy := q :: sy_busy s;
                  sy_read := sy_read s |}
| sys_done s q o l1 l2 : sy_busy s = l1 ++ q :: l2 -> worked q o ->
    sys_step s {| sy_job := sy_job s; sy_running := sy_running s; sy_commands := sy_commands s;
                  sy_results := try_send_result (sy_results s) o; sy_busy := l1 ++ l2; sy_read := sy_read s |}
| sys_workers_gone s :
    sys_step s {| sy_job := set_requests (sy_job s) (j_requests (sy_job s)) true; sy_running := sy_running s;
                  sy_commands := sy_commands s; sy_results := sy_results s; sy_busy := sy_busy s; sy_read := sy_read s |}
| sys_commands s batch rest j running : sy_running s = true -> sy_commands s = batch ++ rest -> (length batch <= 1024)%nat ->
    job_round (sy_job s) (Job_Commands batch) = Some (j, running) ->
    sys_step s {| sy_job := j; sy_running := running; sy_commands := rest; sy_results := sy_results s;
                  sy_busy := sy_busy s; sy_read := sy_read s ++ batch |}
| sys_results s batch rest j running : sy_running s = true -> sy_results s = batch ++ rest -> (length batch <= 1024)%nat ->
    job_round (sy_job s) (Job_Results batch) = Some (j, running) ->
    sys_step s {| sy_job := j; sy_running := running; sy_commands := sy_commands s; sy_results := rest;
                  sy_busy := sy_busy s; sy_read := sy_read s |}
| sys_cancelled s j running : sy_running s = true -> job_round (sy_job s) Job_Cancelled = Some (j, running) ->
    sys_step s {| sy_job := j; sy_running := running; sy_commands := sy_commands s; sy_results := sy_results s;
                  sy_busy := sy_busy s; sy_read := sy_read s |}.

Definition sys_reach (j : SimulationJob) (s : SimSystem) : Prop := rtc sys_step (SimSystem_new (run_start j)) s.
End system.

(** ** What the builders are sent *)

(** An order is sent once until it is cancelled, and only what was sent is cancelled. *)
Definition well_fed (out : list SimulatedOrderCommand) : Prop :=
  forall pre c post, out = pre ++ c :: post ->
    match c with Simulation o => live pre !! so_id o = None | Cancellation id => is_Some (live pre !! id) end.

Definition traced_command (t : SimulationTrace) : SimulatedOrderCommand :=
  match t with Traced_Simulation r => Simulation (sm_simulated_order r) | Traced_Cancellation id => Cancellation id end.

(** The orders the pool wants: inserted and not removed since. *)
Definition wanted_step (w : gset OrderId) (c : OrderPoolCommand) : gset OrderId :=
  match c with Cmd_Insert o => {[Order_id o]} ∪ w | Cmd_Remove id => w ∖ {[id]} end.
Definition wanted (cmds : list OrderPoolCommand) : gset OrderId := foldl wanted_step ∅ cmds.

(** An order is inserted again only after it was removed. *)
Fixpoint alternates (w : gset OrderId) (cmds : list OrderPoolCommand) : Prop :=
  match cmds with
  | [] => True
  | c :: cmds => match c with Cmd_Insert o => Order_id o ∉ w | Cmd_Remove _ => True end /\ alternates (wanted_step w c) cmds
  end.
Definition alternating : list OrderPoolCommand -> Prop := alternates ∅.

Lemma alternates_app w l1 l2 : alternates w (l1 ++ l2) <-> alternates w l1 /\ alternates (foldl wanted_step w l1) l2.
Proof. revert w. induction l1 as [|c l1 IH]; intros w; simpl; [tauto|]. rewrite IH. tauto. Qed.

Lemma live_snoc out c : live (out ++ [c]) = live_step (live out) c.
Proof. apply foldl_snoc. Qed.

Lemma well_fed_snoc out c : well_fed out ->
  match c with Simulation o => live out !! so_id o = None | Cancellation id => is_Some (live out !! id) end ->
  well_fed (out ++ [c]).
Proof.
  intros Hw Hc pre c' post Heq. destruct post as [|c1 post _] using rev_ind.
  - apply app_inj_tail in Heq as [<- <-]. done.
  - rewrite app_comm_cons, app_assoc in Heq. apply app_inj_tail in Heq as [-> _]. by eapply Hw.
Qed.

(** The sent orders are those that are live at the builders. *)
Record consistent (j : SimulationJob) : Prop := {
  co_live : dom (live (j_out j)) = j_not_cancelled_sent j;
  co_fed : well_fed (j_out j);
  co_traced : map traced_command (j_traced j) = j_out j;
}.

Definition fed (j : SimulationJob) : Prop := well_fed (j_out j) /\ map traced_command (j_traced j) = j_out j.

Lemma consistent_fed j : consistent j -> fed j.
Proof. by intros []. Qed.

(** No order is both in flight and sent, and all are wanted. *)
Definition follows_pool (w : gset OrderId) (j : SimulationJob) : Prop :=
  j_in_flight_orders j ∪ j_not_cancelled_sent j ⊆ w /\ j_in_flight_orders j ## j_not_cancelled_sent j.

Lemma send_out_spec j c tr j' ok : send_out j c tr = (j', ok) ->
  (ok = true /\ j_out j' = j_out j ++ [c] /\ j_traced j' = j_traced j ++ [tr]
   /\ j_in_flight_orders j' = j_in_flight_orders j /\ j_not_cancelled_sent j' = j_not_cancelled_sent j
   /\ j_sim_tree j' = j_sim_tree j /\ j_requests j' = j_requests j)
  \/ (ok = false /\ j' = j).
Proof. unfold send_out. destruct (j_out_left j) as [[|n]|]; intros [= <- <-]; [by right|by left..]. Qed.

Lemma send_cancel_spec j id j' ok : send_cancel j id = (j', ok) -> consistent j ->
  (ok = true -> consistent j') /\ fed j' /\ j_sim_tree j' = j_sim_tree j /\ j_requests j' = j_requests j
  /\ j_in_flight_orders j' = j_in_flight_orders j /\ j_not_cancelled_sent j' = j_not_cancelled_sent j ∖ {[id]}
  /\ (forall o, Simulation o ∈ j_out j' -> Simulation o ∈ j_out j).
Proof.
  unfold send_cancel. intros Hs [Hl Hf Ht]. case_decide as Hin.
  - destruct (send_out_spec _ _ _ _ _ Hs) as [(-> & Ho & Htr & Hi & Hn & Htree & Hr)|[-> ->]]; simpl in *.
    + assert (Hw : well_fed (j_out j')).
      { rewrite Ho. apply well_fed_snoc; [done|]. by rewrite <- elem_of_dom, Hl. }
      assert (Htm : map traced_command (j_traced j') = j_out j') by (by rewrite Htr, map_app, Ht, Ho).
      split_and!; try done; [intros _; split; [|done..]|].
      * by rewrite Ho, live_snoc; simpl; rewrite dom_delete_L, Hl, Hn.
      * intros o. rewrite Ho. set_solver.
    + by split_and!.
  - injection Hs as <- <-. split_and!; try done. set_solver.
Qed.

Lemma process_order_cancellation_spec j id j' ok : process_order_cancellation j id = (j', ok) -> consistent j ->
  (ok = true -> consistent j') /\ fed j' /\ j_sim_tree j' = j_sim_tree j /\ j_requests j' = j_requests j
  /\ (forall w, follows_pool w j -> follows_pool (w ∖ {[id]}) j')
  /\ (forall o, Simulation o ∈ j_out j' -> Simulation o ∈ j_out j).
Proof.
  unfold process_order_cancellation. intros Hs Hc. case_decide as Hin.
  - injection Hs as <- <-. split_and!; try done; [by destruct Hc|by destruct Hc|].
    intros w [Hsub Hdis]. split; simpl; set_solver.
  - destruct (send_cancel_spec j id j' ok Hs Hc) as (Hok & Hfed & Ht & Hr & Hi & Hn & Ho). split_and!; try done.
    intros w [Hsub Hdis]. split; rewrite Hi, Hn; set_solver.
Qed.

(** *** Results *)
Lemma process_results_loop_spec results j valid j' valid' ok :
  process_results_loop j results valid = (j', valid', ok) -> consistent j ->
  (ok = true -> consistent j') /\ fed j' /\ j_sim_tree j' = j_sim_tree j /\ j_requests j' = j_requests j
  /\ (forall w, follows_pool w j -> follows_pool w j')
  /\ (forall o, Simulation o ∈ j_out j' -> Simulation o ∈ j_out j \/ o ∈ map sm_simulated_order results).
Proof.
  revert j valid. induction results as [|r results IH]; intros j valid; simpl.
  { intros [= <- <- <-] Hc. split_and!; try done; [by apply consistent_fed|auto]. }
  case_decide as Hin; [case_decide as Hsent|].
  - intros Hp Hc. destruct (IH _ _ Hp) as (? & ? & ? & ? & Htr & Ho); [by destruct Hc|].
    split_and!; try done; [|intros o Hout; destruct (Ho o Hout); set_solver].
    intros w [Hsub Hdis]. apply Htr. split; simpl; set_solver.
  - destruct (send_out _ _ _) as [j1 ok1] eqn:Hs. intros Hp Hc. destruct Hc as [Hl Hf Ht].
    destruct (send_out_spec _ _ _ _ _ Hs) as [(-> & Hout & Htrd & Hi & Hn & Htree & Hr)|[-> ->]]; simpl in *.
    + destruct (IH _ _ Hp) as (? & ? & ? & ? & Htr & Ho).
      { split.
        - rewrite Hout, live_snoc; simpl. by rewrite dom_insert_L, Hl, Hn.
        - rewrite Hout. apply well_fed_snoc; [done|]. by apply not_elem_of_dom; rewrite Hl.
        - by rewrite Htrd, map_app, Ht, Hout. }
      split_and!; try done; [congruence|congruence| |].
      * intros w [Hsub Hdis]. apply Htr. split; rewrite Hi, Hn; set_solver.
      * intros o Ho'. destruct (Ho o Ho') as [Ho1|Ho1]; [|set_solver]. rewrite Hout in Ho1. set_solver.
    + injection Hp as <- <- <-. split_and!; try done; [|auto].
      intros w [Hsub Hdis]. split; simpl; set_solver.
  - intros Hp Hc. destruct (IH _ _ Hp) as (? & ? & ? & ? & Htr & Ho); [by destruct Hc|].
    split_and!; try done. intros o Hout; destruct (Ho o Hout); set_solver.
Qed.

(** *** The tree

    The orders that a tree holds, waiting for nonces or ready. *)
Definition tree_orders (t : SimTree) : list Order := pend_orders (st_pending_orders t) ++ (rq_order <$> st_ready_orders t).

Section tree.
Context `{NonceProvider} `{RandomIds}.

Lemma submit_results_spec t results : counts [] t -> exists t',
  submit_simulation_tasks_results t results = Some (t', Ok tt) /\ counts [] t' /\ tree_orders t' ≡ₚ tree_orders t.
Proof.
  revert t. induction results as [|r results IH]; intros t Hc; simpl; [by exists t|].
  destruct (process_result_spec t r Hc) as (t1 & reqs & -> & Hc1 & _ & _ & Hp & Hr & _). simpl.
  destruct (IH t1 Hc1) as (t2 & -> & Hc2 & Ho). exists t2. split_and!; [done|done|].
  rewrite Ho. unfold tree_orders. rewrite Hp, Hr, fmap_app. solve_Permutation.
Qed.

Lemma push_orders_spec t o : counts [] t -> order_fits o -> exists t' r,
  push_orders t [o] = Some (t', r) /\ counts [] t' /\ (forall o', o' ∈ tree_orders t' -> o' ∈ tree_orders t \/ o' = o).
Proof.
  intros Hc Hf. assert (exists t' r, push_order t o = Some (t', r)) as (t' & r & Hp).
  { unfold push_order. case_decide; [by eexists _, _|].
    destruct (get_order_nonce_state_spec t o (ct_known _ _ Hc)) as (c & st & -> & _). simpl.
    destruct st as [[]|]; by eexists _, _. }
  destruct (push_order_spec t o t' r Hc Hf Hp) as (Hc' & _ & _ & _ & reqs & Hr & _ & Hperm).
  exists t', r. split_and!; [by simpl; rewrite Hp; simpl; destruct r as [[]|[]]|done|].
  intros o'. unfold tree_orders. rewrite Hr, fmap_app.
  assert (pend_orders (st_pending_orders t') ++ (rq_order <$> st_ready_orders t) ++ (rq_order <$> reqs)
    ≡ₚ (pend_orders (st_pending_orders t') ++ (rq_order <$> reqs)) ++ (rq_order <$> st_ready_orders t)) as ->
    by solve_Permutation.
  rewrite Hperm. destruct (accepts t o); set_solver.
Qed.
End tree.

(** *** Requests *)

(** What sending tasks leaves alone. *)
Definition same_output (j j' : SimulationJob) : Prop :=
  j_out j' = j_out j /\ j_traced j' = j_traced j /\ j_not_cancelled_sent j' = j_not_cancelled_sent j
  /\ j_in_flight_orders j' ⊆ j_in_flight_orders j /\ j_requests_closed j' = j_requests_closed j.

#[local] Instance same_output_preorder : PreOrder same_output.
Proof. split; [intros j; by split_and!|]. intros j1 j2 j3 (?&?&?&?&?) (?&?&?&?&?). split_and!; (congruence || set_solver). Qed.

Lemma send_requests_spec qs j : let j' := foldl send_request j qs in
  same_output j j' /\ j_sim_tree j' = j_sim_tree j
  /\ (j_requests_closed j = true -> j_requests j' = j_requests j)
  /\ (j_requests_closed j = false ->
      j_requests j' = j_requests j ++ qs /\ j_in_flight_orders j' = j_in_flight_orders j).
Proof.
  revert j. induction qs as [|q qs IH]; intros j; simpl.
  { rewrite app_nil_r. by split_and!. }
  destruct (IH (send_request j q)) as (Hs & Ht & Hcl & Hop). unfold send_request in *.
  destruct (j_requests_closed j) eqn:Hc; simpl in *.
  - split_and!; [|done|by rewrite Hcl|done]. etrans; [|done]. split_and!; simpl; [done..|set_solver|done].
  - split_and!; [etrans; [|done]; by split_and!|done|done|]. intros _. destruct (Hop eq_refl) as [-> ->].
    by rewrite <- app_assoc.
Qed.

(** The batches together are all ready requests of orders that were not cancelled. *)
Lemma send_new_tasks_loop_spec fuel j : (length (st_ready_orders (j_sim_tree j)) < fuel)%nat ->
  let j' := send_new_tasks_loop fuel j in
  same_output j j' /\ j_sim_tree j' = with_ready (j_sim_tree j) [] (st_drawn (j_sim_tree j))
  /\ (j_requests_closed j = true -> j_requests j' = j_requests j)
  /\ (j_requests_closed j = false ->
      j_requests j' = j_requests j
        ++ filter (fun s => order_still_valid j (Order_id (rq_order s)) = true) (st_ready_orders (j_sim_tree j))
      /\ j_in_flight_orders j' = j_in_flight_orders j).
Proof.
  revert j. induction fuel as [|fuel IH]; intros j Hlen; [lia|]. cbn [send_new_tasks_loop].
  destruct (pop_simulation_tasks (j_sim_tree j) 1024) as [t popped] eqn:Hpop.
  pose proof (pop_spec (j_sim_tree j) 1024) as Hready. rewrite Hpop in Hready. simpl in Hready.
  assert (Ht : t = with_ready (j_sim_tree j) (st_ready_orders t) (st_drawn (j_sim_tree j))) by (by injection Hpop as <- _).
  destruct popped as [|q qs].
  - assert (st_ready_orders (j_sim_tree j) = []) as Hnil.
    { injection Hpop as _ Hnil. destruct (st_ready_orders (j_sim_tree j)); [done|]. by simpl in Hnil. }
    rewrite Hnil in Hready |- *. rewrite Ht. simpl in Hready. rewrite <- Hready. simpl. rewrite app_nil_r.
    split_and!; try done.
  - set (qs' := filter _ (q :: qs)). set (j1 := set_tree j t).
    destruct (send_requests_spec qs' j1) as (Hs & Htr & Hcl & Hop). set (j2 := foldl send_request j1 qs') in *.
    destruct (IH j2) as (Hs2 & Htr2 & Hcl2 & Hop2).
    { rewrite Htr; simpl. rewrite Hready in Hlen. simpl in Hlen. rewrite length_app in Hlen. lia. }
    assert (Hc2 : j_requests_closed j2 = j_requests_closed j) by apply Hs.
    split_and!.
    + etrans; [|done]. by etrans; [|exact Hs].
    + rewrite Htr2, Htr; simpl. by rewrite Ht.
    + intros Hc. rewrite Hcl2 by congruence. by apply Hcl.
    + intros Hc. destruct (Hop Hc) as [Hq Hi]. destruct (Hop2 ltac:(congruence)) as [Hq2 Hi2].
      rewrite Hq2, Hi2, Hq, Hi, Htr; simpl. split; [|done].
      rewrite Hready, filter_app, <- app_assoc. f_equal. unfold qs', order_still_valid; simpl. f_equal.
      by rewrite Hi.
Qed.

Lemma send_new_tasks_spec j : let j' := send_new_tasks_for_simulation j in
  same_output j j' /\ j_sim_tree j' = with_ready (j_sim_tree j) [] (st_drawn (j_sim_tree j))
  /\ (j_requests_closed j = true -> j_requests j' = j_requests j)
  /\ (j_requests_closed j = false ->
      j_requests j' = j_requests j
        ++ filter (fun s => order_still_valid j (Order_id (rq_order s)) = true) (st_ready_orders (j_sim_tree j))
      /\ j_in_flight_orders j' = j_in_flight_orders j).
Proof. apply send_new_tasks_loop_spec. lia. Qed.

(** *** Rounds of the job *)

(** The orders in the tree, in requests and sent on are among [P]. *)
Record orders_known (P : Order -> Prop) (j : SimulationJob) : Prop := {
  gd_tree : counts [] (j_sim_tree j);
  gd_tree_orders : forall o, o ∈ tree_orders (j_sim_tree j) -> P o;
  gd_requests : forall q, q ∈ j_requests j -> P (rq_order q);
  gd_out : forall o, Simulation o ∈ j_out j -> P (so_order o);
}.

Lemma known_mono (P Q : Order -> Prop) j : (forall o, P o -> Q o) -> orders_known P j -> orders_known Q j.
Proof. intros HPQ [Ht Hto Hr Ho]. split; auto. Qed.

Lemma known_kept P j j' : orders_known P j -> j_sim_tree j' = j_sim_tree j -> j_requests j' = j_requests j ->
  (forall o, Simulation o ∈ j_out j' -> Simulation o ∈ j_out j \/ P (so_order o)) -> orders_known P j'.
Proof.
  intros [Ht Hto Hr Ho] Htree Hreq Hout. split; rewrite ?Htree, ?Hreq; auto. intros o [Hin|HP]%Hout; auto.
Qed.

Lemma follows_pool_shrink w j j' : same_output j j' -> follows_pool w j -> follows_pool w j'.
Proof. intros (_ & _ & Hn & Hi & _) [Hsub Hdis]. split; rewrite Hn; set_solver. Qed.

Lemma consistent_same j j' : j_out j' = j_out j -> j_traced j' = j_traced j ->
  j_not_cancelled_sent j' = j_not_cancelled_sent j -> consistent j -> consistent j'.
Proof. intros Ho Ht Hn [Hl Hf Htr]. by split; rewrite ?Ho, ?Ht, ?Hn. Qed.

Lemma send_new_tasks_known P j : orders_known P j -> consistent j ->
  let j' := send_new_tasks_for_simulation j in
  orders_known P j' /\ consistent j' /\ forall w, follows_pool w j -> follows_pool w j'.
Proof.
  intros [Ht Hto Hr Hout] Hc j'. destruct (send_new_tasks_spec j) as (Hs & Htree & Hcl & Hop). fold j' in Hs, Htree, Hcl, Hop.
  pose proof Hs as (Ho & Htr & Hn & _ & _).
  split_and!; [|by eapply consistent_same|intros w; by apply follows_pool_shrink]. split.
  - rewrite Htree. by apply counts_ready.
  - rewrite Htree. intros o. unfold tree_orders; simpl. rewrite app_nil_r. intros Hin. apply Hto. unfold tree_orders. set_solver.
  - intros q Hq. destruct (j_requests_closed j); [rewrite Hcl in Hq by done; auto|].
    destruct (Hop eq_refl) as [Hq' _]. rewrite Hq' in Hq. apply elem_of_app in Hq as [Hq|Hq]; [auto|].
    apply list_elem_of_filter in Hq as [_ Hq]. apply Hto. unfold tree_orders. set_solver.
  - intros o. rewrite Ho. auto.
Qed.

(** Going on to the next [select!] keeps what holds of the job. *)
Lemma run_until_select_spec P r : orders_known P r.1 -> fed r.1 -> (r.2 = true -> consistent r.1) ->
  let r' := run_until_select r in
  r'.2 = r.2 /\ orders_known P r'.1 /\ fed r'.1
  /\ (r.2 = true -> consistent r'.1 /\ forall w, follows_pool w r.1 -> follows_pool w r'.1).
Proof.
  destruct r as [j []]; simpl; intros Hg Hf Hc; [|done].
  destruct (send_new_tasks_known P j Hg (Hc eq_refl)) as (Hg1 & Hc1 & Ht1). split_and!; [done|done|by apply consistent_fed|done].
Qed.

Section rounds.
Context `{NonceProvider} `{RandomIds}.

Lemma process_new_order_spec (P : Order -> Prop) j o : orders_known P j -> consistent j -> order_fits o -> P o ->
  exists j' ok, process_new_order j o = Some (j', ok) /\ orders_known P j' /\ consistent j'
  /\ forall w, Order_id o ∉ w -> follows_pool w j -> follows_pool ({[Order_id o]} ∪ w) j'.
Proof.
  intros [Ht Hto Hr Hout] Hc Hf HP. unfold process_new_order. simpl j_sim_tree.
  destruct (push_orders_spec (j_sim_tree j) o Ht Hf) as (t' & r & -> & Ht' & Hto'). simpl.
  assert (Hg : forall j', j_sim_tree j' = t' -> j_requests j' = j_requests j -> j_out j' = j_out j -> orders_known P j').
  { intros j' Htree Hreq Houtj. split; rewrite ?Htree, ?Hreq, ?Houtj; auto. intros o' [Hin| ->]%Hto'; auto. }
  destruct r as [[]|e]; (eexists _, _; split; [done|]; split; [by apply Hg|]; split; [by destruct Hc|]);
    intros w Hw [Hsub Hdis]; split; simpl; set_solver.
Qed.

Lemma process_new_commands_spec (P : Order -> Prop) cmds j : orders_known P j -> consistent j ->
  (forall o, Cmd_Insert o ∈ cmds -> order_fits o /\ P o) ->
  exists j' ok, process_new_commands j cmds = Some (j', ok) /\ orders_known P j' /\ fed j'
  /\ (ok = true -> consistent j' /\ forall w, alternates w cmds -> follows_pool w j -> follows_pool (foldl wanted_step w cmds) j').
Proof.
  revert j. induction cmds as [|[o|id] cmds IH]; intros j Hg Hc Hcmds; simpl.
  - eexists _, _. split; [done|]. split; [done|]. split; [by apply consistent_fed|]. done.
  - destruct (Hcmds o) as [Hf HP]; [by left|].
    destruct (process_new_order_spec P j o Hg Hc Hf HP) as (j1 & ok1 & -> & Hg1 & Hc1 & Ht1). simpl.
    destruct (IH j1 Hg1 Hc1) as (j2 & ok2 & -> & Hg2 & Hf2 & Hok); [intros o' Ho'; apply Hcmds; by right|].
    eexists _, _. split; [done|]. split; [done|]. split; [done|]. intros Hok2. destruct (Hok Hok2) as [Hc2 Ht2].
    split; [done|]. intros w [Hw Halt] Htr. apply Ht2; [done|]. by apply Ht1.
  - destruct (process_order_cancellation j id) as [j1 ok1] eqn:Hp.
    destruct (process_order_cancellation_spec _ _ _ _ Hp Hc) as (Hc1 & Hf1 & Htree & Hreq & Htr1 & Hout).
    assert (Hg1 : orders_known P j1) by (eapply known_kept; [done..|]; auto).
    destruct ok1; [|by eexists _, _].
    destruct (IH j1 Hg1 (Hc1 eq_refl)) as (j2 & ok2 & -> & Hg2 & Hf2 & Hok); [intros o' Ho'; apply Hcmds; by right|].
    eexists _, _. split; [done|]. split; [done|]. split; [done|]. intros Hok2. destruct (Hok Hok2) as [Hc2 Ht2].
    split; [done|]. intros w [_ Halt] Htr. apply Ht2; [done|]. by apply Htr1.
Qed.

Lemma process_new_simulations_spec (P : Order -> Prop) results j : orders_known P j -> consistent j ->
  (forall r, r ∈ results -> P (so_order (sm_simulated_order r))) ->
  exists j' ok, process_new_simulations j results = Some (j', ok) /\ orders_known P j' /\ fed j'
  /\ (ok = true -> consistent j' /\ forall w, follows_pool w j -> follows_pool w j').
Proof.
  intros Hg Hc HP. unfold process_new_simulations.
  destruct (process_results_loop j results []) as [[j1 valid] ok] eqn:Hp.
  destruct (process_results_loop_spec _ _ _ _ _ _ Hp Hc) as (Hc1 & Hf1 & Htree & Hreq & Htr & Hout).
  assert (Hg1 : orders_known P j1).
  { eapply known_kept; [done..|]. intros o Ho. destruct (Hout o Ho) as [?|Hin]; [by left|right].
    apply list_elem_of_fmap in Hin as (r & -> & Hr). auto. }
  destruct ok; [|by eexists _, _].
  destruct (submit_results_spec (j_sim_tree j1) valid (gd_tree _ _ Hg1)) as (t & -> & Ht & Hto). simpl.
  eexists _, _. split; [done|]. destruct Hg1 as [_ Hto1 Hr1 Ho1], (Hc1 eq_refl) as [Hl Hf Htd]. split_and!; [|by split|].
  - split; simpl; [done| |done|done]. intros o. rewrite Hto. apply Hto1.
  - intros _. split; [by split|]. intros w Hw. exact (Htr w Hw).
Qed.
End rounds.

(** *** The whole *)
Section whole.
Context `{NonceProvider} `{RandomIds}.
Context (worked : SimulationRequest -> WorkerOutcome -> Prop).

(** A worker answers with the order it was asked to simulate. *)
Definition answers : Prop :=
  forall q r, worked q (Worker_Result r) -> so_order (sm_simulated_order r) = rq_order q.

Definition inserted (s : SimSystem) (o : Order) : Prop := Cmd_Insert o ∈ sy_read s.

Record sys_inv (s : SimSystem) : Prop := {
  si_good : orders_known (inserted s) (sy_job s);
  si_fed : fed (sy_job s);
  si_busy : forall q, q ∈ sy_busy s -> inserted s (rq_order q);
  si_results : forall r, r ∈ sy_results s -> inserted s (so_order (sm_simulated_order r));
  si_fits : forall o, Cmd_Insert o ∈ sy_commands s -> order_fits o;
  si_running : sy_running s = true ->
    consistent (sy_job s) /\ (alternating (sy_read s) -> follows_pool (wanted (sy_read s)) (sy_job s));
}.

Lemma known_requests P j reqs closed : orders_known P j -> (forall q, q ∈ reqs -> P (rq_order q)) ->
  orders_known P (set_requests j reqs closed).
Proof. intros [Ht Hto Hr Ho] Hq. by split. Qed.

(** A round of the job in a state with the invariant. *)
Lemma job_commands_spec s batch rest : sys_inv s -> sy_running s = true -> sy_commands s = batch ++ rest ->
  exists j' ok, job_round (sy_job s) (Job_Commands batch) = Some (j', ok)
  /\ orders_known (fun o => Cmd_Insert o ∈ sy_read s ++ batch) j' /\ fed j'
  /\ (ok = true -> consistent j'
      /\ (alternating (sy_read s ++ batch) -> follows_pool (wanted (sy_read s ++ batch)) j')).
Proof.
  intros [Hg Hfed _ _ Hfits Hrun] Hr Hb. destruct (Hrun Hr) as [Hc Htr].
  assert (Hg2 : orders_known (fun o => Cmd_Insert o ∈ sy_read s ++ batch) (sy_job s)).
  { eapply known_mono; [|done]. unfold inserted. intros o Ho. apply elem_of_app. by left. }
  destruct (process_new_commands_spec _ batch _ Hg2 Hc) as (j' & ok & Hp & Hg' & Hf' & Hok).
  { intros o Ho. split; [apply Hfits; rewrite Hb|]; apply elem_of_app; [by left|by right]. }
  unfold job_round. destruct batch as [|c batch]; [by eexists _, _|]. rewrite Hp.
  destruct (run_until_select_spec _ (j', ok) Hg' Hf') as (Heq & Hg3 & Hf3 & Hc3); [intros Hk; by apply Hok|].
  destruct (run_until_select (j', ok)) as [j3 ok3] eqn:He; simpl in *. rewrite He. subst ok3.
  eexists _, _. split; [done|]. split; [done|]. split; [done|]. intros Hk. destruct (Hc3 Hk) as [Hc4 Htr4].
  split; [done|]. unfold alternating, wanted. rewrite alternates_app, foldl_app. intros [Ha1 Ha2].
  apply Htr4. destruct (Hok Hk) as [_ Htr']. apply Htr'; [done|]. by apply Htr.
Qed.

Lemma job_results_spec s batch rest : sys_inv s -> sy_running s = true -> sy_results s = batch ++ rest ->
  exists j' ok, job_round (sy_job s) (Job_Results batch) = Some (j', ok)
  /\ orders_known (inserted s) j' /\ fed j'
  /\ (ok = true -> consistent j' /\ (alternating (sy_read s) -> follows_pool (wanted (sy_read s)) j')).
Proof.
  intros [Hg Hfed _ Hres _ Hrun] Hr Hb. destruct (Hrun Hr) as [Hc Htr].
  assert (exists j' ok, match batch with [] => Some (sy_job s, true) | _ => process_new_simulations (sy_job s) batch end
    = Some (j', ok) /\ orders_known (inserted s) j' /\ fed j'
    /\ (ok = true -> consistent j' /\ forall w, follows_pool w (sy_job s) -> follows_pool w j')) as (j' & ok & Hp & Hg' & Hf' & Hok).
  { destruct batch as [|r batch]; [by eexists _, _|].
    apply process_new_simulations_spec; [done|done|]. intros r' Hin. apply Hres. rewrite Hb. apply elem_of_app. by left. }
  destruct (run_until_select_spec _ (j', ok) Hg' Hf') as (Heq & Hg3 & Hf3 & Hc3); [intros Hk; by apply Hok|].
  destruct (run_until_select (j', ok)) as [j3 ok3] eqn:He; simpl in *. subst ok3. exists j3, ok.
  split; [|split; [done|]; split; [done|]].
  - unfold job_round. destruct batch; rewrite Hp; simpl; by rewrite He.
  - intros Hk. destruct (Hc3 Hk) as [Hc4 Htr4]. split; [done|]. intros Ha. apply Htr4, Hok; auto.
Qed.

Lemma try_send_result_in results o r : r ∈ try_send_result results o -> r ∈ results \/ o = Worker_Result r.
Proof.
  unfold try_send_result. destruct o as [r'| | |]; try by left. case_match; [|by left].
  rewrite elem_of_app, list_elem_of_singleton. intros [?| ->]; auto.
Qed.

Lemma sys_inv_step s s' : answers -> sys_inv s -> sys_step worked s s' -> sys_inv s'.
Proof.
  intros Hans Hinv Hstep. destruct Hstep as [s c Hf|s q rest Hq|s q o l1 l2 Hb Hw|s|s batch rest j running Hr Hb _ Hj
    |s batch rest j running Hr Hb _ Hj|s j running Hr Hj].
  - destruct Hinv as [Hg Hfed Hbusy Hres Hfits Hrun]. split; try done; simpl.
    intros o [Ho|Ho%list_elem_of_singleton]%elem_of_app; auto.
  - destruct Hinv as [Hg Hfed Hbusy Hres Hfits Hrun]. pose proof (gd_requests _ _ Hg) as Hreq. rewrite Hq in Hreq.
    split; try done; simpl.
    + apply known_requests; [done|]. intros q' Hq'. apply Hreq. by right.
    + intros q' [->|Hq']%elem_of_cons; [apply Hreq; by left|by apply Hbusy].
    + intros Hr. destruct (Hrun Hr) as [Hc Htr]. split; [|done]. by destruct Hc.
  - destruct Hinv as [Hg Hfed Hbusy Hres Hfits Hrun]. rewrite Hb in Hbusy. split; try done; simpl.
    + intros q' Hq'. apply Hbusy. set_solver.
    + intros r [Hin| ->]%try_send_result_in; [by apply Hres|]. unfold inserted; simpl.
      rewrite (Hans q r Hw). apply Hbusy. set_solver.
  - destruct Hinv as [Hg Hfed Hbusy Hres Hfits Hrun]. split; try done; simpl.
    + apply known_requests; [done|]. apply (gd_requests _ _ Hg).
    + intros Hr. destruct (Hrun Hr) as [Hc Htr]. split; [|done]. by destruct Hc.
  - destruct (job_commands_spec s batch rest Hinv Hr Hb) as (j' & ok & Hj' & Hg & Hfed & Hok). rewrite Hj in Hj'.
    injection Hj' as <- <-. destruct Hinv as [_ _ Hbusy Hres Hfits _]. split; try done; simpl.
    + intros q Hq. apply elem_of_app. left. by apply Hbusy.
    + intros r Hq. apply elem_of_app. left. by apply Hres.
    + intros o Ho. apply Hfits. rewrite Hb. apply elem_of_app. by right.
  - destruct (job_results_spec s batch rest Hinv Hr Hb) as (j' & ok & Hj' & Hg & Hfed & Hok). rewrite Hj in Hj'.
    injection Hj' as <- <-. destruct Hinv as [_ _ Hbusy Hres Hfits _]. split; try done; simpl.
    intros r Hin. apply Hres. rewrite Hb. apply elem_of_app. by right.
  - unfold job_round in Hj. injection Hj as <- <-. by destruct Hinv as [Hg Hfed Hbusy Hres Hfits Hrun].
Qed.

Lemma sys_inv_reach c left s : answers -> sys_reach worked (SimulationJob_new (SimTree_new c) left) s -> sys_inv s.
Proof.
  intros Hans Hreach. unfold sys_reach in Hreach. remember (SimSystem_new _) as s0 eqn:Hs0.
  assert (sys_inv s0) as Hinv; [|clear Hs0; induction Hreach; [done|]; eauto using sys_inv_step].
  subst s0. set (j := SimulationJob_new _ _).
  assert (Hfed : well_fed []) by (intros pre c' post Heq; by destruct pre).
  assert (Hc : consistent j) by (split; simpl; [apply dom_empty_L|done|done]).
  destruct (send_new_tasks_known (fun _ => False) j) as (Hg1 & Hc1 & Ht1); [|done|].
  { split; simpl; [apply counts_new|set_solver..]. }
  split; simpl; try set_solver.
  - by eapply known_mono; [|done].
  - by apply consistent_fed.
  - intros _. split; [done|]. intros _. apply Ht1. split; simpl; set_solver.
Qed.

(** C23. However the pool, the job and its workers interleave, an order is sent to
    the builders once until it is cancelled, only what was sent is
    cancelled, every send is traced, and what is sent is the simulation of
    an order that the pool inserted; while the job runs and the pool inserts
    an order again only after removing it, no removed order is live at the
    builders. *)
Theorem builders_well_fed c left s : answers -> sys_reach worked (SimulationJob_new (SimTree_new c) left) s ->
  let out := j_out (sy_job s) in
  well_fed out
  /\ map traced_command (j_traced (sy_job s)) = out
  /\ (forall o, Simulation o ∈ out -> Cmd_Insert (so_order o) ∈ sy_read s)
  /\ (sy_running s = true -> alternating (sy_read s) -> dom (live out) ⊆ wanted (sy_read s)).
Proof.
  intros Hans Hreach out. destruct (sys_inv_reach c left s Hans Hreach) as [Hg [Hw Ht] _ _ _ Hrun].
  split_and!; [done|done|by apply (gd_out _ _ Hg)|]. intros Hr Ha. destruct (Hrun Hr) as [Hc Htr].
  unfold out. rewrite (co_live _ Hc). destruct (Htr Ha) as [Hsub _]. set_solver.
Qed.

(** In every state the job reaches while it runs, whatever it receives next from its
    channels, it does not panic. *)
Theorem simulation_job_never_panics c left s : answers -> sys_reach worked (SimulationJob_new (SimTree_new c) left) s ->
  sy_running s = true ->
  forall e, match e with
            | Job_Commands batch => exists rest, sy_commands s = batch ++ rest
            | Job_Results batch => exists rest, sy_results s = batch ++ rest
            | Job_Cancelled => True
            end ->
  is_Some (job_round (sy_job s) e).
Proof.
  intros Hans Hreach Hr e He. pose proof (sys_inv_reach c left s Hans Hreach) as Hinv. destruct e as [batch|batch|].
  - destruct He as [rest Hb]. destruct (job_commands_spec s batch rest Hinv Hr Hb) as (j' & ok & -> & _). by eexists.
  - destruct He as [rest Hb]. destruct (job_results_spec s batch rest Hinv Hr Hb) as (j' & ok & -> & _). by eexists.
  - by eexists.
Qed.
End whole.

(** ** The workers answer *)
Section answering.
Context {W Diff C : Type} `{ChainState W Diff} `{!ChainStateOk W Diff} `{!TxCache W Diff C}.
Context `{PayoutSigner} `{!PayoutSignerOk}.
Context `{!HashOrder Address} `{!HashOrder nat}.
Context (ctx : BlockBuildingContext).

(** What some worker does with a request, whatever state and cache it has. *)
Definition worker_answer (q : SimulationRequest) (o : WorkerOutcome) : Prop :=
  exists elapsed (w : W) (c : C), (sim_worker_task ctx q elapsed w c).2 = o.

Lemma sim_worker_task_spec q elapsed (w : W) (c : C) :
  match (sim_worker_task ctx q elapsed w c).2 with
  | Worker_Result r => so_order (sm_simulated_order r) = rq_order q /\ sm_id r = rq_id q /\ sm_previous_orders r = rq_parents q
  | Worker_Panics => False
  | _ => True
  end.
Proof.
  unfold sim_worker_task. destruct (simulate_order ctx (rq_parents q) (rq_order q) w c) as [[w' c'] r] eqn:Hs.
  destruct (simulate_order_restores ctx _ _ _ _ _ _ _ Hs) as (Hp & _ & Hd).
  destruct r as [[res gas]|e|]; [|done|done]. simpl. destruct res as [so nonces|e]; [|done].
  destruct (Hd so nonces gas eq_refl) as (_ & _ & _ & _ & _ & _ & Ho & _). done.
Qed.

Lemma worker_answers : answers worker_answer.
Proof.
  intros q r (elapsed & w & c & Hw). pose proof (sim_worker_task_spec q elapsed w c) as Hs.
  rewrite Hw in Hs. by destruct Hs as [? _].
Qed.
End answering.

(** ** Runs

    Workers that report a profit of five for every request; a run is a list of actions,
    each of which is a step. *)
Definition toy_result (q : SimulationRequest) : SimulatedResult :=
  {| sm_id := rq_id q;
     sm_simulated_order := {| so_order := rq_order q; so_sim_value := SimValue_new 5 5 BlockSpace_ZERO [];
                              so_used_state_trace := None |};
     sm_previous_orders := rq_parents q; sm_nonces_after := []; sm_simulation_time := 0 |}.

Definition toy_worked (q : SimulationRequest) (o : WorkerOutcome) : Prop := o = Worker_Result (toy_result q).

Lemma toy_answers : answers toy_worked.
Proof. by intros q r [= ->]. Qed.

Inductive SysAction := Act_Command (c : OrderPoolCommand) | Act_Take | Act_Done | Act_Commands (n : nat) | Act_Results (n : nat).

Definition command_fits (c : OrderPoolCommand) : bool :=
  match c with Cmd_Insert o => Z.of_nat (length (Order_nonces o)) <? 2 ^ 64 | Cmd_Remove _ => true end.

Section runs.
Context `{NonceProvider} `{RandomIds}.

Definition sys_act (s : SimSystem) (a : SysAction) : option SimSystem :=
  match a with
  | Act_Command c =>
      if command_fits c
      then Some {| sy_job := sy_job s; sy_running := sy_running s; sy_commands := sy_commands s ++ [c];
                   sy_results := sy_results s; sy_busy := sy_busy s; sy_read := sy_read s |}
      else None
  | Act_Take =>
      match j_requests (sy_job s) with
      | [] => None
      | q :: rest => Some {| sy_job := set_requests (sy_job s) rest (j_requests_closed (sy_job s));
                             sy_running := sy_running s; sy_commands := sy_commands s; sy_results := sy_results s;
                             sy_busy := q :: sy_busy s; sy_read := sy_read s |}
      end
  | Act_Done =>
      match sy_busy s with
      | [] => None
      | q :: rest => Some {| sy_job := sy_job s; sy_running := sy_running s; sy_commands := sy_commands s;
                             sy_results := try_send_result (sy_results s) (Worker_Result (toy_result q));
                             sy_busy := rest; sy_read := sy_read s |}
      end
  | Act_Commands n =>
      if decide (sy_running s = true /\ (n <= 1024)%nat) then
        let! (j, running) := job_round (sy_job s) (Job_Commands (take n (sy_commands s))) in
        Some {| sy_job := j; sy_running := running; sy_commands := drop n (sy_commands s); sy_results := sy_results s;
                sy_busy := sy_busy s; sy_read := sy_read s ++ take n (sy_commands s) |}
      else None
  | Act_Results n =>
      if decide (sy_running s = true /\ (n <= 1024)%nat) then
        let! (j, running) := job_round (sy_job s) (Job_Results (take n (sy_results s))) in
        Some {| sy_job := j; sy_running := running; sy_commands := sy_commands s; sy_results := drop n (sy_results s);
                sy_busy := sy_busy s; sy_read := sy_read s |}
      else None
  end.

Definition sys_run (s : SimSystem) (l : list SysAction) : option SimSystem :=
  foldl (fun s a => let! s := s in sys_act s a) (Some s) l.

Lemma run_stopped l : foldl (fun s a => let! s := s in sys_act s a) None l = None.
Proof. by induction l. Qed.

Lemma take_short {A} n (l : list A) : (n <= 1024)%nat -> (length (take n l) <= 1024)%nat.
Proof. rewrite length_take. lia. Qed.

Lemma sys_act_step s a s' : sys_act s a = Some s' -> sys_step toy_worked s s'.
Proof.
  destruct a as [c| | |n|n]; cbn [sys_act].
  - destruct (command_fits c) eqn:Hf; [|done]. intros [= <-]. constructor. intros o ->. simpl in Hf. unfold order_fits. lia.
  - destruct (j_requests _) eqn:Hq; [done|]. intros [= <-]. by eapply sys_take.
  - destruct (sy_busy s) eqn:Hq; [done|]. intros [= <-]. by apply (sys_done _ s _ (Worker_Result (toy_result _)) [] _ Hq).
  - case_decide as Hd; [|done]. destruct Hd as [Hr Hn].
    destruct (job_round _ _) as [[j running]|] eqn:Hj; [|done]. intros [= <-].
    eapply sys_commands; [done|symmetry; apply take_drop|by apply take_short|done].
  - case_decide as Hd; [|done]. destruct Hd as [Hr Hn].
    destruct (job_round _ _) as [[j running]|] eqn:Hj; [|done]. intros [= <-].
    eapply sys_results; [done|symmetry; apply take_drop|by apply take_short|done].
Qed.

Lemma sys_run_reach j s l s' : sys_reach toy_worked j s -> sys_run s l = Some s' -> sys_reach toy_worked j s'.
Proof.
  revert s. induction l as [|a l IH]; intros s Hs; simpl; [by intros [= <-]|]. unfold sys_run; simpl.
  destruct (sys_act s a) as [s1|] eqn:Ha.
  - apply IH. eapply rtc_r; [done|]. by eapply sys_act_step.
  - by rewrite run_stopped.
Qed.
End runs.

Definition sim_start : SimulationJob := SimulationJob_new (SimTree_new NonceCache_new) None.

(** Two orders; the first is simulated and removed, the second is removed before its
    result arrives. *)
Definition two_orders : list SysAction :=
  [Act_Command (Cmd_Insert first_tx); Act_Command (Cmd_Insert second_tx); Act_Commands 2; Act_Take; Act_Done; Act_Results 1;
   Act_Command (Cmd_Remove (Order_id first_tx)); Act_Command (Cmd_Remove (Order_id second_tx)); Act_Commands 2].

(** An order is inserted again while it is live, and then removed. *)
Definition inserted_twice : list SysAction :=
  [Act_Command (Cmd_Insert first_tx); Act_Commands 1; Act_Take; Act_Done; Act_Results 1;
   Act_Command (Cmd_Insert first_tx); Act_Commands 1; Act_Command (Cmd_Remove (Order_id first_tx)); Act_Commands 1].

Lemma sim_start_reach l s : sys_run (SimSystem_new (run_start sim_start)) l = Some s -> sys_reach toy_worked sim_start s.
Proof. apply sys_run_reach. apply rtc_refl. Qed.

Lemma builders_well_fed_witness : exists s, sys_reach toy_worked sim_start s
  /\ length (j_out (sy_job s)) = 2%nat /\ well_fed (j_out (sy_job s)).
Proof.
  assert (Hn : (fun s => length (j_out (sy_job s))) <$> sys_run (SimSystem_new (run_start sim_start)) two_orders = Some 2%nat)
    by (vm_compute; reflexivity).
  destruct (sys_run _ two_orders) as [s|] eqn:Hs; [|done]. injection Hn as Hn.
  pose proof (sim_start_reach _ _ Hs) as Hr. exists s. split; [done|]. split; [done|].
  apply (builders_well_fed toy_worked NonceCache_new None s toy_answers Hr).
Defined.

(** The order stays live at the builders although the pool has removed it: the removal
    finds it in flight and does not cancel what was sent before. *)
Example removed_order_stays_live : exists s, sys_reach toy_worked sim_start s
  /\ wanted (sy_read s) = ∅ /\ Order_id first_tx ∈ dom (live (j_out (sy_job s))) /\ j_in_flight_orders (sy_job s) = ∅.
Proof.
  assert (Hn : (fun s => bool_decide (wanted (sy_read s) = ∅ /\ Order_id first_tx ∈ dom (live (j_out (sy_job s)))
    /\ j_in_flight_orders (sy_job s) = ∅)) <$> sys_run (SimSystem_new (run_start sim_start)) inserted_twice = Some true)
    by (vm_compute; reflexivity).
  destruct (sys_run _ inserted_twice) as [s|] eqn:Hs; [|done]. injection Hn as Hn%bool_decide_eq_true.
  exists s. split; [by eapply sim_start_reach|done].
Qed.
