(* ===== verification/Redistribution.v ===== *)
(** * Splitting the profit of a landed block (backtest/redistribute/redistribution_algo.rs)

    What a landed block earned is given back to the identities whose orders are in
    it, in proportion to what they contributed, at most what any pair of them
    contributed together.  [None] is a panic of [unwrap] or [assert!]. *)

From S2P Require Import Prelude Transactions Bundles Orders.

Record IncludedOrderData := { io_id : OrderId; io_realized_value : U256 }.

Record RedistributionIdentityData := {
  ri_address : Address;
  ri_block_value_delta : U256;
  ri_included_orders : list IncludedOrderData;
}.

Record RedistributionCalculator := {
  landed_block_profit : U256;
  identity_data : list RedistributionIdentityData;
  joint_block_value_delta : list (Address * Address * U256);
}.

Record RedistributionEntityResult := {
  re_address : Address;
  redistribution_value : U256;
  order_redistribution_value : list (OrderId * U256);
}.

Record RedistributionResult := {
  total_value_redistributed : U256;
  value_by_identity : list RedistributionEntityResult;
}.

(** [Iterator::sum] of [U256]. *)
Definition u256_sum (l : list U256) : U256 := foldl u256_add 0 l.

(** [iter().position]: the index of the first identity with an address. *)
Fixpoint position (a : Address) (l : list RedistributionIdentityData) : option nat :=
  match l with
  | [] => None
  | i :: l => if decide (ri_address i = a) then Some 0%nat else S <$> position a l
  end.

Definition vector_subset_data (data : RedistributionCalculator) : list (nat * nat * U256) :=
  omap (fun '(addr1, addr2, value) =>
    let! idx1 := position addr1 (identity_data data) in
    let! idx2 := position addr2 (identity_data data) in
    Some (idx1, idx2, value)) (joint_block_value_delta data).

Definition adjust_contributions (a b delta : Z) : option (Z * Z) :=
  let '(a, b, switch) := if decide (a <= b) then (a, b, false) else (b, a, true) in
  if decide (delta >= i256_add a b) then Some (0, 0)
  else
    let parabola_min := i256_add (i256_sub delta b) a ÷ 2 in
    let left_bound := Z.max (i256_sub delta b) 0 in
    let right_bound := Z.min a delta in
    let a_min :=
      if decide (parabola_min <= left_bound) then left_bound
      else if decide (parabola_min > left_bound /\ parabola_min <= right_bound) then parabola_min
      else right_bound in
    let a_new := i256_sub a a_min in
    let b_new := i256_sub b (i256_sub delta a_min) in
    if decide (0 <= a_new /\ 0 <= b_new /\ i256_add a_new b_new <= i256_sub (i256_add a b) delta)
    then Some (if switch then (b_new, a_new) else (a_new, b_new))
    else None.

Definition split_value (value : U256) (split_vector : list U256) : list U256 :=
  let total_split := u256_sum split_vector in
  if decide (total_split = 0) then (fun _ => 0) <$> split_vector
  else (fun split => u256_mul value split `div` total_split) <$> split_vector.

(** One pair: its payments are lowered when they exceed what the pair contributed. *)
Definition adjust_pair (payments : list U256) (subset : nat * nat) (joint : U256)
  : option (list U256) :=
  let! a := payments !! subset.1 in
  let! b := payments !! subset.2 in
  let subset_payment := u256_add a b in
  if decide (subset_payment > joint) then
    let delta := u256_sub subset_payment joint in
    let! a := i256_try_from a in
    let! b := i256_try_from b in
    let! delta := i256_try_from delta in
    let! new := adjust_contributions a b delta in
    let! new_a := u256_try_from new.1 in
    let! new_b := u256_try_from new.2 in
    Some (<[subset.2 := new_b]> (<[subset.1 := new_a]> payments))
  else Some payments.

Fixpoint adjust_pairs (payments : list U256) (subsets : list (nat * nat * U256))
  : option (list U256) :=
  match subsets with
  | [] => Some payments
  | (subset, joint) :: subsets =>
      let! payments := adjust_pair payments subset joint in
      adjust_pairs payments subsets
  end.

(** The assertion after the loop. *)
Definition pair_holds (payments : list U256) (subset : nat * nat * U256) : bool :=
  match payments !! subset.1.1, payments !! subset.1.2 with
  | Some a, Some b => bool_decide (u256_add a b <= subset.2)
  | _, _ => false
  end.

Definition realized_value (i : RedistributionIdentityData) : U256 :=
  u256_sum (io_realized_value <$> ri_included_orders i).

Definition marginal_contribution (i : RedistributionIdentityData) : U256 :=
  Z.min (realized_value i) (ri_block_value_delta i).

(** [mu_I] of a pair. *)
Definition subset_joint_marginal_contribution (data : RedistributionCalculator)
    (subset : nat * nat * U256) : option (nat * nat * U256) :=
  let! i1 := identity_data data !! subset.1.1 in
  let! i2 := identity_data data !! subset.1.2 in
  Some (subset.1, Z.min (u256_add (realized_value i1) (realized_value i2)) subset.2).

Definition entity_result (i : RedistributionIdentityData) (payment : U256) : RedistributionEntityResult :=
  {| re_address := ri_address i;
     redistribution_value := payment;
     order_redistribution_value :=
       zip (io_id <$> ri_included_orders i)
           (split_value payment (io_realized_value <$> ri_included_orders i)) |}.

Definition calculate_redistribution (data : RedistributionCalculator) : option RedistributionResult :=
  let marginal := marginal_contribution <$> identity_data data in
  let value_to_split := Z.min (landed_block_profit data) (u256_sum marginal) in
  let flat_tax_redistibution_value := split_value value_to_split marginal in
  let! subsets := mapM (subset_joint_marginal_contribution data) (vector_subset_data data) in
  let! identity_payments := adjust_pairs flat_tax_redistibution_value subsets in
  if forallb (pair_holds identity_payments) subsets then
    Some {| total_value_redistributed := u256_sum identity_payments;
            value_by_identity := zip_with entity_result (identity_data data) identity_payments |}
  else None.
