(* ===== verification/RedistributionSpec.v ===== *)
(** * The redistribution is safe, bounded and fair

    While the values of the orders of a block stay below 2^128 wei in total, the
    computation neither panics nor wraps, and what it pays is bounded by the profit
    of the block, by what every identity and every pair contributed, and by the
    values of the orders. *)

From S2P Require Import Prelude Transactions Bundles Orders Redistribution.

(** ** Machine integers that do not wrap *)
Lemma wrap_signed_small z : - 2 ^ 255 <= z < 2 ^ 255 -> wrap_signed 256 z = z.
Proof. intros Hz. unfold wrap_signed, wrap. rewrite Z.mod_small; lia. Qed.

Lemma i256_add_small a b : - 2 ^ 255 <= a + b < 2 ^ 255 -> i256_add a b = a + b.
Proof. apply wrap_signed_small. Qed.

Lemma u256_add_small a b : 0 <= a + b < 2 ^ 256 -> u256_add a b = a + b.
Proof. intros H. unfold u256_add, wrap. by rewrite Z.mod_small. Qed.

Lemma u256_sum_eq l : Forall (fun x => 0 <= x) l -> zsum l < 2 ^ 256 -> u256_sum l = zsum l.
Proof.
  intros Hl Hs. unfold u256_sum.
  assert (forall acc, 0 <= acc -> acc + zsum l < 2 ^ 256 -> foldl u256_add acc l = acc + zsum l) as H.
  { clear Hs. induction Hl as [| x l Hx Hl IH]; intros acc Ha Hs; simpl in *; [lia |].
    apply zsum_nonneg in Hl. rewrite u256_add_small by lia. rewrite IH; lia. }
  rewrite H; lia.
Qed.

(** ** Splitting in proportion *)

(** Each share is at most its part, together they are at most the value, and
    rounding loses less than one unit per share. *)
Lemma split_value_spec value v : Forall (fun x => 0 <= x) v -> 0 <= value <= zsum v ->
  zsum v < 2 ^ 128 ->
  Forall2 (fun s x => 0 <= s <= x) (split_value value v) v /\
  zsum (split_value value v) <= value <= zsum (split_value value v) + Z.of_nat (length v).
Proof.
  intros Hv Hval Hs. pose proof (zsum_nonneg v Hv) as H0. unfold split_value.
  rewrite u256_sum_eq by (done || lia). case_decide as Hz.
  - assert (value = 0) as -> by lia. clear Hval Hs H0.
    assert (Forall (fun x => x = 0) v) as Hv0.
    { apply Forall_forall. intros x Hx. pose proof (zsum_elem v x Hv Hx).
      rewrite Forall_forall in Hv. specialize (Hv x Hx). lia. }
    clear Hv Hz. induction Hv0 as [| x v -> Hv0 [IH1 IH2]]; [simpl; split; [constructor | lia] |].
    rewrite fmap_cons. cbn [zsum foldr length]. fold (zsum ((fun _ => 0) <$> v)). split; [constructor; [lia | done] | lia].
  - assert (Hmul : forall x, x ∈ v -> u256_mul value x = value * x).
    { intros x Hx. pose proof (zsum_elem v x Hv Hx) as Hle. rewrite Forall_forall in Hv.
      specialize (Hv x Hx). unfold u256_mul, wrap. rewrite Z.mod_small; [done |]. split; [nia |].
      assert (value * x <= zsum v * zsum v) by nia. nia. }
    set (t := zsum v) in *. assert (0 < t) as Ht by lia.
    assert (Hsub : forall w, (forall x, x ∈ w -> x ∈ v) ->
      Forall2 (fun s x => 0 <= s <= x) ((fun split => u256_mul value split `div` t) <$> w) w /\
      t * zsum ((fun split => u256_mul value split `div` t) <$> w) <= value * zsum w
        <= t * zsum ((fun split => u256_mul value split `div` t) <$> w) + t * Z.of_nat (length w)).
    { induction w as [| x w IH]; intros Hw; [simpl; split; [constructor | lia] |].
      destruct IH as [IH1 IH2]; [intros y Hy; apply Hw; by right |].
      assert (x ∈ v) as Hx by (apply Hw; left). rewrite fmap_cons, (Hmul x Hx).
      cbn [zsum foldr length]. fold (zsum w). set (sw := _ <$> w) in *. fold (zsum sw).
      assert (0 <= x) as Hx0 by (rewrite Forall_forall in Hv; auto).
      pose proof (Z.mul_div_le (value * x) t Ht). pose proof (Z.mod_pos_bound (value * x) t Ht) as Hmod.
      pose proof (Z.div_mod (value * x) t ltac:(lia)) as Hdm.
      assert (0 <= (value * x) `div` t <= x) as Hq.
      { split; [apply Z.div_pos; nia |]. apply Z.div_le_upper_bound; [done | nia]. }
      split; [by constructor |]. unfold t in *. rewrite Nat2Z.inj_succ. nia. }
    destruct (Hsub v) as [H1 H2]; [done |]. split; [done |]. fold t in H2. nia.
Qed.

(** ** Lowering a pair *)

Lemma square_gap a b delta m x : 0 <= (x - m) * (x + m - (delta - b + a)) ->
  (a - m) * (a - m) + (b - delta + m) * (b - delta + m)
  <= (a - x) * (a - x) + (b - delta + x) * (b - delta + x).
Proof. intros H. nia. Qed.

(** [delta] is taken from the pair; among all ways to do so the sum of the squares
    of what remains is minimal. *)
Lemma adjust_ordered a b delta : 0 <= a <= b -> a + b < 2 ^ 254 -> 0 <= delta < a + b ->
  let parabola_min := (delta - b + a) ÷ 2 in
  let left_bound := Z.max (delta - b) 0 in
  let right_bound := Z.min a delta in
  let a_min := if decide (parabola_min <= left_bound) then left_bound
               else if decide (parabola_min > left_bound /\ parabola_min <= right_bound)
                    then parabola_min else right_bound in
  left_bound <= a_min <= right_bound /\ (a = b -> 2 * a_min <= delta) /\
  forall x, left_bound <= x <= right_bound ->
    (a - a_min) * (a - a_min) + (b - delta + a_min) * (b - delta + a_min)
    <= (a - x) * (a - x) + (b - delta + x) * (b - delta + x).
Proof.
  intros Hab Hb Hd. cbv zeta.
  pose proof (Z.quot_rem' (delta - b + a) 2) as Hq.
  assert (Hr : -1 <= Z.rem (delta - b + a) 2 <= 1).
  { pose proof (Z.rem_bound_abs (delta - b + a) 2). lia. }
  assert (Hsign : 0 <= delta - b + a -> 0 <= Z.rem (delta - b + a) 2)
    by (intros; apply Z.rem_nonneg; lia).
  set (p := (delta - b + a) ÷ 2) in *. set (r := Z.rem (delta - b + a) 2) in *.
  assert (Hgap : forall m, m = Z.max (delta - b) 0 /\ p <= m \/ m = p \/ m = Z.min a delta /\ m < p ->
    forall x, Z.max (delta - b) 0 <= x <= Z.min a delta ->
      (a - m) * (a - m) + (b - delta + m) * (b - delta + m)
      <= (a - x) * (a - x) + (b - delta + x) * (b - delta + x)).
  { intros m Hm x Hx. apply square_gap.
    destruct (Z.lt_trichotomy x m) as [Hlt | [-> | Hgt]]; [| lia |].
    - apply Z.mul_nonpos_nonpos; lia.
    - apply Z.mul_nonneg_nonneg; lia. }
  repeat case_decide; split_and!; try lia; apply Hgap; lia.
Qed.

Lemma adjust_contributions_spec a b delta : 0 <= a -> 0 <= b -> a + b < 2 ^ 254 -> 0 <= delta <= a + b ->
  exists a' b', adjust_contributions a b delta = Some (a', b') /\
    0 <= a' <= a /\ 0 <= b' <= b /\ a' + b' = a + b - delta /\ (a = b -> b' <= a') /\
    forall x y, 0 <= x <= a -> 0 <= y <= b -> x + y = a + b - delta ->
      a' * a' + b' * b' <= x * x + y * y.
Proof.
  intros Ha Hb Hs Hd. unfold adjust_contributions.
  assert (Hord : forall a b switch, 0 <= a <= b -> a + b < 2 ^ 254 -> 0 <= delta < a + b ->
    exists a' b', (let a_min :=
      if decide (i256_add (i256_sub delta b) a ÷ 2 <= Z.max (i256_sub delta b) 0)
      then Z.max (i256_sub delta b) 0
      else if decide (i256_add (i256_sub delta b) a ÷ 2 > Z.max (i256_sub delta b) 0
                      /\ i256_add (i256_sub delta b) a ÷ 2 <= Z.min a delta)
           then i256_add (i256_sub delta b) a ÷ 2 else Z.min a delta in
      let a_new := i256_sub a a_min in
      let b_new := i256_sub b (i256_sub delta a_min) in
      if decide (0 <= a_new /\ 0 <= b_new /\ i256_add a_new b_new <= i256_sub (i256_add a b) delta)
      then Some (if switch : bool then (b_new, a_new) else (a_new, b_new)) else None)
      = Some (if switch then (b', a') else (a', b')) /\
      0 <= a' <= a /\ 0 <= b' <= b /\ a' + b' = a + b - delta /\ (a = b -> b' <= a') /\
      forall x y, 0 <= x <= a -> 0 <= y <= b -> x + y = a + b - delta ->
        a' * a' + b' * b' <= x * x + y * y).
  { clear. intros a b switch Hab Hs Hd. unfold i256_add, i256_sub.
    rewrite !(wrap_signed_small (delta - b)), !(wrap_signed_small (delta - b + a)),
      (wrap_signed_small (a + b)), (wrap_signed_small (a + b - delta)) by lia.
    destruct (adjust_ordered a b delta) as (H1 & H2 & H3); [done.. |]. cbv zeta.
    set (m := if decide _ then _ else _) in *. clearbody m. rewrite (wrap_signed_small (delta - m)) by lia.
    rewrite (wrap_signed_small (a - m)), (wrap_signed_small (b - (delta - m))) by lia.
    rewrite wrap_signed_small by lia. rewrite decide_True by lia.
    exists (a - m), (b - (delta - m)). split_and!; try lia; [reflexivity |].
    intros x y Hx Hy Hxy. specialize (H3 (a - x) ltac:(lia)).
    replace (a - (a - x)) with x in H3 by lia. replace (b - delta + (a - x)) with y in H3 by lia.
    by replace (b - (delta - m)) with (b - delta + m) by lia. }
  destruct (decide (a <= b)) as [Hab | Hab].
  - cbv beta iota. destruct (decide (delta >= i256_add a b)) as [Hz | Hz];
      rewrite i256_add_small in Hz by lia.
    + exists 0, 0. split_and!; [reflexivity | lia.. | intros x y Hx Hy Hxy; nia].
    + apply (Hord a b false); lia.
  - cbv beta iota. destruct (decide (delta >= i256_add b a)) as [Hz | Hz];
      rewrite i256_add_small in Hz by lia.
    + exists 0, 0. split_and!; [reflexivity | lia.. | intros x y Hx Hy Hxy; nia].
    + destruct (Hord b a true) as (a' & b' & H1 & H2 & H3 & H4 & H5 & H6); [lia.. |].
      exists b', a'. split_and!; try lia; [exact H1 |]. intros x y Hx Hy Hxy.
      specialize (H6 y x Hy Hx ltac:(lia)). lia.
Qed.

(** ** Payments only fall *)
Definition lowered (q p : list Z) : Prop := Forall2 (fun y x => 0 <= y <= x) q p.
Definition payments_ok (p : list Z) : Prop := Forall (fun x => 0 <= x < 2 ^ 128) p.

Lemma lowered_refl p : payments_ok p -> lowered p p.
Proof. induction 1; constructor; [lia | done]. Qed.

Lemma lowered_trans p q r : lowered r q -> lowered q p -> lowered r p.
Proof.
  intros H. revert p. induction H as [| z y r q Hz H IH]; intros p Hp; inversion Hp; subst;
    constructor; [lia | by apply IH].
Qed.

Lemma lowered_ok q p : lowered q p -> payments_ok p -> payments_ok q.
Proof. induction 1; intros Hp; inversion Hp; subst; constructor; [lia | by apply IHForall2]. Qed.

Lemma lowered_lookup q p i y : lowered q p -> q !! i = Some y -> exists x, p !! i = Some x /\ 0 <= y <= x.
Proof. intros H Hy. exact (Forall2_lookup_l _ _ _ _ _ H Hy). Qed.

Lemma lowered_insert p i x y : payments_ok p -> p !! i = Some x -> 0 <= y <= x -> lowered (<[i := y]> p) p.
Proof.
  intros Hp Hx Hy. apply Forall2_same_length_lookup. split; [apply length_insert |].
  intros j y' x' Hy' Hx'. destruct (decide (j = i)) as [-> | Hne].
  - rewrite list_lookup_insert_eq in Hy' by (by eapply lookup_lt_Some). naive_solver.
  - rewrite list_lookup_insert_ne in Hy' by done. assert (y' = x') as -> by congruence.
    eapply Forall_lookup_1 in Hp; [| done]. simpl in Hp. lia.
Qed.

Lemma pair_holds_lowered q p subset : lowered q p -> payments_ok p ->
  pair_holds p subset = true -> pair_holds q subset = true.
Proof.
  intros Hl Hp. unfold pair_holds.
  destruct (p !! subset.1.1) as [a |] eqn:Ha, (p !! subset.1.2) as [b |] eqn:Hb; try done.
  destruct (Forall2_lookup_r _ _ _ _ _ Hl Ha) as (a' & -> & Ha').
  destruct (Forall2_lookup_r _ _ _ _ _ Hl Hb) as (b' & -> & Hb').
  pose proof (Forall_lookup_1 _ _ _ _ Hp Ha). pose proof (Forall_lookup_1 _ _ _ _ Hp Hb).
  simpl in *. rewrite !bool_decide_eq_true, !u256_add_small by lia. lia.
Qed.

(** A pair is brought to its bound without a panic. *)
Lemma adjust_pair_spec p i j joint : payments_ok p -> (i < length p)%nat -> (j < length p)%nat ->
  0 <= joint -> exists q, adjust_pair p (i, j) joint = Some q /\ lowered q p /\
    pair_holds q (i, j, joint) = true.
Proof.
  intros Hp Hi Hj Hjoint. apply lookup_lt_is_Some in Hi as [a Ha], Hj as [b Hb].
  pose proof (Forall_lookup_1 _ _ _ _ Hp Ha) as Ha0. pose proof (Forall_lookup_1 _ _ _ _ Hp Hb) as Hb0.
  simpl in Ha0, Hb0. unfold adjust_pair, pair_holds. cbn [fst snd]. rewrite Ha, Hb.
  cbn [mbind option_bind]. rewrite u256_add_small by lia. case_decide as Hd.
  2: { exists p. split; [done |]. split; [by apply lowered_refl |].
       rewrite Ha, Hb. rewrite u256_add_small by lia. apply bool_decide_eq_true. lia. }
  unfold u256_sub, wrap. rewrite Z.mod_small by lia. unfold i256_try_from.
  rewrite !decide_True by lia. cbn [mbind option_bind].
  destruct (adjust_contributions_spec a b (a + b - joint))
    as (a' & b' & -> & Ha' & Hb' & Hsum & Heq & _); [lia.. |].
  cbn [mbind option_bind fst snd]. unfold u256_try_from. rewrite !decide_True by lia.
  cbn [mbind option_bind]. eexists. split; [done |].
  assert (lowered (<[i := a']> p) p) as Hl1 by by eapply lowered_insert.
  destruct (decide (j = i)) as [-> | Hne].
  - assert (b = a) as -> by congruence. rewrite list_insert_insert_eq. split.
    + eapply lowered_insert; [done | done | lia].
    + rewrite !list_lookup_insert_eq by (by eapply lookup_lt_Some). cbn.
      rewrite u256_add_small by lia. apply bool_decide_eq_true. specialize (Heq eq_refl). lia.
  - assert (<[i := a']> p !! j = Some b) as Hj' by (by rewrite list_lookup_insert_ne).
    split.
    + eapply lowered_trans; [| exact Hl1]. eapply lowered_insert; [by eapply lowered_ok | done | lia].
    + rewrite list_lookup_insert_ne, list_lookup_insert_eq by (done || by eapply lookup_lt_Some).
      rewrite list_lookup_insert_eq by (by eapply lookup_lt_Some). cbn.
      rewrite u256_add_small by lia. apply bool_decide_eq_true. lia.
Qed.

Lemma adjust_pairs_spec subsets p : payments_ok p ->
  Forall (fun s : nat * nat * U256 => (s.1.1 < length p)%nat /\ (s.1.2 < length p)%nat /\ 0 <= s.2) subsets ->
  exists q, adjust_pairs p subsets = Some q /\ lowered q p /\ forallb (pair_holds q) subsets = true.
Proof.
  intros Hp Hs. revert p Hp Hs. induction subsets as [| [[i j] joint] subsets IH]; intros p Hp Hs.
  - exists p. split; [done |]. split; [by apply lowered_refl | done].
  - apply Forall_cons in Hs as [(Hi & Hj & Hjoint) Hs]. simpl in Hi, Hj, Hjoint.
    destruct (adjust_pair_spec p i j joint Hp Hi Hj Hjoint) as (q & Hq & Hl & Hh).
    destruct (IH q) as (r & Hr & Hlr & Hhr); [by eapply lowered_ok | |].
    { by rewrite (Forall2_length _ _ _ Hl). }
    exists r. cbn [adjust_pairs]. rewrite Hq. cbn [mbind option_bind]. split; [done |].
    split; [by eapply lowered_trans |]. cbn [forallb]. rewrite Hhr, andb_true_r.
    eapply pair_holds_lowered; [done | by eapply lowered_ok | done].
Qed.

(** ** The whole computation *)
Definition order_values (i : RedistributionIdentityData) : list Z :=
  io_realized_value <$> ri_included_orders i.

(** Amounts of wei: nonnegative, and the realized values stay below 2^128 in total. *)
Record redistribution_ok (data : RedistributionCalculator) : Prop := {
  ok_profit : 0 <= landed_block_profit data;
  ok_values : Forall (fun i => Forall (fun x => 0 <= x) (order_values i)) (identity_data data);
  ok_deltas : Forall (fun i => 0 <= ri_block_value_delta i) (identity_data data);
  ok_joint : Forall (fun x : Address * Address * U256 => 0 <= x.2) (joint_block_value_delta data);
  ok_total : zsum ((fun i => zsum (order_values i)) <$> identity_data data) < 2 ^ 128;
}.

(** What an identity contributed by itself. *)
Definition contribution (i : RedistributionIdentityData) : Z :=
  Z.min (zsum (order_values i)) (ri_block_value_delta i).

Lemma position_lookup a l n : position a l = Some n -> exists i, l !! n = Some i /\ ri_address i = a.
Proof.
  revert n. induction l as [| i l IH]; intros n; simpl; [done |]. case_decide as Hd.
  - intros [= <-]. eauto.
  - destruct (position a l) as [m |]; [| done]. intros [= <-]. by apply IH.
Qed.

Section whole.
Context (data : RedistributionCalculator) (Hok : redistribution_ok data).

Lemma values_small i : i ∈ identity_data data ->
  Forall (fun x => 0 <= x) (order_values i) /\ 0 <= zsum (order_values i) < 2 ^ 128.
Proof.
  intros Hi. destruct Hok as [_ Hv _ _ Ht]. rewrite Forall_forall in Hv. pose proof (Hv i Hi) as Hvi.
  split; [done |]. split; [by apply zsum_nonneg |]. eapply Z.le_lt_trans; [| exact Ht].
  apply zsum_elem; [| by apply (list_elem_of_fmap_2 (fun i => zsum (order_values i)))].
  apply Forall_fmap, Forall_forall. intros x Hx. by apply zsum_nonneg, Hv.
Qed.

Lemma realized_value_eq i : i ∈ identity_data data -> realized_value i = zsum (order_values i).
Proof. intros [H1 H2]%values_small. apply u256_sum_eq; [done | lia]. Qed.

Lemma marginal_eq :
  marginal_contribution <$> identity_data data = contribution <$> identity_data data.
Proof.
  apply list_fmap_ext. intros n i Hi. unfold marginal_contribution, contribution.
  by rewrite realized_value_eq by (by eapply list_elem_of_lookup_2).
Qed.

Lemma contribution_bounds i : i ∈ identity_data data -> 0 <= contribution i <= zsum (order_values i).
Proof.
  intros Hi. destruct (values_small i Hi) as [_ H]. destruct Hok as [_ _ Hd _ _].
  rewrite Forall_forall in Hd. specialize (Hd i Hi). unfold contribution. lia.
Qed.

Lemma contributions_nonneg : Forall (fun x => 0 <= x) (contribution <$> identity_data data).
Proof. apply Forall_fmap, Forall_forall. intros i Hi. apply contribution_bounds, Hi. Qed.

Lemma contributions_total : 0 <= zsum (contribution <$> identity_data data) < 2 ^ 128.
Proof.
  split; [apply zsum_nonneg, contributions_nonneg |]. eapply Z.le_lt_trans; [| apply Hok].
  apply zsum_le. apply Forall2_fmap, Forall2_same_length_lookup. split; [done |].
  intros n i j Hi Hj. assert (j = i) as -> by congruence.
  by apply contribution_bounds; eapply list_elem_of_lookup_2.
Qed.

(** The payments before the pairs are looked at. *)
Definition value_to_split : Z :=
  Z.min (landed_block_profit data) (zsum (contribution <$> identity_data data)).
Definition flat_payments : list Z := split_value value_to_split (contribution <$> identity_data data).

Lemma flat_payments_spec : lowered flat_payments (contribution <$> identity_data data) /\
  zsum flat_payments <= value_to_split <= zsum flat_payments + Z.of_nat (length (identity_data data)).
Proof.
  pose proof contributions_total as Ht. destruct Hok as [Hp _ _ _ _].
  destruct (split_value_spec value_to_split (contribution <$> identity_data data)) as [H1 H2];
    [apply contributions_nonneg | unfold value_to_split; lia | lia |].
  rewrite length_fmap in H2. done.
Qed.

Lemma flat_payments_ok : payments_ok flat_payments.
Proof.
  eapply lowered_ok; [apply flat_payments_spec |]. apply Forall_fmap, Forall_forall. intros i Hi.
  pose proof (contribution_bounds i Hi). pose proof (values_small i Hi) as [_ ?]. simpl. lia.
Qed.

(** Every pair has identities, and a bound. *)
Lemma subsets_spec : exists subsets,
  mapM (subset_joint_marginal_contribution data) (vector_subset_data data) = Some subsets /\
  Forall (fun s : nat * nat * U256 => (s.1.1 < length flat_payments)%nat /\
            (s.1.2 < length flat_payments)%nat /\ 0 <= s.2) subsets /\
  forall a1 a2 v n1 n2 i1 i2, (a1, a2, v) ∈ joint_block_value_delta data ->
    position a1 (identity_data data) = Some n1 -> position a2 (identity_data data) = Some n2 ->
    identity_data data !! n1 = Some i1 -> identity_data data !! n2 = Some i2 ->
    (n1, n2, Z.min (zsum (order_values i1) + zsum (order_values i2)) v) ∈ subsets.
Proof.
  unfold vector_subset_data. destruct Hok as [_ _ _ Hj _].
  rewrite (Forall2_length _ _ _ (proj1 flat_payments_spec)), length_fmap.
  induction Hj as [| [[a1 a2] v] joint Hv Hj IH].
  { exists []. split; [done |]. split; [constructor | by intros ? ? ? ? ? ? ? ?%not_elem_of_nil]. }
  destruct IH as (subsets & IH1 & IH2 & IH3). cbn [omap list_omap].
  destruct (position a1 (identity_data data)) as [n1 |] eqn:E1; cbn [mbind option_bind];
    [destruct (position a2 (identity_data data)) as [n2 |] eqn:E2; cbn [mbind option_bind] |].
  - destruct (position_lookup _ _ _ E1) as (i1 & Hi1 & _), (position_lookup _ _ _ E2) as (i2 & Hi2 & _).
    apply list_elem_of_lookup_2 in Hi1 as Hin1, Hi2 as Hin2.
    pose proof (values_small i1 Hin1) as [_ H1]. pose proof (values_small i2 Hin2) as [_ H2].
    assert (subset_joint_marginal_contribution data (n1, n2, v)
            = Some (n1, n2, Z.min (zsum (order_values i1) + zsum (order_values i2)) v)) as Hs.
    { unfold subset_joint_marginal_contribution. cbn [fst snd]. rewrite Hi1, Hi2.
      cbn [mbind option_bind]. by rewrite !realized_value_eq, u256_add_small by (done || lia). }
    cbn -[subset_joint_marginal_contribution Z.min zsum].
    rewrite Hs. cbn [mbind option_bind]. rewrite IH1. cbn [mbind option_bind].
    eexists. split; [done |]. split.
    + constructor; [| done]. cbn [fst snd] in *.
      split_and!; [by eapply lookup_lt_Some | by eapply lookup_lt_Some | lia].
    + intros b1 b2 w m1 m2 j1 j2 [[= -> -> ->] | Hin]%elem_of_cons P1 P2 J1 J2.
      * simplify_eq. left.
      * right. by eapply IH3.
  - exists subsets. split; [done |]. split; [done |].
    intros b1 b2 w m1 m2 j1 j2 [[= -> -> ->] | Hin]%elem_of_cons P1 P2 J1 J2; [congruence |].
    by eapply IH3.
  - exists subsets. split; [done |]. split; [done |].
    intros b1 b2 w m1 m2 j1 j2 [[= -> -> ->] | Hin]%elem_of_cons P1 P2 J1 J2; [congruence |].
    by eapply IH3.
Qed.
End whole.

(** What an identity gets: a payment within its contribution, split over its orders
    within their values, up to one wei of rounding per order. *)
Definition entity_ok (i : RedistributionIdentityData) (e : RedistributionEntityResult) : Prop :=
  re_address e = ri_address i /\ 0 <= redistribution_value e <= contribution i /\
  (order_redistribution_value e).*1 = io_id <$> ri_included_orders i /\
  lowered (order_redistribution_value e).*2 (order_values i) /\
  zsum (order_redistribution_value e).*2 <= redistribution_value e
    <= zsum (order_redistribution_value e).*2 + Z.of_nat (length (ri_included_orders i)).

Lemma entity_result_ok data i payment : redistribution_ok data -> i ∈ identity_data data ->
  0 <= payment <= contribution i -> entity_ok i (entity_result i payment).
Proof.
  intros Hok Hi Hp. destruct (values_small data Hok i Hi) as [H1 H2].
  pose proof (contribution_bounds data Hok i Hi) as Hc.
  destruct (split_value_spec payment (order_values i)) as [H3 H4]; [done | lia | lia |].
  assert (length (split_value payment (order_values i)) = length (io_id <$> ri_included_orders i)) as Hlen.
  { rewrite (Forall2_length _ _ _ H3). unfold order_values. by rewrite !length_fmap. }
  unfold order_values in *. rewrite length_fmap in H4.
  unfold entity_ok, entity_result. cbn [re_address redistribution_value order_redistribution_value].
  rewrite fst_zip, snd_zip by lia. split_and!; try done; lia.
Qed.

Lemma redistribution_spec (data : RedistributionCalculator) : redistribution_ok data ->
  exists r, calculate_redistribution data = Some r /\
    total_value_redistributed r = zsum (redistribution_value <$> value_by_identity r) /\
    total_value_redistributed r <= landed_block_profit data /\
    Forall2 entity_ok (identity_data data) (value_by_identity r) /\
    (forall a1 a2 v n1 n2 i1 i2 e1 e2, (a1, a2, v) ∈ joint_block_value_delta data ->
       position a1 (identity_data data) = Some n1 -> position a2 (identity_data data) = Some n2 ->
       identity_data data !! n1 = Some i1 -> identity_data data !! n2 = Some i2 ->
       value_by_identity r !! n1 = Some e1 -> value_by_identity r !! n2 = Some e2 ->
       redistribution_value e1 + redistribution_value e2
       <= Z.min (zsum (order_values i1) + zsum (order_values i2)) v) /\
    (joint_block_value_delta data = [] ->
       Z.min (landed_block_profit data) (zsum (contribution <$> identity_data data))
       <= total_value_redistributed r + Z.of_nat (length (identity_data data))).
Proof.
  intros Hok. pose proof (contributions_total data Hok) as Hct.
  destruct (flat_payments_spec data Hok) as [Hflat Hsum]. pose proof (flat_payments_ok data Hok) as Hpok.
  destruct (subsets_spec data Hok) as (subsets & Hm & Hs & Hin).
  destruct (adjust_pairs_spec subsets (flat_payments data) Hpok Hs) as (q & Hq & Hl & Hh).
  assert (lowered q (contribution <$> identity_data data)) as Hql by by eapply lowered_trans.
  assert (Forall (fun x => 0 <= x) q) as Hq0.
  { eapply Forall_impl; [exact (lowered_ok _ _ Hl Hpok) |]. simpl. intros x Hx. lia. }
  assert (zsum q <= zsum (flat_payments data)) as Hqs.
  { apply zsum_le. eapply Forall2_impl; [exact Hl |]. simpl. lia. }
  unfold calculate_redistribution. rewrite marginal_eq, u256_sum_eq
    by (done || (by apply contributions_nonneg) || lia).
  change (split_value _ _) with (flat_payments data). rewrite Hm. cbn [mbind option_bind].
  rewrite Hq. cbn [mbind option_bind]. rewrite Hh. eexists. split; [done |].
  cbn [total_value_redistributed value_by_identity].
  assert (length q = length (identity_data data)) as Hlen
    by (rewrite (Forall2_length _ _ _ Hql); apply length_fmap).
  assert (redistribution_value <$> zip_with entity_result (identity_data data) q = q) as Hpay.
  { apply fmap_zip_with_r; [done | lia]. }
  rewrite Hpay, u256_sum_eq by (done || unfold value_to_split in Hsum; lia).
  split_and!; [done | unfold value_to_split in Hsum; lia | | |].
  - apply Forall2_same_length_lookup. rewrite length_zip_with. split; [lia |].
    intros n i e Hi He. apply lookup_zip_with_Some in He as (i' & x & -> & Hi' & Hx).
    assert (i' = i) as -> by congruence. eapply entity_result_ok; [done | by eapply list_elem_of_lookup_2 |].
    destruct (lowered_lookup _ _ _ _ Hql Hx) as (c & Hc & Hle).
    rewrite list_lookup_fmap, Hi in Hc. simpl in Hc. by simplify_eq.
  - intros a1 a2 v n1 n2 i1 i2 e1 e2 Hj P1 P2 I1 I2 E1 E2.
    pose proof (Hin _ _ _ _ _ _ _ Hj P1 P2 I1 I2) as Hsub.
    rewrite forallb_forall in Hh. specialize (Hh _ (proj1 (list_elem_of_In _ _) Hsub)).
    apply lookup_zip_with_Some in E1 as (? & x1 & -> & _ & Hx1), E2 as (? & x2 & -> & _ & Hx2).
    unfold pair_holds in Hh. cbn [fst snd] in Hh. rewrite Hx1, Hx2, bool_decide_eq_true in Hh.
    pose proof (lowered_ok _ _ Hl Hpok) as Hqok.
    pose proof (Forall_lookup_1 _ _ _ _ Hqok Hx1). pose proof (Forall_lookup_1 _ _ _ _ Hqok Hx2).
    simpl in *. rewrite u256_add_small in Hh by lia. done.
  - intros Hnil. unfold vector_subset_data in Hm. rewrite Hnil in Hm. injection Hm as <-.
    injection Hq as <-. apply Hsum.
Qed.

(** When amounts are below 2^128, splitting the profit of a landed block panics
    nowhere (the assertions hold and no conversion fails); no identity gets
    more than it contributed, no pair more than it contributed together, the
    orders of an identity get at most its share, and the total is at most
    the profit of the block; without pairs at most one wei per identity of
    the value to split is lost. *)
Theorem redistribution_bounded (data : RedistributionCalculator) : redistribution_ok data ->
  exists r, calculate_redistribution data = Some r /\
    total_value_redistributed r = zsum (redistribution_value <$> value_by_identity r) /\
    total_value_redistributed r <= landed_block_profit data /\
    Forall2 entity_ok (identity_data data) (value_by_identity r) /\
    (forall a1 a2 v n1 n2 i1 i2 e1 e2, (a1, a2, v) ∈ joint_block_value_delta data ->
       position a1 (identity_data data) = Some n1 -> position a2 (identity_data data) = Some n2 ->
       identity_data data !! n1 = Some i1 -> identity_data data !! n2 = Some i2 ->
       value_by_identity r !! n1 = Some e1 -> value_by_identity r !! n2 = Some e2 ->
       redistribution_value e1 + redistribution_value e2
       <= Z.min (zsum (order_values i1) + zsum (order_values i2)) v) /\
    (joint_block_value_delta data = [] ->
       Z.min (landed_block_profit data) (zsum (contribution <$> identity_data data))
       <= total_value_redistributed r + Z.of_nat (length (identity_data data))).
Proof. exact (redistribution_spec data). Qed.

