(* ===== verification/BacktestData.v ===== *)
(** * The data of a historical block (backtest/mod.rs)

    The orders that were available for a landed block and the filters that a
    backtest applies to them.  A filter drops orders and notes why. *)

From stdpp Require Import sorting.
From S2P Require Import Prelude Transactions Bundles Orders OrderPriority.

Record OrdersWithTimestamp := { owt_timestamp_ms : U64; owt_order : Order }.

Definition owt_id (o : OrdersWithTimestamp) : OrderId := Order_id (owt_order o).

(** Times are nanoseconds since the epoch. *)
Record BuiltBlockData := {
  bb_included_orders : list OrderId;
  bb_orders_closed_at : Z;
  bb_sealed_at : Z;
  bb_profit : Z;
}.

Inductive OrderFilteredReason :=
| Filtered_Timestamp
| Filtered_Replaced
| Filtered_MempoolTxs
| Filtered_Ids
| Filtered_Signer
| Filtered_Other (reason : string).

(** The fields of the landed block that are used, and of its bid. *)
Record ChainTransaction := {
  ct_hash : TxHash;
  ct_from : Address;
  ct_to : option Address;
  ct_nonce : U64;
}.

Inductive BlockTransactions :=
| Txs_Full (txs : list ChainTransaction)
| Txs_Hashes (hashes : list TxHash)
| Txs_Uncle.

Definition BlockTransactions_hashes (t : BlockTransactions) : list TxHash :=
  match t with
  | Txs_Full txs => ct_hash <$> txs
  | Txs_Hashes hashes => hashes
  | Txs_Uncle => []
  end.

Record OnchainBlock := {
  ob_hash : B256;
  ob_beneficiary : Address;
  ob_extra_data : list Z;
  ob_transactions : BlockTransactions;
}.

Record BuilderBlockReceived := {
  wb_timestamp_ms : U64;
  wb_proposer_fee_recipient : Address;
  wb_value : U256;
}.

Record BlockData := {
  bd_block_number : U64;
  bd_winning_bid_trace : BuilderBlockReceived;
  bd_onchain_block : OnchainBlock;
  bd_available_orders : list OrdersWithTimestamp;
  bd_filtered_orders : gmap OrderId OrderFilteredReason;
  bd_built_block_data : option BuiltBlockData;
}.

Definition set_available (d : BlockData) (orders : list OrdersWithTimestamp)
    (filtered : gmap OrderId OrderFilteredReason) : BlockData :=
  {| bd_block_number := bd_block_number d; bd_winning_bid_trace := bd_winning_bid_trace d;
     bd_onchain_block := bd_onchain_block d; bd_available_orders := orders;
     bd_filtered_orders := filtered; bd_built_block_data := bd_built_block_data d |}.

(** [retain] with a closure that notes what it drops: [Some reason] drops. *)
Fixpoint retain (drop : OrdersWithTimestamp -> option OrderFilteredReason)
    (orders : list OrdersWithTimestamp) (filtered : gmap OrderId OrderFilteredReason)
  : list OrdersWithTimestamp * gmap OrderId OrderFilteredReason :=
  match orders with
  | [] => ([], filtered)
  | o :: orders =>
      match drop o with
      | Some reason => retain drop orders (<[owt_id o := reason]> filtered)
      | None => let '(kept, filtered) := retain drop orders filtered in (o :: kept, filtered)
      end
  end.

Definition included_orders (d : BlockData) : list OrderId :=
  from_option bb_included_orders [] (bd_built_block_data d).

Definition late (d : BlockData) (final_timestamp_ms : U64) (o : OrdersWithTimestamp)
  : option OrderFilteredReason :=
  if decide (owt_id o ∈ included_orders d) then None
  else if decide (owt_timestamp_ms o <= final_timestamp_ms) then None
  else Some Filtered_Timestamp.

(** The latest first, then by id. *)
Definition latest_cmp (a b : OrdersWithTimestamp) : comparison :=
  match owt_timestamp_ms b ?= owt_timestamp_ms a with
  | Eq => OrderId_cmp (owt_id a) (owt_id b)
  | c => c
  end.
Definition latest_first (a b : OrdersWithTimestamp) : Prop := latest_cmp a b <> Gt.
#[export] Instance latest_first_dec : RelDecision latest_first.
Proof. intros a b. unfold latest_first. apply _. Defined.

(** The second [retain]: a cancellable order is dropped when its key was seen. *)
Fixpoint retain_latest (included : list OrderId) (seen : list OrderReplacementKey)
    (orders : list OrdersWithTimestamp) (filtered : gmap OrderId OrderFilteredReason)
  : list OrdersWithTimestamp * gmap OrderId OrderFilteredReason :=
  match orders with
  | [] => ([], filtered)
  | o :: orders =>
      match replacement_key (owt_order o) with
      | Some key =>
          let skip_order := if decide (owt_id o ∈ included) then false else bool_decide (key ∈ seen) in
          if skip_order then retain_latest included seen orders (<[owt_id o := Filtered_Replaced]> filtered)
          else let '(kept, filtered) := retain_latest included (key :: seen) orders filtered in
               (o :: kept, filtered)
      | None =>
          let '(kept, filtered) := retain_latest included seen orders filtered in (o :: kept, filtered)
      end
  end.

Definition filter_orders_by_end_timestamp_ms (d : BlockData) (final_timestamp_ms : U64) : BlockData :=
  let '(orders, filtered) := retain (late d final_timestamp_ms) (bd_available_orders d)
                               (bd_filtered_orders d) in
  let '(orders, filtered) := retain_latest (included_orders d) []
                               (merge_sort latest_first orders) filtered in
  set_available d orders filtered.

(** [as u64] wraps. *)
Definition offset_datetime_to_timestamp_ms (date : Z) : U64 := wrap 64 (date ÷ 1000000).

Definition filter_orders_by_end_timestamp (d : BlockData) (final_timestamp : Z) : BlockData :=
  filter_orders_by_end_timestamp_ms d (offset_datetime_to_timestamp_ms final_timestamp).

Definition filter_late_orders (d : BlockData) (build_block_lag_ms : Z) : BlockData :=
  let final_timestamp_ms :=
    wrap_signed 64 (wrap_signed 64 (wb_timestamp_ms (bd_winning_bid_trace d)) - build_block_lag_ms) in
  filter_orders_by_end_timestamp_ms d (wrap 64 final_timestamp_ms).

Definition mempool_hash (o : OrdersWithTimestamp) : option TxHash :=
  match owt_order o with Order_Tx tx => Some (tx_hash (tx_with_blobs tx)) | _ => None end.

Definition from_mempool (mempool_txs : list TxHash) (o : OrdersWithTimestamp)
  : option OrderFilteredReason :=
  if is_tx (owt_order o) then None
  else if existsb (fun '(tx, _) => negb (bool_decide (tx_hash tx ∈ mempool_txs)))
            (Order_list_txs (owt_order o)) then None
  else Some Filtered_MempoolTxs.

Definition filter_bundles_from_mempool (d : BlockData) : BlockData :=
  let mempool_txs := omap mempool_hash (bd_available_orders d) in
  let '(orders, filtered) := retain (from_mempool mempool_txs) (bd_available_orders d)
                               (bd_filtered_orders d) in
  set_available d orders filtered.

Definition filter_orders_by_ids `{IdText} (d : BlockData) (order_ids : list string) : BlockData :=
  let '(orders, filtered) :=
    retain (fun o => if decide (OrderId_to_string (owt_id o) ∈ order_ids) then None
                     else Some Filtered_Ids) (bd_available_orders d) (bd_filtered_orders d) in
  set_available d orders filtered.

Definition filter_out_orders (d : BlockData) (f : Order -> option OrderFilteredReason) : BlockData :=
  let '(orders, filtered) := retain (fun o => f (owt_order o)) (bd_available_orders d)
                               (bd_filtered_orders d) in
  set_available d orders filtered.

Definition is_validator_fee_payment (d : BlockData) (tx : ChainTransaction) : bool :=
  bool_decide (ct_from tx = ob_beneficiary (bd_onchain_block d)) &&
  match ct_to tx with
  | Some to => bool_decide (to = wb_proposer_fee_recipient (bd_winning_bid_trace d))
  | None => false
  end.

(** [None] is the panic for a block without its transactions. *)
Definition search_missing_txs_on_available_orders (d : BlockData) : option (list TxHash) :=
  let available_txs := bd_available_orders d ≫= fun o =>
    (fun p => tx_hash p.1) <$> Order_list_txs (owt_order o) in
  match ob_transactions (bd_onchain_block d) with
  | Txs_Full txs =>
      Some (ct_hash <$> filter (fun tx => ct_hash tx ∉ available_txs /\
                                          is_validator_fee_payment d tx = false) txs)
  | _ => None
  end.

Definition search_missing_account_nonce_on_available_orders (d : BlockData)
  : option (list (TxHash * AccountNonce)) :=
  let available_accounts := bd_available_orders d ≫= fun o => Order_nonces (owt_order o) in
  match ob_transactions (bd_onchain_block d) with
  | Txs_Full txs =>
      Some ((fun tx => (ct_hash tx, {| an_account := ct_from tx; an_nonce := ct_nonce tx |})) <$>
        filter (fun tx => existsb (fun x => bool_decide (nonce_nonce x = ct_nonce tx) &&
                                            bool_decide (nonce_address x = ct_from tx))
                            available_accounts = false) txs)
  | _ => None
  end.

(** ** Properties *)

Lemma latest_cmp_ok : cmp_ok latest_cmp.
Proof.
  destruct (cmp_ok_then_with (fun a b => - owt_timestamp_ms a ?= - owt_timestamp_ms b)
    (fun a b => OrderId_cmp (owt_id a) (owt_id b))) as [H1 H2 H3].
  - apply cmp_ok_Zkey.
  - destruct OrderId_cmp_cmp_ok as [H1 H2 H3]. split; eauto.
  - assert (E : forall a b, latest_cmp a b
              = then_with (fun a b => - owt_timestamp_ms a ?= - owt_timestamp_ms b)
                  (fun a b => OrderId_cmp (owt_id a) (owt_id b)) a b).
    { intros a b. unfold latest_cmp, then_with. by rewrite Z.compare_opp. }
    split; intros *; rewrite !E; eauto.
Qed.

(** A filter keeps, in order, what it does not drop, and notes what it drops. *)
Lemma retain_kept drop orders filtered :
  (retain drop orders filtered).1 = filter (fun o => drop o = None) orders.
Proof.
  revert filtered. induction orders as [| o orders IH]; intros filtered; [done |]. cbn [retain].
  rewrite filter_cons. destruct (drop o) as [r |] eqn:E.
  - rewrite decide_False by done. apply IH.
  - rewrite decide_True by done. specialize (IH filtered).
    destruct (retain drop orders filtered). simpl in *. by rewrite IH.
Qed.

Lemma retain_filtered drop orders filtered id :
  is_Some ((retain drop orders filtered).2 !! id) <->
  is_Some (filtered !! id) \/ exists o, o ∈ orders /\ owt_id o = id /\ is_Some (drop o).
Proof.
  revert filtered. induction orders as [| o orders IH]; intros filtered; cbn [retain].
  - simpl. setoid_rewrite elem_of_nil. naive_solver.
  - setoid_rewrite elem_of_cons. destruct (drop o) as [r |] eqn:E.
    + rewrite IH, lookup_insert_is_Some. destruct (decide (owt_id o = id)); [| naive_solver].
      split; [| by left; left]. intros _. right. exists o. rewrite E. eauto.
    + specialize (IH filtered). destruct (retain drop orders filtered) as [kept f]. simpl in *.
      rewrite IH. split; [naive_solver |]. intros [? | (o' & [-> | Ho] & Hid & Hd)]; [by left | | by eauto].
      rewrite E in Hd. by destruct Hd.
Qed.

(** Two orders of which the second may only stay when it was included. *)
Definition distinct_keys (included : list OrderId) (a b : OrdersWithTimestamp) : Prop :=
  replacement_key (owt_order a) <> None ->
  replacement_key (owt_order a) = replacement_key (owt_order b) -> owt_id b ∈ included.

(** The second pass: included orders stay, of the others only the latest of a key,
    and what is dropped is noted. *)
Lemma retain_latest_spec included seen orders filtered : StronglySorted latest_first orders ->
  let '(kept, filtered') := retain_latest included seen orders filtered in
  sublist kept orders /\ (forall id, is_Some (filtered !! id) -> is_Some (filtered' !! id)) /\
  StronglySorted (distinct_keys included) kept /\
  (forall o key, o ∈ kept -> replacement_key (owt_order o) = Some key -> key ∈ seen -> owt_id o ∈ included) /\
  forall o, o ∈ orders -> o ∈ kept \/
    owt_id o ∉ included /\ is_Some (filtered' !! owt_id o) /\
    exists key, replacement_key (owt_order o) = Some key /\
      (key ∈ seen \/ exists o', o' ∈ kept /\ replacement_key (owt_order o') = Some key /\ latest_first o' o).
Proof.
  intros Hs. revert seen filtered. induction Hs as [| o orders Hs IH Ho]; intros seen filtered;
    cbn [retain_latest].
  { split_and!; [constructor | done | constructor | by intros ? ? ?%not_elem_of_nil |].
    by intros ? ?%not_elem_of_nil. }
  rewrite Forall_forall in Ho.
  assert (Hkeep : forall seen', (forall key, key ∈ seen' -> key ∈ seen \/ replacement_key (owt_order o) = Some key) ->
    (forall key, replacement_key (owt_order o) = Some key -> key ∈ seen') -> seen ⊆ seen' ->
    (forall key, replacement_key (owt_order o) = Some key -> key ∈ seen -> owt_id o ∈ included) ->
    let '(kept, filtered') := retain_latest included seen' orders filtered in
    sublist (o :: kept) (o :: orders) /\ (forall id, is_Some (filtered !! id) -> is_Some (filtered' !! id)) /\
    StronglySorted (distinct_keys included) (o :: kept) /\
    (forall o1 key, o1 ∈ o :: kept -> replacement_key (owt_order o1) = Some key -> key ∈ seen -> owt_id o1 ∈ included) /\
    forall o1, o1 ∈ o :: orders -> o1 ∈ o :: kept \/
      owt_id o1 ∉ included /\ is_Some (filtered' !! owt_id o1) /\
      exists key, replacement_key (owt_order o1) = Some key /\
        (key ∈ seen \/ exists o', o' ∈ o :: kept /\ replacement_key (owt_order o') = Some key /\ latest_first o' o1)).
  { intros seen' Hseen Hown Hsub Hinc. specialize (IH seen' filtered).
    destruct (retain_latest included seen' orders filtered) as [kept f].
    destruct IH as (I1 & I2 & I3 & I4 & I5). split_and!; [by constructor | done | | |].
    - apply SSorted_cons; [done |]. apply Forall_forall. intros b Hb Hn He.
      destruct (replacement_key (owt_order o)) as [key |] eqn:Ek; [| done].
      apply (I4 b key); [done | done | by apply Hown].
    - intros o1 key [-> | Hk]%elem_of_cons Hkey Hin; [by eapply Hinc | eapply I4; [done | done |]].
      by apply Hsub.
    - intros o1 [-> | H1]%elem_of_cons; [left; left |]. destruct (I5 o1 H1) as [Hk | (N & F & key & E & W)].
      + left. by right.
      + right. split_and!; [done | done |]. exists key. split; [done |].
        destruct W as [Hin | (o' & Ho' & E' & L)].
        * destruct (Hseen key Hin) as [? | Hko]; [by left |]. right. exists o.
          split_and!; [left | done | by apply Ho].
        * right. exists o'. split_and!; [by right | done | done]. }
  destruct (replacement_key (owt_order o)) as [key |] eqn:Ek.
  - destruct (if decide (owt_id o ∈ included) then false else bool_decide (key ∈ seen)) eqn:Eskip.
    + case_decide as Hin; [done |]. rewrite bool_decide_eq_true in Eskip.
      specialize (IH seen (<[owt_id o := Filtered_Replaced]> filtered)).
      destruct (retain_latest included seen orders _) as [kept f]. destruct IH as (I1 & I2 & I3 & I4 & I5).
      split_and!; [by constructor | | done | done |].
      * intros id Hid. apply I2. rewrite lookup_insert_is_Some. destruct (decide (owt_id o = id)); auto.
      * intros o1 [-> | H1]%elem_of_cons; [right | by apply I5].
        split_and!; [done | apply I2; rewrite lookup_insert_eq; by eauto |]. exists key. auto.
    + specialize (Hkeep (key :: seen)). destruct (retain_latest included (key :: seen) orders filtered).
      apply Hkeep.
      * intros k [-> | ?]%elem_of_cons; auto.
      * intros k [= <-]. left.
      * intros k Hk. by right.
      * intros k [= <-] Hk. case_decide; [done |]. by apply bool_decide_eq_false in Eskip.
  - specialize (Hkeep seen). destruct (retain_latest included seen orders filtered).
    apply Hkeep; [by left | done | done | done].
Qed.

#[export] Instance latest_first_trans : Transitive latest_first.
Proof. intros a b c. apply (cmp_trans _ latest_cmp_ok). Qed.

#[export] Instance latest_first_total : Total latest_first.
Proof.
  intros a b. unfold latest_first. rewrite (cmp_antisym _ latest_cmp_ok a b).
  destruct (latest_cmp a b); [left | left | right]; done.
Qed.

Lemma latest_first_timestamp a b : latest_first a b -> owt_timestamp_ms b <= owt_timestamp_ms a.
Proof.
  unfold latest_first, latest_cmp. intros H. destruct (Z.compare_spec (owt_timestamp_ms b) (owt_timestamp_ms a)); [lia.. | done].
Qed.

(** Filtering the orders of a historical block by a final time leaves the latest
    first, orders that arrived in time or were included, and of the orders
    with one replacement key that were not included only the latest; every
    dropped order is noted, was not included, and was late or has a kept
    order of the same key that is no older. *)
Theorem end_timestamp_filter (d : BlockData) (t : U64) :
  let d' := filter_orders_by_end_timestamp_ms d t in
  StronglySorted latest_first (bd_available_orders d') /\
  StronglySorted (distinct_keys (included_orders d)) (bd_available_orders d') /\
  (forall o, o ∈ bd_available_orders d' ->
     o ∈ bd_available_orders d /\ (owt_id o ∈ included_orders d \/ owt_timestamp_ms o <= t)) /\
  forall o, o ∈ bd_available_orders d -> o ∈ bd_available_orders d' \/
    owt_id o ∉ included_orders d /\ is_Some (bd_filtered_orders d' !! owt_id o) /\
    (t < owt_timestamp_ms o \/
     exists o', o' ∈ bd_available_orders d' /\ owt_timestamp_ms o <= owt_timestamp_ms o' /\
       replacement_key (owt_order o) <> None /\
       replacement_key (owt_order o') = replacement_key (owt_order o)).
Proof.
  unfold filter_orders_by_end_timestamp_ms.
  pose proof (retain_kept (late d t) (bd_available_orders d) (bd_filtered_orders d)) as Hk.
  pose proof (retain_filtered (late d t) (bd_available_orders d) (bd_filtered_orders d)) as Hf.
  destruct (retain _ _ _) as [orders f]. cbn [fst snd] in Hk, Hf.
  assert (Hsort : StronglySorted latest_first (merge_sort latest_first orders))
    by (apply StronglySorted_merge_sort; apply _).
  pose proof (retain_latest_spec (included_orders d) [] _ f Hsort) as Hr.
  destruct (retain_latest _ _ _ f) as [kept f']. destruct Hr as (R1 & R2 & R3 & _ & R5).
  cbn [bd_available_orders bd_filtered_orders set_available].
  assert (Hin : forall o, o ∈ merge_sort latest_first orders <->
            late d t o = None /\ o ∈ bd_available_orders d).
  { intros o. by rewrite merge_sort_Permutation, Hk, list_elem_of_filter. }
  assert (Hlate : forall o, late d t o = None <->
            owt_id o ∈ included_orders d \/ owt_timestamp_ms o <= t).
  { intros o. unfold late. repeat case_decide; naive_solver. }
  split_and!; [by eapply StronglySorted_sublist | done | |].
  - intros o Ho. apply (elem_of_sublist _ _ _ Ho), Hin in R1 as [Hl Ho']. by rewrite Hlate in Hl.
  - intros o Ho. destruct (late d t o) as [r |] eqn:El.
    + right. assert (~ (owt_id o ∈ included_orders d \/ owt_timestamp_ms o <= t)) as Hn
        by (rewrite <- Hlate; congruence).
      split_and!; [tauto | | left; lia]. apply R2, Hf. right. exists o. rewrite El. eauto.
    + destruct (R5 o) as [Hkept | (N & F & key & E & W)]; [by apply Hin | by left | right].
      split_and!; [done | done | right]. destruct W as [W | (o' & Ho' & E' & L)].
      { by apply not_elem_of_nil in W. }
      exists o'. split_and!; [done | by apply latest_first_timestamp | congruence | congruence].
Qed.
