(* ===== verification/BacktestExecute.v ===== *)
(** * Simulating a historical block (backtest/execute.rs)

    The available orders are simulated, share bundles merged, and every builder
    builds a block.  What simulates orders and what the configured algorithms build
    are parameters, like the provider of state behind them. *)

From S2P Require Import Prelude Transactions Bundles Orders SimTypes World OrderCommit PartialBlock BlockHelper ShareBundleMerger BacktestData.

(** ** Fallible code that may panic

    [None] is a panic, [Some (Err e)] an error report. *)
Notation Eyre A := (option (result A string)).

Definition eyre_bind {A B} (m : Eyre A) (f : A -> Eyre B) : Eyre B :=
  match m with
  | Some (Ok a) => f a
  | Some (Err e) => Some (Err e)
  | None => None
  end.

Notation "'let+' x ':=' c1 'in' c2" := (eyre_bind c1 (fun x => c2))
  (at level 10, x pattern, c1 at level 200, c2 at level 200) : rust_scope.

(** [expect] and [unwrap]: a missing value panics. *)
Definition expect {A} (o : option A) : Eyre A := Ok <$> o.

Fixpoint eyre_mapM {A B} (f : A -> Eyre B) (l : list A) : Eyre (list B) :=
  match l with
  | [] => Some (Ok [])
  | a :: l =>
      let+ b := f a in
      let+ bs := eyre_mapM f l in
      Some (Ok (b :: bs))
  end.

(** ** Outputs *)
Record BacktestBuilderOutput := {
  bo_orders_included : nat;
  bo_builder_name : string;
  our_bid_value : U256;
  bo_included_orders : list OrderId;
  bo_included_order_profits : list U256;
}.

Record BlockBacktestValue := {
  bv_block_number : U64;
  bv_winning_bid_value : U256;
  bv_simulated_orders_count : nat;
  bv_simulated_total_gas : U64;
  bv_filtered_orders_blocklist_count : nat;
  bv_simulated_orders_with_refund : nat;
  bv_simulated_refunds_paid : U256;
  bv_extra_data : string;
  builder_outputs : list BacktestBuilderOutput;
}.

Record BacktestBlockInput := {
  bi_sim_orders : list SimulatedOrder;
  bi_sim_errors : list OrderErr;
}.

Section backtest.
Context `{!BundleHashing, !HashOrder OrderId}.
Context (simulate_all_orders_with_sim_tree : list Order -> Eyre (list SimulatedOrder * list OrderErr)).
Context (build_backtest_block : string -> list SimulatedOrder -> Eyre BuiltBlockTrace).
Context (clean_extradata : list Z -> string).

Definition backtest_prepare_orders_from_building_context (available_orders : list OrdersWithTimestamp)
    (sbundle_mergeable_signers : list Address) : Eyre BacktestBlockInput :=
  let orders := owt_order <$> available_orders in
  let+ (sim_orders, sim_errors) := simulate_all_orders_with_sim_tree orders in
  let sim_orders := backtest_merge_orders sbundle_mergeable_signers sim_orders in
  Some (Ok {| bi_sim_orders := sim_orders; bi_sim_errors := sim_errors |}).

Definition blocklisted (err : OrderErr) : bool :=
  match err with
  | OrderErr_Transaction TxErr_Blocklist => true
  | OrderErr_Bundle (BundleErr_InvalidTransaction _ TxErr_Blocklist) => true
  | _ => false
  end.

(** The orders that paid kickbacks, and how much. *)
Definition count_refunds (sim_orders : list SimulatedOrder) : nat * U256 :=
  foldl (fun '(count, amount) sim =>
           if decide (paid_kickbacks (so_sim_value sim) = []) then (count, amount)
           else (S count, u256_add amount (foldl u256_add 0 (snd <$> paid_kickbacks (so_sim_value sim)))))
        (0%nat, 0) sim_orders.

Definition builder_output (name : string) (trace : BuiltBlockTrace) : BacktestBuilderOutput :=
  {| bo_orders_included := length (bt_included_orders trace);
     bo_builder_name := name;
     our_bid_value := bt_bid_value trace;
     bo_included_orders := (fun o => Order_id (er_order o)) <$> bt_included_orders trace;
     bo_included_order_profits := er_coinbase_profit <$> bt_included_orders trace |}.

Definition backtest_simulate_block_with_context (block_data : BlockData) (builders_names : list string)
    (sbundle_mergeable_signers : list Address) : Eyre BlockBacktestValue :=
  let+ input := backtest_prepare_orders_from_building_context (bd_available_orders block_data)
                  sbundle_mergeable_signers in
  let sim_orders := bi_sim_orders input in
  let '(with_refund, refunds_paid) := count_refunds sim_orders in
  let+ outputs := eyre_mapM (fun name =>
    let+ trace := build_backtest_block name sim_orders in
    Some (Ok (builder_output name trace))) builders_names in
  Some (Ok {| bv_block_number := bd_block_number block_data;
              bv_winning_bid_value := wb_value (bd_winning_bid_trace block_data);
              bv_simulated_orders_count := length sim_orders;
              bv_simulated_total_gas := foldl u64_add 0 ((fun o => sim_gas_used (so_sim_value o)) <$> sim_orders);
              bv_filtered_orders_blocklist_count :=
                length (filter (fun err => blocklisted err = true) (bi_sim_errors input));
              bv_simulated_orders_with_refund := with_refund;
              bv_simulated_refunds_paid := refunds_paid;
              bv_extra_data := clean_extradata (ob_extra_data (bd_onchain_block block_data));
              builder_outputs := outputs |}).
End backtest.
