(* ===== verification/LandedOrders.v ===== *)
(** * Finding orders in a landed block (backtest/restore_landed_orders/find_landed_orders.rs)

    The transactions of a block are matched with the orders they may come from;
    what a transaction earned counts for an order, and is unique to it when no
    other order has it. *)

From stdpp Require Import sorting.
From S2P Require Import Prelude Transactions Bundles Orders OrderPriority World.

Record OrderTxData := {
  ot_hash : B256;
  ot_revert : TxRevertBehavior;
  ot_kickback_percent : Z;
}.

Record SimplifiedOrder := { sp_id : OrderId; sp_txs : list OrderTxData }.

Definition multiply_inner_refunds (a b : Z) : Z :=
  if decide (a > 100 \/ b > 100) then 0 else 100 - ((100 - a) * (100 - b)) `div` 100.

(** ** Share bundles as lists of transactions *)

(** An element of a body: a transaction, or the transactions of a sub bundle. *)
Definition BodyTxs : Type := (B256 * TxRevertBehavior) + list OrderTxData.

Record ChunkState := {
  cs_accumulated_txs : list OrderTxData;
  cs_prev_element_paid_refund : bool;
  cs_current_chunk_txs : list (B256 * TxRevertBehavior);
}.

Definition chunk_refund_percent (total_refund_percent : Z) (prev_element_paid_refund : bool) : Z :=
  if prev_element_paid_refund then total_refund_percent else 0.

Definition release_chunk (s : ChunkState) (kickback_percent : Z) : ChunkState :=
  {| cs_accumulated_txs := cs_accumulated_txs s ++
       ((fun '(hash, revert) => {| ot_hash := hash; ot_revert := revert;
                                   ot_kickback_percent := kickback_percent |})
          <$> cs_current_chunk_txs s);
     cs_prev_element_paid_refund := cs_prev_element_paid_refund s;
     cs_current_chunk_txs := [] |}.

Definition chunk_element (refund : list Refund) (total_refund_percent : Z) (s : ChunkState)
    (idx : nat) (body : BodyTxs) : ChunkState :=
  let current_element_pays_refund := negb (existsb (fun r => body_idx r =? idx)%nat refund) in
  let s := if eqb (cs_prev_element_paid_refund s) current_element_pays_refund then s
           else
             let s := release_chunk s (chunk_refund_percent total_refund_percent
                                         (cs_prev_element_paid_refund s)) in
             {| cs_accumulated_txs := cs_accumulated_txs s;
                cs_prev_element_paid_refund := current_element_pays_refund;
                cs_current_chunk_txs := cs_current_chunk_txs s |} in
  match body with
  | inl tx => {| cs_accumulated_txs := cs_accumulated_txs s;
                 cs_prev_element_paid_refund := cs_prev_element_paid_refund s;
                 cs_current_chunk_txs := cs_current_chunk_txs s ++ [tx] |}
  | inr inner_txs =>
      let percent := chunk_refund_percent total_refund_percent (cs_prev_element_paid_refund s) in
      let s := release_chunk s percent in
      let inner_txs :=
        if current_element_pays_refund
        then (fun tx => {| ot_hash := ot_hash tx; ot_revert := ot_revert tx;
                           ot_kickback_percent := multiply_inner_refunds (ot_kickback_percent tx) percent |})
               <$> inner_txs
        else inner_txs in
      {| cs_accumulated_txs := cs_accumulated_txs s ++ inner_txs;
         cs_prev_element_paid_refund := cs_prev_element_paid_refund s;
         cs_current_chunk_txs := cs_current_chunk_txs s |}
  end.

Fixpoint chunk_loop (refund : list Refund) (total_refund_percent : Z) (s : ChunkState)
    (idx : nat) (bodies : list BodyTxs) : ChunkState :=
  match bodies with
  | [] => s
  | body :: bodies =>
      chunk_loop refund total_refund_percent (chunk_element refund total_refund_percent s idx body)
        (S idx) bodies
  end.

Fixpoint order_txs_from_inner_share_bundle (inner : ShareBundleInner) : list OrderTxData :=
  let '(mk_ShareBundleInner body refund _ _ _) := inner in
  let total_refund_percent := foldl (fun acc r => u64_add acc (refund_percent r)) 0 refund in
  let bodies : list BodyTxs :=
    map (fun e => match e with
                  | Body_Tx tx => inl (tx_hash (sbt_tx tx), revert_behavior tx)
                  | Body_Bundle inner_bundle => inr (order_txs_from_inner_share_bundle inner_bundle)
                  end) body in
  let s := chunk_loop refund total_refund_percent
             {| cs_accumulated_txs := []; cs_prev_element_paid_refund := false;
                cs_current_chunk_txs := [] |} 0 bodies in
  cs_accumulated_txs (release_chunk s (chunk_refund_percent total_refund_percent
                                         (cs_prev_element_paid_refund s))).

Definition new_from_order (order : Order) : SimplifiedOrder :=
  {| sp_id := Order_id order;
     sp_txs := match order with
               | Order_Tx tx => [{| ot_hash := tx_hash (tx_with_blobs tx);
                                    ot_revert := AllowedIncluded; ot_kickback_percent := 0 |}]
               | Order_Bundle bundle =>
                   (fun '(tx, revert) =>
                      {| ot_hash := tx_hash tx; ot_revert := revert;
                         ot_kickback_percent :=
                           match b_refund bundle with
                           | Some refund => if decide (tx_hash tx = br_tx_hash refund)
                                            then br_percent refund else 0
                           | None => 0
                           end |}) <$> Order_list_txs_revert order
               | Order_ShareBundle bundle =>
                   order_txs_from_inner_share_bundle (sb_inner_bundle bundle)
               end |}.

(** ** The block *)
Record ExecutedBlockTx := { eb_hash : B256; eb_coinbase_profit : Z; eb_success : bool }.

Inductive OrderIdentificationError :=
| TxNotFound (hash : B256)
| TxReverted (hash : B256)
| TxIsIncorrectPosition (hash : B256)
| NoOrderTxs.

Record LandedOrderData := {
  lo_order : OrderId;
  lo_total_coinbase_profit : Z;
  lo_unique_coinbase_profit : Z;
  lo_error : option OrderIdentificationError;
  lo_overlapping_txs : list (OrderId * B256);
  lo_tx_hashes : list B256;
}.

Record ExecutedBlockData := {
  ed_block_txs : list ExecutedBlockTx;
  ed_txs_by_hash : gmap B256 nat;
}.

Definition index_txs (txs : list ExecutedBlockTx) : gmap B256 nat :=
  foldl (fun m '(idx, tx) => <[eb_hash tx := idx]> m) ∅ (imap pair txs).

Definition new_from_txs (txs : list ExecutedBlockTx) : ExecutedBlockData :=
  {| ed_block_txs := txs; ed_txs_by_hash := index_txs txs |}.

Definition find_tx (d : ExecutedBlockData) (hash : B256) : option (nat * ExecutedBlockTx) :=
  let! idx := ed_txs_by_hash d !! hash in
  let! tx := ed_block_txs d !! idx in
  Some (idx, tx).

Definition tx_coinbase_profit (d : ExecutedBlockData) (hash : B256) : option Z :=
  (fun '(_, tx) => eb_coinbase_profit tx) <$> find_tx d hash.

(** ** One order *)
Record FoundTxData := {
  ft_block_idx : nat;
  ft_order_idx : nat;
  ft_tx : OrderTxData;
  ft_executed_block_tx : ExecutedBlockTx;
}.

Fixpoint locate_txs (d : ExecutedBlockData) (order_idx : nat) (txs : list OrderTxData)
  : result (list FoundTxData) OrderIdentificationError :=
  match txs with
  | [] => Ok []
  | tx :: txs =>
      match find_tx d (ot_hash tx) with
      | Some (block_idx, tx_data) =>
          let? rest := locate_txs d (S order_idx) txs in
          Ok ({| ft_block_idx := block_idx; ft_order_idx := order_idx; ft_tx := tx;
                 ft_executed_block_tx := tx_data |} :: rest)
      | None =>
          if can_revert (ot_revert tx) then locate_txs d (S order_idx) txs
          else Err (TxNotFound (ot_hash tx))
      end
  end.

(** The positions of the transactions that must be in the block, which have to be in
    order. *)
Fixpoint place_mandatory (last_block_idx : nat) (locations : list (option nat))
    (found : list FoundTxData) : result (list (option nat)) OrderIdentificationError :=
  match found with
  | [] => Ok locations
  | f :: found =>
      if can_revert (ot_revert (ft_tx f)) then place_mandatory last_block_idx locations found
      else if (ft_block_idx f <? last_block_idx)%nat then Err (TxIsIncorrectPosition (ot_hash (ft_tx f)))
      else place_mandatory (ft_block_idx f) (<[ft_order_idx f := Some (ft_block_idx f)]> locations) found
  end.

(** The first position known from an index on. *)
Fixpoint first_some (l : list (option nat)) : option nat :=
  match l with
  | [] => None
  | Some x :: _ => Some x
  | None :: l => first_some l
  end.

Definition find_allowed_range (block_len chunk_idx : nat) (chunk_txs_block_idx : list (option nat))
  : nat * nat :=
  let upper_bound := first_some (drop chunk_idx chunk_txs_block_idx) in
  let lower_bound := S <$> first_some (reverse (take chunk_idx chunk_txs_block_idx)) in
  (default 0%nat lower_bound, default block_len upper_bound).

(** The transactions that may be missing are taken where they fit between the
    others. *)
Fixpoint place_optional (block_len : nat) (locations : list (option nat)) (found : list FoundTxData)
  : list FoundTxData :=
  match found with
  | [] => []
  | f :: found =>
      match locations !! ft_order_idx f with
      | Some (Some _) => f :: place_optional block_len locations found
      | _ =>
          let '(lower, upper) := find_allowed_range block_len (ft_order_idx f) locations in
          if decide (lower <= ft_block_idx f < upper)%nat
          then f :: place_optional block_len (<[ft_order_idx f := Some (ft_block_idx f)]> locations) found
          else place_optional block_len locations found
      end
  end.

Fixpoint check_success (found : list FoundTxData) : result unit OrderIdentificationError :=
  match found with
  | [] => Ok tt
  | f :: found =>
      if negb (eb_success (ft_executed_block_tx f)) && negb (can_revert (ot_revert (ft_tx f)))
      then Err (TxReverted (ot_hash (ft_tx f)))
      else check_success found
  end.

Definition order_idx_le (a b : FoundTxData) : Prop := (ft_order_idx a <= ft_order_idx b)%nat.
#[export] Instance order_idx_le_dec : RelDecision order_idx_le.
Proof. intros a b. unfold order_idx_le. apply _. Defined.

Definition find_landed_order_data (d : ExecutedBlockData) (order : SimplifiedOrder)
  : result (list (B256 * Z)) OrderIdentificationError :=
  let? found := locate_txs d 0 (sp_txs order) in
  let found := merge_sort order_idx_le found in
  let? locations := place_mandatory 0 (replicate (length (sp_txs order)) None) found in
  let landed := place_optional (length (ed_block_txs d)) locations found in
  let? _ := check_success landed in
  Ok ((fun f => (ot_hash (ft_tx f), ot_kickback_percent (ft_tx f))) <$> landed).

(** ** All orders *)
Definition LandedOrderData_new (order : OrderId) (error : option OrderIdentificationError)
  : LandedOrderData :=
  {| lo_order := order; lo_total_coinbase_profit := 0; lo_unique_coinbase_profit := 0;
     lo_error := error; lo_overlapping_txs := []; lo_tx_hashes := [] |}.

Notation LandedMap := (gmap OrderId LandedOrderData).
Notation ClaimMap := (gmap B256 (list (OrderId * Z))).

(** The first loop: what each order claims, or why it did not land. *)
Definition claim_txs (order : OrderId) (claims : ClaimMap) (landed : list (B256 * Z)) : ClaimMap :=
  foldl (fun m '(tx, kickback) => <[tx := default [] (m !! tx) ++ [(order, kickback)]]> m) claims landed.

Fixpoint claim_orders (d : ExecutedBlockData) (orders : list SimplifiedOrder) (result : LandedMap)
    (claims : ClaimMap) : LandedMap * ClaimMap :=
  match orders with
  | [] => (result, claims)
  | order :: orders =>
      match find_landed_order_data d order with
      | Ok landed => claim_orders d orders result (claim_txs (sp_id order) claims landed)
      | Err e =>
          claim_orders d orders (<[sp_id order := LandedOrderData_new (sp_id order) (Some e)]> result) claims
      end
  end.

(** What of the profit of a transaction is left after a kickback. *)
Definition net_profit (profit kickback : Z) : Z :=
  if decide (kickback = 0) then profit
  else
    let profit : U256 := if decide (0 <= profit) then profit else 0 in
    default 0 (i256_try_from (default 0 (checked_sub profit (get_percent profit kickback)))).

(** One claim on a transaction. *)
Definition credit (tx : B256) (profit : Z) (orders : list (OrderId * Z)) (result : LandedMap)
    (claim : OrderId * Z) : LandedMap :=
  let '(order, kickback) := claim in
  let entry := default (LandedOrderData_new order None) (result !! order) in
  let profit := net_profit profit kickback in
  let total := i256_add (lo_total_coinbase_profit entry) profit in
  let unique := if (length orders =? 1)%nat then i256_add (lo_unique_coinbase_profit entry) profit
                else lo_unique_coinbase_profit entry in
  let overlapping := if (length orders =? 1)%nat then lo_overlapping_txs entry
                     else (fun '(o, _) => (o, tx)) <$> filter (fun '(o, _) => o <> order) orders in
  <[order := {| lo_order := lo_order entry; lo_total_coinbase_profit := total;
                lo_unique_coinbase_profit := unique; lo_error := lo_error entry;
                lo_overlapping_txs := overlapping; lo_tx_hashes := lo_tx_hashes entry ++ [tx] |}]> result.

(** [None] is the panic of [unwrap]. *)
Fixpoint credit_txs (d : ExecutedBlockData) (claims : ClaimMap) (txs : list B256) (result : LandedMap)
  : option LandedMap :=
  match txs with
  | [] => Some result
  | tx :: txs =>
      let! profit := tx_coinbase_profit d tx in
      let orders := default [] (claims !! tx) in
      credit_txs d claims txs (foldl (credit tx profit orders) result orders)
  end.

Definition overlap_le (a b : OrderId * B256) : Prop := OrderId_cmp a.1 b.1 <> Gt.
#[export] Instance overlap_le_dec : RelDecision overlap_le.
Proof. intros a b. unfold overlap_le. apply _. Defined.

Definition index_le (a b : B256 * nat) : Prop := (a.2 <= b.2)%nat.
#[export] Instance index_le_dec : RelDecision index_le.
Proof. intros a b. unfold index_le. apply _. Defined.

(** The last loop; [None] is a transaction without an index. *)
Definition sort_landed (tx_to_index : gmap B256 nat) (e : LandedOrderData) : option LandedOrderData :=
  let! indexed := mapM (fun tx => (tx,.) <$> tx_to_index !! tx) (lo_tx_hashes e) in
  Some {| lo_order := lo_order e; lo_total_coinbase_profit := lo_total_coinbase_profit e;
          lo_unique_coinbase_profit := lo_unique_coinbase_profit e; lo_error := lo_error e;
          lo_overlapping_txs := merge_sort overlap_le (lo_overlapping_txs e);
          lo_tx_hashes := fst <$> merge_sort index_le indexed |}.

Definition sort_all (tx_to_index : gmap B256 nat) (result : LandedMap) : option LandedMap :=
  list_to_map <$> mapM (fun '(id, e) => (id,.) <$> sort_landed tx_to_index e) (map_to_list result).

Definition restore_landed_orders `{!HashOrder B256} (block_txs : list ExecutedBlockTx)
    (orders : list SimplifiedOrder) : option LandedMap :=
  let d := new_from_txs block_txs in
  let '(result, claims) := claim_orders d orders ∅ ∅ in
  let! result := credit_txs d claims (hash_order (dom claims)) result in
  sort_all (index_txs block_txs) result.
