(* ===== verification/LandedOrdersSpec.v ===== *)
(** * What finding orders in a block shows

    A landed order is found with all transactions it must have, successful and in
    the order of the bundle. *)

From stdpp Require Import sorting.
From S2P Require Import Prelude Transactions Bundles Orders World LandedOrders.

(** ** The index of a block *)
Lemma index_txs_lookup txs hash i : index_txs txs !! hash = Some i ->
  exists tx, txs !! i = Some tx /\ eb_hash tx = hash.
Proof.
  unfold index_txs. induction txs as [| tx txs IH] using rev_ind; [done |].
  rewrite imap_app, foldl_app. cbn. rewrite lookup_insert_Some.
  intros [[<- <-] | [Hne Hi]].
  - exists tx. split; [| done]. apply list_lookup_middle. lia.
  - destruct (IH Hi) as (tx' & Ht & Hh). exists tx'. split; [by apply lookup_app_l_Some | done].
Qed.

Lemma index_txs_is_Some txs tx : tx ∈ txs -> is_Some (index_txs txs !! eb_hash tx).
Proof.
  unfold index_txs. induction txs as [| t txs IH] using rev_ind; [by intros ?%not_elem_of_nil |].
  rewrite imap_app, foldl_app. cbn. rewrite elem_of_app, list_elem_of_singleton, lookup_insert_is_Some.
  intros [H | ->]; [| by left]. destruct (decide (eb_hash t = eb_hash tx)); [by left | right]. auto.
Qed.

Lemma find_tx_Some txs hash i tx : find_tx (new_from_txs txs) hash = Some (i, tx) ->
  txs !! i = Some tx /\ eb_hash tx = hash.
Proof.
  unfold find_tx. cbn [ed_txs_by_hash ed_block_txs new_from_txs].
  destruct (index_txs txs !! hash) as [j |] eqn:E; cbn [mbind option_bind]; [| done].
  destruct (index_txs_lookup _ _ _ E) as (t & Ht & Hh). rewrite Ht. cbn. intros [= <- <-]. done.
Qed.

(** ** Located transactions *)
Section located.
Context (txs : list ExecutedBlockTx) (otxs : list OrderTxData).

Definition located (f : FoundTxData) : Prop :=
  otxs !! ft_order_idx f = Some (ft_tx f) /\ txs !! ft_block_idx f = Some (ft_executed_block_tx f) /\
  eb_hash (ft_executed_block_tx f) = ot_hash (ft_tx f).

Definition order_idx_lt (a b : FoundTxData) : Prop := (ft_order_idx a < ft_order_idx b)%nat.

Lemma locate_txs_spec n l fs : drop n otxs = l -> locate_txs (new_from_txs txs) n l = Ok fs ->
  Forall (fun f => located f /\ (n <= ft_order_idx f)%nat) fs /\ StronglySorted order_idx_lt fs /\
  forall i tx, (n <= i)%nat -> otxs !! i = Some tx -> can_revert (ot_revert tx) = false ->
    exists f, f ∈ fs /\ ft_order_idx f = i.
Proof.
  revert n fs. induction l as [| tx l IH]; intros n fs Hd; cbn [locate_txs].
  - intros [= <-]. split_and!; [constructor | constructor |]. intros i tx Hi Htx.
    apply lookup_lt_Some in Htx. apply (f_equal length) in Hd. rewrite length_drop in Hd. simpl in Hd. lia.
  - assert (otxs !! n = Some tx) as Hn.
    { rewrite <- (Nat.add_0_r n), <- lookup_drop, Hd. done. }
    assert (drop (S n) otxs = l) as Hd'.
    { replace (S n) with (n + 1)%nat by lia. rewrite <- drop_drop, Hd. done. }
    destruct (find_tx (new_from_txs txs) (ot_hash tx)) as [[j t] |] eqn:E.
    + destruct (locate_txs (new_from_txs txs) (S n) l) as [rest | e] eqn:El; [| done].
      intros [= <-]. destruct (IH (S n) rest Hd' El) as (I1 & I2 & I3).
      destruct (find_tx_Some _ _ _ _ E) as [Ht Hh]. split_and!.
      * constructor; [done |]. eapply Forall_impl; [done |]. intros f [? ?]. split; [done | lia].
      * apply SSorted_cons; [done |]. eapply Forall_impl; [done |]. intros f [? ?].
        unfold order_idx_lt. simpl. lia.
      * intros i t' Hi Hti Hr. destruct (decide (i = n)) as [-> | Hne].
        -- eexists. split; [left |]. done.
        -- destruct (I3 i t') as (f & Hf & Hfi); [lia | done | done |]. exists f. split; [by right | done].
    + destruct (can_revert (ot_revert tx)) eqn:Er; [| done]. intros El.
      destruct (IH (S n) fs Hd' El) as (I1 & I2 & I3). split_and!; [| done |].
      * eapply Forall_impl; [done |]. intros f [? ?]. split; [done | lia].
      * intros i t' Hi Hti Hr. destruct (decide (i = n)) as [-> | Hne]; [congruence |].
        apply (I3 i t'); [lia | done | done].
Qed.

(** They are sorted already. *)
Lemma merge_sort_located fs : StronglySorted order_idx_lt fs -> merge_sort order_idx_le fs = fs.
Proof.
  intros Hs. assert (StronglySorted order_idx_le fs) as Hs'.
  { clear -Hs. induction Hs as [| f fs Hs IH Hf]; constructor; [done |].
    eapply Forall_impl; [done |]. unfold order_idx_lt, order_idx_le. lia. }
  assert (Transitive order_idx_le) by (intros a b c; unfold order_idx_le; lia).
  assert (Total order_idx_le) by (intros a b; unfold order_idx_le; lia).
  eapply (StronglySorted_unique_strong order_idx_le); [| by apply StronglySorted_merge_sort | done |
    apply merge_sort_Permutation].
  intros a b Ha Hb Hab Hba. rewrite merge_sort_Permutation in Ha. clear -Hs Ha Hb Hab Hba.
  unfold order_idx_le in *. induction Hs as [| f fs Hs IH Hf]; [by apply not_elem_of_nil in Ha |].
  rewrite Forall_forall in Hf. unfold order_idx_lt in Hf.
  apply elem_of_cons in Ha as [-> | Ha], Hb as [-> | Hb]; [done | | | by apply IH].
  - specialize (Hf b Hb). lia.
  - specialize (Hf a Ha). lia.
Qed.

(** ** Positions *)

(** Known positions grow with the index. *)
Definition mono (locs : list (option nat)) : Prop := forall i j a b, (i < j)%nat ->
  locs !! i = Some (Some a) -> locs !! j = Some (Some b) -> (a <= b)%nat.

Lemma first_some_Some l a : first_some l = Some a -> exists i, l !! i = Some (Some a) /\
  forall j, (j < i)%nat -> l !! j = Some None.
Proof.
  induction l as [| [x |] l IH]; simpl; [done | |].
  - intros [= ->]. exists 0%nat. split; [done | lia].
  - intros H. destruct (IH H) as (i & Hi & Hn). exists (S i). split; [done |].
    intros [| j] Hj; [done |]. apply Hn. lia.
Qed.

Lemma first_some_None l : first_some l = None -> forall i a, l !! i <> Some (Some a).
Proof. induction l as [| [x |] l IH]; simpl; [done | done |]. intros H [| i] a; [done | by apply IH]. Qed.

(** The last known position is above all known ones. *)
Lemma last_some_bound l i a : mono l -> l !! i = Some (Some a) ->
  exists b, first_some (reverse l) = Some b /\ (a <= b)%nat.
Proof.
  revert i a. induction l as [| x l IH] using rev_ind; intros i a Hm Hi; [done |].
  rewrite reverse_snoc. destruct x as [b |]; cbn [first_some].
  - exists b. split; [done |]. destruct (decide (i = length l)) as [-> | Hne].
    + rewrite list_lookup_middle in Hi by done. by simplify_eq.
    + apply (Hm i (length l)); [| done | by rewrite list_lookup_middle].
      apply lookup_lt_Some in Hi. rewrite length_app in Hi. simpl in Hi. lia.
  - apply (IH i).
    + intros i' j' x y Hlt Hx Hy. apply (Hm i' j'); [done | by apply lookup_app_l_Some | by apply lookup_app_l_Some].
    + apply lookup_app_Some in Hi as [Hi | [_ Hi]]; [done |].
      by apply list_lookup_singleton_Some in Hi as [_ ?].
Qed.

(** The first known position is below all known ones. *)
Lemma first_some_bound l i a : mono l -> l !! i = Some (Some a) ->
  exists b, first_some l = Some b /\ (b <= a)%nat.
Proof.
  intros Hm Hi. destruct (first_some l) as [b |] eqn:E; [| by eapply first_some_None in E].
  exists b. split; [done |]. apply first_some_Some in E as (j & Hj & Hn).
  destruct (Nat.lt_trichotomy i j) as [Hlt | [-> | Hgt]]; [| by simplify_eq | by apply (Hm j i)].
  rewrite (Hn i Hlt) in Hi. done.
Qed.

(** What is in the allowed range fits. *)
Lemma find_allowed_range_fits n k v locs lower upper : mono locs ->
  find_allowed_range n k locs = (lower, upper) -> (lower <= v < upper)%nat ->
  mono (<[k := Some v]> locs).
Proof.
  intros Hm Hr Hv. unfold find_allowed_range in Hr. injection Hr as <- <-.
  assert (Hlo : forall i a, (i < k)%nat -> locs !! i = Some (Some a) -> (a < v)%nat).
  { intros i a Hi Ha. destruct (last_some_bound (take k locs) i a) as (b & Hb & Hab).
    - intros i' j' x y Hlt Hx Hy. apply lookup_take_Some in Hx as [Hx _], Hy as [Hy _]. by apply (Hm i' j').
    - by apply lookup_take_Some.
    - rewrite Hb in Hv. cbn in Hv. lia. }
  assert (Hhi : forall i a, (k < i)%nat -> locs !! i = Some (Some a) -> (v < a)%nat).
  { intros i a Hi Ha. destruct (first_some_bound (drop k locs) (i - k) a) as (b & Hb & Hab).
    - intros i' j' x y Hlt. rewrite !lookup_drop. apply Hm. lia.
    - rewrite lookup_drop. by replace (k + (i - k))%nat with i by lia.
    - rewrite Hb in Hv. cbn in Hv. lia. }
  intros i j a b Hlt Ha Hb. apply list_lookup_insert_Some in Ha, Hb.
  destruct Ha as [(-> & [= ->] & _) | [Hi Ha]], Hb as [(-> & [= ->] & _) | [Hj Hb]]; [lia | | |].
  - apply Nat.lt_le_incl. by eapply Hhi.
  - apply Nat.lt_le_incl. by eapply Hlo.
  - by apply (Hm i j).
Qed.

(** The transactions that must be there are placed in order. *)
Lemma place_mandatory_spec last locs fs locs' :
  StronglySorted order_idx_lt fs -> mono locs ->
  (forall i a, locs !! i = Some (Some a) -> (a <= last)%nat /\ Forall (fun f => (i < ft_order_idx f)%nat) fs) ->
  Forall (fun f => (ft_order_idx f < length locs)%nat) fs ->
  place_mandatory last locs fs = Ok locs' ->
  mono locs' /\ length locs' = length locs /\
  (forall i, (forall f, f ∈ fs -> ft_order_idx f <> i) -> locs' !! i = locs !! i) /\
  forall f, f ∈ fs -> locs' !! ft_order_idx f
    = if can_revert (ot_revert (ft_tx f)) then locs !! ft_order_idx f else Some (Some (ft_block_idx f)).
Proof.
  intros Hs. revert last locs. induction Hs as [| f fs Hs IH Hf]; intros last locs Hm Hlast Hlen;
    cbn [place_mandatory].
  { intros [= <-]. split_and!; [done | done | done |]. by intros f ?%not_elem_of_nil. }
  apply Forall_cons in Hlen as [Hlenf Hlen].
  assert (Hneq : forall g, g ∈ fs -> ft_order_idx g <> ft_order_idx f).
  { intros g Hg. rewrite Forall_forall in Hf. specialize (Hf g Hg). unfold order_idx_lt in Hf. lia. }
  destruct (can_revert (ot_revert (ft_tx f))) eqn:Er.
  - intros Hp. destruct (IH last locs) as (J1 & J2 & J3 & J4); [done | | done | done |].
    { intros i a Hi. destruct (Hlast i a Hi) as [? Hall]. by apply Forall_cons in Hall as [_ Hall]. }
    split_and!; [done | done | |].
    + intros i Hi. apply J3. intros g Hg. apply Hi. by right.
    + intros g [-> | Hg]%elem_of_cons; [| by apply J4]. rewrite Er. apply J3, Hneq.
  - destruct (Nat.ltb_spec (ft_block_idx f) last) as [Hlt | Hge]; [done |]. intros Hp.
    destruct (IH (ft_block_idx f) (<[ft_order_idx f := Some (ft_block_idx f)]> locs))
      as (J1 & J2 & J3 & J4); [| | by rewrite length_insert | done |].
    + intros i j a b Hij Ha Hb. apply list_lookup_insert_Some in Ha, Hb.
      destruct Ha as [(<- & [= <-] & _) | [_ Ha]], Hb as [(<- & [= <-] & _) | [_ Hb]]; [lia | | |].
      * destruct (Hlast _ _ Hb) as [_ Hall]. apply Forall_cons in Hall as [? _]. lia.
      * destruct (Hlast _ _ Ha) as [? _]. lia.
      * by apply (Hm i j).
    + intros i a Hi. apply list_lookup_insert_Some in Hi as [(<- & [= <-] & _) | [_ Hi]]; [done |].
      destruct (Hlast i a Hi) as [? Hall]. apply Forall_cons in Hall as [_ Hall]. split; [lia | done].
    + rewrite length_insert in J2. split_and!; [done | done | |].
      * intros i Hi. rewrite J3 by (intros g Hg; apply Hi; by right).
        apply list_lookup_insert_ne. apply Hi. left.
      * intros g [-> | Hg]%elem_of_cons.
        -- rewrite J3 by apply Hneq. rewrite Er. by apply list_lookup_insert_eq.
        -- rewrite (J4 g Hg), list_lookup_insert_ne by (apply not_eq_sym, Hneq, Hg). done.
Qed.

(** The others are added where they fit: what is landed has positions that grow. *)
Lemma place_optional_spec n locs fs : mono locs ->
  StronglySorted order_idx_lt fs -> Forall (fun f => (ft_order_idx f < length locs)%nat) fs ->
  (forall f a, f ∈ fs -> locs !! ft_order_idx f = Some (Some a) -> a = ft_block_idx f) ->
  exists locs', mono locs' /\ (forall i a, locs !! i = Some (Some a) -> locs' !! i = Some (Some a)) /\
    sublist (place_optional n locs fs) fs /\
    (forall f, f ∈ place_optional n locs fs -> locs' !! ft_order_idx f = Some (Some (ft_block_idx f))) /\
    (forall f a, f ∈ fs -> locs !! ft_order_idx f = Some (Some a) -> f ∈ place_optional n locs fs).
Proof.
  intros Hm Hs. revert locs Hm. induction Hs as [| f fs Hs IH Hf]; intros locs Hm Hlen Hfix;
    cbn [place_optional].
  { exists locs. split_and!; [done | done | constructor | by intros ? ?%not_elem_of_nil |].
    by intros ? ? ?%not_elem_of_nil. }
  apply Forall_cons in Hlen as [Hlenf Hlen]. rewrite Forall_forall in Hf.
  assert (Hneq : forall g, g ∈ fs -> ft_order_idx f <> ft_order_idx g).
  { intros g Hg. specialize (Hf g Hg). unfold order_idx_lt in Hf. lia. }
  destruct (lookup_lt_is_Some_2 _ _ Hlenf) as [[a |] Ha]; rewrite Ha.
  - destruct (IH locs) as (locs' & K1 & K2 & K3 & K4 & K5); [done | done | |].
    { intros g b Hg. apply Hfix. by right. }
    exists locs'. split_and!; [done | done | by constructor | |].
    + intros g [-> | Hg]%elem_of_cons; [| by apply K4]. rewrite (Hfix f a) in Ha; [by apply K2 | left | done].
    + intros g b [-> | Hg]%elem_of_cons Hb; [left | right; by eapply K5].
  - destruct (find_allowed_range n (ft_order_idx f) locs) as [lower upper] eqn:Er. case_decide as Hv.
    + destruct (IH (<[ft_order_idx f := Some (ft_block_idx f)]> locs)) as (locs' & K1 & K2 & K3 & K4 & K5).
      * by eapply find_allowed_range_fits.
      * by rewrite length_insert.
      * intros g b Hg. rewrite list_lookup_insert_ne by by apply Hneq. apply Hfix. by right.
      * exists locs'. split_and!; [done | | by constructor | |].
        -- intros i b Hi. apply K2. rewrite list_lookup_insert_ne; [done |]. intros <-. congruence.
        -- intros g [-> | Hg]%elem_of_cons; [| by apply K4]. apply K2. by apply list_lookup_insert_eq.
        -- intros g b [-> | Hg]%elem_of_cons Hb; [congruence |]. right. eapply K5; [done |].
           rewrite list_lookup_insert_ne by by apply Hneq. done.
    + destruct (IH locs) as (locs' & K1 & K2 & K3 & K4 & K5); [done | done | |].
      { intros g b Hg. apply Hfix. by right. }
      exists locs'. split_and!; [done | done | by constructor | done |].
      intros g b [-> | Hg]%elem_of_cons Hb; [congruence | by eapply K5].
Qed.
End located.

Lemma check_success_spec fs : check_success fs = Ok tt ->
  forall f, f ∈ fs -> can_revert (ot_revert (ft_tx f)) = false -> eb_success (ft_executed_block_tx f) = true.
Proof.
  induction fs as [| g fs IH]; cbn [check_success]; [by intros _ f ?%not_elem_of_nil |].
  destruct (eb_success (ft_executed_block_tx g)) eqn:Es, (can_revert (ot_revert (ft_tx g))) eqn:Er;
    simpl; try done; intros Hc f [-> | Hf]%elem_of_cons Hr; try congruence; by eapply IH.
Qed.

Definition block_idx_le (a b : FoundTxData) : Prop := (ft_block_idx a <= ft_block_idx b)%nat.

Lemma found_spec block order landed : find_landed_order_data (new_from_txs block) order = Ok landed ->
  exists fs, landed = (fun f => (ot_hash (ft_tx f), ot_kickback_percent (ft_tx f))) <$> fs /\
    Forall (located block (sp_txs order)) fs /\ StronglySorted order_idx_lt fs /\
    StronglySorted block_idx_le fs /\
    forall i tx, sp_txs order !! i = Some tx -> can_revert (ot_revert tx) = false ->
      exists f, f ∈ fs /\ ft_order_idx f = i /\ eb_success (ft_executed_block_tx f) = true.
Proof.
  unfold find_landed_order_data.
  destruct (locate_txs _ 0 (sp_txs order)) as [found |] eqn:El; [| done].
  destruct (locate_txs_spec block (sp_txs order) 0 _ _ (drop_0 _) El) as (L1 & L2 & L3).
  rewrite (merge_sort_located _ L2).
  destruct (place_mandatory 0 _ found) as [locs |] eqn:Ep; [| done].
  assert (Hlen : Forall (fun f => (ft_order_idx f < length (replicate (length (sp_txs order)) (@None nat)))%nat) found).
  { eapply Forall_impl; [exact L1 |]. intros f [(Hf & _) _]. rewrite length_replicate.
    by eapply lookup_lt_Some. }
  assert (Hnone : forall i a, replicate (length (sp_txs order)) (@None nat) !! i <> Some (Some a)).
  { intros i a Hi. apply lookup_replicate in Hi as [? _]. done. }
  destruct (place_mandatory_spec 0 (replicate (length (sp_txs order)) None) found locs L2) as (M1 & M2 & M3 & M4);
    [by intros i j a b _ ?%Hnone | by intros i a ?%Hnone | done | done |].
  destruct (place_optional_spec (length (ed_block_txs (new_from_txs block))) locs found M1 L2)
    as (locs' & P1 & P2 & P3 & P4 & P5); [by rewrite M2 | |].
  { intros f a Hf. rewrite (M4 f Hf). case_match; [by intros ?%Hnone | by intros [= <-]]. }
  set (fs := place_optional _ _ _) in *.
  destruct (check_success fs) as [[] |] eqn:Ec; [| done]. intros [= <-]. exists fs.
  split_and!; [done | | by eapply StronglySorted_sublist | |].
  - apply Forall_forall. intros f Hf. rewrite Forall_forall in L1. apply L1. by eapply elem_of_sublist.
  - assert (Hfs : StronglySorted order_idx_lt fs) by (by eapply StronglySorted_sublist).
    clear -P1 P4 Hfs. induction Hfs as [| f fs Hs IH Hf]; [constructor |].
    apply SSorted_cons; [apply IH; intros g Hg; apply P4; by right |].
    apply Forall_forall. intros g Hg. rewrite Forall_forall in Hf.
    apply (P1 (ft_order_idx f) (ft_order_idx g)); [by apply Hf | apply P4; left | apply P4; by right].
  - intros i tx Hi Hr. destruct (L3 i tx) as (f & Hf & Hfi); [lia | done | done |].
    assert (ft_tx f = tx) as Htx.
    { rewrite Forall_forall in L1. destruct (L1 f Hf) as [(Hx & _) _]. rewrite Hfi in Hx. congruence. }
    exists f. assert (f ∈ fs) as Hfs.
    { eapply P5; [done |]. rewrite (M4 f Hf), Htx, Hr. done. }
    split_and!; [done | done |]. eapply check_success_spec; [done | done |]. by rewrite Htx.
Qed.

(** An order found in a landed block has positions in the block that grow with
    the positions in the order; what was found at a position is the
    transaction with the hash of the order, and every transaction of the
    order that may not revert was found and succeeded. *)
Theorem landed_order_found (block : list ExecutedBlockTx) (order : SimplifiedOrder) landed :
  find_landed_order_data (new_from_txs block) order = Ok landed ->
  exists fs, landed = (fun f => (ot_hash (ft_tx f), ot_kickback_percent (ft_tx f))) <$> fs /\
    Forall (located block (sp_txs order)) fs /\ StronglySorted order_idx_lt fs /\
    StronglySorted block_idx_le fs /\
    forall i tx, sp_txs order !! i = Some tx -> can_revert (ot_revert tx) = false ->
      exists f, f ∈ fs /\ ft_order_idx f = i /\ eb_success (ft_executed_block_tx f) = true.
Proof. apply found_spec. Qed.

(** * What landed orders earned

    The profits that [restore_landed_orders] reports are sums over the
    transactions that orders claim, whatever the order in which its hash maps are
    walked. *)

(** ** Signed sums *)
Lemma wrap_signed_wrap w z : wrap_signed w (wrap_signed w z) = wrap_signed w z.
Proof. pose proof (wrap_signed_add w z 0) as H. by rewrite !Z.add_0_r in H. Qed.

(** ** Claims *)
Definition Claim : Type := B256 * OrderId * Z.

Definition order_claims (d : ExecutedBlockData) (order : SimplifiedOrder) : list Claim :=
  match find_landed_order_data d order with
  | Ok landed => (fun '(tx, kickback) => (tx, sp_id order, kickback)) <$> landed
  | Err _ => []
  end.

Definition all_claims (d : ExecutedBlockData) (orders : list SimplifiedOrder) : list Claim :=
  orders ≫= order_claims d.

(** The claims on a transaction, as [txs_to_orders] keeps them. *)
Definition claims_on (L : list Claim) (tx : B256) : list (OrderId * Z) :=
  (fun c => (c.1.2, c.2)) <$> filter (fun c => c.1.1 = tx) L.

Lemma claims_on_app L K tx : claims_on (L ++ K) tx = claims_on L tx ++ claims_on K tx.
Proof. unfold claims_on. by rewrite filter_app, fmap_app. Qed.

Lemma claims_on_single (tx tx' : B256) (order : OrderId) (kickback : Z) :
  claims_on [(tx, order, kickback)] tx' = if decide (tx = tx') then [(order, kickback)] else [].
Proof. unfold claims_on. rewrite filter_cons. cbn [fst]. by case_decide. Qed.

(** A map of claims that stands for a list of them. *)
Definition claims_ok (claims : ClaimMap) (L : list Claim) : Prop := forall tx,
  default [] (claims !! tx) = claims_on L tx /\
  (is_Some (claims !! tx) <-> exists c, c ∈ L /\ c.1.1 = tx).

Lemma claim_txs_ok order claims L landed : claims_ok claims L ->
  claims_ok (claim_txs order claims landed) (L ++ ((fun '(tx, kickback) => (tx, order, kickback)) <$> landed)).
Proof.
  revert claims L. induction landed as [| [tx kickback] landed IH]; intros claims L Hc.
  { by rewrite app_nil_r. }
  rewrite fmap_cons, cons_middle, (assoc_L (++)). apply (IH (<[tx := default [] (claims !! tx) ++ [(order, kickback)]]> claims)). intros tx'.
  rewrite claims_on_app. destruct (Hc tx') as [H1 H2]. destruct (decide (tx = tx')) as [<- | Hne].
  - rewrite lookup_insert_eq, claims_on_single, decide_True by done. cbn [default from_option].
    rewrite H1. split; [done |]. split; [intros _ | by eauto]. exists (tx, order, kickback).
    rewrite elem_of_app. split; [by right; left | done].
  - rewrite lookup_insert_ne, claims_on_single, decide_False by done.
    rewrite app_nil_r. split; [done |]. rewrite H2. split.
    + intros (c & Hin & He). exists c. rewrite elem_of_app. by split; [left |].
    + intros (c & Hin & He). apply elem_of_app in Hin as [Hin | ->%list_elem_of_singleton]; [by eauto |].
      simpl in He. congruence.
Qed.

(** The orders that were not found, with the last reason. *)
Definition failed_orders (d : ExecutedBlockData) (orders : list SimplifiedOrder) (r : LandedMap) : LandedMap :=
  foldl (fun r order => match find_landed_order_data d order with
                        | Ok _ => r
                        | Err e => <[sp_id order := LandedOrderData_new (sp_id order) (Some e)]> r
                        end) r orders.

Lemma claim_orders_ok d orders r claims L : claims_ok claims L ->
  exists claims', claim_orders d orders r claims = (failed_orders d orders r, claims') /\
    claims_ok claims' (L ++ all_claims d orders).
Proof.
  revert r claims L. induction orders as [| order orders IH]; intros r claims L Hc.
  { exists claims. split; [done |]. by rewrite app_nil_r. }
  cbn [claim_orders failed_orders foldl]. unfold all_claims. rewrite bind_cons. unfold order_claims at 1.
  destruct (find_landed_order_data d order) as [landed | e].
  - rewrite (assoc_L (++)). apply IH. by apply claim_txs_ok.
  - apply IH. exact Hc.
Qed.

(** ** Crediting *)
Definition total_of (r : LandedMap) (id : OrderId) : Z := from_option lo_total_coinbase_profit 0 (r !! id).
Definition unique_of (r : LandedMap) (id : OrderId) : Z := from_option lo_unique_coinbase_profit 0 (r !! id).
Definition error_of (r : LandedMap) (id : OrderId) : option OrderIdentificationError := r !! id ≫= lo_error.

(** What the claims of an order on one transaction add up to. *)
Definition credits (profit : Z) (claims : list (OrderId * Z)) (id : OrderId) : Z :=
  zsum ((fun c => net_profit profit c.2) <$> filter (fun c => c.1 = id) claims).

Lemma credit_all tx profit orders claims r id :
  wrap_signed 256 (total_of r id) = total_of r id -> wrap_signed 256 (unique_of r id) = unique_of r id ->
  let r' := foldl (credit tx profit orders) r claims in
  total_of r' id = wrap_signed 256 (total_of r id + credits profit claims id) /\
  unique_of r' id = wrap_signed 256 (unique_of r id
    + if (length orders =? 1)%nat then credits profit claims id else 0) /\
  error_of r' id = error_of r id /\
  (is_Some (r' !! id) <-> is_Some (r !! id) \/ exists c, c ∈ claims /\ c.1 = id) /\
  (forall e tx', r' !! id = Some e -> tx' ∈ lo_tx_hashes e ->
     tx' = tx \/ exists e', r !! id = Some e' /\ tx' ∈ lo_tx_hashes e').
Proof.
  revert r. induction claims as [| [order kickback] claims IH]; intros r Ht Hu; cbn [foldl].
  { cbv zeta. unfold credits. cbn. rewrite !Z.add_0_r. split_and!; [done | | done | |].
    - case_match; by rewrite Z.add_0_r.
    - split; [by left |]. intros [? | (c & ?%not_elem_of_nil & _)]; done.
    - intros e tx' He Htx. right. eauto. }
  unfold credits. rewrite filter_cons. cbn [fst].
  assert (Hstep : let r1 := credit tx profit orders r (order, kickback) in
    total_of r1 id = (if decide (order = id) then i256_add (total_of r id) (net_profit profit kickback)
                      else total_of r id) /\
    unique_of r1 id = (if decide (order = id) then
                         if (length orders =? 1)%nat then i256_add (unique_of r id) (net_profit profit kickback)
                         else unique_of r id else unique_of r id) /\
    error_of r1 id = error_of r id /\
    (is_Some (r1 !! id) <-> is_Some (r !! id) \/ order = id) /\
    (forall e tx', r1 !! id = Some e -> tx' ∈ lo_tx_hashes e ->
       tx' = tx \/ exists e', r !! id = Some e' /\ tx' ∈ lo_tx_hashes e')).
  { cbv zeta. unfold credit, total_of, unique_of, error_of.
    destruct (decide (order = id)) as [-> | Hne].
    - rewrite lookup_insert_eq. cbn [from_option lo_total_coinbase_profit lo_unique_coinbase_profit mbind option_bind lo_error].
      destruct (r !! id) as [e |] eqn:E; cbn; (split_and!; [done | by case_match | done | by naive_solver |]).
      + intros e' tx' [= <-]. cbn. rewrite elem_of_app, list_elem_of_singleton. intros [? | ->]; [right; eauto | by left].
      + intros e' tx' [= <-]. cbn. rewrite list_elem_of_singleton. auto.
    - rewrite lookup_insert_ne by done. split_and!; [done | done | done | |].
      + split; [by left |]. by intros [? | ?].
      + intros e tx' He Htx. right. eauto. }
  destruct Hstep as (S1 & S2 & S3 & S4 & S5).
  set (r1 := credit tx profit orders r (order, kickback)) in *.
  destruct (IH r1) as (I1 & I2 & I3 & I4 & I5).
  { rewrite S1. case_decide; [apply wrap_signed_wrap | done]. }
  { rewrite S2. case_decide; [case_match; [apply wrap_signed_wrap | done] | done]. }
  cbv zeta. rewrite I1, I2, I3, S1, S2, S3. unfold credits. destruct (decide (order = id)) as [-> | Hne].
  - cbn [fmap list_fmap zsum foldr snd]. split_and!; [| | done | |].
    + unfold i256_add. rewrite wrap_signed_add. f_equal. unfold zsum. lia.
    + case_match; [| done]. unfold i256_add. rewrite wrap_signed_add. f_equal. unfold zsum. lia.
    + rewrite I4, S4. setoid_rewrite elem_of_cons. split; [intros _; right; by exists (id, kickback); split; [left |] |].
      intros _. left. by right.
    + intros e tx' He Htx. destruct (I5 e tx' He Htx) as [? | (e' & He' & Htx')]; [by left |]. by eapply S5.
  - split_and!; [done | done | done | |].
    + rewrite I4, S4. setoid_rewrite elem_of_cons. naive_solver.
    + intros e tx' He Htx. destruct (I5 e tx' He Htx) as [? | (e' & He' & Htx')]; [by left |]. by eapply S5.
Qed.

(** ** Regrouping

    What the transactions give to an order, one after another, is what its claims
    give. *)
Definition order_earns (w : B256 -> Z -> Z) (L : list Claim) (id : OrderId) : Z :=
  zsum ((fun c => w c.1.1 c.2) <$> filter (fun c => c.1.2 = id) L).

Definition tx_gives (w : B256 -> Z -> Z) (L : list Claim) (id : OrderId) (tx : B256) : Z :=
  zsum ((fun c => w tx c.2) <$> filter (fun c => c.1 = id) (claims_on L tx)).

Lemma tx_gives_cons w c L id tx : tx_gives w (c :: L) id tx
  = (if decide (c.1.1 = tx) then if decide (c.1.2 = id) then w c.1.1 c.2 else 0 else 0) + tx_gives w L id tx.
Proof.
  unfold tx_gives, claims_on. rewrite filter_cons. destruct (decide (c.1.1 = tx)) as [<- | Hne]; cbn [fst snd]; [| by rewrite Z.add_0_l].
  rewrite fmap_cons, filter_cons. cbn [fst snd]. destruct (decide (c.1.2 = id)); [done | by rewrite Z.add_0_l].
Qed.

Lemma zsum_add {A} (f g : A -> Z) l : zsum ((fun x => f x + g x) <$> l) = zsum (f <$> l) + zsum (g <$> l).
Proof. unfold zsum. induction l as [| a l IH]; [done |]. rewrite !fmap_cons. cbn [foldr]. lia. Qed.

Lemma zsum_single `{EqDecision A} (a : A) (x : Z) l : NoDup l -> a ∈ l ->
  zsum ((fun b => if decide (a = b) then x else 0) <$> l) = x.
Proof.
  assert (Hno : forall l, a ∉ l -> zsum ((fun b => if decide (a = b) then x else 0) <$> l) = 0).
  { intros k. induction k as [| b k IH]; [done |]. rewrite not_elem_of_cons. intros [Hb Hk].
    rewrite fmap_cons. cbn [zsum foldr]. rewrite decide_False by done. by apply IH. }
  induction 1 as [| b k Hb Hk IH]; [by intros ?%not_elem_of_nil |]. rewrite fmap_cons. cbn [zsum foldr].
  intros [<- | Ha]%elem_of_cons.
  - rewrite decide_True by done. fold (zsum ((fun b => if decide (a = b) then x else 0) <$> k)).
    rewrite Hno by done. lia.
  - rewrite decide_False by (intros ->; done). by apply IH.
Qed.

Lemma zsum_single_le `{EqDecision A} (a : A) (x : Z) l : 0 <= x -> NoDup l ->
  zsum ((fun b => if decide (a = b) then x else 0) <$> l) <= x.
Proof.
  intros Hx Hnd. destruct (decide (a ∈ l)) as [Hin | Hn]; [by rewrite zsum_single |]. clear Hnd.
  induction l as [| b l IH]; [done |]. apply not_elem_of_cons in Hn as [Hb Hn].
  rewrite fmap_cons. cbn [zsum foldr]. rewrite decide_False by done. by apply IH.
Qed.

Lemma regroup w L id txs : NoDup txs -> (forall c, c ∈ L -> c.1.1 ∈ txs) ->
  zsum (tx_gives w L id <$> txs) = order_earns w L id.
Proof.
  intros Hnd. induction L as [| c L IH]; intros Hc.
  { clear Hnd Hc. induction txs as [| tx txs IH]; [done |]. exact IH. }
  rewrite (list_fmap_ext _ (fun tx => (if decide (c.1.1 = tx) then if decide (c.1.2 = id) then w c.1.1 c.2 else 0
    else 0) + tx_gives w L id tx)) by (intros; apply tx_gives_cons).
  rewrite zsum_add, zsum_single, IH; [| intros c' Hc'; apply Hc; by right | done | apply Hc; by left].
  unfold order_earns. rewrite filter_cons. destruct (decide (c.1.2 = id)); [done | by rewrite Z.add_0_l].
Qed.

(** ** All transactions *)
Definition profit_of (d : ExecutedBlockData) (tx : B256) : Z := default 0 (tx_coinbase_profit d tx).

(** What a claim earns, and what it earns when it is the only one. *)
Definition claim_profit (d : ExecutedBlockData) (tx : B256) (kickback : Z) : Z :=
  net_profit (profit_of d tx) kickback.
Definition sole_profit (d : ExecutedBlockData) (L : list Claim) (tx : B256) (kickback : Z) : Z :=
  if (length (claims_on L tx) =? 1)%nat then claim_profit d tx kickback else 0.

Lemma sole_gives d L id tx : tx_gives (sole_profit d L) L id tx
  = if (length (claims_on L tx) =? 1)%nat then tx_gives (claim_profit d) L id tx else 0.
Proof.
  unfold tx_gives, sole_profit. case_match; [done |]. generalize (filter (fun c => c.1 = id) (claims_on L tx)).
  intros l. induction l as [| c l IH]; [done |]. exact IH.
Qed.

(** Profits are in range. *)
Definition in_range (r : LandedMap) : Prop := forall id,
  wrap_signed 256 (total_of r id) = total_of r id /\ wrap_signed 256 (unique_of r id) = unique_of r id.

Lemma credit_txs_spec d claims L txs r : claims_ok claims L -> in_range r ->
  (forall tx, tx ∈ txs -> is_Some (tx_coinbase_profit d tx)) ->
  exists r', credit_txs d claims txs r = Some r' /\ forall id,
    total_of r' id = wrap_signed 256 (total_of r id + zsum (tx_gives (claim_profit d) L id <$> txs)) /\
    unique_of r' id = wrap_signed 256 (unique_of r id + zsum (tx_gives (sole_profit d L) L id <$> txs)) /\
    error_of r' id = error_of r id /\
    (is_Some (r' !! id) <-> is_Some (r !! id) \/ exists c, c ∈ L /\ c.1.2 = id /\ c.1.1 ∈ txs) /\
    (forall e tx', r' !! id = Some e -> tx' ∈ lo_tx_hashes e ->
       tx' ∈ txs \/ exists e', r !! id = Some e' /\ tx' ∈ lo_tx_hashes e').
Proof.
  intros Hc. revert r. induction txs as [| tx txs IH]; intros r Hr Htx; cbn [credit_txs].
  { exists r. split; [done |]. intros id. destruct (Hr id) as [Ht Hu]. cbn [fmap list_fmap zsum foldr].
    rewrite !Z.add_0_r, Ht, Hu. split_and!; [done | done | done | |].
    - split; [by left |]. intros [? | (c & _ & _ & ?%not_elem_of_nil)]; done.
    - intros e tx' He Hin. right. eauto. }
  destruct (Htx tx) as [profit Hp]; [left |]. rewrite Hp. cbn [mbind option_bind].
  destruct (Hc tx) as [Hon _]. rewrite Hon.
  assert (profit = profit_of d tx) as -> by (unfold profit_of; by rewrite Hp).
  set (r1 := foldl (credit tx (profit_of d tx) (claims_on L tx)) r (claims_on L tx)).
  assert (Hstep : forall id, _) by (intros id; destruct (Hr id) as [Ht Hu];
    exact (credit_all tx (profit_of d tx) (claims_on L tx) (claims_on L tx) r id Ht Hu)).
  cbv zeta in Hstep. fold r1 in Hstep.
  destruct (IH r1) as (r' & He & H).
  { intros id. destruct (Hstep id) as (-> & -> & _). split; apply wrap_signed_wrap. }
  { intros tx' Hin. apply Htx. by right. }
  exists r'. split; [done |]. intros id. destruct (H id) as (-> & -> & -> & H4 & H5).
  destruct (Hstep id) as (-> & -> & -> & S4 & S5). rewrite !fmap_cons. cbn [zsum foldr].
  rewrite !wrap_signed_add. split_and!.
  - f_equal. rewrite <- Z.add_assoc. done.
  - f_equal. rewrite <- Z.add_assoc, sole_gives. done.
  - done.
  - rewrite H4, S4. unfold claims_on. setoid_rewrite list_elem_of_fmap. setoid_rewrite list_elem_of_filter.
    setoid_rewrite elem_of_cons. split; [naive_solver |].
    intros [? | (c & Hin & Hid & [Heq | ?])]; [by left; left | | by right; eauto].
    left. right. exists (c.1.2, c.2). split; [eauto | done].
  - intros e tx' Hl Hin. destruct (H5 e tx' Hl Hin) as [? | (e' & Hl' & Hin')]; [left; by right |].
    destruct (S5 e' tx' Hl' Hin') as [-> | ?]; [left; by left | by right].
Qed.

(** ** The orders that were not found *)
Definition last_error (d : ExecutedBlockData) (orders : list SimplifiedOrder) (id : OrderId)
  : option OrderIdentificationError :=
  foldl (fun error order => match find_landed_order_data d order with
                            | Err e => if decide (sp_id order = id) then Some e else error
                            | Ok _ => error
                            end) None orders.

Lemma failed_orders_lookup d orders id : failed_orders d orders ∅ !! id
  = (fun e => LandedOrderData_new id (Some e)) <$> last_error d orders id.
Proof.
  unfold failed_orders, last_error. induction orders as [| order orders IH] using rev_ind; [apply lookup_empty |].
  rewrite !foldl_app. cbn [foldl]. destruct (find_landed_order_data d order) as [landed | e]; [exact IH |].
  case_decide as Hid; [subst id; by rewrite lookup_insert_eq | by rewrite lookup_insert_ne].
Qed.

Lemma failed_in_range d orders : in_range (failed_orders d orders ∅).
Proof.
  intros id. unfold total_of, unique_of. rewrite failed_orders_lookup. by destruct (last_error d orders id).
Qed.

(** ** Sorting *)
Lemma sort_landed_Some (idx : gmap B256 nat) e : (forall tx, tx ∈ lo_tx_hashes e -> is_Some (idx !! tx)) ->
  is_Some (sort_landed idx e).
Proof.
  intros H. unfold sort_landed. assert (is_Some (mapM (fun tx => (tx,.) <$> idx !! tx) (lo_tx_hashes e))) as [l ->].
  { apply mapM_is_Some, Forall_forall. intros tx [i Hi]%H. exists (tx, i). by apply fmap_Some_2. }
  by eexists.
Qed.

Lemma sort_all_spec (idx : gmap B256 nat) (r : LandedMap) :
  (forall id e tx, r !! id = Some e -> tx ∈ lo_tx_hashes e -> is_Some (idx !! tx)) ->
  exists r', sort_all idx r = Some r' /\ forall id, r' !! id = r !! id ≫= sort_landed idx.
Proof.
  intros H. unfold sort_all.
  assert (is_Some (mapM (fun '(id, e) => (id,.) <$> sort_landed idx e) (map_to_list r))) as [l El].
  { apply mapM_is_Some, Forall_forall. intros [id e] Hin%elem_of_map_to_list.
    destruct (sort_landed_Some idx e) as [e' He]; [by eauto |]. exists (id, e'). by rewrite He. }
  rewrite El. eexists. split; [done |]. intros id. apply mapM_Some_1 in El.
  assert (Hfst : l.*1 = (map_to_list r).*1).
  { clear -El. induction El as [| [k e] [k' e'] l' k'' Hx _ IH]; [done |]. rewrite !fmap_cons, IH.
    destruct (sort_landed idx e); by simplify_eq/=. }
  assert (Hnd : NoDup l.*1) by (rewrite Hfst; apply NoDup_fst_map_to_list).
  destruct (r !! id) as [e |] eqn:Er; cbn [mbind option_bind].
  - apply elem_of_map_to_list, list_elem_of_lookup in Er as [i Hi].
    destruct (Forall2_lookup_l _ _ _ _ _ El Hi) as ([k e'] & Hl & Hx).
    destruct (sort_landed idx e) as [e'' |] eqn:Es; simplify_eq/=.
    apply elem_of_list_to_map_1; [done |]. by eapply list_elem_of_lookup_2.
  - apply not_elem_of_list_to_map_1. rewrite Hfst. intros ((k & e) & -> & Hin)%list_elem_of_fmap.
    apply elem_of_map_to_list in Hin. simpl in Er. congruence.
Qed.

(** ** Restoring *)

(** What is claimed is in the block. *)
Lemma claimed_in_block block orders c : c ∈ all_claims (new_from_txs block) orders ->
  is_Some (index_txs block !! c.1.1) /\ is_Some (tx_coinbase_profit (new_from_txs block) c.1.1).
Proof.
  intros (order & Hc & _)%list_elem_of_bind. unfold order_claims in Hc.
  destruct (find_landed_order_data (new_from_txs block) order) as [landed |] eqn:E; [| by apply not_elem_of_nil in Hc].
  destruct (found_spec _ _ _ E) as (fs & -> & Hloc & _).
  apply list_elem_of_fmap in Hc as ([tx k] & -> & (f & [= -> ->] & Hf)%list_elem_of_fmap). cbn [fst].
  rewrite Forall_forall in Hloc. destruct (Hloc f Hf) as (_ & Hb & Hh). rewrite <- Hh.
  assert (is_Some (index_txs block !! eb_hash (ft_executed_block_tx f))) as [i Hi].
  { apply index_txs_is_Some. by eapply list_elem_of_lookup_2. }
  split; [done |]. unfold tx_coinbase_profit, find_tx. cbn [ed_txs_by_hash ed_block_txs new_from_txs].
  destruct (index_txs_lookup _ _ _ Hi) as (tx & Htx & _). rewrite Hi. cbn. rewrite Htx. by eexists.
Qed.

Lemma sorted_profits (idx : gmap B256 nat) (r r' : LandedMap) :
  (forall id e tx, r !! id = Some e -> tx ∈ lo_tx_hashes e -> is_Some (idx !! tx)) ->
  (forall id, r' !! id = r !! id ≫= sort_landed idx) -> forall id,
  total_of r' id = total_of r id /\ unique_of r' id = unique_of r id /\ error_of r' id = error_of r id /\
  (is_Some (r' !! id) <-> is_Some (r !! id)).
Proof.
  intros Hidx Hs id. unfold total_of, unique_of, error_of. rewrite Hs.
  destruct (r !! id) as [e |] eqn:E; cbn [mbind option_bind from_option]; [| done].
  destruct (sort_landed_Some idx e) as [e' He]; [by eauto |]. rewrite He.
  unfold sort_landed in He. destruct (mapM _ _); simplify_eq/=. split_and!; [done | done | done |].
  by split; eexists.
Qed.

Lemma restored_spec `{HO : !HashOrder B256, !HashOrderOk B256} (block : list ExecutedBlockTx)
    (orders : list SimplifiedOrder) :
  let d := new_from_txs block in
  let L := all_claims d orders in
  exists result, restore_landed_orders block orders = Some result /\ forall id,
    total_of result id = wrap_signed 256 (order_earns (claim_profit d) L id) /\
    unique_of result id = wrap_signed 256 (order_earns (sole_profit d L) L id) /\
    error_of result id = last_error d orders id /\
    (is_Some (result !! id) <-> is_Some (last_error d orders id) \/ exists c, c ∈ L /\ c.1.2 = id).
Proof.
  intros d L. unfold restore_landed_orders. fold d.
  destruct (claim_orders_ok d orders ∅ ∅ []) as (claims & -> & Hok).
  { intros tx. rewrite lookup_empty. split; [done |]. split; [by intros [? ?] |].
    by intros (c & ?%not_elem_of_nil & _). }
  change ([] ++ all_claims d orders) with L in Hok.
  assert (Hdom : forall tx, tx ∈ hash_order (dom claims) <-> exists c, c ∈ L /\ c.1.1 = tx).
  { intros tx. rewrite (hash_order_perm (dom claims)), elem_of_elements, elem_of_dom. apply Hok. }
  destruct (credit_txs_spec d claims L (hash_order (dom claims)) (failed_orders d orders ∅) Hok)
    as (r & -> & Hr); [apply failed_in_range | |].
  { intros tx (c & Hc & <-)%Hdom. by apply claimed_in_block in Hc as [_ ?]. }
  cbn [mbind option_bind].
  assert (Hidx : forall id e tx, r !! id = Some e -> tx ∈ lo_tx_hashes e -> is_Some (index_txs block !! tx)).
  { intros id e tx He Htx. destruct (Hr id) as (_ & _ & _ & _ & H5).
    destruct (H5 e tx He Htx) as [(c & Hc & <-)%Hdom | (e' & He' & Htx')]; [by apply claimed_in_block in Hc as [? _] |].
    rewrite failed_orders_lookup in He'. destruct (last_error d orders id); simplify_eq/=.
    by apply not_elem_of_nil in Htx'. }
  destruct (sort_all_spec _ r Hidx) as (r' & -> & Hr'). exists r'. split; [done |]. intros id.
  destruct (sorted_profits _ r r' Hidx Hr' id) as (-> & -> & -> & ->).
  destruct (Hr id) as (-> & -> & -> & -> & _). unfold total_of, unique_of, error_of. rewrite failed_orders_lookup.
  assert (NoDup (hash_order (dom claims))) by (rewrite (hash_order_perm (dom claims)); apply NoDup_elements).
  assert (forall c, c ∈ L -> c.1.1 ∈ hash_order (dom claims)) by (intros c Hc; apply Hdom; eauto).
  rewrite !regroup by done. destruct (last_error d orders id) as [e |]; cbn; split_and!; try done.
  - split; intros _; [left; by eexists | left; by eexists].
  - split; [intros [[? ?] | (c & Hc & Hid & _)]; [done | right; eauto] |].
    intros [[? ?] | (c & Hc & Hid)]; [done |]. right. exists c. auto.
Qed.

(** Restoring landed orders does not panic, and whatever the order in which the
    hash map of transactions is walked: the total profit of an order is the
    sum of what its landed transactions earned after kickbacks, its unique
    profit the sum over the transactions that no other order claims (both
    wrap at 256 bits), its error the last one found for its id, and an order
    is in the result exactly when it has an error or a landed transaction. *)
Theorem restored_profits `{HO : !HashOrder B256, !HashOrderOk B256} (block : list ExecutedBlockTx)
    (orders : list SimplifiedOrder) :
  let d := new_from_txs block in
  let L := all_claims d orders in
  exists result, restore_landed_orders block orders = Some result /\ forall id,
    total_of result id = wrap_signed 256 (order_earns (claim_profit d) L id) /\
    unique_of result id = wrap_signed 256 (order_earns (sole_profit d L) L id) /\
    error_of result id = last_error d orders id /\
    (is_Some (result !! id) <-> is_Some (last_error d orders id) \/ exists c, c ∈ L /\ c.1.2 = id).
Proof. exact (restored_spec block orders). Qed.
