(* ===== verification/Redistribute.v ===== *)
(** * Redistributing the profit of a block (backtest/redistribute/mod.rs)

    Who contributed what to a landed block is measured by building it again without
    the orders of an identity, or of a pair of them, and the profit is split over
    identities and their orders.  What builds a block is a parameter, and so is the
    replay of the landed block. *)

From stdpp Require Import sorting.
From S2P Require Import Prelude Transactions Bundles Orders OrderPriority World BacktestData BacktestExecute LandedOrders Redistribution.

(** ** Data *)
Inductive InclusionChange := Excluded | Included | ProfitChanged.

Inductive ExtendedOrderId :=
| Ext_Tx (hash : B256)
| Ext_Bundle (uuid : Uuid) (hash : B256)
| Ext_ShareBundle (hash : B256).

Record OrderInclusionChange := {
  ic_id : ExtendedOrderId;
  ic_change : InclusionChange;
  ic_profit_before : U256;
  ic_profit_after : U256;
}.

Record IdentityData := {
  id_address : Address;
  id_redistribution_value_received : U256;
  id_block_value_delta : Z;
  id_inclusion_changes : list OrderInclusionChange;
}.

Record OrderData := {
  od_id : ExtendedOrderId;
  od_identity : Address;
  od_sender : Address;
  od_redistribution_value_received : U256;
  od_block_value_delta : Z;
  od_inclusion_changes : list OrderInclusionChange;
  od_realized_value : U256;
}.

Record JointContributionData := {
  jc_identities : list Address;
  jc_block_value_delta : Z;
}.

Record RedistributionBlockOutput := {
  ro_block_number : U64;
  ro_block_hash : B256;
  ro_block_profit : U256;
  ro_identities : list IdentityData;
  ro_landed_orders : list OrderData;
  ro_joint_contribution : list JointContributionData;
}.

Definition ExtendedOrderId_new (order_id : OrderId) (bundle_hashes : gmap OrderId B256) : ExtendedOrderId :=
  match order_id with
  | Id_Tx hash => Ext_Tx hash
  | Id_Bundle uuid => Ext_Bundle uuid (default 0 (bundle_hashes !! order_id))
  | Id_ShareBundle hash => Ext_ShareBundle hash
  end.

(** [collect] into a map: the last value of a key stays. *)
Definition collect {K V} `{Countable K} (l : list (K * V)) : gmap K V :=
  foldl (fun m '(k, v) => <[k := v]> m) ∅ l.

(** [I256::is_positive] is false at zero; [into_sign_and_abs] of what is positive. *)
Definition positive_part (z : Z) : option U256 := if decide (0 < z) then Some z else None.

(** [sort_by_key] and [sort] by a key. *)
Definition key_le {A} (key : A -> OrderId) (a b : A) : Prop := OrderId_cmp (key a) (key b) <> Gt.
#[export] Instance key_le_dec {A} (key : A -> OrderId) : RelDecision (key_le key).
Proof. intros a b. unfold key_le. apply _. Defined.

Definition address_le {A} (key : A -> Address) (a b : A) : Prop := key a <= key b.
#[export] Instance address_le_dec {A} (key : A -> Address) : RelDecision (address_le key).
Proof. intros a b. unfold address_le. apply _. Defined.

Definition pair_le (a b : Address * Address) : Prop := a.1 < b.1 \/ a.1 = b.1 /\ a.2 <= b.2.
#[export] Instance pair_le_dec : RelDecision pair_le.
Proof. intros a b. unfold pair_le. apply _. Defined.

(** [dedup]: equal neighbours are merged. *)
Fixpoint dedup `{EqDecision A} (l : list A) : list A :=
  match l with
  | [] => []
  | a :: l =>
      match l with
      | b :: _ => if decide (a = b) then dedup l else a :: dedup l
      | [] => [a]
      end
  end.

(** ** Identities of orders *)

(** The outer [None] is [unreachable!]. *)
Definition order_redistribution_address (order : Order) (protect_signers : list Address)
  : option (option (Address * bool)) :=
  match m_refund_identity (Order_metadata order) with
  | Some refund_identity => Some (Some (refund_identity, false))
  | None =>
      match Order_signer order with
      | None =>
          Some (if is_tx order
                then (fun p => (tx_signer p.1, false)) <$> head (Order_list_txs order) else None)
      | Some signer =>
          if decide (signer ∈ protect_signers) then
            match order with
            | Order_Bundle bundle => Some ((fun tx => (tx_signer tx, true)) <$> head (b_txs bundle))
            | Order_ShareBundle bundle =>
                Some (match head (sbi_refund_config (sb_inner_bundle bundle)) with
                      | Some first_refund => Some (rc_address first_refund, true)
                      | None => (fun p => (tx_signer p.1, true)) <$> head (Order_list_txs order)
                      end)
            | Order_Tx _ => None
            end
          else Some (Some (signer, false))
      end
  end.

Definition order_sender (order : Order) : Address :=
  match Order_list_txs order with
  | [(tx, _)] => tx_signer tx
  | _ => default 0 (Order_signer order)
  end.

(** ** Preparation *)
Definition prepare_block_data (coinbase_signer : result Address string) (block_data : BlockData)
    (order_filter : Order -> option OrderFilteredReason)
  : result (U256 * BlockData * BuiltBlockData) string :=
  let? built_block_data := ok_or (bd_built_block_data block_data) "Included block data not found"%string in
  let? _ := coinbase_signer in
  let block_data := filter_orders_by_end_timestamp block_data (bb_orders_closed_at built_block_data) in
  let block_data := filter_bundles_from_mempool block_data in
  let block_data := filter_out_orders block_data order_filter in
  Ok (default 0 (positive_part (bb_profit built_block_data)), block_data, built_block_data).

Section iteration.
Context `{!HashOrder OrderId, !HashOrder Z}.

Definition get_available_orders (block_data : BlockData) (built_block_data : BuiltBlockData)
    (distribute_to_mempool_txs : bool) : list OrdersWithTimestamp :=
  let orders_by_id := collect ((fun o => (owt_id o, o)) <$> bd_available_orders block_data) in
  let add m id := match orders_by_id !! id with
                  | Some order => <[owt_id order := order]> m
                  | None => m
                  end in
  let included := foldl add (∅ : gmap OrderId OrdersWithTimestamp) (bb_included_orders built_block_data) in
  let included :=
    if distribute_to_mempool_txs
    then foldl add included
           (Id_Tx <$> BlockTransactions_hashes (ob_transactions (bd_onchain_block block_data)))
    else included in
  merge_sort (key_le owt_id) (omap (fun id => included !! id) (hash_order (dom included))).

(** What is looked for in the landed block: the included orders, and the
    transactions of the mempool that are not among them. *)
Definition orders_to_restore (block_data : BlockData) (included : list OrdersWithTimestamp)
  : list SimplifiedOrder :=
  ((fun o => new_from_order (owt_order o)) <$> included) ++
  ((fun o => new_from_order (owt_order o)) <$>
     filter (fun o => is_tx (owt_order o) = true /\
                      existsb (fun i => bool_decide (owt_id i = owt_id o)) included = false)
       (bd_available_orders block_data)).

Definition restore_available_landed_orders
    (sim_historical_block : OnchainBlock -> result (list ExecutedBlockTx) string)
    (block_data : BlockData) (included : list OrdersWithTimestamp) : Eyre LandedMap :=
  let+ block_txs := Some (sim_historical_block (bd_onchain_block block_data)) in
  expect (restore_landed_orders block_txs (orders_to_restore block_data included)).

(** ** Orders by identity *)
Record AvailableOrders := {
  ao_included_orders_available : list OrdersWithTimestamp;
  ao_included_orders_by_address : list (Address * list OrderId);
  ao_all_orders_by_address : gmap Address (list OrderId);
  ao_orders_id_to_address : gmap OrderId Address;
  ao_all_orders_by_id : gmap OrderId Order;
  ao_bundle_hash_by_id : gmap OrderId B256;
  ao_order_sender_by_id : gmap OrderId Address;
}.

(** The mandatory nonces of an order, and its replacement key; [None] is a panic. *)
Definition get_nonces_and_replacement (ao : AvailableOrders) (id : OrderId)
  : option (gset Address * option OrderReplacementKey) :=
  let! order := ao_all_orders_by_id ao !! id in
  Some (list_to_set (nonce_address <$> filter (fun n => nonce_optional n = false) (Order_nonces order)),
        replacement_key order).

(** What another order of the identity adds to the exclusions of an included one. *)
Definition excluded_with (nonces : gset Address) (replacement : option OrderReplacementKey)
    (other_order : OrderId) (other : gset Address * option OrderReplacementKey) : list OrderId :=
  ((fun _ => other_order) <$> filter (fun nonce => nonce ∈ other.1) (hash_order nonces)) ++
  (if decide (replacement <> None /\ other.2 = replacement) then [other_order] else []).

Fixpoint exclude_others (ao : AvailableOrders) (nonces : gset Address)
    (replacement : option OrderReplacementKey) (exclusion others : list OrderId) : option (list OrderId) :=
  match others with
  | [] => Some exclusion
  | other_order :: others =>
      let! other := get_nonces_and_replacement ao other_order in
      exclude_others ao nonces replacement
        (exclusion ++ excluded_with nonces replacement other_order other) others
  end.

Definition order_exclusions (ao : AvailableOrders) (address : Address) (included : OrderId)
  : option (list OrderId) :=
  let! (nonces, replacement) := get_nonces_and_replacement ao included in
  let! others := ao_all_orders_by_address ao !! address in
  exclude_others ao nonces replacement [included] others.

Definition calc_individual_included_orders_exclusion (ao : AvailableOrders)
  : option (gmap OrderId (list OrderId)) :=
  let! pairs := mapM (fun '(address, included_orders) =>
    mapM (fun included => (included,.) <$> order_exclusions ao address included) included_orders)
    (ao_included_orders_by_address ao) in
  Some (collect (concat pairs)).

(** The first loop: the included orders of every identity. *)
Fixpoint split_included (protect_signers : list Address) (orders : list OrdersWithTimestamp)
    (by_address : gmap Address (list OrderId)) (id_to_address : gmap OrderId Address)
    (without_address : gset OrderId)
  : option (gmap Address (list OrderId) * gmap OrderId Address * gset OrderId) :=
  match orders with
  | [] => Some (by_address, id_to_address, without_address)
  | order :: orders =>
      let order_id := owt_id order in
      let! found := order_redistribution_address (owt_order order) protect_signers in
      match found with
      | Some (address, _) =>
          split_included protect_signers orders
            (<[address := default [] (by_address !! address) ++ [order_id]]> by_address)
            (<[order_id := address]> id_to_address) without_address
      | None =>
          split_included protect_signers orders by_address id_to_address ({[order_id]} ∪ without_address)
      end
  end.

(** What the second loop fills. *)
Record SplitState := {
  st_all_orders_by_address : gmap Address (list OrderId);
  st_orders_id_to_address : gmap OrderId Address;
  st_bundle_hash_by_id : gmap OrderId B256;
  st_order_sender_by_id : gmap OrderId Address;
}.

Definition split_available_order (protect_signers : list Address) (distribute_to_mempool_txs : bool)
    (included_by_address : gmap Address (list OrderId)) (st : SplitState) (order : OrdersWithTimestamp)
  : option SplitState :=
  let id := owt_id order in
  let bundle_hash_by_id :=
    match owt_order order with
    | Order_Bundle bundle => <[id := default (b_hash bundle) (b_external_hash bundle)]> (st_bundle_hash_by_id st)
    | _ => st_bundle_hash_by_id st
    end in
  let order_sender_by_id := <[id := order_sender (owt_order order)]> (st_order_sender_by_id st) in
  let! found := order_redistribution_address (owt_order order) protect_signers in
  let unchanged := {| st_all_orders_by_address := st_all_orders_by_address st;
                      st_orders_id_to_address := st_orders_id_to_address st;
                      st_bundle_hash_by_id := bundle_hash_by_id;
                      st_order_sender_by_id := order_sender_by_id |} in
  match found with
  | None => Some unchanged
  | Some (address, _) =>
      let order_was_included := bool_decide (id ∈ default [] (included_by_address !! address)) in
      if is_tx (owt_order order) && negb distribute_to_mempool_txs && negb order_was_included
      then Some unchanged
      else Some {| st_all_orders_by_address :=
                     <[address := default [] (st_all_orders_by_address st !! address) ++ [id]]>
                       (st_all_orders_by_address st);
                   st_orders_id_to_address := <[id := address]> (st_orders_id_to_address st);
                   st_bundle_hash_by_id := bundle_hash_by_id;
                   st_order_sender_by_id := order_sender_by_id |}
  end.

Fixpoint split_available (protect_signers : list Address) (distribute_to_mempool_txs : bool)
    (included_by_address : gmap Address (list OrderId)) (orders : list OrdersWithTimestamp) (st : SplitState)
  : option SplitState :=
  match orders with
  | [] => Some st
  | order :: orders =>
      let! st := split_available_order protect_signers distribute_to_mempool_txs included_by_address st order in
      split_available protect_signers distribute_to_mempool_txs included_by_address orders st
  end.

Definition split_orders_by_identities (included : list OrdersWithTimestamp) (protect_signers : list Address)
    (block_data : BlockData) (distribute_to_mempool_txs : bool) : option AvailableOrders :=
  let! (by_address, id_to_address, without_address) := split_included protect_signers included ∅ ∅ ∅ in
  let! st := split_available protect_signers distribute_to_mempool_txs by_address
               (bd_available_orders block_data)
               {| st_all_orders_by_address := ∅; st_orders_id_to_address := id_to_address;
                  st_bundle_hash_by_id := ∅; st_order_sender_by_id := ∅ |} in
  let sorted := merge_sort (address_le fst)
    (omap (fun address => (address,.) <$> by_address !! address) (hash_order (dom by_address))) in
  Some {| ao_included_orders_available := filter (fun o => owt_id o ∉ without_address) included;
          ao_included_orders_by_address :=
            (fun '(address, orders) => (address, merge_sort (key_le id) orders)) <$> sorted;
          ao_all_orders_by_address := st_all_orders_by_address st;
          ao_orders_id_to_address := st_orders_id_to_address st;
          ao_all_orders_by_id :=
            collect ((fun o => (owt_id o, owt_order o)) <$> bd_available_orders block_data);
          ao_bundle_hash_by_id := st_bundle_hash_by_id st;
          ao_order_sender_by_id := st_order_sender_by_id st |}.
End iteration.

(** ** Building without some orders *)
Record ResultsWithoutExclusion := {
  rw_profit : U256;
  rw_orders_included : list (OrderId * U256);
  rw_orders_failed : list OrderId;
}.

Record ExclusionInput := {
  ei_exclude_orders : list OrderId;
  ei_orders_included_before : list (OrderId * U256);
  ei_orders_excluded_before : list OrderId;
  ei_profit_before : U256;
}.

Record ExclusionResult := {
  ex_profit : U256;
  ex_block_value_delta : Z;
  ex_new_orders_failed : list OrderId;
  ex_new_orders_included : list (OrderId * U256);
  ex_orders_profit_changed : list (OrderId * U256);
}.

Record ExclusionResults := {
  es_landed_orders : gmap OrderId ExclusionResult;
  es_identities : gmap Address ExclusionResult;
  es_joint_exclusion_result : gmap (Address * Address) ExclusionResult;
}.

Definition exclusion_input (r : ResultsWithoutExclusion) (exclude_orders : list OrderId) : ExclusionInput :=
  {| ei_exclude_orders := exclude_orders;
     ei_orders_included_before := rw_orders_included r;
     ei_orders_excluded_before := rw_orders_failed r;
     ei_profit_before := rw_profit r |}.

(** [max_by_key]: the last of the greatest. *)
Definition max_bid (outputs : list BacktestBuilderOutput) : option BacktestBuilderOutput :=
  foldl (fun best o => match best with
                       | Some b => if decide (our_bid_value b <= our_bid_value o) then Some o else best
                       | None => Some o
                       end) None outputs.

Definition exclude_from (block_data : BlockData) (exclude_orders : list OrderId) : BlockData :=
  set_available block_data (filter (fun o => owt_id o ∉ exclude_orders) (bd_available_orders block_data))
    (bd_filtered_orders block_data).

Section exclusion.
Context `{!HashOrder OrderId, !HashOrder (Address * Address)}.
Context (simulate_block : BlockData -> Eyre BlockBacktestValue).

Definition calc_profit_after_exclusion (block_data : BlockData) (input : ExclusionInput)
  : Eyre ExclusionResult :=
  let block_data_with_excluded := exclude_from block_data (ei_exclude_orders input) in
  let available_orders : gset OrderId := list_to_set (owt_id <$> bd_available_orders block_data_with_excluded) in
  let orders_included_before := collect (ei_orders_included_before input) in
  let orders_excluded_before : gset OrderId := list_to_set (ei_orders_excluded_before input) in
  let+ value := simulate_block block_data_with_excluded in
  let+ result := Some (ok_or (max_bid (builder_outputs value)) "No max value found"%string) in
  let orders_included := collect (zip (bo_included_orders result) (bo_included_order_profits result)) in
  let included := omap (fun id => (id,.) <$> orders_included !! id) (hash_order (dom orders_included)) in
  let+ block_value_delta := expect (signed_uint_delta (ei_profit_before input) (our_bid_value result)) in
  Some (Ok {|
    ex_profit := our_bid_value result;
    ex_block_value_delta := block_value_delta;
    ex_new_orders_failed := filter (fun id => orders_included !! id = None /\ id ∉ orders_excluded_before)
                              (hash_order available_orders);
    ex_new_orders_included := filter (fun p => orders_included_before !! p.1 = None) included;
    ex_orders_profit_changed :=
      filter (fun p => orders_included_before !! p.1 <> None /\
                       orders_included_before !! p.1 <> Some p.2) included |}).

Definition calculate_backtest_without_exclusion (block_data : BlockData) : Eyre ResultsWithoutExclusion :=
  let+ r := calc_profit_after_exclusion block_data
    {| ei_exclude_orders := []; ei_orders_included_before := []; ei_orders_excluded_before := [];
       ei_profit_before := 0 |} in
  Some (Ok {| rw_profit := ex_profit r; rw_orders_included := ex_new_orders_included r;
              rw_orders_failed := ex_new_orders_failed r |}).

(** The exclusions of the included orders, each taken from the map once. *)
Fixpoint take_exclusions (exclusions : gmap OrderId (list OrderId)) (orders : list OrdersWithTimestamp)
  : option (list (OrderId * list OrderId)) :=
  match orders with
  | [] => Some []
  | order :: orders =>
      let id := owt_id order in
      let! e := exclusions !! id in
      let! rest := take_exclusions (delete id exclusions) orders in
      Some ((id, e) :: rest)
  end.

Definition calculate_backtest_identity_and_order_exclusion `{!HashOrder Z} (block_data : BlockData)
    (ao : AvailableOrders) (without : ResultsWithoutExclusion) : Eyre ExclusionResults :=
  let+ exclusions := expect (calc_individual_included_orders_exclusion ao) in
  let+ included_orders_exclusion := expect (take_exclusions exclusions (ao_included_orders_available ao)) in
  let+ landed := eyre_mapM (fun '(id, exclusions) =>
    let+ ok := calc_profit_after_exclusion block_data (exclusion_input without exclusions) in
    Some (Ok (id, ok))) included_orders_exclusion in
  let+ identities := eyre_mapM (fun '(address, _) =>
    let+ orders := expect (ao_all_orders_by_address ao !! address) in
    let+ ok := calc_profit_after_exclusion block_data (exclusion_input without orders) in
    Some (Ok (address, ok))) (ao_included_orders_by_address ao) in
  Some (Ok {| es_landed_orders := collect landed; es_identities := collect identities;
              es_joint_exclusion_result := ∅ |}).

(** The pairs of identities of which a landed order of one fails, or changes its
    profit, without an order of the other; [None] is a panic. *)
Fixpoint conflicts_with (ao : AvailableOrders) (address1 : Address) (orders : list OrderId)
  : option (list (Address * Address)) :=
  match orders with
  | [] => Some []
  | failed :: orders =>
      if existsb (fun o => bool_decide (owt_id o = failed)) (ao_included_orders_available ao) then
        let! address2 := ao_orders_id_to_address ao !! failed in
        let! rest := conflicts_with ao address1 orders in
        Some (if decide (address1 = address2) then rest
              else (Z.min address1 address2, Z.max address1 address2) :: rest)
      else conflicts_with ao address1 orders
  end.

Definition is_tx_id (id : OrderId) : bool := match id with Id_Tx _ => true | _ => false end.

Definition order_conflicts (ao : AvailableOrders) (distribute_to_mempool_txs : bool)
    (landed : gmap OrderId ExclusionResult) (order : OrderId) : option (list (Address * Address)) :=
  let! r := landed !! order in
  let! address1 := ao_orders_id_to_address ao !! order in
  conflicts_with ao address1
    (filter (fun o => distribute_to_mempool_txs || negb (is_tx_id o) = true)
       (ex_new_orders_failed r ++ (ex_orders_profit_changed r).*1)).

Definition joint_contribution_todo (ao : AvailableOrders) (distribute_to_mempool_txs : bool)
    (landed : gmap OrderId ExclusionResult) : option (list (Address * Address)) :=
  let! todo := mapM (order_conflicts ao distribute_to_mempool_txs landed) (hash_order (dom landed)) in
  Some (dedup (merge_sort pair_le (concat todo))).

(** The last loop looks both identities of a pair up. *)
Definition identities_known (es : ExclusionResults) (ids : Address * Address) : bool :=
  bool_decide (is_Some (es_identities es !! ids.1)) && bool_decide (is_Some (es_identities es !! ids.2)).

Definition calc_joint_exclusion_results (block_data : BlockData) (ao : AvailableOrders)
    (without : ResultsWithoutExclusion) (es : ExclusionResults) (distribute_to_mempool_txs : bool)
  : Eyre ExclusionResults :=
  let+ todo := expect (joint_contribution_todo ao distribute_to_mempool_txs (es_landed_orders es)) in
  let+ joint := eyre_mapM (fun '(address1, address2) =>
    let+ orders1 := expect (ao_all_orders_by_address ao !! address1) in
    let+ orders2 := expect (ao_all_orders_by_address ao !! address2) in
    let+ ok := calc_profit_after_exclusion block_data (exclusion_input without (orders1 ++ orders2)) in
    Some (Ok ((address1, address2), ok))) todo in
  let+ _ := expect (if forallb (identities_known es) joint.*1 then Some tt else None) in
  Some (Ok {| es_landed_orders := es_landed_orders es; es_identities := es_identities es;
              es_joint_exclusion_result := collect joint |}).

(** [ExclusionResults::joint_block_value_delta] *)
Definition es_joint_block_value_delta (es : ExclusionResults) : list (Address * Address * Z) :=
  merge_sort (fun a b => pair_le a.1 b.1)
    (omap (fun p => (fun r => (p, ex_block_value_delta r)) <$> es_joint_exclusion_result es !! p)
       (hash_order (dom (es_joint_exclusion_result es)))).
End exclusion.

(** ** Applying the formula *)

(** The landed orders of an identity that were recovered and earned something. *)
Fixpoint recovered_orders (restored : LandedMap) (landed_orders : list OrderId)
  : option (list IncludedOrderData) :=
  match landed_orders with
  | [] => Some []
  | id :: landed_orders =>
      let! r := restored !! id in
      let! rest := recovered_orders restored landed_orders in
      Some (match lo_error r, positive_part (lo_unique_coinbase_profit r) with
            | None, Some realized_value => {| io_id := id; io_realized_value := realized_value |} :: rest
            | _, _ => rest
            end)
  end.

Fixpoint identities_of (es : ExclusionResults) (restored : LandedMap)
    (included_orders_by_address : list (Address * list OrderId))
  : option (list RedistributionIdentityData) :=
  match included_orders_by_address with
  | [] => Some []
  | (address, landed_orders) :: rest =>
      let! included_orders := recovered_orders restored landed_orders in
      let! r := es_identities es !! address in
      let! rest := identities_of es restored rest in
      Some (match positive_part (ex_block_value_delta r) with
            | Some block_value_delta =>
                {| ri_address := address; ri_block_value_delta := block_value_delta;
                   ri_included_orders := included_orders |} :: rest
            | None => rest
            end)
  end.

Section result.
Context `{!HashOrder OrderId, !HashOrder (Address * Address)}.

Definition positive_joint_deltas (es : ExclusionResults) : list (Address * Address * U256) :=
  omap (fun x => (x.1,.) <$> positive_part x.2) (es_joint_block_value_delta es).

Definition apply_redistribution_formula (onchain_block_profit : U256) (ao : AvailableOrders)
    (es : ExclusionResults) (restored : LandedMap) : option RedistributionResult :=
  let! ids := identities_of es restored (ao_included_orders_by_address ao) in
  calculate_redistribution
    {| landed_block_profit := onchain_block_profit; identity_data := ids;
       joint_block_value_delta := positive_joint_deltas es |}.

(** ** Collecting the result *)
Definition profit_in (included_before : list (OrderId * U256)) (id : OrderId) : U256 :=
  from_option snd 0 (find (fun p => bool_decide (p.1 = id)) included_before).

Definition inclusion_change (bundle_hash_by_id : gmap OrderId B256) (id : OrderId) (change : InclusionChange)
    (profit_before profit_after : U256) : OrderId * OrderInclusionChange :=
  (id, {| ic_id := ExtendedOrderId_new id bundle_hash_by_id; ic_change := change;
          ic_profit_before := profit_before; ic_profit_after := profit_after |}).

Definition calc_inclusion_change (bundle_hash_by_id : gmap OrderId B256) (r : ExclusionResult)
    (included_before : list (OrderId * U256)) : list OrderInclusionChange :=
  let result :=
    ((fun '(id, profit_after) => inclusion_change bundle_hash_by_id id Included 0 profit_after)
       <$> ex_new_orders_included r) ++
    ((fun id => inclusion_change bundle_hash_by_id id Excluded (profit_in included_before id) 0)
       <$> ex_new_orders_failed r) ++
    ((fun '(id, profit_after) =>
        inclusion_change bundle_hash_by_id id ProfitChanged (profit_in included_before id) profit_after)
       <$> ex_orders_profit_changed r) in
  snd <$> merge_sort (key_le fst) result.

(** What an order received of what its identity received. *)
Definition order_share (entity : option RedistributionEntityResult) (id : OrderId) : U256 :=
  default 0 (let! d := entity in
             snd <$> find (fun p => bool_decide (p.1 = id)) (order_redistribution_value d)).

Definition collect_order (ao : AvailableOrders) (without : ResultsWithoutExclusion) (es : ExclusionResults)
    (restored : LandedMap) (address : Address) (entity : option RedistributionEntityResult) (id : OrderId)
  : option OrderData :=
  let! r := es_landed_orders es !! id in
  let! restored_order := restored !! id in
  Some {| od_id := ExtendedOrderId_new id (ao_bundle_hash_by_id ao);
          od_identity := address;
          od_sender := default 0 (ao_order_sender_by_id ao !! id);
          od_redistribution_value_received := order_share entity id;
          od_block_value_delta := ex_block_value_delta r;
          od_inclusion_changes := calc_inclusion_change (ao_bundle_hash_by_id ao) r (rw_orders_included without);
          od_realized_value := default 0 (u256_try_from (lo_unique_coinbase_profit restored_order)) |}.

Definition collect_identity (ao : AvailableOrders) (without : ResultsWithoutExclusion) (es : ExclusionResults)
    (result : RedistributionResult) (restored : LandedMap) (entry : Address * list OrderId)
  : option (list OrderData * IdentityData) :=
  let '(address, landed_orders) := entry in
  let entity := find (fun e => bool_decide (re_address e = address)) (value_by_identity result) in
  let! orders := mapM (collect_order ao without es restored address entity) landed_orders in
  let! r := es_identities es !! address in
  Some (orders,
        {| id_address := address;
           id_redistribution_value_received := from_option redistribution_value 0 entity;
           id_block_value_delta := ex_block_value_delta r;
           id_inclusion_changes := calc_inclusion_change (ao_bundle_hash_by_id ao) r (rw_orders_included without) |}).

Definition collect_redistribution_result (block_data : BlockData) (onchain_block_profit : U256)
    (ao : AvailableOrders) (without : ResultsWithoutExclusion) (es : ExclusionResults)
    (result : RedistributionResult) (restored : LandedMap) : option RedistributionBlockOutput :=
  let! parts := mapM (collect_identity ao without es result restored) (ao_included_orders_by_address ao) in
  Some {| ro_block_number := bd_block_number block_data;
          ro_block_hash := ob_hash (bd_onchain_block block_data);
          ro_block_profit := onchain_block_profit;
          ro_identities := parts.*2;
          ro_landed_orders := concat parts.*1;
          ro_joint_contribution :=
            (fun p => {| jc_identities := [p.1.1; p.1.2]; jc_block_value_delta := p.2 |})
              <$> es_joint_block_value_delta es |}.

(** ** The calculation *)
Definition redistributed_identity_value (r : RedistributionBlockOutput) : U256 :=
  u256_sum (id_redistribution_value_received <$> ro_identities r).
Definition redistributed_orders_value (r : RedistributionBlockOutput) : U256 :=
  u256_sum (od_redistribution_value_received <$> ro_landed_orders r).

Definition calc_redistributions `{!HashOrder Z} {Ctx : Type} (building_context : BlockData -> result Ctx string)
    (simulate_block : Ctx -> BlockData -> Eyre BlockBacktestValue)
    (sim_historical_block : OnchainBlock -> result (list ExecutedBlockTx) string)
    (coinbase_signer : result Address string) (protect_signers : list Address) (block_data : BlockData)
    (distribute_to_mempool_txs : bool) (order_filter : Order -> option OrderFilteredReason)
  : Eyre RedistributionBlockOutput :=
  let+ prepared := Some (prepare_block_data coinbase_signer block_data order_filter) in
  let '(onchain_block_profit, block_data, built_block_data) := prepared in
  let included := get_available_orders block_data built_block_data distribute_to_mempool_txs in
  let+ restored := restore_available_landed_orders sim_historical_block block_data included in
  let+ ao := expect (split_orders_by_identities included protect_signers block_data distribute_to_mempool_txs) in
  let+ ctx := Some (building_context block_data) in
  let simulate_block := simulate_block ctx in
  let+ without := calculate_backtest_without_exclusion simulate_block block_data in
  let+ es := calculate_backtest_identity_and_order_exclusion simulate_block block_data ao without in
  let+ es := calc_joint_exclusion_results simulate_block block_data ao without es distribute_to_mempool_txs in
  let+ result := expect (apply_redistribution_formula onchain_block_profit ao es restored) in
  let+ result := expect (collect_redistribution_result block_data onchain_block_profit ao without es result restored) in
  if decide (redistributed_identity_value result <= onchain_block_profit /\
             redistributed_orders_value result <= onchain_block_profit)
  then Some (Ok result) else None.
End result.
