(* ===== verification/RedistributeSpec.v ===== *)
(** * Orders by identity

    Splitting the orders of a block by identity never panics, and everything that the
    calculation looks up later is there. *)

From stdpp Require Import sorting.
From S2P Require Import Prelude Transactions Bundles Orders OrderPriority World BacktestData BacktestExecute LandedOrders Redistribution Redistribute.

(** ** Collected maps *)
Lemma collect_snoc {K V} `{Countable K} (l : list (K * V)) k v : collect (l ++ [(k, v)]) = <[k := v]> (collect l).
Proof. unfold collect. by rewrite foldl_app. Qed.

Lemma collect_nil {K V} `{Countable K} (k : K) : collect (V:=V) [] !! k = None.
Proof. apply lookup_empty. Qed.

Lemma collect_is_Some {K V} `{Countable K} (l : list (K * V)) k : is_Some (collect l !! k) <-> k ∈ l.*1.
Proof.
  induction l as [| [k' v] l IH] using rev_ind.
  { rewrite collect_nil. split; [by intros [] | by intros ?%not_elem_of_nil]. }
  rewrite collect_snoc, lookup_insert_is_Some, fmap_app, elem_of_app, <- IH. cbn [fst fmap list_fmap].
  rewrite list_elem_of_singleton.
  destruct (decide (k' = k)); naive_solver.
Qed.

(** A key has the value of its last pair. *)
Lemma collect_last {K V} `{Countable K} (l : list (K * V)) k v : collect l !! k = Some v ->
  exists l1 l2, l = l1 ++ (k, v) :: l2 /\ k ∉ l2.*1.
Proof.
  induction l as [| [k' v'] l IH] using rev_ind; [by rewrite collect_nil |].
  rewrite collect_snoc, lookup_insert_Some. intros [[-> ->] | [Hne Hl]].
  - exists l, []. split; [done |]. apply not_elem_of_nil.
  - destruct (IH Hl) as (l1 & l2 & -> & Hk). exists l1, (l2 ++ [(k', v')]). split; [by rewrite <- (assoc_L (++)) |].
    rewrite fmap_app, not_elem_of_app. split; [done |]. by apply not_elem_of_cons; split; [| apply not_elem_of_nil].
Qed.

(** Values looked up by distinct keys that they carry are distinct. *)
Lemma omap_keys_NoDup {K A} (g : K -> option A) (key : A -> K) ks : NoDup ks ->
  (forall k a, g k = Some a -> key a = k) -> NoDup (key <$> omap g ks).
Proof.
  intros Hnd Hk. induction Hnd as [| k ks Hn Hnd IH]; [constructor |].
  cbn [omap list_omap]. destruct (g k) as [a |] eqn:E; [| exact IH].
  rewrite fmap_cons. constructor; [| exact IH]. rewrite (Hk k a E).
  intros (a' & -> & (k' & Hk' & E')%list_elem_of_omap)%list_elem_of_fmap. by rewrite (Hk k' a' E') in Hn.
Qed.

(** ** The included orders that are available *)
Definition by_id (block_data : BlockData) : gmap OrderId OrdersWithTimestamp :=
  collect ((fun o => (owt_id o, o)) <$> bd_available_orders block_data).

(** Distinct ids, each standing for the last available order with it. *)
Definition included_ok (block_data : BlockData) (included : list OrdersWithTimestamp) : Prop :=
  NoDup (owt_id <$> included) /\ forall o, o ∈ included -> by_id block_data !! owt_id o = Some o.

Lemma by_id_key block_data id o : by_id block_data !! id = Some o ->
  id = owt_id o /\ exists l1 l2, bd_available_orders block_data = l1 ++ o :: l2 /\ id ∉ owt_id <$> l2.
Proof.
  intros (l1 & l2 & Hl & Hn)%collect_last.
  apply fmap_app_inv in Hl as (k1 & k2 & -> & Hl & Hk). symmetry in Hl.
  apply fmap_cons_inv in Hl as (o' & k3 & [= -> ->] & -> & ->).
  split; [done |]. exists k1, k3. split; [done |]. intros Hin. apply Hn.
  apply list_elem_of_fmap in Hin as (o'' & Ho & Hin). rewrite Ho.
  apply list_elem_of_fmap. exists (owt_id o'', o''). split; [done |].
  by apply (list_elem_of_fmap_2 (fun o => (owt_id o, o))).
Qed.

Section with_iteration.
Context `{!HashOrder OrderId, !HashOrderOk OrderId, !HashOrder Z, !HashOrderOk Z}.

Lemma hash_order_NoDup `{Countable A, !HashOrder A, !HashOrderOk A} (s : gset A) : NoDup (hash_order s).
Proof. rewrite (hash_order_perm s). apply NoDup_elements. Qed.

Lemma elem_of_hash_order `{Countable A, !HashOrder A, !HashOrderOk A} (s : gset A) x : x ∈ hash_order s <-> x ∈ s.
Proof. rewrite (hash_order_perm s). apply elem_of_elements. Qed.

Lemma get_available_orders_ok block_data built distribute :
  included_ok block_data (get_available_orders block_data built distribute).
Proof.
  unfold get_available_orders. fold (by_id block_data). set (add := fun m id => _).
  assert (Hadd : forall ids m, map_Forall (fun id o => by_id block_data !! id = Some o) m ->
            map_Forall (fun id o => by_id block_data !! id = Some o) (foldl add m ids)).
  { intros ids. induction ids as [| id ids IH]; intros m Hm; [done |]. apply IH. unfold add.
    destruct (by_id block_data !! id) as [o |] eqn:E; [| done]. apply map_Forall_insert_2; [| done].
    destruct (by_id_key _ _ _ E) as [<- _]. done. }
  set (m := if distribute then _ else _).
  assert (Hm : map_Forall (fun id o => by_id block_data !! id = Some o) m).
  { unfold m. destruct distribute; repeat apply Hadd; apply map_Forall_empty. }
  clearbody m. clear add Hadd.
  split.
  - rewrite merge_sort_Permutation. apply omap_keys_NoDup; [apply hash_order_NoDup |].
    intros id o Ho. apply Hm in Ho. by apply by_id_key in Ho as [-> _].
  - intros o Ho. rewrite merge_sort_Permutation, list_elem_of_omap in Ho. destruct Ho as (k & _ & Hv).
    apply Hm in Hv as Hb. by destruct (by_id_key _ _ _ Hb) as [<- _].
Qed.

(** ** Identities *)

(** Transactions of the mempool have no signer of a request: nothing is unreachable. *)
Definition identity_of (protect_signers : list Address) (o : OrdersWithTimestamp) : option Address :=
  match order_redistribution_address (owt_order o) protect_signers with
  | Some (Some (address, _)) => Some address
  | _ => None
  end.

Lemma redistribution_address_total o protect_signers :
  is_Some (order_redistribution_address (owt_order o) protect_signers).
Proof.
  unfold order_redistribution_address. destruct (m_refund_identity _); [by eexists |].
  destruct (owt_order o) as [tx | b | b]; cbn [Order_signer].
  all: repeat case_match; try done; by eexists.
Qed.

Lemma split_included_spec protect orders by_address id_to_address without_address :
  exists by_address' id_to_address' without_address',
    split_included protect orders by_address id_to_address without_address
    = Some (by_address', id_to_address', without_address') /\
    (forall a, default [] (by_address' !! a) = default [] (by_address !! a)
       ++ (owt_id <$> filter (fun o => identity_of protect o = Some a) orders)) /\
    (forall a, is_Some (by_address' !! a) <->
       is_Some (by_address !! a) \/ exists o, o ∈ orders /\ identity_of protect o = Some a) /\
    (forall id, id ∈ without_address' <->
       id ∈ without_address \/ exists o, o ∈ orders /\ owt_id o = id /\ identity_of protect o = None).
Proof.
  revert by_address id_to_address without_address.
  induction orders as [| o orders IH]; intros by_address id_to_address without_address; cbn [split_included].
  { do 3 eexists. split; [done |]. setoid_rewrite elem_of_nil. split_and!; [| naive_solver | naive_solver].
    intros a. by rewrite app_nil_r. }
  destruct (redistribution_address_total o protect) as [found Hf]. rewrite Hf. cbn [mbind option_bind].
  assert (Hid : identity_of protect o = fst <$> found).
  { unfold identity_of. rewrite Hf. by destruct found as [[] |]. }
  destruct found as [[a b] |]; cbn [fmap option_fmap option_map fst] in Hid.
  - destruct (IH (<[a := default [] (by_address !! a) ++ [owt_id o]]> by_address)
        (<[owt_id o := a]> id_to_address) without_address) as (x & y & z & -> & H1 & H2 & H3).
    do 3 eexists. split; [done |]. setoid_rewrite elem_of_cons. split_and!.
    + intros a'. rewrite H1, filter_cons, Hid. destruct (decide (a = a')) as [<- | Hne].
      * rewrite lookup_insert_eq, decide_True by done. cbn [default from_option].
        unfold id. by rewrite fmap_cons, <- app_assoc.
      * rewrite lookup_insert_ne, decide_False by congruence. done.
    + intros a'. rewrite H2, lookup_insert_is_Some. destruct (decide (a = a')); naive_solver.
    + intros id. rewrite H3. naive_solver congruence.
  - destruct (IH by_address id_to_address ({[owt_id o]} ∪ without_address)) as (x & y & z & -> & H1 & H2 & H3).
    do 3 eexists. split; [done |]. setoid_rewrite elem_of_cons. split_and!.
    + intros a'. rewrite H1, filter_cons, Hid, decide_False by done. done.
    + intros a'. rewrite H2. naive_solver congruence.
    + intros id. rewrite H3, elem_of_union, elem_of_singleton. naive_solver.
Qed.

(** What a run of the second loop over some orders changes. *)
Definition split_grows (st st' : SplitState) (ids : list OrderId) : Prop :=
  (forall id, id ∉ ids -> st_orders_id_to_address st' !! id = st_orders_id_to_address st !! id) /\
  (forall a, is_Some (st_all_orders_by_address st !! a) -> is_Some (st_all_orders_by_address st' !! a)) /\
  (forall a id, id ∈ default [] (st_all_orders_by_address st' !! a) ->
     id ∈ default [] (st_all_orders_by_address st !! a) \/ id ∈ ids).

Lemma split_available_order_spec protect distribute inc st o :
  exists st', split_available_order protect distribute inc st o = Some st' /\ split_grows st st' [owt_id o] /\
    forall a, identity_of protect o = Some a -> owt_id o ∈ default [] (inc !! a) ->
      is_Some (st_all_orders_by_address st' !! a) /\ st_orders_id_to_address st' !! owt_id o = Some a.
Proof.
  unfold split_available_order, identity_of. destruct (redistribution_address_total o protect) as [found ->].
  cbn [mbind option_bind]. destruct found as [[a b] |].
  2: { eexists. split; [done |]. split; [| done]. split_and!; [done | done | by left]. }
  destruct (is_tx (owt_order o) && negb distribute && negb (bool_decide (owt_id o ∈ default [] (inc !! a)))) eqn:Hskip;
    eexists; (split; [reflexivity |]).
  - split; [by split_and!; [| | by left] |]. intros a' [= <-] Hin.
    rewrite bool_decide_true, andb_false_r in Hskip by done. done.
  - split.
    + split_and!; cbn [st_orders_id_to_address st_all_orders_by_address].
      * intros id Hid. apply lookup_insert_ne. intros <-. apply Hid. by left.
      * intros a' Ha. rewrite lookup_insert_is_Some. destruct (decide (a = a')); [by left | by right].
      * intros a' id. destruct (decide (a = a')) as [<- | Hne]; [| rewrite lookup_insert_ne by done; by left].
        rewrite lookup_insert_eq. cbn [default from_option]. unfold Datatypes.id. rewrite elem_of_app. done.
    + intros a' [= <-] _. cbn [st_orders_id_to_address st_all_orders_by_address].
      rewrite !lookup_insert_eq. split; [by eexists | done].
Qed.

Lemma split_grows_trans st1 st2 st3 ids1 ids2 : split_grows st1 st2 ids1 -> split_grows st2 st3 ids2 ->
  split_grows st1 st3 (ids1 ++ ids2).
Proof.
  intros (A1 & A2 & A3) (B1 & B2 & B3). split_and!.
  - intros id. rewrite not_elem_of_app. intros [H1 H2]. by rewrite B1, A1.
  - eauto.
  - intros a id [[? | ?]%A3 | ?]%B3; rewrite elem_of_app; auto.
Qed.

Lemma split_available_spec protect distribute inc orders st :
  exists st', split_available protect distribute inc orders st = Some st' /\
    split_grows st st' (owt_id <$> orders).
Proof.
  revert st. induction orders as [| o orders IH]; intros st; cbn [split_available].
  { exists st. split; [done |]. split_and!; [done | done | by left]. }
  destruct (split_available_order_spec protect distribute inc st o) as (st1 & -> & H1 & _).
  destruct (IH st1) as (st2 & -> & H2). exists st2. split; [done |].
  exact (split_grows_trans _ _ _ _ _ H1 H2).
Qed.

Lemma split_available_app protect distribute inc l1 l2 st :
  split_available protect distribute inc (l1 ++ l2) st
  = split_available protect distribute inc l1 st ≫= split_available protect distribute inc l2.
Proof.
  revert st. induction l1 as [| o l1 IH]; intros st; [done |]. cbn [split_available app].
  by destruct (split_available_order protect distribute inc st o).
Qed.

(** An included order ends under its identity. *)
Lemma split_included_order protect distribute inc l1 o l2 st st' a :
  split_available protect distribute inc (l1 ++ o :: l2) st = Some st' -> owt_id o ∉ owt_id <$> l2 ->
  identity_of protect o = Some a -> owt_id o ∈ default [] (inc !! a) ->
  is_Some (st_all_orders_by_address st' !! a) /\ st_orders_id_to_address st' !! owt_id o = Some a.
Proof.
  rewrite split_available_app. destruct (split_available_spec protect distribute inc l1 st) as (st1 & -> & _).
  cbn [mbind option_bind split_available]. intros Hs Hn Hid Hin.
  destruct (split_available_order_spec protect distribute inc st1 o) as (st2 & E2 & _ & H2). rewrite E2 in Hs.
  destruct (split_available_spec protect distribute inc l2 st2) as (st3 & E3 & G1 & G2 & _).
  rewrite E3 in Hs. injection Hs as <-. destruct (H2 a Hid Hin) as [Ha Ho]. split; [by apply G2 |].
  by rewrite G1.
Qed.

(** ** Well-formed orders by identity *)
Definition landed_ids (ao : AvailableOrders) : list OrderId := concat (ao_included_orders_by_address ao).*2.

Record ao_ok (ao : AvailableOrders) : Prop := {
  ok_addresses : NoDup (ao_included_orders_by_address ao).*1;
  ok_ids : NoDup (landed_ids ao);
  ok_all : forall a ids, (a, ids) ∈ ao_included_orders_by_address ao ->
    is_Some (ao_all_orders_by_address ao !! a);
  ok_known : forall a ids id, ao_all_orders_by_address ao !! a = Some ids -> id ∈ ids ->
    is_Some (ao_all_orders_by_id ao !! id);
  ok_landed : forall a ids id, (a, ids) ∈ ao_included_orders_by_address ao -> id ∈ ids ->
    is_Some (ao_all_orders_by_id ao !! id) /\ ao_orders_id_to_address ao !! id = Some a;
  ok_available : NoDup (owt_id <$> ao_included_orders_available ao);
  ok_available_ids : forall id, id ∈ owt_id <$> ao_included_orders_available ao <-> id ∈ landed_ids ao;
}.

Lemma elem_of_concat {A} (ls : list (list A)) x : x ∈ concat ls <-> exists l, l ∈ ls /\ x ∈ l.
Proof.
  rewrite list_elem_of_In, in_concat. by setoid_rewrite list_elem_of_In.
Qed.

Lemma NoDup_concat_keys {K A} (l : list (K * list A)) : NoDup l.*1 -> (forall k xs, (k, xs) ∈ l -> NoDup xs) ->
  (forall k xs k' xs' x, (k, xs) ∈ l -> (k', xs') ∈ l -> x ∈ xs -> x ∈ xs' -> k = k') -> NoDup (concat l.*2).
Proof.
  induction l as [| [k xs] l IH]; intros Hk Hn Hd; [constructor |]. rewrite fmap_cons in *. cbn [fst snd concat] in *.
  apply NoDup_cons in Hk as [Hk Hl]. apply NoDup_app. split_and!.
  - eapply Hn. by left.
  - intros x Hx (ys & ([k' ys'] & -> & Hin)%list_elem_of_fmap & Hy)%elem_of_concat.
    apply Hk. rewrite (Hd k xs k' ys' x); [| by left | by right | done | done].
    apply list_elem_of_fmap. by exists (k', ys').
  - apply IH; [done | intros k' xs' Hin; eapply Hn; by right |].
    intros k1 xs1 k2 xs2 x H1 H2. eapply Hd; by right.
Qed.

Lemma NoDup_key_inj {A B} (f : A -> B) (l : list A) x y : NoDup (f <$> l) -> x ∈ l -> y ∈ l -> f x = f y -> x = y.
Proof.
  intros Hnd (i & Hi)%list_elem_of_lookup (j & Hj)%list_elem_of_lookup Hf.
  assert (i = j) as ->; [| congruence]. eapply (NoDup_lookup (f <$> l) i j (f x)); [done | |].
  - by rewrite list_lookup_fmap, Hi.
  - by rewrite list_lookup_fmap, Hj, Hf.
Qed.

(** The entries by address, sorted. *)
Lemma sorted_entries (m : gmap Address (list OrderId)) :
  let l := (fun '(address, orders) => (address, merge_sort (key_le id) orders))
    <$> merge_sort (address_le fst) (omap (fun address => (address,.) <$> m !! address) (hash_order (dom m))) in
  NoDup l.*1 /\ forall a ids, (a, ids) ∈ l <-> exists ids0, m !! a = Some ids0 /\ ids = merge_sort (key_le id) ids0.
Proof.
  cbv zeta. split.
  - rewrite <- list_fmap_compose.
    rewrite (list_fmap_ext _ fst) by (by intros i [a ids] _). rewrite merge_sort_Permutation.
    apply omap_keys_NoDup; [apply hash_order_NoDup |]. intros k a (v & _ & ->)%fmap_Some. done.
  - intros a ids. rewrite list_elem_of_fmap. split.
    + intros ([a' ids'] & [= -> ->] & Hin). rewrite merge_sort_Permutation, list_elem_of_omap in Hin.
      destruct Hin as (k & _ & (v & Hv & [= -> ->])%fmap_Some). eauto.
    + intros (ids0 & Ha & ->). exists (a, ids0). split; [done |]. rewrite merge_sort_Permutation, list_elem_of_omap.
      exists a. rewrite Ha. split; [| done]. apply elem_of_hash_order, elem_of_dom. by eexists.
Qed.

(** The entries of the included orders, and where the second loop puts them. *)
Section entries.
Context (protect : list Address) (block_data : BlockData) (distribute : bool).
Context (included : list OrdersWithTimestamp) (Hinc : included_ok block_data included).
Context (inc : gmap Address (list OrderId)) (st0 st : SplitState).
Context (Hlist : forall a, default [] (inc !! a) = owt_id <$> filter (fun o => identity_of protect o = Some a) included).
Context (Hdom : forall a, is_Some (inc !! a) <-> exists o, o ∈ included /\ identity_of protect o = Some a).
Context (Hst : split_available protect distribute inc (bd_available_orders block_data) st0 = Some st).

Definition entries : list (Address * list OrderId) :=
  (fun '(address, orders) => (address, merge_sort (key_le id) orders))
    <$> merge_sort (address_le fst) (omap (fun address => (address,.) <$> inc !! address) (hash_order (dom inc))).

(** An id under an address is that of an included order of this identity. *)
Lemma entry_list a ids : (a, ids) ∈ entries ->
  ids ≡ₚ owt_id <$> filter (fun o => identity_of protect o = Some a) included.
Proof.
  intros (ids0 & Ha & ->)%sorted_entries. rewrite merge_sort_Permutation. specialize (Hlist a).
  rewrite Ha in Hlist. cbn in Hlist. unfold id in Hlist. by rewrite Hlist.
Qed.

Lemma entry_ids a ids i : (a, ids) ∈ entries ->
  i ∈ ids <-> exists o, o ∈ included /\ owt_id o = i /\ identity_of protect o = Some a.
Proof.
  intros Hin. rewrite (entry_list a ids Hin), list_elem_of_fmap. setoid_rewrite list_elem_of_filter. naive_solver.
Qed.

Lemma identity_has_entry a o : o ∈ included -> identity_of protect o = Some a -> exists ids, (a, ids) ∈ entries.
Proof.
  intros Ho Ha. destruct (proj2 (Hdom a)) as [ids0 Hi]; [eauto |].
  exists (merge_sort (key_le id) ids0). apply sorted_entries. eauto.
Qed.

Lemma entry_has_identity a ids : (a, ids) ∈ entries -> exists o, o ∈ included /\ identity_of protect o = Some a.
Proof. intros (ids0 & Ha & _)%sorted_entries. apply Hdom. by eexists. Qed.

Lemma entries_ids i : i ∈ concat entries.*2 <->
  exists o a, o ∈ included /\ owt_id o = i /\ identity_of protect o = Some a.
Proof.
  rewrite elem_of_concat. split.
  - intros (ids & ([a ids'] & -> & Hin)%list_elem_of_fmap & Hi). apply (entry_ids a ids' i Hin) in Hi as (o & ? & ? & ?). eauto.
  - intros (o & a & Ho & Hi & Ha). destruct (identity_has_entry a o Ho Ha) as [ids Hin].
    exists ids. split; [by apply (list_elem_of_fmap_2 snd) in Hin |]. apply (entry_ids a ids i Hin). eauto.
Qed.

Lemma entries_NoDup : NoDup entries.*1 /\ NoDup (concat entries.*2).
Proof.
  destruct Hinc as [Hnd _]. assert (NoDup entries.*1) as Hk by apply sorted_entries. split; [done |].
  apply NoDup_concat_keys; [done | |].
  - intros a ids Hin. rewrite (entry_list a ids Hin). eapply sublist_NoDup; [exact Hnd |].
    apply fmap_sublist, sublist_filter.
  - intros a ids a' ids' i Hi Hi' (o & Ho & Eo & Ha)%(entry_ids _ _ _ Hi) (o' & Ho' & Eo' & Ha')%(entry_ids _ _ _ Hi').
    assert (o = o') as -> by (eapply NoDup_key_inj; [exact Hnd | done | done | congruence]). congruence.
Qed.

Lemma included_placed o a : o ∈ included -> identity_of protect o = Some a ->
  is_Some (st_all_orders_by_address st !! a) /\ st_orders_id_to_address st !! owt_id o = Some a /\
  owt_id o ∈ owt_id <$> bd_available_orders block_data.
Proof.
  intros Ho Ha. destruct Hinc as [_ Hby]. destruct (by_id_key _ _ _ (Hby o Ho)) as (_ & l1 & l2 & Hl & Hn).
  rewrite Hl in Hst. assert (owt_id o ∈ default [] (inc !! a)) as Hoin.
  { rewrite Hlist. apply list_elem_of_fmap_2, list_elem_of_filter. eauto. }
  destruct (split_included_order _ _ _ _ _ _ _ _ _ Hst Hn Ha Hoin) as [? ?]. split_and!; [done | done |].
  rewrite Hl. apply (list_elem_of_fmap_2 owt_id). rewrite elem_of_app. right. by left.
Qed.
End entries.

Lemma split_ok included protect block_data distribute : included_ok block_data included ->
  exists ao, split_orders_by_identities included protect block_data distribute = Some ao /\ ao_ok ao /\
    forall id, id ∈ landed_ids ao <->
      exists o a, o ∈ included /\ owt_id o = id /\ identity_of protect o = Some a.
Proof.
  intros Hinc. unfold split_orders_by_identities.
  destruct (split_included_spec protect included ∅ ∅ ∅) as (inc & id2a & no & -> & H1 & H2 & H3).
  cbn [mbind option_bind].
  destruct (split_available_spec protect distribute inc (bd_available_orders block_data)
    {| st_all_orders_by_address := ∅; st_orders_id_to_address := id2a;
       st_bundle_hash_by_id := ∅; st_order_sender_by_id := ∅ |}) as (st & E & _ & _ & G3).
  rewrite E. fold (entries inc). eexists. split; [done |].
  assert (Hl : forall a, default [] (inc !! a) = owt_id <$> filter (fun o => identity_of protect o = Some a) included).
  { intros a. by rewrite H1, lookup_empty. }
  assert (Hd : forall a, is_Some (inc !! a) <-> exists o, o ∈ included /\ identity_of protect o = Some a).
  { intros a. rewrite H2, lookup_empty. split; [by intros [[] |] | by right]. }
  pose proof (included_placed protect block_data distribute included Hinc inc _ st Hl E) as Hplace.
  pose proof (entries_ids protect included inc Hl Hd) as Hids.
  assert (Hall : forall id, is_Some (collect ((fun o => (owt_id o, owt_order o)) <$> bd_available_orders block_data) !! id)
            <-> id ∈ owt_id <$> bd_available_orders block_data).
  { intros id. by rewrite collect_is_Some, <- list_fmap_compose. }
  destruct Hinc as [Hnd Hby].
  split; [split |]; unfold landed_ids; cbn [ao_included_orders_by_address ao_all_orders_by_address
    ao_all_orders_by_id ao_orders_id_to_address ao_included_orders_available].
  - by eapply entries_NoDup.
  - by eapply entries_NoDup.
  - intros a ids (o & Ho & Ha)%(entry_has_identity protect included inc Hd). by eapply Hplace.
  - intros a ids id Ha Hin. apply Hall. specialize (G3 a id). cbn in G3. rewrite Ha in G3.
    destruct (G3 Hin) as [Hn | ?]; [| done]. rewrite lookup_empty in Hn. by apply not_elem_of_nil in Hn.
  - intros a ids id Hin (o & Ho & <- & Ha)%(entry_ids protect included inc Hl Hd a ids id Hin).
    destruct (Hplace o a Ho Ha) as (_ & ? & ?). split; [by apply Hall | done].
  - eapply sublist_NoDup; [exact Hnd |]. apply fmap_sublist, sublist_filter.
  - intros id. rewrite Hids, list_elem_of_fmap. setoid_rewrite list_elem_of_filter. setoid_rewrite H3. split.
    + intros (o & -> & Hno & Ho). destruct (identity_of protect o) as [a |] eqn:Ea; [by eauto |].
      destruct Hno. right. eauto.
    + intros (o & a & Ho & <- & Hida). exists o. split_and!; [done | | done].
      intros [Hn | (o' & Ho' & Eo & Hn)]; [by apply not_elem_of_empty in Hn |].
      assert (o' = o) as -> by (by eapply NoDup_key_inj). congruence.
  - exact Hids.
Qed.
End with_iteration.
