(* ===== verification/RedistributeResult.v ===== *)
(** * Redistribution does not panic

    The calculation looks nothing up that is not there, its assertions hold, and it
    fails only when a block cannot be replayed or built. *)

From stdpp Require Import sorting.
From S2P Require Import Prelude Transactions Bundles Orders OrderPriority World Redistribution RedistributionSpec BacktestData BacktestExecute LandedOrders LandedOrdersSpec Redistribute RedistributeSpec.

(** ** Weakest preconditions

    A computation that does not panic, fails only if [F], and else gives a value with
    [Q]. *)
Definition wp {A} (F : Prop) (m : Eyre A) (Q : A -> Prop) : Prop :=
  match m with
  | Some (Ok a) => Q a
  | Some (Err _) => F
  | None => False
  end.

Section wp.
Context (F : Prop).

Lemma wp_mono {A} (m : Eyre A) (Q Q' : A -> Prop) : wp F m Q -> (forall a, Q a -> Q' a) -> wp F m Q'.
Proof. destruct m as [[a | e] |]; simpl; auto. Qed.

Lemma wp_bind {A B} (m : Eyre A) (f : A -> Eyre B) P Q :
  wp F m P -> (forall a, P a -> wp F (f a) Q) -> wp F (eyre_bind m f) Q.
Proof. destruct m as [[a | e] |]; simpl; auto. Qed.

Lemma wp_expect {A} (o : option A) (Q : A -> Prop) : (exists a, o = Some a /\ Q a) -> wp F (expect o) Q.
Proof. intros (a & -> & H). exact H. Qed.

Lemma wp_ok {A} (a : A) (Q : A -> Prop) : Q a -> wp F (Some (Ok a)) Q.
Proof. done. Qed.

Lemma wp_no_fail {A} (m : Eyre A) (Q : A -> Prop) : wp F m Q -> ~ F -> exists a, m = Some (Ok a) /\ Q a.
Proof. destruct m as [[a | e] |]; simpl; [eauto | done | done]. Qed.

Lemma wp_mapM {A B} (f : A -> Eyre B) (Q : A -> B -> Prop) l : (forall a, a ∈ l -> wp F (f a) (Q a)) ->
  wp F (eyre_mapM f l) (Forall2 Q l).
Proof.
  induction l as [| a l IH]; intros H; cbn [eyre_mapM]; [by constructor |].
  eapply wp_bind; [apply H; left |]. intros b Hb.
  eapply wp_bind; [apply IH; intros a' Ha; apply H; by right |]. intros bs Hbs. by constructor.
Qed.
End wp.

Lemma Forall2_fst {A B K} (key : A -> K) (Q : A -> K * B -> Prop) l k : Forall2 Q l k ->
  (forall a p, Q a p -> p.1 = key a) -> k.*1 = key <$> l.
Proof. intros H Hk. induction H as [| a p l k Hp _ IH]; [done |]. rewrite !fmap_cons, IH. f_equal. by apply Hk. Qed.

(** ** Building blocks *)
Section exclusion.
Context `{!HashOrder OrderId, !HashOrderOk OrderId, !HashOrder Z, !HashOrderOk Z}.
Context `{!HashOrder (Address * Address), !HashOrderOk (Address * Address)}.
Context (F : Prop) (simulate_block : BlockData -> Eyre BlockBacktestValue).

(** Blocks are built, with bids that fit a signed integer, or [F]. *)
Definition builds : Prop := forall d, wp F (simulate_block d) (fun v =>
  (builder_outputs v = [] -> F) /\ Forall (fun o => 0 <= our_bid_value o < 2 ^ 255) (builder_outputs v)).
Context (Hsim : builds).

Lemma max_bid_elem outputs : outputs <> [] -> exists o, max_bid outputs = Some o /\ o ∈ outputs.
Proof.
  intros Hne. unfold max_bid. induction outputs as [| o l IH] using rev_ind; [done |].
  rewrite foldl_app. cbn [foldl]. destruct (decide (l = [])) as [-> | Hl].
  - exists o. split; [done |]. by left.
  - destruct (IH Hl) as (b & -> & Hb). case_decide; [exists o | exists b]; (split; [done |]);
      rewrite elem_of_app; [right; by left | by left].
Qed.

Lemma exclusion_wp d input : 0 <= ei_profit_before input < 2 ^ 255 ->
  wp F (calc_profit_after_exclusion simulate_block d input) (fun r => 0 <= ex_profit r < 2 ^ 255).
Proof.
  intros Hp. unfold calc_profit_after_exclusion. eapply wp_bind; [apply Hsim |]. intros v [Hne Hb].
  destruct (decide (builder_outputs v = [])) as [E | Hv].
  { rewrite E. cbn. auto. }
  destruct (max_bid_elem _ Hv) as (o & -> & Ho). rewrite Forall_forall in Hb. specialize (Hb o Ho).
  eapply wp_bind; [by apply (wp_ok F o (eq o)) |]. intros ? <-.
  eapply wp_bind; [apply (wp_expect F _ (fun _ => True)) |].
  - unfold signed_uint_delta, i256_try_from. rewrite !decide_True by lia. eauto.
  - intros delta _. exact Hb.
Qed.

Lemma without_wp d : wp F (calculate_backtest_without_exclusion simulate_block d) (fun r => 0 <= rw_profit r < 2 ^ 255).
Proof.
  unfold calculate_backtest_without_exclusion. eapply wp_bind; [apply exclusion_wp; cbn; lia |]. by intros r Hr.
Qed.

(** ** Excluding orders and identities *)
Context (ao : AvailableOrders) (Hao : ao_ok ao).

Lemma exclude_others_Some nonces replacement exclusion others :
  (forall id, id ∈ others -> is_Some (ao_all_orders_by_id ao !! id)) ->
  is_Some (exclude_others ao nonces replacement exclusion others).
Proof.
  revert exclusion. induction others as [| id others IH]; intros exclusion H; [by eexists |].
  cbn [exclude_others]. unfold get_nonces_and_replacement. destruct (H id) as [o ->]; [left |].
  apply IH. intros id' Hin. apply H. by right.
Qed.

Lemma order_exclusions_Some a ids id : (a, ids) ∈ ao_included_orders_by_address ao -> id ∈ ids ->
  is_Some (order_exclusions ao a id).
Proof.
  intros Hin Hid. unfold order_exclusions, get_nonces_and_replacement.
  destruct (ok_landed ao Hao a ids id Hin Hid) as [[o ->] _]. destruct (ok_all ao Hao a ids Hin) as [all Ha].
  cbn [mbind option_bind]. rewrite Ha. apply exclude_others_Some. intros id' Hid'. by eapply ok_known.
Qed.

Lemma mapM_pairs_fst {A B} (f : A -> option B) l k : mapM (fun x => (x,.) <$> f x) l = Some k -> k.*1 = l.
Proof.
  intros H%mapM_Some_1. induction H as [| x [y b] l k Hx _ IH]; [done |].
  rewrite fmap_cons, IH. apply fmap_Some in Hx as (? & _ & [= -> _]). done.
Qed.

Lemma individual_exclusions : exists m, calc_individual_included_orders_exclusion ao = Some m /\
  forall id, id ∈ landed_ids ao -> is_Some (m !! id).
Proof.
  unfold calc_individual_included_orders_exclusion. set (f := fun '(address, included_orders) => _).
  assert (is_Some (mapM f (ao_included_orders_by_address ao))) as [pairs E].
  { apply mapM_is_Some, Forall_forall. intros [a ids] Hin. apply mapM_is_Some, Forall_forall. intros id Hid.
    destruct (order_exclusions_Some a ids id Hin Hid) as [e He]. exists (id, e). by apply fmap_Some_2. }
  rewrite E. eexists. split; [done |]. intros id Hid. apply collect_is_Some.
  assert ((concat pairs).*1 = landed_ids ao) as ->; [| done]. unfold landed_ids. apply mapM_Some_1 in E.
  induction E as [| [a ids] p l ps Hp _ IH]; [done |]. rewrite fmap_cons. cbn [concat snd].
  rewrite fmap_app, IH. f_equal. by eapply mapM_pairs_fst.
Qed.

Lemma take_exclusions_Some m orders : NoDup (owt_id <$> orders) ->
  (forall id, id ∈ owt_id <$> orders -> is_Some (m !! id)) ->
  exists r, take_exclusions m orders = Some r /\ r.*1 = owt_id <$> orders.
Proof.
  revert m. induction orders as [| o orders IH]; intros m Hnd H; [by exists [] |].
  rewrite fmap_cons in *. apply NoDup_cons in Hnd as [Hn Hnd]. cbn [take_exclusions].
  destruct (H (owt_id o)) as [e He]; [left |]. rewrite He. cbn [mbind option_bind].
  destruct (IH (delete (owt_id o) m) Hnd) as (r & -> & Hr).
  { intros id Hid. rewrite lookup_delete_ne; [apply H; by right |]. by intros <-. }
  eexists. split; [done |]. rewrite fmap_cons. cbn [fst]. by rewrite Hr.
Qed.

(** Every landed order and every identity has a result. *)
Definition results_ok (es : ExclusionResults) : Prop :=
  (forall id, is_Some (es_landed_orders es !! id) <-> id ∈ landed_ids ao) /\
  (forall a ids, (a, ids) ∈ ao_included_orders_by_address ao -> is_Some (es_identities es !! a)).

Lemma exclusions_wp d without : 0 <= rw_profit without < 2 ^ 255 ->
  wp F (calculate_backtest_identity_and_order_exclusion simulate_block d ao without) results_ok.
Proof.
  intros Hp. unfold calculate_backtest_identity_and_order_exclusion.
  destruct individual_exclusions as (m & -> & Hm).
  destruct (take_exclusions_Some m (ao_included_orders_available ao)) as (r & Hr & Hfst).
  { apply ok_available, Hao. }
  { intros id Hid. apply Hm. by apply (ok_available_ids ao Hao). }
  cbn [expect fmap option_fmap option_map eyre_bind]. rewrite Hr. cbn [expect fmap option_fmap option_map eyre_bind].
  eapply wp_bind; [apply (wp_mapM F _ (fun a p => p.1 = a.1)) |].
  { intros [id exclusions] _. eapply wp_bind; [by apply exclusion_wp |]. by intros ok _. }
  intros landed Hl. eapply wp_bind; [apply (wp_mapM F _ (fun a p => p.1 = a.1)) |].
  { intros [a ids] Hin. eapply wp_bind; [apply (wp_expect F _ (fun _ => True)) |].
    - destruct (ok_all ao Hao a ids Hin) as [orders ->]. eauto.
    - intros orders _. eapply wp_bind; [by apply exclusion_wp |]. by intros ok _. }
  intros identities Hi. apply wp_ok. split.
  - intros id. cbn [es_landed_orders]. rewrite collect_is_Some, (Forall2_fst fst _ _ _ Hl) by done.
    rewrite Hfst. apply ok_available_ids, Hao.
  - intros a ids Hin. cbn [es_identities]. rewrite collect_is_Some, (Forall2_fst fst _ _ _ Hi) by done.
    by apply (list_elem_of_fmap_2 fst) in Hin.
Qed.

(** ** Pairs of identities *)
Definition known_address (a : Address) : Prop := a ∈ (ao_included_orders_by_address ao).*1.
Definition known_pair (p : Address * Address) : Prop := known_address p.1 /\ known_address p.2.

Lemma landed_address id : id ∈ landed_ids ao ->
  exists a, ao_orders_id_to_address ao !! id = Some a /\ known_address a.
Proof.
  intros (ids & ([a ids'] & -> & Hin)%list_elem_of_fmap & Hid)%elem_of_concat. exists a. split.
  - by eapply ok_landed.
  - by apply (list_elem_of_fmap_2 fst) in Hin.
Qed.

Lemma conflicts_with_spec a orders : known_address a ->
  exists l, conflicts_with ao a orders = Some l /\ Forall known_pair l.
Proof.
  intros Ha. induction orders as [| id orders (l & IH & Hl)]; cbn [conflicts_with]; [by eexists |].
  destruct (existsb _ _) eqn:E; [| by eexists].
  apply existsb_exists in E as (o & Ho & Hid%bool_decide_eq_true). apply list_elem_of_In in Ho.
  assert (id ∈ landed_ids ao) as Hin.
  { apply (ok_available_ids ao Hao). rewrite <- Hid. by apply list_elem_of_fmap_2. }
  destruct (landed_address id Hin) as (a2 & -> & Ha2). cbn [mbind option_bind]. rewrite IH. cbn [mbind option_bind].
  eexists. split; [done |]. case_decide; [done |]. constructor; [| done]. unfold known_pair. cbn [fst snd].
  destruct (Z.min_spec a a2) as [[_ ->] | [_ ->]], (Z.max_spec a a2) as [[_ ->] | [_ ->]]; done.
Qed.

Lemma dedup_elem `{EqDecision A} (l : list A) x : x ∈ dedup l -> x ∈ l.
Proof.
  induction l as [| a l IH]; [done |]. cbn [dedup]. destruct l as [| b l']; [done |].
  case_decide; [by right; apply IH |]. intros [-> | Hx]%elem_of_cons; [left | right]. auto.
Qed.

Lemma todo_spec distribute landed : (forall id, is_Some (landed !! id) -> id ∈ landed_ids ao) ->
  exists todo, joint_contribution_todo ao distribute landed = Some todo /\ Forall known_pair todo.
Proof.
  intros Hl. unfold joint_contribution_todo.
  assert (Ho : forall id, id ∈ hash_order (dom landed) ->
    exists l, order_conflicts ao distribute landed id = Some l /\ Forall known_pair l).
  { intros id [r Hr]%elem_of_hash_order%elem_of_dom. unfold order_conflicts. rewrite Hr.
    destruct (landed_address id) as (a & -> & Ha); [apply Hl; by eexists |]. by apply conflicts_with_spec. }
  assert (is_Some (mapM (order_conflicts ao distribute landed) (hash_order (dom landed)))) as [ls E].
  { apply mapM_is_Some, Forall_forall. intros id (l & E & _)%Ho. exists l. exact E. }
  rewrite E. eexists. split; [done |]. apply Forall_forall. intros p Hp%dedup_elem.
  rewrite merge_sort_Permutation in Hp. apply elem_of_concat in Hp as (l & Hin & Hp).
  apply mapM_Some_1 in E. apply list_elem_of_lookup in Hin as [i Hi].
  destruct (Forall2_lookup_r _ _ _ _ _ E Hi) as (id & Hid & Hc).
  apply list_elem_of_lookup_2 in Hid. destruct (Ho id Hid) as (l' & Hl' & Hk).
  assert (l' = l) as -> by congruence. rewrite Forall_forall in Hk. by apply Hk.
Qed.

Lemma known_lookup {B} (m : gmap Address B) a : known_address a ->
  (forall a ids, (a, ids) ∈ ao_included_orders_by_address ao -> is_Some (m !! a)) -> is_Some (m !! a).
Proof. intros ([a' ids] & -> & Hin)%list_elem_of_fmap H. by eapply H. Qed.

Lemma joint_wp d without es distribute : 0 <= rw_profit without < 2 ^ 255 -> results_ok es ->
  wp F (calc_joint_exclusion_results simulate_block d ao without es distribute) results_ok.
Proof.
  intros Hp [Hes1 Hes2]. unfold calc_joint_exclusion_results.
  destruct (todo_spec distribute (es_landed_orders es)) as (todo & -> & Htodo); [intros id; apply Hes1 |].
  rewrite Forall_forall in Htodo. cbn [expect fmap option_fmap option_map eyre_bind].
  eapply wp_bind; [apply (wp_mapM F _ (fun a p => p.1 = a)) |].
  { intros [a1 a2] [H1 H2]%Htodo. cbn [fst snd] in H1, H2.
    destruct (known_lookup _ _ H1 (ok_all ao Hao)) as [o1 ->], (known_lookup _ _ H2 (ok_all ao Hao)) as [o2 ->].
    cbn [expect fmap option_fmap option_map eyre_bind].
    eapply wp_bind; [by apply exclusion_wp |]. by intros ok _. }
  intros joint Hj. assert (joint.*1 = todo) as ->.
  { rewrite (Forall2_fst id _ _ _ Hj) by done. apply list_fmap_id. }
  assert (forallb (identities_known es) todo = true) as ->.
  { apply forallb_forall. intros p Hin%list_elem_of_In. destruct (Htodo p Hin) as [H1 H2].
    unfold identities_known. rewrite !bool_decide_true by (by eapply known_lookup). done. }
  by split.
Qed.
End exclusion.

(** * What is redistributed in total

    The payments that are reported for identities and for orders are parts of the
    profit of the block. *)

(** ** Recovered orders *)
Definition earned (restored : LandedMap) (id : OrderId) : Z := Z.max 0 (unique_of restored id).

Lemma recovered_spec restored ids : (forall id, id ∈ ids -> is_Some (restored !! id)) ->
  exists l, recovered_orders restored ids = Some l /\
    Forall (fun x => 0 <= x) (io_realized_value <$> l) /\
    zsum (io_realized_value <$> l) <= zsum (earned restored <$> ids).
Proof.
  induction ids as [| id ids IH]; intros H; cbn [recovered_orders].
  { exists []. split; [done |]. split; [constructor | done]. }
  destruct (H id) as [e He]; [left |]. destruct IH as (l & -> & Hl & Hs); [intros id' Hin; apply H; by right |].
  rewrite He. cbn [mbind option_bind]. eexists. split; [done |].
  assert (earned restored id = Z.max 0 (lo_unique_coinbase_profit e)) as Eid.
  { unfold earned, unique_of. by rewrite He. }
  rewrite fmap_cons. cbn [zsum foldr]. fold (zsum (earned restored <$> ids)). rewrite Eid. unfold positive_part.
  destruct (lo_error e); [split; [done | lia] |]. case_decide; [| split; [done | lia]].
  rewrite fmap_cons. cbn [io_realized_value zsum foldr]. fold (zsum (io_realized_value <$> l)).
  split; [constructor; [lia | done] | lia].
Qed.

Lemma identities_spec es restored entries :
  (forall a ids, (a, ids) ∈ entries -> is_Some (es_identities es !! a)) ->
  (forall a ids id, (a, ids) ∈ entries -> id ∈ ids -> is_Some (restored !! id)) ->
  exists l, identities_of es restored entries = Some l /\
    Forall (fun i => Forall (fun x => 0 <= x) (order_values i)) l /\
    Forall (fun i => 0 <= ri_block_value_delta i) l /\
    zsum ((fun i => zsum (order_values i)) <$> l) <= zsum (earned restored <$> concat entries.*2).
Proof.
  induction entries as [| [a ids] entries IH]; intros H1 H2; cbn [identities_of].
  { exists []. split; [done |]. split_and!; [constructor | constructor | done]. }
  destruct (recovered_spec restored ids) as (l & -> & Hl & Hs).
  { intros id Hid. eapply H2; [left | done]. }
  destruct (H1 a ids) as [r Hr]; [left |]. rewrite Hr. cbn [mbind option_bind].
  destruct IH as (k & -> & K1 & K2 & K3); [intros; eapply H1; by right | intros a' ids' id Hin; eapply H2; by right |].
  cbn [mbind option_bind]. eexists. split; [done |]. rewrite fmap_cons. cbn [snd concat].
  rewrite fmap_app, zsum_app. pose proof (zsum_nonneg _ Hl) as Hl0. unfold positive_part. case_decide.
  - rewrite fmap_cons. cbn [zsum foldr]. fold (zsum ((fun i => zsum (order_values i)) <$> k)).
    unfold order_values at 2. cbn [ri_included_orders].
    split_and!; [by constructor | constructor; [cbn [ri_block_value_delta]; lia | done] | lia].
  - split_and!; [done | done | lia].
Qed.

(** ** Shares found by key *)
Section find.
Context {A K : Type} `{EqDecision K} (key : A -> K) (val : A -> Z).

Definition found (l : list A) (k : K) : Z := from_option val 0 (find (fun a => bool_decide (key a = k)) l).

Lemma found_total l ks : NoDup ks -> Forall (fun a => 0 <= val a) l ->
  zsum (found l <$> ks) <= zsum (val <$> l) /\ Forall (fun x => 0 <= x) (found l <$> ks).
Proof.
  intros Hks. induction 1 as [| a l Ha Hl [IH1 IH2]].
  { assert (found [] <$> ks = (fun _ => 0) <$> ks) as ->.
    { apply list_fmap_ext. done. }
    split; [| apply Forall_fmap, Forall_true; done].
    clear. induction ks as [| k ks IH]; [done | exact IH]. }
  rewrite fmap_cons. cbn [zsum foldr]. fold (zsum (val <$> l)).
  assert (Hf : forall k, found (a :: l) k = if decide (key a = k) then val a else found l k).
  { intros k. unfold found. cbn [find].
    destruct (decide (key a = k)); [by rewrite bool_decide_true | by rewrite bool_decide_false]. }
  assert (Hpos : forall k, k ∈ ks -> 0 <= found l k).
  { intros k Hk. rewrite Forall_fmap, Forall_forall in IH2. by apply IH2. }
  split.
  - transitivity (zsum ((fun k => (if decide (key a = k) then val a else 0) + found l k) <$> ks)).
    + apply zsum_le, Forall2_fmap_2, Forall_Forall2_diag, Forall_forall. intros k Hk. rewrite Hf.
      specialize (Hpos k Hk). case_decide; lia.
    + rewrite zsum_add. pose proof (zsum_single_le (key a) (val a) ks Ha Hks). lia.
  - apply Forall_fmap, Forall_forall. intros k Hk. unfold compose. rewrite Hf. case_decide; [done |]. by apply Hpos.
Qed.
End find.

(** ** The formula *)

(** Payments are nonnegative, and those of orders are parts of that of their identity. *)
Definition payment_ok (e : RedistributionEntityResult) : Prop :=
  0 <= redistribution_value e /\ Forall (fun x => 0 <= x.2) (order_redistribution_value e) /\
  zsum (order_redistribution_value e).*2 <= redistribution_value e.

Lemma entity_payment_ok i e : entity_ok i e -> payment_ok e.
Proof.
  intros (_ & H1 & _ & H2 & H3 & _). split; [lia |]. split; [| done].
  apply (Forall_fmap snd (fun x => 0 <= x)). clear -H2. induction H2; constructor; [lia | done].
Qed.

Section collected.
Context `{!HashOrder OrderId, !HashOrder (Address * Address)}.

Lemma formula_spec profit ao es restored : results_ok ao es -> 0 <= profit ->
  (forall id, id ∈ landed_ids ao -> is_Some (restored !! id)) ->
  zsum (earned restored <$> landed_ids ao) < 2 ^ 128 ->
  exists r, apply_redistribution_formula profit ao es restored = Some r /\
    zsum (redistribution_value <$> value_by_identity r) <= profit /\ Forall payment_ok (value_by_identity r).
Proof.
  intros [_ Hes] Hp Hr Hs. unfold apply_redistribution_formula.
  destruct (identities_spec es restored (ao_included_orders_by_address ao) Hes) as (ids & -> & I1 & I2 & I3).
  { intros a l id Hin Hid. apply Hr, elem_of_concat. exists l. split; [| done]. by apply (list_elem_of_fmap_2 snd) in Hin. }
  cbn [mbind option_bind].
  match goal with |- context [calculate_redistribution ?d] => destruct (redistribution_spec d) as (r & -> & H1 & H2 & H3 & _) end.
  - split; cbn [landed_block_profit identity_data joint_block_value_delta]; [done | done | done | |].
    + apply Forall_forall. intros x (y & _ & Hx)%list_elem_of_omap. unfold positive_part in Hx.
      case_decide; simplify_eq/=. lia.
    + unfold landed_ids in Hs. lia.
  - exists r. cbn [landed_block_profit identity_data] in *. split_and!; [done | lia |].
    apply Forall_forall. intros e He. apply list_elem_of_lookup in He as [n He].
    destruct (Forall2_lookup_r _ _ _ _ _ H3 He) as (i & _ & Hi). by eapply entity_payment_ok.
Qed.

(** ** The collected result *)
Lemma order_share_total entity ids : NoDup ids -> from_option payment_ok True entity ->
  zsum (order_share entity <$> ids) <= from_option redistribution_value 0 entity /\
  Forall (fun x => 0 <= x) (order_share entity <$> ids).
Proof.
  intros Hnd He. destruct entity as [e |]; cbn [from_option] in *.
  - destruct He as (H0 & H1 & H2).
    assert (order_share (Some e) <$> ids = found fst snd (order_redistribution_value e) <$> ids) as ->.
    { apply list_fmap_ext. intros i id _. unfold order_share, found. cbn [mbind option_bind]. by destruct (find _ _). }
    destruct (found_total fst snd (order_redistribution_value e) ids Hnd H1). split; [lia | done].
  - assert (order_share None <$> ids = (fun _ => 0) <$> ids) as -> by (by apply list_fmap_ext).
    split; [| by apply Forall_fmap, Forall_true]. clear. induction ids as [| id ids IH]; [done | exact IH].
Qed.

Lemma collect_identity_spec ao without es r restored a ids :
  is_Some (es_identities es !! a) ->
  (forall id, id ∈ ids -> is_Some (es_landed_orders es !! id) /\ is_Some (restored !! id)) ->
  exists orders identity, collect_identity ao without es r restored (a, ids) = Some (orders, identity) /\
    od_redistribution_value_received <$> orders
    = order_share (find (fun e => bool_decide (re_address e = a)) (value_by_identity r)) <$> ids /\
    id_redistribution_value_received identity = found re_address redistribution_value (value_by_identity r) a.
Proof.
  intros [x Hx] Hids. unfold collect_identity. set (entity := find _ _).
  assert (is_Some (mapM (collect_order ao without es restored a entity) ids)) as [orders E].
  { apply mapM_is_Some, Forall_forall. intros id Hid. destruct (Hids id Hid) as [[y Hy] [z Hz]].
    unfold compose, collect_order. rewrite Hy, Hz. by eexists. }
  rewrite E, Hx. do 2 eexists. split; [done |]. split; [| done]. apply mapM_Some_1 in E.
  induction E as [| id o l k Ho _ IH]; [done |]. rewrite !fmap_cons, IH by (intros id' Hid'; apply Hids; by right).
  f_equal. unfold collect_order in Ho. destruct (es_landed_orders es !! id); [| done].
  destruct (restored !! id); [| done]. by injection Ho as <-.
Qed.
End collected.

Section collected_all.
Context `{!HashOrder OrderId, !HashOrder (Address * Address)}.
Context (ao : AvailableOrders) (without : ResultsWithoutExclusion) (es : ExclusionResults).
Context (r : RedistributionResult) (restored : LandedMap) (Hpay : Forall payment_ok (value_by_identity r)).

Lemma find_payment_ok a :
  from_option payment_ok True (find (fun e => bool_decide (re_address e = a)) (value_by_identity r)).
Proof.
  destruct (find _ _) as [e |] eqn:E; [| done]. apply find_some in E as [Hin%list_elem_of_In _].
  rewrite Forall_forall in Hpay. by apply Hpay.
Qed.

Lemma collect_entries_spec entries : NoDup (concat entries.*2) ->
  (forall a ids, (a, ids) ∈ entries -> is_Some (es_identities es !! a)) ->
  (forall id, id ∈ concat entries.*2 -> is_Some (es_landed_orders es !! id) /\ is_Some (restored !! id)) ->
  exists parts, mapM (collect_identity ao without es r restored) entries = Some parts /\
    id_redistribution_value_received <$> parts.*2
    = found re_address redistribution_value (value_by_identity r) <$> entries.*1 /\
    Forall (fun x => 0 <= x) (od_redistribution_value_received <$> concat parts.*1) /\
    zsum (od_redistribution_value_received <$> concat parts.*1)
    <= zsum (found re_address redistribution_value (value_by_identity r) <$> entries.*1).
Proof.
  induction entries as [| [a ids] entries IH]; intros Hnd H1 H2.
  { exists []. split; [done |]. split_and!; [done | constructor | done]. }
  rewrite !fmap_cons in *. cbn [fst snd concat] in *. apply NoDup_app in Hnd as (Hids & _ & Hnd).
  destruct (collect_identity_spec ao without es r restored a ids) as (orders & identity & E & Ho & Hi).
  { eapply H1. left. }
  { intros id Hid. apply H2. rewrite elem_of_app. by left. }
  destruct IH as (parts & Em & P1 & P2 & P3); [done | intros; eapply H1; by right | |].
  { intros id Hid. apply H2. rewrite elem_of_app. by right. }
  exists ((orders, identity) :: parts). split; [apply mapM_Some_2; constructor; [done | by apply mapM_Some_1] |].
  rewrite !fmap_cons. cbn [fst snd concat]. rewrite fmap_app, zsum_app, P1, Hi, Ho.
  destruct (order_share_total _ ids Hids (find_payment_ok a)) as [S1 S2].
  split_and!; [done | by apply Forall_app |]. cbn [zsum foldr]. unfold zsum, found in *. lia.
Qed.

Lemma collect_spec d profit : ao_ok ao -> results_ok ao es ->
  (forall id, id ∈ landed_ids ao -> is_Some (restored !! id)) ->
  exists out, collect_redistribution_result d profit ao without es r restored = Some out /\
    ro_block_profit out = profit /\
    Forall (fun x => 0 <= x) (id_redistribution_value_received <$> ro_identities out) /\
    zsum (id_redistribution_value_received <$> ro_identities out)
    <= zsum (redistribution_value <$> value_by_identity r) /\
    Forall (fun x => 0 <= x) (od_redistribution_value_received <$> ro_landed_orders out) /\
    zsum (od_redistribution_value_received <$> ro_landed_orders out)
    <= zsum (id_redistribution_value_received <$> ro_identities out).
Proof.
  intros Hao [Hes1 Hes2] Hr. unfold collect_redistribution_result.
  destruct (collect_entries_spec (ao_included_orders_by_address ao)) as (parts & -> & P1 & P2 & P3);
    [apply ok_ids, Hao | exact Hes2 | |].
  { intros id Hid. split; [by apply Hes1 | by apply Hr]. }
  eexists. split; [done |]. cbn [ro_identities ro_landed_orders ro_block_profit]. rewrite P1.
  destruct (found_total re_address redistribution_value (value_by_identity r)
    (ao_included_orders_by_address ao).*1) as [F1 F2]; [apply ok_addresses, Hao | |].
  { eapply Forall_impl; [exact Hpay |]. by intros e []. }
  by split_and!.
Qed.
End collected_all.

(** * The result of a redistribution

    With the profits of the landed block bounded, a redistribution ends without
    panic and gives back at most the profit of the block. *)

(** ** What landed orders earned is part of what the block earned *)
Lemma net_profit_abs profit kickback : Z.abs (net_profit profit kickback) <= Z.abs profit.
Proof.
  unfold net_profit. case_decide; [done |]. cbv zeta. unfold checked_sub, i256_try_from.
  assert (forall v, 0 <= get_percent v kickback) as Hp.
  { intros v. unfold get_percent, u256_mul, wrap. pose proof (Z.mod_pos_bound (v * kickback) (2 ^ 256)).
    apply Z.div_pos; lia. }
  pose proof (Hp profit). pose proof (Hp 0). repeat case_decide; cbn [default from_option]; unfold id; lia.
Qed.

Lemma regroup_key {A K} `{EqDecision K} (key : A -> K) (f : A -> Z) L ks : NoDup ks -> (forall a, a ∈ L -> key a ∈ ks) ->
  zsum ((fun k => zsum (f <$> filter (fun a => key a = k) L)) <$> ks) = zsum (f <$> L).
Proof.
  intros Hnd. induction L as [| a L IH]; intros H.
  { clear Hnd H. induction ks as [| k ks IHk]; [done | exact IHk]. }
  rewrite (list_fmap_ext _ (fun k => (if decide (key a = k) then f a else 0) + zsum (f <$> filter (fun a => key a = k) L))).
  - rewrite zsum_add, zsum_single, IH; [done | intros a' Ha; apply H; by right | done | apply H; by left].
  - intros i k _. rewrite filter_cons. case_decide; [done | lia].
Qed.

Section earned.
Context (block : list ExecutedBlockTx) (L : list Claim).
Let d := new_from_txs block.
Definition abs_profit (tx : ExecutedBlockTx) : Z := Z.abs (eb_coinbase_profit tx).
Definition abs_sole (tx : B256) (kickback : Z) : Z := Z.abs (sole_profit d L tx kickback).

Lemma profit_of_found tx : Z.abs (profit_of d tx) = found eb_hash abs_profit (reverse block) tx.
Proof.
  unfold d, profit_of, tx_coinbase_profit, find_tx. cbn [ed_txs_by_hash ed_block_txs new_from_txs].
  induction block as [| t l IH] using rev_ind; [done |]. unfold index_txs in *. rewrite imap_app, foldl_app.
  cbn [imap foldl]. rewrite Nat.add_0_r, reverse_snoc. unfold found. cbn [find].
  destruct (decide (eb_hash t = tx)) as [Heq | Hne].
  - rewrite Heq, lookup_insert_eq, bool_decide_true by done. cbn. by rewrite list_lookup_middle by done.
  - rewrite lookup_insert_ne, bool_decide_false by done. fold (found eb_hash abs_profit (reverse l) tx).
    rewrite <- IH. fold (index_txs l). destruct (index_txs l !! tx) as [i |] eqn:E; [| done]. cbn.
    destruct (index_txs_lookup _ _ _ E) as (t' & Ht & _). by rewrite (lookup_app_l_Some _ _ _ _ Ht), Ht.
Qed.

Lemma sole_on_tx tx :
  zsum ((fun c => abs_sole c.1.1 c.2) <$> filter (fun c => c.1.1 = tx) L) <= Z.abs (profit_of d tx).
Proof.
  assert (length (claims_on L tx) = length (filter (fun c => c.1.1 = tx) L)) as Hlen by apply length_fmap.
  assert (Htx : forall c, c ∈ filter (fun c => c.1.1 = tx) L -> c.1.1 = tx) by (intros c [? _]%list_elem_of_filter; done).
  unfold abs_sole, sole_profit. destruct (filter (fun c => c.1.1 = tx) L) as [| c [| c' l]]; [cbn; lia | |].
  - cbn [fmap list_fmap zsum foldr]. rewrite (Htx c) by left. rewrite Hlen. cbn.
    rewrite Z.add_0_r. apply net_profit_abs.
  - enough (forall k, (forall c, c ∈ k -> c.1.1 = tx) ->
      zsum ((fun c => Z.abs (if (length (claims_on L c.1.1) =? 1)%nat then claim_profit d c.1.1 c.2 else 0)) <$> k) = 0) as Hz
      by (rewrite (Hz _ Htx); lia).
    intros k Hk. induction k as [| x k IH]; [done |]. rewrite fmap_cons. cbn [zsum foldr].
    rewrite (Hk x) by left. rewrite Hlen. cbn. apply IH. intros y Hy. apply Hk. by right.
Qed.

Lemma sole_total : zsum ((fun c => abs_sole c.1.1 c.2) <$> L) <= zsum (abs_profit <$> block).
Proof.
  set (txs := remove_dups ((fun c : Claim => c.1.1) <$> L)).
  assert (NoDup txs) as Hnd by apply NoDup_remove_dups.
  rewrite <- (regroup_key (fun c : Claim => c.1.1) _ L txs Hnd).
  2: { intros c Hc. apply elem_of_remove_dups. by apply (list_elem_of_fmap_2 (fun c : Claim => c.1.1)). }
  transitivity (zsum (found eb_hash abs_profit (reverse block) <$> txs)).
  - apply zsum_le, Forall2_fmap_2, Forall_Forall2_diag, Forall_forall. intros tx _.
    rewrite <- profit_of_found. apply sole_on_tx.
  - destruct (found_total eb_hash abs_profit (reverse block) txs Hnd) as [H _].
    { apply Forall_forall. intros t _. unfold abs_profit. lia. }
    rewrite H. apply Z.eq_le_incl, zsum_perm. by rewrite reverse_Permutation.
Qed.

Lemma zsum_abs {A} (f : A -> Z) l : Z.abs (zsum (f <$> l)) <= zsum ((fun x => Z.abs (f x)) <$> l).
Proof. induction l as [| x l IH]; [done |]. rewrite !fmap_cons. cbn [zsum foldr]. unfold zsum in *. lia. Qed.

Lemma earns_by_ids ids : NoDup ids ->
  zsum (order_earns abs_sole L <$> ids) <= zsum ((fun c => abs_sole c.1.1 c.2) <$> L).
Proof.
  intros Hnd. assert (forall tx k, 0 <= abs_sole tx k) as Hw0 by (intros; apply Z.abs_nonneg).
  unfold order_earns. revert Hw0. generalize abs_sole. intros w Hw0.
  induction L as [| c l IH].
  { clear Hnd. induction ids as [| id ids IH]; [done | exact IH]. }
  rewrite (list_fmap_ext _ (fun id => (if decide (c.1.2 = id) then w c.1.1 c.2 else 0)
    + zsum ((fun c => w c.1.1 c.2) <$> filter (fun c => c.1.2 = id) l))).
  - rewrite zsum_add, fmap_cons. cbn [zsum foldr].
    pose proof (zsum_single_le c.1.2 (w c.1.1 c.2) ids (Hw0 _ _) Hnd). unfold zsum in *. lia.
  - intros i id _. rewrite filter_cons. destruct (decide (c.1.2 = id)); [done | by rewrite Z.add_0_l].
Qed.

Lemma earned_total restored ids : NoDup ids -> zsum (abs_profit <$> block) < 2 ^ 128 ->
  (forall id, unique_of restored id = wrap_signed 256 (order_earns (sole_profit d L) L id)) ->
  zsum (earned restored <$> ids) < 2 ^ 128.
Proof.
  intros Hnd Hb Hu. pose proof sole_total as Ht. pose proof (earns_by_ids ids Hnd) as Hi.
  assert (Hle : forall id, Z.abs (order_earns (sole_profit d L) L id) <= order_earns abs_sole L id)
    by (intros id; apply zsum_abs).
  assert (Hone : forall id, order_earns abs_sole L id < 2 ^ 128).
  { intros id. pose proof (earns_by_ids [id] (NoDup_singleton id)) as H1. cbn [fmap list_fmap zsum foldr] in H1. lia. }
  enough (zsum (earned restored <$> ids) <= zsum (order_earns abs_sole L <$> ids)) by lia.
  apply zsum_le, Forall2_fmap_2, Forall_Forall2_diag, Forall_forall. intros id _. unfold earned. rewrite Hu.
  specialize (Hle id). specialize (Hone id). rewrite wrap_signed_small by lia. lia.
Qed.
End earned.

(** ** What is available *)
Lemma end_timestamp_subset block_data t o :
  o ∈ bd_available_orders (filter_orders_by_end_timestamp block_data t) -> o ∈ bd_available_orders block_data.
Proof.
  unfold filter_orders_by_end_timestamp, filter_orders_by_end_timestamp_ms. set (T := offset_datetime_to_timestamp_ms t).
  pose proof (retain_kept (late block_data T) (bd_available_orders block_data) (bd_filtered_orders block_data)) as Hk.
  destruct (retain _ _ _) as [orders f]. cbn [fst] in Hk.
  pose proof (retain_latest_spec (included_orders block_data) [] (merge_sort latest_first orders) f) as Hs.
  destruct (retain_latest _ _ _ f) as [kept f']. cbn [bd_available_orders set_available]. intros Ho.
  destruct Hs as [Hs _]; [apply StronglySorted_merge_sort; apply _ |].
  eapply elem_of_sublist in Ho; [| done]. rewrite merge_sort_Permutation, Hk, list_elem_of_filter in Ho. by destruct Ho.
Qed.

Lemma retain_subset f (block_data : BlockData) o :
  o ∈ (retain f (bd_available_orders block_data) (bd_filtered_orders block_data)).1 -> o ∈ bd_available_orders block_data.
Proof. rewrite retain_kept, list_elem_of_filter. by intros []. Qed.

Lemma prepared_available coinbase_signer block_data order_filter profit block_data' built :
  prepare_block_data coinbase_signer block_data order_filter = Ok (profit, block_data', built) ->
  bd_built_block_data block_data = Some built /\ profit = Z.max 0 (bb_profit built) /\
  bd_onchain_block block_data' = bd_onchain_block block_data /\
  forall o, o ∈ bd_available_orders block_data' -> o ∈ bd_available_orders block_data.
Proof.
  unfold prepare_block_data. destruct (bd_built_block_data block_data) as [b |]; [| done]. cbn [ok_or].
  destruct coinbase_signer; [| done]. intros [= <- <- <-]. split; [done |].
  set (d1 := filter_orders_by_end_timestamp block_data (bb_orders_closed_at b)).
  assert (Hd1 : bd_onchain_block d1 = bd_onchain_block block_data).
  { unfold d1, filter_orders_by_end_timestamp, filter_orders_by_end_timestamp_ms. by repeat case_match. }
  split; [unfold positive_part; case_decide; cbn; unfold id; lia |]. unfold filter_out_orders, filter_bundles_from_mempool.
  pose proof (retain_subset (from_mempool (omap mempool_hash (bd_available_orders d1))) d1) as H2.
  destruct (retain (from_mempool _) _ _) as [o2 f2]. cbn [fst] in H2.
  set (d2 := set_available d1 o2 f2).
  pose proof (retain_subset (fun o => order_filter (owt_order o)) d2) as H3.
  destruct (retain (fun o => order_filter (owt_order o)) _ _) as [o3 f3]. cbn [fst] in H3.
  split; [exact Hd1 |]. intros o Ho. cbn [bd_available_orders set_available] in Ho.
  by apply H3, H2, end_timestamp_subset in Ho.
Qed.

(** ** Included orders *)

(** The ids of orders that count as included. *)
Definition counts_as_included (block_data : BlockData) (built : BuiltBlockData) (distribute : bool) (id : OrderId) : Prop :=
  id ∈ bb_included_orders built \/
  distribute = true /\ id ∈ Id_Tx <$> BlockTransactions_hashes (ob_transactions (bd_onchain_block block_data)).

Lemma foldl_keys {K V W} `{Countable K} (f : gmap K V -> W -> gmap K V) (key : W -> K) ws m :
  (forall m w k, is_Some (f m w !! k) -> is_Some (m !! k) \/ key w = k) ->
  forall k, is_Some (foldl f m ws !! k) -> is_Some (m !! k) \/ k ∈ key <$> ws.
Proof.
  intros Hf. revert m. induction ws as [| w ws IH]; intros m k; [by left |]. cbn [foldl].
  intros [[? | <-]%Hf | ?]%IH; rewrite fmap_cons, elem_of_cons; auto.
Qed.

Section result.
Context `{!HashOrder OrderId, !HashOrderOk OrderId, !HashOrder Z, !HashOrderOk Z}.
Context `{!HashOrder (Address * Address), !HashOrderOk (Address * Address)}.

Lemma get_available_orders_from block_data built distribute o :
  o ∈ get_available_orders block_data built distribute ->
  o ∈ bd_available_orders block_data /\ counts_as_included block_data built distribute (owt_id o).
Proof.
  intros Ho. destruct (get_available_orders_ok block_data built distribute) as [_ Hby]. split.
  { destruct (by_id_key _ _ _ (Hby o Ho)) as (_ & l1 & l2 & -> & _). rewrite elem_of_app. right. by left. }
  unfold get_available_orders in Ho. fold (by_id block_data) in Ho.
  set (add := fun (m : gmap OrderId OrdersWithTimestamp) id => _) in Ho.
  assert (Hadd : forall m w k, is_Some (add m w !! k) -> is_Some (m !! k) \/ id w = k).
  { intros m w k. unfold add. destruct (by_id block_data !! w) as [o' |] eqn:E; [| by left].
    destruct (by_id_key _ _ _ E) as [-> _]. rewrite lookup_insert_is_Some. unfold id. tauto. }
  rewrite merge_sort_Permutation, list_elem_of_omap in Ho. destruct Ho as (k & _ & Hk).
  set (m := if distribute then _ else _) in Hk.
  assert (Hm : counts_as_included block_data built distribute k).
  { unfold counts_as_included. pose proof (foldl_keys add id) as Hf. assert (is_Some (m !! k)) as Hs by by eexists.
    unfold m in Hs. destruct distribute.
    - apply Hf in Hs as [Hs | Hs]; [apply Hf in Hs as [[? ?%lookup_empty_Some] | Hs] | |]; try done.
      + left. by rewrite list_fmap_id in Hs.
      + right. by rewrite list_fmap_id in Hs.
    - apply Hf in Hs as [[? ?%lookup_empty_Some] | Hs]; [done | | done]. left. by rewrite list_fmap_id in Hs. }
  enough (k = owt_id o) as <- by done.
  assert (Hkey : forall ids m, (forall id o, m !! id = Some o -> id = owt_id o) ->
    forall id o, foldl add m ids !! id = Some o -> id = owt_id o).
  { intros ids. induction ids as [| w ids IH]; intros m0 Hm0; [done |]. apply IH. intros id o'. unfold add.
    destruct (by_id block_data !! w); [| apply Hm0]. rewrite lookup_insert_Some. intros [[<- <-] | [_ ?]]; auto. }
  assert (Hemp : forall id o, (∅ : gmap OrderId OrdersWithTimestamp) !! id = Some o -> id = owt_id o)
    by (by intros ? ? ?%lookup_empty_Some).
  unfold m in Hk. destruct distribute; eapply Hkey; [apply Hkey, Hemp | exact Hk | exact Hemp | exact Hk].
Qed.

(** ** Restored orders *)
Lemma last_error_is_Some d orders order e : order ∈ orders -> find_landed_order_data d order = Err e ->
  is_Some (last_error d orders (sp_id order)).
Proof.
  intros Ho He. unfold last_error. induction orders as [| o orders IH] using rev_ind; [by apply not_elem_of_nil in Ho |].
  rewrite foldl_app. cbn [foldl]. apply elem_of_app in Ho as [Ho | ->%list_elem_of_singleton].
  - case_match; [by apply IH |]. case_decide; [by eexists | by apply IH].
  - rewrite He, decide_True by done. by eexists.
Qed.

Lemma restored_is_Some d orders order : order ∈ orders -> find_landed_order_data d order <> Ok [] ->
  is_Some (last_error d orders (sp_id order)) \/ exists c, c ∈ all_claims d orders /\ c.1.2 = sp_id order.
Proof.
  intros Ho Hne. destruct (find_landed_order_data d order) as [[| [tx k] landed] | e] eqn:E; [done | |].
  - right. exists (tx, sp_id order, k). split; [| done]. apply list_elem_of_bind. exists order. split; [| done].
    unfold order_claims. rewrite E. left.
  - left. by eapply last_error_is_Some.
Qed.
End result.

(** ** The whole calculation *)
Section whole.
Context `{!HashOrder OrderId, !HashOrderOk OrderId, !HashOrder Z, !HashOrderOk Z}.
Context `{!HashOrder (Address * Address), !HashOrderOk (Address * Address)}.
Context {Ctx : Type} (building_context : BlockData -> result Ctx string).
Context (simulate_block : Ctx -> BlockData -> Eyre BlockBacktestValue).
Context (sim_historical_block : OnchainBlock -> result (list ExecutedBlockTx) string).
Context (coinbase_signer : result Address string) (protect_signers : list Address).
Context (block_data : BlockData) (distribute : bool) (order_filter : Order -> option OrderFilteredReason).

(** What may make a redistribution fail. *)
Definition cannot_proceed : Prop :=
  bd_built_block_data block_data = None \/
  (exists e, coinbase_signer = Err e) \/
  (exists e, sim_historical_block (bd_onchain_block block_data) = Err e) \/
  (exists d e, building_context d = Err e) \/
  (exists ctx d e, simulate_block ctx d = Some (Err e)) \/
  (exists ctx d v, simulate_block ctx d = Some (Ok v) /\ builder_outputs v = []).

Definition simulations_ok : Prop := forall ctx d, wp True (simulate_block ctx d) (fun v =>
  Forall (fun o => 0 <= our_bid_value o < 2 ^ 255) (builder_outputs v)).

(** Simulations do not panic, amounts are in range, and every order that counts as
    included has a transaction in the block or a reason why it has none. *)
Record inputs_ok : Prop := {
  in_simulations : simulations_ok;
  in_profit : forall built, bd_built_block_data block_data = Some built -> bb_profit built < 2 ^ 255;
  in_block : forall txs, sim_historical_block (bd_onchain_block block_data) = Ok txs ->
    zsum (abs_profit <$> txs) < 2 ^ 128;
  in_landed : forall built txs o, bd_built_block_data block_data = Some built ->
    sim_historical_block (bd_onchain_block block_data) = Ok txs -> o ∈ bd_available_orders block_data ->
    counts_as_included block_data built distribute (owt_id o) ->
    find_landed_order_data (new_from_txs txs) (new_from_order (owt_order o)) <> Ok [];
}.

Lemma simulations_build : simulations_ok -> forall ctx, builds cannot_proceed (simulate_block ctx).
Proof.
  intros Hs ctx d. specialize (Hs ctx d). destruct (simulate_block ctx d) as [[v | e] |] eqn:E; cbn in *.
  - split; [| done]. intros Hv. unfold cannot_proceed. eauto 10.
  - unfold cannot_proceed. eauto 10.
  - done.
Qed.

(** What is known of the restored orders. *)
Lemma restored_wp built block_data' : inputs_ok ->
  bd_built_block_data block_data = Some built -> bd_onchain_block block_data' = bd_onchain_block block_data ->
  (forall o, o ∈ bd_available_orders block_data' -> o ∈ bd_available_orders block_data) ->
  let included := get_available_orders block_data' built distribute in
  wp cannot_proceed (restore_available_landed_orders sim_historical_block block_data' included) (fun restored =>
    (forall o, o ∈ included -> is_Some (restored !! owt_id o)) /\
    forall ids, NoDup ids -> zsum (earned restored <$> ids) < 2 ^ 128).
Proof.
  intros Hok Hbuilt Hon Hsub. cbv zeta. set (included := get_available_orders _ _ _).
  unfold restore_available_landed_orders. rewrite Hon.
  destruct (sim_historical_block (bd_onchain_block block_data)) as [txs | e] eqn:E.
  2: { cbn. unfold cannot_proceed. eauto 10. }
  cbn [eyre_bind]. destruct (restored_spec txs (orders_to_restore block_data' included)) as (r & -> & Hr).
  apply wp_expect. exists r. split; [done |]. split.
  - intros o Ho. destruct (get_available_orders_from _ _ _ _ Ho) as [Hin Hc].
    assert (counts_as_included block_data built distribute (owt_id o)) as Hc'.
    { unfold counts_as_included in *. by rewrite Hon in Hc. }
    apply Hr. apply (restored_is_Some _ _ (new_from_order (owt_order o))).
    + unfold orders_to_restore. rewrite elem_of_app. left.
      by apply (list_elem_of_fmap_2 (fun o => new_from_order (owt_order o))).
    + eapply (in_landed Hok); eauto.
  - intros ids Hnd. eapply earned_total; [done | by apply (in_block Hok) |]. intros id. apply Hr.
Qed.

(** C15. Redistributing the profit of a landed block does not panic, whatever the
    order of its hash maps: nothing that is looked up is missing and the
    final assertions hold, when simulations do not panic, amounts are in
    range and every order that counts as included landed or has a reason; it
    fails only when the block has no build data, the signer, the replay or
    the context fails, or no block is built; the payments of all identities
    are at most the profit of the block, those of all orders at most those
    of the identities. *)
Theorem redistribution_safe : inputs_ok ->
  wp cannot_proceed
    (calc_redistributions building_context simulate_block sim_historical_block coinbase_signer protect_signers
       block_data distribute order_filter)
    (fun out => exists built, bd_built_block_data block_data = Some built /\
       ro_block_profit out = Z.max 0 (bb_profit built) /\
       Forall (fun x => 0 <= x) (id_redistribution_value_received <$> ro_identities out) /\
       zsum (id_redistribution_value_received <$> ro_identities out) <= ro_block_profit out /\
       Forall (fun x => 0 <= x) (od_redistribution_value_received <$> ro_landed_orders out) /\
       zsum (od_redistribution_value_received <$> ro_landed_orders out)
       <= zsum (id_redistribution_value_received <$> ro_identities out)).
Proof.
  intros Hok. unfold calc_redistributions.
  destruct (prepare_block_data coinbase_signer block_data order_filter) as [[[profit block_data'] built] | e] eqn:Ep.
  2: { cbn. unfold cannot_proceed. unfold prepare_block_data in Ep.
       destruct (bd_built_block_data block_data); [| by left]. destruct coinbase_signer; [done | eauto]. }
  destruct (prepared_available _ _ _ _ _ _ Ep) as (Hb & -> & Hon & Hsub). cbn [eyre_bind].
  pose proof (in_profit Hok built Hb) as Hprofit.
  eapply wp_bind; [by apply (restored_wp built) |]. intros restored [Hr Hearn].
  destruct (split_ok (get_available_orders block_data' built distribute) protect_signers block_data' distribute)
    as (ao & -> & Hao & Hids); [apply get_available_orders_ok |]. cbn [expect fmap option_fmap option_map eyre_bind].
  assert (Hland : forall id, id ∈ landed_ids ao -> is_Some (restored !! id)).
  { intros id (o & a & Ho & <- & _)%Hids. by apply Hr. }
  destruct (building_context block_data') as [ctx | e] eqn:Ectx; cbn [eyre_bind].
  2: { cbn. unfold cannot_proceed. eauto 10. }
  pose proof (simulations_build (in_simulations Hok) ctx) as Hbuild.
  eapply wp_bind; [by apply without_wp |]. intros without Hw.
  eapply wp_bind; [by apply exclusions_wp |]. intros es1 Hes1.
  eapply wp_bind; [by apply joint_wp |]. intros es Hes.
  destruct (formula_spec (Z.max 0 (bb_profit built)) ao es restored Hes) as (r & -> & Ht & Hpay);
    [lia | done | by apply Hearn, ok_ids |]. cbn [expect fmap option_fmap option_map eyre_bind].
  destruct (collect_spec ao without es r restored Hpay block_data' (Z.max 0 (bb_profit built)) Hao Hes Hland)
    as (out & -> & Hp & I1 & I2 & O1 & O2). cbn [expect fmap option_fmap option_map eyre_bind].
  unfold redistributed_identity_value, redistributed_orders_value. rewrite !u256_sum_eq by (done || lia).
  rewrite decide_True by lia. cbn [wp]. exists built. rewrite Hp. split_and!; done || lia.
Qed.

(** ** Orders without landed transactions *)
Lemma last_error_None d orders id : (forall order, order ∈ orders -> sp_id order = id ->
  find_landed_order_data d order = Ok []) -> last_error d orders id = None.
Proof.
  unfold last_error. induction orders as [| o orders IH] using rev_ind; intros H; [done |].
  rewrite foldl_app. cbn [foldl]. rewrite IH by (intros order Ho; apply H; rewrite elem_of_app; by left).
  destruct (find_landed_order_data d o) as [| e] eqn:E; [done |]. case_decide as Hid; [| done].
  rewrite (H o) in E; [done | rewrite elem_of_app; right; by left | done].
Qed.

Lemma no_claims d orders id : (forall order, order ∈ orders -> sp_id order = id ->
  find_landed_order_data d order = Ok []) -> forall c, c ∈ all_claims d orders -> c.1.2 <> id.
Proof.
  intros H c (order & Hc & Ho)%list_elem_of_bind Hid. unfold order_claims in Hc.
  destruct (find_landed_order_data d order) as [landed |] eqn:E; [| by apply not_elem_of_nil in Hc].
  apply list_elem_of_fmap in Hc as ([tx k] & -> & Hin). cbn in Hid. rewrite (H order Ho Hid) in E.
  injection E as <-. by apply not_elem_of_nil in Hin.
Qed.

Lemma recovered_None restored ids id : id ∈ ids -> restored !! id = None -> recovered_orders restored ids = None.
Proof.
  intros Hin Hr. induction ids as [| id' ids IH]; [by apply not_elem_of_nil in Hin |]. cbn [recovered_orders].
  apply elem_of_cons in Hin as [<- | Hin]; [by rewrite Hr |]. rewrite (IH Hin). by destruct (restored !! id').
Qed.

Lemma identities_None es restored entries a ids id : (a, ids) ∈ entries -> id ∈ ids -> restored !! id = None ->
  identities_of es restored entries = None.
Proof.
  intros Hin Hid Hr. induction entries as [| [a' ids'] entries IH]; [by apply not_elem_of_nil in Hin |].
  cbn [identities_of]. apply elem_of_cons in Hin as [[= <- <-] | Hin]; [by rewrite (recovered_None _ _ _ Hid Hr) |].
  rewrite (IH Hin). destruct (recovered_orders restored ids'); [| done]. by destruct (es_identities es !! a').
Qed.

(** When an order that counts as included and has an identity is found in the
    block with none of its transactions (all of them may be missing), the
    redistribution panics once all blocks are built: the order is neither
    restored nor reported as not found. *)
Theorem unrestored_order_panics profit block_data' built txs o a :
  simulations_ok -> ~ cannot_proceed ->
  prepare_block_data coinbase_signer block_data order_filter = Ok (profit, block_data', built) ->
  sim_historical_block (bd_onchain_block block_data') = Ok txs ->
  let included := get_available_orders block_data' built distribute in
  o ∈ included -> identity_of protect_signers o = Some a ->
  (forall order, order ∈ orders_to_restore block_data' included -> sp_id order = owt_id o ->
     find_landed_order_data (new_from_txs txs) order = Ok []) ->
  calc_redistributions building_context simulate_block sim_historical_block coinbase_signer protect_signers
    block_data distribute order_filter = None.
Proof.
  intros Hsim Hgo Ep Etxs included Ho Ha Hnone. unfold calc_redistributions. rewrite Ep. cbn [eyre_bind].
  fold included. unfold restore_available_landed_orders. rewrite Etxs. cbn [eyre_bind].
  destruct (restored_spec txs (orders_to_restore block_data' included)) as (restored & -> & Hr).
  assert (Hnr : restored !! owt_id o = None).
  { apply eq_None_not_Some. intros Hs. destruct (Hr (owt_id o)) as (_ & _ & _ & Hsome). apply Hsome in Hs.
    rewrite (last_error_None _ _ _ Hnone) in Hs. destruct Hs as [[? ?] | (c & Hc & Hid)]; [done |].
    by eapply (no_claims _ _ _ Hnone). }
  destruct (split_ok included protect_signers block_data' distribute) as (ao & -> & Hao & Hids);
    [apply get_available_orders_ok |]. cbn [expect fmap option_fmap option_map eyre_bind].
  destruct (building_context block_data') as [ctx | e] eqn:Ectx; cbn [eyre_bind].
  2: { destruct Hgo. unfold cannot_proceed. eauto 10. }
  pose proof (simulations_build Hsim ctx) as Hbuild.
  destruct (wp_no_fail _ _ _ (without_wp _ _ Hbuild block_data') Hgo) as (without & -> & Hw). cbn [eyre_bind].
  destruct (wp_no_fail _ _ _ (exclusions_wp _ _ Hbuild ao Hao block_data' without Hw) Hgo) as (es1 & -> & Hes1).
  cbn [eyre_bind].
  destruct (wp_no_fail _ _ _ (joint_wp _ _ Hbuild ao Hao block_data' without es1 distribute Hw Hes1) Hgo) as (es & -> & Hes).
  cbn [eyre_bind]. assert (owt_id o ∈ landed_ids ao) as Hin by (apply Hids; eauto).
  apply elem_of_concat in Hin as (ids & ([a' ids'] & -> & Hent)%list_elem_of_fmap & Hid).
  unfold apply_redistribution_formula. by rewrite (identities_None es _ _ _ _ _ Hent Hid Hnr).
Qed.
End whole.
