(* ===== verification/RedistributionWitnesses.v ===== *)
(** * Landed blocks and redistributions on concrete data *)

From S2P Require Import Prelude Transactions Bundles Orders Samples World Redistribution RedistributionSpec BacktestData BacktestExecute LandedOrders LandedOrdersSpec Redistribute RedistributeSpec RedistributeResult.

(** ** A block of four transactions *)
#[local] Instance landed_iteration : HashOrder B256 := elements_order.
#[local] Instance landed_iteration_ok : HashOrderOk B256.
Proof. by intros s. Qed.

Definition block_tx (hash profit : Z) (success : bool) : ExecutedBlockTx :=
  {| eb_hash := hash; eb_coinbase_profit := profit; eb_success := success |}.

Definition order_tx (hash : Z) (revert : TxRevertBehavior) (kickback : Z) : OrderTxData :=
  {| ot_hash := hash; ot_revert := revert; ot_kickback_percent := kickback |}.

Definition landed_block : list ExecutedBlockTx :=
  [block_tx 11 100 true; block_tx 12 50 true; block_tx 13 (-7) false; block_tx 14 200 true].

(** Two orders share transaction 12; the first kicks 40 percent of it back. *)
Definition backrun_order : SimplifiedOrder :=
  {| sp_id := Id_Bundle 1; sp_txs := [order_tx 11 NotAllowed 0; order_tx 12 NotAllowed 40] |}.
Definition reverting_order : SimplifiedOrder :=
  {| sp_id := Id_Bundle 2;
     sp_txs := [order_tx 12 NotAllowed 0; order_tx 13 AllowedIncluded 0; order_tx 99 AllowedExcluded 0] |}.
Definition swapped_order : SimplifiedOrder :=
  {| sp_id := Id_Bundle 3; sp_txs := [order_tx 14 NotAllowed 0; order_tx 11 NotAllowed 0] |}.
(** All its transactions may be missing, and are. *)
Definition absent_order : SimplifiedOrder :=
  {| sp_id := Id_Bundle 4; sp_txs := [order_tx 98 AllowedExcluded 0] |}.

Lemma landed_order_found_witness :
  exists fs, [(12, 0); (13, 0)] = (fun f => (ot_hash (ft_tx f), ot_kickback_percent (ft_tx f))) <$> fs /\
    Forall (located landed_block (sp_txs reverting_order)) fs.
Proof.
  destruct (landed_order_found landed_block reverting_order [(12, 0); (13, 0)]) as (fs & Hfs & Hl & _).
  - vm_compute. reflexivity.
  - exists fs. by split.
Defined.

Definition landed_orders : list SimplifiedOrder := [backrun_order; reverting_order; swapped_order; absent_order].

Lemma restored_profits_witness :
  exists result, restore_landed_orders landed_block landed_orders = Some result /\
    total_of result (Id_Bundle 1) = 130 /\ unique_of result (Id_Bundle 1) = 100 /\
    total_of result (Id_Bundle 2) = 43 /\ unique_of result (Id_Bundle 2) = -7 /\
    error_of result (Id_Bundle 3) = Some (TxIsIncorrectPosition 11).
Proof.
  destruct (restored_profits landed_block landed_orders) as (result & Hr & H). exists result.
  destruct (H (Id_Bundle 1)) as (-> & -> & _). destruct (H (Id_Bundle 2)) as (-> & -> & _).
  destruct (H (Id_Bundle 3)) as (_ & _ & -> & _).
  split; [exact Hr |]. vm_compute. split_and!; reflexivity.
Defined.

(** The order none of whose transactions landed has neither an entry nor an error. *)
Example absent_order_not_restored :
  find_landed_order_data (new_from_txs landed_block) absent_order = Ok [] /\
  exists result, restore_landed_orders landed_block landed_orders = Some result /\
    result !! Id_Bundle 4 = None /\ is_Some (result !! Id_Bundle 3).
Proof. split; [by vm_compute |]. eexists. split; [by vm_compute |]. split; [by vm_compute | by eexists]. Qed.

(** The overlapping transactions of an order are those of the transaction that its
    hash map gives last. *)
Example last_overlap_wins :
  let block := [block_tx 11 100 true; block_tx 12 50 true] in
  let order id txs := {| sp_id := Id_Bundle id; sp_txs := (fun h => order_tx h NotAllowed 0) <$> txs |} in
  let orders := [order 1 [11; 12]; order 2 [11]; order 3 [12]] in
  let overlapping (HO : HashOrder B256) :=
    (fun r => lo_overlapping_txs <$> r !! Id_Bundle 1) <$> restore_landed_orders block orders in
  overlapping (fun s => elements s) <> overlapping (fun s => reverse (elements s)).
Proof. vm_compute. discriminate. Qed.

(** ** Redistribution *)

(** Two identities contributed 60 and 50, and together 80. *)
Definition sample_redistribution : RedistributionCalculator :=
  {| landed_block_profit := 100;
     identity_data :=
       [{| ri_address := 1; ri_block_value_delta := 60;
           ri_included_orders := [{| io_id := Id_Bundle 1; io_realized_value := 40 |};
                                  {| io_id := Id_Bundle 2; io_realized_value := 30 |}] |};
        {| ri_address := 2; ri_block_value_delta := 55;
           ri_included_orders := [{| io_id := Id_Bundle 3; io_realized_value := 50 |}] |}];
     joint_block_value_delta := [(1, 2, 80)] |}.

Lemma sample_redistribution_ok : redistribution_ok sample_redistribution.
Proof. split; cbn; repeat apply Forall_cons_2; (apply Forall_nil_2 || cbn; lia). Qed.

Lemma redistribution_bounded_witness :
  exists r, calculate_redistribution sample_redistribution = Some r /\
    total_value_redistributed r <= 100 /\ Forall2 entity_ok (identity_data sample_redistribution) (value_by_identity r).
Proof.
  destruct (redistribution_bounded sample_redistribution sample_redistribution_ok) as (r & Hr & _ & Ht & He & _).
  exists r. split_and!; [exact Hr | exact Ht | exact He].
Defined.

Example sample_redistribution_values :
  (fun r => (total_value_redistributed r, redistribution_value <$> value_by_identity r))
    <$> calculate_redistribution sample_redistribution = Some (80, [40; 40]).
Proof. vm_compute. reflexivity. Qed.

(** * A redistribution on concrete data *)

#[local] Instance ids_iteration : HashOrder OrderId := elements_order.
#[local] Instance ids_iteration_ok : HashOrderOk OrderId.
Proof. by intros s. Qed.
#[local] Instance numbers_iteration : HashOrder Z := elements_order.
#[local] Instance numbers_iteration_ok : HashOrderOk Z.
Proof. by intros s. Qed.
#[local] Instance pairs_iteration : HashOrder (Address * Address) := elements_order.
#[local] Instance pairs_iteration_ok : HashOrderOk (Address * Address).
Proof. by intros s. Qed.

(** ** Two bundles of two searchers *)
Definition bundle_of (uuid hash signer : Z) (dropping : list B256) : OrdersWithTimestamp :=
  {| owt_timestamp_ms := 1;
     owt_order := Order_Bundle
       {| b_version := LAST_BUNDLE_VERSION; b_block := Some 7; b_min_timestamp := None; b_max_timestamp := None;
          b_txs := [sample_tx hash 1 0 21000]; b_reverting_tx_hashes := []; b_dropping_tx_hashes := dropping;
          b_hash := hash; b_uuid := uuid; b_replacement_data := None; b_signer := Some signer;
          b_refund_identity := None; b_metadata := Metadata_new 0; b_refund := None; b_external_hash := None |} |}.

Definition searcher_a : OrdersWithTimestamp := bundle_of 1 11 50 [].
Definition searcher_b : OrdersWithTimestamp := bundle_of 2 12 60 [].
(** Its only transaction may be dropped, and was. *)
Definition searcher_c : OrdersWithTimestamp := bundle_of 3 13 70 [13].

Definition block_of (orders : list OrdersWithTimestamp) : BlockData :=
  {| bd_block_number := 7;
     bd_winning_bid_trace := {| wb_timestamp_ms := 5; wb_proposer_fee_recipient := 9; wb_value := 100 |};
     bd_onchain_block := {| ob_hash := 77; ob_beneficiary := 3; ob_extra_data := []; ob_transactions := Txs_Hashes [11; 12] |};
     bd_available_orders := orders; bd_filtered_orders := ∅;
     bd_built_block_data := Some {| bb_included_orders := owt_id <$> orders; bb_orders_closed_at := 5000000;
                                    bb_sealed_at := 6000000; bb_profit := 100 |} |}.

(** The landed block, and a builder that includes every order for 40 wei each, but
    both searchers together for 60. *)
Definition replay (b : OnchainBlock) : result (list ExecutedBlockTx) string :=
  Ok [{| eb_hash := 11; eb_coinbase_profit := 70; eb_success := true |};
      {| eb_hash := 12; eb_coinbase_profit := 30; eb_success := true |}].

Definition build (_ : unit) (d : BlockData) : Eyre BlockBacktestValue :=
  let ids := owt_id <$> bd_available_orders d in
  Some (Ok {| bv_block_number := 7; bv_winning_bid_value := 0; bv_simulated_orders_count := length ids;
              bv_simulated_total_gas := 0; bv_filtered_orders_blocklist_count := 0;
              bv_simulated_orders_with_refund := 0; bv_simulated_refunds_paid := 0; bv_extra_data := ""%string;
              builder_outputs := [{| bo_orders_included := length ids; bo_builder_name := ""%string;
                                     our_bid_value := Z.min 60 (40 * Z.of_nat (length ids));
                                     bo_included_orders := ids;
                                     bo_included_order_profits := (fun _ => Z.min 40 (60 / Z.of_nat (length ids))) <$> ids |}] |}).

Definition redistribute (orders : list OrdersWithTimestamp) : Eyre RedistributionBlockOutput :=
  calc_redistributions (fun _ => Ok tt) build replay (Ok 3) [] (block_of orders) false (fun _ => None).

Lemma build_ok : simulations_ok build.
Proof. intros [] d. cbn [wp build builder_outputs]. constructor; [| constructor]. cbn [our_bid_value]. lia. Qed.

Lemma build_proceeds orders :
  ~ cannot_proceed (Ctx:=unit) (fun _ => Ok tt) build replay (Ok 3) (block_of orders).
Proof. unfold cannot_proceed, build, replay. naive_solver. Qed.

Lemma searchers_ok : inputs_ok build replay (block_of [searcher_a; searcher_b]) false.
Proof.
  split.
  - exact build_ok.
  - intros built [= <-]. cbn. lia.
  - intros txs [= <-]. vm_compute. reflexivity.
  - intros built txs o [= <-] [= <-] Ho _. cbn [block_of bd_available_orders] in Ho.
    apply elem_of_cons in Ho as [-> | Ho]; [vm_compute; discriminate |].
    apply elem_of_cons in Ho as [-> | Ho]; [vm_compute; discriminate |]. by apply not_elem_of_nil in Ho.
Qed.

Lemma redistribution_safe_witness :
  exists out, redistribute [searcher_a; searcher_b] = Some (Ok out) /\
    zsum (id_redistribution_value_received <$> ro_identities out) <= 100.
Proof.
  destruct (wp_no_fail _ _ _
    (redistribution_safe (fun _ => Ok tt) build replay (Ok 3) [] (block_of [searcher_a; searcher_b]) false
       (fun _ => None) searchers_ok) (build_proceeds _)) as (out & E & built & Hb & Hp & _ & Ht & _).
  exists out. split; [exact E |]. injection Hb as <-. rewrite Hp in Ht. exact Ht.
Defined.

(** Both searchers contributed 20, and together 60. *)
Example redistributed_values :
  (fun r => match r with
            | Ok out => (id_redistribution_value_received <$> ro_identities out,
                         od_redistribution_value_received <$> ro_landed_orders out)
            | Err _ => ([], [])
            end) <$> redistribute [searcher_a; searcher_b] = Some ([20; 20], [20; 20]).
Proof. vm_compute. reflexivity. Qed.

Lemma unrestored_order_panics_witness : redistribute [searcher_a; searcher_c] = None.
Proof.
  unfold redistribute.
  apply (unrestored_order_panics (Ctx:=unit) (fun _ => Ok tt) build replay (Ok 3) []
    (block_of [searcher_a; searcher_c]) false (fun _ => None) 100 (block_of [searcher_a; searcher_c])
    {| bb_included_orders := [Id_Bundle 1; Id_Bundle 3]; bb_orders_closed_at := 5000000;
       bb_sealed_at := 6000000; bb_profit := 100 |}
    [{| eb_hash := 11; eb_coinbase_profit := 70; eb_success := true |};
     {| eb_hash := 12; eb_coinbase_profit := 30; eb_success := true |}] searcher_c 70).
  - exact build_ok.
  - apply build_proceeds.
  - vm_compute. reflexivity.
  - reflexivity.
  - vm_compute. right. left.
  - reflexivity.
  - intros order Ho. vm_compute in Ho.
    apply elem_of_cons in Ho as [-> | Ho]; [by vm_compute |]. apply elem_of_cons in Ho as [-> | Ho]; [by vm_compute |].
    by apply not_elem_of_nil in Ho.
Defined.
