(* ===== verification/TxSimCacheSpec.v ===== *)
(** * The cache of executions is transparent

    A transaction is a program that asks its database for accounts, slots, code and
    block hashes and then ends with an outcome.  Taking outcomes from the cache gives
    what running the program would have given, as long as the program uses the account
    of the coinbase only to add to its balance and nonce. *)

From S2P Require Import Prelude Transactions SimTypes World TxSimCache.

Section programs.
Context {Report Parts : Type}.
Notation Leaf := (Outcome (Report:=Report) (Parts:=Parts) * UsedStateTrace)%type.

Inductive Exec :=
| Done (leaf : Leaf)
| ReadBasic (address : Address) (k : option AccountInfo -> Exec)
| ReadStorage (address : Address) (index : U256) (k : U256 -> Exec)
| ReadCode (code_hash : B256) (k : list Z -> Exec)
| ReadBlockHash (number : U64) (k : B256 -> Exec).

(** ** Running *)
Section running.
Context {DB : Type} `{Database DB}.

Fixpoint run (db : DB) (p : Exec) : result Leaf unit :=
  match p with
  | Done leaf => Ok leaf
  | ReadBasic a k => let? v := db_basic db a in run db (k v)
  | ReadStorage a i k => let? v := db_storage db a i in run db (k v)
  | ReadCode h k => let? v := db_code_by_hash db h in run db (k v)
  | ReadBlockHash n k => let? v := db_block_hash db n in run db (k v)
  end.

(** The recorded reads of a run. *)
Fixpoint reads (db : DB) (p : Exec) : list AccessRecord :=
  match p with
  | Done _ => []
  | ReadBasic a k =>
      match db_basic db a with Ok v => Access_Account a v :: reads db (k v) | Err _ => [] end
  | ReadStorage a i k =>
      match db_storage db a i with Ok v => Access_Storage a i v :: reads db (k v) | Err _ => [] end
  | ReadCode h k => match db_code_by_hash db h with Ok v => reads db (k v) | Err _ => [] end
  | ReadBlockHash n k => match db_block_hash db n with Ok v => reads db (k v) | Err _ => [] end
  end.

Fixpoint run_recording (rdb : EVMRecordingDatabase DB) (p : Exec)
  : result Leaf unit * EVMRecordingDatabase DB :=
  match p with
  | Done leaf => (Ok leaf, rdb)
  | ReadBasic a k =>
      match rd_basic rdb a with (Ok v, rdb) => run_recording rdb (k v) | (Err e, rdb) => (Err e, rdb) end
  | ReadStorage a i k =>
      match rd_storage rdb a i with (Ok v, rdb) => run_recording rdb (k v) | (Err e, rdb) => (Err e, rdb) end
  | ReadCode h k =>
      match rd_code_by_hash rdb h with (Ok v, rdb) => run_recording rdb (k v) | (Err e, rdb) => (Err e, rdb) end
  | ReadBlockHash n k =>
      match rd_block_hash rdb n with (Ok v, rdb) => run_recording rdb (k v) | (Err e, rdb) => (Err e, rdb) end
  end.

(** Recording changes nothing and keeps exactly the reads. *)
Lemma run_recording_spec rdb p : run_recording rdb p
  = (run (rd_inner_db rdb) p,
     {| rd_should_record := rd_should_record rdb; rd_inner_db := rd_inner_db rdb;
        rd_recorded_trace := rd_recorded_trace rdb
          ++ if rd_should_record rdb then reads (rd_inner_db rdb) p else [] |}).
Proof.
  revert rdb. induction p as [leaf | a k IH | a i k IH | h k IH | n k IH]; intros [rec inner trace];
    cbn [run_recording run reads]; unfold rd_basic, rd_storage, rd_code_by_hash, rd_block_hash, rd_push;
    cbn [rd_inner_db rd_should_record rd_recorded_trace].
  - destruct rec; by rewrite app_nil_r.
  - destruct (db_basic inner a) as [v | e]; destruct rec; rewrite ?IH; cbn; rewrite <- ?app_assoc, ?app_nil_r; done.
  - destruct (db_storage inner a i) as [v | e]; destruct rec; rewrite ?IH; cbn; rewrite <- ?app_assoc, ?app_nil_r; done.
  - destruct (db_code_by_hash inner h) as [v | e]; destruct rec; rewrite ?IH; cbn; rewrite ?app_nil_r; done.
  - destruct (db_block_hash inner n) as [v | e]; destruct rec; rewrite ?IH; cbn; rewrite ?app_nil_r; done.
Qed.
End running.

(** ** The databases of one block

    They do not fail, agree on code and on earlier blocks, and their amounts are in
    range. *)
Class DatabaseOk (DB : Type) `{Database DB} : Prop := {
  db_basic_ok : forall db a, exists v, db_basic db a = Ok v;
  db_storage_ok : forall db a i, exists v, db_storage db a i = Ok v;
  db_code_ok : forall db db' h, exists v, db_code_by_hash db h = Ok v /\ db_code_by_hash db' h = Ok v;
  db_block_ok : forall db db' n, exists v, db_block_hash db n = Ok v /\ db_block_hash db' n = Ok v;
  db_range : forall db a i, db_basic db a = Ok (Some i) ->
    0 <= acc_balance i < 2 ^ 255 /\ 0 <= acc_nonce i < 2 ^ 63;
}.

Section replay.
Context {DB : Type} `{DatabaseOk DB}.

Definition satisfied (db : DB) (record : AccessRecord) : Prop :=
  match record with
  | Access_Account a v => db_basic db a = Ok v
  | Access_Storage a i v => db_storage db a i = Ok v
  end.

Lemma run_total (db : DB) p : exists leaf, run db p = Ok leaf.
Proof.
  induction p as [leaf | a k IH | a i k IH | h k IH | n k IH]; cbn [run]; [by eexists | | | |].
  - destruct (db_basic_ok db a) as [v ->]. apply IH.
  - destruct (db_storage_ok db a i) as [v ->]. apply IH.
  - destruct (db_code_ok db db h) as (v & -> & _). apply IH.
  - destruct (db_block_ok db db n) as (v & -> & _). apply IH.
Qed.

(** A database that answers the reads of a run the same way gives the same end. *)
Lemma run_satisfied (db db' : DB) p : Forall (satisfied db') (reads db p) -> run db' p = run db p.
Proof.
  induction p as [leaf | a k IH | a i k IH | h k IH | n k IH]; cbn [run reads]; [done | | | |].
  - destruct (db_basic_ok db a) as [v ->]. intros [Hv Hr]%Forall_cons. cbn in Hv. rewrite Hv. by apply IH.
  - destruct (db_storage_ok db a i) as [v ->]. intros [Hv Hr]%Forall_cons. cbn in Hv. rewrite Hv. by apply IH.
  - destruct (db_code_ok db db' h) as (v & -> & ->). apply IH.
  - destruct (db_block_ok db db' n) as (v & -> & ->). apply IH.
Qed.
End replay.
End programs.

(** ** The walker finds the first stored trace that the database satisfies *)
Section walking.
Context {Report Parts : Type} {DB : Type} `{Database DB} (db : DB).
Notation Stored := (StoredResult (TxCacheEntryResult (Report:=Report) (Parts:=Parts))).

Fixpoint trace_matches (t : Trace) : result bool unit :=
  match t with
  | [] => Ok true
  | (action, expected) :: t =>
      let? got := perform db action in
      if decide (got = expected) then trace_matches t else Ok false
  end.

Fixpoint first_match (l : list Stored) : result (option (TxCacheEntryResult (Report:=Report) (Parts:=Parts))) unit :=
  match l with
  | [] => Ok None
  | n :: l =>
      let? matched := trace_matches (sr_trace n) in
      if matched : bool then Ok (Some (sr_result n)) else first_match l
  end.

(** What is left to check from a position on. *)
Definition left_to_check (l : list Stored) (ri : nat) : nat :=
  match l with
  | [] => 0
  | n :: l => length (drop ri (sr_trace n)) + list_sum ((fun n => length (sr_trace n)) <$> l)
  end.

Definition match_from (l : list Stored) (ri : nat) :=
  match l with
  | [] => Ok None
  | n :: l =>
      let? matched := trace_matches (drop ri (sr_trace n)) in
      if matched : bool then Ok (Some (sr_result n)) else first_match l
  end.

Lemma match_from_0 l : match_from l 0 = first_match l.
Proof. by destruct l. Qed.

Lemma walk_spec fuel (s : ExecutionResultStore (TxCacheEntryResult (Report:=Report) (Parts:=Parts))) ti ri :
  Forall (fun n => sr_trace n <> []) (nodes s) ->
  (forall n, nodes s !! ti = Some n -> (ri < length (sr_trace n))%nat) ->
  (left_to_check (drop ti (nodes s)) ri < fuel)%nat ->
  walk fuel db s {| trace_idx := ti; record_idx := ri |} = Some (match_from (drop ti (nodes s)) ri).
Proof.
  intros Hne. revert ti ri. induction fuel as [| fuel IH]; intros ti ri Hri Hfuel; [lia |].
  cbn [walk]. unfold next_action, stored_result. cbn [trace_idx record_idx].
  destruct (nodes s !! ti) as [n |] eqn:En; cbn [mbind option_bind].
  2: { apply lookup_ge_None in En. by rewrite drop_ge. }
  rewrite (drop_S _ _ _ En) in *. cbn [left_to_check match_from] in *.
  specialize (Hri n eq_refl). destruct (lookup_lt_is_Some_2 _ _ Hri) as [[action expected] Ea].
  rewrite Ea. cbn [fmap option_fmap option_map fst].
  rewrite (drop_S _ _ _ Ea) in *. cbn [trace_matches length] in *.
  destruct (perform db action) as [got | e]; [| done].
  unfold action_result, stored_result. cbn [trace_idx record_idx]. rewrite En, Ea. cbn [mbind option_bind].
  destruct (decide (got = expected)) as [-> | Hd].
  - case_decide as Hend; cbn [record_idx] in Hend.
    + by rewrite drop_ge by lia.
    + rewrite IH.
      * by rewrite (drop_S _ _ _ En).
      * intros n' Hn'. assert (n' = n) as -> by congruence. lia.
      * rewrite (drop_S _ _ _ En). cbn [left_to_check]. lia.
  - rewrite IH; [by rewrite match_from_0 | |].
    + intros n' Hn'. rewrite Forall_forall in Hne. destruct (sr_trace n') eqn:E; [| cbn; lia].
      exfalso. eapply Hne; [| exact E]. by eapply list_elem_of_lookup_2.
    + destruct (drop (S ti) (nodes s)) as [| n' l]; cbn [left_to_check]; [lia |].
      rewrite drop_0. cbn [fmap list_fmap list_sum foldr] in Hfuel. unfold list_sum in *. cbn in Hfuel. lia.
Qed.

Lemma first_match_Some l r : first_match l = Ok (Some r) ->
  exists n, n ∈ l /\ sr_result n = r /\ trace_matches (sr_trace n) = Ok true.
Proof.
  induction l as [| n l IH]; cbn [first_match]; [done |].
  destruct (trace_matches (sr_trace n)) as [[] | e] eqn:E; [| | done].
  - intros [= <-]. exists n. split; [left |]. done.
  - intros (m & Hm & ?)%IH. exists m. split; [by right | done].
Qed.
End walking.

(** ** Programs that only add to the coinbase *)
Section oblivious.
Context {Report Parts : Type} (c : Address).
Notation Outcome := (Outcome (Report:=Report) (Parts:=Parts)).
Notation Exec := (Exec (Report:=Report) (Parts:=Parts)).

(** The account of the coinbase at the end, when it started as [i'] and not as [i]. *)
Definition shift_account (i i' : AccountInfo) (account : EvmAccount (Parts:=Parts)) : EvmAccount (Parts:=Parts) :=
  {| ea_info := {| acc_balance := acc_balance (ea_info account) + (acc_balance i' - acc_balance i);
                   acc_nonce := acc_nonce (ea_info account) + (acc_nonce i' - acc_nonce i);
                   acc_code_hash := acc_code_hash (ea_info account) |};
     ea_parts := ea_parts account |}.

Definition shift (i i' : AccountInfo) (out : ResultAndState (Report:=Report) (Parts:=Parts))
  : ResultAndState (Report:=Report) (Parts:=Parts) :=
  {| rs_result := rs_result out; rs_state := alter (shift_account i i') c (rs_state out) |}.

(** Whatever it reads, the program ends with a trace that is not cached. *)
Fixpoint never_cacheable (p : Exec) : Prop :=
  match p with
  | Done (_, used) => trace_is_not_cacheable used c = true
  | ReadBasic _ k => forall v, never_cacheable (k v)
  | ReadStorage _ _ k => forall v, never_cacheable (k v)
  | ReadCode _ k => forall v, never_cacheable (k v)
  | ReadBlockHash _ k => forall v, never_cacheable (k v)
  end.

(** How a program goes on after reading [r] or [r'] for the coinbase: the same reads,
    not of the coinbase again, and the same end, with the coinbase shifted. *)
Inductive follows (r r' : option AccountInfo) : Exec -> Exec -> Prop :=
| follows_error e used : follows r r' (Done (Err e, used)) (Done (Err e, used))
| follows_result out used p' :
    (forall i i', r = Some i -> r' = Some i' -> acc_code_hash i = acc_code_hash i' ->
       p' = Done (Ok (shift i i' out), used)) ->
    follows r r' (Done (Ok out, used)) p'
| follows_basic a k k' : a <> c -> (forall v, follows r r' (k v) (k' v)) ->
    follows r r' (ReadBasic a k) (ReadBasic a k')
| follows_storage a i k k' : (forall v, follows r r' (k v) (k' v)) ->
    follows r r' (ReadStorage a i k) (ReadStorage a i k')
| follows_code h k k' : (forall v, follows r r' (k v) (k' v)) -> follows r r' (ReadCode h k) (ReadCode h k')
| follows_block n k k' : (forall v, follows r r' (k v) (k' v)) ->
    follows r r' (ReadBlockHash n k) (ReadBlockHash n k')
| follows_never p p' : never_cacheable p -> follows r r' p p'.

Fixpoint oblivious (p : Exec) : Prop :=
  match p with
  | Done _ => True
  | ReadBasic a k => (a = c -> forall r r', follows r r' (k r) (k r')) /\ forall v, oblivious (k v)
  | ReadStorage _ _ k => forall v, oblivious (k v)
  | ReadCode _ k => forall v, oblivious (k v)
  | ReadBlockHash _ k => forall v, oblivious (k v)
  end.

Context {DB : Type} `{DatabaseOk DB}.

Lemma never_cacheable_run (db : DB) p o used : never_cacheable p -> run db p = Ok (o, used) ->
  trace_is_not_cacheable used c = true.
Proof.
  induction p as [[o' used'] | a k IH | a i k IH | h k IH | n k IH]; cbn [never_cacheable run].
  - by intros Hn [= <- <-].
  - destruct (db_basic db a); eauto; done.
  - destruct (db_storage db a i); eauto; done.
  - destruct (db_code_by_hash db h); eauto; done.
  - destruct (db_block_hash db n); eauto; done.
Qed.

(** What a stored outcome becomes when the coinbase was read as [r] and is [r']. *)
Definition moved (r r' : option AccountInfo) (o : Outcome) : option Outcome :=
  match o with
  | Err e => Some (Err e)
  | Ok out =>
      match r, r' with
      | Some i, Some i' => if decide (acc_code_hash i = acc_code_hash i') then Some (Ok (shift i i' out)) else None
      | _, _ => None
      end
  end.

Lemma follows_run (db db' : DB) r r' p p' o used o' : follows r r' p p' -> run db p = Ok (o, used) ->
  trace_is_not_cacheable used c = false -> Forall (satisfied db') (reads db p) -> moved r r' o = Some o' ->
  run db' p' = Ok (o', used).
Proof.
  intros Hf. induction Hf as [e u | out u p' Hout | a k k' Hne Hk IH | a i k k' Hk IH | h k k' Hk IH | n k k' Hk IH | p p' Hn];
    cbn [run reads].
  - intros [= <- <-] _ _ [= <-]. done.
  - intros [= <- <-] _ _ Hm. cbn in Hm. destruct r as [i |], r' as [i' |]; try done. case_decide; simplify_eq.
    by rewrite (Hout i i').
  - destruct (db_basic_ok db a) as [v ->]. intros Hr Hu [Hv Hs]%Forall_cons. cbn in Hv. rewrite Hv. by apply IH.
  - destruct (db_storage_ok db a i) as [v ->]. intros Hr Hu [Hv Hs]%Forall_cons. cbn in Hv. rewrite Hv. by apply IH.
  - destruct (db_code_ok db db' h) as (v & -> & ->). apply IH.
  - destruct (db_block_ok db db' n) as (v & -> & ->). apply IH.
  - intros Hr Hu. rewrite (never_cacheable_run _ _ _ _ Hn Hr) in Hu. done.
Qed.

(** Without its first read of the coinbase, a trace decides the rest. *)
Lemma oblivious_run (db db' : DB) p o used r r' T o' : oblivious p -> run db p = Ok (o, used) ->
  trace_is_not_cacheable used c = false -> take_coinbase_read c (reads db p) = (Some r, T) ->
  Forall (satisfied db') T -> db_basic db' c = Ok r' -> moved r r' o = Some o' -> run db' p = Ok (o', used).
Proof.
  revert T. induction p as [leaf | a k IH | a i k IH | h k IH | n k IH]; intros T; cbn [oblivious run reads].
  - done.
  - destruct (db_basic_ok db a) as [v ->]. cbn [take_coinbase_read]. intros [Hc Hk] Hr Hu.
    destruct (decide (a = c)) as [-> | Hne].
    + intros [= <- <-] Hs Hb Hm. rewrite Hb. by eapply follows_run; [apply Hc | | | |].
    + destruct (take_coinbase_read c (reads db (k v))) as [found rest] eqn:E. intros [= -> <-] [Hv Hs]%Forall_cons Hb Hm.
      cbn in Hv. rewrite Hv. by eapply IH.
  - destruct (db_storage_ok db a i) as [v ->]. cbn [take_coinbase_read]. intros Hk Hr Hu.
    destruct (take_coinbase_read c (reads db (k v))) as [found rest] eqn:E. intros [= -> <-] [Hv Hs]%Forall_cons Hb Hm.
    cbn in Hv. rewrite Hv. by eapply IH.
  - destruct (db_code_ok db db' h) as (v & -> & ->). intros Hk. by apply IH.
  - destruct (db_block_ok db db' n) as (v & -> & ->). intros Hk. by apply IH.
Qed.

Lemma take_coinbase_None T T' : take_coinbase_read c T = (None, T') -> T' = T.
Proof.
  revert T'. induction T as [| [a v | a i v] T IH]; intros T'; cbn [take_coinbase_read]; [by intros [= <-] | |].
  - case_decide; [done |]. destruct (take_coinbase_read c T) as [f rest]. intros [= -> <-]. f_equal. by apply IH.
  - destruct (take_coinbase_read c T) as [f rest]. intros [= -> <-]. f_equal. by apply IH.
Qed.

Lemma take_coinbase_Some (db' : DB) r T T' : take_coinbase_read c T = (Some r, T') -> db_basic db' c = Ok r ->
  Forall (satisfied db') T' -> Forall (satisfied db') T.
Proof.
  revert T'. induction T as [| [a v | a i v] T IH]; intros T'; cbn [take_coinbase_read]; [done | |].
  - case_decide as Ha; [subst a; intros [= <- <-] Hb Hs; by constructor |].
    destruct (take_coinbase_read c T) as [f rest]. intros [= -> <-] Hb [Hv Hs]%Forall_cons. constructor; [done |]. by eapply IH.
  - destruct (take_coinbase_read c T) as [f rest]. intros [= -> <-] Hb [Hv Hs]%Forall_cons. constructor; [done |]. by eapply IH.
Qed.
End oblivious.

(** ** Moving the coinbase *)
Lemma signed_uint_delta_exact a b : 0 <= a < 2 ^ 255 -> 0 <= b < 2 ^ 255 -> signed_uint_delta a b = Some (a - b).
Proof. intros Ha Hb. unfold signed_uint_delta, i256_try_from. by rewrite !decide_True by lia. Qed.

Lemma nonce_delta_exact a b : 0 <= a < 2 ^ 63 -> 0 <= b < 2 ^ 63 ->
  wrap_signed 64 (wrap_signed 64 a - wrap_signed 64 b) = a - b.
Proof.
  assert (Hw : forall x, - 2 ^ 63 <= x < 2 ^ 63 -> wrap_signed 64 x = x).
  { intros x Hx. unfold wrap_signed, wrap. rewrite Z.mod_small; lia. }
  intros Ha Hb. rewrite (Hw a), (Hw b) by lia. apply Hw. lia.
Qed.

Lemma checked_add_balance_exact balance delta : - 2 ^ 255 < delta < 2 ^ 255 ->
  exists r, checked_add_balance balance delta = Some r /\ forall b, r = Some b -> b = balance + delta.
Proof.
  intros Hd. unfold checked_add_balance, u256_try_from, checked_sub, checked_add. cbv zeta.
  rewrite (decide_False (P := delta = - 2 ^ 255)) by lia. rewrite decide_True by lia.
  repeat case_decide; eexists; (split; [done |]); intros b [= <-]; lia.
Qed.

Section moving.
Context {Report Parts : Type} (c : Address).
Implicit Type out : ResultAndState (Report:=Report) (Parts:=Parts).

Lemma move_coinbase_spec out nd bd : - 2 ^ 255 < bd < 2 ^ 255 ->
  exists r, move_coinbase out c (nd, bd) = Some r /\ forall out', r = Some out' ->
    out' = {| rs_result := rs_result out;
              rs_state := alter (fun account =>
                {| ea_info := {| acc_balance := acc_balance (ea_info account) + bd;
                                 acc_nonce := acc_nonce (ea_info account) + nd;
                                 acc_code_hash := acc_code_hash (ea_info account) |};
                   ea_parts := ea_parts account |}) c (rs_state out) |}.
Proof.
  intros Hd. unfold move_coinbase. destruct (rs_state out !! c) as [account |] eqn:E; [| by eexists].
  unfold checked_add_signed. cbn [fst snd]. case_decide; [| by eexists].
  destruct (checked_add_balance_exact (acc_balance (ea_info account)) bd Hd) as (r & -> & Hr). cbn [mbind option_bind].
  destruct r as [b |]; [| by eexists]. eexists. split; [done |]. intros out' [= <-]. rewrite (Hr b eq_refl). f_equal.
  apply map_eq. intros a. destruct (decide (a = c)) as [-> | Hne].
  - by rewrite lookup_insert_eq, lookup_alter_eq, E.
  - by rewrite lookup_insert_ne, lookup_alter_ne by done.
Qed.

Lemma shift_same out : {| rs_result := rs_result out;
    rs_state := alter (fun account : EvmAccount (Parts:=Parts) =>
      {| ea_info := {| acc_balance := acc_balance (ea_info account) + 0;
                       acc_nonce := acc_nonce (ea_info account) + 0;
                       acc_code_hash := acc_code_hash (ea_info account) |};
         ea_parts := ea_parts account |}) c (rs_state out) |} = out.
Proof.
  destruct out as [res st]. cbn [rs_result rs_state]. f_equal. apply map_eq. intros a.
  rewrite lookup_alter. case_decide as Ha; [subst a | done]. destruct (st !! c) as [[[b n h] parts] |]; [| done].
  cbn. by rewrite !Z.add_0_r.
Qed.
End moving.

(** ** Every stored result is that of an execution *)
Section transparency.
Context {Report Parts DB : Type} `{DatabaseOk DB}.
Notation Exec := (Exec (Report:=Report) (Parts:=Parts)).
Notation Cache := (TxExecutionCache (Report:=Report) (Parts:=Parts)).
Notation Entry := (TxCacheEntry (Report:=Report) (Parts:=Parts)).
Notation EntryResult := (TxCacheEntryResult (Report:=Report) (Parts:=Parts)).

(** The program of a transaction, for a block with a coinbase. *)
Context (program : B256 -> Address -> Exec).

Definition stored_trace (T : list AccessRecord) : Trace :=
  let trace := trace_entry <$> T in
  if decide (trace = []) then [(Action_DoNothing, Result_DoNothing)] else trace.

(** A stored node is an execution, with the first read of the coinbase apart. *)
Definition node_ok (h : B256) (c : Address) (n : StoredResult EntryResult) : Prop :=
  exists (db : DB) T, run db (program h c) = Ok (te_result (sr_result n), te_used_state_trace (sr_result n)) /\
    trace_is_not_cacheable (te_used_state_trace (sr_result n)) c = false /\
    take_coinbase_read c (reads db (program h c)) = (te_read_coinbase_account (sr_result n), T) /\
    sr_trace n = stored_trace T.

Definition entry_ok (h : B256) (c : Address) (entry : Entry) : Prop :=
  Forall (node_ok h c) (nodes (te_store entry)) /\ (store_len (te_store entry) <= NUM_OF_CACHED_EXECUTIONS)%nat.

Definition cache_ok (cache : Cache) : Prop :=
  map_Forall (fun '(h, c) entry => entry_ok h c entry) (tc_stored_results cache).

Lemma get_tx_entry_ok cache h c : cache_ok cache -> entry_ok h c (get_tx_entry cache h c).
Proof.
  intros Hc. unfold get_tx_entry. destruct (tc_stored_results cache !! (h, c)) as [entry |] eqn:E; [exact (Hc _ _ E) |].
  split; [constructor | unfold store_len; cbn; lia].
Qed.

Lemma set_tx_entry_ok cache h c entry : cache_ok cache -> entry_ok h c entry -> cache_ok (set_tx_entry cache h c entry).
Proof. intros Hc He. apply map_Forall_insert_2; done. Qed.

Lemma entry_store_ok h c entry (db : DB) o used : entry_ok h c entry -> run db (program h c) = Ok (o, used) ->
  entry_ok h c (entry_store_result entry
    {| ce_tx_hash := h; ce_coinbase := c; ce_recorded_trace := reads db (program h c);
       ce_result := o; ce_used_state_trace := used |}).
Proof.
  intros [Hn Hl] Hr. unfold entry_store_result. cbn [ce_coinbase ce_recorded_trace ce_result ce_used_state_trace].
  destruct (has_storage_capacity entry) eqn:Ecap; [| done]. cbn [negb].
  destruct (trace_is_not_cacheable used c) eqn:Eu; [done |].
  destruct (take_coinbase_read c (reads db (program h c))) as [found T] eqn:Et.
  unfold has_storage_capacity in Ecap. apply Nat.ltb_lt in Ecap.
  unfold entry_ok. cbn [te_store]. unfold insert_result. fold (stored_trace T).
  destruct (existsb _ _); [done |]. unfold store_len in *. cbn [nodes]. split; [| rewrite length_app; cbn; lia].
  apply Forall_app. split; [done |]. constructor; [| constructor]. exists db, T. done.
Qed.

(** ** A lookup *)
Lemma matches_satisfied (db : DB) T : trace_matches db (stored_trace T) = Ok true -> Forall (satisfied db) T.
Proof.
  unfold stored_trace. cbv zeta. case_decide as E.
  { apply fmap_nil_inv in E as ->. constructor. }
  clear E. induction T as [| [a v | a i v] T IH]; [constructor | |]; cbn [fmap list_fmap trace_entry trace_matches perform].
  - destruct (db_basic db a) as [w |] eqn:E; [| done]. case_decide as Hw; [| done]. simplify_eq. intros Hm.
    constructor; [exact E | by apply IH].
  - destruct (db_basic db a) as [w |]; [| done]. destruct (db_storage db a i) as [w' |] eqn:E; [| done].
    case_decide as Hw; [| done]. simplify_eq. intros Hm. constructor; [exact E | by apply IH].
Qed.

Lemma perform_total (db : DB) action : exists got, perform db action = Ok got.
Proof.
  destruct action as [a | a i |]; cbn [perform]; [| | by eexists]; destruct (db_basic_ok db a) as [v ->]; [by eexists |].
  destruct (db_storage_ok db a i) as [w ->]. by eexists.
Qed.

Lemma trace_matches_total (db : DB) t : exists b, trace_matches db t = Ok b.
Proof.
  induction t as [| [action expected] t IH]; cbn [trace_matches]; [by eexists |].
  destruct (perform_total db action) as [got ->]. case_decide; [done | by eexists].
Qed.

Lemma first_match_total (db : DB) (l : list (StoredResult EntryResult)) : exists r, first_match db l = Ok r.
Proof.
  induction l as [| n l IH]; cbn [first_match]; [by eexists |].
  destruct (trace_matches_total db (sr_trace n)) as [[] ->]; [by eexists | done].
Qed.

Lemma stored_trace_nonempty T : stored_trace T <> [].
Proof. unfold stored_trace. cbv zeta. by case_decide. Qed.

(** The walk of an entry ends, with an execution that the database repeats or nothing. *)
Lemma walk_entry (db : DB) h c entry : entry_ok h c entry ->
  exists r, walk (walk_fuel (te_store entry)) db (te_store entry) get_walker = Some (Ok r) /\
    forall cached, r = Some cached -> exists db0 T, run db0 (program h c) = Ok (te_result cached, te_used_state_trace cached) /\
      trace_is_not_cacheable (te_used_state_trace cached) c = false /\
      take_coinbase_read c (reads db0 (program h c)) = (te_read_coinbase_account cached, T) /\
      Forall (satisfied db) T.
Proof.
  intros [Hn _]. unfold get_walker. rewrite walk_spec.
  - rewrite drop_0, match_from_0. destruct (first_match_total db (nodes (te_store entry))) as [r Hr]. rewrite Hr.
    exists r. split; [done |]. intros cached ->. destruct (first_match_Some _ _ _ Hr) as (n & Hin & <- & Hm).
    rewrite Forall_forall in Hn. destruct (Hn n Hin) as (db0 & T & H1 & H2 & H3 & H4). exists db0, T.
    split_and!; [done | done | done |]. apply matches_satisfied. by rewrite <- H4.
  - eapply Forall_impl; [exact Hn |]. intros n (db0 & T & _ & _ & _ & ->). apply stored_trace_nonempty.
  - intros n Hl. rewrite Forall_forall in Hn. destruct (Hn n) as (db0 & T & _ & _ & _ & E); [by eapply list_elem_of_lookup_2 |].
    pose proof (stored_trace_nonempty T). rewrite E. destruct (stored_trace T); [done | cbn; lia].
  - rewrite drop_0. unfold walk_fuel. destruct (nodes (te_store entry)); cbn [left_to_check]; [lia |].
    rewrite drop_0, fmap_cons. unfold list_sum. cbn [foldr]. lia.
Qed.

(** Programs add to the coinbase only, and read its account when they succeed. *)
Definition coinbase_additive : Prop := forall h c,
  oblivious c (program h c) /\
  forall (db : DB) out used, run db (program h c) = Ok (Ok out, used) ->
    (take_coinbase_read c (reads db (program h c))).1 <> None.

Lemma reads_satisfied (db : DB) (p : Exec) : Forall (satisfied db) (reads db p).
Proof.
  induction p as [leaf | a k IH | a i k IH | h k IH | n k IH]; cbn [reads]; [constructor | | | |].
  - destruct (db_basic db a) eqn:E; constructor; [exact E | apply IH].
  - destruct (db_storage db a i) eqn:E; constructor; [exact E | apply IH].
  - destruct (db_code_by_hash db h); [apply IH | constructor].
  - destruct (db_block_hash db n); [apply IH | constructor].
Qed.

Lemma take_coinbase_value c (db : DB) T r T' : Forall (satisfied db) T -> take_coinbase_read c T = (Some r, T') ->
  db_basic db c = Ok r.
Proof.
  intros HT. revert T'. induction HT as [| [a v | a i v] T Hv HT IH]; intros T'; cbn [take_coinbase_read]; [done | |].
  - case_decide as Ha; [subst a; by intros [= <- <-] |].
    destruct (take_coinbase_read c T) as [f rest]. intros [= -> <-]. by eapply IH.
  - destruct (take_coinbase_read c T) as [f rest]. intros [= -> <-]. by eapply IH.
Qed.

(** The deltas of the coinbase, between two databases. *)
Lemma coinbase_deltas_spec c (db0 db : DB) r r' : db_basic db0 c = Ok r -> db_basic db c = Ok r' ->
  exists d, coinbase_deltas r r' = Some d /\ forall nd bd, d = Some (nd, bd) ->
    - 2 ^ 255 < bd < 2 ^ 255 /\
    (r = None /\ r' = None /\ nd = 0 /\ bd = 0 \/
     exists i i', r = Some i /\ r' = Some i' /\ acc_code_hash i = acc_code_hash i' /\
       nd = acc_nonce i' - acc_nonce i /\ bd = acc_balance i' - acc_balance i).
Proof.
  intros Hr0 Hr1. destruct r as [i |], r' as [i' |]; cbn [coinbase_deltas].
  - destruct (db_range _ _ _ Hr0) as [B0 N0], (db_range _ _ _ Hr1) as [B1 N1]. case_decide as Hc; [by eexists |].
    rewrite signed_uint_delta_exact, nonce_delta_exact by lia. eexists. split; [done |].
    intros nd bd [= <- <-]. split; [lia |]. right. exists i, i'. split_and!; try done.
  - by eexists.
  - by eexists.
  - eexists. split; [done |]. intros nd bd [= <- <-]. split; [lia |]. by left.
Qed.

(** A lookup does not panic, and what it finds is what running would give. *)
Lemma get_cached_result_spec cache (db : DB) h c : coinbase_additive -> cache_ok cache ->
  exists cache' cr, cache_get_cached_result cache db h c = Some (cache', Ok cr) /\ cache_ok cache' /\
    forall o, cr_result cr = Some o -> run db (program h c) = Ok (o, cr_used_state_trace cr).
Proof.
  intros Hadd Hok. destruct (Hadd h c) as [Hobl Hreads]. unfold cache_get_cached_result.
  destruct (tc_enabled cache); cbn [negb]; [| by do 2 eexists]. cbv zeta.
  assert (Hok1 : cache_ok (inc_cache_asks cache)) by exact Hok.
  set (entry := inc_total_executions _).
  assert (Hent : entry_ok h c entry) by exact (get_tx_entry_ok _ h c Hok1). clearbody entry.
  set (cache1 := set_tx_entry _ h c entry).
  assert (Hok2 : cache_ok cache1) by by apply set_tx_entry_ok.
  assert (Hhit : cache_ok (set_tx_entry (inc_cache_hits cache1) h c (inc_hits entry))) by (by apply set_tx_entry_ok).
  destruct (te_never_cache entry); [by do 2 eexists |].
  destruct (walk_entry db h c entry Hent) as (r & -> & Hr). cbn [mbind option_bind].
  destruct r as [cached |]; [| by do 2 eexists].
  destruct (Hr cached eq_refl) as (db0 & T & Hrun & Hu & Ht & Hs).
  destruct (db_basic_ok db c) as [r' Hb].
  destruct (te_result cached) as [out | e] eqn:Eo.
  2: { do 2 eexists. split; [done |]. split; [exact Hhit |]. intros o [= <-]. cbn [cr_used_state_trace].
       destruct (te_read_coinbase_account cached) as [r |].
       - by eapply (oblivious_run c db0 db _ (Err e) _ r r').
       - apply take_coinbase_None in Ht as ->. by rewrite (run_satisfied db0 db). }
  pose proof (Hreads _ _ _ Hrun) as Hne. rewrite Ht in Hne. cbn [fst] in Hne.
  destruct (te_read_coinbase_account cached) as [r |]; [| done]. rewrite Hb.
  pose proof (take_coinbase_value c db0 _ _ _ (reads_satisfied db0 _) Ht) as Hb0.
  destruct (coinbase_deltas_spec c db0 db r r' Hb0 Hb) as (d & -> & Hd). cbn [mbind option_bind].
  destruct d as [[nd bd] |]; [| by do 2 eexists]. destruct (Hd nd bd eq_refl) as [Hbd Hcase].
  destruct (move_coinbase_spec c out nd bd Hbd) as (m & -> & Hm). cbn [mbind option_bind].
  destruct m as [out' |]; [| by do 2 eexists]. specialize (Hm out' eq_refl).
  do 2 eexists. split; [done |]. split; [exact Hhit |]. intros o [= <-]. cbn [cr_used_state_trace].
  destruct Hcase as [(-> & -> & -> & ->) | (i & i' & -> & -> & Hc & -> & ->)].
  - rewrite shift_same in Hm. subst out'. rewrite (run_satisfied db0 db); [done |].
    by eapply take_coinbase_Some.
  - eapply (oblivious_run c db0 db _ (Ok out) _ (Some i) (Some i')); try done.
    cbn [moved]. rewrite decide_True by done. by rewrite Hm.
Qed.

(** ** Executing through the cache *)

(** The execution of a transaction in order_commit.rs: what is cached is taken, what
    is not is run, recorded and stored when the cache asks for it. *)
Definition execute_cached (cache : Cache) (db : DB) (h : B256) (c : Address)
  : option (Cache * result (Outcome (Report:=Report) (Parts:=Parts) * UsedStateTrace) unit) :=
  let! (cache, caching_result) := cache_get_cached_result cache db h c in
  match caching_result with
  | Err e => Some (cache, Err e)
  | Ok caching_result =>
      match cr_result caching_result with
      | Some res => Some (cache, Ok (res, cr_used_state_trace caching_result))
      | None =>
          let should_cache := cr_should_cache caching_result in
          match run_recording (EVMRecordingDatabase_new db should_cache) (program h c) with
          | (Err e, _) => Some (cache, Err e)
          | (Ok (res, used), db) =>
              let cache :=
                if should_cache
                then cache_store_result cache
                       {| ce_tx_hash := h; ce_coinbase := c; ce_recorded_trace := rd_recorded_trace db;
                          ce_result := res; ce_used_state_trace := used |}
                else cache in
              Some (cache, Ok (res, used))
          end
      end
  end.

Fixpoint execute_all (cache : Cache) (requests : list (DB * B256 * Address))
  : option (Cache * list (result (Outcome (Report:=Report) (Parts:=Parts) * UsedStateTrace) unit)) :=
  match requests with
  | [] => Some (cache, [])
  | (db, h, c) :: requests =>
      let! (cache, res) := execute_cached cache db h c in
      let! (cache, rest) := execute_all cache requests in
      Some (cache, res :: rest)
  end.

Lemma execute_cached_spec cache (db : DB) h c : coinbase_additive -> cache_ok cache ->
  exists cache', execute_cached cache db h c = Some (cache', run db (program h c)) /\ cache_ok cache'.
Proof.
  intros Hadd Hok. unfold execute_cached.
  destruct (get_cached_result_spec cache db h c Hadd Hok) as (cache1 & cr & -> & Hok1 & Hhit).
  cbn [mbind option_bind]. destruct (cr_result cr) as [o |].
  { rewrite (Hhit o eq_refl). eauto. }
  rewrite run_recording_spec. cbn [rd_inner_db EVMRecordingDatabase_new rd_should_record rd_recorded_trace app].
  destruct (run_total db (program h c)) as [[o used] Hrun]. rewrite Hrun.
  destruct (cr_should_cache cr); [| by eauto]. eexists. split; [done |].
  unfold cache_store_result. destruct (tc_enabled cache1); [| done]. cbn [negb ce_tx_hash ce_coinbase].
  apply set_tx_entry_ok; [done |]. apply entry_store_ok; [by apply get_tx_entry_ok | done].
Qed.

Lemma execute_all_spec requests cache : coinbase_additive -> cache_ok cache ->
  exists cache', execute_all cache requests = Some (cache', (fun '(db, h, c) => run db (program h c)) <$> requests) /\
    cache_ok cache'.
Proof.
  intros Hadd. revert cache. induction requests as [| [[db h] c] requests IH]; intros cache Hok; cbn [execute_all].
  { by exists cache. }
  destruct (execute_cached_spec cache db h c Hadd Hok) as (cache1 & -> & Hok1). cbn [mbind option_bind].
  destruct (IH cache1 Hok1) as (cache2 & -> & Hok2). exists cache2. by rewrite fmap_cons.
Qed.

(** C24. Executing transactions through the cache gives what running each of them
    gives: from an empty cache, whatever transactions run on whatever
    states, no lookup or store panics, every outcome and used state trace,
    taken from the cache or run, is that of a run on the same state, and an
    entry holds at most five executions; provided that, apart from
    executions the cache refuses, a transaction uses the account of the
    coinbase only to add to its balance and nonce and reads it when it
    succeeds. The operations are taken one after another, and the databases
    are those of one block: their reads do not fail, they agree on code,
    which is addressed by its hash, and on the hashes of earlier blocks, and
    balances and nonces are in the range of signed numbers. *)
Theorem cached_execution_transparent (enabled : bool) (requests : list (DB * B256 * Address)) : coinbase_additive ->
  exists cache, execute_all (TxExecutionCache_new enabled) requests
    = Some (cache, (fun '(db, h, c) => run db (program h c)) <$> requests) /\
    forall key entry, tc_stored_results cache !! key = Some entry ->
      (store_len (te_store entry) <= NUM_OF_CACHED_EXECUTIONS)%nat.
Proof.
  intros Hadd. destruct (execute_all_spec requests (TxExecutionCache_new enabled) Hadd) as (cache & -> & Hok).
  { apply map_Forall_empty. }
  exists cache. split; [done |]. intros [h c] entry He. apply (Hok _ _ He).
Qed.
End transparency.

(** ** A transfer that pays the coinbase *)
Section sample.
(** Two databases that differ in the balance of account 7. *)
Definition sample_account (balance : Z) : AccountInfo := {| acc_balance := balance; acc_nonce := 3; acc_code_hash := 0 |}.

#[local] Instance sample_database : Database bool := {|
  db_basic := fun (db : bool) (a : Address) => Ok (Some (sample_account (if decide (a = 7) then if db then 150 else 100 else 50)));
  db_storage := fun _ _ _ => Ok 0;
  db_code_by_hash := fun _ _ => Ok [];
  db_block_hash := fun _ _ => Ok 0;
|}.

#[local] Instance sample_database_ok : DatabaseOk bool.
Proof.
  split; [by eexists | by eexists | by eexists | by eexists |].
  intros db a i [= <-]. destruct (decide (a = 7)), db; cbn; lia.
Qed.

Definition paid (i : AccountInfo) : ResultAndState (Report:=bool) (Parts:=unit) :=
  {| rs_result := true;
     rs_state := {[ 7 := {| ea_info := {| acc_balance := acc_balance i + 10; acc_nonce := acc_nonce i;
                                          acc_code_hash := acc_code_hash i |}; ea_parts := tt |} ]} |}.

(** The sender and a slot are read, and the coinbase gets ten wei. *)
Definition sample_program (h : B256) (c : Address) : Exec (Report:=bool) (Parts:=unit) :=
  if decide (c = 7) then
    ReadBasic 1 (fun _ => ReadStorage 5 0 (fun _ => ReadBasic 7 (fun r =>
      Done (Ok (paid (default (sample_account 0) r)), UsedStateTrace_default))))
  else Done (Err TxErr_GasLeft, UsedStateTrace_default).

Lemma sample_additive : coinbase_additive (DB:=bool) sample_program.
Proof.
  intros h c. unfold sample_program. destruct (decide (c = 7)) as [-> | Hne]; [| by split].
  split.
  - cbn. split; [done |]. intros _ _. split; [| done]. intros _ r r'. apply follows_result.
    intros i i' -> -> Hc. do 3 f_equal. unfold shift, paid. cbn. f_equal.
    rewrite alter_singleton_eq. f_equal. unfold shift_account. cbn. rewrite Hc. do 2 f_equal; lia.
  - intros db out used _. cbn. by destruct db.
Qed.

Definition sample_requests : list (bool * B256 * Address) := [(false, 1, 7); (false, 1, 7); (true, 1, 7); (true, 2, 9)].

Lemma cached_execution_transparent_witness :
  exists cache, execute_all sample_program (TxExecutionCache_new true) sample_requests
    = Some (cache, (fun '(db, h, c) => run db (sample_program h c)) <$> sample_requests).
Proof.
  destruct (cached_execution_transparent sample_program true sample_requests sample_additive) as (cache & E & _).
  exists cache. exact E.
Defined.

(** The second and the third execution are hits; the third has the coinbase moved. *)
Example sample_hits :
  (fun r => (tc_cache_asks r.1, tc_cache_hits r.1)) <$> execute_all sample_program (TxExecutionCache_new true) sample_requests
  = Some (4, 2).
Proof. vm_compute. reflexivity. Qed.

(** A call that sends value from the account of the coinbase depends on its balance,
    but lists it neither as read nor as written: the stored outcome is repeated when
    the balance would suffice. *)
Definition sending_program (h : B256) (c : Address) : Exec (Report:=bool) (Parts:=unit) :=
  ReadBasic c (fun r =>
    let enough := bool_decide (120 <= acc_balance (default (sample_account 0) r)) in
    Done (Ok {| rs_result := enough; rs_state := rs_state (paid (default (sample_account 0) r)) |},
          UsedStateTrace_default)).

Definition sent (r : result (Outcome (Report:=bool) (Parts:=unit) * UsedStateTrace) unit) : option bool :=
  match r with Ok (Ok out, _) => Some (rs_result out) | _ => None end.

Example value_from_coinbase_not_seen :
  match execute_all sending_program (TxExecutionCache_new true) [(false, 1, 7); (true, 1, 7)] with
  | Some (_, results) => sent <$> results
  | None => []
  end = [Some false; Some false] /\
  sent (run true (sending_program 1 7)) = Some true.
Proof. split; vm_compute; reflexivity. Qed.
End sample.
